(* ===== verification/_CoqProject ===== *)
-Q . S2P
Prelude.v
GF256.v
Erasure.v
Float64.v
Sha3.v
Sha256.v
Hashing.v
Primitives.v
Bls.v
Encoding.v
Json.v
MerkleTree.v
MerkleLog.v
Commitment.v
Network.v
Protocol.v
Writer.v
WriterGate.v
Router.v
Sequencing.v
Dag.v
DagBft.v
Engine.v
ScalarField.v
Shamir.v
Dkg.v
Committee.v
Adapter.v
Receipt.v
Governance.v
Bridge.v
Challenge.v
Attestation.v
Node.v
Economics.v
Incentives.v
Vdf.v
Enforcement.v
AuditLog.v
Compliance.v
Federation.v
Admission.v
Staking.v
Custody.v
Streaming.v
