(* ===== verification/Prelude.v ===== *)
(** * The Lattice Transfer Protocol: a verification development

    The program is the Python package [ltp] under src/src/ltp.  It moves an
    entity from a sender to a receiver in three phases.  COMMIT erasure-codes
    the content, encrypts the shards, spreads them over commitment nodes and
    writes a signed record to an append-only Merkle log.  LATTICE seals a small
    key to the receiver.  MATERIALIZE unseals it, authenticates the record,
    fetches and decrypts shards, decodes, and checks the EntityID.  A
    bridge carries messages between chains with it.  Beside the
    transfer, an execution layer orders transactions of registered writers onto
    virtual machines behind a policy gate: writers form a committee, the
    committee generates a threshold key and runs DAG consensus, and committed
    batches are attested with the key and executed.

    ** Files, and the code they model (all under src/src/ltp)

    - Prelude: Python values, exceptions as the [result] monad, big-endian
      integers, hexadecimal; shared tactics, hints and list lemmas.
    - GF256, Erasure: erasure.py, the field tables and [ErasureCoder].
    - Float64: IEEE 754 doubles as bit patterns, decoded by the Standard
      Library's [SpecFloat] for arithmetic and comparisons.
    - Sha3, Sha256: executable SHA3-256, SHA-256 and HMAC, checked on published
      test vectors, so that examples run on real hashes.
    - Hashing: dual_lane/ (hashing.py, lanes.py, profiles.py).  The class
      [CanonicalHash] is the interface every later file uses; the theorem
      [canonical_lane_refines] discharges it from the code of both lanes.
    - Primitives: primitives.py and keypair.py (AEAD, ML-KEM, ML-DSA wrappers,
      [KeyPair], [SealedBox]).  The cryptographic libraries are the record
      [pq_backend]; what the code relies on are named properties of it
      ([aead_ok], [kem_pair], [dsa_pair]), and [toy_pq] satisfies them.
    - Bls: bls.py and the BLS helpers of domain.py.
    - Encoding: encoding.py, domain.py, envelope.py.
    - Json: [json.dumps] and [repr] of a float, executable (shared by the
      files whose code hashes or sends JSON texts).
    - MerkleTree, MerkleLog: merkle_log/ (tree.py, log.py, proof.py, sth.py,
      portable_proof.py).
    - Commitment, Network: commitment.py ([CommitmentNode] storage,
      [CommitmentRecord], [CommitmentLog]; placement, distribution and
      retrieval of [CommitmentNetwork]).
    - Protocol: shards.py, entity.py, lattice.py, protocol.py.
    - Writer, WriterGate: execution/writer*.py (registry, epochs, policies,
      roles, emergency recovery, gate).
    - Router: execution/ router.py, registry.py, state_root.py,
      batch_executor.py, precompile.py.  Virtual machines are instances of the
      class [ExecutionModel].
    - Sequencing: sequencing.py.
    - Dag, DagBft, Engine: consensus/ types.py, dag_store.py, commit_rule.py;
      protocol.py with a step relation for a system of validators, Byzantine
      ones included; engine.py with faults.py and the partitions of
      message_bus.py.
    - ScalarField, Shamir: execution/committee/dkg/scalar_poly.py with a proof
      that the modulus is prime, and interpolation over the field.
    - Dkg: execution/committee/dkg/ vss.py, session.py, registry.py,
      threshold_signing.py, types.py.  The curve groups of zk/ec_backend are
      instances of the class [CurveGroup]; the field itself is one.
    - Committee: execution/committee/ types.py, policy.py, formation.py,
      standby.py, eviction.py, epoch.py, manager.py.
    - Adapter: consensus/ validator_set.py, committee_sync.py, events.py,
      bls_certificates.py, backend.py, adapter.py, the composition of
      committee, keys and engine.
    - Receipt, Governance: receipt.py; governance.py (signer policies,
      transition votes) with the phase machine [GovernanceTransition] of
      enforcement.py.
    - Bridge: bridge/ message.py, anchor.py, relayer.py, materializer.py, the
      message bridge over transfer protocol, receipts, policies and sequences.
    - Challenge: bridge/ challenge.py, fraud_proof.py, watcher.py and the
      verification side of zk_bridge.py.
    - Attestation, Node: execution/attestation.py; execution_monitor.py, state_attestor.py, node_executor.py, consensus.py
      and consensus_node.py, the round loop with its halt state machine, over
      committee, router and attestation.
    - Economics, Incentives: economics.py (vesting, fees, rewards, slashing,
      the epoch) and incentives.py (the stablecoin ledger with accrual,
      settlement, pricing and admission).
    - Vdf, Enforcement: enforcement.py, the delay function with its primality
      test; possession proofs, slashing conditions, disputes, commit-reveal,
      batches and runtime invariants.
    - AuditLog, Compliance: compliance.py, the hash-chained audit log with its
      exports; roles, geo-fence, key rotation, erasure, the software HSM, the
      cryptographic provider, the configuration check.
    - Federation: federation.py, registry and trust, identities, agreements,
      tree heads, resolution, fetching and rate limits between networks.
    - Admission: node/admission.py, permissioned admission of nodes.
    - Staking, Custody: the remaining parts of commitment.py: stake, escrow,
      reputation and earnings of a node, the endowment; registration, audits,
      eviction with repair, expiry and regions of [CommitmentNetwork].
    - Streaming: streaming.py, chunked streams and their manifest.

    ** Conventions

    [bytes] and [str] are lists of integers, a string being its UTF-8 bytes.
    An operation that may raise returns [result]; state is passed explicitly;
    randomness and clock readings are arguments.  Where the code shares mutable
    objects and a claim depends on it, the store is modelled: nodes are
    positions in the network's list, policies are references into a heap,
    rosters are references into a store the epoch history shares.
    Python integers are [Z] with the range checks of [struct.pack] written out.

    Fuel occurs in the Merkle functions (the number of leaves bounds the
    recursion; [mth] and the others supply it and satisfy the recursive
    equations without it), in [merkle_levels] (each level is shorter) and in
    the search of the causal history (the parent links of the store bound it;
    [causal_history_exact] shows that they suffice).

    Examples that run whole protocols hash with the checksum [quick_digest],
    which every evaluator computes fast; no theorem mentions it.

    ** What the theorems show

    - Transfer (Protocol): commit, lattice and materialize compose to the
      identity; they still do when nodes are lost or corrupted as long as k
      shards survive; a materialization never yields anything else than the
      committed content.  Different entities can share an EntityID.
    - Erasure: every k-subset of the shards decodes; exact error behaviour.
    - Log (MerkleTree, MerkleLog, Commitment): completeness and soundness of
      inclusion and consistency proofs, equivocation detection, portable
      proofs, injectivity of the record encoding, integrity of the commitment
      log in every reachable state, exact expiry of shards.  Soundness assumes
      [collision_free] only on the strings the computation hashes.
    - Encodings: canonicity, domain separation, envelope and sealed-box round
      trips.
    - Network: placement and retrieval.
    - Writers: an invariant over all reachable registries (replayable audit
      logs, sponsors, revocation), permanence of revocation, exactness of the
      policy engine, of the dispatch decision and of policy rollback, the rate
      limit over runs of batches, isolation of virtual machines.
    - Sequencing: no replay.
    - Consensus (Dag, DagBft, Engine): the causal history is exact; agreement
      of all decisions in every execution with enough honest validators, by an
      invariant over the step relation; every run of the engine is such an
      execution, so the engine agrees whatever faults are injected.
    - Committee and keys (ScalarField, Shamir, Dkg, Committee): two accepted
      openings of a share give a discrete logarithm, any threshold of members
      signs for the group, formation and eviction are exact, an invariant holds over the life of a manager, and
      the committee of a new epoch signs.  Verification runs through the
      modelled BLS front end over a library that behaves as the standard says
      ([bls_standard]): it never accepts under the identity, so signatures
      verify exactly when the secret of the group is not zero.
    - Composition (Adapter): committed batches are attested with a signature
      that verifies under the registered group key, unless that is the identity;
      validators whose writers leave the roster are silenced.
    - Receipts and policies (Receipt, Governance): receipts build, verify and
      bind their content; policies bind signers and rules; the policy check is
      exact; supermajority is two thirds of the operators; phases are one-way.
    - Bridge (Bridge, Challenge): messages are delivered end to end, once;
      nonces of an anchor increase; challenge windows are sound in every
      reachable manager and refine the table of transitions; fork proofs
      convict exactly the equivocators; a watcher detects every fork among
      heads whose checks do not raise.
    - Nodes (Attestation, Node): the round loop refines batch execution over
      any consensus adapter, up to the halt when halting is configured; rounds
      are attested with signatures that verify under the keys of node and
      committee; the monitor counts exactly.
    - Economics (Economics, Incentives): fees and rewards are split without
      loss, vesting pays its schedule, slashes are bounded; the ledger is
      solvent in every reachable state and settlements are exact.
    - Enforcement (Vdf, Enforcement): the prime search ends and skips no odd
      prime, evaluation and verification agree, conditions decide as
      documented, disputes are final, commitments are revealed once.
    - Compliance (AuditLog, Compliance): the audit log is tamper-evident,
      since the printed text determines an event; access is what the policies
      grant; fenced placement stays within the policy; erasure is complete.
    - Federation: handshakes federate; the accepted tree heads of a network
      move forward while it stays registered; shards cross networks under
      agreements and rate limits only, which the in-memory transport verifies.
    - Nodes and custody (Admission, Staking, Custody): an active node carries
      enough distinct endorsements and followed the life cycle; escrow and
      stake account for every deposit, withholding follows its schedule; an
      audit passes exactly when every shard asked for is there and agrees with
      the first other copy; an eviction leaves every repairable shard on a
      node in service.
    - Streams (Streaming): what was added is reassembled, a manifest binds the
      chunks, closed streams do not change unless opened again.
    - Deviations are theorems too: eviction breaks the audit chain, key version
      numbers repeat, identities and agreements can be forged, tree-head fields
      are not signed, resolution uses one agreement; the delay of the delay function can be
      skipped, possession proofs need no data, commitments can be split anew,
      a stripped attestation verifies, a halt can be lost; receipts do not
      expire, votes and challenges can be cast for others, operators need not
      endorse themselves, possession audits pass on garbage, the end of a
      regional failure pardons evicted nodes, finality proofs can be made up,
      the commitment reference of the bridge is constant, relabelled packets
      are replays; with the default tolerance the quorum can split, committed transactions are delivered again, the block digest is
      blind to the order of transactions, a false complaint excludes an honest
      dealer, a missing share goes unnoticed, a revoked standby member is
      promoted, forced epochs have no key, small committees attest with one
      key, a new epoch drops pending transactions; inclusion proofs of a
      wrong length or size are accepted,
      [verify_append_only] fails on honest heads after further appends, the
      time to live of a record is not authenticated, three registry operations
      bypass approval, expiry never fires, a lone writer at its rate limit is
      locked out, minimum stake and writer cap refuse everyone.

    ** Not modelled, and the plan

    Optional collaborators are absent in the models: the durable log store, the
    compliance logger of placement and distribution, the session objects of the protocol.  A call of
    [commit] or [materialize] that raises returns the exception alone.  Next in
    line: shape canonicalization, key rotation, the
    corridor wire format.  Discovery over DNS and the HTTP transport of the
    federation are I/O.  The concentration
    metrics of enforcement.py add doubles with [sum], whose algorithm depends
    on the Python version.  The background threads of the consensus engine,
    the DKG transport (an interface without implementation), services, chain
    clients, storage backends, zero-knowledge and BLS libraries stay
    outside: they are I/O or code that is not in the sources. *)

From Stdlib Require Export ZArith Lia.
From stdpp Require Export base gmap list strings sorting.
From stdpp Require Import pretty.

Open Scope Z_scope.

(** * Python values

    [bytes] is a list of integers; a value of the Python type [bytes] only
    holds integers in [0, 256), which [wf_bytes] says.  A Python [str] is
    represented by its UTF-8 encoding, so [s.encode()] is the identity. *)
Abbreviation bytes := (list Z).
Abbreviation pystr := (list Z).

Definition isb (z : Z) : Prop := 0 <= z < 256.
Definition wf_bytes (bs : bytes) : Prop := Forall isb bs.

(** Literals: the bytes of an ASCII string. *)
Fixpoint lit (s : string) : bytes :=
  match s with
  | EmptyString => []
  | String a s' => Z.of_N (Ascii.N_of_ascii a) :: lit s'
  end.

(** [str(z)] for an integer. *)
Definition str_int (z : Z) : pystr := lit (pretty z).

Lemma lit_wf s : wf_bytes (lit s).
Proof.
  induction s as [|a s IH]; simpl; constructor; [|exact IH].
  unfold isb. pose proof (Ascii.N_ascii_bounded a). lia.
Qed.

(** * Exceptions *)
Inductive exn : Type :=
| ValueError (msg : string)
| KeyError
| IndexError
| AssertionError
| StructError
| RuntimeError
| TypeError
| OverflowError
| AttributeError
| PermissionError
| ZeroDivisionError
| LedgerError.

Arguments ValueError msg%_string.

Inductive result (A : Type) : Type :=
| Ok (a : A)
| Err (e : exn).
Arguments Ok {A} a.
Arguments Err {A} e.

#[export] Instance result_ret : MRet result := fun A a => Ok a.
#[export] Instance result_bind : MBind result := fun A B f m =>
  match m with Ok a => f a | Err e => Err e end.
#[export] Instance result_fmap : FMap result := fun A B f m =>
  match m with Ok a => Ok (f a) | Err e => Err e end.
#[export] Instance exn_eq_dec : EqDecision exn.
Proof. solve_decision. Defined.
#[export] Instance result_eq_dec {A} `{EqDecision A} : EqDecision (result A).
Proof. solve_decision. Defined.

Lemma Ok_inj {A} (a b : A) : Ok a = Ok b -> a = b.
Proof. by injection 1. Qed.

Definition is_ok {A} (r : result A) : bool :=
  match r with Ok _ => true | Err _ => false end.

Definition get_ok {A} (d : A) (r : result A) : A :=
  match r with Ok a => a | Err _ => d end.

Lemma get_ok_eq {A} (d : A) (r : result A) : is_ok r = true -> r = Ok (get_ok d r).
Proof. by destruct r. Qed.

(** [x] if the option holds it, else the exception. *)
Definition or_raise {A} (e : exn) (o : option A) : result A :=
  match o with Some a => Ok a | None => Err e end.

(** A [for] loop whose body may raise. *)
Fixpoint foldM {A S} (f : S -> A -> result S) (s : S) (xs : list A) : result S :=
  match xs with
  | [] => Ok s
  | x :: xs => match f s x with Ok s' => foldM f s' xs | Err e => Err e end
  end.

Fixpoint mapR {A B} (f : A -> result B) (xs : list A) : result (list B) :=
  match xs with
  | [] => Ok []
  | x :: xs =>
      match f x with
      | Ok y => match mapR f xs with Ok ys => Ok (y :: ys) | Err e => Err e end
      | Err e => Err e
      end
  end.

(** * Automation *)
Create HintDb ltp.

(** Case analysis on the scrutinee of the first [match]/[if] of the goal or
    of a hypothesis, remembering the equation. *)
Ltac case_on t := let E := fresh "E" in destruct t eqn:E.
Ltac split_matches :=
  repeat (match goal with
  | |- context [match ?x with _ => _ end] => case_on x
  | H : context [match ?x with _ => _ end] |- _ => case_on x
  end; simplify_eq/=).

(** Turn boolean tests into propositions. *)
Ltac breflect :=
  repeat match goal with
  | H : (_ =? _) = true |- _ => apply Z.eqb_eq in H
  | H : (_ =? _) = false |- _ => apply Z.eqb_neq in H
  | H : (_ <? _) = true |- _ => apply Z.ltb_lt in H
  | H : (_ <? _) = false |- _ => apply Z.ltb_ge in H
  | H : (_ <=? _) = true |- _ => apply Z.leb_le in H
  | H : (_ <=? _) = false |- _ => apply Z.leb_gt in H
  | H : (_ =? _)%nat = true |- _ => apply Nat.eqb_eq in H
  | H : (_ =? _)%nat = false |- _ => apply Nat.eqb_neq in H
  | H : (_ <? _)%nat = true |- _ => apply Nat.ltb_lt in H
  | H : (_ <? _)%nat = false |- _ => apply Nat.ltb_ge in H
  | H : (_ <=? _)%nat = true |- _ => apply Nat.leb_le in H
  | H : (_ <=? _)%nat = false |- _ => apply Nat.leb_gt in H
  | H : _ && _ = true |- _ => apply andb_true_iff in H as [? ?]
  | H : _ || _ = false |- _ => apply orb_false_iff in H as [? ?]
  | H : negb _ = true |- _ => apply negb_true_iff in H
  | H : negb _ = false |- _ => apply negb_false_iff in H
  | H : bool_decide _ = true |- _ => apply bool_decide_eq_true in H
  | H : bool_decide _ = false |- _ => apply bool_decide_eq_false in H
  end.

(** * Big-endian integers: [struct.pack] and [int.from_bytes] *)
Fixpoint be_encode (n : nat) (v : Z) : bytes :=
  match n with
  | O => []
  | S n => be_encode n (v / 256) ++ [v mod 256]
  end.

Definition be_decode (bs : bytes) : Z := fold_left (fun a b => a * 256 + b) bs 0.

(** [struct.pack(">B"/">I"/">Q", v)] with [n] = 1, 4, 8: raises
    [struct.error] when [v] does not fit. *)
Definition struct_pack (n : nat) (v : Z) : result bytes :=
  if (0 <=? v) && (v <? 256 ^ Z.of_nat n) then Ok (be_encode n v) else Err StructError.

(** [v.to_bytes(n, "big")]: raises [OverflowError] when [v] does not fit. *)
Definition int_to_bytes (n : nat) (v : Z) : result bytes :=
  if (0 <=? v) && (v <? 256 ^ Z.of_nat n) then Ok (be_encode n v) else Err OverflowError.

(** [struct.unpack(">Q", bs)[0]]: raises unless the buffer has 8 bytes. *)
Definition struct_unpack (n : nat) (bs : bytes) : result Z :=
  if (length bs =? n)%nat then Ok (be_decode bs) else Err StructError.

Lemma be_encode_length n v : length (be_encode n v) = n.
Proof. revert v; induction n; intros; simpl; rewrite ?length_app, ?IHn; simpl; lia. Qed.

Lemma be_encode_wf n v : wf_bytes (be_encode n v).
Proof.
  revert v; induction n; intros; simpl; [constructor|].
  apply Forall_app; split; [apply IHn|].
  repeat constructor; unfold isb; pose proof (Z.mod_pos_bound v 256); lia.
Qed.

Lemma be_decode_app bs b : be_decode (bs ++ [b]) = be_decode bs * 256 + b.
Proof. unfold be_decode. by rewrite fold_left_app. Qed.

Lemma be_decode_encode n v :
  0 <= v < 256 ^ Z.of_nat n -> be_decode (be_encode n v) = v.
Proof.
  revert v; induction n as [|n IH]; intros v Hv.
  - change (256 ^ Z.of_nat 0) with 1 in Hv. change (be_decode (be_encode 0 v)) with 0. lia.
  - simpl. rewrite Nat2Z.inj_succ, Z.pow_succ_r in Hv by lia.
    rewrite be_decode_app, IH.
    + pose proof (Z.div_mod v 256). lia.
    + split; [apply Z.div_pos; lia|]. apply Z.div_lt_upper_bound; lia.
Qed.

Lemma be_encode_inj n v w :
  0 <= v < 256 ^ Z.of_nat n -> 0 <= w < 256 ^ Z.of_nat n ->
  be_encode n v = be_encode n w -> v = w.
Proof. intros ?? E. apply (f_equal be_decode) in E. by rewrite !be_decode_encode in E. Qed.

#[global] Arguments be_encode : simpl never.
#[global] Arguments be_decode : simpl never.

Lemma struct_pack_Ok n v bs :
  struct_pack n v = Ok bs <-> 0 <= v < 256 ^ Z.of_nat n /\ bs = be_encode n v.
Proof.
  unfold struct_pack. destruct (0 <=? v) eqn:E1, (v <? _) eqn:E2; simpl; breflect;
    split; intros; destruct_and?; simplify_eq; try done; lia.
Qed.

Lemma int_to_bytes_Ok n v bs :
  int_to_bytes n v = Ok bs <-> 0 <= v < 256 ^ Z.of_nat n /\ bs = be_encode n v.
Proof.
  unfold int_to_bytes. destruct (0 <=? v) eqn:E1, (v <? _) eqn:E2; simpl; breflect;
    split; intros; destruct_and?; simplify_eq; try done; lia.
Qed.

Lemma be_decode_nonneg bs : wf_bytes bs -> 0 <= be_decode bs.
Proof.
  induction bs as [|b bs IH] using rev_ind; [done|].
  rewrite be_decode_app. intros [H1 H2]%Forall_app. inversion H2; subst.
  unfold isb in *. specialize (IH H1). lia.
Qed.

(** * Lists *)
Lemma app_inj_len {A} (a b c d : list A) :
  length a = length c -> a ++ b = c ++ d -> a = c /\ b = d.
Proof. intros; by apply app_inj_1. Qed.

Lemma NoDup_take_prefix {A} n (l : list A) : NoDup l -> NoDup (take n l).
Proof. intros Hl. rewrite <- (take_drop n l) in Hl. by apply NoDup_app in Hl as [? _]. Qed.

Lemma mapR_Ok {A B} (f : A -> result B) xs ys :
  mapR f xs = Ok ys <-> Forall2 (fun x y => f x = Ok y) xs ys.
Proof.
  revert ys; induction xs as [|x xs IH]; intros ys; simpl.
  - split; [intros [=<-]; constructor|by inversion 1].
  - split.
    + destruct (f x) eqn:E; [|done]. destruct (mapR f xs) eqn:E2; [|done].
      intros [=<-]. constructor; [done|]. by apply IH.
    + inversion 1 as [|?? ?? Hf Hr]; subst. rewrite Hf. by apply IH in Hr as ->.
Qed.

Lemma mapR_pure {A B} (f : A -> result B) (g : A -> B) xs :
  (forall x, x ∈ xs -> f x = Ok (g x)) -> mapR f xs = Ok (map g xs).
Proof.
  intros H. apply mapR_Ok. induction xs as [|x xs IH]; simpl; constructor.
  - apply H. constructor.
  - apply IH. intros; apply H. by constructor.
Qed.

Lemma foldM_app {A S} (f : S -> A -> result S) s xs ys :
  foldM f s (xs ++ ys) = match foldM f s xs with Ok s' => foldM f s' ys | Err e => Err e end.
Proof. revert s; induction xs as [|x xs IH]; intros s; simpl; [done|]. by destruct (f s x). Qed.

(** Invariant rule for loops that do not raise. *)
Lemma foldM_inv {A S} (f : S -> A -> result S) (I : list A -> S -> Prop) xs s s' :
  I [] s ->
  (forall done x s1 s2, I done s1 -> f s1 x = Ok s2 -> I (done ++ [x]) s2) ->
  foldM f s xs = Ok s' -> I xs s'.
Proof.
  intros H0 Hstep. enough (forall done s, I done s -> foldM f s xs = Ok s' -> I (done ++ xs) s')
    as H by (intros E; apply (H [] s H0 E)).
  clear s H0. induction xs as [|x xs IH]; intros dn s Hi E; simpl in E.
  - simplify_eq. by rewrite app_nil_r.
  - destruct (f s x) as [s1|] eqn:Ef; [|done].
    rewrite cons_middle, app_assoc. by eapply IH; [eapply Hstep|].
Qed.

Lemma lookup_map {A B} (f : A -> B) (l : list A) i : map f l !! i = f <$> l !! i.
Proof. apply list_lookup_fmap. Qed.

Lemma lookup_total_map {A B} `{Inhabited A, Inhabited B} (f : A -> B) (l : list A) i :
  (i < length l)%nat -> map f l !!! i = f (l !!! i).
Proof.
  intros Hi. destruct (lookup_lt_is_Some_2 l i Hi) as [x Hx].
  rewrite (list_lookup_total_correct l i x Hx). apply list_lookup_total_correct.
  by rewrite lookup_map, Hx.
Qed.

Lemma elem_of_map {A B} (f : A -> B) (l : list A) y : y ∈ map f l <-> exists x, y = f x /\ x ∈ l.
Proof. apply list_elem_of_fmap. Qed.

Lemma wf_bytes_app a b : wf_bytes (a ++ b) <-> wf_bytes a /\ wf_bytes b.
Proof. apply Forall_app. Qed.

Lemma wf_bytes_take n a : wf_bytes a -> wf_bytes (take n a).
Proof. apply Forall_take. Qed.
Lemma wf_bytes_drop n a : wf_bytes a -> wf_bytes (drop n a).
Proof. apply Forall_drop. Qed.

#[export] Hint Resolve be_encode_wf wf_bytes_take wf_bytes_drop : ltp.

(** * Python's stable [sorted] *)
Section SortBy.
Context {A : Type} (leb : A -> A -> bool).

Fixpoint insert_by (x : A) (xs : list A) : list A :=
  match xs with
  | [] => [x]
  | y :: ys => if leb x y then x :: y :: ys else y :: insert_by x ys
  end.
Definition sort_by (xs : list A) : list A := fold_right insert_by [] xs.

Lemma insert_by_perm x xs : insert_by x xs ≡ₚ x :: xs.
Proof.
  induction xs as [|y ys IH]; simpl; [done|]. destruct (leb x y); [done|].
  rewrite IH. constructor.
Qed.
Lemma sort_by_perm xs : sort_by xs ≡ₚ xs.
Proof. induction xs as [|x xs IH]; simpl; [done|]. by rewrite insert_by_perm, IH. Qed.

Lemma elem_of_sort_by x xs : x ∈ sort_by xs <-> x ∈ xs.
Proof. by rewrite sort_by_perm. Qed.

Let le x y := leb x y = true.
Context (le_total : forall x y, leb x y = true \/ leb y x = true).
Context (le_trans : forall x y z, leb x y = true -> leb y z = true -> leb x z = true).

Lemma insert_by_sorted x xs : StronglySorted le xs -> StronglySorted le (insert_by x xs).
Proof.
  induction 1 as [|y ys Hs IH Hy]; simpl; [repeat constructor|].
  destruct (leb x y) eqn:E; constructor; [by constructor|..|done|].
  - constructor; [done|]. eapply Forall_impl; [exact Hy|]. intros z. by apply le_trans.
  - rewrite insert_by_perm. constructor; [|done]. destruct (le_total x y); [congruence|done].
Qed.
Lemma sort_by_sorted xs : StronglySorted (fun x y => leb x y = true) (sort_by xs).
Proof. induction xs as [|x xs IH]; simpl; [constructor|by apply insert_by_sorted]. Qed.

(** The sorted list only depends on the elements when ties are equal. *)
Lemma sort_by_canonical xs ys :
  (forall x y, x ∈ xs -> y ∈ xs -> leb x y = true -> leb y x = true -> x = y) ->
  xs ≡ₚ ys -> sort_by xs = sort_by ys.
Proof.
  intros Hanti Hp. apply (StronglySorted_unique_strong le).
  - intros x y Hx Hy. rewrite elem_of_sort_by in Hx. rewrite elem_of_sort_by, <- Hp in Hy. auto.
  - apply sort_by_sorted.
  - apply sort_by_sorted.
  - by rewrite !sort_by_perm.
Qed.
End SortBy.

(** [sum(xs)] *)
Definition sumZ : list Z -> Z := fold_right Z.add 0.

Lemma sumZ_cons x xs : sumZ (x :: xs) = x + sumZ xs.
Proof. done. Qed.

Lemma sumZ_app a b : sumZ (a ++ b) = sumZ a + sumZ b.
Proof. induction a as [|x a IH]; [done|]. cbn [app]. rewrite !sumZ_cons. lia. Qed.

Lemma sumZ_snoc xs x : sumZ (xs ++ [x]) = sumZ xs + x.
Proof. rewrite sumZ_app. cbn. lia. Qed.

Lemma sumZ_nonneg xs : Forall (fun x => 0 <= x) xs -> 0 <= sumZ xs.
Proof. induction 1; [done|]. rewrite sumZ_cons. lia. Qed.

(** * Insertion-ordered dictionaries *)
Section Dicts.
Context {K A : Type} `{EqDecision K}.
Fixpoint dict_set (d : list (K * A)) (k : K) (v : A) : list (K * A) :=
  match d with
  | [] => [(k, v)]
  | (k', v') :: d => if decide (k' = k) then (k', v) :: d else (k', v') :: dict_set d k v
  end.
Fixpoint dict_find (d : list (K * A)) (k : K) : option A :=
  match d with
  | [] => None
  | (k', v) :: d => if decide (k' = k) then Some v else dict_find d k
  end.

(** [dict.pop(k, ...)] and [del d[k]]. *)
Fixpoint dict_del (d : list (K * A)) (k : K) : list (K * A) :=
  match d with
  | [] => []
  | (k', v) :: d => if decide (k' = k) then d else (k', v) :: dict_del d k
  end.

Lemma dict_set_new (d : list (K * A)) k v : k ∉ d.*1 -> dict_set d k v = d ++ [(k, v)].
Proof.
  induction d as [|[k' v'] d IH]; simpl; [done|]. intros [Hk Hd]%not_elem_of_cons.
  rewrite decide_False by done. by rewrite IH.
Qed.

Lemma dict_find_elem (d : list (K * A)) k v : NoDup d.*1 -> (k, v) ∈ d -> dict_find d k = Some v.
Proof.
  induction d as [|[k' v'] d IH]; simpl; [by intros _ ?%not_elem_of_nil|].
  intros [Hk Hd]%NoDup_cons [E|Hin]%elem_of_cons; [simplify_eq; by rewrite decide_True|].
  rewrite decide_False; [auto|]. intros ->. apply Hk. apply list_elem_of_fmap. by exists (k, v).
Qed.

Lemma dict_find_set (d : list (K * A)) k v k' :
  dict_find (dict_set d k v) k' = if decide (k = k') then Some v else dict_find d k'.
Proof.
  induction d as [|[k0 v0] d IH]; simpl; [done|]. destruct (decide (k0 = k)) as [->|Hne]; simpl.
  - by destruct (decide (k = k')).
  - rewrite IH. destruct (decide (k0 = k')) as [->|], (decide (k = k')) as [->|]; congruence.
Qed.

(** Filling a dictionary with items under distinct keys. *)
Lemma dict_fill (key : A -> K) cs : forall d, NoDup (d.*1 ++ map key cs) ->
  fold_left (fun d c => dict_set d (key c) c) cs d = d ++ map (fun c => (key c, c)) cs.
Proof.
  induction cs as [|c cs IH]; intros d Hnd; simpl; [by rewrite app_nil_r|].
  simpl in Hnd. pose proof Hnd as (_ & Hout & _)%NoDup_app.
  rewrite dict_set_new by (intros Hin; apply (Hout _ Hin); by left).
  rewrite IH; [by rewrite <- app_assoc|]. rewrite fmap_app, <- app_assoc. done.
Qed.

Lemma dict_find_None (d : list (K * A)) k : dict_find d k = None -> k ∉ d.*1.
Proof.
  induction d as [|[k' v] d IH]; simpl; [by intros _ ?%not_elem_of_nil|].
  destruct (decide (k' = k)); [done|]. intros ?%IH. by apply not_elem_of_cons.
Qed.

Lemma dict_find_Some (d : list (K * A)) k v : dict_find d k = Some v -> (k, v) ∈ d.
Proof.
  induction d as [|[k' v'] d IH]; simpl; [done|]. destruct (decide (k' = k)) as [->|]; [intros [= ->]; by left|].
  intros ?%IH. by right.
Qed.

Lemma dict_set_keys (d : list (K * A)) k v : (dict_set d k v).*1 = if decide (k ∈ d.*1) then d.*1 else d.*1 ++ [k].
Proof.
  induction d as [|[k' v'] d IH]; [done|]. cbn [dict_set]. destruct (decide (k' = k)) as [->|Hne].
  - rewrite decide_True; [done|by left].
  - rewrite !fmap_cons, IH. cbn [fst]. destruct (decide (k ∈ d.*1)) as [Hin|Hin], (decide (k ∈ k' :: d.*1)) as [Hin'|Hin']; try done.
    + exfalso. apply Hin'. by right.
    + apply elem_of_cons in Hin' as [->|]; done.
Qed.

Lemma dict_set_Forall (P : K * A -> Prop) d k v : Forall P d -> P (k, v) -> Forall P (dict_set d k v).
Proof.
  intros Hd Hv. induction Hd as [|[k' v'] d H Hd IH]; cbn; [by repeat constructor|].
  destruct (decide (k' = k)) as [->|]; by constructor.
Qed.
Lemma dict_del_Forall (P : K * A -> Prop) d k : Forall P d -> Forall P (dict_del d k).
Proof. induction 1 as [|[k' v'] d H Hd IH]; cbn; [done|]. destruct (decide (k' = k)); [done|by constructor]. Qed.

Lemma dict_del_keys (d : list (K * A)) k k' : k' ∈ (dict_del d k).*1 -> k' ∈ d.*1.
Proof.
  induction d as [|[k0 v0] d IH]; [done|]. cbn [dict_del]. destruct (decide (k0 = k)); rewrite !fmap_cons; [by right|].
  intros [->|?]%elem_of_cons; [by left|right; auto].
Qed.
Lemma dict_del_NoDup (d : list (K * A)) k : NoDup d.*1 -> NoDup (dict_del d k).*1.
Proof.
  induction d as [|[k0 v0] d IH]; [done|]. rewrite fmap_cons. intros [Hn Hd]%NoDup_cons. cbn [dict_del fst] in *. destruct (decide (k0 = k)); [done|].
  rewrite fmap_cons. apply NoDup_cons. split; [|auto]. intros Hin. by apply Hn, (dict_del_keys d k).
Qed.
Lemma dict_find_del_ne (d : list (K * A)) k k' : k <> k' -> dict_find (dict_del d k) k' = dict_find d k'.
Proof.
  intros Hne. induction d as [|[k0 v0] d IH]; [done|]. cbn [dict_del]. destruct (decide (k0 = k)) as [->|]; cbn [dict_find]; [by rewrite decide_False|].
  by rewrite IH.
Qed.
Lemma dict_find_del (d : list (K * A)) k k' : NoDup d.*1 ->
  dict_find (dict_del d k) k' = if decide (k = k') then None else dict_find d k'.
Proof.
  induction d as [|[k0 v0] d IH]; [by intros; destruct (decide _)|]. rewrite fmap_cons. intros [Hn Hd]%NoDup_cons.
  specialize (IH Hd). cbn [dict_del fst] in *.
  destruct (decide (k0 = k)) as [->|Hne]; cbn [dict_find]; destruct (decide (k = k')) as [->|Hk].
  - destruct (dict_find d k') eqn:E; [|done]. apply dict_find_Some in E. destruct Hn. apply list_elem_of_fmap. by eexists (_, _).
  - done.
  - destruct (decide (k0 = k')); [by subst|]. by rewrite IH.
  - by rewrite IH.
Qed.

Lemma dict_set_NoDup (d : list (K * A)) k v : NoDup d.*1 -> NoDup (dict_set d k v).*1.
Proof.
  intros Hd. rewrite dict_set_keys. destruct (decide (k ∈ d.*1)); [done|].
  apply NoDup_app. split_and!; [done| |apply NoDup_singleton]. by intros x Hx ->%list_elem_of_singleton.
Qed.
End Dicts.

(** * [bytes.hex] *)
Definition hex_digit (n : Z) : Z := if n <? 10 then 48 + n else 87 + n.
Definition hex (bs : bytes) : pystr :=
  concat (map (fun b => [hex_digit (b / 16); hex_digit (b mod 16)]) bs).

Lemma hex_length bs : length (hex bs) = (2 * length bs)%nat.
Proof. unfold hex. induction bs as [|b bs IH]; [done|]. simpl. lia. Qed.

Lemma hex_digit_inj m n : 0 <= m < 16 -> 0 <= n < 16 -> hex_digit m = hex_digit n -> m = n.
Proof. unfold hex_digit. intros ??. destruct (Z.ltb_spec m 10), (Z.ltb_spec n 10); lia. Qed.

Lemma hex_inj a b : wf_bytes a -> wf_bytes b -> hex a = hex b -> a = b.
Proof.
  unfold hex. intros Ha. revert b; induction Ha as [|x a Hx Ha IH]; intros b Hb E.
  - by destruct Hb.
  - destruct Hb as [|y b Hy Hb]; [done|]. simpl in E. injection E as E1 E2 E3. unfold isb in *.
    apply hex_digit_inj in E1;
      [|split; [apply Z.div_pos; lia|apply Z.div_lt_upper_bound; lia]..].
    apply hex_digit_inj in E2; [|apply Z.mod_pos_bound; lia..].
    rewrite (IH b) by done. f_equal.
    rewrite (Z.div_mod x 16), (Z.div_mod y 16) by lia. congruence.
Qed.
