(* ===== verification/GF256.v ===== *)
(** The field GF(2^8) of src/src/ltp/erasure.py: the lookup tables built by
    [_init_gf], table multiplication and inversion ([_gf_mul], [_gf_inv]) and
    the field laws, obtained by comparing the tables with carry-less
    multiplication modulo x^8+x^4+x^3+x^2+1 on all pairs of bytes. *)

From S2P Require Import Prelude.

(** Class attributes [_GF_EXP], [_GF_LOG], [_GF_INITIALIZED]. *)
Record gf_class : Type := {
  GF_EXP : list Z;
  GF_LOG : list Z;
  GF_INITIALIZED : bool
}.

Definition gf_class0 : gf_class :=
  {| GF_EXP := replicate 512 0; GF_LOG := replicate 256 0; GF_INITIALIZED := false |}.

(** Body of the first loop of [_init_gf]. *)
Definition init_step (st : list Z * list Z * Z) (i : nat) : list Z * list Z * Z :=
  let '(ex, lg, x) := st in
  let ex := <[i := x]> ex in
  let lg := <[Z.to_nat x := Z.of_nat i]> lg in
  let x := Z.shiftl x 1 in
  let x := if Z.land x 0x100 =? 0 then x else Z.lxor x 0x11D in
  (ex, lg, x).

Definition init_gf (cls : gf_class) : gf_class :=
  if GF_INITIALIZED cls then cls
  else
    let '(ex, lg, _) := fold_left init_step (seq 0 255) (GF_EXP cls, GF_LOG cls, 1) in
    let ex := fold_left (fun ex i => <[i := ex !!! (i - 255)%nat]> ex) (seq 255 257) ex in
    let lg := <[0%nat := 0]> lg in
    {| GF_EXP := ex; GF_LOG := lg; GF_INITIALIZED := true |}.

(** The tables after initialisation. *)
Definition GF : gf_class := Eval vm_compute in init_gf gf_class0.

Definition gf_exp (i : Z) : Z := GF_EXP GF !!! Z.to_nat i.
Definition gf_log (a : Z) : Z := GF_LOG GF !!! Z.to_nat a.

Definition gf_mul (a b : Z) : Z :=
  if (a =? 0) || (b =? 0) then 0 else gf_exp (gf_log a + gf_log b).

(** [assert a != 0] is the caller's: [gf_inv] is used at non-zero pivots. *)
Definition gf_inv (a : Z) : Z := gf_exp (255 - gf_log a).

Notation "a ⊕ b" := (Z.lxor a b) (at level 50, left associativity).
Notation "a ⊗ b" := (gf_mul a b) (at level 40, left associativity).

(** Carry-less multiplication modulo x^8+x^4+x^3+x^2+1: the reference the
    table multiplication is compared with. *)
Definition xtime (a : Z) : Z :=
  let x := Z.shiftl a 1 in if Z.testbit x 8 then x ⊕ 0x11D else x.

Fixpoint pmul_bits (n : nat) (a b : Z) : Z :=
  match n with
  | O => 0
  | S n => (if Z.odd b then a else 0) ⊕ pmul_bits n (xtime a) (Z.div2 b)
  end.

Definition pmul (a b : Z) : Z := pmul_bits 8 a b.

(** Bounded universal quantification, decided by computation. *)
Definition forall_below (n : nat) (P : Z -> bool) : bool :=
  forallb P (map Z.of_nat (seq 0 n)).

Lemma forall_below_spec n P :
  forall_below n P = true -> forall z, 0 <= z < Z.of_nat n -> P z = true.
Proof.
  intros H z Hz. unfold forall_below in H. rewrite forallb_forall in H. apply H.
  apply in_map_iff. exists (Z.to_nat z). rewrite in_seq. lia.
Qed.

Lemma GF_init : init_gf gf_class0 = GF.
Proof. vm_compute. reflexivity. Qed.

Lemma gf_log_exp_tables a : 0 < a < 256 ->
  0 <= gf_log a < 255 /\ gf_exp (gf_log a) = a.
Proof.
  intros Ha.
  assert (forall_below 256 (fun a => (a =? 0) ||
    ((0 <=? gf_log a) && (gf_log a <? 255) && (gf_exp (gf_log a) =? a))) = true) as H
    by (vm_compute; reflexivity).
  pose proof (forall_below_spec _ _ H a ltac:(lia)) as Hc.
  apply orb_true_iff in Hc as [?|Hc]; breflect; lia.
Qed.

Lemma gf_exp_log_tables i : 0 <= i < 255 -> 0 < gf_exp i < 256 /\ gf_log (gf_exp i) = i.
Proof.
  intros Hi.
  assert (forall_below 255 (fun i =>
    (0 <? gf_exp i) && (gf_exp i <? 256) && (gf_log (gf_exp i) =? i)) = true) as H
    by (vm_compute; reflexivity).
  apply (forall_below_spec _ _ H i) in Hi. breflect. lia.
Qed.

Lemma gf_exp_mod i : 0 <= i < 510 -> gf_exp i = gf_exp (i mod 255).
Proof.
  intros Hi.
  assert (forall_below 510 (fun i => gf_exp i =? gf_exp (i mod 255)) = true) as H
    by (vm_compute; reflexivity).
  apply (forall_below_spec _ _ H i) in Hi. by breflect.
Qed.

Lemma mul_agree :
  forall_below 256 (fun a => forall_below 256 (fun b => gf_mul a b =? pmul a b)) = true.
Proof. vm_cast_no_check (eq_refl true). Qed.

Lemma gf_mul_pmul a b : isb a -> isb b -> a ⊗ b = pmul a b.
Proof.
  intros Ha Hb. apply Z.eqb_eq. pose proof (forall_below_spec _ _ mul_agree a Ha) as H.
  cbv beta in H. exact (forall_below_spec _ _ H b Hb).
Qed.

(** ** Field laws *)
Lemma xor_isb a b : isb a -> isb b -> isb (a ⊕ b).
Proof.
  unfold isb. intros Ha Hb. split; [apply Z.lxor_nonneg; lia|].
  destruct (Z.eq_dec (a ⊕ b) 0) as [->|Hne]; [lia|].
  assert (0 < a ⊕ b) as Hp by (pose proof (proj2 (Z.lxor_nonneg a b)); lia).
  apply (Z.log2_lt_pow2 _ 8); [done|].
  pose proof (Z.log2_lxor a b). pose proof (Z.log2_le_mono a 255). pose proof (Z.log2_le_mono b 255).
  change (Z.log2 255) with 7 in *. lia.
Qed.

Lemma gf_mul_isb a b : isb a -> isb b -> isb (a ⊗ b).
Proof.
  unfold isb, gf_mul. intros Ha Hb. destruct (a =? 0) eqn:Ea, (b =? 0) eqn:Eb; simpl; breflect; try lia.
  pose proof (gf_log_exp_tables a). pose proof (gf_log_exp_tables b).
  rewrite gf_exp_mod by lia.
  pose proof (gf_exp_log_tables ((gf_log a + gf_log b) mod 255)).
  pose proof (Z.mod_pos_bound (gf_log a + gf_log b) 255). lia.
Qed.

Create HintDb gf.
#[export] Hint Resolve xor_isb gf_mul_isb : gf.
#[export] Hint Extern 1 (isb _) => (unfold isb; lia) : gf.

Lemma gf_mul_comm a b : a ⊗ b = b ⊗ a.
Proof. unfold gf_mul. by rewrite orb_comm, Z.add_comm. Qed.

Lemma gf_mul_0_l a : 0 ⊗ a = 0.
Proof. done. Qed.
Lemma gf_mul_0_r a : a ⊗ 0 = 0.
Proof. by rewrite gf_mul_comm. Qed.

Lemma gf_mul_nz a b : 0 < a < 256 -> 0 < b < 256 ->
  0 < a ⊗ b < 256 /\ gf_log (a ⊗ b) = (gf_log a + gf_log b) mod 255.
Proof.
  intros Ha Hb. unfold gf_mul. rewrite (proj2 (Z.eqb_neq a 0)), (proj2 (Z.eqb_neq b 0)) by lia.
  simpl. pose proof (gf_log_exp_tables a Ha). pose proof (gf_log_exp_tables b Hb).
  rewrite gf_exp_mod by lia. apply gf_exp_log_tables. apply Z.mod_pos_bound. lia.
Qed.

Lemma gf_mul_exp a b : 0 < a < 256 -> 0 < b < 256 ->
  a ⊗ b = gf_exp ((gf_log a + gf_log b) mod 255).
Proof.
  intros Ha Hb. destruct (gf_mul_nz a b Ha Hb) as [Hr Hl].
  rewrite <- Hl. symmetry. by apply gf_log_exp_tables.
Qed.

Lemma gf_mul_assoc a b c : isb a -> isb b -> isb c -> a ⊗ (b ⊗ c) = a ⊗ b ⊗ c.
Proof.
  unfold isb. intros Ha Hb Hc.
  destruct (Z.eq_dec a 0) as [->|]; [done|].
  destruct (Z.eq_dec b 0) as [->|]; [by rewrite gf_mul_0_l, gf_mul_0_r|].
  destruct (Z.eq_dec c 0) as [->|]; [by rewrite !gf_mul_0_r|].
  destruct (gf_mul_nz a b), (gf_mul_nz b c); try lia.
  rewrite (gf_mul_exp a), (gf_mul_exp (a ⊗ b)) by lia.
  f_equal. rewrite H0, H2, Zplus_mod_idemp_l, Zplus_mod_idemp_r. f_equal. lia.
Qed.

Lemma gf_mul_1_l a : isb a -> 1 ⊗ a = a.
Proof.
  intros Ha. assert (forall_below 256 (fun a => gf_mul 1 a =? a) = true) as H
    by (vm_compute; reflexivity).
  apply (forall_below_spec _ _ H a) in Ha. by breflect.
Qed.
Lemma gf_mul_1_r a : isb a -> a ⊗ 1 = a.
Proof. intros. rewrite gf_mul_comm. by apply gf_mul_1_l. Qed.

Lemma gf_inv_spec a : 0 < a < 256 -> 0 < gf_inv a < 256 /\ a ⊗ gf_inv a = 1.
Proof.
  intros Ha. assert (forall_below 256 (fun a => (a =? 0) ||
    ((0 <? gf_inv a) && (gf_inv a <? 256) && (gf_mul a (gf_inv a) =? 1))) = true) as H
    by (vm_compute; reflexivity).
  pose proof (forall_below_spec _ _ H a ltac:(lia)) as Hc.
  apply orb_true_iff in Hc as [?|Hc]; breflect; lia.
Qed.

Lemma xor_if (c d : bool) a :
  (if xorb c d then a else 0) = (if c then a else 0) ⊕ (if d then a else 0).
Proof. destruct c, d; simpl; rewrite ?Z.lxor_nilpotent, ?Z.lxor_0_r, ?Z.lxor_0_l; done. Qed.

Lemma xor_swap4 a b c d : (a ⊕ b) ⊕ (c ⊕ d) = (a ⊕ c) ⊕ (b ⊕ d).
Proof. apply Z.bits_inj'. intros n _. rewrite !Z.lxor_spec. by destruct (Z.testbit a n), (Z.testbit b n), (Z.testbit c n), (Z.testbit d n). Qed.

Lemma pmul_bits_xor n a b c :
  pmul_bits n a (b ⊕ c) = pmul_bits n a b ⊕ pmul_bits n a c.
Proof.
  revert a b c; induction n as [|n IH]; intros a b c; simpl; [done|].
  rewrite !Z.div2_spec, Z.shiftr_lxor, <- !Z.div2_spec, IH, <- !Z.bit0_odd, Z.lxor_spec, xor_if.
  apply xor_swap4.
Qed.

Lemma gf_mul_xor_r a b c : isb a -> isb b -> isb c -> a ⊗ (b ⊕ c) = (a ⊗ b) ⊕ (a ⊗ c).
Proof. intros. rewrite !gf_mul_pmul by auto with gf. apply pmul_bits_xor. Qed.
Lemma gf_mul_xor_l a b c : isb a -> isb b -> isb c -> (b ⊕ c) ⊗ a = (b ⊗ a) ⊕ (c ⊗ a).
Proof. intros. rewrite !(gf_mul_comm _ a). by apply gf_mul_xor_r. Qed.

Lemma gf_mul_eq_0 a b : isb a -> isb b -> a ⊗ b = 0 -> a = 0 \/ b = 0.
Proof.
  unfold isb. intros Ha Hb E. destruct (Z.eq_dec a 0); [by left|right].
  destruct (Z.eq_dec b 0); [done|]. destruct (gf_mul_nz a b); lia.
Qed.

Lemma xor_eq_0 a b : a ⊕ b = 0 <-> a = b.
Proof. split; [apply Z.lxor_eq|intros ->; apply Z.lxor_nilpotent]. Qed.
