(* ===== verification/Erasure.v ===== *)
(** Reed-Solomon erasure coding, from src/src/ltp/erasure.py.

    [ErasureCoder] holds [encode], the Gauss-Jordan inversion of the
    Vandermonde matrix ([_invert_vandermonde]) and [decode], and the
    any-k-of-n reconstruction theorem.  Shard indices and the parameters n, k
    are natural numbers: a negative n or k is rejected by [encode]'s guard
    exactly as 0 is. *)

From S2P Require Import Prelude GF256.

Module ErasureCoder.

(** The optional third-party [zfec] backend, active only when
    LTP_ERASURE_BACKEND=zfec: [Encoder(k, n).encode] and
    [Decoder(k, n).decode]. *)
Record zfec_backend : Type := {
  zfec_encode : nat -> nat -> list bytes -> list bytes;
  zfec_decode : nat -> nat -> list bytes -> list nat -> list bytes
}.

(** [_pad] *)
Definition pad (data : bytes) (k : nat) : bytes :=
  let remainder := (length data mod k)%nat in
  if (remainder =? 0)%nat then data else data ++ replicate (k - remainder) 0.

(** The accumulation loop [val ^= gf_mul(u[j], v[j])]. *)
Definition dot (u v : list Z) : Z :=
  fold_left (fun val uv => val ⊕ (uv.1 ⊗ uv.2)) (zip u v) 0.

(** p, p*alpha, p*alpha^2, ...: the [alpha_powers] loop. *)
Fixpoint alpha_powers (k : nat) (p alpha : Z) : list Z :=
  match k with
  | O => []
  | S k => p :: alpha_powers k (p ⊗ alpha) alpha
  end.

(** padded[i * chunk_size : (i + 1) * chunk_size] *)
Definition chunk (chunk_size : nat) (padded : bytes) (i : nat) : bytes :=
  take chunk_size (drop (i * chunk_size) padded).

Definition encode_shard (k chunk_size : nat) (data_chunks : list bytes) (i : nat) : bytes :=
  let alpha := Z.of_nat i + 1 in
  let powers := alpha_powers k 1 alpha in
  map (fun byte_pos => dot powers (map (fun c => c !!! byte_pos) data_chunks)) (seq 0 chunk_size).

Definition encode (zfec : option zfec_backend) (data : bytes) (n k : nat) : result (list bytes) :=
  if negb ((k <? n)%nat && (0 <? k)%nat) then Err (ValueError "Need n > k > 0")
  else if (255 <? n)%nat then Err (ValueError "GF(256) supports at most 255 evaluation points")
  else
    length_prefix ← struct_pack 8 (Z.of_nat (length data));
    let padded := pad (length_prefix ++ data) k in
    let chunk_size := (length padded / k)%nat in
    let data_chunks := map (chunk chunk_size padded) (seq 0 k) in
    match zfec with
    | Some z => Ok (zfec_encode z k n data_chunks)
    | None => Ok (map (encode_shard k chunk_size data_chunks) (seq 0 n))
    end.

(** ** Gauss-Jordan elimination on the augmented matrix [V | I] *)
Definition unit_row (k i : nat) : list Z :=
  map (fun j => if (j =? i)%nat then 1 else 0) (seq 0 k).

Definition augmented (alphas : list Z) (k : nat) : list (list Z) :=
  map (fun i => alpha_powers k 1 (alphas !!! i) ++ unit_row k i) (seq 0 k).

Definition find_pivot (aug : list (list Z)) (col k : nat) : option nat :=
  head (filter (fun row => (aug !!! row) !!! col ≠ 0) (seq col (k - col))).

Definition swap_rows (aug : list (list Z)) (i j : nat) : list (list Z) :=
  <[i := aug !!! j]> (<[j := aug !!! i]> aug).

(** The loop over the rows: every row but [col] is cleared in column [col]. *)
Definition eliminate (aug : list (list Z)) (col : nat) : list (list Z) :=
  imap (fun row r =>
    if (row =? col)%nat then r
    else
      let factor := r !!! col in
      if factor =? 0 then r
      else zip_with (fun x y => x ⊕ (factor ⊗ y)) r (aug !!! col)) aug.

Definition gauss_step (k : nat) (aug : list (list Z)) (col : nat) : result (list (list Z)) :=
  match find_pivot aug col k with
  | None => Err AssertionError
  | Some pivot =>
      let aug := if (pivot =? col)%nat then aug else swap_rows aug col pivot in
      let inv_pivot := gf_inv ((aug !!! col) !!! col) in
      let aug := alter (map (fun x => x ⊗ inv_pivot)) col aug in
      Ok (eliminate aug col)
  end.

Definition invert_vandermonde (alphas : list Z) (k : nat) : result (list (list Z)) :=
  match foldM (gauss_step k) (augmented alphas k) (seq 0 k) with
  | Ok aug => Ok (map (drop k) aug)
  | Err e => Err e
  end.

(** sorted(shards.keys()) *)
Definition sorted_keys (shards : gmap nat bytes) : list nat :=
  merge_sort (≤)%nat (map_to_list shards).*1.

(** The part of [decode] common to both backends: the length prefix. *)
Definition strip_prefix (result : bytes) : Prelude.result bytes :=
  original_length ← struct_unpack 8 (take 8 result);
  Ok (take (Z.to_nat original_length) (drop 8 result)).

(** The matrix-vector products: [reconstructed[m * chunk_size + byte_pos]]. *)
Definition reconstruct (V_inv : list (list Z)) (y_vals : list (list Z)) (k : nat) : bytes :=
  concat (map (fun m => map (fun ys => dot (V_inv !!! m) ys) y_vals) (seq 0 k)).

Definition decode (zfec : option zfec_backend) (shards : gmap nat bytes) (n k : nat) : result bytes :=
  if (size shards <? k)%nat then Err (ValueError "Need at least k shards")
  else
    let indices := take k (sorted_keys shards) in
    let data_of idx := default [] (shards !! idx) in
    match indices with
    | [] => Err IndexError
    | i0 :: _ =>
        let chunk_size := length (data_of i0) in
        match zfec with
        | Some z => strip_prefix (concat (zfec_decode z k n (map data_of indices) indices))
        | None =>
            (* _GF_LOG[alpha] raises for a point outside the field *)
            if existsb (fun i => 254 <? i)%nat indices then Err IndexError
            else
              let alphas := map (fun i => Z.of_nat i + 1) indices in
              V_inv ← invert_vandermonde alphas k;
              y_vals ← mapR (fun byte_pos =>
                mapR (fun idx => or_raise IndexError (data_of idx !! byte_pos)) indices)
                (seq 0 chunk_size);
              strip_prefix (reconstruct V_inv y_vals k)
        end
    end.

(** ** Linear algebra over GF(256) *)
Lemma dot_acc (l : list (Z * Z)) (x : Z) :
  fold_left (fun val uv => val ⊕ (uv.1 ⊗ uv.2)) l x =
  x ⊕ fold_left (fun val uv => val ⊕ (uv.1 ⊗ uv.2)) l 0.
Proof.
  revert x; induction l as [|uv l IH]; intros x; simpl; [by rewrite Z.lxor_0_r|].
  rewrite IH, (IH (0 ⊕ _)), Z.lxor_0_l. symmetry. rewrite <- Z.lxor_assoc. done.
Qed.

Lemma dot_nil_l v : dot [] v = 0.
Proof. done. Qed.
Lemma dot_cons a u b v : dot (a :: u) (b :: v) = (a ⊗ b) ⊕ dot u v.
Proof. unfold dot. simpl. rewrite dot_acc. by rewrite Z.lxor_0_l. Qed.

Lemma dot_app a b c d : length a = length c -> dot (a ++ b) (c ++ d) = dot a c ⊕ dot b d.
Proof.
  revert c; induction a as [|x a IH]; intros [|y c] Hl; try done.
  simpl. rewrite !dot_cons, IH by (simpl in Hl; lia). by rewrite Z.lxor_assoc.
Qed.

Lemma dot_isb u v : wf_bytes u -> wf_bytes v -> isb (dot u v).
Proof.
  intros Hu. revert v; induction Hu as [|x u Hx Hu IH]; intros v Hv;
    [rewrite dot_nil_l; auto with gf|].
  destruct Hv; [unfold dot; simpl; auto with gf|].
  rewrite dot_cons. auto with gf.
Qed.

Lemma dot_scale c u v : isb c -> wf_bytes u -> wf_bytes v ->
  dot (map (fun x => x ⊗ c) u) v = c ⊗ dot u v.
Proof.
  intros Hc Hu. revert v; induction Hu as [|x u Hx Hu IH]; intros v Hv.
  - simpl. by rewrite dot_nil_l, gf_mul_0_r.
  - destruct Hv as [|y v Hy Hv]; [unfold dot; simpl; by rewrite gf_mul_0_r|].
    simpl. rewrite !dot_cons, IH by done.
    rewrite gf_mul_xor_r by auto using dot_isb with gf.
    f_equal. rewrite (gf_mul_comm x c). symmetry. apply gf_mul_assoc; done.
Qed.

Lemma dot_zip f u v w : isb f -> wf_bytes u -> wf_bytes v -> wf_bytes w -> length u = length v ->
  dot (zip_with (fun x y => x ⊕ (f ⊗ y)) u v) w = dot u w ⊕ (f ⊗ dot v w).
Proof.
  intros Hf Hu. revert v w; induction Hu as [|x u Hx Hu IH]; intros v w Hv Hw Hl.
  - destruct v; [|done]. simpl. rewrite !dot_nil_l. by rewrite gf_mul_0_r.
  - destruct Hv as [|y v Hy Hv]; [done|]. destruct Hw as [|z w Hz Hw].
    { unfold dot; simpl. by rewrite gf_mul_0_r. }
    simpl. rewrite !dot_cons, IH by (done || (simpl in Hl; lia)).
    rewrite gf_mul_xor_l by auto with gf.
    rewrite gf_mul_xor_r by auto using dot_isb with gf.
    rewrite <- (gf_mul_assoc f y z) by done. apply xor_swap4.
Qed.

Lemma dot_zeros u n : dot u (replicate n 0) = 0.
Proof.
  revert n; induction u as [|x u IH]; intros [|n]; try done.
  simpl. by rewrite dot_cons, IH, gf_mul_0_r.
Qed.

Lemma unit_row_length k i : length (unit_row k i) = k.
Proof. unfold unit_row. by rewrite length_map, length_seq. Qed.
Lemma unit_row_wf k i : wf_bytes (unit_row k i).
Proof. apply Forall_map, Forall_forall. intros j _. simpl. destruct (_ =? _)%nat; auto with gf. Qed.

Lemma dot_unit k i v : wf_bytes v -> length v = k -> 
  dot (unit_row k i) v = if (i <? k)%nat then v !!! i else 0.
Proof.
  unfold unit_row. intros Hv Hl.
  enough (forall s, dot (map (fun j => if (j =? i)%nat then 1 else 0) (seq s k)) v =
    if (s <=? i)%nat && (i <? s + k)%nat then v !!! (i - s)%nat else 0) as H.
  { rewrite H. by rewrite Nat.sub_0_r. }
  revert k Hl. induction Hv as [|x v Hx Hv IH]; intros k Hl s; simpl in Hl; subst k.
  - simpl. rewrite dot_nil_l. destruct (s <=? i)%nat eqn:?, (i <? s + 0)%nat eqn:?; breflect; simpl; (done || lia).
  - simpl. rewrite dot_cons, (IH _ eq_refl). destruct (s =? i)%nat eqn:E; breflect.
    + subst. rewrite gf_mul_1_l by done. rewrite Nat.sub_diag.
      rewrite (proj2 (Nat.leb_gt (S i) i)), (proj2 (Nat.leb_le i i)) by lia.
      cbn [andb]. rewrite Z.lxor_0_r, (proj2 (Nat.ltb_lt i (i + S (length v)))) by lia. done.
    + rewrite gf_mul_0_l, Z.lxor_0_l.
      replace (s + S (length v))%nat with (S s + length v)%nat by lia.
      destruct (s <=? i)%nat eqn:E1, (S s <=? i)%nat eqn:E2; breflect; try lia; try done.
      simpl. destruct (_ <? _)%nat; [|done].
      by replace (i - s)%nat with (S (i - S s)) by lia.
Qed.

(** ** Polynomials: a non-zero polynomial of length k has fewer than k roots *)
Fixpoint eval (c : list Z) (x : Z) : Z :=
  match c with
  | [] => 0
  | a :: c => a ⊕ (x ⊗ eval c x)
  end.

Lemma eval_isb c x : isb x -> wf_bytes c -> isb (eval c x).
Proof. intros Hx. induction 1; simpl; auto with gf. Qed.

Lemma alpha_powers_length k p x : length (alpha_powers k p x) = k.
Proof. revert p; induction k; intros; simpl; auto. Qed.
Lemma alpha_powers_wf k p x : isb p -> isb x -> wf_bytes (alpha_powers k p x).
Proof. revert p; induction k; intros; simpl; constructor; auto with gf. apply IHk; auto with gf. Qed.

Lemma dot_powers c p x : isb p -> isb x -> wf_bytes c ->
  dot (alpha_powers (length c) p x) c = p ⊗ eval c x.
Proof.
  intros Hp Hx Hc. revert p Hp. induction Hc as [|a c Ha Hc IH]; intros p Hp.
  - simpl. by rewrite dot_nil_l, gf_mul_0_r.
  - simpl. rewrite dot_cons, IH by auto with gf.
    rewrite gf_mul_xor_r by auto using eval_isb with gf.
    f_equal. rewrite gf_mul_assoc by auto using eval_isb. done.
Qed.

(** Synthetic division by (x - r). *)
Fixpoint synth (r : Z) (c : list Z) : list Z :=
  match c with
  | [] => []
  | a :: c => match c with [] => [] | _ => eval c r :: synth r c end
  end.

Lemma synth_length r a c : length (synth r (a :: c)) = length c.
Proof. revert a; induction c as [|b c IH]; intros a; [done|]. simpl in *. by rewrite IH. Qed.

Lemma synth_wf r c : isb r -> wf_bytes c -> wf_bytes (synth r c).
Proof.
  intros Hr. induction 1 as [|a c Ha Hc IH]; [constructor|]. simpl.
  destruct c; [constructor|]. constructor; [by apply eval_isb|done].
Qed.

Lemma synth_eval r c x : isb r -> isb x -> wf_bytes c ->
  eval c x = ((x ⊕ r) ⊗ eval (synth r c) x) ⊕ eval c r.
Proof.
  intros Hr Hx. induction 1 as [|a c Ha Hc IH].
  { simpl. by rewrite gf_mul_0_r. }
  destruct c as [|b c].
  { simpl. by rewrite !gf_mul_0_r, Z.lxor_0_r. }
  set (q := synth r (b :: c)) in *.
  change (synth r (a :: b :: c)) with (eval (b :: c) r :: q).
  change (eval (a :: b :: c) x) with (a ⊕ (x ⊗ eval (b :: c) x)).
  change (eval (a :: b :: c) r) with (a ⊕ (r ⊗ eval (b :: c) r)).
  change (eval (eval (b :: c) r :: q) x) with (eval (b :: c) r ⊕ (x ⊗ eval q x)).
  rewrite IH. set (e := eval (b :: c) r). set (v := eval q x).
  assert (isb e) by (by apply eval_isb).
  assert (isb v) by (apply eval_isb; [done|]; by apply synth_wf).
  rewrite (gf_mul_xor_r x), (gf_mul_xor_r (x ⊕ r)) by auto with gf.
  rewrite (gf_mul_assoc x (x ⊕ r) v), (gf_mul_assoc (x ⊕ r) x v), (gf_mul_comm x (x ⊕ r)),
    (gf_mul_xor_l e) by auto with gf.
  set (t := (x ⊕ r) ⊗ x ⊗ v). apply Z.bits_inj'. intros n _. rewrite !Z.lxor_spec.
  by destruct (Z.testbit a n), (Z.testbit t n), (Z.testbit (x ⊗ e) n), (Z.testbit (r ⊗ e) n).
Qed.

Lemma synth_zero r c : isb r -> wf_bytes c -> eval c r = 0 -> Forall (eq 0) (synth r c) ->
  Forall (eq 0) c.
Proof.
  intros Hr. induction 1 as [|a c Ha Hc IH]; [done|]. intros He Hs.
  destruct c as [|b c].
  { simpl in He. rewrite gf_mul_0_r, Z.lxor_0_r in He. by repeat constructor. }
  change (synth r (a :: b :: c)) with (eval (b :: c) r :: synth r (b :: c)) in Hs.
  inversion Hs as [|?? E Hs']; subst.
  change (eval (a :: b :: c) r) with (a ⊕ (r ⊗ eval (b :: c) r)) in He.
  assert (eval (b :: c) r = 0) as E' by done.
  rewrite E', gf_mul_0_r, Z.lxor_0_r in He. constructor; [done|]. by apply IH.
Qed.

Lemma roots_zero (alphas : list Z) (c : list Z) :
  NoDup alphas -> wf_bytes alphas -> wf_bytes c -> length c = length alphas ->
  (forall x, x ∈ alphas -> eval c x = 0) -> Forall (eq 0) c.
Proof.
  intros Hnd Hwa. revert c; induction Hnd as [|r alphas Hr Hnd IH]; intros c Hc Hl Hroot.
  { by destruct c. }
  destruct c as [|a c]; [done|]. inversion Hwa as [|?? Hwr Hwa']; subst.
  apply (synth_zero r); [done..| |].
  { apply Hroot. by constructor. }
  apply IH; [done|by apply synth_wf| |].
  { rewrite synth_length. simpl in Hl. lia. }
  intros x Hx. assert (isb x) as Hix by (by eapply Forall_forall in Hwa').
  assert (eval (a :: c) x = 0) as Hx0 by (apply Hroot; by constructor).
  rewrite (synth_eval r) in Hx0 by done. rewrite (Hroot r), Z.lxor_0_r in Hx0 by constructor.
  apply gf_mul_eq_0 in Hx0 as [E|]; [|done| |].
  - apply xor_eq_0 in E as ->. done.
  - auto with gf.
  - apply eval_isb; [done|by apply synth_wf].
Qed.

(** ** Gauss-Jordan elimination *)
Definition mat (k : nat) (aug : list (list Z)) : Prop :=
  length aug = k /\
  forall r, (r < k)%nat -> length (aug !!! r) = (2 * k)%nat /\ wf_bytes (aug !!! r).

(** [z] solves the homogeneous system. *)
Definition sol (k : nat) (aug : list (list Z)) (z : list Z) : Prop :=
  forall r, (r < k)%nat -> dot (aug !!! r) z = 0.

(** The first [c] columns are those of the identity. *)
Definition cols_done (k : nat) (aug : list (list Z)) (c : nat) : Prop :=
  forall r j, (r < k)%nat -> (j < c)%nat -> (aug !!! r) !!! j = if (j =? r)%nat then 1 else 0.

Lemma wf_lookup_total v j : wf_bytes v -> isb (v !!! j).
Proof.
  intros Hv. rewrite list_lookup_total_alt. destruct (v !! j) eqn:E; simpl.
  - by eapply Forall_lookup in E.
  - auto with gf.
Qed.

Lemma lookup_total_zip (f : Z -> Z -> Z) u v j : (j < length u)%nat -> length u = length v ->
  zip_with f u v !!! j = f (u !!! j) (v !!! j).
Proof.
  intros Hj Hl. destruct (lookup_lt_is_Some_2 u j) as [x Hx]; [done|].
  destruct (lookup_lt_is_Some_2 v j) as [y Hy]; [lia|].
  rewrite !list_lookup_total_alt, lookup_zip_with, Hx, Hy. done.
Qed.

Lemma swap_rows_at aug i j r : (i < length aug)%nat -> (j < length aug)%nat ->
  swap_rows aug i j !!! r =
  if (r =? i)%nat then aug !!! j else if (r =? j)%nat then aug !!! i else aug !!! r.
Proof.
  intros Hi Hj. unfold swap_rows. destruct (Nat.eqb_spec r i) as [->|Hri].
  - apply list_lookup_total_insert_eq. by rewrite length_insert.
  - rewrite list_lookup_total_insert_ne by done.
    destruct (Nat.eqb_spec r j) as [->|Hrj]; [by apply list_lookup_total_insert_eq|].
    by rewrite list_lookup_total_insert_ne.
Qed.

Lemma scale_row_at (f : list Z -> list Z) aug c r : (c < length aug)%nat ->
  alter f c aug !!! r = if (r =? c)%nat then f (aug !!! c) else aug !!! r.
Proof.
  intros Hc. destruct (lookup_lt_is_Some_2 aug c) as [x Hx]; [done|].
  rewrite !list_lookup_total_alt. destruct (Nat.eqb_spec r c) as [->|Hrc].
  - by rewrite list_lookup_alter_eq, Hx.
  - by rewrite list_lookup_alter_ne.
Qed.

Lemma zip_with_factor0 (r p : list Z) : length r = length p ->
  zip_with (fun x y => x ⊕ (0 ⊗ y)) r p = r.
Proof.
  revert p; induction r as [|x r IH]; intros [|y p] Hl; try done.
  simpl. rewrite gf_mul_0_l, Z.lxor_0_r, IH by (simpl in Hl; lia). done.
Qed.

Lemma eliminate_at aug c r : (r < length aug)%nat -> length (aug !!! r) = length (aug !!! c) ->
  eliminate aug c !!! r =
  if (r =? c)%nat then aug !!! c
  else zip_with (fun x y => x ⊕ (((aug !!! r) !!! c) ⊗ y)) (aug !!! r) (aug !!! c).
Proof.
  intros Hr Hl. destruct (lookup_lt_is_Some_2 aug r) as [x Hx]; [done|].
  assert (aug !!! r = x) as Hx' by (by rewrite list_lookup_total_alt, Hx).
  rewrite Hx' in *. unfold eliminate. rewrite list_lookup_total_alt, list_lookup_imap, Hx. simpl.
  destruct (Nat.eqb_spec r c) as [->|]; [done|].
  destruct (_ =? 0) eqn:E; [|done]. breflect. rewrite E. by rewrite zip_with_factor0.
Qed.

Lemma find_pivot_Some aug col k p : find_pivot aug col k = Some p ->
  (col <= p < k)%nat /\ (aug !!! p) !!! col <> 0.
Proof.
  unfold find_pivot. intros H. apply head_Some_elem_of in H.
  apply list_elem_of_filter in H as [Hne Hin]. apply elem_of_seq in Hin. split; [lia|done].
Qed.

Lemma find_pivot_None aug col k r : find_pivot aug col k = None ->
  (col <= r < k)%nat -> (aug !!! r) !!! col = 0.
Proof.
  unfold find_pivot. intros H Hr. apply head_None in H.
  destruct (Z.eq_dec ((aug !!! r) !!! col) 0) as [|Hne]; [done|exfalso].
  assert (r ∈ filter (fun row => (aug !!! row) !!! col ≠ 0) (seq col (k - col))) as Hin.
  { apply list_elem_of_filter. split; [done|]. apply elem_of_seq. lia. }
  rewrite H in Hin. by apply not_elem_of_nil in Hin.
Qed.

(** The rows after one step: the scaled pivot row, and every other row with
    a multiple of it added. *)
Lemma gauss_step_rows k aug col aug' : mat k aug -> (col < k)%nat ->
  gauss_step k aug col = Ok aug' ->
  exists p piv, (col <= p < k)%nat /\ piv = (aug !!! p) !!! col /\ piv <> 0 /\ length aug' = k /\
    let srow := map (fun x => x ⊗ gf_inv piv) (aug !!! p) in
    aug' !!! col = srow /\
    forall r, (r < k)%nat -> r <> col ->
      let b := aug !!! (if (r =? p)%nat then col else r) in
      aug' !!! r = zip_with (fun x y => x ⊕ ((b !!! col) ⊗ y)) b srow.
Proof.
  intros [Hlen Hrow] Hcol. unfold gauss_step.
  destruct (find_pivot aug col k) as [p|] eqn:Ep; [|done]. apply find_pivot_Some in Ep as [Hp Hne].
  intros [= <-]. exists p, ((aug !!! p) !!! col).
  set (aug1 := if (p =? col)%nat then aug else swap_rows aug col p).
  assert (length aug1 = k) as Hl1.
  { unfold aug1, swap_rows. destruct (_ =? _)%nat; by rewrite ?length_insert. }
  assert (forall r, aug1 !!! r = aug !!! (if (r =? col)%nat then p else if (r =? p)%nat then col else r)) as H1.
  { intros r. unfold aug1. destruct (Nat.eqb_spec p col) as [->|].
    - destruct (Nat.eqb_spec r col) as [->|]; done.
    - rewrite swap_rows_at by lia. by repeat case_match. }
  set (srow := map (fun x => x ⊗ gf_inv ((aug !!! p) !!! col)) (aug !!! p)).
  assert (aug1 !!! col = aug !!! p) as Hc1 by (by rewrite H1, Nat.eqb_refl).
  rewrite Hc1. set (aug2 := alter _ col aug1).
  assert (length aug2 = k) as Hl2 by (unfold aug2; by rewrite length_alter).
  assert (forall r, aug2 !!! r = if (r =? col)%nat then srow else aug1 !!! r) as H2.
  { intros r. unfold aug2. rewrite scale_row_at by lia. by rewrite Hc1. }
  assert (aug2 !!! col = srow) as Hc2 by (by rewrite H2, Nat.eqb_refl).
  assert (length srow = (2 * k)%nat) as Hls by (unfold srow; rewrite length_map; apply Hrow; lia).
  repeat split; [lia|lia|done|by unfold eliminate; rewrite length_imap| |].
  - rewrite eliminate_at by (done || lia). by rewrite Nat.eqb_refl.
  - intros r Hr Hrc. assert (aug2 !!! r = aug !!! (if (r =? p)%nat then col else r)) as Hb.
    { rewrite H2, (proj2 (Nat.eqb_neq r col)), H1, (proj2 (Nat.eqb_neq r col)) by done. done. }
    rewrite eliminate_at; [|lia|].
    + rewrite (proj2 (Nat.eqb_neq r col)) by done. by rewrite Hc2, Hb.
    + rewrite Hb, Hc2, Hls. apply Hrow. case_match; lia.
Qed.

Section Step.
Context (k : nat) (aug aug' : list (list Z)) (col : nat).
Hypothesis Hmat : mat k aug.
Hypothesis Hcol : (col < k)%nat.
Hypothesis Hstep : gauss_step k aug col = Ok aug'.

Lemma mat_row r : (r < k)%nat -> length (aug !!! r) = (2 * k)%nat.
Proof. apply Hmat. Qed.
Lemma mat_wf r : (r < k)%nat -> wf_bytes (aug !!! r).
Proof. apply Hmat. Qed.
Lemma mat_isb r j : (r < k)%nat -> isb ((aug !!! r) !!! j).
Proof. intros. apply wf_lookup_total. by apply mat_wf. Qed.

Lemma src_lt r p : (r < k)%nat -> ((if (r =? p)%nat then col else r) < k)%nat.
Proof. case_match; lia. Qed.

Lemma inv_range v : isb v -> v <> 0 -> 0 < gf_inv v < 256 /\ v ⊗ gf_inv v = 1.
Proof. unfold isb. intros. apply gf_inv_spec. lia. Qed.

Lemma gauss_step_mat : mat k aug'.
Proof.
  destruct (gauss_step_rows k aug col aug') as (p & piv & Hp & Epiv & Hne & Hl & Hs & Hr); [done..|].
  destruct (inv_range piv) as [Hinv _]; [rewrite Epiv; apply mat_isb; lia|done|].
  set (srow := map _ (aug !!! p)) in *.
  assert (length srow = (2 * k)%nat) as Hls by (unfold srow; rewrite length_map; apply mat_row; lia).
  assert (wf_bytes srow) as Hws.
  { apply Forall_map. eapply Forall_impl; [apply (mat_wf p); lia|]. simpl. auto with gf. }
  split; [done|]. intros r Hrk. destruct (Nat.eq_dec r col) as [->|Hrc]; [by rewrite Hs|].
  rewrite (Hr r) by done. set (b := aug !!! _).
  pose proof (mat_row _ (src_lt r p Hrk)) as Hlb. pose proof (mat_wf _ (src_lt r p Hrk)) as Hwb.
  fold b in Hlb, Hwb. split; [rewrite length_zip_with; lia|].
  apply Forall_lookup. intros j x. rewrite lookup_zip_with.
  destruct (b !! j) eqn:E1; simpl; [|done]. destruct (srow !! j) eqn:E2; simpl; [|done].
  intros [= <-]. apply xor_isb; [by eapply Forall_lookup in E1|].
  apply gf_mul_isb; [by apply wf_lookup_total|by eapply Forall_lookup in E2].
Qed.

(** Elementary row operations do not change the solution set. *)
Lemma gauss_step_sol z : length z = (2 * k)%nat -> wf_bytes z -> sol k aug z <-> sol k aug' z.
Proof.
  intros Hlz Hwz.
  destruct (gauss_step_rows k aug col aug') as (p & piv & Hp & Epiv & Hne & Hl & Hs & Hr); [done..|].
  assert (isb piv) as Hpb by (rewrite Epiv; apply mat_isb; lia).
  destruct (inv_range piv) as [Hinv _]; [done..|].
  set (srow := map _ (aug !!! p)) in *.
  assert (dot srow z = gf_inv piv ⊗ dot (aug !!! p) z) as Ds.
  { apply dot_scale; [auto with gf|apply mat_wf; lia|done]. }
  assert (length srow = (2 * k)%nat) as Hls by (unfold srow; rewrite length_map; apply mat_row; lia).
  assert (wf_bytes srow) as Hws by (rewrite <- Hs; apply gauss_step_mat; done).
  assert (forall r, (r < k)%nat -> r <> col -> let b := aug !!! (if (r =? p)%nat then col else r) in
    dot (aug' !!! r) z = dot b z ⊕ ((b !!! col) ⊗ dot srow z)) as Dr.
  { intros r Hrk Hrc. simpl. rewrite (Hr r) by done.
    pose proof (src_lt r p Hrk) as Hsrc. apply dot_zip; try done.
    - by apply mat_isb.
    - by apply mat_wf.
    - rewrite mat_row by done. lia. }
  split.
  - intros Hsol r Hrk. destruct (Nat.eq_dec r col) as [->|Hrc].
    + by rewrite Hs, Ds, Hsol, gf_mul_0_r by lia.
    + rewrite Dr by done. rewrite Ds, (Hsol p) by lia.
      by rewrite gf_mul_0_r, gf_mul_0_r, Z.lxor_0_r, Hsol by (by apply src_lt).
  - intros Hsol.
    assert (dot srow z = 0) as Hs0 by (by rewrite <- Hs, Hsol).
    assert (dot (aug !!! p) z = 0) as Hp0.
    { rewrite Ds in Hs0. apply gf_mul_eq_0 in Hs0 as [?|?]; [lia|done|auto with gf|].
      apply dot_isb; [apply mat_wf; lia|done]. }
    assert (forall r, (r < k)%nat -> r <> col -> dot (aug !!! (if (r =? p)%nat then col else r)) z = 0) as H0.
    { intros r Hrk Hrc. specialize (Dr r Hrk Hrc). simpl in Dr.
      rewrite Hs0, gf_mul_0_r, Z.lxor_0_r, Hsol in Dr by done. done. }
    intros r Hrk. destruct (Nat.eq_dec r p) as [->|Hrp]; [done|].
    destruct (Nat.eq_dec r col) as [->|Hrc].
    + specialize (H0 p). rewrite Nat.eqb_refl in H0. apply H0; lia.
    + specialize (H0 r). rewrite (proj2 (Nat.eqb_neq r p)) in H0 by done. by apply H0.
Qed.

Lemma gauss_step_cols : cols_done k aug col -> cols_done k aug' (S col).
Proof.
  intros Hcd.
  destruct (gauss_step_rows k aug col aug') as (p & piv & Hp & Epiv & Hne & Hl & Hs & Hr); [done..|].
  assert (isb piv) as Hpb by (rewrite Epiv; apply mat_isb; lia).
  destruct (inv_range piv) as [Hinv Hone]; [done..|].
  set (srow := map _ (aug !!! p)) in *.
  assert (forall j, (j < 2 * k)%nat -> srow !!! j = ((aug !!! p) !!! j) ⊗ gf_inv piv) as Hsj.
  { intros j Hj. unfold srow. rewrite lookup_total_map; [done|]. rewrite mat_row by lia. lia. }
  assert (forall j, (j < S col)%nat -> srow !!! j = if (j =? col)%nat then 1 else 0) as Hsrow.
  { intros j Hj. rewrite Hsj by lia. destruct (Nat.eqb_spec j col) as [->|Hjc].
    - by rewrite <- Epiv.
    - rewrite Hcd by lia. rewrite (proj2 (Nat.eqb_neq j p)) by lia. done. }
  assert (length srow = (2 * k)%nat) as Hls by (unfold srow; rewrite length_map; apply mat_row; lia).
  intros r j Hrk Hj. destruct (Nat.eq_dec r col) as [->|Hrc]; [rewrite Hs; by apply Hsrow|].
  rewrite (Hr r) by done. pose proof (src_lt r p Hrk) as Hsrc.
  rewrite lookup_total_zip by (rewrite mat_row by done; lia).
  rewrite Hsrow by done. destruct (Nat.eqb_spec j col) as [->|Hjc].
  - rewrite gf_mul_1_r by (by apply mat_isb). rewrite Z.lxor_nilpotent.
    by rewrite (proj2 (Nat.eqb_neq col r)) by lia.
  - rewrite gf_mul_0_r, Z.lxor_0_r, Hcd by lia.
    destruct (Nat.eqb_spec r p) as [->|]; [|done].
    by rewrite (proj2 (Nat.eqb_neq j col)), (proj2 (Nat.eqb_neq j p)) by lia.
Qed.

End Step.

Lemma lookup_total_map_seq {A} `{Inhabited A} (f : nat -> A) n i :
  (i < n)%nat -> map f (seq 0 n) !!! i = f i.
Proof.
  intros Hi. rewrite list_lookup_total_alt, lookup_map.
  by rewrite lookup_seq_lt.
Qed.

Lemma drop_lookup_total (r : list Z) c : (c < length r)%nat -> drop c r = r !!! c :: drop (S c) r.
Proof.
  intros Hc. destruct (lookup_lt_is_Some_2 r c Hc) as [x Hx].
  rewrite list_lookup_total_alt, Hx. simpl. by apply drop_S.
Qed.

Lemma take_unit k (aug : list (list Z)) c r : mat k aug -> cols_done k aug c -> (c <= 2 * k)%nat ->
  (r < k)%nat -> take c (aug !!! r) = unit_row c r.
Proof.
  intros Hm Hc Hc2 Hr. destruct (proj2 Hm r Hr) as [Hl _]. apply list_eq_same_length with c.
  - apply unit_row_length.
  - rewrite length_take. lia.
  - intros j x y Hj Hx Hy. rewrite lookup_take_lt in Hx by done.
    specialize (Hc r j Hr Hj). rewrite list_lookup_total_alt, Hx in Hc. simpl in Hc.
    unfold unit_row in Hy. rewrite lookup_map, lookup_seq_lt in Hy by done.
    simpl in Hy. congruence.
Qed.

Section Invert.
Context (k : nat) (alphas : list Z).
Hypothesis Hlen : length alphas = k.
Hypothesis Hnd : NoDup alphas.
Hypothesis Hwf : wf_bytes alphas.

Lemma alpha_isb i : isb (alphas !!! i).
Proof. by apply wf_lookup_total. Qed.

Lemma augmented_row i : (i < k)%nat ->
  augmented alphas k !!! i = alpha_powers k 1 (alphas !!! i) ++ unit_row k i.
Proof. intros. unfold augmented. by rewrite lookup_total_map_seq. Qed.

Lemma augmented_mat : mat k (augmented alphas k).
Proof.
  split; [unfold augmented; by rewrite length_map, length_seq|].
  intros r Hr. rewrite augmented_row by done. split.
  - rewrite length_app, alpha_powers_length, unit_row_length. lia.
  - apply wf_bytes_app. split; [apply alpha_powers_wf; auto using alpha_isb with gf|apply unit_row_wf].
Qed.

(** A vector of the kernel of the Vandermonde part is zero. *)
Lemma vandermonde_kernel c : wf_bytes c -> length c = k ->
  sol k (augmented alphas k) (c ++ replicate k 0) -> Forall (eq 0) c.
Proof.
  intros Hc Hl Hsol. apply (roots_zero alphas); try done; [lia|].
  intros x Hx. apply list_elem_of_lookup in Hx as [i Hi].
  assert (i < k)%nat as Hik by (rewrite <- Hlen; by eapply lookup_lt_Some).
  assert (alphas !!! i = x) as Hx by (by rewrite list_lookup_total_alt, Hi).
  specialize (Hsol i Hik). rewrite augmented_row, dot_app, dot_zeros, Z.lxor_0_r in Hsol
    by (rewrite ?alpha_powers_length; done).
  rewrite <- Hl, dot_powers in Hsol by (auto using alpha_isb with gf).
  rewrite gf_mul_1_l, Hx in Hsol by (apply eval_isb; auto using alpha_isb). done.
Qed.

Lemma pivot_exists aug col : mat k aug -> (col < k)%nat -> cols_done k aug col ->
  (forall z, length z = (2 * k)%nat -> wf_bytes z -> sol k (augmented alphas k) z <-> sol k aug z) ->
  find_pivot aug col k <> None.
Proof.
  intros Hm Hcol Hcd Heq Hnone.
  set (top := map (fun j => (aug !!! j) !!! col) (seq 0 col)).
  set (c := top ++ 1 :: replicate (k - col - 1) 0).
  assert (length top = col) as Hlt by (unfold top; by rewrite length_map, length_seq).
  assert (wf_bytes top) as Hwt.
  { apply Forall_map, Forall_forall. intros j Hj%elem_of_seq. apply wf_lookup_total, Hm. lia. }
  assert (length c = k) as Hlc.
  { unfold c. rewrite length_app. simpl. rewrite length_replicate. lia. }
  assert (wf_bytes c) as Hwc.
  { apply wf_bytes_app. split; [done|]. constructor; [auto with gf|].
    apply Forall_replicate. auto with gf. }
  assert (sol k aug (c ++ replicate k 0)) as Hsol.
  { intros r Hr. destruct (proj2 Hm r Hr) as [Hl Hw].
    rewrite <- (take_drop col (aug !!! r)), (take_unit k) by (done || lia).
    rewrite drop_lookup_total by lia. unfold c. rewrite <- app_assoc. simpl.
    rewrite <- replicate_add, dot_app, dot_cons, dot_zeros, Z.lxor_0_r by (rewrite unit_row_length; done).
    rewrite gf_mul_1_r by (by apply wf_lookup_total). rewrite dot_unit by done.
    destruct (Nat.ltb_spec r col).
    - unfold top. rewrite lookup_total_map_seq by done. apply Z.lxor_nilpotent.
    - by rewrite (find_pivot_None _ _ _ _ Hnone) by lia. }
  apply Heq, vandermonde_kernel in Hsol; [|done|done| |].
  - unfold c in Hsol. apply Forall_app in Hsol as [_ Hsol]. by inversion Hsol.
  - rewrite length_app, length_replicate. lia.
  - apply wf_bytes_app. split; [done|]. apply Forall_replicate. auto with gf.
Qed.

(** The elimination never meets the failed assertion, and ends with the
    identity on the left. *)
Lemma gauss_jordan_runs c : (c <= k)%nat -> exists aug,
  foldM (gauss_step k) (augmented alphas k) (seq 0 c) = Ok aug /\
  mat k aug /\ cols_done k aug c /\
  forall z, length z = (2 * k)%nat -> wf_bytes z -> sol k (augmented alphas k) z <-> sol k aug z.
Proof.
  induction c as [|c IH]; intros Hc.
  - exists (augmented alphas k). split; [done|]. split; [apply augmented_mat|].
    split; [|done]. intros ???. lia.
  - destruct IH as (aug & Hf & Hm & Hcd & Heq); [lia|].
    pose proof (pivot_exists aug c Hm ltac:(lia) Hcd Heq) as Hp.
    destruct (gauss_step k aug c) as [aug'|] eqn:Es.
    + exists aug'. rewrite seq_S, foldM_app, Hf. simpl. rewrite Es. split; [done|].
      assert (c < k)%nat as Hck by lia.
      split; [by apply (gauss_step_mat k aug aug' c)|].
      split; [by apply (gauss_step_cols k aug aug' c)|].
      intros z Hz Hwz. rewrite (Heq z) by done. by apply (gauss_step_sol k aug aug' c).
    + exfalso. apply Hp. unfold gauss_step in Es. by destruct (find_pivot aug c k).
Qed.

Lemma invert_vandermonde_ok : exists V_inv,
  invert_vandermonde alphas k = Ok V_inv /\ length V_inv = k /\
  forall c, wf_bytes c -> length c = k -> forall m, (m < k)%nat ->
    dot (V_inv !!! m) (map (fun a => dot (alpha_powers k 1 a) c) alphas) = c !!! m.
Proof.
  destruct (gauss_jordan_runs k) as (aug & Hf & Hm & Hcd & Heq); [lia|].
  exists (map (drop k) aug). unfold invert_vandermonde. rewrite Hf. split; [done|].
  split; [rewrite length_map; apply Hm|]. intros c Hwc Hlc m Hmk.
  set (y := map (fun a => dot (alpha_powers k 1 a) c) alphas).
  assert (length y = k) as Hly by (unfold y; by rewrite length_map).
  assert (wf_bytes y) as Hwy.
  { apply Forall_map. eapply Forall_impl; [exact Hwf|]. intros a Ha. simpl.
    apply dot_isb; [apply alpha_powers_wf; auto with gf|done]. }
  assert (sol k (augmented alphas k) (c ++ y)) as Hsol.
  { intros i Hi. rewrite augmented_row, dot_app by (rewrite ?alpha_powers_length; done).
    rewrite dot_unit, (proj2 (Nat.ltb_lt i k)) by done. unfold y.
    rewrite (lookup_total_map _ alphas) by lia. apply Z.lxor_nilpotent. }
  apply Heq in Hsol; [|rewrite length_app; lia|by apply wf_bytes_app].
  specialize (Hsol m Hmk). destruct (proj2 Hm m Hmk) as [Hl _].
  rewrite <- (take_drop k (aug !!! m)), (take_unit k) in Hsol by (done || lia).
  rewrite dot_app, dot_unit, (proj2 (Nat.ltb_lt m k)) in Hsol by (rewrite ?unit_row_length; done).
  apply Z.lxor_eq in Hsol. rewrite Hsol. f_equal.
  apply list_lookup_total_fmap. rewrite (proj1 Hm). done.
Qed.

End Invert.

(** ** Framing: padding, chunks and the length prefix *)
Lemma pad_spec data k : (0 < k)%nat ->
  exists r, pad data k = data ++ replicate r 0 /\ (length (pad data k) mod k = 0)%nat.
Proof.
  intros Hk. unfold pad. destruct (Nat.eqb_spec (length data mod k) 0) as [E|E].
  - exists 0%nat. by rewrite app_nil_r.
  - eexists. split; [done|]. rewrite length_app, length_replicate.
    pose proof (Nat.mod_upper_bound (length data) k ltac:(lia)).
    rewrite (Nat.div_mod_eq (length data) k) at 1.
    replace (k * (length data / k) + length data mod k + (k - length data mod k))%nat
      with ((length data / k + 1) * k)%nat by nia.
    by apply Nat.Div0.mod_mul.
Qed.

Lemma chunk_length cs p k i : length p = (k * cs)%nat -> (i < k)%nat -> length (chunk cs p i) = cs.
Proof. intros Hl Hi. unfold chunk. rewrite length_take, length_drop. nia. Qed.

Lemma concat_chunks cs p k : length p = (k * cs)%nat -> concat (map (chunk cs p) (seq 0 k)) = p.
Proof.
  intros Hl. enough (forall c, (c <= k)%nat -> concat (map (chunk cs p) (seq 0 c)) = take (c * cs) p) as H.
  { rewrite H by lia. apply take_ge. lia. }
  induction c as [|c IH]; intros Hc; [done|].
  rewrite seq_S, map_app, concat_app, IH by lia. simpl. rewrite app_nil_r.
  unfold chunk. rewrite Nat.add_comm, take_take_drop. done.
Qed.

Lemma strip_prefix_ok data r : Z.of_nat (length data) < 2 ^ 64 ->
  strip_prefix (be_encode 8 (Z.of_nat (length data)) ++ data ++ replicate r 0) = Ok data.
Proof.
  intros Hl. unfold strip_prefix, struct_unpack.
  rewrite take_app_length' by (by rewrite be_encode_length).
  rewrite drop_app_length' by (by rewrite be_encode_length).
  rewrite be_encode_length, Nat.eqb_refl. unfold mbind, result_bind.
  rewrite be_decode_encode by lia. rewrite Nat2Z.id. by rewrite take_app_length.
Qed.

(** The column of the data matrix at a byte position. *)
Definition column (chunks : list bytes) (pos : nat) : list Z := map (fun c => c !!! pos) chunks.

Lemma column_wf chunks pos : Forall wf_bytes chunks -> wf_bytes (column chunks pos).
Proof.
  intros H. apply Forall_map. eapply Forall_impl; [exact H|]. intros c Hc. by apply wf_lookup_total.
Qed.

(** Reading back a chunk from the recovered columns. *)
Lemma columns_chunk chunks cs m : (m < length chunks)%nat -> length (chunks !!! m) = cs ->
  map (fun pos => column chunks pos !!! m) (seq 0 cs) = chunks !!! m.
Proof.
  intros Hm Hl. apply list_eq_same_length with cs; [done|by rewrite length_map, length_seq|].
  intros j x y Hj Hx Hy. rewrite lookup_map, lookup_seq_lt in Hx by done. simpl in Hx.
  injection Hx as <-. unfold column.
  replace (map _ chunks !!! m) with ((chunks !!! m) !!! j) by (symmetry; by apply list_lookup_total_fmap).
  by rewrite list_lookup_total_alt, Hy.
Qed.

Lemma sorted_keys_spec (shards : gmap nat bytes) :
  NoDup (sorted_keys shards) /\ length (sorted_keys shards) = size shards /\
  forall i, i ∈ sorted_keys shards -> is_Some (shards !! i).
Proof.
  assert (sorted_keys shards ≡ₚ (map_to_list shards).*1) as Hp by apply merge_sort_Permutation.
  split; [|split].
  - rewrite Hp. apply NoDup_fst_map_to_list.
  - rewrite Hp. by rewrite length_fmap, length_map_to_list.
  - intros i. rewrite Hp. intros ([i' s] & -> & Hin)%list_elem_of_fmap.
    apply elem_of_map_to_list in Hin. by eexists.
Qed.

(** ** Behaviour of [encode] *)
Lemma encode_Ok data n k shards : encode None data n k = Ok shards ->
  (0 < k < n)%nat /\ (n <= 255)%nat /\ Z.of_nat (length data) < 2 ^ 64 /\
  exists cs chunks r,
    chunks = map (chunk cs (be_encode 8 (Z.of_nat (length data)) ++ data ++ replicate r 0)) (seq 0 k) /\
    length (be_encode 8 (Z.of_nat (length data)) ++ data ++ replicate r 0) = (k * cs)%nat /\
    shards = map (encode_shard k cs chunks) (seq 0 n).
Proof.
  unfold encode. destruct ((k <? n)%nat && (0 <? k)%nat) eqn:E; simpl; [|done].
  destruct (Nat.ltb_spec 255 n); [done|]. breflect.
  unfold mbind, result_bind. destruct (struct_pack 8 _) as [lp|] eqn:Ep; [|done].
  apply struct_pack_Ok in Ep as [Hr ->]. intros <-%Ok_inj.
  destruct (pad_spec (be_encode 8 (Z.of_nat (length data)) ++ data) k) as (r & Hpad & Hmod); [lia|].
  rewrite Hpad, <- app_assoc in *. set (q := be_encode 8 _ ++ data ++ replicate r 0) in *.
  split; [lia|]. split; [lia|]. split; [lia|].
  exists (length q / k)%nat, (map (chunk (length q / k)%nat q) (seq 0 k)), r.
  split; [done|]. split; [|done].
  pose proof (Nat.div_mod_eq (length q) k) as Hd. rewrite Hmod, Nat.add_0_r in Hd. exact Hd.
Qed.

Lemma encode_total data n k : (0 < k < n)%nat -> (n <= 255)%nat -> Z.of_nat (length data) < 2 ^ 64 ->
  exists shards, encode None data n k = Ok shards /\ length shards = n.
Proof.
  intros Hk Hn Hl. unfold encode.
  rewrite (proj2 (Nat.ltb_lt k n)), (proj2 (Nat.ltb_lt 0 k)) by lia. simpl.
  destruct (Nat.ltb_spec 255 n); [lia|].
  rewrite (proj2 (struct_pack_Ok 8 _ _)) by (split; [lia|done]). unfold mbind, result_bind.
  eexists. split; [done|]. by rewrite length_map, length_seq.
Qed.

(** The indices [decode] picks from a sub-dictionary of the shards. *)
Lemma picked_indices (f : nat -> bytes) n k (sub : gmap nat bytes) :
  (forall i s, sub !! i = Some s -> map f (seq 0 n) !! i = Some s) -> (k <= size sub)%nat ->
  let indices := take k (sorted_keys sub) in
  length indices = k /\ NoDup indices /\
  forall i, i ∈ indices -> (i < n)%nat /\ default [] (sub !! i) = f i.
Proof.
  intros Hsub Hsize indices. destruct (sorted_keys_spec sub) as (Hnd & Hlk & Hin).
  split; [unfold indices; rewrite length_take; lia|].
  split; [eapply sublist_NoDup; [done|apply sublist_take]|].
  intros i (j & Hj & _)%elem_of_take. destruct (Hin i) as [s Hs]; [by eapply list_elem_of_lookup_2|].
  rewrite Hs. apply Hsub in Hs. rewrite lookup_map in Hs.
  destruct (seq 0 n !! i) as [i'|] eqn:Ei; [|done]. apply lookup_seq in Ei as [-> Hi'].
  simpl in *. split; [done|congruence].
Qed.

(** Solving the Vandermonde system at every byte position gives the chunks
    back. *)
Lemma reconstruct_chunks k cs chunks alphas V_inv :
  length chunks = k -> Forall (fun c => length c = cs /\ wf_bytes c) chunks ->
  (forall c, wf_bytes c -> length c = k -> forall m, (m < k)%nat ->
    dot (V_inv !!! m) (map (fun a => dot (alpha_powers k 1 a) c) alphas) = c !!! m) ->
  reconstruct V_inv
    (map (fun pos => map (fun a => dot (alpha_powers k 1 a) (column chunks pos)) alphas) (seq 0 cs)) k
  = concat chunks.
Proof.
  intros Hlc Hc Hsolve. unfold reconstruct. f_equal.
  apply list_eq. intros m. rewrite lookup_map.
  destruct (Nat.lt_ge_cases m k) as [Hm|Hm].
  2: { rewrite !lookup_ge_None_2; [done|lia|rewrite length_seq; lia]. }
  rewrite lookup_seq_lt by lia. simpl. rewrite map_map.
  rewrite (list_lookup_lookup_total_lt chunks m) by lia. f_equal.
  rewrite <- (columns_chunk chunks cs m) at 1; [|lia|].
  - apply map_ext. intros pos. apply Hsolve; [|by unfold column; rewrite length_map|done].
    apply column_wf. eapply Forall_impl; [exact Hc|]. by intros ? [].
  - destruct (lookup_lt_is_Some_2 chunks m) as [c E]; [lia|].
    rewrite list_lookup_total_alt, E. eapply Forall_lookup_1 in E; [|exact Hc]. apply E.
Qed.

(** Decoding from any k shards: the argument of [decode_encode]. *)
Lemma decode_any_k data n k shards (sub : gmap nat bytes) :
  wf_bytes data -> encode None data n k = Ok shards ->
  (forall i s, sub !! i = Some s -> shards !! i = Some s) -> (k <= size sub)%nat ->
  decode None sub n k = Ok data.
Proof.
  intros Hwf Henc Hsub Hsize.
  apply encode_Ok in Henc as (Hk & Hn & Hlen & cs & chunks & r & Echunks & Hpl & ->).
  set (p := _ ++ _) in *.
  assert (length chunks = k) as Hlc by (by rewrite Echunks, length_map, length_seq).
  assert (Forall (fun c => length c = cs /\ wf_bytes c) chunks) as Hwc.
  { rewrite Echunks. apply Forall_map, Forall_forall. intros i Hi%elem_of_seq.
    split; [apply chunk_length with k; [done|lia]|]. apply wf_bytes_take, wf_bytes_drop.
    unfold p. rewrite !wf_bytes_app. repeat split; auto with ltp. apply Forall_replicate. auto with gf. }
  unfold decode. destruct (Nat.ltb_spec (size sub) k); [lia|].
  destruct (picked_indices _ n k sub Hsub Hsize) as (Hli & Hndi & Hget).
  destruct (take k (sorted_keys sub)) as [|i0 rest] eqn:Eidx; [simpl in Hli; lia|].
  rewrite <- Eidx in *. set (indices := take k (sorted_keys sub)) in *.
  assert (i0 ∈ indices) as Hi0 by (rewrite Eidx; constructor).
  assert (existsb (fun i => 254 <? i)%nat indices = false) as ->.
  { apply not_true_iff_false. rewrite existsb_exists. intros (i & Hi & Hgt).
    apply list_elem_of_In, Hget in Hi as [Hi _]. breflect. lia. }
  set (alphas := map (fun i => Z.of_nat i + 1) indices).
  destruct (invert_vandermonde_ok k alphas) as (V_inv & HV & HlV & Hsolve).
  { unfold alphas. by rewrite length_map. }
  { apply NoDup_fmap_2; [|done]. intros ???. lia. }
  { apply Forall_map, Forall_forall. intros i Hi. apply Hget in Hi as [Hi _]. simpl. unfold isb. lia. }
  rewrite HV. unfold mbind, result_bind.
  assert (length (default [] (sub !! i0)) = cs) as ->.
  { rewrite (proj2 (Hget i0 Hi0)). unfold encode_shard. by rewrite length_map, length_seq. }
  rewrite (mapR_pure _ (fun pos => map (fun a => dot (alpha_powers k 1 a) (column chunks pos)) alphas)).
  - rewrite (reconstruct_chunks k cs), Echunks, concat_chunks by done. by apply strip_prefix_ok.
  - intros pos Hpos. apply elem_of_seq in Hpos. unfold alphas. rewrite map_map.
    apply mapR_pure. intros i Hi. rewrite (proj2 (Hget i Hi)). unfold encode_shard.
    rewrite lookup_map, lookup_seq_lt by lia. done.
Qed.

(** C12: any k of the n shards of an entity, under their own indices, decode
    to the entity: for every payload and every dictionary of at least k
    shards agreeing with the output of [encode], [decode] returns the payload
    (it neither fails nor returns anything else). *)
Theorem decode_encode data n k shards (sub : gmap nat bytes) :
  wf_bytes data -> encode None data n k = Ok shards ->
  (forall i s, sub !! i = Some s -> shards !! i = Some s) -> (k <= size sub)%nat ->
  decode None sub n k = Ok data.
Proof. apply decode_any_k. Qed.

(** [encode] succeeds exactly on the documented parameters, and then
    yields n shards. *)
Theorem encode_succeeds_iff data n k :
  (exists shards, encode None data n k = Ok shards /\ length shards = n) <->
  (0 < k < n)%nat /\ (n <= 255)%nat /\ Z.of_nat (length data) < 2 ^ 64.
Proof.
  split.
  - intros (shards & He & _). by apply encode_Ok in He as (? & ? & ? & _).
  - intros (? & ? & ?). by apply encode_total.
Qed.

(** Fewer than k shards are refused. *)
Lemma decode_too_few (sub : gmap nat bytes) n k :
  (size sub < k)%nat -> decode None sub n k = Err (ValueError "Need at least k shards").
Proof. intros H. unfold decode. by rewrite (proj2 (Nat.ltb_lt _ _)). Qed.

(** The hypotheses of the round trip are satisfiable: shards 1, 3 and 4 of a
    3-of-5 encoding. *)
Definition demo_shards : list bytes :=
  Eval vm_compute in
    match encode None (lit "lattice") 5 3 with Ok s => s | Err _ => [] end.

Lemma decode_encode_witness :
  decode None (list_to_map [(1%nat, demo_shards !!! 1%nat); (4%nat, demo_shards !!! 4%nat);
                            (3%nat, demo_shards !!! 3%nat)]) 5 3 = Ok (lit "lattice").
Proof.
  apply (decode_encode (lit "lattice") 5 3 demo_shards).
  - unfold lit, wf_bytes, isb. simpl. repeat constructor; lia.
  - vm_compute. reflexivity.
  - intros i s Hs. apply elem_of_list_to_map_2 in Hs.
    repeat (apply elem_of_cons in Hs as [[= -> ->]|Hs]; [reflexivity|]).
    by apply not_elem_of_nil in Hs.
  - vm_compute. lia.
Defined.

End ErasureCoder.
