(* ===== verification/Float64.v ===== *)
(** Python floats.  A float is kept as its 64-bit IEEE 754 pattern, the way
    [struct.pack(">d", x)] writes it; arithmetic and comparisons decode it to
    the Standard Library's exact specification of binary64. *)

From Stdlib Require Import SpecFloat.
From S2P Require Import Prelude.

Abbreviation float64 := Z.
Definition wf_float (w : float64) : Prop := 0 <= w < 2 ^ 64.

Definition f64_exponent (w : float64) : Z := (w / 2 ^ 52) mod 2 ^ 11.
Definition f64_mantissa (w : float64) : Z := w mod 2 ^ 52.
Definition f64_sign (w : float64) : bool := 2 ^ 63 <=? w.

Definition mk_finite (s : bool) (m e : Z) : spec_float :=
  match m with Zpos p => S754_finite s p e | _ => S754_zero s end.

Definition f64_of_bits (w : float64) : spec_float :=
  let s := f64_sign w in let e := f64_exponent w in let m := f64_mantissa w in
  if e =? 2047 then (if m =? 0 then S754_infinity s else S754_nan)
  else if e =? 0 then mk_finite s m (-1074)
  else mk_finite s (m + 2 ^ 52) (e - 1075).

(** [math.isnan(x) or math.isinf(x)] *)
Definition f64_not_finite (w : float64) : bool := f64_exponent w =? 2047.

Definition f64_compare (a b : float64) : option comparison := SFcompare (f64_of_bits a) (f64_of_bits b).
(** [a >= b], [a > b], [a < b]: false when an operand is NaN. *)
Definition f64_ge (a b : float64) : bool :=
  match f64_compare a b with Some Gt | Some Eq => true | _ => false end.
Definition f64_gt (a b : float64) : bool :=
  match f64_compare a b with Some Gt => true | _ => false end.
Definition f64_lt (a b : float64) : bool :=
  match f64_compare a b with Some Lt => true | _ => false end.

(** [abs(a - b) > c] *)
Definition f64_dist_gt (a b c : float64) : bool :=
  match SFcompare (SFabs (SFsub 53 1024 (f64_of_bits a) (f64_of_bits b))) (f64_of_bits c) with
  | Some Gt => true
  | _ => false
  end.

(** [a * b], on decoded floats. *)
Definition fmul (a b : spec_float) : spec_float := SFmul 53 1024 a b.

(** The bit pattern of a decoded float; the inverse of [f64_of_bits] up to the
    payload of NaN. *)
Definition f64_to_bits (f : spec_float) : float64 :=
  let sgn (s : bool) := if s then 2 ^ 63 else 0 in
  match f with
  | S754_zero s => sgn s
  | S754_infinity s => sgn s + 2047 * 2 ^ 52
  | S754_nan => 0x7FF8000000000000
  | S754_finite s m e =>
      if Zpos m <? 2 ^ 52 then sgn s + Zpos m else sgn s + (e + 1075) * 2 ^ 52 + (Zpos m - 2 ^ 52)
  end.

(** [a + b], [a - b], [a * b] and [a / b] (a zero divisor raises). *)
Definition f64_add (a b : float64) : float64 := f64_to_bits (SFadd 53 1024 (f64_of_bits a) (f64_of_bits b)).
Definition f64_sub (a b : float64) : float64 := f64_to_bits (SFsub 53 1024 (f64_of_bits a) (f64_of_bits b)).
Definition f64_mul (a b : float64) : float64 := f64_to_bits (SFmul 53 1024 (f64_of_bits a) (f64_of_bits b)).
Definition f64_div (a b : float64) : result float64 :=
  match f64_of_bits b with
  | S754_zero _ => Err ZeroDivisionError
  | fb => Ok (f64_to_bits (SFdiv 53 1024 (f64_of_bits a) fb))
  end.

(** [float(z)] for an integer: rounded to nearest even, [OverflowError] when
    out of range. *)
Definition f64_of_int (z : Z) : result float64 :=
  match binary_normalize 53 1024 z 0 false with
  | S754_infinity _ => Err OverflowError
  | f => Ok (f64_to_bits f)
  end.

(** The value of a finite float as a fraction: numerator and denominator. *)
Definition sf_fraction (f : spec_float) : option (Z * Z) :=
  match f with
  | S754_zero _ => Some (0, 1)
  | S754_finite s m e =>
      let n := if s then Zneg m else Zpos m in
      Some (if 0 <=? e then (n * 2 ^ e, 1) else (n, 2 ^ (- e)))
  | _ => None
  end.

(** [math.ceil(x)], [math.floor(x)] and [int(x)]: exact on finite floats. *)
Definition f64_round (r : Z -> Z -> Z) (w : float64) : result Z :=
  match sf_fraction (f64_of_bits w), f64_of_bits w with
  | Some (n, d), _ => Ok (r n d)
  | None, S754_nan => Err (ValueError "cannot convert float NaN to integer")
  | None, _ => Err OverflowError
  end.
Definition f64_ceil : float64 -> result Z := f64_round (fun n d => - ((- n) / d)).
Definition f64_floor : float64 -> result Z := f64_round Z.div.
Definition f64_int : float64 -> result Z := f64_round Z.quot.

(** [a / b] for integers of any size: the correctly rounded quotient. *)
Definition sf_of_int (z : Z) : spec_float := mk_finite (z <? 0) (Z.abs z) 0.
Definition int_truediv (a b : Z) : result float64 :=
  if b =? 0 then Err ZeroDivisionError
  else match SFdiv 53 1024 (sf_of_int a) (sf_of_int b) with
       | S754_infinity _ => Err OverflowError
       | f => Ok (f64_to_bits f)
       end.

(** [min(a, b)] and [max(a, b)]: the first argument unless the second one is
    smaller (larger). *)
Definition f64_min (a b : float64) : float64 := if f64_lt b a then b else a.
Definition f64_max (a b : float64) : float64 := if f64_gt b a then b else a.
(** [a <= b] *)
Definition f64_le (a b : float64) : bool :=
  match f64_compare a b with Some Lt | Some Eq => true | _ => false end.
(** [z * x] and [int(z * x)] for an integer and a float *)
Definition f64_scale (z : Z) (x : float64) : result float64 := a ← f64_of_int z; Ok (f64_mul a x).
Definition int_scale (z : Z) (x : float64) : result Z := y ← f64_scale z x; f64_int y.

(** Nearest integer to [n / d], ties to even. *)
Definition round_half_even (n d : Z) : Z :=
  let q := n / d in let r := 2 * (n mod d) in
  if r <? d then q else if d <? r then q + 1 else if Z.even q then q else q + 1.

(** [format(x, ".<prec>f")] and [format(x, ".<prec>%")]. *)
Definition fixed_digits (prec : nat) (n : Z) : pystr :=
  let ds := str_int n in
  let ds := repeat 48 (S prec - length ds)%nat ++ ds in
  match prec with
  | O => ds
  | _ => take (length ds - prec)%nat ds ++ lit "." ++ drop (length ds - prec)%nat ds
  end.
Definition fmt_fixed (prec : nat) (w : float64) : pystr :=
  let f := f64_of_bits w in
  match sf_fraction f, f with
  | Some (n, d), _ =>
      (if f64_sign w then lit "-" else []) ++ fixed_digits prec (round_half_even (Z.abs n * 10 ^ Z.of_nat prec) d)
  | None, S754_infinity s => (if s then lit "-" else []) ++ lit "inf"
  | None, _ => lit "nan"
  end.
Definition fmt_percent (prec : nat) (w : float64) : pystr := fmt_fixed prec (f64_mul w 0x4059000000000000) ++ lit "%".

(** [x > z] for a float and an integer: Python compares them exactly. *)
Definition f64_gt_int (w : float64) (z : Z) : bool :=
  match f64_of_bits w with
  | S754_nan => false
  | S754_infinity s => negb s
  | f => match sf_fraction f with Some (n, d) => z * d <? n | None => false end
  end.

Lemma f64_fields w : wf_float w ->
  w = (if f64_sign w then 2 ^ 63 else 0) + f64_exponent w * 2 ^ 52 + f64_mantissa w /\
  0 <= f64_exponent w < 2048 /\ 0 <= f64_mantissa w < 2 ^ 52.
Proof.
  unfold wf_float, f64_sign, f64_exponent, f64_mantissa. intros Hw.
  pose proof (Z.div_mod w (2 ^ 52)). pose proof (Z.mod_pos_bound w (2 ^ 52)).
  pose proof (Z.mod_pos_bound (w / 2 ^ 52) (2 ^ 11)). split; [|lia].
  destruct (Z.leb_spec (2 ^ 63) w).
  - rewrite (Z.mod_eq (w / 2 ^ 52)) by lia. replace (w / 2 ^ 52 / 2 ^ 11) with 1; [lia|].
    rewrite Z.div_div by lia. change (2 ^ 52 * 2 ^ 11) with (2 ^ 63). apply Z.div_unique with (w - 2 ^ 63); lia.
  - rewrite (Z.mod_small (w / 2 ^ 52)); [lia|]. split; [apply Z.div_pos; lia|apply Z.div_lt_upper_bound; lia].
Qed.

(** Decoding and encoding a float that is not NaN is the identity. *)
Lemma f64_to_of_bits w : wf_float w -> f64_of_bits w <> S754_nan -> f64_to_bits (f64_of_bits w) = w.
Proof.
  intros Hw Hn. destruct (f64_fields w Hw) as (Hs & He & Hm). rewrite Hs at 2. clear Hs Hw. revert Hn.
  unfold f64_of_bits. destruct (Z.eqb_spec (f64_exponent w) 2047) as [->|].
  - destruct (Z.eqb_spec (f64_mantissa w) 0) as [->|]; [intros _|done]. unfold f64_to_bits. destruct (f64_sign w); lia.
  - intros _. destruct (Z.eqb_spec (f64_exponent w) 0) as [->|]; unfold mk_finite.
    + destruct (f64_mantissa w) as [|p|p] eqn:E; [| |lia]; unfold f64_to_bits; destruct (f64_sign w);
        try destruct (Z.ltb_spec (Zpos p) (2 ^ 52)); lia.
    + destruct (f64_mantissa w + 2 ^ 52) as [|p|p] eqn:E; [lia| |lia].
      unfold f64_to_bits. destruct (Z.ltb_spec (Zpos p) (2 ^ 52)), (f64_sign w); lia.
Qed.

(** ** Integers below 2^53 convert exactly *)
Lemma digits2_pos_spec p : 2 ^ (Zpos (digits2_pos p) - 1) <= Zpos p < 2 ^ Zpos (digits2_pos p).
Proof.
  induction p as [p IH|p IH|]; cbn [digits2_pos]; [..|done];
    rewrite Pos2Z.inj_succ, Z.sub_1_r, Z.pred_succ, Z.pow_succ_r by lia;
    replace (2 ^ Zpos (digits2_pos p)) with (2 * 2 ^ (Zpos (digits2_pos p) - 1)) in *
      by (rewrite <- Z.pow_succ_r by lia; f_equal; lia); lia.
Qed.

Lemma digits2_unique m n : 0 < n -> 2 ^ (n - 1) <= Zpos m < 2 ^ n -> Zpos (digits2_pos m) = n.
Proof.
  intros Hn [H1 H2]. destruct (digits2_pos_spec m) as [H3 H4].
  assert (n - 1 < Zpos (digits2_pos m)) by (apply (Z.pow_lt_mono_r_iff 2); lia).
  assert (Zpos (digits2_pos m) - 1 < n) by (apply (Z.pow_lt_mono_r_iff 2); lia). lia.
Qed.

Lemma iter_xO p d : Zpos (Pos.iter xO p d) = Zpos p * 2 ^ Zpos d.
Proof.
  induction d as [|d IH] using Pos.peano_ind; [cbn; lia|].
  rewrite Pos.iter_succ, Pos2Z.inj_succ, Z.pow_succ_r by lia. rewrite (Pos2Z.inj_xO (Pos.iter _ _ _)), IH. lia.
Qed.

(** A normalised mantissa is not rounded again. *)
Lemma round_aux_normal m e : 2 ^ 52 <= Zpos m < 2 ^ 53 -> -1074 <= e <= 971 ->
  binary_round_aux 53 1024 false (Zpos m) e loc_Exact = S754_finite false m e.
Proof.
  intros Hm He. assert (Zpos (digits2_pos m) = 53) as Hd by (apply digits2_unique; [lia|exact Hm]).
  assert (shr_fexp 53 1024 (Zpos m) e loc_Exact = (shr_record_of_loc (Zpos m) loc_Exact, e)) as Hs.
  { unfold shr_fexp, fexp, emin. cbn [Zdigits2]. rewrite Hd.
    replace (Z.max (53 + e - 53) (3 - 1024 - 53) - e) with 0 by lia. done. }
  unfold binary_round_aux. rewrite Hs. cbn [shr_record_of_loc shr_m loc_of_shr_record round_nearest_even].
  rewrite Hs. cbn [shr_record_of_loc shr_m]. by rewrite (proj2 (Z.leb_le e (1024 - 53))) by lia.
Qed.

Lemma f64_of_int_exact z : 0 < z < 2 ^ 53 -> exists w m e, f64_of_int z = Ok w /\
  f64_of_bits w = S754_finite false m e /\ e <= 0 /\ Zpos m = z * 2 ^ (- e).
Proof.
  intros Hz. destruct z as [|p|]; try lia. destruct (digits2_pos_spec p) as [H1 H2].
  assert (Zpos (digits2_pos p) <= 53) as Hd.
  { apply Z.le_ngt. intros Hd. assert (2 ^ 53 <= 2 ^ (Zpos (digits2_pos p) - 1)) by (apply Z.pow_le_mono_r; lia). lia. }
  set (d := Zpos (digits2_pos p)) in *. set (e := d - 53).
  assert (exists m, shl_align p 0 e = (m, e) /\ Zpos m = Zpos p * 2 ^ (- e)) as (m & Hs & Hm).
  { unfold shl_align. rewrite Z.sub_0_r. destruct e as [|q|q] eqn:Ee; [exists p|unfold e in Ee; lia|exists (Pos.iter xO p q)].
    - split; [done|]. cbn. lia.
    - split; [done|]. apply iter_xO. }
  assert (2 ^ 52 <= Zpos m < 2 ^ 53) as Hb.
  { rewrite Hm. assert (2 ^ 53 = 2 ^ d * 2 ^ (- e)) as -> by (rewrite <- Z.pow_add_r by (unfold e; lia); f_equal; unfold e; lia).
    assert (2 ^ 52 = 2 ^ (d - 1) * 2 ^ (- e)) as -> by (rewrite <- Z.pow_add_r by (unfold e; lia); f_equal; unfold e; lia).
    pose proof (Z.pow_pos_nonneg 2 (- e)). nia. }
  assert (f64_of_int (Zpos p) = Ok (f64_to_bits (S754_finite false m e))) as E.
  { unfold f64_of_int, binary_normalize, binary_round. fold d. unfold fexp, emin.
    replace (Z.max (d + 0 - 53) (3 - 1024 - 53)) with e by (unfold e; lia). rewrite Hs.
    rewrite round_aux_normal by (unfold e; lia). done. }
  exists (f64_to_bits (S754_finite false m e)), m, e. split; [done|]. split; [|split; [unfold e; lia|done]].
  unfold f64_to_bits. destruct (Z.ltb_spec (Zpos m) (2 ^ 52)); [lia|].
  assert (0 < e + 1075 < 2047) as Hx by (unfold e; lia).
  set (w := 0 + (e + 1075) * 2 ^ 52 + (Zpos m - 2 ^ 52)).
  assert (w / 2 ^ 52 = e + 1075) as Hq.
  { unfold w. rewrite Z.add_0_l, Z.add_comm, Z.div_add, Z.div_small by lia. lia. }
  assert (f64_mantissa w = Zpos m - 2 ^ 52) as Hma.
  { unfold f64_mantissa, w. rewrite Z.add_0_l, Z.add_comm, Z.mod_add, Z.mod_small by lia. done. }
  assert (f64_exponent w = e + 1075) as Hex by (unfold f64_exponent; rewrite Hq, Z.mod_small by lia; done).
  assert (f64_sign w = false) as Hsg by (unfold f64_sign; apply Z.leb_gt; unfold w; lia).
  unfold f64_of_bits. rewrite Hma, Hex, Hsg. destruct (Z.eqb_spec (e + 1075) 2047); [lia|].
  destruct (Z.eqb_spec (e + 1075) 0); [lia|]. replace (Zpos m - 2 ^ 52 + 2 ^ 52) with (Zpos m) by lia.
  unfold mk_finite. f_equal. lia.
Qed.

(** Some doubles: 0.0, 1.0, 3600.0, 1.7e9 and NaN. *)
Definition f64_zero : float64 := 0.
Definition f64_one : float64 := 0x3FF0000000000000.
Definition f64_hour : float64 := 0x40AC200000000000.
Definition f64_epoch : float64 := 0x41D954FC40000000.
Definition f64_nan : float64 := 0x7FF8000000000000.

Example f64_one_value : f64_of_bits f64_one = S754_finite false 4503599627370496 (-52).
Proof. reflexivity. Qed.
Example f64_epoch_value : f64_ge f64_epoch f64_hour = true /\ f64_ge f64_hour f64_epoch = false
  /\ f64_ge f64_nan f64_hour = false /\ f64_dist_gt f64_epoch f64_hour f64_hour = true.
Proof. by vm_compute. Qed.

(** 2/3 as the code writes it, and the decimal renderings of 2500.0, 0.65 and 15 %. *)
Example f64_format : f64_div 0x4000000000000000 0x4008000000000000 = Ok 0x3FE5555555555555
  /\ fmt_fixed 0 0x40A3880000000000 = lit "2500" /\ fmt_fixed 2 0x3FE4CCCCCCCCCCCD = lit "0.65"
  /\ fmt_percent 1 0x3FC3333333333333 = lit "15.0%" /\ f64_ceil 0x3FE5555555555555 = Ok 1
  /\ f64_of_int 3600 = Ok f64_hour /\ f64_add f64_zero f64_one = f64_one.
Proof. by vm_compute. Qed.

Example int_truediv_rounds : int_truediv 1 3 = Ok 0x3FD5555555555555 /\ int_truediv (2 ^ 60 + 1) (2 ^ 60 - 1) = Ok f64_one
  /\ int_truediv (10 ^ 400) 3 = Err OverflowError /\ int_truediv (-3) 2 = Ok 0xBFF8000000000000.
Proof. by vm_compute. Qed.
