(* ===== verification/Sha3.v ===== *)
(** SHA3-256 (FIPS 202), the standard-library function [hashlib.sha3_256]
    that the canonical hash lane of src/src/ltp/dual_lane/hashing.py uses by
    default.  It makes the models executable on concrete inputs; the theorems
    are proved for any hash function satisfying the interface of Hashing.v. *)

From S2P Require Import Prelude.

Definition mask64 : Z := 0xFFFFFFFFFFFFFFFF.
Definition rotl64 (x n : Z) : Z :=
  Z.lor (Z.land (Z.shiftl x n) mask64) (Z.shiftr x (64 - n)).

Definition round_constants : list Z :=
  [0x0000000000000001; 0x0000000000008082; 0x800000000000808A;
   0x8000000080008000; 0x000000000000808B; 0x0000000080000001;
   0x8000000080008081; 0x8000000000008009; 0x000000000000008A;
   0x0000000000000088; 0x0000000080008009; 0x000000008000000A;
   0x000000008000808B; 0x800000000000008B; 0x8000000000008089;
   0x8000000000008003; 0x8000000000008002; 0x8000000000000080;
   0x000000000000800A; 0x800000008000000A; 0x8000000080008081;
   0x8000000000008080; 0x0000000080000001; 0x8000000080008008].

(** Rotation offsets of the lanes, lane (x, y) at position x + 5 y. *)
Definition rho_offsets : list Z := [0; 1; 62; 28; 27; 36; 44; 6; 55; 20; 3; 10; 43; 25; 39; 41; 45; 15; 21; 8; 18; 2; 61; 56; 14].

Definition lane (st : list Z) (x y : nat) : Z := st !!! (x mod 5 + 5 * (y mod 5))%nat.
Definition tabulate (f : nat -> nat -> Z) : list Z :=
  map (fun i => f (i mod 5)%nat (i / 5)%nat) (seq 0 25).

Definition theta (st : list Z) : list Z :=
  let c := map (fun x => fold_left (fun a y => Z.lxor a (lane st x y)) (seq 0 5) 0) (seq 0 5) in
  let d x := Z.lxor (c !!! ((x + 4) mod 5)%nat) (rotl64 (c !!! ((x + 1) mod 5)%nat) 1) in
  tabulate (fun x y => Z.lxor (lane st x y) (d x)).

Definition rho (st : list Z) : list Z :=
  tabulate (fun x y => rotl64 (lane st x y) (lane rho_offsets x y)).

Definition pi (st : list Z) : list Z :=
  tabulate (fun x y => lane st (x + 3 * y) x).

Definition chi (st : list Z) : list Z :=
  tabulate (fun x y => Z.lxor (lane st x y)
    (Z.land (Z.lxor (lane st (x + 1) y) mask64) (lane st (x + 2) y))).

Definition iota (rc : Z) (st : list Z) : list Z :=
  match st with [] => [] | a :: st => Z.lxor a rc :: st end.

Definition keccak_f (st : list Z) : list Z :=
  fold_left (fun st rc => iota rc (chi (pi (rho (theta st))))) round_constants st.

Definition rate : nat := 136.

Fixpoint le_decode (bs : bytes) : Z :=
  match bs with [] => 0 | b :: bs => b + 256 * le_decode bs end.
Fixpoint le_encode (n : nat) (v : Z) : bytes :=
  match n with O => [] | S n => v mod 256 :: le_encode n (v / 256) end.

(** The message with the SHA-3 suffix 01 and the padding 10*1. *)
Definition sha3_pad (m : bytes) : bytes :=
  let q := (rate - length m mod rate)%nat in
  m ++ (if (q =? 1)%nat then [0x86] else 0x06 :: replicate (q - 2) 0 ++ [0x80]).

Definition absorb_block (st : list Z) (block : bytes) : list Z :=
  keccak_f (imap (fun i a =>
    if (i <? 17)%nat then Z.lxor a (le_decode (take 8 (drop (8 * i) block))) else a) st).

Fixpoint absorb (fuel : nat) (st : list Z) (m : bytes) : list Z :=
  match fuel, m with
  | S fuel, _ :: _ => absorb fuel (absorb_block st (take rate m)) (drop rate m)
  | _, _ => st
  end.

Definition sha3_256 (m : bytes) : bytes :=
  let p := sha3_pad m in
  let st := absorb (length p / rate) (replicate 25 0) p in
  concat (map (fun i => le_encode 8 (st !!! i)) (seq 0 4)).

Lemma le_encode_spec n v : length (le_encode n v) = n /\ wf_bytes (le_encode n v).
Proof.
  revert v; induction n as [|n IH]; intros v; simpl; [by split; [|constructor]|].
  destruct (IH (v / 256)). split; [lia|]. constructor; [|done].
  unfold isb. pose proof (Z.mod_pos_bound v 256). lia.
Qed.

Lemma sha3_256_length m : length (sha3_256 m) = 32%nat.
Proof.
  unfold sha3_256. generalize (absorb (length (sha3_pad m) / rate) (replicate 25 0) (sha3_pad m)).
  intros st. simpl. done.
Qed.

Lemma sha3_256_wf m : wf_bytes (sha3_256 m).
Proof.
  unfold sha3_256. apply Forall_concat, Forall_map, Forall_forall. intros i _. apply le_encode_spec.
Qed.

(** Published test vectors. *)
Lemma sha3_256_empty : sha3_256 [] =
  be_encode 32 0xA7FFC6F8BF1ED76651C14756A061D662F580FF4DE43B49FA82D80A4B80F8434A.
Proof. vm_compute. reflexivity. Qed.

Lemma sha3_256_abc : sha3_256 (lit "abc") =
  be_encode 32 0x3A985DA74FE225B2045C172D6BD390BD855F086E3E9D525B46BFE24511431532.
Proof. vm_compute. reflexivity. Qed.

Lemma sha3_256_multiblock : sha3_256 (replicate 300 97) =
  be_encode 32 0x8A5720B2CA0CAE7B89AD399C5DAAB22C29F5C72BCF30AB81E807D9BDA95B4580.
Proof. vm_compute. reflexivity. Qed.
