(* ===== verification/Sha256.v ===== *)
(** SHA-256 and HMAC-SHA256 (FIPS 180-4, RFC 2104), executable: the
    Standard Library digests shards.py derives its nonces with. *)

From S2P Require Import Prelude.

Definition w32 (x : Z) : Z := x mod 2 ^ 32.
Definition rotr (n x : Z) : Z := Z.lor (Z.shiftr x n) (w32 (Z.shiftl x (32 - n))).

(** The constants, computed from their definition: the first 32 bits of the
    fractional parts of the cube roots of the first 64 primes, and of the
    square roots of the first eight. *)
Definition is_prime (n : Z) : bool :=
  forallb (fun d => negb (n mod Z.of_nat d =? 0)) (seq 2 (Z.to_nat (Z.sqrt n) - 1)).
Definition first_primes (n : nat) : list Z :=
  take n (filter (fun p => is_prime p = true) (map Z.of_nat (seq 2 310))).

(** The largest [r] with [r ^ 3 <= n], bit by bit. *)
Definition cube_root (n : Z) : Z :=
  fold_left (fun r i => let r' := r + 2 ^ Z.of_nat i in if r' ^ 3 <=? n then r' else r) (rev (seq 0 36)) 0.

Definition sha256_K : list Z :=
  Eval vm_compute in map (fun p => w32 (cube_root (p * 2 ^ 96))) (first_primes 64).
Definition sha256_H0 : list Z :=
  Eval vm_compute in map (fun p => w32 (Z.sqrt (p * 2 ^ 64))) (first_primes 8).

(** Message schedule: the words so far, most recent first. *)
Fixpoint schedule (n : nat) (ws : list Z) : list Z :=
  match n with
  | O => ws
  | S n =>
      let w2 := ws !!! 1%nat in let w7 := ws !!! 6%nat in let w15 := ws !!! 14%nat in let w16 := ws !!! 15%nat in
      let s0 := Z.lxor (Z.lxor (rotr 7 w15) (rotr 18 w15)) (Z.shiftr w15 3) in
      let s1 := Z.lxor (Z.lxor (rotr 17 w2) (rotr 19 w2)) (Z.shiftr w2 10) in
      schedule n (w32 (w16 + s0 + w7 + s1) :: ws)
  end.

Definition round (st : list Z) (kw : Z * Z) : list Z :=
  match st with
  | [a; b; c; d; e; f; g; h] =>
      let S1 := Z.lxor (Z.lxor (rotr 6 e) (rotr 11 e)) (rotr 25 e) in
      let ch := Z.lxor (Z.land e f) (Z.land (Z.lxor e (2 ^ 32 - 1)) g) in
      let t1 := h + S1 + ch + kw.1 + kw.2 in
      let S0 := Z.lxor (Z.lxor (rotr 2 a) (rotr 13 a)) (rotr 22 a) in
      let maj := Z.lxor (Z.lxor (Z.land a b) (Z.land a c)) (Z.land b c) in
      [w32 (t1 + S0 + maj); a; b; c; w32 (d + t1); e; f; g]
  | _ => st
  end.

Fixpoint words (n : nat) (bs : bytes) : list Z :=
  match n with O => [] | S n => be_decode (take 4 bs) :: words n (drop 4 bs) end.

Definition compress (st : list Z) (block : bytes) : list Z :=
  let ws := rev (schedule 48 (rev (words 16 block))) in
  zip_with (fun x y => w32 (x + y)) st (fold_left round (zip sha256_K ws) st).

Definition sha256_pad (m : bytes) : bytes :=
  let l := Z.of_nat (length m) in
  m ++ [128] ++ repeat 0 (Z.to_nat ((55 - l) mod 64)) ++ be_encode 8 (8 * l).

Fixpoint blocks (n : nat) (bs : bytes) : list bytes :=
  match n with O => [] | S n => take 64 bs :: blocks n (drop 64 bs) end.

Definition sha256 (m : bytes) : bytes :=
  let p := sha256_pad m in
  concat (map (be_encode 4) (fold_left compress (blocks (length p / 64) p) sha256_H0)).

Definition hmac_key (key : bytes) : bytes :=
  let k := if 64 <? Z.of_nat (length key) then sha256 key else key in
  k ++ repeat 0 (64 - length k)%nat.

(** [hmac.new(key, msg, hashlib.sha256).digest()] *)
Definition hmac_sha256 (key msg : bytes) : bytes :=
  let k := hmac_key key in
  sha256 (map (Z.lxor 0x5c) k ++ sha256 (map (Z.lxor 0x36) k ++ msg)).

Lemma round_length st kw : length st = 8%nat -> length (round st kw) = 8%nat.
Proof. intros. unfold round. by repeat (destruct st as [|? st]; try done). Qed.

Lemma fold_round_length kws st : length st = 8%nat -> length (fold_left round kws st) = 8%nat.
Proof. revert st; induction kws; intros; simpl; auto using round_length. Qed.

Lemma fold_compress_length bs st : length st = 8%nat -> length (fold_left compress bs st) = 8%nat.
Proof.
  revert st; induction bs as [|b bs IH]; intros st Hs; cbn [fold_left]; [done|]. apply IH.
  unfold compress. rewrite length_zip_with, fold_round_length by done. lia.
Qed.

Lemma sha256_length m : length (sha256 m) = 32%nat.
Proof.
  unfold sha256. cbv zeta. pose proof (fold_compress_length (blocks (length (sha256_pad m) / 64) (sha256_pad m)) sha256_H0 eq_refl) as Hl.
  revert Hl. generalize (fold_left compress (blocks (length (sha256_pad m) / 64) (sha256_pad m)) sha256_H0).
  intros st Hl. do 8 (destruct st as [|? st]; [done|]). destruct st; [|done].
  cbn [map concat]. by rewrite !length_app, !be_encode_length.
Qed.

Lemma hmac_sha256_length key msg : length (hmac_sha256 key msg) = 32%nat.
Proof. apply sha256_length. Qed.

Lemma sha256_wf m : wf_bytes (sha256 m).
Proof.
  unfold sha256. cbv zeta. induction (fold_left _ _ _) as [|x xs IH]; cbn [map concat]; [constructor|].
  apply wf_bytes_app. auto with ltp.
Qed.

(** FIPS 180-4 and RFC 4231 test vectors. *)
Example sha256_abc : hex (sha256 (lit "abc")) =
  lit "ba7816bf8f01cfea414140de5dae2223b00361a396177a9cb410ff61f20015ad".
Proof. by vm_compute. Qed.
Example sha256_empty : hex (sha256 []) =
  lit "e3b0c44298fc1c149afbf4c8996fb92427ae41e4649b934ca495991b7852b855".
Proof. by vm_compute. Qed.
Example hmac_jefe : hex (hmac_sha256 (lit "Jefe") (lit "what do ya want for nothing?")) =
  lit "5bdcc146bf60754e6a042426089575c75a003f089d2739839dec58b964ec3843".
Proof. by vm_compute. Qed.
