(* ===== verification/Hashing.v ===== *)
(** The dual-lane hashing of src/src/ltp/dual_lane/: hash functions, security
    profiles, the canonical (settlement) lane and the internal lane; and the
    interface [CanonicalHash] the other components are proved against. *)

From S2P Require Import Prelude Sha3.

(** ** hashing.py: [HashFunction] *)
Inductive HashFunction : Type :=
| SHA3_256 | BLAKE3_256 | BLAKE2B_256 | SHA_384 | SHA_512.

#[export] Instance HashFunction_eq_dec : EqDecision HashFunction.
Proof. solve_decision. Defined.

(** The underlying digests: [hashlib]'s and, when installed, the third-party
    [blake3]. *)
Record hash_library : Type := {
  lib_sha3_256 : bytes -> bytes;
  lib_blake2b : bytes -> bytes;
  lib_sha384 : bytes -> bytes;
  lib_sha512 : bytes -> bytes;
  lib_blake3 : option (bytes -> bytes)
}.

(** Documented output sizes of the digests. *)
Definition digest_bytes_of (algo : HashFunction) : nat :=
  match algo with SHA_384 => 48 | SHA_512 => 64 | _ => 32 end.

Record hash_library_ok (lib : hash_library) : Prop := {
  ok_sha3_256 x : length (lib_sha3_256 lib x) = 32%nat /\ wf_bytes (lib_sha3_256 lib x);
  ok_blake2b x : length (lib_blake2b lib x) = 32%nat /\ wf_bytes (lib_blake2b lib x);
  ok_sha384 x : length (lib_sha384 lib x) = 48%nat /\ wf_bytes (lib_sha384 lib x);
  ok_sha512 x : length (lib_sha512 lib x) = 64%nat /\ wf_bytes (lib_sha512 lib x);
  ok_blake3 f x : lib_blake3 lib = Some f -> length (f x) = 32%nat /\ wf_bytes (f x)
}.

(** [_hash_digest]: the digest with the algorithm's prefix, or raw. *)
Definition hash_digest (lib : hash_library) (data : bytes) (algo : HashFunction) (raw : bool) : bytes :=
  let '(prefix, digest_bytes) :=
    match algo with
    | SHA3_256 => (lit "sha3-256", lib_sha3_256 lib data)
    | BLAKE3_256 =>
        match lib_blake3 lib with
        | Some blake3 => (lit "blake3", blake3 data)
        | None => (lit "sha3-256", lib_sha3_256 lib data)
        end
    | BLAKE2B_256 => (lit "blake2b", lib_blake2b lib data)
    | SHA_384 => (lit "sha384", lib_sha384 lib data)
    | SHA_512 => (lit "sha512", lib_sha512 lib data)
    end in
  if raw then digest_bytes else prefix ++ lit ":" ++ hex digest_bytes.

(** ** profiles.py: [SecurityProfile] *)
Record SecurityProfile : Type := {
  level : Z;
  canonical_hash_fn : HashFunction;
  internal_hash_fn : HashFunction;
  kem_ek_size : Z; kem_dk_size : Z; kem_ct_size : Z; kem_ss_size : Z;
  dsa_vk_size : Z; dsa_sk_size : Z; dsa_sig_size : Z
}.

Definition mk_profile (level : Z) (canonical internal : option HashFunction) : result SecurityProfile :=
  if negb ((level =? 3) || (level =? 5)) then Err (ValueError "Security level must be 3 or 5")
  else
    let ch := default SHA3_256 canonical in
    let ih := default BLAKE3_256 internal in
    Ok (if level =? 3
        then {| level := level; canonical_hash_fn := ch; internal_hash_fn := ih;
                kem_ek_size := 1184; kem_dk_size := 2400; kem_ct_size := 1088; kem_ss_size := 32;
                dsa_vk_size := 1952; dsa_sk_size := 4032; dsa_sig_size := 3309 |}
        else {| level := level; canonical_hash_fn := ch; internal_hash_fn := ih;
                kem_ek_size := 1568; kem_dk_size := 3168; kem_ct_size := 1568; kem_ss_size := 32;
                dsa_vk_size := 2592; dsa_sk_size := 4896; dsa_sig_size := 4627 |}).

Definition level3 : result SecurityProfile := mk_profile 3 None None.
Definition level5 : result SecurityProfile := mk_profile 5 (Some SHA_384) None.
Definition cnsa2 : result SecurityProfile := mk_profile 5 (Some SHA_384) (Some SHA_384).
Definition defi : result SecurityProfile := mk_profile 3 (Some SHA3_256) (Some BLAKE3_256).
Definition cefi : result SecurityProfile := mk_profile 3 (Some SHA3_256) (Some SHA3_256).

(** ** lanes.py: algorithms approved for the canonical lane *)
Definition COMPLIANCE_APPROVED (algo : HashFunction) : bool :=
  match algo with SHA3_256 | SHA_384 | SHA_512 => true | BLAKE3_256 | BLAKE2B_256 => false end.

(** The hooks patched in by primitives.py: the active profile and the
    optional crypto provider (its FIPS flag and its two hash methods). *)
Record crypto_provider : Type := {
  is_fips_mode : bool;
  provider_hash : bytes -> pystr;
  provider_hash_bytes : bytes -> bytes
}.
Record hash_env : Type := {
  env_lib : hash_library;
  env_profile : SecurityProfile;
  env_provider : option crypto_provider
}.

Definition fips_provider (env : hash_env) : option crypto_provider :=
  match env_provider env with
  | Some p => if is_fips_mode p then Some p else None
  | None => None
  end.

Definition canonical_hash (env : hash_env) (data : bytes) : result pystr :=
  match fips_provider env with
  | Some p => Ok (provider_hash p data)
  | None =>
      let algo := canonical_hash_fn (env_profile env) in
      if COMPLIANCE_APPROVED algo then Ok (hash_digest (env_lib env) data algo false)
      else Err (ValueError "Canonical lane requires FIPS-approved hash")
  end.

Definition canonical_hash_bytes (env : hash_env) (data : bytes) : result bytes :=
  match fips_provider env with
  | Some p => Ok (provider_hash_bytes p data)
  | None =>
      let algo := canonical_hash_fn (env_profile env) in
      if COMPLIANCE_APPROVED algo then Ok (hash_digest (env_lib env) data algo true)
      else Err (ValueError "Canonical lane requires FIPS-approved hash")
  end.

Definition spec_hash_bytes (lib : hash_library) (data : bytes) : bytes := lib_sha3_256 lib data.
Definition spec_hash_hex (lib : hash_library) (data : bytes) : pystr := hex (lib_sha3_256 lib data).

Definition internal_hash (env : hash_env) (data : bytes) : pystr :=
  hash_digest (env_lib env) data (internal_hash_fn (env_profile env)) false.
Definition internal_hash_bytes (env : hash_env) (data : bytes) : bytes :=
  hash_digest (env_lib env) data (internal_hash_fn (env_profile env)) true.

(** ** The interface the protocol components rely on *)
Class CanonicalHash : Type := {
  chash : bytes -> bytes;                  (* canonical_hash_bytes *)
  chash_prefix : pystr;
  digest_size : nat;
  chash_length : forall x, length (chash x) = digest_size;
  chash_wf : forall x, wf_bytes (chash x)
}.

(** [canonical_hash]: the prefixed, hex-encoded digest. *)
Definition chash_str `{CanonicalHash} (data : bytes) : pystr :=
  chash_prefix ++ lit ":" ++ hex (chash data).

(** Collision-freedom on the strings a computation hashes. *)
Definition collision_free `{CanonicalHash} (inputs : list bytes) : Prop :=
  forall x y, x ∈ inputs -> y ∈ inputs -> chash x = chash y -> x = y.

Lemma chash_str_inj `{CanonicalHash} x y : chash_str x = chash_str y -> chash x = chash y.
Proof.
  unfold chash_str. intros E%app_inv_head. simpl in E. injection E as E.
  apply hex_inj in E; auto using chash_wf.
Qed.

(** A check of collision-freedom that hashes each input once. *)
Definition no_collision `{CanonicalHash} (inputs : list bytes) : bool :=
  let hs := map (fun x => (x, chash x)) inputs in
  forallb (fun p => forallb (fun q => bool_decide (p.2 = q.2 -> p.1 = q.1)) hs) hs.

Lemma no_collision_spec `{CanonicalHash} inputs : no_collision inputs = true -> collision_free inputs.
Proof.
  unfold no_collision. rewrite forallb_forall. intros Hall x y Hx Hy.
  specialize (Hall (x, chash x)). rewrite forallb_forall in Hall.
  assert (forall z, z ∈ inputs -> In (z, chash z) (map (fun x => (x, chash x)) inputs)) as Hin.
  { intros z Hz. apply in_map_iff. exists z. split; [done|]. by apply list_elem_of_In. }
  specialize (Hall (Hin x Hx) (y, chash y) (Hin y Hy)). by apply bool_decide_eq_true in Hall.
Qed.

Lemma collision_free_app `{CanonicalHash} a b : collision_free (a ++ b) -> collision_free a /\ collision_free b.
Proof. intros Hc. split; intros x y Hx Hy; apply Hc; apply elem_of_app; auto. Qed.

Lemma collision_free_sub `{CanonicalHash} a b :
  (forall x, x ∈ a -> x ∈ b) -> collision_free b -> collision_free a.
Proof. intros Hs Hc x y Hx Hy. apply Hc; auto. Qed.

(** ** The canonical lane implements the interface *)
Definition canonical_prefix (algo : HashFunction) : pystr :=
  match algo with
  | SHA3_256 => lit "sha3-256" | SHA_384 => lit "sha384" | SHA_512 => lit "sha512"
  | BLAKE2B_256 => lit "blake2b" | BLAKE3_256 => lit "blake3"
  end.

Lemma hash_digest_raw_ok lib algo x : hash_library_ok lib ->
  length (hash_digest lib x algo true) = digest_bytes_of algo /\ wf_bytes (hash_digest lib x algo true).
Proof.
  intros [H3 H2 H384 H512 Hb]. unfold hash_digest. destruct algo; [apply H3| |apply H2|apply H384|apply H512].
  destruct (lib_blake3 lib) as [f|] eqn:E; [by apply (Hb f)|apply H3].
Qed.

Definition canonical_lane (lib : hash_library) (Hl : hash_library_ok lib) (algo : HashFunction) :
  CanonicalHash := {|
  chash := fun x => hash_digest lib x algo true;
  chash_prefix := canonical_prefix algo;
  digest_size := digest_bytes_of algo;
  chash_length := fun x => proj1 (hash_digest_raw_ok lib algo x Hl);
  chash_wf := fun x => proj2 (hash_digest_raw_ok lib algo x Hl)
|}.

(** The canonical lane is pinned to approved algorithms.  Outside FIPS
    mode, hashing succeeds exactly when the active profile's canonical
    function is approved, whatever the compliance flags; it then agrees with
    the interface [CanonicalHash] used by the rest of the system, the string
    form being the prefixed hexadecimal form of the raw digest. *)
Theorem canonical_lane_refines env (Hl : hash_library_ok (env_lib env)) d :
  fips_provider env = None ->
  let algo := canonical_hash_fn (env_profile env) in
  if COMPLIANCE_APPROVED algo
  then canonical_hash_bytes env d = Ok (chash (CanonicalHash := canonical_lane (env_lib env) Hl algo) d) /\
       canonical_hash env d = Ok (chash_str (H := canonical_lane (env_lib env) Hl algo) d)
  else (exists m, canonical_hash_bytes env d = Err (ValueError m)) /\
       (exists m, canonical_hash env d = Err (ValueError m)).
Proof.
  intros Hp. unfold canonical_hash_bytes, canonical_hash, chash_str. rewrite Hp.
  destruct (canonical_hash_fn (env_profile env)); simpl; eauto.
Qed.

(** ** Concrete instances *)
Definition sha3_canonical : CanonicalHash := {|
  chash := sha3_256;
  chash_prefix := lit "sha3-256";
  digest_size := 32;
  chash_length := sha3_256_length;
  chash_wf := sha3_256_wf
|}.

(** The examples that run whole protocols use a checksum in place of the
    digest, which the kernel evaluates quickly; the theorems hold for every
    instance of the interface. *)
Definition quick_digest (m : bytes) : bytes :=
  be_encode 32 (fold_left (fun a b => Z.land (a * 257 + b + 1) 0xFFFFFFFFFFFFFFFF) m 0).

Lemma quick_digest_length m : length (quick_digest m) = 32%nat.
Proof. apply be_encode_length. Qed.
Lemma quick_digest_wf m : wf_bytes (quick_digest m).
Proof. apply be_encode_wf. Qed.

#[export] Instance demo_canonical : CanonicalHash := {|
  chash := quick_digest;
  chash_prefix := lit "sha3-256";
  digest_size := 32;
  chash_length := quick_digest_length;
  chash_wf := quick_digest_wf
|}.

(** A library with the real SHA3-256 and length-correct stand-ins for the
    digests the examples do not use. *)
Definition demo_lib : hash_library := {|
  lib_sha3_256 := sha3_256;
  lib_blake2b := fun x => sha3_256 (2 :: x);
  lib_sha384 := fun x => sha3_256 x ++ take 16 (sha3_256 (3 :: x));
  lib_sha512 := fun x => sha3_256 x ++ sha3_256 (5 :: x);
  lib_blake3 := None
|}.

Lemma demo_lib_ok : hash_library_ok demo_lib.
Proof.
  split; cbn [demo_lib lib_sha3_256 lib_blake2b lib_sha384 lib_sha512 lib_blake3]; intros; try done;
    rewrite ?length_app, ?length_take, ?sha3_256_length, ?wf_bytes_app;
    repeat split; auto using sha3_256_wf, wf_bytes_take.
Qed.

Definition demo_profile : SecurityProfile :=
  Eval vm_compute in match level3 with Ok p => p | Err _ => 
    {| level := 0; canonical_hash_fn := SHA3_256; internal_hash_fn := SHA3_256;
       kem_ek_size := 0; kem_dk_size := 0; kem_ct_size := 0; kem_ss_size := 0;
       dsa_vk_size := 0; dsa_sk_size := 0; dsa_sig_size := 0 |} end.

Definition demo_env : hash_env :=
  {| env_lib := demo_lib; env_profile := demo_profile; env_provider := None |}.

Lemma canonical_lane_refines_witness :
  canonical_hash_bytes demo_env (lit "abc") = Ok (sha3_256 (lit "abc")).
Proof. apply (canonical_lane_refines demo_env demo_lib_ok (lit "abc")). reflexivity. Defined.
