(* ===== verification/Primitives.v ===== *)
(** The cryptographic wrappers of src/src/ltp/primitives.py (AEAD, ML-KEM,
    ML-DSA with their size checks) and, from src/src/ltp/keypair.py, the
    keypair, its routing to an HSM and [SealedBox].  The lattice and AEAD
    algorithms themselves are third-party code ([pqcrypto], [pynacl]): a
    record of functions with their documented laws. *)

From S2P Require Import Prelude Sha3 Hashing.

(** [pqcrypto] and [pynacl].  The boolean selects the level 5 parameter set.
    Randomness drawn inside a call is an explicit argument. *)
Record pq_backend : Type := {
  pq_dsa_sign : bool -> bytes -> bytes -> bytes;
  pq_dsa_verify : bool -> bytes -> bytes -> bytes -> bool;
  pq_kem_encrypt : bool -> bytes -> bytes -> bytes * bytes;
  pq_kem_decrypt : bool -> bytes -> bytes -> bytes;
  nacl_encrypt : bytes -> option bytes -> bytes -> bytes -> bytes;
  nacl_decrypt : bytes -> option bytes -> bytes -> bytes -> option bytes
}.

(** A [KeyPair]'s private operations inside an HSM. *)
Record hsm_handle : Type := {
  hsm_sign : bytes -> result bytes;
  hsm_kem_decaps : bytes -> result bytes
}.

Inductive KeyState : Type := PENDING | ACTIVE | RETIRING | RETIRED.
#[export] Instance KeyState_eq_dec : EqDecision KeyState.
Proof. solve_decision. Defined.

Record KeyPair : Type := {
  kp_ek : bytes;
  kp_dk : bytes;
  kp_vk : bytes;
  kp_sk : bytes;
  kp_label : pystr;
  kp_version : Z;
  kp_predecessor_vk_hash : pystr;
  kp_state : KeyState;
  kp_hsm : option hsm_handle
}.

(** Signing arguments are raw key bytes or a [KeyPair]. *)
Inductive signer : Type :=
| RawKey (sk : bytes)
| FromKeyPair (kp : KeyPair).

Definition len (bs : bytes) : Z := Z.of_nat (length bs).

Definition NONCE_SIZE : Z := 24.
Definition TAG_SIZE : Z := 16.
Definition REAL_DSA5_VK : Z := 2592.
Definition REAL_KEM5_EK : Z := 1568.

Section Wrappers.
Context (pq : pq_backend) (profile : SecurityProfile).

(** ** AEAD *)
(** [aad or None] *)
Definition aad_arg (aad : bytes) : option bytes := match aad with [] => None | _ => Some aad end.

Definition AEAD_encrypt (key plaintext nonce aad : bytes) : result bytes :=
  if negb (len nonce =? NONCE_SIZE) then Err (ValueError "Nonce must be 24B")
  else
    let ct := nacl_encrypt pq plaintext (aad_arg aad) nonce key in
    if negb (len ct =? len plaintext + TAG_SIZE) then Err RuntimeError else Ok ct.

Definition AEAD_decrypt (key ciphertext_with_tag nonce aad : bytes) : result bytes :=
  if negb (len nonce =? NONCE_SIZE) then Err (ValueError "Nonce must be 24B")
  else
    match nacl_decrypt pq ciphertext_with_tag (aad_arg aad) nonce key with
    | Some pt => Ok pt
    | None => Err (ValueError "AEAD authentication FAILED")
    end.

(** ** ML-KEM *)
Definition kem_is_level5 : bool := kem_ek_size profile =? REAL_KEM5_EK.

Definition MLKEM_encaps (ek rnd : bytes) : result (bytes * bytes) :=
  if negb (len ek =? kem_ek_size profile) then Err (ValueError "Invalid ek size")
  else
    let '(ct, ss) := pq_kem_encrypt pq kem_is_level5 ek rnd in
    if negb (len ct =? kem_ct_size profile) then Err RuntimeError
    else if negb (len ss =? kem_ss_size profile) then Err RuntimeError
    else Ok (ss, ct).

Definition MLKEM_decaps (dk ciphertext : bytes) : result bytes :=
  if negb (len dk =? kem_dk_size profile) then Err (ValueError "Invalid dk size")
  else if negb (len ciphertext =? kem_ct_size profile) then Err (ValueError "Invalid ct size")
  else
    let ss := pq_kem_decrypt pq kem_is_level5 dk ciphertext in
    if negb (len ss =? kem_ss_size profile) then Err RuntimeError else Ok ss.

(** ** ML-DSA *)
Definition dsa_is_level5 : bool := dsa_vk_size profile =? REAL_DSA5_VK.

Definition MLDSA_sign (sk message : bytes) : result bytes :=
  if negb (len sk =? dsa_sk_size profile) then Err (ValueError "Invalid sk size")
  else
    let sig := pq_dsa_sign pq dsa_is_level5 sk message in
    if negb (len sig =? dsa_sig_size profile) then Err RuntimeError else Ok sig.

Definition MLDSA_verify (vk message signature : bytes) : result bool :=
  if negb (len vk =? dsa_vk_size profile) then Err (ValueError "Invalid vk size")
  else if negb (len signature =? dsa_sig_size profile) then Ok false
  else Ok (pq_dsa_verify pq dsa_is_level5 vk message signature).

(** ** [KeyPair.sign] and [KeyPair.decaps] *)
Definition KeyPair_sign (kp : KeyPair) (message : bytes) : result bytes :=
  match kp_hsm kp with
  | Some h => hsm_sign h message
  | None => MLDSA_sign (kp_sk kp) message
  end.

Definition KeyPair_decaps (kp : KeyPair) (kem_ciphertext : bytes) : result bytes :=
  match kp_hsm kp with
  | Some h => hsm_kem_decaps h kem_ciphertext
  | None => MLKEM_decaps (kp_dk kp) kem_ciphertext
  end.

(** The dispatch shared by [domain_sign] and [SignedTreeHead.sign]. *)
Definition sign_with (s : signer) (message : bytes) : result bytes :=
  match s with
  | RawKey sk => MLDSA_sign sk message
  | FromKeyPair kp => KeyPair_sign kp message
  end.

(** ** [SealedBox] *)
Definition SealedBox_seal (plaintext receiver_ek rnd nonce : bytes) : result bytes :=
  if negb (len receiver_ek =? kem_ek_size profile) then Err (ValueError "Invalid ek size")
  else
    '(shared_secret, kem_ct) ← MLKEM_encaps receiver_ek rnd;
    ciphertext ← AEAD_encrypt shared_secret plaintext nonce [];
    Ok (kem_ct ++ nonce ++ ciphertext).

Definition as_value_error {A} (msg : string) (r : result A) : result A :=
  match r with Err (ValueError _) => Err (ValueError msg) | _ => r end.

Definition SealedBox_unseal (sealed_data : bytes) (receiver_keypair : KeyPair) : result bytes :=
  let ct_size := Z.to_nat (kem_ct_size profile) in
  let nonce_size := Z.to_nat NONCE_SIZE in
  if len sealed_data <? kem_ct_size profile + NONCE_SIZE + TAG_SIZE
  then Err (ValueError "Sealed data too short")
  else
    let kem_ct := take ct_size sealed_data in
    let nonce := take nonce_size (drop ct_size sealed_data) in
    let aead_ct := drop (ct_size + nonce_size) sealed_data in
    shared_secret ← as_value_error "Cannot unseal" (KeyPair_decaps receiver_keypair kem_ct);
    as_value_error "Cannot unseal" (AEAD_decrypt shared_secret aead_ct nonce []).

(** ** The documented behaviour of the libraries, for one profile *)
(** A matching ML-DSA key pair: its signatures have the standard size and verify. *)
Definition dsa_pair (vk sk : bytes) : Prop :=
  len vk = dsa_vk_size profile /\ len sk = dsa_sk_size profile /\
  forall m, len (pq_dsa_sign pq dsa_is_level5 sk m) = dsa_sig_size profile /\
            pq_dsa_verify pq dsa_is_level5 vk m (pq_dsa_sign pq dsa_is_level5 sk m) = true.

(** A matching ML-KEM key pair: decapsulation recovers the encapsulated secret. *)
Definition kem_pair (ek dk : bytes) : Prop :=
  len ek = kem_ek_size profile /\ len dk = kem_dk_size profile /\
  forall rnd, let '(ct, ss) := pq_kem_encrypt pq kem_is_level5 ek rnd in
    len ct = kem_ct_size profile /\ len ss = kem_ss_size profile /\
    pq_kem_decrypt pq kem_is_level5 dk ct = ss.

Definition aead_ok : Prop := forall key pt aad nonce,
  len (nacl_encrypt pq pt aad nonce key) = len pt + TAG_SIZE /\
  nacl_decrypt pq (nacl_encrypt pq pt aad nonce key) aad nonce key = Some pt.

(** A signer that signs for [vk]: raw key, software or HSM-backed pair. *)
Definition signs_for (s : signer) (vk : bytes) : Prop := forall m, exists sig,
  sign_with s m = Ok sig /\ MLDSA_verify vk m sig = Ok true.

Lemma MLDSA_sign_verify vk sk m : dsa_pair vk sk -> exists sig,
  MLDSA_sign sk m = Ok sig /\ MLDSA_verify vk m sig = Ok true.
Proof.
  intros (Hv & Hs & Hp). destruct (Hp m) as [Hl Hok]. eexists.
  unfold MLDSA_sign, MLDSA_verify. rewrite Hs, Hv, !Z.eqb_refl. simpl.
  rewrite Hl, Z.eqb_refl. split; [done|]. by rewrite Hl, Z.eqb_refl, Hok.
Qed.

Lemma dsa_pair_signs_raw vk sk : dsa_pair vk sk -> signs_for (RawKey sk) vk.
Proof. intros H m. by apply MLDSA_sign_verify. Qed.

Lemma dsa_pair_signs_keypair kp : kp_hsm kp = None -> dsa_pair (kp_vk kp) (kp_sk kp) ->
  signs_for (FromKeyPair kp) (kp_vk kp).
Proof. intros Hh H m. simpl. unfold KeyPair_sign. rewrite Hh. by apply MLDSA_sign_verify. Qed.

Lemma AEAD_roundtrip key pt nonce aad : aead_ok -> len nonce = NONCE_SIZE -> exists ct,
  AEAD_encrypt key pt nonce aad = Ok ct /\ len ct = len pt + TAG_SIZE /\
  AEAD_decrypt key ct nonce aad = Ok pt.
Proof.
  intros Ha Hn. destruct (Ha key pt (aad_arg aad) nonce) as [Hl Hd]. eexists.
  unfold AEAD_encrypt, AEAD_decrypt. rewrite Hn, !Z.eqb_refl. simpl. rewrite Hl, Z.eqb_refl.
  split; [done|]. split; [done|]. by rewrite Hd.
Qed.

Lemma MLKEM_roundtrip ek dk rnd : kem_pair ek dk -> exists ss ct,
  MLKEM_encaps ek rnd = Ok (ss, ct) /\ len ct = kem_ct_size profile /\ MLKEM_decaps dk ct = Ok ss.
Proof.
  intros (He & Hd & Hp). specialize (Hp rnd). unfold MLKEM_encaps, MLKEM_decaps.
  destruct (pq_kem_encrypt pq kem_is_level5 ek rnd) as [ct ss]. destruct Hp as (Hc & Hs & Hr).
  exists ss, ct. rewrite He, Hd, Hc, Hs, Hr, !Z.eqb_refl. simpl. by rewrite Hs, Z.eqb_refl.
Qed.

End Wrappers.

Lemma unseal_seal_ok pq profile kp pt rnd nonce :
  aead_ok pq -> kem_pair pq profile (kp_ek kp) (kp_dk kp) -> kp_hsm kp = None -> len nonce = NONCE_SIZE ->
  exists sealed, SealedBox_seal pq profile pt (kp_ek kp) rnd nonce = Ok sealed /\
    len sealed = kem_ct_size profile + NONCE_SIZE + TAG_SIZE + len pt /\
    SealedBox_unseal pq profile sealed kp = Ok pt.
Proof.
  intros Ha Hk Hh Hn. destruct (MLKEM_roundtrip pq profile _ _ rnd Hk) as (ss & kct & E1 & Hc & E2).
  destruct (AEAD_roundtrip pq ss pt nonce [] Ha Hn) as (ct & E3 & Hl & E4).
  exists (kct ++ nonce ++ ct). unfold SealedBox_seal. destruct Hk as (He & _ & _).
  rewrite He, Z.eqb_refl, E1. unfold mbind, result_bind. simpl. rewrite E3.
  assert (len (kct ++ nonce ++ ct) = kem_ct_size profile + NONCE_SIZE + TAG_SIZE + len pt) as Hlen.
  { unfold len in *. rewrite !length_app. lia. }
  split; [done|]. split; [done|]. unfold SealedBox_unseal. rewrite Hlen.
  unfold len in *. destruct (Z.ltb_spec (kem_ct_size profile + NONCE_SIZE + TAG_SIZE + Z.of_nat (length pt))
    (kem_ct_size profile + NONCE_SIZE + TAG_SIZE)); [lia|].
  replace (Z.to_nat (kem_ct_size profile)) with (length kct) by lia.
  replace (Z.to_nat NONCE_SIZE) with (length nonce) by lia.
  rewrite <- drop_drop, take_app_length, drop_app_length, take_app_length, drop_app_length.
  unfold KeyPair_decaps. rewrite Hh, E2. unfold mbind, result_bind. simpl. by rewrite E4.
Qed.

(** Sealing to a receiver's encapsulation key and unsealing with the
    matching software key pair gives back the plaintext, for any plaintext,
    randomness and nonce of the nonce size: the three fields of the sealed
    format are cut where [seal] put them. *)
Theorem unseal_seal pq profile kp pt rnd nonce :
  aead_ok pq -> kem_pair pq profile (kp_ek kp) (kp_dk kp) -> kp_hsm kp = None -> len nonce = NONCE_SIZE ->
  exists sealed, SealedBox_seal pq profile pt (kp_ek kp) rnd nonce = Ok sealed /\
    len sealed = kem_ct_size profile + NONCE_SIZE + TAG_SIZE + len pt /\
    SealedBox_unseal pq profile sealed kp = Ok pt.
Proof. apply unseal_seal_ok. Qed.

(** ** A concrete backend, to run the model: keyed SHA3 tags padded to the
    standard sizes, with matching keys sharing their first 32 bytes. *)
Definition pad_to (n : Z) (bs : bytes) : bytes := bs ++ repeat 0 (Z.to_nat n - length bs)%nat.
Definition toy_sig (l5 : bool) (key m : bytes) : bytes :=
  pad_to (if l5 then 4627 else 3309) (quick_digest (take 32 key ++ m)).
Definition toy_pq : pq_backend := {|
  pq_dsa_sign := toy_sig;
  pq_dsa_verify := fun l5 vk m s => bool_decide (s = toy_sig l5 vk m);
  pq_kem_encrypt := fun l5 ek rnd =>
    let ct := pad_to (if l5 then 1568 else 1088) (quick_digest rnd) in (ct, quick_digest (take 32 ek ++ ct));
  pq_kem_decrypt := fun l5 dk ct => quick_digest (take 32 dk ++ ct);
  nacl_encrypt := fun pt aad nonce key => pt ++ take 16 (quick_digest (key ++ nonce ++ default [] aad ++ pt));
  nacl_decrypt := fun ct aad nonce key =>
    let pt := take (length ct - 16) ct in
    if bool_decide (ct = pt ++ take 16 (quick_digest (key ++ nonce ++ default [] aad ++ pt)))
    then Some pt else None
|}.

Definition demo_vk (n : Z) : bytes := pad_to 1952 (be_encode 32 n).
Definition demo_sk (n : Z) : bytes := pad_to 4032 (be_encode 32 n).
Definition demo_ek (n : Z) : bytes := pad_to 1184 (be_encode 32 n).
Definition demo_dk (n : Z) : bytes := pad_to 2400 (be_encode 32 n).
Definition demo_keypair (label : pystr) (n : Z) : KeyPair := {|
  kp_ek := demo_ek n; kp_dk := demo_dk n; kp_vk := demo_vk n; kp_sk := demo_sk n;
  kp_label := label; kp_version := 1; kp_predecessor_vk_hash := []; kp_state := ACTIVE; kp_hsm := None |}.

Lemma len_pad_to n bs : Z.of_nat (length bs) <= n -> len (pad_to n bs) = n.
Proof. intros. unfold len, pad_to. rewrite length_app, repeat_length. lia. Qed.

Lemma take_pad_to n m : take 32 (pad_to n (be_encode 32 m)) = be_encode 32 m.
Proof. unfold pad_to. apply take_app_length'. by rewrite be_encode_length. Qed.

Lemma toy_sig_key l5 a b m k : toy_sig l5 (pad_to a (be_encode 32 k)) m = toy_sig l5 (pad_to b (be_encode 32 k)) m.
Proof. unfold toy_sig. by rewrite !take_pad_to. Qed.

Lemma demo_dsa_pair n : dsa_pair toy_pq demo_profile (demo_vk n) (demo_sk n).
Proof.
  split; [apply len_pad_to; rewrite be_encode_length; simpl; lia|].
  split; [apply len_pad_to; rewrite be_encode_length; simpl; lia|].
  intros m. split.
  - unfold toy_pq, toy_sig, pq_dsa_sign. apply len_pad_to. rewrite quick_digest_length. simpl. lia.
  - cbn [toy_pq pq_dsa_sign pq_dsa_verify]. apply bool_decide_eq_true. apply toy_sig_key.
Qed.

Lemma demo_kem_pair n : kem_pair toy_pq demo_profile (demo_ek n) (demo_dk n).
Proof.
  split; [apply len_pad_to; rewrite be_encode_length; simpl; lia|].
  split; [apply len_pad_to; rewrite be_encode_length; simpl; lia|].
  intros rnd. unfold toy_pq, pq_kem_encrypt, pq_kem_decrypt, demo_ek, demo_dk. rewrite !take_pad_to.
  split; [apply len_pad_to; rewrite quick_digest_length; simpl; lia|].
  split; [unfold len; by rewrite quick_digest_length|done].
Qed.

Lemma toy_aead_ok : aead_ok toy_pq.
Proof.
  intros key pt aad nonce. unfold toy_pq, nacl_encrypt, nacl_decrypt.
  set (tag := take 16 _).
  assert (length tag = 16%nat) as Ht by (unfold tag; rewrite length_take, quick_digest_length; done).
  split; [unfold len; rewrite length_app, Ht; unfold TAG_SIZE; lia|].
  rewrite take_app_length' by (rewrite length_app; lia).
  fold tag. by rewrite bool_decide_eq_true_2.
Qed.

Lemma unseal_seal_witness : exists sealed,
  SealedBox_seal toy_pq demo_profile (lit "lattice key") (demo_ek 7) [1; 2; 3] (repeat 9 24) = Ok sealed /\
  len sealed = 1139 /\
  SealedBox_unseal toy_pq demo_profile sealed (demo_keypair (lit "bob") 7) = Ok (lit "lattice key").
Proof.
  apply (unseal_seal toy_pq demo_profile (demo_keypair (lit "bob") 7));
    [exact toy_aead_ok|exact (demo_kem_pair 7)|reflexivity|reflexivity].
Defined.
