(* ===== verification/Bls.v ===== *)
(** The BLS front end: src/src/ltp/bls.py and the BLS helpers of domain.py.

    The pairing library behind bls.py is an argument: [None] when neither of
    the two back ends is installed.  Its verification functions are wrapped
    in [except Exception: return False], so they are boolean. *)

From S2P Require Import Prelude Primitives.

(** * bls.py *)
Record bls_library : Type := {
  lib_sign : bytes -> bytes -> result bytes;
  lib_verify : bytes -> bytes -> bytes -> bool;
  lib_aggregate : list bytes -> result bytes;
  lib_aggregate_verify : list bytes -> list bytes -> bytes -> bool;
  lib_fast_aggregate_verify : list bytes -> bytes -> bytes -> bool
}.

Definition PK_SIZE : Z := 48.
Definition SK_SIZE : Z := 32.
Definition SIG_SIZE : Z := 96.

Section BLS.
Context (bls : option bls_library).

(** [raise RuntimeError("No BLS backend available")] *)
Definition backend : result bls_library := or_raise RuntimeError bls.

Definition BLS_sign (sk message : bytes) : result bytes :=
  if negb (len sk =? SK_SIZE) then Err (ValueError "Invalid sk size")
  else lib ← backend; lib_sign lib sk message.

Definition BLS_verify (pk message sig : bytes) : result bool :=
  if negb (len pk =? PK_SIZE) then Ok false
  else if negb (len sig =? SIG_SIZE) then Ok false
  else lib ← backend; Ok (lib_verify lib pk message sig).

Definition aggregate_signatures (sigs : list bytes) : result bytes :=
  match sigs with
  | [] => Err (ValueError "Cannot aggregate empty signature list")
  | _ =>
      if forallb (fun s => len s =? SIG_SIZE) sigs then lib ← backend; lib_aggregate lib sigs
      else Err (ValueError "Signature has invalid size")
  end.

Definition aggregate_verify (pks messages : list bytes) (agg_sig : bytes) : result bool :=
  if negb (length pks =? length messages)%nat then Ok false
  else if negb (len agg_sig =? SIG_SIZE) then Ok false
  else lib ← backend; Ok (lib_aggregate_verify lib pks messages agg_sig).

Definition aggregate_verify_same_message (pks : list bytes) (message agg_sig : bytes) : result bool :=
  if negb (len agg_sig =? SIG_SIZE) then Ok false
  else lib ← backend; Ok (lib_fast_aggregate_verify lib pks message agg_sig).

(** * domain.py: the BLS helpers *)
Definition bls_domain_sign (domain sk data : bytes) : result bytes := BLS_sign sk (domain ++ data).
Definition bls_domain_verify (domain pk data sig : bytes) : result bool := BLS_verify pk (domain ++ data) sig.
Definition bls_aggregate_sigs (sigs : list bytes) : result bytes := aggregate_signatures sigs.
Definition bls_aggregate_verify (domain : bytes) (pks : list bytes) (data agg_sig : bytes) : result bool :=
  aggregate_verify_same_message pks (domain ++ data) agg_sig.
End BLS.
