(* ===== verification/Encoding.v ===== *)
(** The canonical encoding of src/src/ltp/encoding.py, the domain tags of
    src/src/ltp/domain.py and the signed envelopes of src/src/ltp/envelope.py.

    [CanonicalEncoder] is a builder: its state is the list of parts, and each
    method appends to it or raises.  A chain of calls
    [CanonicalEncoder(tag).uint8(a).string(b)...finalize()] is
    [encode tag [U8 a; Str b; ...]], where each [fval] names the method. *)

From S2P Require Import Prelude Float64 Sha3 Hashing Primitives.

(** * encoding.py *)
Module CanonicalEncoder.

(** Order of [sorted] on strings: code points, which UTF-8 preserves. *)
Fixpoint str_leb (a b : pystr) : bool :=
  match a, b with
  | [], _ => true
  | _ :: _, [] => false
  | x :: a, y :: b => if x <? y then true else if y <? x then false else str_leb a b
  end.
Definition str_le (a b : pystr) : Prop := str_leb a b = true.
#[export] Instance str_le_dec a b : Decision (str_le a b).
Proof. unfold str_le. apply _. Defined.

Definition key_le (p q : pystr * pystr) : Prop := str_le p.1 q.1.
#[export] Instance key_le_dec p q : Decision (key_le p q).
Proof. unfold key_le. apply _. Defined.

(** [sorted(d.keys())], with the values. *)
Definition sorted_items (d : list (pystr * pystr)) : list (pystr * pystr) := merge_sort key_le d.

(** ** The builder *)
Definition encoder : Type := list bytes.

Definition new (object_tag : bytes) : result encoder :=
  match object_tag with
  | [] => Err (ValueError "object_tag must not be empty")
  | _ => Ok [object_tag]
  end.

Definition append (e : encoder) (part : bytes) : encoder := e ++ [part].

Definition uint8 (e : encoder) (value : Z) : result encoder :=
  if negb ((0 <=? value) && (value <=? 0xFF)) then Err (ValueError "uint8 out of range")
  else bs ← struct_pack 1 value; Ok (append e bs).

Definition uint32 (e : encoder) (value : Z) : result encoder :=
  if negb ((0 <=? value) && (value <=? 0xFFFFFFFF)) then Err (ValueError "uint32 out of range")
  else bs ← struct_pack 4 value; Ok (append e bs).

Definition uint64 (e : encoder) (value : Z) : result encoder :=
  if negb ((0 <=? value) && (value <=? 0xFFFFFFFFFFFFFFFF)) then Err (ValueError "uint64 out of range")
  else bs ← struct_pack 8 value; Ok (append e bs).

Definition float64 (e : encoder) (value : Z) : result encoder :=
  if f64_not_finite value then Err (ValueError "float64 rejects NaN/Inf")
  else bs ← struct_pack 8 value; Ok (append e bs).

Definition raw_bytes (e : encoder) (value : bytes) : result encoder := Ok (append e value).

Definition length_prefixed_bytes (e : encoder) (value : bytes) : result encoder :=
  n ← struct_pack 4 (Z.of_nat (length value)); Ok (append e (n ++ value)).

Definition string (e : encoder) (value : pystr) : result encoder :=
  n ← struct_pack 4 (Z.of_nat (length value)); Ok (append e (n ++ value)).

Definition optional_bytes (e : encoder) (value : option bytes) : result encoder :=
  match value with
  | None => Ok (append e [0])
  | Some v => length_prefixed_bytes (append e [1]) v
  end.

Definition optional_string (e : encoder) (value : option pystr) : result encoder :=
  match value with
  | None => Ok (append e [0])
  | Some v => string (append e [1]) v
  end.

Definition optional_uint64 (e : encoder) (value : option Z) : result encoder :=
  match value with
  | None => Ok (append e [0])
  | Some v => uint64 (append e [1]) v
  end.

Definition sorted_map (e : encoder) (d : list (pystr * pystr)) : result encoder :=
  n ← struct_pack 4 (Z.of_nat (length d));
  foldM (fun e kv => e ← string e kv.1; string e kv.2) (append e n) (sorted_items d).

Definition finalize (e : encoder) : bytes := concat e.

(** ** Chains of calls *)
Inductive fval : Type :=
| U8 (v : Z) | U32 (v : Z) | U64 (v : Z) | F64 (v : Z)
| Raw (v : bytes) | LP (v : bytes) | Str (v : pystr)
| OptB (v : option bytes) | OptS (v : option pystr) | OptU64 (v : option Z)
| SMap (d : list (pystr * pystr)).

Definition put (e : encoder) (f : fval) : result encoder :=
  match f with
  | U8 v => uint8 e v | U32 v => uint32 e v | U64 v => uint64 e v | F64 v => float64 e v
  | Raw v => raw_bytes e v | LP v => length_prefixed_bytes e v | Str v => string e v
  | OptB v => optional_bytes e v | OptS v => optional_string e v | OptU64 v => optional_uint64 e v
  | SMap d => sorted_map e d
  end.

Definition encode (tag : bytes) (fs : list fval) : result bytes :=
  e ← new tag; e ← foldM put e fs; Ok (finalize e).

(** Two chains of the same code: same methods, raw fields of the same size. *)
Definition same_shape (f g : fval) : Prop :=
  match f, g with
  | U8 _, U8 _ | U32 _, U32 _ | U64 _, U64 _ | F64 _, F64 _ | LP _, LP _ | Str _, Str _
  | OptB _, OptB _ | OptS _, OptS _ | OptU64 _, OptU64 _ | SMap _, SMap _ => True
  | Raw a, Raw b => length a = length b
  | _, _ => False
  end.

(** Equality of field values; dictionaries as sets of items. *)
Definition same_value (f g : fval) : Prop :=
  match f, g with SMap a, SMap b => a ≡ₚ b | _, _ => f = g end.

(** ** Each method appends a string determined by its argument alone *)
Definition lp (v : bytes) : result bytes :=
  n ← struct_pack 4 (Z.of_nat (length v)); Ok (n ++ v).
Definition ranged (n : nat) (hi : Z) (msg : String.string) (v : Z) : result bytes :=
  if negb ((0 <=? v) && (v <=? hi)) then Err (ValueError msg) else struct_pack n v.

Fixpoint lp_items (its : list (pystr * pystr)) : result bytes :=
  match its with
  | [] => Ok []
  | kv :: its => k ← lp kv.1; v ← lp kv.2; rest ← lp_items its; Ok (k ++ v ++ rest)
  end.

Definition emit (f : fval) : result bytes :=
  match f with
  | U8 v => ranged 1 0xFF "uint8 out of range" v
  | U32 v => ranged 4 0xFFFFFFFF "uint32 out of range" v
  | U64 v => ranged 8 0xFFFFFFFFFFFFFFFF "uint64 out of range" v
  | F64 v => if f64_not_finite v then Err (ValueError "float64 rejects NaN/Inf") else struct_pack 8 v
  | Raw v => Ok v
  | LP v | Str v => lp v
  | OptB None | OptS None | OptU64 None => Ok [0]
  | OptB (Some v) | OptS (Some v) => b ← lp v; Ok (1 :: b)
  | OptU64 (Some v) => b ← ranged 8 0xFFFFFFFFFFFFFFFF "uint64 out of range" v; Ok (1 :: b)
  | SMap d => n ← struct_pack 4 (Z.of_nat (length d)); b ← lp_items (sorted_items d); Ok (n ++ b)
  end.

Definition extends (e : encoder) (r : result encoder) (b : result bytes) : Prop :=
  match b with
  | Ok b => exists e', r = Ok e' /\ finalize e' = finalize e ++ b
  | Err x => r = Err x
  end.

Lemma finalize_append e p : finalize (append e p) = finalize e ++ p.
Proof. unfold finalize, append. rewrite concat_app. simpl. by rewrite app_nil_r. Qed.

Lemma extends_pack e r (h : bytes -> bytes) :
  extends e (b ← r; Ok (append e (h b))) (b ← r; Ok (h b)).
Proof. destruct r as [b|x]; [|done]. eexists. split; [done|]. apply finalize_append. Qed.

Lemma extends_pack_id e r : extends e (b ← r; Ok (append e b)) r.
Proof. destruct r as [b|x]; [|done]. eexists. split; [done|]. apply finalize_append. Qed.

Lemma extends_after e p r b : extends (append e p) r b -> extends e r (x ← b; Ok (p ++ x)).
Proof.
  destruct b as [b|x]; simpl; [|done]. intros (e' & -> & E). exists e'. split; [done|].
  by rewrite E, finalize_append, app_assoc.
Qed.

Lemma extends_bind e r b (k : encoder -> result encoder) (c : result bytes) :
  extends e r b -> (forall e', extends e' (k e') c) ->
  extends e (e' ← r; k e') (x ← b; y ← c; Ok (x ++ y)).
Proof.
  destruct b as [b|x]; simpl; [|intros ->; done]. intros (e' & -> & E) Hk. specialize (Hk e').
  unfold mbind, result_bind. destruct c as [c|x]; simpl in *; [|done].
  destruct Hk as (e2 & -> & E2). exists e2. split; [done|]. by rewrite E2, E, app_assoc.
Qed.

Lemma extends_string e v : extends e (string e v) (lp v).
Proof. apply (extends_pack e _ (fun n => n ++ v)). Qed.

Lemma extends_ranged n hi msg e v :
  extends e (if negb ((0 <=? v) && (v <=? hi)) then Err (ValueError msg)
             else bs ← struct_pack n v; Ok (append e bs)) (ranged n hi msg v).
Proof. unfold ranged. destruct (negb _); [done|]. apply extends_pack_id. Qed.

Lemma extends_items its e :
  extends e (foldM (fun e kv => e ← string e kv.1; string e kv.2) e its) (lp_items its).
Proof.
  revert e. induction its as [|[k v] its IH]; intros e.
  { exists e. split; [done|]. by rewrite app_nil_r. }
  pose proof (extends_bind e _ _ (fun e => e ← string e v;
    foldM (fun e kv => e ← string e kv.1; string e kv.2) e its)
    _ (extends_string e k) (fun e' => extends_bind e' _ _ _ _ (extends_string e' v) IH)) as H.
  revert H. cbn [foldM lp_items fst snd]. unfold mbind, result_bind.
  destruct (string e k) as [e1|]; [destruct (string e1 v)|];
    destruct (lp k); try done; destruct (lp v); try done; by destruct (lp_items its).
Qed.

Lemma put_emit e f : extends e (put e f) (emit f).
Proof.
  destruct f as [v|v|v|v|v|v|v|v|v|v|d]; simpl put; simpl emit; try apply extends_ranged.
  - unfold float64. destruct (f64_not_finite v); [done|]. apply extends_pack_id.
  - eexists. split; [done|]. apply finalize_append.
  - apply extends_string.
  - apply extends_string.
  - destruct v as [v|]; simpl.
    + apply (extends_after e [1]), (extends_string (append e [1]) v).
    + eexists. split; [done|]. apply finalize_append.
  - destruct v as [v|]; simpl.
    + apply (extends_after e [1]), (extends_string (append e [1]) v).
    + eexists. split; [done|]. apply finalize_append.
  - destruct v as [v|]; simpl.
    + apply (extends_after e [1]). apply extends_ranged.
    + eexists. split; [done|]. apply finalize_append.
  - unfold sorted_map, mbind, result_bind. destruct (struct_pack 4 _) as [n|]; [|done].
    apply (extends_after e n). apply extends_items.
Qed.

Lemma foldM_put e fs :
  extends e (foldM put e fs) (bs ← mapR emit fs; Ok (concat bs)).
Proof.
  revert e. induction fs as [|f fs IH]; intros e; simpl.
  { exists e. split; [done|]. by rewrite app_nil_r. }
  pose proof (put_emit e f) as H. unfold mbind, result_bind. destruct (emit f) as [b|x]; simpl in *.
  - destruct H as (e1 & -> & E1). specialize (IH e1). unfold mbind, result_bind in IH.
    destruct (mapR emit fs) as [bs|x]; [|done]. destruct IH as (e2 & -> & E2).
    exists e2. split; [done|]. simpl. by rewrite E2, E1, <- app_assoc.
  - by rewrite H.
Qed.

(** A chain of encoder calls writes the tag followed by one string per call,
    or raises the exception of the first call that fails. *)
Lemma encode_eq tag fs :
  encode tag fs = match tag with
                  | [] => Err (ValueError "object_tag must not be empty")
                  | _ => bs ← mapR emit fs; Ok (tag ++ concat bs)
                  end.
Proof.
  unfold encode, new. destruct tag as [|t tag]; [done|]. unfold mbind, result_bind.
  pose proof (foldM_put [t :: tag] fs) as H. unfold mbind, result_bind in H.
  destruct (mapR emit fs) as [bs|x]; simpl in H.
  - destruct H as (e & -> & ->). f_equal. unfold finalize. simpl. by rewrite app_nil_r.
  - by rewrite H.
Qed.

Lemma encode_fields_Ok tag fs out : encode tag fs = Ok out -> tag <> [] /\
  exists bs, Forall2 (fun f b => emit f = Ok b) fs bs /\ out = tag ++ concat bs.
Proof.
  rewrite encode_eq. destruct tag as [|t tag]; [done|]. unfold mbind, result_bind.
  destruct (mapR emit fs) as [bs|] eqn:E; [|done]. intros <-%Ok_inj. split; [done|].
  exists bs. split; [|done]. by apply mapR_Ok.
Qed.

Lemma encode_fields_total tag fs : tag <> [] -> (forall f, f ∈ fs -> is_ok (emit f) = true) ->
  exists out, encode tag fs = Ok out.
Proof.
  intros Ht Hf. rewrite encode_eq. destruct tag as [|t tag]; [done|].
  enough (exists bs, mapR emit fs = Ok bs) as [bs ->] by (eexists; reflexivity).
  induction fs as [|f fs IH]; [by eexists|]. simpl.
  destruct (emit f) eqn:E.
  - destruct IH as [bs ->]; [|by eexists]. intros; apply Hf. by constructor.
  - specialize (Hf f). rewrite E in Hf. discriminate Hf. constructor.
Qed.

(** ** Unique decoding *)
Lemma lp_inj v w a b r s : lp v = Ok a -> lp w = Ok b -> a ++ r = b ++ s -> v = w /\ r = s.
Proof.
  unfold lp, mbind, result_bind.
  destruct (struct_pack 4 (Z.of_nat (length v))) as [n|] eqn:E1; [|done].
  destruct (struct_pack 4 (Z.of_nat (length w))) as [m|] eqn:E2; [|done].
  apply struct_pack_Ok in E1 as [Hv ->]. apply struct_pack_Ok in E2 as [Hw ->].
  intros <-%Ok_inj <-%Ok_inj E. rewrite <- !app_assoc in E.
  apply app_inj_len in E as [E1 E]; [|by rewrite !be_encode_length].
  apply be_encode_inj in E1; [|done..]. apply app_inj_len in E; [done|lia].
Qed.

Lemma ranged_inj n hi msg v w a b r s :
  ranged n hi msg v = Ok a -> ranged n hi msg w = Ok b -> a ++ r = b ++ s -> v = w /\ r = s.
Proof.
  unfold ranged. do 2 (destruct (negb _); [done|]).
  intros [Hv ->]%struct_pack_Ok [Hw ->]%struct_pack_Ok E.
  apply app_inj_len in E as [E ->]; [|by rewrite !be_encode_length]. by apply be_encode_inj in E.
Qed.

Lemma lp_items_inj its jts a b r s : length its = length jts ->
  lp_items its = Ok a -> lp_items jts = Ok b -> a ++ r = b ++ s -> its = jts /\ r = s.
Proof.
  revert jts a b r s. induction its as [|[k v] its IH]; intros [|[k' v'] jts] a b r s Hl; simpl; try done.
  { intros <-%Ok_inj <-%Ok_inj E. done. }
  unfold mbind, result_bind.
  destruct (lp k) eqn:E1; [|done]. destruct (lp v) eqn:E2; [|done]. destruct (lp_items its) eqn:E3; [|done].
  intros <-%Ok_inj.
  destruct (lp k') eqn:E1'; [|done]. destruct (lp v') eqn:E2'; [|done]. destruct (lp_items jts) eqn:E3'; [|done].
  intros <-%Ok_inj E. rewrite <- !app_assoc in E.
  destruct (lp_inj _ _ _ _ _ _ E1 E1' E) as [-> Ea]. destruct (lp_inj _ _ _ _ _ _ E2 E2' Ea) as [-> Eb].
  simpl in Hl. destruct (IH jts _ _ _ _ (eq_add_S _ _ Hl) eq_refl E3' Eb) as [-> ->]. done.
Qed.

Lemma sorted_items_perm d : sorted_items d ≡ₚ d.
Proof. apply merge_sort_Permutation. Qed.

Lemma opt_inj {A} (em : A -> result bytes) (C : option A -> fval) v w a b r s :
  (forall v w a b, em v = Ok a -> em w = Ok b -> a ++ r = b ++ s -> v = w /\ r = s) ->
  match v with None => Ok [0] | Some v => x ← em v; Ok (1 :: x) end = Ok a ->
  match w with None => Ok [0] | Some w => x ← em w; Ok (1 :: x) end = Ok b ->
  a ++ r = b ++ s -> C v = C w /\ r = s.
Proof.
  intros Hi. unfold mbind, result_bind. destruct v as [v|], w as [w|]; intros Ha Hb E.
  - destruct (em v) eqn:E1; [|done]. destruct (em w) eqn:E2; [|done].
    apply Ok_inj in Ha as <-. apply Ok_inj in Hb as <-. simpl in E. injection E as E.
    by destruct (Hi v w _ _ E1 E2 E) as [-> ->].
  - destruct (em v) eqn:E1; [|done]. apply Ok_inj in Ha as <-. by apply Ok_inj in Hb as <-.
  - destruct (em w) eqn:E1; [|done]. apply Ok_inj in Ha as <-. by apply Ok_inj in Hb as <-.
  - apply Ok_inj in Ha as <-. apply Ok_inj in Hb as <-. by injection E as ->.
Qed.

Lemma emit_inj f g a b r s : same_shape f g ->
  emit f = Ok a -> emit g = Ok b -> a ++ r = b ++ s -> same_value f g /\ r = s.
Proof.
  destruct f, g; simpl; intros Hs; try done.
  1-3: intros H1 H2 E; destruct (ranged_inj _ _ _ _ _ _ _ _ _ H1 H2 E) as [-> ->]; done.
  - destruct (f64_not_finite v); [done|]. destruct (f64_not_finite v0); [done|].
    intros [Hv ->]%struct_pack_Ok [Hw ->]%struct_pack_Ok E.
    apply app_inj_len in E as [E ->]; [|by rewrite !be_encode_length].
    apply be_encode_inj in E; [by subst|done..].
  - intros <-%Ok_inj <-%Ok_inj E. by apply app_inj_len in E as [-> ->].
  - intros H1 H2 E. by destruct (lp_inj _ _ _ _ _ _ H1 H2 E) as [-> ->].
  - intros H1 H2 E. by destruct (lp_inj _ _ _ _ _ _ H1 H2 E) as [-> ->].
  - apply (opt_inj lp OptB); intros; eapply lp_inj; eauto.
  - apply (opt_inj lp OptS); intros; eapply lp_inj; eauto.
  - apply (opt_inj _ OptU64); intros; eapply ranged_inj; eauto.
  - unfold mbind, result_bind.
    destruct (struct_pack 4 (Z.of_nat (length d))) as [n|] eqn:E1; [|done].
    destruct (struct_pack 4 (Z.of_nat (length d0))) as [m|] eqn:E2; [|done].
    destruct (lp_items (sorted_items d)) eqn:E3; [|done]. destruct (lp_items (sorted_items d0)) eqn:E4; [|done].
    apply struct_pack_Ok in E1 as [Hv ->]. apply struct_pack_Ok in E2 as [Hw ->].
    intros <-%Ok_inj <-%Ok_inj E. rewrite <- !app_assoc in E.
    apply app_inj_len in E as [En E]; [|by rewrite !be_encode_length].
    apply be_encode_inj in En; [|done..].
    assert (length (sorted_items d) = length (sorted_items d0)) as Hl
      by (rewrite !sorted_items_perm; lia).
    destruct (lp_items_inj _ _ _ _ _ _ Hl E3 E4 E) as [Es ->].
    split; [|done]. by rewrite <- (sorted_items_perm d), Es, sorted_items_perm.
Qed.

Lemma concat_emit_prefix fs gs bs cs r s : Forall2 same_shape fs gs ->
  Forall2 (fun f b => emit f = Ok b) fs bs -> Forall2 (fun f b => emit f = Ok b) gs cs ->
  concat bs ++ r = concat cs ++ s -> Forall2 same_value fs gs /\ r = s.
Proof.
  intros Hs. revert bs cs. induction Hs as [|f g fs gs Hfg Hs IH]; intros bs cs Hb Hc E.
  { inversion Hb; inversion Hc; subst. done. }
  inversion Hb as [|? b ? bs' Hb1 Hb2]; inversion Hc as [|? c ? cs' Hc1 Hc2]; subst. simpl in E.
  rewrite <- !app_assoc in E. destruct (emit_inj f g b c _ _ Hfg Hb1 Hc1 E) as [Hv Hr].
  destruct (IH _ _ Hb2 Hc2 Hr) as [??]. split; [by constructor|done].
Qed.

Lemma concat_emit_inj fs gs bs cs : Forall2 same_shape fs gs ->
  Forall2 (fun f b => emit f = Ok b) fs bs -> Forall2 (fun f b => emit f = Ok b) gs cs ->
  concat bs = concat cs -> Forall2 same_value fs gs.
Proof.
  intros Hs Hb Hc E. apply (concat_emit_prefix fs gs bs cs [] []); [done..|]. by rewrite E.
Qed.

(** Unique decoding in front of arbitrary data. *)
Lemma encode_prefix tag fs gs a b r s : Forall2 same_shape fs gs ->
  encode tag fs = Ok a -> encode tag gs = Ok b -> a ++ r = b ++ s -> Forall2 same_value fs gs /\ r = s.
Proof.
  intros Hs (_ & bs & Hb & ->)%encode_fields_Ok (_ & cs & Hc & ->)%encode_fields_Ok E.
  rewrite <- !app_assoc in E. apply app_inv_head in E. by eapply concat_emit_prefix.
Qed.

(** ** Order of the keys *)
Lemma str_leb_total a b : str_leb a b = true \/ str_leb b a = true.
Proof.
  revert b; induction a as [|x a IH]; intros [|y b]; simpl; auto.
  destruct (Z.ltb_spec x y), (Z.ltb_spec y x); auto; lia.
Qed.

Lemma str_leb_trans a b c : str_leb a b = true -> str_leb b c = true -> str_leb a c = true.
Proof.
  revert b c; induction a as [|x a IH]; intros [|y b] [|z c]; simpl; try done.
  destruct (Z.ltb_spec x y), (Z.ltb_spec y x), (Z.ltb_spec y z), (Z.ltb_spec z y),
    (Z.ltb_spec x z), (Z.ltb_spec z x); try done; try lia. eauto.
Qed.

Lemma str_leb_antisym a b : str_leb a b = true -> str_leb b a = true -> a = b.
Proof.
  revert b; induction a as [|x a IH]; intros [|y b]; simpl; try done.
  destruct (Z.ltb_spec x y), (Z.ltb_spec y x); try done; try lia.
  intros ? ?. replace y with x by lia. f_equal. auto.
Qed.

#[export] Instance key_le_total : Total key_le.
Proof. intros p q. apply str_leb_total. Qed.
#[export] Instance key_le_trans : Transitive key_le.
Proof. intros p q r. apply str_leb_trans. Qed.

(** [d] is a dictionary: one item per key. *)
Definition is_dict (d : list (pystr * pystr)) : Prop := NoDup (map fst d).

Lemma sorted_items_canonical d1 d2 : is_dict d1 -> d1 ≡ₚ d2 -> sorted_items d1 = sorted_items d2.
Proof.
  intros Hd Hp. apply (StronglySorted_unique_strong key_le).
  - intros [k v] [k' v'] H1 H2 Hle Hge. assert (k = k') as <- by (by apply str_leb_antisym).
    rewrite sorted_items_perm in H1. rewrite sorted_items_perm, <- Hp in H2.
    f_equal. unfold is_dict in Hd. clear Hp Hle Hge d2. induction d1 as [|[k0 v0] d1 IH]; [by inversion H1|].
    simpl in Hd. apply NoDup_cons in Hd as [Hn Hd].
    inversion H1; inversion H2; simplify_eq; try done; auto;
      exfalso; apply Hn; apply elem_of_map; eexists; (split; [|done]); done.
  - apply StronglySorted_merge_sort; apply _.
  - apply StronglySorted_merge_sort; apply _.
  - by rewrite !sorted_items_perm.
Qed.

(** Dictionaries among the fields are dictionaries. *)
Definition fval_ok (f : fval) : Prop := match f with SMap d => is_dict d | _ => True end.

Lemma emit_same_value f g : fval_ok f -> same_value f g -> emit f = emit g.
Proof.
  destruct f, g; simpl; intros Hf Hv; simplify_eq; try done.
  by rewrite (sorted_items_canonical d d0), Hv.
Qed.

(** C19: canonicity of the encoding.  Two chains of the same encoder calls
    (same methods in the same order, raw fields of equal size) under the same
    tag produce the same bytes if and only if they carry the same values;
    dictionaries are compared as sets of items, so their insertion order does
    not matter. *)
Theorem encode_canonical tag fs gs out out' :
  encode tag fs = Ok out -> encode tag gs = Ok out' ->
  Forall2 same_shape fs gs -> Forall fval_ok fs ->
  out = out' <-> Forall2 same_value fs gs.
Proof.
  intros (_ & bs & Hb & ->)%encode_fields_Ok (_ & cs & Hc & ->)%encode_fields_Ok Hs Hok. split.
  - intros E%app_inv_head. by eapply concat_emit_inj.
  - intros Hv. f_equal. clear Hs. revert bs cs Hb Hc.
    induction Hv as [|f g fs gs Hfg Hv IH]; intros bs cs Hb Hc.
    + by inversion Hb; inversion Hc.
    + inversion Hb as [|? b ? bs' Hb1 Hb2]; inversion Hc as [|? c ? cs' Hc1 Hc2]; subst.
      inversion Hok; subst. rewrite (emit_same_value f g) in Hb1 by done. simpl.
      f_equal; [congruence|by apply IH].
Qed.

Lemma encode_canonical_witness :
  let fs d := [U8 1; Str (lit "abc"); OptU64 (Some 7); Raw [1; 2]; SMap d] in
  let d1 := [(lit "k", lit "v"); (lit "a", lit "w")] in
  let d2 := [(lit "a", lit "w"); (lit "k", lit "v")] in
  encode (lit "tag") (fs d1) = encode (lit "tag") (fs d2) /\
  exists out out', encode (lit "tag") (fs d1) = Ok out /\ encode (lit "tag") (fs d2) = Ok out' /\
    (out = out' <-> Forall2 same_value (fs d1) (fs d2)).
Proof.
  intros fs d1 d2. split; [by vm_compute|]. do 2 eexists.
  split; [vm_compute; reflexivity|]. split; [vm_compute; reflexivity|].
  apply (encode_canonical (lit "tag") (fs d1) (fs d2)); [by vm_compute|by vm_compute| |].
  - repeat constructor.
  - do 4 (constructor; [done|]). constructor; [|constructor].
    apply (bool_decide_unpack (NoDup (map fst d1))). by vm_compute.
Defined.

(** Raw fields carry no length: the equal sizes asked for are needed. *)
Example raw_fields_ambiguous : encode (lit "tag") [Raw [1]; Raw [2; 3]] = encode (lit "tag") [Raw [1; 2]; Raw [3]].
Proof. by vm_compute. Qed.

(** A call outside its field's range raises, and so does the chain. *)
Lemma encode_first_error tag fs f gs e : tag <> [] ->
  (forall g, g ∈ fs -> is_ok (emit g) = true) -> emit f = Err e -> encode tag (fs ++ f :: gs) = Err e.
Proof.
  intros Ht Hfs Hf. rewrite encode_eq. destruct tag as [|t tag]; [done|].
  enough (mapR emit (fs ++ f :: gs) = Err e) as -> by done.
  induction fs as [|g fs IH]; simpl; [by rewrite Hf|].
  destruct (emit g) eqn:E.
  - rewrite IH; [done|]. intros; apply Hfs. by constructor.
  - specialize (Hfs g). rewrite E in Hfs. discriminate Hfs. constructor.
Qed.
End CanonicalEncoder.

(** * domain.py *)
Module Domain.

(** The format [b"SUWAPPU-LTP:<name>:v1\x00"]. *)
Definition DOMAIN_ENTITY_ID := lit "SUWAPPU-LTP:entity-id:v1" ++ [0].
Definition DOMAIN_COMMIT_SIGN := lit "SUWAPPU-LTP:commit-sign:v1" ++ [0].
Definition DOMAIN_COMMIT_RECORD := lit "SUWAPPU-LTP:commit-record:v1" ++ [0].
Definition DOMAIN_STH_SIGN := lit "SUWAPPU-LTP:sth-sign:v1" ++ [0].
Definition DOMAIN_SHARD_NONCE := lit "SUWAPPU-LTP:shard-nonce:v1" ++ [0].
Definition DOMAIN_APPROVAL_RECEIPT := lit "SUWAPPU-LTP:approval-receipt:v1" ++ [0].
Definition DOMAIN_ANCHOR_DIGEST := lit "SUWAPPU-LTP:anchor-digest:v1" ++ [0].
Definition DOMAIN_SIGNED_ENVELOPE := lit "SUWAPPU-LTP:signed-envelope:v1" ++ [0].
Definition DOMAIN_SIGNER_POLICY := lit "SUWAPPU-LTP:signer-policy:v1" ++ [0].
Definition DOMAIN_LATTICE_KEY := lit "SUWAPPU-LTP:lattice-key:v1" ++ [0].
Definition DOMAIN_BRIDGE_MSG := lit "SUWAPPU-LTP:bridge-msg:v1" ++ [0].
Definition DOMAIN_INFERENCE_RECEIPT := lit "SUWAPPU-LTP:inference-receipt:v1" ++ [0].
Definition DOMAIN_NODE_HANDSHAKE := lit "SUWAPPU-LTP:node-handshake:v1" ++ [0].
Definition DOMAIN_FRAUD_PROOF := lit "SUWAPPU-LTP:fraud-proof:v1" ++ [0].
Definition DOMAIN_CHALLENGE := lit "SUWAPPU-LTP:challenge:v1" ++ [0].
Definition DOMAIN_WATCHER := lit "SUWAPPU-LTP:watcher:v1" ++ [0].
Definition DOMAIN_ZK_BRIDGE := lit "SUWAPPU-LTP:zk-bridge:v1" ++ [0].
Definition DOMAIN_KEY_ROTATION := lit "SUWAPPU-LTP:key-rotation:v1" ++ [0].
Definition DOMAIN_KEY_ADMISSION := lit "SUWAPPU-LTP:key-admission:v1" ++ [0].
Definition DOMAIN_NODE_ENDORSEMENT := lit "SUWAPPU-LTP:node-endorsement:v1" ++ [0].
Definition DOMAIN_GOVERNANCE_VOTE := lit "SUWAPPU-LTP:governance-vote:v1" ++ [0].
Definition DOMAIN_NIR := lit "SUWAPPU-LTP:nir:v1" ++ [0].
Definition DOMAIN_FED_AGREEMENT := lit "SUWAPPU-LTP:fed-agreement:v1" ++ [0].
Definition DOMAIN_JWT_TOKEN := lit "SUWAPPU-LTP:jwt-token:v1" ++ [0].
Definition DOMAIN_PEER_GOSSIP := lit "SUWAPPU-LTP:peer-gossip:v1" ++ [0].
Definition DOMAIN_ZK_TRANSFER := lit "SUWAPPU-LTP:zk-transfer:v1" ++ [0].
Definition DOMAIN_GATEWAY_ATTEST := lit "SUWAPPU-LTP:gateway-attest:v1" ++ [0].
Definition DOMAIN_EXTERNAL_EVENT := lit "SUWAPPU-LTP:external-event:v1" ++ [0].
Definition DOMAIN_MULTI_VM_STATE_ROOT := lit "SUWAPPU-LTP:multi-vm-state-root:v1" ++ [0].
Definition DOMAIN_MULTI_VM_ATTEST := lit "SUWAPPU-LTP:multi-vm-attest:v1" ++ [0].
Definition DOMAIN_BLS_SIGN := lit "SUWAPPU-LTP:bls-sign:v1" ++ [0].
Definition DOMAIN_BLS_ATTEST := lit "SUWAPPU-LTP:bls-attest:v1" ++ [0].

Definition ALL_TAGS : list bytes := [
  DOMAIN_ENTITY_ID; DOMAIN_COMMIT_SIGN; DOMAIN_COMMIT_RECORD; DOMAIN_STH_SIGN; DOMAIN_SHARD_NONCE;
  DOMAIN_APPROVAL_RECEIPT; DOMAIN_ANCHOR_DIGEST; DOMAIN_SIGNED_ENVELOPE; DOMAIN_SIGNER_POLICY;
  DOMAIN_LATTICE_KEY; DOMAIN_BRIDGE_MSG; DOMAIN_INFERENCE_RECEIPT; DOMAIN_NODE_HANDSHAKE;
  DOMAIN_FRAUD_PROOF; DOMAIN_CHALLENGE; DOMAIN_WATCHER; DOMAIN_ZK_BRIDGE; DOMAIN_KEY_ROTATION;
  DOMAIN_KEY_ADMISSION; DOMAIN_NODE_ENDORSEMENT; DOMAIN_GOVERNANCE_VOTE; DOMAIN_NIR;
  DOMAIN_FED_AGREEMENT; DOMAIN_JWT_TOKEN; DOMAIN_PEER_GOSSIP; DOMAIN_ZK_TRANSFER;
  DOMAIN_GATEWAY_ATTEST; DOMAIN_EXTERNAL_EVENT; DOMAIN_MULTI_VM_STATE_ROOT; DOMAIN_MULTI_VM_ATTEST;
  DOMAIN_BLS_SIGN; DOMAIN_BLS_ATTEST].

(** The import-time loop over the registry; [false] is its [RuntimeError]. *)
Fixpoint registry_ok (seen tags : list bytes) : bool :=
  match tags with
  | [] => true
  | tag :: tags => if bool_decide (tag ∈ seen) then false else registry_ok (tag :: seen) tags
  end.

Section Functions.
Context `{CanonicalHash} (pq : pq_backend) (profile : SecurityProfile).

Definition domain_hash (domain data : bytes) : pystr := chash_str (domain ++ data).
Definition domain_hash_bytes (domain data : bytes) : bytes := chash (domain ++ data).
Definition domain_sign (domain : bytes) (s : signer) (data : bytes) : result bytes :=
  sign_with pq profile s (domain ++ data).
Definition domain_verify (domain vk data sig : bytes) : result bool :=
  MLDSA_verify pq profile vk (domain ++ data) sig.
Definition signer_fingerprint (vk : bytes) : bytes := chash vk.
End Functions.

(** Byte strings whose only null byte is the last one are prefix-free. *)
Fixpoint null_terminated (t : bytes) : bool :=
  match t with
  | [] => false
  | x :: t => if x =? 0 then match t with [] => true | _ => false end else null_terminated t
  end.

Lemma null_terminated_prefix t u d e :
  null_terminated t = true -> null_terminated u = true -> t ++ d = u ++ e -> t = u /\ d = e.
Proof.
  revert u; induction t as [|x t IH]; intros [|y u] Ht Hu E; simpl in *; try done.
  injection E as <- E. destruct (Z.eqb_spec x 0).
  - destruct t; [|done]. destruct u; [|done]. done.
  - destruct (IH u Ht Hu E) as [-> ->]. done.
Qed.

(** Domain separation.  The registry passes its import-time collision
    check, and stronger, no tag is a prefix of another followed by data:
    messages signed or hashed under two registered domains are equal only if
    both the domain and the data are. *)
Theorem domain_separation t u d e : t ∈ ALL_TAGS -> u ∈ ALL_TAGS ->
  registry_ok [] ALL_TAGS = true /\ (t ++ d = u ++ e -> t = u /\ d = e).
Proof.
  assert (forallb null_terminated ALL_TAGS = true) as Hall by (by vm_compute).
  rewrite forallb_forall in Hall. intros Ht%list_elem_of_In Hu%list_elem_of_In.
  split; [by vm_compute|]. apply null_terminated_prefix; by apply Hall.
Qed.

Lemma domain_separation_witness :
  registry_ok [] ALL_TAGS = true /\
  (DOMAIN_STH_SIGN ++ [1] = DOMAIN_BLS_SIGN ++ [2] -> DOMAIN_STH_SIGN = DOMAIN_BLS_SIGN /\ [1] = [2]).
Proof. apply domain_separation; apply (bool_decide_unpack _); by vm_compute. Defined.
End Domain.

(** * envelope.py *)
Module SignedEnvelope.
Import CanonicalEncoder Domain.

Record envelope : Type := {
  version : Z;
  domain : bytes;
  signer_vk : bytes;
  signer_id : pystr;
  signer_kid : bytes;
  timestamp : Float64.float64;
  payload_type : pystr;
  payload_hash : bytes;
  payload : bytes;
  signature : bytes
}.

Section Envelope.
Context `{CanonicalHash} (pq : pq_backend) (profile : SecurityProfile).

Definition content_fields (e : envelope) : list fval := [
  U8 (version e); LP (domain e); LP (signer_vk e); Str (signer_id e); Raw (signer_kid e);
  F64 (timestamp e); Str (payload_type e); Raw (payload_hash e); LP (payload e)].

Definition signable_content (e : envelope) : result bytes :=
  encode DOMAIN_SIGNED_ENVELOPE (content_fields e).

(** [verify(max_drift)] at time [now]. *)
Definition verify (e : envelope) (max_drift : option Float64.float64) (now : Float64.float64) : result bool :=
  let stale := match max_drift with Some d => f64_dist_gt now (timestamp e) d | None => false end in
  if stale then Ok false
  else if negb (bool_decide (signer_kid e = signer_fingerprint (signer_vk e))) then Ok false
  else
    content ← signable_content e;
    domain_verify pq profile DOMAIN_SIGNED_ENVELOPE (signer_vk e) content (signature e).

Definition fingerprint (e : envelope) : result pystr :=
  content ← signable_content e; Ok (chash_str (content ++ signature e)).

Definition with_signature (e : envelope) (sig : bytes) : envelope :=
  {| version := version e; domain := domain e; signer_vk := signer_vk e; signer_id := signer_id e;
     signer_kid := signer_kid e; timestamp := timestamp e; payload_type := payload_type e;
     payload_hash := payload_hash e; payload := payload e; signature := sig |}.

Definition create_at (dom vk : bytes) (sk : signer) (id ptype : pystr) (pl : bytes)
  (ts : Float64.float64) : result envelope :=
  let env := {| version := 1; domain := dom; signer_vk := vk; signer_id := id;
                signer_kid := signer_fingerprint vk; timestamp := ts; payload_type := ptype;
                payload_hash := chash pl; payload := pl; signature := [] |} in
  content ← signable_content env;
  sig ← domain_sign pq profile DOMAIN_SIGNED_ENVELOPE sk content;
  Ok (with_signature env sig).

(** The arguments an envelope can be built from: byte strings under 4 GiB and
    a finite timestamp. *)
Definition u32_sized (bs : bytes) : Prop := Z.of_nat (length bs) < 2 ^ 32.
Definition encodable (dom vk : bytes) (id ptype : pystr) (pl : bytes) (ts : Float64.float64) : Prop :=
  Forall u32_sized [dom; vk; id; ptype; pl] /\ wf_float ts /\ f64_not_finite ts = false.

Lemma lp_is_ok v : u32_sized v -> is_ok (lp v) = true.
Proof.
  unfold u32_sized, lp, struct_pack. change (256 ^ Z.of_nat 4) with (2 ^ 32). intros Hs.
  destruct (Z.leb_spec 0 (Z.of_nat (length v))); [|lia].
  destruct (Z.ltb_spec (Z.of_nat (length v)) (2 ^ 32)); [done|lia].
Qed.

Lemma chash_str_u32 x : Z.of_nat (length chash_prefix) + 1 + 2 * Z.of_nat digest_size < 2 ^ 32 ->
  u32_sized (chash_str x).
Proof.
  intros Hh. unfold u32_sized, chash_str.
  rewrite !length_app, hex_length, chash_length. change (length (lit ":")) with 1%nat. lia.
Qed.

Lemma f64_is_ok ts : wf_float ts -> f64_not_finite ts = false -> is_ok (emit (F64 ts)) = true.
Proof.
  intros Hw Hf. simpl. rewrite Hf. unfold struct_pack. change (256 ^ Z.of_nat 8) with (2 ^ 64).
  unfold wf_float in Hw. destruct (Z.leb_spec 0 ts), (Z.ltb_spec ts (2 ^ 64)); done || lia.
Qed.

Lemma create_at_Ok dom vk sk id ptype pl ts :
  encodable dom vk id ptype pl ts -> signs_for pq profile sk vk ->
  exists e, create_at dom vk sk id ptype pl ts = Ok e.
Proof.
  intros (Hs & Hw & Hf) Hsig. unfold create_at, mbind, result_bind.
  repeat match goal with H : Forall _ (_ :: _) |- _ => inversion H; clear H; subst end.
  destruct (encode_fields_total DOMAIN_SIGNED_ENVELOPE (content_fields {| version := 1; domain := dom; signer_vk := vk; signer_id := id;
                signer_kid := signer_fingerprint vk; timestamp := ts; payload_type := ptype;
                payload_hash := chash pl; payload := pl; signature := [] |})) as [out Hout]; [done| |].
  - intros f Hin. unfold content_fields in Hin. simpl in Hin. 
    repeat (apply elem_of_cons in Hin as [->|Hin]; [first [by apply lp_is_ok | by apply f64_is_ok | done]|]).
    by inversion Hin.
  - unfold signable_content. rewrite Hout. destruct (Hsig (DOMAIN_SIGNED_ENVELOPE ++ out)) as (sig & E & _).
    unfold domain_sign. rewrite E. by eexists.
Qed.

Lemma create_at_verifies dom vk sk id ptype pl ts e now : signs_for pq profile sk vk ->
  create_at dom vk sk id ptype pl ts = Ok e ->
  verify e None now = Ok true /\ payload e = pl /\ payload_type e = ptype /\ domain e = dom /\
  signer_vk e = vk /\ payload_hash e = chash pl.
Proof.
  intros Hsig. unfold create_at, mbind, result_bind.
  destruct (signable_content _) as [content|] eqn:Ec; [|done].
  destruct (domain_sign _ _ _ _ _) as [sig|] eqn:Es; [|done]. intros <-%Ok_inj.
  split; [|done]. unfold verify. cbn [with_signature signer_kid signer_vk signature].
  rewrite bool_decide_eq_true_2 by done. simpl negb. cbv iota.
  unfold signable_content, content_fields in *. cbn in Ec |- *. rewrite Ec. unfold mbind, result_bind.
  unfold domain_verify. destruct (Hsig (DOMAIN_SIGNED_ENVELOPE ++ content)) as (sig' & E1 & E2).
  unfold domain_sign in Es. rewrite E1 in Es. by apply Ok_inj in Es as <-.
Qed.

Lemma signable_content_inj e1 e2 c :
  length (signer_kid e1) = length (signer_kid e2) -> length (payload_hash e1) = length (payload_hash e2) ->
  signable_content e1 = Ok c -> signable_content e2 = Ok c ->
  with_signature e1 [] = with_signature e2 [].
Proof.
  intros Hk Hp (_ & bs & Hb & ->)%encode_fields_Ok (_ & cs & Hc & E%app_inv_head)%encode_fields_Ok.
  assert (Forall2 same_shape (content_fields e1) (content_fields e2)) as Hs by (repeat constructor; done).
  pose proof (concat_emit_inj _ _ _ _ Hs Hb Hc E) as Hv. unfold content_fields in Hv.
  repeat match goal with H : Forall2 _ (_ :: _) (_ :: _) |- _ => apply Forall2_cons in H as [? H] end.
  simpl in *. unfold with_signature. congruence.
Qed.

End Envelope.

(** Envelopes.  For encodable arguments and a signer for [vk], [create_at]
    succeeds and the envelope it returns verifies and carries the payload;
    and the signed content binds every field but the signature: a second
    envelope with the same signed content and a fingerprint and payload hash
    of the digest size has the same fields. *)
Theorem envelope_roundtrip `{CanonicalHash} pq profile dom vk sk id ptype pl ts now :
  encodable dom vk id ptype pl ts -> signs_for pq profile sk vk ->
  exists e, create_at pq profile dom vk sk id ptype pl ts = Ok e /\
    verify pq profile e None now = Ok true /\ payload e = pl /\
    forall e', signable_content e' = signable_content e ->
      length (signer_kid e') = digest_size -> length (payload_hash e') = digest_size ->
      with_signature e' [] = with_signature e [].
Proof.
  intros He Hs. destruct (create_at_Ok pq profile dom vk sk id ptype pl ts He Hs) as [e E].
  exists e. split; [done|]. destruct (create_at_verifies pq profile _ _ _ _ _ _ _ _ now Hs E) as (Hv & Hpl & _).
  split; [done|]. split; [done|]. intros e' Ec Hk Hp.
  unfold create_at, mbind, result_bind in E. destruct (signable_content _) as [c|] eqn:Ec0; [|done].
  destruct (domain_sign _ _ _ _ _); [|done]. apply Ok_inj in E as <-.
  apply (signable_content_inj _ _ c); simpl; rewrite ?Hk, ?Hp, ?chash_length; try done.
  by rewrite Ec.
Qed.

Lemma envelope_roundtrip_witness : exists e,
  create_at toy_pq demo_profile Domain.DOMAIN_STH_SIGN (demo_vk 3) (RawKey (demo_sk 3)) (lit "alice")
    (lit "sth") [1; 2; 3] f64_epoch = Ok e /\
  verify toy_pq demo_profile e None f64_hour = Ok true /\ payload e = [1; 2; 3] /\
  forall e', signable_content e' = signable_content e ->
      length (signer_kid e') = digest_size -> length (payload_hash e') = digest_size ->
      with_signature e' [] = with_signature e [].
Proof.
  apply (envelope_roundtrip toy_pq demo_profile).
  - split; [|split; [|reflexivity]].
    + repeat constructor.
    + unfold wf_float, f64_epoch. lia.
  - apply dsa_pair_signs_raw, demo_dsa_pair.
Defined.
End SignedEnvelope.
