(* ===== verification/Json.v ===== *)
(** [json.dumps] and [repr] of a float, executably.  Values are trees; the
    text is ASCII, since [ensure_ascii] is never switched off.  The main lemma
    [json_text_inj]: up to the order of the items of an object and up to
    floats that print alike, the text determines the value. *)

From Stdlib Require Import SpecFloat.
From S2P Require Import Prelude Float64 Encoding.

(** * Decimal text *)
Lemma lit_inj s t : lit s = lit t -> s = t.
Proof.
  revert t; induction s as [|a s IH]; intros [|b t]; cbn; try done. intros [= E1 E2]. f_equal; [|by apply IH].
  apply N2Z.inj in E1. apply (f_equal Ascii.ascii_of_N) in E1. by rewrite !Ascii.ascii_N_embedding in E1.
Qed.
Lemma str_int_inj a b : str_int a = str_int b -> a = b.
Proof. unfold str_int. intros E%lit_inj. by apply pretty.pretty_Z_inj. Qed.

(** * [repr] of a float: the shortest digits that read back *)
Section Repr.
(** [10 ^ e <= n / d] *)
Definition pow10_le (e n d : Z) : bool := if 0 <=? e then 10 ^ e * d <=? n else d <=? n * 10 ^ (- e).

(** The decimal exponent of [n / d], from an estimate that is at most a few
    too small. *)
Fixpoint raise_exponent (fuel : nat) (e n d : Z) : Z :=
  match fuel with O => e | S fuel => if pow10_le (e + 1) n d then raise_exponent fuel (e + 1) n d else e end.
Definition dec_exponent (n d : Z) : Z := raise_exponent 5 ((Z.log2 n - Z.log2 d) * 30103 / 100000 - 1) n d.

(** The double nearest to [m * 10 ^ k]. *)
Definition read_decimal (m k : Z) : result float64 :=
  if 0 <=? k then int_truediv (m * 10 ^ k) 1 else int_truediv m (10 ^ (- k)).

(** The candidates with [p] digits around [n / d]: the closest one that reads
    back as [w], the even one on a tie. *)
Definition candidate (w n d e p : Z) : option (Z * Z) :=
  let k := e - p + 1 in
  let (a, b) := if 0 <=? k then (n, d * 10 ^ k) else (n * 10 ^ (- k), d) in
  let lo := a / b in let r := 2 * (a mod b) in
  let back m := bool_decide (read_decimal m k = Ok w) in
  let first := if (r <? b) || (r =? b) && Z.even lo then lo else lo + 1 in
  let second := if first =? lo then lo + 1 else lo in
  if back first then Some (first, k) else if back second then Some (second, k)
  else if p =? 17 then Some (first, k) else None.
Fixpoint shortest (fuel : nat) (w n d e p : Z) : Z * Z :=
  match candidate w n d e p, fuel with
  | Some c, _ => c
  | None, S fuel => shortest fuel w n d e (p + 1)
  | None, O => (n, 0)
  end.

Fixpoint strip_zeros (rev_digits : bytes) : bytes :=
  match rev_digits with 48 :: ds => strip_zeros ds | _ => rev_digits end.

(** Digits [ds] with the decimal point after the first [pt] of them. *)
Definition layout (ds : bytes) (pt : Z) : pystr :=
  if (-4 <? pt) && (pt <=? 16) then
    if pt <=? 0 then lit "0." ++ repeat 48 (Z.to_nat (- pt)) ++ ds
    else let n := Z.to_nat pt in
         if (length ds <=? n)%nat then ds ++ repeat 48 (n - length ds) ++ lit ".0"
         else take n ds ++ lit "." ++ drop n ds
  else let e := pt - 1 in
       take 1 ds ++ (if (1 <? length ds)%nat then lit "." ++ drop 1 ds else []) ++ lit "e" ++
       (if e <? 0 then lit "-" else lit "+") ++ (if Z.abs e <? 10 then lit "0" else []) ++ str_int (Z.abs e).

Definition float_repr (w : float64) : pystr :=
  let f := f64_of_bits w in
  match f with
  | S754_nan => lit "nan"
  | S754_infinity s => (if s then lit "-" else []) ++ lit "inf"
  | S754_zero s => (if s then lit "-" else []) ++ lit "0.0"
  | S754_finite s m e =>
      match sf_fraction (S754_finite false m e) with
      | Some (n, d) =>
          let '(v, k) := shortest 16 (w mod 2 ^ 63) n d (dec_exponent n d) 1 in
          let ds := str_int v in
          (if s then lit "-" else []) ++ layout (rev (strip_zeros (rev ds))) (Z.of_nat (length ds) + k)
      | None => []
      end
  end.

(** What [json] writes for it. *)
Definition json_float (w : float64) : pystr :=
  match f64_of_bits w with
  | S754_nan => lit "NaN"
  | S754_infinity s => (if s then lit "-" else []) ++ lit "Infinity"
  | _ => float_repr w
  end.
End Repr.

Example repr_half : float_repr 0x3FE0000000000000 = lit "0.5". Proof. reflexivity. Qed.
Example repr_tenth : float_repr 0x3FB999999999999A = lit "0.1". Proof. reflexivity. Qed.
Example repr_epoch : float_repr 0x41D954FC40000000 = lit "1700000000.0". Proof. reflexivity. Qed.
Example repr_third : float_repr 0x3FD5555555555555 = lit "0.3333333333333333". Proof. reflexivity. Qed.
Example repr_large : float_repr 0x4341C37937E08000 = lit "1e+16". Proof. reflexivity. Qed.
Example repr_pow2 : float_repr 0x3D30000000000000 = lit "5.684341886080802e-14". Proof. reflexivity. Qed.
Example repr_small : float_repr 0x3F1A36E2EB1C432D = lit "0.0001". Proof. reflexivity. Qed.

(** [lia] with division and remainder. *)
Ltac dlia := Z.to_euclidean_division_equations; lia.

(** * UTF-8 *)
(** Code points of a string, and back. *)
Fixpoint utf8_decode (s : pystr) : list Z :=
  match s with
  | [] => []
  | a :: s1 =>
      if a <? 128 then a :: utf8_decode s1 else
      match s1 with
      | [] => []
      | b :: s2 =>
          if a <? 224 then ((a - 192) * 64 + (b - 128)) :: utf8_decode s2 else
          match s2 with
          | [] => []
          | c :: s3 =>
              if a <? 240 then ((a - 224) * 4096 + (b - 128) * 64 + (c - 128)) :: utf8_decode s3 else
              match s3 with
              | [] => []
              | d :: s4 => ((a - 240) * 262144 + (b - 128) * 4096 + (c - 128) * 64 + (d - 128)) :: utf8_decode s4
              end
          end
      end
  end.
Definition utf8_char (c : Z) : bytes :=
  if c <? 128 then [c]
  else if c <? 2048 then [192 + c / 64; 128 + c mod 64]
  else if c <? 65536 then [224 + c / 4096; 128 + c / 64 mod 64; 128 + c mod 64]
  else [240 + c / 262144; 128 + c / 4096 mod 64; 128 + c / 64 mod 64; 128 + c mod 64].
Definition utf8_encode (cs : list Z) : pystr := concat (map utf8_char cs).

(** Unicode scalar values, and the strings made of them. *)
Definition scalar (c : Z) : Prop := 0 <= c < 0x110000 /\ ~ (0xD800 <= c < 0xE000).
Definition valid_str (s : pystr) : Prop := exists cs, Forall scalar cs /\ s = utf8_encode cs.

Lemma utf8_decode_char c s : scalar c -> utf8_decode (utf8_char c ++ s) = c :: utf8_decode s.
Proof.
  intros [Hc _]. unfold utf8_char. destruct (Z.ltb_spec c 128); [|destruct (Z.ltb_spec c 2048); [|destruct (Z.ltb_spec c 65536)]];
    cbn [app utf8_decode].
  - by destruct (Z.ltb_spec c 128); [|dlia].
  - destruct (Z.ltb_spec (192 + c / 64) 128); [dlia|]. destruct (Z.ltb_spec (192 + c / 64) 224); [|dlia]. f_equal. dlia.
  - destruct (Z.ltb_spec (224 + c / 4096) 128); [dlia|]. destruct (Z.ltb_spec (224 + c / 4096) 224); [dlia|].
    destruct (Z.ltb_spec (224 + c / 4096) 240); [|dlia]. f_equal. dlia.
  - destruct (Z.ltb_spec (240 + c / 262144) 128); [dlia|]. destruct (Z.ltb_spec (240 + c / 262144) 224); [dlia|].
    destruct (Z.ltb_spec (240 + c / 262144) 240); [dlia|]. f_equal. dlia.
Qed.
Lemma utf8_roundtrip cs : Forall scalar cs -> utf8_decode (utf8_encode cs) = cs.
Proof. induction 1 as [|c cs Hc Hcs IH]; [done|]. cbn. rewrite utf8_decode_char by done. by f_equal. Qed.

Lemma valid_ascii s : Forall (fun c => 0 <= c < 128) s -> valid_str s.
Proof.
  intros H. exists s. split; [eapply Forall_impl; [exact H|unfold scalar; cbn; dlia]|].
  induction H as [|c s Hc Hs IH]; [done|]. cbn. unfold utf8_char at 1. destruct (Z.ltb_spec c 128); [|dlia]. cbn. by f_equal.
Qed.
Lemma valid_app a b : valid_str a -> valid_str b -> valid_str (a ++ b).
Proof.
  intros (c & Hc & ->) (d & Hd & ->). exists (c ++ d). split; [by apply Forall_app|]. unfold utf8_encode. by rewrite map_app, concat_app.
Qed.

(** * Strings: [py_encode_basestring_ascii] *)
Definition hex4 (c : Z) : bytes := [hex_digit (c / 4096); hex_digit (c / 256 mod 16); hex_digit (c / 16 mod 16); hex_digit (c mod 16)].
Definition u_escape (c : Z) : bytes := [92; 117] ++ hex4 c.
Definition escape_char (c : Z) : bytes :=
  if c =? 34 then [92; 34] else if c =? 92 then [92; 92]
  else if c =? 10 then [92; 110] else if c =? 13 then [92; 114] else if c =? 9 then [92; 116]
  else if c =? 12 then [92; 102] else if c =? 8 then [92; 98]
  else if (32 <=? c) && (c <=? 126) then [c]
  else if c <? 65536 then u_escape c
  else let v := c - 65536 in u_escape (0xD800 + v / 1024) ++ u_escape (0xDC00 + v mod 1024).
Definition json_string (s : pystr) : bytes := [34] ++ concat (map escape_char (utf8_decode s)) ++ [34].

(** The escapes form a prefix code that avoids the closing quote. *)
Lemma hex_digit_bound n : 0 <= n < 16 -> 48 <= hex_digit n < 128.
Proof. unfold hex_digit. destruct (Z.ltb_spec n 10); dlia. Qed.
Lemma hex4_inj a b : 0 <= a < 65536 -> 0 <= b < 65536 -> hex4 a = hex4 b -> a = b.
Proof.
  intros Ha Hb [= E1 E2 E3 E4].
  assert (forall z, z / 256 = z / 16 / 16) as D1 by (intros; by rewrite Z.div_div).
  assert (forall z, z / 4096 = z / 16 / 16 / 16) as D2 by (intros; by rewrite !Z.div_div).
  rewrite !D1, !D2 in *. apply hex_digit_inj in E1, E2, E3, E4; dlia.
Qed.
Inductive escape_view (c : Z) : bytes -> Prop :=
| esc_plain : 32 <= c <= 126 -> c <> 34 -> c <> 92 -> escape_view c [c]
| esc_short x : x <> 117 -> (x = 34 /\ c = 34 \/ x = 92 /\ c = 92 \/ x = 110 /\ c = 10 \/ x = 114 /\ c = 13 \/ x = 116 /\ c = 9 \/ x = 102 /\ c = 12 \/ x = 98 /\ c = 8) ->
    escape_view c [92; x]
| esc_bmp : 0 <= c < 65536 -> ~ (0xD800 <= c < 0xE000) -> escape_view c (92 :: 117 :: hex4 c)
| esc_pair h l : 0xD800 <= h < 0xDC00 -> 0xDC00 <= l < 0xE000 -> c = 65536 + (h - 0xD800) * 1024 + (l - 0xDC00) ->
    escape_view c (92 :: 117 :: hex4 h ++ 92 :: 117 :: hex4 l).
Lemma escape_cases c : scalar c -> escape_view c (escape_char c).
Proof.
  intros [Hc Hs]. unfold escape_char.
  repeat match goal with |- context [?a =? ?b] => destruct (Z.eqb_spec a b) as [->|?]; [apply esc_short; dlia|] end.
  destruct (Z.leb_spec 32 c), (Z.leb_spec c 126); cbn [andb]; try (by apply esc_plain);
    (destruct (Z.ltb_spec c 65536); [apply esc_bmp; dlia|]; apply esc_pair; dlia).
Qed.

Lemma hex4_app_inj a b r r' : 0 <= a < 65536 -> 0 <= b < 65536 -> hex4 a ++ r = hex4 b ++ r' -> a = b /\ r = r'.
Proof. intros Ha Hb [E Er]%app_inj_len; [|done]. split; [by apply hex4_inj|done]. Qed.

Lemma escape_prefix c1 c2 r1 r2 : scalar c1 -> scalar c2 -> escape_char c1 ++ r1 = escape_char c2 ++ r2 -> c1 = c2 /\ r1 = r2.
Proof.
  intros H1 H2. pose proof H1 as [B1 S1]. pose proof H2 as [B2 S2].
  destruct (escape_cases c1 H1) as [P1 P2 P3|x1 X1 V1|U1 U2|h1 l1 U1 U2 U3], (escape_cases c2 H2) as [Q1 Q2 Q3|x2 X2 V2|W1 W2|h2 l2 W1 W2 W3];
    cbn [app]; rewrite <- ?app_assoc; cbn [app]; intros [E0 E]%cons_eq_inj; try (exfalso; clear E; dlia); try (by subst).
  all: apply cons_eq_inj in E as [E1 E]; try (exfalso; clear E; dlia).
  { split; [clear E|done]. dlia. }
  all: apply hex4_app_inj in E as [? E]; [|dlia..]; try (by split); try (exfalso; clear E; dlia).
  do 2 apply cons_eq_inj in E as [_ E]. apply hex4_app_inj in E as [? ->]; [|dlia..]. split; [dlia|done].
Qed.
Lemma escape_head c r x : escape_char c = x :: r -> scalar c -> x <> 34.
Proof. intros E Hc. destruct (escape_cases c Hc); simplify_eq; dlia. Qed.
Lemma escape_nonempty c : scalar c -> exists x r, escape_char c = x :: r /\ x <> 34.
Proof. intros Hc. destruct (escape_char c) as [|x r] eqn:E; [by destruct (escape_cases c Hc)|]. exists x, r. split; [done|by eapply escape_head]. Qed.

Lemma escapes_prefix cs cs' r r' : Forall scalar cs -> Forall scalar cs' ->
  concat (map escape_char cs) ++ 34 :: r = concat (map escape_char cs') ++ 34 :: r' -> cs = cs' /\ r = r'.
Proof.
  intros H. revert cs'. induction H as [|c cs Hc Hcs IH]; intros cs' H' E; destruct H' as [|c' cs' Hc' Hcs']; cbn in E.
  - by injection E as ->.
  - destruct (escape_nonempty c' Hc') as (x & y & Ec & Hx). rewrite Ec in E. cbn in E. by injection E as <-.
  - destruct (escape_nonempty c Hc) as (x & y & Ec & Hx). rewrite Ec in E. cbn in E. by injection E as ->.
  - rewrite <- !app_assoc in E. apply escape_prefix in E as [-> E]; [|done..]. by apply IH in E as [-> ->].
Qed.
Lemma json_string_prefix s s' r r' : valid_str s -> valid_str s' -> json_string s ++ r = json_string s' ++ r' -> s = s' /\ r = r'.
Proof.
  intros (cs & Hc & ->) (cs' & Hc' & ->) E. unfold json_string in E. rewrite !utf8_roundtrip, <- !app_assoc in E by done.
  cbn in E. injection E as E. apply escapes_prefix in E as [-> ->]; done.
Qed.

(** * Values, and their text *)
Inductive json : Type :=
| JNull
| JBool (b : bool)
| JInt (z : Z)
| JFloat (w : float64)
| JStr (s : pystr)
| JList (xs : list json)
| JObj (d : list (pystr * json)).

(** What the text shows of a value: atoms as they print, items in the order
    they are written. *)
Inductive jtree : Type :=
| TAtom (text : bytes)
| TStr (s : pystr)
| TArr (xs : list jtree)
| TObj (d : list (pystr * jtree)).

Definition item_leb {A} (p q : pystr * A) : bool := CanonicalEncoder.str_leb p.1 q.1.

Fixpoint json_tree (sort_keys : bool) (v : json) : jtree :=
  match v with
  | JNull => TAtom (lit "null")
  | JBool b => TAtom (lit (if b then "true" else "false"))
  | JInt z => TAtom (str_int z)
  | JFloat w => TAtom (json_float w)
  | JStr s => TStr s
  | JList xs => TArr (map (json_tree sort_keys) xs)
  | JObj d => let items := map (fun kv => (kv.1, json_tree sort_keys kv.2)) d in
              TObj (if sort_keys then sort_by item_leb items else items)
  end.

(** Separators and, with [indent], the line breaks. *)
Record json_style : Type := { item_sep : bytes; key_sep : bytes; new_line : nat -> bytes }.
Definition default_style : json_style := {| item_sep := lit ", "; key_sep := lit ": "; new_line := fun _ => [] |}.
Definition compact_style : json_style := {| item_sep := lit ","; key_sep := lit ":"; new_line := fun _ => [] |}.
Definition indent_style (indent : nat) : json_style :=
  {| item_sep := lit ","; key_sep := lit ": "; new_line := fun level => 10 :: repeat 32 (indent * level) |}.

Definition join (sep : bytes) (xs : list bytes) : bytes :=
  match xs with [] => [] | x :: xs => x ++ concat (map (fun y => sep ++ y) xs) end.

Fixpoint render (style : json_style) (level : nat) (t : jtree) : bytes :=
  let wrap (o c : Z) (items : list bytes) : bytes :=
    match items with
    | [] => [o; c]
    | _ => [o] ++ new_line style (S level) ++ join (item_sep style ++ new_line style (S level)) items ++ new_line style level ++ [c]
    end in
  match t with
  | TAtom text => text
  | TStr s => json_string s
  | TArr xs => wrap 91 93 (map (render style (S level)) xs)
  | TObj d => wrap 123 125 (map (fun kv => json_string kv.1 ++ key_sep style ++ render style (S level) kv.2) d)
  end.

(** [json.dumps(v, sort_keys=..., separators=..., indent=...)] *)
Definition json_dumps (style : json_style) (sort_keys : bool) (v : json) : bytes := render style 0 (json_tree sort_keys v).

Example dumps_sorted : json_dumps default_style true (JObj [(lit "b", JList [JInt 1; JNull; JBool true]); (lit "a", JFloat 0x3FB999999999999A); (lit "c", JObj [])])
  = map (fun c => if c =? 39 then 34 else c) (lit "{'a': 0.1, 'b': [1, null, true], 'c': {}}").
Proof. reflexivity. Qed.
Example dumps_escaped : json_dumps compact_style false (JObj [([195; 169; 34], JStr [240; 159; 152; 128; 10])])
  = map (fun c => if c =? 39 then 34 else c) (lit "{'\u00e9\'':'\ud83d\ude00\n'}").
Proof. reflexivity. Qed.
Example dumps_indented : json_dumps (indent_style 2) false (JList [JObj [(lit "a", JInt (-1))]])
  = lit "[" ++ [10] ++ lit "  {" ++ [10] ++ lit "    " ++ [34; 97; 34] ++ lit ": -1" ++ [10] ++ lit "  }" ++ [10] ++ lit "]".
Proof. reflexivity. Qed.

(** ** The text determines the tree *)
Section TreeInduction.
Context (P : jtree -> Prop).
Context (H_atom : forall t, P (TAtom t)) (H_str : forall s, P (TStr s)).
Context (H_arr : forall xs, Forall P xs -> P (TArr xs)) (H_obj : forall d, Forall (fun kv => P kv.2) d -> P (TObj d)).
Fixpoint jtree_nested_ind (t : jtree) : P t :=
  match t with
  | TAtom a => H_atom a
  | TStr s => H_str s
  | TArr xs => H_arr xs ((fix go xs : Forall P xs := match xs with [] => Forall_nil_2 P | x :: xs => Forall_cons_2 P x xs (jtree_nested_ind x) (go xs) end) xs)
  | TObj d => H_obj d ((fix go d : Forall (fun kv => P kv.2) d :=
      match d with [] => Forall_nil_2 _ | kv :: d => Forall_cons_2 _ kv d (jtree_nested_ind kv.2) (go d) end) d)
  end.
End TreeInduction.

(** Atoms are words without structure characters. *)
Definition word_char (c : Z) : bool := negb (bool_decide (c ∈ [34; 44; 58; 91; 93; 123; 125])).
Definition word (t : bytes) : Prop := t <> [] /\ Forall (fun c => word_char c = true) t.
Inductive tree_ok : jtree -> Prop :=
| ok_atom t : word t -> tree_ok (TAtom t)
| ok_str s : valid_str s -> tree_ok (TStr s)
| ok_arr xs : Forall tree_ok xs -> tree_ok (TArr xs)
| ok_obj d : Forall (fun kv => valid_str kv.1 /\ tree_ok kv.2) d -> tree_ok (TObj d).

(** What follows a value: nothing, or a character that cannot continue it. *)
Definition follows (r : bytes) : Prop := match r with [] => True | c :: _ => c = 44 \/ c = 93 \/ c = 125 end.

Lemma word_prefix t t' r r' : word t -> word t' -> follows r -> follows r' -> t ++ r = t' ++ r' -> t = t' /\ r = r'.
Proof.
  intros [_ Ht] [_ Ht'] Hr Hr'. revert t' Ht'. induction Ht as [|c t Hc Ht IH]; intros t' Ht' E; destruct Ht' as [|c' t' Hc' Ht']; cbn in E.
  - by subst.
  - subst r. cbn in Hr. by destruct_or!; subst.
  - subst r'. cbn in Hr'. by destruct_or!; subst.
  - injection E as -> E. by apply IH in E as [-> ->].
Qed.

Section Inj.
Context (style : json_style) (s1 : bytes).
Context (Hitem : item_sep style = 44 :: s1) (Hflat : forall n, new_line style n = []).

Definition enclosed (o c : Z) (items : list bytes) : bytes :=
  match items with [] => [o; c] | x :: xs => o :: x ++ concat (map (fun y => (44 :: s1) ++ y) xs) ++ [c] end.
Lemma wrap_flat o c items n m :
  match items with [] => [o; c]
  | _ => [o] ++ new_line style n ++ join (item_sep style ++ new_line style n) items ++ new_line style m ++ [c] end
  = enclosed o c items.
Proof. rewrite !Hflat, Hitem, app_nil_r. destruct items as [|x xs]; [done|]. cbn. by rewrite <- app_assoc. Qed.

(** Items that are prefix codes make lists that are. *)
Context {A : Type} (text : A -> bytes) (ok : A -> Prop) (c o : Z) (Hc : c = 93 \/ c = 125).
Definition prefix_item (x : A) : Prop := forall x' r r', ok x -> ok x' -> follows r -> follows r' -> text x ++ r = text x' ++ r' -> x = x' /\ r = r'.
Definition opens (x : A) : Prop := exists h t, text x = h :: t /\ h <> 93 /\ h <> 125.

Definition closing (xs : list A) (r : bytes) : bytes := concat (map (fun x => (44 :: s1) ++ text x) xs) ++ c :: r.
Lemma closing_cons x xs r : closing (x :: xs) r = 44 :: s1 ++ text x ++ closing xs r.
Proof. unfold closing. cbn. by rewrite <- !app_assoc. Qed.
Lemma closing_follows xs r : follows (closing xs r).
Proof. destruct xs; [cbn; intuition|]. rewrite closing_cons. cbn. auto. Qed.
Lemma closing_inj xs : Forall (fun x => prefix_item x /\ ok x) xs -> forall xs' r r', Forall ok xs' -> closing xs r = closing xs' r' -> xs = xs' /\ r = r'.
Proof.
  induction 1 as [|x xs [Hx Ox] Hxs IH]; intros [|x' xs'] r r' Ho E; rewrite ?closing_cons in E.
  - by injection E as ->.
  - cbn in E. injection E as E _. lia.
  - cbn in E. injection E as E _. lia.
  - injection E as E. apply app_inv_head in E. apply Forall_cons in Ho as [Ox' Ho].
    apply Hx in E as [-> E]; [|auto using closing_follows..]. by apply IH in E as [-> ->].
Qed.
Lemma enclosed_inj xs xs' r r' : Forall (fun x => prefix_item x /\ ok x) xs -> Forall ok xs' -> Forall opens xs -> Forall opens xs' ->
  enclosed o c (map text xs) ++ r = enclosed o c (map text xs') ++ r' -> xs = xs' /\ r = r'.
Proof.
  intros H Ho. destruct H as [|x xs [Hx Ox] Hxs], Ho as [|x' xs' Ox' Ho]; intros Hp Hp'; cbn; intros E.
  - by injection E as ->.
  - apply Forall_cons in Hp' as [(h & t & Et & ? & ?) _]. rewrite Et in E. cbn in E. injection E as <- _. lia.
  - apply Forall_cons in Hp as [(h & t & Et & ? & ?) _]. rewrite Et in E. cbn in E. injection E as -> _. lia.
  - injection E as E. rewrite !map_map, <- !app_assoc in E. apply Hx in E as [-> E]; try done.
    + apply (closing_inj xs Hxs xs' r r' Ho) in E as [-> ->]. done.
    + apply (closing_follows xs r).
    + apply (closing_follows xs' r').
Qed.
End Inj.

Section TextInj.
Context (style : json_style) (s1 : bytes).
Context (Hitem : item_sep style = 44 :: s1) (Hflat : forall n, new_line style n = []).

Definition tree_head (t : jtree) (h : Z) : Prop :=
  match t with TAtom _ => word_char h = true | TStr _ => h = 34 | TArr _ => h = 91 | TObj _ => h = 123 end.
Lemma render_head level t : tree_ok t -> exists h b, render style level t = h :: b /\ tree_head t h.
Proof.
  intros H. destruct H as [t [Hn Hw]|s Hs|xs Hxs|d Hd]; cbn [render tree_head].
  - destruct t as [|h t]; [done|]. exists h, t. split; [done|]. by apply Forall_cons in Hw as [Hh _].
  - by exists 34, (concat (map escape_char (utf8_decode s)) ++ [34]).
  - rewrite (wrap_flat _ s1 Hitem Hflat). exists 91. unfold enclosed. destruct (map _ xs); by eexists.
  - rewrite (wrap_flat _ s1 Hitem Hflat). exists 123. unfold enclosed. destruct (map _ d); by eexists.
Qed.
Lemma render_opens level t : tree_ok t -> opens (render style level) t.
Proof. intros (h & b & E & Hh)%(render_head level). exists h, b. split; [done|]. destruct t; cbn in Hh; try lia. split; by intros ->. Qed.

Definition item_text (level : nat) (kv : pystr * jtree) : bytes := json_string kv.1 ++ key_sep style ++ render style level kv.2.

Lemma render_prefix t : forall level, prefix_item (render style level) tree_ok t.
Proof.
  induction t as [t|s|xs IH|d IH] using jtree_nested_ind; intros level t' r r' Ht Ht' Hr Hr' E;
    destruct (render_head level _ Ht) as (h & b & Eh & Hh), (render_head level _ Ht') as (h' & b' & Eh' & Hh');
    (assert (h' = h) as -> by (rewrite Eh, Eh' in E; by injection E)); cbn [tree_head] in Hh;
    destruct Ht' as [t' Hw|s' Hs|xs' Hxs|d' Hd]; cbn [tree_head] in Hh'; try (subst h; done); clear Eh Eh' Hh Hh'; inversion Ht; subst; cbn [render] in E.
  - by apply word_prefix in E as [-> ->].
  - by apply json_string_prefix in E as [-> ->].
  - rewrite !(wrap_flat _ s1 Hitem Hflat) in E.
    apply (enclosed_inj s1 (render style (S level)) tree_ok 93 91) in E as [-> ->]; [done|by left|..|done| |].
    + apply Forall_and. split; [|done]. eapply Forall_impl; [exact IH|]. auto.
    + eapply Forall_impl; [eassumption|]. apply render_opens.
    + eapply Forall_impl; [eassumption|]. apply render_opens.
  - rewrite !(wrap_flat _ s1 Hitem Hflat) in E.
    apply (enclosed_inj s1 (item_text (S level)) (fun kv => valid_str kv.1 /\ tree_ok kv.2) 125 123) in E as [-> ->]; [done|by right|..|done| |].
    + apply Forall_and. split; [|done]. eapply Forall_impl; [exact IH|]. intros [k v] Hv [k' v'] q q' [Hk Hok] [Hk' Hok'] Hq Hq' E'.
      unfold item_text in E'. cbn [fst snd] in *. rewrite <- !app_assoc in E'. apply json_string_prefix in E' as [-> E']; [|done..].
      apply app_inv_head in E'. by apply Hv in E' as [-> ->].
    + apply Forall_true. intros kv. exists 34. unfold item_text, json_string. by eexists.
    + apply Forall_true. intros kv. exists 34. unfold item_text, json_string. by eexists.
Qed.
End TextInj.

(** ** Values print as trees of words *)
(** Printed integers consist of digits and a sign. *)
Definition digit (c : Z) : Prop := 48 <= c <= 57.
Lemma pretty_go_digits x s : Forall digit (lit s) -> Forall digit (lit (pretty.pretty_N_go x s)).
Proof.
  revert s. induction (N.lt_wf_0 x) as [x _ IH]; intros s Hs. assert (x = 0 \/ 0 < x)%N as [->|Hx] by lia; [done|].
  rewrite pretty.pretty_N_go_step by done. apply IH; [by apply N.div_lt|]. cbn [lit]. constructor; [|done].
  unfold digit, pretty.pretty_N_char. generalize (x mod 10)%N. intros m. repeat case_match; cbv; split; discriminate.
Qed.
Lemma pretty_N_digits (x : N) : Forall digit (lit (pretty.pretty x)) /\ lit (pretty.pretty x) <> [].
Proof.
  unfold pretty.pretty, pretty.pretty_N. destruct (decide (x = 0%N)) as [->|Hx]; [split; [repeat constructor; cbv; discriminate|done]|].
  split; [by apply pretty_go_digits|]. intros E. assert (pretty.pretty x = pretty.pretty 0%N -> False) as H0.
  { intros E0. apply (inj pretty.pretty) in E0. lia. }
  assert (forall s y, lit (pretty.pretty_N_go y s) = [] -> s = EmptyString) as Hne.
  { intros s y. revert s. induction (N.lt_wf_0 y) as [y _ IH]; intros s Hy. assert (y = 0 \/ 0 < y)%N as [->|Hp] by lia; [by destruct s|].
    rewrite pretty.pretty_N_go_step in Hy by done. apply IH in Hy; [done|by apply N.div_lt]. }
  assert (lit (pretty.pretty_N_go x EmptyString) <> []) as Hs; [|done].
  rewrite pretty.pretty_N_go_step by lia. intros E1. by apply Hne in E1.
Qed.

Definition num_char (c : Z) : Prop := 48 <= c <= 57 \/ 97 <= c <= 122 \/ 65 <= c <= 90 \/ c = 43 \/ c = 45 \/ c = 46.
Lemma num_word t : t <> [] -> Forall num_char t -> word t.
Proof.
  intros Hn Ht. split; [done|]. eapply Forall_impl; [exact Ht|]. intros c Hc. unfold word_char.
  rewrite bool_decide_eq_false_2; [done|]. intros Hin. repeat (apply elem_of_cons in Hin as [->|Hin]; [unfold num_char in Hc; lia|]). by apply not_elem_of_nil in Hin.
Qed.
Lemma digits_num t : Forall digit t -> Forall num_char t.
Proof. intros H. eapply Forall_impl; [exact H|]. unfold digit, num_char. lia. Qed.
Lemma str_int_num z : Forall num_char (str_int z) /\ str_int z <> [].
Proof.
  unfold str_int. destruct z as [|p|p].
  - split; [|done]. constructor; [|constructor]. left. split; discriminate.
  - destruct (pretty_N_digits (Npos p)). split; [by apply digits_num|done].
  - destruct (pretty_N_digits (Npos p)). split; [|done]. change (lit (pretty.pretty (Zneg p))) with (45 :: lit (pretty.pretty (Npos p))).
    constructor; [by right; right; right; right; left|by apply digits_num].
Qed.

Lemma num_app a b : Forall num_char a -> Forall num_char b -> Forall num_char (a ++ b).
Proof. intros. by apply Forall_app. Qed.
Lemma zeros_num n : Forall num_char (repeat 48 n).
Proof. induction n; constructor; [left; lia|done]. Qed.
Ltac num_const := repeat (constructor; [unfold num_char; cbn; lia|]); constructor.
Ltac nonempty := intros E%(f_equal length); rewrite !length_app in E; cbn in E; lia.
Lemma layout_num ds pt : Forall num_char ds -> Forall num_char (layout ds pt) /\ layout ds pt <> [].
Proof.
  intros Hd. pose proof (proj1 (str_int_num (Z.abs (pt - 1)))) as He.
  assert (forall n, Forall num_char (take n ds)) as Ht by (intros; by apply Forall_take).
  assert (forall n, Forall num_char (drop n ds)) as Hr by (intros; by apply Forall_drop).
  unfold layout. destruct (_ && _); [destruct (pt <=? 0); [|destruct (_ <=? _)%nat]|].
  - split; [|done]. repeat apply num_app; try done; [num_const|apply zeros_num].
  - split; [|nonempty]. repeat apply num_app; try done; [apply zeros_num|num_const].
  - split; [|nonempty]. repeat apply num_app; try done; num_const.
  - split; [|nonempty]. repeat apply num_app; try done; try num_const.
    + destruct (_ <? _)%nat; [apply num_app; [num_const|done]|constructor].
    + destruct (_ <? _); num_const.
    + destruct (_ <? _); num_const.
Qed.
Lemma strip_num ds : Forall num_char ds -> Forall num_char (strip_zeros ds).
Proof. induction 1 as [|c ds Hc Hd IH]; [done|]. cbn. repeat case_match; subst; try done; by constructor. Qed.

Lemma json_float_word w : word (json_float w).
Proof.
  unfold json_float, float_repr. destruct (f64_of_bits w) as [s|s| |s m e] eqn:E.
  - apply num_word; [by destruct s|]. destruct s; num_const.
  - apply num_word; [by destruct s|]. destruct s; num_const.
  - apply num_word; [done|]. num_const.
  - destruct (sf_fraction (S754_finite false m e)) as [[n d]|] eqn:Ef; [|done]. destruct (shortest _ _ _ _ _ _) as [v k].
    assert (Forall num_char (rev (strip_zeros (rev (str_int v))))) as H by (apply Forall_rev, strip_num, Forall_rev; apply str_int_num).
    destruct (layout_num _ (Z.of_nat (length (str_int v)) + k) H) as [Hl Hn]. apply num_word.
    + destruct s; [done|exact Hn].
    + apply num_app; [destruct s; num_const|done].
Qed.

(** A value whose strings are Unicode. *)
Inductive json_ok : json -> Prop :=
| jok_null : json_ok JNull
| jok_bool b : json_ok (JBool b)
| jok_int z : json_ok (JInt z)
| jok_float w : json_ok (JFloat w)
| jok_str s : valid_str s -> json_ok (JStr s)
| jok_list xs : Forall json_ok xs -> json_ok (JList xs)
| jok_obj d : Forall (fun kv => valid_str kv.1 /\ json_ok kv.2) d -> json_ok (JObj d).

Fixpoint json_tree_ok sort_keys v (H : json_ok v) {struct H} : tree_ok (json_tree sort_keys v).
Proof.
  destruct H as [|b|z|w|s Hs|xs Hxs|d Hd]; cbn [json_tree]; constructor; try done.
  - split; [done|]. repeat constructor.
  - destruct b; (split; [done|]); repeat constructor.
  - apply num_word; apply str_int_num.
  - apply json_float_word.
  - induction Hxs as [|x xs Hx Hxs IH]; constructor; [by apply json_tree_ok|done].
  - assert (Forall (fun kv => valid_str kv.1 /\ tree_ok kv.2) (map (fun kv => (kv.1, json_tree sort_keys kv.2)) d)) as H.
    { induction Hd as [|x xs [Hx Hv] Hxs IH]; constructor; [split; [done|by apply json_tree_ok]|done]. }
    destruct sort_keys; [|done]. rewrite Forall_forall in *. intros kv Hin. apply H. by rewrite elem_of_sort_by in Hin.
Qed.

(** Flat texts determine the tree. *)
Lemma json_text_inj style sort_keys v v' s1 : item_sep style = 44 :: s1 -> (forall n, new_line style n = []) ->
  json_ok v -> json_ok v' -> json_dumps style sort_keys v = json_dumps style sort_keys v' -> json_tree sort_keys v = json_tree sort_keys v'.
Proof.
  intros H1 H3 Hv Hv' E. apply (render_prefix style s1 H1 H3 _ 0 _ [] []); [by apply json_tree_ok..|done|done|by rewrite !app_nil_r].
Qed.

(** Equal sorted objects have equal fields. *)
Lemma sorted_field d d' k v v' : json_tree true (JObj d) = json_tree true (JObj d') -> NoDup d'.*1 ->
  dict_find d k = Some v -> dict_find d' k = Some v' -> json_tree true v = json_tree true v'.
Proof.
  cbn [json_tree]. set (f := fun kv : pystr * json => (kv.1, json_tree true kv.2)). intros [= E] Hd Hv Hv'.
  assert (map f d ≡ₚ map f d') as Hp by (by rewrite <- (sort_by_perm item_leb (map f d)), E, sort_by_perm).
  apply dict_find_Some in Hv. assert ((k, json_tree true v) ∈ map f d') as Hin.
  { rewrite <- Hp. apply elem_of_map. by exists (k, v). }
  apply elem_of_map in Hin as ([k0 v0] & [= -> ->] & Hin). apply (dict_find_elem _ _ _ Hd) in Hin. congruence.
Qed.
