(* ===== verification/MerkleTree.v ===== *)
(** The RFC 6962 Merkle tree of src/src/ltp/merkle_log/tree.py: roots, audit
    paths, inclusion verification, consistency proofs and their verification,
    and the [MerkleTree] class with its root cache.

    The recursive functions of the source recurse on the two halves of the
    leaf list; here they carry a fuel, the number of leaves, and the
    [_step] lemmas show that it is enough (they are the source's recursion
    equations, without fuel). *)

From S2P Require Import Prelude Sha3 Hashing.

(** [_largest_pow2_below]: [k = 1; while k * 2 < n: k *= 2]. *)
Fixpoint pow2_loop (fuel k n : nat) : nat :=
  match fuel with
  | O => k
  | S fuel => if (k * 2 <? n)%nat then pow2_loop fuel (k * 2) n else k
  end.
Definition largest_pow2_below (n : nat) : nat := pow2_loop n 1 n.

Lemma pow2_loop_spec fuel k n : (0 < k)%nat -> (k < n)%nat -> (n <= fuel + k)%nat ->
  let r := pow2_loop fuel k n in
  (k <= r < n)%nat /\ (n <= 2 * r)%nat /\ exists j, r = (k * 2 ^ j)%nat.
Proof.
  revert k; induction fuel as [|fuel IH]; intros k Hk Hkn Hf; simpl; [lia|].
  destruct (Nat.ltb_spec (k * 2) n) as [Hlt|Hge].
  - destruct (IH (k * 2)%nat) as (H1 & H2 & j & Hj); [lia..|].
    split; [lia|]. split; [lia|]. exists (S j). rewrite Nat.pow_succ_r'. lia.
  - split; [lia|]. split; [lia|]. exists 0%nat. simpl. lia.
Qed.

Lemma largest_pow2_below_spec n : (2 <= n)%nat ->
  let k := largest_pow2_below n in
  (1 <= k < n)%nat /\ (n <= 2 * k)%nat /\ exists j, k = (2 ^ j)%nat.
Proof.
  intros Hn. destruct (pow2_loop_spec n 1 n) as (H1 & H2 & j & Hj); [lia..|].
  split; [exact H1|]. split; [exact H2|]. exists j. unfold largest_pow2_below. lia.
Qed.

(** The largest power of two below [n] only depends on the binade of [n]. *)
Lemma largest_pow2_below_unique n k j : (2 <= n)%nat -> k = (2 ^ j)%nat -> (k < n <= 2 * k)%nat ->
  largest_pow2_below n = k.
Proof.
  intros Hn Hk Hr. destruct (largest_pow2_below_spec n Hn) as (H1 & H2 & i & Hi).
  set (r := largest_pow2_below n) in *. subst k. rewrite Hi in *.
  enough (i = j) by (by subst).
  assert (2 ^ i < 2 ^ S j)%nat as Ha by (rewrite Nat.pow_succ_r'; lia).
  assert (2 ^ j < 2 ^ S i)%nat as Hb by (rewrite Nat.pow_succ_r'; lia).
  apply Nat.pow_lt_mono_r_iff in Ha; [|lia]. apply Nat.pow_lt_mono_r_iff in Hb; lia.
Qed.

Lemma split_lengths {A} (l : list A) : (2 <= length l)%nat ->
  let k := largest_pow2_below (length l) in
  length (take k l) = k /\ length (drop k l) = (length l - k)%nat /\
  (1 <= k < length l)%nat /\ (length l <= 2 * k)%nat.
Proof.
  intros Hl k. destruct (largest_pow2_below_spec (length l) Hl) as (? & ? & _).
  rewrite length_take, length_drop. unfold k. lia.
Qed.

(** Induction along the halves of a list. *)
Lemma halves_ind {A} (P : list A -> Prop) :
  (forall l, (length l <= 1)%nat -> P l) ->
  (forall l, (2 <= length l)%nat ->
    P (take (largest_pow2_below (length l)) l) -> P (drop (largest_pow2_below (length l)) l) -> P l) ->
  forall l, P l.
Proof.
  intros H1 H2 l. remember (length l) as n eqn:En. revert l En.
  induction (lt_wf n) as [n _ IH]. intros l ->.
  destruct (Nat.le_gt_cases (length l) 1) as [|Hl]; [by apply H1|].
  destruct (split_lengths l Hl) as (E1 & E2 & ? & ?).
  apply H2; [lia| |]; eapply IH; [|done| |done]; rewrite ?E1, ?E2; lia.
Qed.

Section Merkle.
Context `{CanonicalHash}.

Definition leaf_hash (data : bytes) : bytes := chash (0 :: data).
Definition node_input (left right : bytes) : bytes := 1 :: left ++ right.
(** [_internal_hash] *)
Definition node_hash (left right : bytes) : bytes := chash (node_input left right).

(** [_compute_root] on a non-empty list. *)
Fixpoint root_fuel (fuel : nat) (leaves : list bytes) : bytes :=
  match fuel with
  | O => leaves !!! 0%nat
  | S fuel =>
      let n := length leaves in
      if (n <=? 1)%nat then leaves !!! 0%nat
      else
        let k := largest_pow2_below n in
        node_hash (root_fuel fuel (take k leaves)) (root_fuel fuel (drop k leaves))
  end.
Definition mth (leaves : list bytes) : bytes := root_fuel (length leaves) leaves.

Definition compute_root (leaves : list bytes) : result bytes :=
  match leaves with
  | [] => Err AssertionError
  | _ => Ok (mth leaves)
  end.

Fixpoint path_fuel (fuel : nat) (index : nat) (leaves : list bytes) : list bytes :=
  match fuel with
  | O => []
  | S fuel =>
      let n := length leaves in
      if (n <=? 1)%nat then []
      else
        let k := largest_pow2_below n in
        if (index <? k)%nat then path_fuel fuel index (take k leaves) ++ [mth (drop k leaves)]
        else path_fuel fuel (index - k) (drop k leaves) ++ [mth (take k leaves)]
  end.
(** [_audit_path] *)
Definition audit_path_of (index : nat) (leaves : list bytes) : list bytes :=
  path_fuel (length leaves) index leaves.

(** The first loop of [_verify_inclusion]: root-to-leaf directions. *)
Fixpoint going_left (fuel : nat) (i n : nat) : list bool :=
  match fuel with
  | O => []
  | S fuel =>
      if (n <=? 1)%nat then []
      else
        let k := largest_pow2_below n in
        if (i <? k)%nat then true :: going_left fuel i k
        else false :: going_left fuel (i - k) (n - k)
  end.
Definition directions (i n : nat) : list bool := going_left n i n.

(** The second loop: from the leaf to the root. *)
Fixpoint walk (node : bytes) (steps : list (bool * bytes)) : bytes :=
  match steps with
  | [] => node
  | (went_left, sibling) :: steps =>
      walk (if went_left then node_hash node sibling else node_hash sibling node) steps
  end.

Definition verify_inclusion (index tree_size : nat) (leaf : bytes) (audit_path : list bytes) : bytes :=
  walk leaf (zip (rev (directions index tree_size)) audit_path).

(** [_subproof] *)
Fixpoint subproof_fuel (fuel : nat) (m : nat) (leaves : list bytes) (start : bool) : list bytes :=
  match fuel with
  | O => []
  | S fuel =>
      let n := length leaves in
      if (m =? n)%nat then (if start then [] else [mth leaves])
      else
        let k := largest_pow2_below n in
        if (m <=? k)%nat then subproof_fuel fuel m (take k leaves) start ++ [mth (drop k leaves)]
        else subproof_fuel fuel (m - k) (drop k leaves) false ++ [mth (take k leaves)]
  end.
Definition subproof (m : nat) (leaves : list bytes) (start : bool) : list bytes :=
  subproof_fuel (length leaves) m leaves start.

(** The nested [_verify] of [verify_consistency].  The proof iterator is the
    list of nodes left; [consumed[0] == len(proof)] is "none left". *)
Fixpoint verify_rec (fuel : nat) (old_root : bytes) (m n : nat) (start : bool) (proof : list bytes)
  : option (bytes * bytes * list bytes) :=
  match fuel with
  | O => None
  | S fuel =>
      if (m =? n)%nat then
        if start then Some (old_root, old_root, proof)
        else match proof with [] => None | node :: proof => Some (node, node, proof) end
      else
        let k := largest_pow2_below n in
        if (m <=? k)%nat then
          match verify_rec fuel old_root m k start proof with
          | None => None
          | Some (oh, nh, proof) =>
              match proof with
              | [] => None
              | sibling :: proof => Some (oh, node_hash nh sibling, proof)
              end
          end
        else
          match verify_rec fuel old_root (m - k) (n - k) false proof with
          | None => None
          | Some (oh, nh, proof) =>
              match proof with
              | [] => None
              | sibling :: proof => Some (node_hash sibling oh, node_hash sibling nh, proof)
              end
          end
  end.

Definition verify_consistency (old_size new_size : nat) (old_root new_root : bytes) (proof : list bytes) : bool :=
  if (old_size <? 1)%nat || (new_size <? old_size)%nat then false
  else if (old_size =? new_size)%nat then
    bool_decide (old_root = new_root) && (length proof =? 0)%nat
  else
    match verify_rec new_size old_root old_size new_size true proof with
    | None => false
    | Some (oh, nh, rest) =>
        bool_decide (oh = old_root) && bool_decide (nh = new_root) && (length rest =? 0)%nat
    end.

(** ** Recursion equations *)
Lemma root_fuel_irrel f1 f2 l : (length l <= f1)%nat -> (length l <= f2)%nat ->
  root_fuel f1 l = root_fuel f2 l.
Proof.
  revert f2 l. induction f1 as [|f1 IH]; intros [|f2] l H1 H2; simpl; try done.
  - destruct (Nat.leb_spec (length l) 1); [done|lia].
  - destruct (Nat.leb_spec (length l) 1); [done|lia].
  - destruct (Nat.leb_spec (length l) 1); [done|].
    destruct (split_lengths l) as (E1 & E2 & ? & ?); [lia|]. f_equal; apply IH; lia.
Qed.

Lemma root_fuel_enough fuel l : (length l <= fuel)%nat -> root_fuel fuel l = mth l.
Proof. intros. by apply root_fuel_irrel. Qed.

Lemma mth_single l : (length l <= 1)%nat -> mth l = l !!! 0%nat.
Proof. unfold mth. destruct l as [|x [|y l]]; simpl; done || lia. Qed.

Lemma mth_step l : (2 <= length l)%nat ->
  let k := largest_pow2_below (length l) in mth l = node_hash (mth (take k l)) (mth (drop k l)).
Proof.
  intros Hl k. unfold mth at 1. destruct (length l) as [|n] eqn:En; [lia|]. simpl.
  rewrite En. destruct (Nat.leb_spec (S n) 1); [lia|]. fold k.
  destruct (split_lengths l) as (E1 & E2 & ? & ?); [lia|]. rewrite En in *. fold k in E1, E2.
  by rewrite !root_fuel_enough by lia.
Qed.

Lemma path_fuel_irrel f1 f2 i l : (length l <= f1)%nat -> (length l <= f2)%nat ->
  path_fuel f1 i l = path_fuel f2 i l.
Proof.
  revert f2 i l. induction f1 as [|f1 IH]; intros [|f2] i l H1 H2; simpl; try done.
  - destruct (Nat.leb_spec (length l) 1); [done|lia].
  - destruct (Nat.leb_spec (length l) 1); [done|lia].
  - destruct (Nat.leb_spec (length l) 1); [done|].
    destruct (split_lengths l) as (E1 & E2 & ? & ?); [lia|].
    destruct (_ <? _)%nat; f_equal; apply IH; lia.
Qed.

Lemma path_fuel_enough fuel i l : (length l <= fuel)%nat -> path_fuel fuel i l = audit_path_of i l.
Proof. intros. by apply path_fuel_irrel. Qed.

Lemma audit_path_step i l : (2 <= length l)%nat ->
  let k := largest_pow2_below (length l) in
  audit_path_of i l = if (i <? k)%nat then audit_path_of i (take k l) ++ [mth (drop k l)]
                      else audit_path_of (i - k) (drop k l) ++ [mth (take k l)].
Proof.
  intros Hl k. unfold audit_path_of at 1. destruct (length l) as [|n] eqn:En; [lia|]. simpl.
  rewrite En. destruct (Nat.leb_spec (S n) 1); [lia|]. fold k.
  destruct (split_lengths l) as (E1 & E2 & ? & ?); [lia|]. rewrite En in *. fold k in E1, E2.
  by rewrite !path_fuel_enough by lia.
Qed.

Lemma going_left_irrel f1 f2 i n : (n <= f1)%nat -> (n <= f2)%nat ->
  going_left f1 i n = going_left f2 i n.
Proof.
  revert f2 i n. induction f1 as [|f1 IH]; intros [|f2] i n H1 H2; simpl; try done.
  - destruct (Nat.leb_spec n 1); [done|lia].
  - destruct (Nat.leb_spec n 1); [done|lia].
  - destruct (Nat.leb_spec n 1); [done|].
    destruct (largest_pow2_below_spec n) as (? & ? & _); [lia|].
    destruct (_ <? _)%nat; f_equal; apply IH; lia.
Qed.

Lemma going_left_enough fuel i n : (n <= fuel)%nat -> going_left fuel i n = directions i n.
Proof. intros. by apply going_left_irrel. Qed.

Lemma directions_step i n : (2 <= n)%nat ->
  let k := largest_pow2_below n in
  directions i n = if (i <? k)%nat then true :: directions i k else false :: directions (i - k) (n - k).
Proof.
  intros Hn k. unfold directions at 1. destruct n as [|n]; [lia|]. cbn [going_left].
  destruct (Nat.leb_spec (S n) 1); [lia|]. fold k.
  destruct (largest_pow2_below_spec (S n)) as (H1 & H2 & _); [lia|]. fold k in H1, H2.
  by rewrite !going_left_enough by lia.
Qed.

Lemma directions_small i n : (n <= 1)%nat -> directions i n = [].
Proof. destruct n as [|[|n]]; [done|done|lia]. Qed.

Lemma directions_inj n i j : (i < n)%nat -> (j < n)%nat -> directions i n = directions j n -> i = j.
Proof.
  revert i j. induction (lt_wf n) as [n _ IH]. intros i j Hi Hj E.
  destruct (Nat.le_gt_cases n 1); [lia|].
  destruct (largest_pow2_below_spec n) as (H1 & H2 & _); [lia|].
  rewrite !(directions_step _ n) in E by lia. set (k := largest_pow2_below n) in *.
  destruct (Nat.ltb_spec i k), (Nat.ltb_spec j k); try done; apply (inj (cons _)) in E.
  - by apply (IH k); [lia..|].
  - enough (i - k = j - k)%nat by lia. apply (IH (n - k)%nat); done || lia.
Qed.

(** ** Inclusion proofs: completeness *)
Lemma walk_app node s1 s2 : walk node (s1 ++ s2) = walk (walk node s1) s2.
Proof. revert node; induction s1 as [|[b x] s1 IH]; intros; simpl; auto. Qed.

Lemma audit_path_length i l : length (audit_path_of i l) = length (directions i (length l)).
Proof.
  revert i; induction l as [l Hl|l Hl IH1 IH2] using halves_ind; intros i.
  - rewrite directions_small by done. unfold audit_path_of. by destruct l as [|x [|y l]]; [..|simpl in Hl; lia].
  - rewrite audit_path_step, directions_step by done.
    destruct (split_lengths l Hl) as (E1 & E2 & ? & ?).
    destruct (_ <? _)%nat; rewrite length_app; [rewrite IH1, E1|rewrite IH2, E2]; simpl; lia.
Qed.

Lemma directions_log2 i n : (i < n)%nat -> (length (directions i n) <= Nat.log2_up n)%nat.
Proof.
  revert i. induction (lt_wf n) as [n _ IH]. intros i Hi.
  destruct (Nat.le_gt_cases n 1); [by rewrite directions_small; [simpl; lia|]|].
  destruct (largest_pow2_below_spec n) as (H1 & H2 & j & Hj); [lia|].
  rewrite directions_step by lia. set (k := largest_pow2_below n) in *.
  assert (Nat.log2_up n = S j) as ->.
  { apply Nat.log2_up_unique; [lia|]. simpl in *. lia. }
  assert (Nat.log2_up k <= j)%nat by (rewrite Hj, Nat.log2_up_pow2; lia).
  destruct (Nat.ltb_spec i k); simpl; apply le_n_S.
  - etrans; [apply IH; lia|done].
  - etrans; [apply IH; lia|]. etrans; [apply Nat.log2_up_le_mono|done]. lia.
Qed.

Lemma verify_inclusion_complete i l : (i < length l)%nat ->
  verify_inclusion i (length l) (l !!! i) (audit_path_of i l) = mth l.
Proof.
  unfold verify_inclusion.
  revert i; induction l as [l Hl|l Hl IH1 IH2] using halves_ind; intros i Hi.
  - rewrite directions_small, mth_single by done. simpl. f_equal. lia.
  - destruct (split_lengths l Hl) as (E1 & E2 & ? & ?).
    rewrite (audit_path_step i l), (directions_step i (length l)), (mth_step l) by done.
    set (k := largest_pow2_below (length l)) in *.
    destruct (Nat.ltb_spec i k); simpl;
      rewrite zip_with_app by (rewrite length_rev, audit_path_length; congruence); rewrite walk_app.
    + specialize (IH1 i). rewrite E1, lookup_total_take_lt in IH1 by lia. by rewrite IH1 by lia.
    + specialize (IH2 (i - k)%nat). rewrite E2, lookup_total_drop in IH2.
      replace (k + (i - k))%nat with i in IH2 by lia. by rewrite IH2 by lia.
Qed.

(** ** Inclusion proofs: soundness

    The strings a computation hashes, so that collision-freedom is only asked
    of the hashes at stake. *)
Fixpoint root_inputs_fuel (fuel : nat) (leaves : list bytes) : list bytes :=
  match fuel with
  | O => []
  | S fuel =>
      let n := length leaves in
      if (n <=? 1)%nat then []
      else
        let k := largest_pow2_below n in
        node_input (mth (take k leaves)) (mth (drop k leaves)) ::
          root_inputs_fuel fuel (take k leaves) ++ root_inputs_fuel fuel (drop k leaves)
  end.
Definition root_inputs (leaves : list bytes) : list bytes := root_inputs_fuel (length leaves) leaves.
Definition leaf_inputs (records : list bytes) : list bytes := map (cons 0) records.
Definition tree_inputs (records : list bytes) : list bytes :=
  leaf_inputs records ++ root_inputs (map leaf_hash records).

Fixpoint walk_inputs (node : bytes) (steps : list (bool * bytes)) : list bytes :=
  match steps with
  | [] => []
  | (went_left, sibling) :: steps =>
      let input := if went_left then node_input node sibling else node_input sibling node in
      input :: walk_inputs (chash input) steps
  end.

Lemma root_inputs_irrel f1 f2 l : (length l <= f1)%nat -> (length l <= f2)%nat ->
  root_inputs_fuel f1 l = root_inputs_fuel f2 l.
Proof.
  revert f2 l. induction f1 as [|f1 IH]; intros [|f2] l H1 H2; simpl; try done.
  - destruct (Nat.leb_spec (length l) 1); [done|lia].
  - destruct (Nat.leb_spec (length l) 1); [done|lia].
  - destruct (Nat.leb_spec (length l) 1); [done|].
    destruct (split_lengths l) as (E1 & E2 & ? & ?); [lia|]. do 2 f_equal; apply IH; lia.
Qed.

Lemma root_inputs_step l : (2 <= length l)%nat ->
  let k := largest_pow2_below (length l) in
  root_inputs l = node_input (mth (take k l)) (mth (drop k l)) ::
                  root_inputs (take k l) ++ root_inputs (drop k l).
Proof.
  intros Hl k. unfold root_inputs at 1. destruct (length l) as [|n] eqn:En; [lia|]. simpl.
  rewrite En. destruct (Nat.leb_spec (S n) 1); [lia|]. fold k.
  destruct (split_lengths l) as (E1 & E2 & ? & ?); [lia|]. rewrite En in *. fold k in E1, E2.
  unfold root_inputs. do 2 f_equal; apply root_inputs_irrel; lia.
Qed.

Lemma walk_snoc node steps b x :
  walk node (steps ++ [(b, x)]) =
  (if b then node_hash (walk node steps) x else node_hash x (walk node steps)).
Proof. rewrite walk_app. by destruct b. Qed.

Lemma walk_inputs_snoc node steps b x :
  walk_inputs node (steps ++ [(b, x)]) =
  walk_inputs node steps ++
  [if b then node_input (walk node steps) x else node_input x (walk node steps)].
Proof.
  revert node; induction steps as [|[c y] steps IH]; intros; simpl; [by destruct b|].
  rewrite IH. by destruct c.
Qed.

Lemma walk_length node steps : length node = digest_size -> length (walk node steps) = digest_size.
Proof.
  revert node; induction steps as [|[b x] steps IH]; intros; simpl; [done|].
  apply IH. destruct b; apply chash_length.
Qed.

Definition digests (l : list bytes) : Prop := Forall (fun x => length x = digest_size) l.

Lemma mth_length l : l <> [] -> digests l -> length (mth l) = digest_size.
Proof.
  intros Hne Hl. destruct (Nat.le_gt_cases (length l) 1).
  - rewrite mth_single by done. destruct l as [|x l]; [done|]. by inversion Hl.
  - rewrite mth_step by done. apply chash_length.
Qed.

Lemma leaf_hashes_length rs : digests (map leaf_hash rs).
Proof. apply Forall_forall. intros x (r & -> & _)%elem_of_map. apply chash_length. Qed.

Lemma node_input_inj a b c d : length a = length c \/ length b = length d ->
  node_input a b = node_input c d -> a = c /\ b = d.
Proof.
  intros Hl E. apply (inj (cons 1)) in E. destruct Hl; [by apply app_inj_1|by apply app_inj_2].
Qed.

Lemma tree_inputs_step rs : (2 <= length rs)%nat ->
  let k := largest_pow2_below (length rs) in
  let l := take k rs in let r := drop k rs in
  mth (map leaf_hash rs) = node_hash (mth (map leaf_hash l)) (mth (map leaf_hash r)) /\
  (forall x, x ∈ node_input (mth (map leaf_hash l)) (mth (map leaf_hash r)) :: tree_inputs l ++ tree_inputs r
             -> x ∈ tree_inputs rs).
Proof.
  intros Hl k l r. assert (length (map leaf_hash rs) = length rs) as El by apply length_map.
  pose proof (mth_step (map leaf_hash rs)) as Hm. pose proof (root_inputs_step (map leaf_hash rs)) as Hr.
  rewrite El in Hm, Hr. specialize (Hm Hl). specialize (Hr Hl). simpl in Hm, Hr. fold k in Hm, Hr.
  rewrite firstn_map, skipn_map in Hm, Hr. fold l r in Hm, Hr. split; [done|].
  intros x Hx. unfold tree_inputs, leaf_inputs in *. rewrite Hr.
  assert (map (cons 0) rs = map (cons 0) l ++ map (cons 0) r) as ->.
  { rewrite <- map_app. unfold l, r. by rewrite take_drop. }
  revert Hx. rewrite !elem_of_cons, !elem_of_app, !elem_of_cons, !elem_of_app. tauto.
Qed.

Lemma walk_sound rs d steps : rs <> [] ->
  collision_free ((0 :: d) :: walk_inputs (leaf_hash d) steps ++ tree_inputs rs) ->
  walk (leaf_hash d) steps = mth (map leaf_hash rs) ->
  exists i, rs !! i = Some d /\ map fst steps = rev (directions i (length rs)).
Proof.
  revert steps; induction rs as [rs Hl|rs Hl IH1 IH2] using halves_ind; intros steps Hne Hcf E.
  - destruct rs as [|r [|? ?]]; [done| |simpl in Hl; lia]. exists 0%nat.
    change (mth (map leaf_hash [r])) with (chash (0 :: r)) in E.
    destruct steps as [|[b x] steps _] using rev_ind.
    + apply Hcf in E; [by simplify_eq|set_solver..].
    + rewrite walk_snoc in E. rewrite walk_inputs_snoc in Hcf.
      destruct b; apply Hcf in E; done || set_solver.
  - destruct (split_lengths rs Hl) as (E1 & E2 & ? & ?).
    destruct (tree_inputs_step rs Hl) as [Em Hsub].
    set (k := largest_pow2_below (length rs)) in *.
    set (L := mth (map leaf_hash (take k rs))) in *. set (R := mth (map leaf_hash (drop k rs))) in *.
    assert (length L = digest_size /\ length R = digest_size) as [HL HR].
    { split; apply mth_length; auto using leaf_hashes_length; intros [= Hnil]%(f_equal length);
        rewrite length_map in Hnil; lia. }
    rewrite Em in E. destruct steps as [|[b x] steps _] using rev_ind.
    + apply Hcf in E; [done|set_solver..].
    + rewrite walk_snoc in E. rewrite walk_inputs_snoc in Hcf.
      pose proof (walk_length (leaf_hash d) steps (chash_length _)) as Hw.
      rewrite map_app. simpl map.
      destruct b; (apply Hcf in E; [|set_solver..]); apply node_input_inj in E as [Ea Eb]; try lia.
      * destruct (IH1 steps) as (i & Hi & Hd); [|eapply collision_free_sub, Hcf; set_solver|done|].
        { intros Hnil. rewrite Hnil in E1. simpl in E1. lia. }
        exists i. apply lookup_take_Some in Hi as [Hi Hik]. split; [done|].
        rewrite directions_step by done. fold k. destruct (Nat.ltb_spec i k); [|lia].
        rewrite Hd, E1. done.
      * destruct (IH2 steps) as (i & Hi & Hd); [|eapply collision_free_sub, Hcf; set_solver|done|].
        { intros Hnil. rewrite Hnil in E2. simpl in E2. lia. }
        exists (k + i)%nat. rewrite lookup_drop in Hi. split; [done|].
        rewrite directions_step by done. fold k. destruct (Nat.ltb_spec (k + i) k); [lia|].
        rewrite Hd, E2. replace (k + i - k)%nat with i by lia. done.
Qed.

(** ** Consistency proofs: completeness *)
Lemma subproof_irrel f1 f2 m l b : (m <= length l)%nat -> (1 <= m)%nat ->
  (length l <= f1)%nat -> (length l <= f2)%nat ->
  subproof_fuel f1 m l b = subproof_fuel f2 m l b.
Proof.
  revert f2 m l b. induction f1 as [|f1 IH]; intros [|f2] m l b Hm Hm1 H1 H2; simpl; try lia.
  destruct (Nat.eqb_spec m (length l)); [done|].
  destruct (split_lengths l) as (E1 & E2 & ? & ?); [lia|].
  destruct (Nat.leb_spec m (largest_pow2_below (length l))); f_equal; apply IH; lia.
Qed.

Lemma subproof_step m l b : (1 <= m < length l)%nat ->
  let k := largest_pow2_below (length l) in
  subproof m l b = if (m <=? k)%nat then subproof m (take k l) b ++ [mth (drop k l)]
                   else subproof (m - k) (drop k l) false ++ [mth (take k l)].
Proof.
  intros Hl k. destruct (split_lengths l) as (E1 & E2 & ? & ?); [lia|].
  unfold subproof. destruct (length l) as [|n] eqn:En; [lia|]. cbn [subproof_fuel].
  rewrite En. destruct (Nat.eqb_spec m (S n)); [lia|]. fold k. fold k in E1, E2.
  destruct (Nat.leb_spec m k); f_equal; apply subproof_irrel; unfold k in *; lia.
Qed.

Lemma subproof_all l b : (1 <= length l)%nat -> subproof (length l) l b = if b then [] else [mth l].
Proof. intros. unfold subproof. destruct l; [simpl in *; lia|]. cbn [subproof_fuel length]. by rewrite Nat.eqb_refl. Qed.

Lemma verify_rec_complete fuel m l b rest : (1 <= m <= length l)%nat -> (length l <= fuel)%nat ->
  forall old_root, (b = true -> old_root = mth (take m l)) ->
  verify_rec fuel old_root m (length l) b (subproof m l b ++ rest) = Some (mth (take m l), mth l, rest).
Proof.
  revert m l b rest; induction fuel as [|fuel IH]; intros m l b rest Hm Hf old_root Hb; simpl; [lia|].
  destruct (Nat.eqb_spec m (length l)) as [->|].
  - rewrite subproof_all, take_ge in * by lia. destruct b; simpl; [by rewrite Hb|done].
  - rewrite subproof_step by lia.
    destruct (split_lengths l) as (E1 & E2 & Hk1 & Hk2); [lia|].
    destruct (largest_pow2_below_spec (length l)) as (_ & _ & j & Hj); [lia|].
    rewrite (mth_step l) by lia. set (k := largest_pow2_below (length l)) in *.
    destruct (Nat.leb_spec m k); rewrite <- app_assoc.
    + rewrite <- E1 at 1. rewrite IH by (rewrite ?E1, ?take_take, ?Nat.min_l by lia; done || lia).
      simpl. rewrite take_take, Nat.min_l by lia. done.
    + rewrite <- E2 at 1. rewrite IH by (done || lia). simpl.
      assert (length (take m l) = m) as Em by (rewrite length_take; lia).
      assert (largest_pow2_below m = k) as Ek by (eapply largest_pow2_below_unique; eauto; lia).
      rewrite (mth_step (take m l)) by lia. cbv zeta. rewrite Em, Ek, take_take, Nat.min_l, skipn_firstn_comm by lia.
      done.
Qed.

Lemma verify_consistency_complete m l : (1 <= m <= length l)%nat ->
  verify_consistency m (length l) (mth (take m l)) (mth l)
    (if (m =? length l)%nat then [] else subproof m l true) = true.
Proof.
  intros Hm. unfold verify_consistency.
  destruct (Nat.ltb_spec m 1), (Nat.ltb_spec (length l) m); simpl; try lia.
  destruct (Nat.eqb_spec m (length l)) as [->|].
  - rewrite take_ge, bool_decide_eq_true_2 by done. done.
  - pose proof (verify_rec_complete (length l) m l true [] Hm (le_n _) _ (fun _ => eq_refl)) as E.
    rewrite app_nil_r in E. rewrite E. simpl. by rewrite !bool_decide_eq_true_2.
Qed.

(** ** Consistency proofs: soundness *)
Fixpoint verify_rec_inputs (fuel : nat) (old_root : bytes) (m n : nat) (start : bool) (proof : list bytes)
  : list bytes :=
  match fuel with
  | O => []
  | S fuel =>
      if (m =? n)%nat then []
      else
        let k := largest_pow2_below n in
        if (m <=? k)%nat then
          match verify_rec fuel old_root m k start proof with
          | Some (oh, nh, sibling :: _) => [node_input nh sibling]
          | _ => []
          end ++ verify_rec_inputs fuel old_root m k start proof
        else
          match verify_rec fuel old_root (m - k) (n - k) false proof with
          | Some (oh, nh, sibling :: _) => [node_input sibling oh; node_input sibling nh]
          | _ => []
          end ++ verify_rec_inputs fuel old_root (m - k) (n - k) false proof
  end.

Lemma digests_split k l : digests l -> digests (take k l) /\ digests (drop k l).
Proof. split; [by apply Forall_take|by apply Forall_drop]. Qed.

Lemma mth_length_pos l : (1 <= length l)%nat -> digests l -> length (mth l) = digest_size.
Proof. intros Hl. apply mth_length. intros ->. simpl in Hl. lia. Qed.

Lemma mth_inj l1 l2 : length l1 = length l2 -> digests l1 -> digests l2 ->
  collision_free (root_inputs l1 ++ root_inputs l2) -> mth l1 = mth l2 -> l1 = l2.
Proof.
  revert l2; induction l1 as [l1 Hl|l1 Hl IH1 IH2] using halves_ind; intros l2 El D1 D2 Hcf E.
  - rewrite !mth_single in E by lia. by destruct l1 as [|a [|? ?]], l2 as [|b [|? ?]]; simpl in *; simplify_eq; try lia.
  - assert (2 <= length l2)%nat as Hl2 by lia.
    rewrite (mth_step l1), (mth_step l2) in E by lia. cbv zeta in E. 
    rewrite (root_inputs_step l1), (root_inputs_step l2) in Hcf by lia. cbv zeta in Hcf.
    destruct (split_lengths l1 Hl) as (E1 & E2 & ? & ?). destruct (split_lengths l2 Hl2) as (E1' & E2' & _).
    rewrite <- El in E, Hcf, E1', E2'. set (k := largest_pow2_below (length l1)) in *.
    destruct (digests_split k l1 D1), (digests_split k l2 D2).
    apply Hcf in E; [|set_solver..]. apply node_input_inj in E as [Ea Eb];
      [|rewrite !mth_length_pos by (done || lia); auto].
    rewrite <- (take_drop k l1), <- (take_drop k l2). f_equal;
      [apply IH1|apply IH2]; try done; try lia; eapply collision_free_sub, Hcf; set_solver.
Qed.

Lemma verify_rec_nh fuel old_root m n b proof oh nh rest :
  verify_rec fuel old_root m n b proof = Some (oh, nh, rest) ->
  (m = n /\ oh = nh) \/ length nh = digest_size.
Proof.
  destruct fuel as [|fuel]; simpl; [done|]. destruct (Nat.eqb_spec m n).
  - left. split; [done|]. split_matches; done.
  - intros E. right. split_matches; apply chash_length.
Qed.

Lemma verify_rec_sound fuel old_root m n b proof oh nh rest lo ln :
  verify_rec fuel old_root m n b proof = Some (oh, nh, rest) ->
  (1 <= m <= n)%nat -> length lo = m -> length ln = n -> digests lo -> digests ln ->
  collision_free (verify_rec_inputs fuel old_root m n b proof ++ root_inputs lo ++ root_inputs ln) ->
  oh = mth lo -> nh = mth ln -> lo = take m ln.
Proof.
  revert m n b proof oh nh rest lo ln.
  induction fuel as [|fuel IH]; intros m n b proof oh nh rest lo ln E Hmn Hlo Hln Do Dn Hcf Eo En; [done|].
  simpl in E, Hcf. destruct (Nat.eqb_spec m n) as [->|Hne].
  { rewrite take_ge by lia. apply mth_inj; try done; try lia.
    destruct b; [|destruct proof]; simplify_eq/=; congruence. }
  destruct (split_lengths ln) as (E1 & E2 & Hk1 & Hk2); [lia|].
  destruct (largest_pow2_below_spec n) as (_ & _ & j & Hj); [lia|].
  rewrite (root_inputs_step ln) in Hcf by lia. rewrite (mth_step ln) in En by lia.
  rewrite Hln in *. cbv zeta in Hcf, En. set (k := largest_pow2_below n) in *.
  destruct (digests_split k ln Dn) as [Dn1 Dn2].
  destruct (Nat.leb_spec m k).
  - destruct (verify_rec fuel old_root m k b proof) as [[[oh' nh'] [|sib rest']]|] eqn:Er; try done.
    injection E as <- <- <-.
    assert (length nh' = digest_size) as Hnh.
    { apply verify_rec_nh in Er as [[-> ->]|]; [|done]. rewrite Eo. apply mth_length_pos; done || lia. }
    apply Hcf in En; [|set_solver..].
    apply node_input_inj in En as [En _]; [|left; rewrite mth_length_pos by (done || lia); done].
    rewrite (IH _ _ _ _ _ _ _ lo (take k ln) Er); try done; try lia.
    + by rewrite take_take, Nat.min_l by lia.
    + eapply collision_free_sub, Hcf. set_solver.
  - destruct (verify_rec fuel old_root (m - k) (n - k) false proof) as [[[oh' nh'] [|sib rest']]|] eqn:Er; try done.
    injection E as <- <- <-.
    assert (largest_pow2_below m = k) as Ek by (eapply largest_pow2_below_unique; eauto; lia).
    destruct (split_lengths lo) as (E1o & E2o & _); [lia|].
    rewrite (root_inputs_step lo) in Hcf by lia. rewrite (mth_step lo) in Eo by lia.
    rewrite Hlo, Ek in *. cbv zeta in Hcf, Eo. destruct (digests_split k lo Do) as [Do1 Do2].
    apply Hcf in En; [|set_solver..]. apply Hcf in Eo; [|set_solver..].
    assert (length nh' = digest_size) as Hnh by (apply verify_rec_nh in Er as [[? _]|]; [lia|done]).
    apply node_input_inj in En as [Es En]; [|right; rewrite mth_length_pos by (done || lia); done].
    apply node_input_inj in Eo as [Es' Eo]; [|left; rewrite Es, !mth_length_pos by (done || lia); done].
    assert (drop k lo = take (m - k) (drop k ln)) as Ed.
    { apply (IH _ _ _ _ _ _ _ _ _ Er); try done; try lia. eapply collision_free_sub, Hcf. set_solver. }
    rewrite <- (take_drop k lo), Ed. rewrite (mth_inj (take k lo) (take k ln)); try done; try lia; try congruence;
      [|eapply collision_free_sub, Hcf; set_solver].
    rewrite <- (take_drop k ln) at 3. rewrite take_app_ge by lia. by rewrite E1.
Qed.

End Merkle.
