(* ===== verification/MerkleLog.v ===== *)
(** The append-only commitment log of src/src/ltp/merkle_log/: the
    [MerkleTree] class with its root cache (tree.py), inclusion proofs
    (proof.py), signed tree heads (sth.py), [MerkleLog] (log.py) and portable
    proofs (portable_proof.py).

    The log is a state machine: [log_step] is one locked operation, and the
    theorems are about every reachable log. *)

From S2P Require Import Prelude Float64 Sha3 Hashing Primitives Encoding MerkleTree.
Import CanonicalEncoder.

(** * tree.py: the [MerkleTree] class *)
Record tree : Type := {
  leaves : list bytes;
  cached_root : option bytes;
  cache_leaf_count : nat;
  cache_leaf_checksum : bytes
}.

Definition new_tree : tree :=
  {| leaves := []; cached_root := None; cache_leaf_count := 0; cache_leaf_checksum := [] |}.

Definition CAPACITY : Z := 1000000.
Definition size (t : tree) : Z := Z.of_nat (length (leaves t)).

(** ** sth.py *)
Record SignedTreeHead : Type := {
  sth_sequence : Z;
  sth_tree_size : Z;
  sth_timestamp : Float64.float64;
  sth_root_hash : bytes;
  sth_operator_vk : bytes;
  sth_signature : bytes
}.

(** ** proof.py *)
Record InclusionProof : Type := {
  leaf_index : Z;
  tree_size : Z;
  audit_path : list bytes;
  root_hash : bytes
}.

(** ** log.py *)
Record log : Type := {
  log_tree : tree;
  log_records : list bytes;
  log_vk : bytes;
  log_sk : signer;
  log_sths : list SignedTreeHead;
  log_sequence : Z
}.

Section Log.
Context `{CanonicalHash} (pq : pq_backend) (profile : SecurityProfile).

(** ** MerkleTree *)
Definition tree_append (t : tree) (data : bytes) : result (Z * tree) :=
  if CAPACITY <=? size t then Err (ValueError "Merkle log capacity exceeded")
  else
    let t' := {| leaves := leaves t ++ [leaf_hash data]; cached_root := cached_root t;
                 cache_leaf_count := cache_leaf_count t; cache_leaf_checksum := cache_leaf_checksum t |} in
    Ok (size t' - 1, t').

Definition leaf_checksum (t : tree) : bytes :=
  match leaves t with [] => [] | _ => chash (concat (leaves t)) end.

Definition tree_root (t : tree) : bytes * tree :=
  match leaves t with
  | [] => (chash [], t)
  | _ =>
      match cached_root t with
      | Some r =>
          if (length (leaves t) =? cache_leaf_count t)%nat
             && bool_decide (leaf_checksum t = cache_leaf_checksum t)
          then (r, t)
          else (mth (leaves t),
                {| leaves := leaves t; cached_root := Some (mth (leaves t));
                   cache_leaf_count := length (leaves t); cache_leaf_checksum := leaf_checksum t |})
      | None => (mth (leaves t),
                {| leaves := leaves t; cached_root := Some (mth (leaves t));
                   cache_leaf_count := length (leaves t); cache_leaf_checksum := leaf_checksum t |})
      end
  end.

Definition in_range (i n : Z) : bool := (0 <=? i) && (i <? n).

Definition tree_leaf_hash (t : tree) (index : Z) : result bytes :=
  if negb (in_range index (size t)) then Err IndexError else Ok (leaves t !!! Z.to_nat index).

Definition tree_audit_path (t : tree) (index : Z) : result (list bytes) :=
  if negb (in_range index (size t)) then Err IndexError else Ok (audit_path_of (Z.to_nat index) (leaves t)).

Definition tree_consistency_proof (t : tree) (old_size : Z) : result (list bytes) :=
  if (old_size <? 1) || (size t <? old_size) then Err (ValueError "old_size out of range")
  else if old_size =? size t then Ok []
  else Ok (subproof (Z.to_nat old_size) (leaves t) true).

(** ** InclusionProof.verify.  A negative index or size goes left at every
    level, or stops at once, as the size 0 does. *)
Definition verify (p : InclusionProof) (data claimed_root : bytes) : bool :=
  if negb (bool_decide (root_hash p = claimed_root)) then false
  else bool_decide (verify_inclusion (Z.to_nat (leaf_index p)) (Z.to_nat (tree_size p))
                      (leaf_hash data) (audit_path p) = claimed_root).

Definition path_length (p : InclusionProof) : nat := length (audit_path p).

(** ** SignedTreeHead *)
Definition sth_payload (sequence tree_size : Z) (ts : Float64.float64) (root : bytes) : result bytes :=
  a ← struct_pack 8 sequence; b ← struct_pack 8 tree_size; c ← struct_pack 8 ts; Ok (a ++ b ++ c ++ root).

Definition signable_payload (s : SignedTreeHead) : result bytes :=
  sth_payload (sth_sequence s) (sth_tree_size s) (sth_timestamp s) (sth_root_hash s).

Definition sth_canonical_bytes (s : SignedTreeHead) : result bytes :=
  encode Domain.DOMAIN_STH_SIGN [U64 (sth_sequence s); U64 (sth_tree_size s); F64 (sth_timestamp s);
    Raw (sth_root_hash s); LP (sth_operator_vk s)].

Definition sth_verify (s : SignedTreeHead) : result bool :=
  payload ← signable_payload s; MLDSA_verify pq profile (sth_operator_vk s) payload (sth_signature s).

Definition sth_sign (sequence tree_size : Z) (root operator_vk : bytes) (operator_sk : signer)
  (ts : Float64.float64) : result SignedTreeHead :=
  payload ← sth_payload sequence tree_size ts root;
  signature ← sign_with pq profile operator_sk payload;
  Ok {| sth_sequence := sequence; sth_tree_size := tree_size; sth_timestamp := ts;
        sth_root_hash := root; sth_operator_vk := operator_vk; sth_signature := signature |}.

(** ** MerkleLog *)
Definition new_log (vk : bytes) (sk : signer) : log :=
  {| log_tree := new_tree; log_records := []; log_vk := vk; log_sk := sk; log_sths := []; log_sequence := 0 |}.

Definition with_tree (l : log) (t : tree) : log :=
  {| log_tree := t; log_records := log_records l; log_vk := log_vk l; log_sk := log_sk l;
     log_sths := log_sths l; log_sequence := log_sequence l |}.

Definition log_size (l : log) : Z := size (log_tree l).
Definition latest_sth (l : log) : option SignedTreeHead := last (log_sths l).

Definition log_append (l : log) (record : bytes) : result (Z * log) :=
  '(idx, t) ← tree_append (log_tree l) record;
  Ok (idx, {| log_tree := t; log_records := log_records l ++ [record]; log_vk := log_vk l;
              log_sk := log_sk l; log_sths := log_sths l; log_sequence := log_sequence l |}).

Definition publish_sth (l : log) (ts : Float64.float64) : result (SignedTreeHead * log) :=
  let '(root, t) := tree_root (log_tree l) in
  sth ← sth_sign (log_sequence l) (log_size l) root (log_vk l) (log_sk l) ts;
  Ok (sth, {| log_tree := t; log_records := log_records l; log_vk := log_vk l; log_sk := log_sk l;
              log_sths := log_sths l ++ [sth]; log_sequence := log_sequence l + 1 |}).

Definition inclusion_proof (l : log) (index : Z) : result (InclusionProof * log) :=
  path ← tree_audit_path (log_tree l) index;
  let '(root, t) := tree_root (log_tree l) in
  Ok ({| leaf_index := index; tree_size := log_size l; audit_path := path; root_hash := root |}, with_tree l t).

Definition get_record (l : log) (index : Z) : result bytes :=
  if negb (in_range index (Z.of_nat (length (log_records l)))) then Err IndexError
  else Ok (log_records l !!! Z.to_nat index).

Definition detect_equivocation (s1 s2 : SignedTreeHead) : result bool :=
  if negb (sth_sequence s1 =? sth_sequence s2) then Ok false
  else
    v1 ← sth_verify s1;
    if negb v1 then Ok false
    else
      v2 ← sth_verify s2;
      if negb v2 then Ok false
      else Ok (negb (bool_decide (sth_root_hash s1 = sth_root_hash s2))).

Definition consistency_proof (l : log) (old_size : Z) : result (list bytes) :=
  tree_consistency_proof (log_tree l) old_size.

Definition verify_append_only (l : log) (older newer : SignedTreeHead) : result bool :=
  v1 ← sth_verify older;
  if negb v1 then Ok false
  else
    v2 ← sth_verify newer;
    if negb v2 then Ok false
    else if sth_sequence newer <=? sth_sequence older then Ok false
    else if sth_tree_size newer <? sth_tree_size older then Ok false
    else if sth_tree_size older =? 0 then Ok (bool_decide (sth_root_hash older = chash []))
    else
      proof ← tree_consistency_proof (log_tree l) (sth_tree_size older);
      Ok (verify_consistency (Z.to_nat (sth_tree_size older)) (Z.to_nat (sth_tree_size newer))
            (sth_root_hash older) (sth_root_hash newer) proof).

(** ** Specification: the root of a list of records *)
Definition root_of (rs : list bytes) : bytes :=
  match rs with [] => chash [] | _ => mth (map leaf_hash rs) end.

(** ** The log as a state machine *)
Inductive log_step : log -> log -> Prop :=
| step_append l r i l' : log_append l r = Ok (i, l') -> log_step l l'
| step_publish l ts s l' : publish_sth l ts = Ok (s, l') -> log_step l l'
| step_proof l i p l' : inclusion_proof l i = Ok (p, l') -> log_step l l'.

Definition reachable (vk : bytes) (sk : signer) (l : log) : Prop := rtc log_step (new_log vk sk) l.

(** ** Invariants *)
Definition cache_ok (t : tree) : Prop :=
  match cached_root t with
  | None => True
  | Some r => (1 <= cache_leaf_count t <= length (leaves t))%nat /\
              r = mth (take (cache_leaf_count t) (leaves t))
  end.

(** A tree head published when the log held its first [tree_size] records. *)
Definition sth_ok (l : log) (i : nat) (s : SignedTreeHead) : Prop :=
  sth_sequence s = Z.of_nat i /\ 0 <= sth_tree_size s <= log_size l /\
  sth_root_hash s = root_of (take (Z.to_nat (sth_tree_size s)) (log_records l)) /\
  sth_verify s = Ok true.

Record log_inv (vk : bytes) (sk : signer) (l : log) : Prop := {
  inv_leaves : leaves (log_tree l) = map leaf_hash (log_records l);
  inv_cache : cache_ok (log_tree l);
  inv_capacity : log_size l <= CAPACITY;
  inv_vk : log_vk l = vk;
  inv_sk : log_sk l = sk;
  inv_sequence : log_sequence l = Z.of_nat (length (log_sths l));
  inv_sths : forall i s, log_sths l !! i = Some s -> sth_ok l i s;
  inv_sizes : forall i j s s', (i <= j)%nat -> log_sths l !! i = Some s -> log_sths l !! j = Some s' ->
                sth_tree_size s <= sth_tree_size s'
}.

Lemma tree_root_spec t : cache_ok t ->
  (tree_root t).1 = match leaves t with [] => chash [] | _ => mth (leaves t) end /\
  leaves (tree_root t).2 = leaves t /\ cache_ok (tree_root t).2.
Proof.
  unfold tree_root, cache_ok. destruct (leaves t) as [|x xs] eqn:El; intros Hc; [simpl; by rewrite El|].
  destruct (cached_root t) as [r|] eqn:Er.
  - destruct ((length (x :: xs) =? cache_leaf_count t)%nat && _) eqn:Ec.
    + breflect. destruct Hc as [Hn ->]. simpl fst; simpl snd. rewrite Er, El, take_ge by lia.
      split_and!; done || lia.
    + simpl. rewrite firstn_all. split_and!; done || lia.
  - simpl. rewrite firstn_all. split_and!; done || lia.
Qed.

Lemma root_of_leaves rs : match map leaf_hash rs with [] => chash [] | _ => mth (map leaf_hash rs) end = root_of rs.
Proof. by destruct rs. Qed.

Lemma sth_verify_signed seq n root vk sk ts s : signs_for pq profile sk vk ->
  sth_sign seq n root vk sk ts = Ok s -> sth_verify s = Ok true.
Proof.
  intros Hs. unfold sth_sign, sth_verify, mbind, result_bind.
  destruct (sth_payload seq n ts root) as [p|] eqn:Ep; [|done].
  destruct (Hs p) as (sig & -> & Hv). intros <-%Ok_inj. unfold signable_payload. simpl. by rewrite Ep.
Qed.

Lemma sth_sign_fields seq n root vk sk ts s : sth_sign seq n root vk sk ts = Ok s ->
  sth_sequence s = seq /\ sth_tree_size s = n /\ sth_root_hash s = root /\ sth_operator_vk s = vk.
Proof.
  unfold sth_sign, mbind, result_bind. destruct (sth_payload _ _ _ _); [|done].
  destruct (sign_with _ _ _ _); [|done]. by intros <-%Ok_inj.
Qed.

Lemma log_size_records vk sk l : log_inv vk sk l -> log_size l = Z.of_nat (length (log_records l)).
Proof. intros Hi. unfold log_size, size. by rewrite (inv_leaves _ _ _ Hi), length_map. Qed.

Lemma inv_new vk sk : log_inv vk sk (new_log vk sk).
Proof. split; try done. Qed.

Lemma inv_append vk sk l r i l' : log_inv vk sk l -> log_append l r = Ok (i, l') ->
  log_inv vk sk l' /\ i = log_size l /\ log_records l' = log_records l ++ [r] /\ log_sths l' = log_sths l.
Proof.
  intros Hi. unfold log_append, tree_append, mbind, result_bind.
  destruct (Z.leb_spec CAPACITY (size (log_tree l))); [done|]. intros [= <- <-].
  assert (size (log_tree l) = Z.of_nat (length (log_records l))) as Hsz by (by apply log_size_records in Hi).
  split; [|split_and!; [unfold log_size, size; simpl; rewrite length_app; simpl; lia|done..]].
  destruct Hi as [Hl Hc Hcap Hvk Hsk Hseq Hsths Hsizes].
  split; simpl; try done.
  - by rewrite Hl, map_app.
  - unfold cache_ok in *. simpl. destruct (cached_root (log_tree l)); [|done].
    destruct Hc as [? ->]. rewrite length_app, take_app_le by lia. split; [lia|done].
  - unfold log_size, size. simpl. rewrite length_app. simpl. unfold size in *. lia.
  - intros j s Hj. destruct (Hsths j s Hj) as (? & Hb & Hr & ?). unfold log_size in Hb.
    split; [done|]. split; [|split; [|done]].
    + unfold log_size, size in *. simpl. rewrite length_app. lia.
    + rewrite Hr. simpl. rewrite take_app_le by lia. done.
Qed.

Lemma with_tree_inv vk sk l t : log_inv vk sk l -> leaves t = leaves (log_tree l) -> cache_ok t ->
  log_inv vk sk (with_tree l t).
Proof.
  intros [Hl Hc Hcap Hvk Hsk Hseq Hsths Hsizes] El Hct.
  split; simpl; try done; unfold sth_ok, log_size, size in *; simpl; by rewrite El.
Qed.

Lemma inv_publish vk sk l ts s l' : signs_for pq profile sk vk ->
  log_inv vk sk l -> publish_sth l ts = Ok (s, l') ->
  log_inv vk sk l' /\ log_records l' = log_records l /\ log_sths l' = log_sths l ++ [s] /\
  sth_ok l' (length (log_sths l)) s /\ sth_tree_size s = log_size l.
Proof.
  intros Hs Hi. unfold publish_sth. pose proof (log_size_records _ _ _ Hi) as Hsz.
  pose proof (tree_root_spec _ (inv_cache _ _ _ Hi)) as (Hr & Ht & Hc).
  rewrite (inv_leaves _ _ _ Hi), root_of_leaves in Hr.
  destruct (tree_root (log_tree l)) as [root t]. simpl in Hr, Ht, Hc. unfold mbind, result_bind.
  destruct (sth_sign _ _ _ _ _ _) as [s0|] eqn:Es; [|done]. intros [= -> <-].
  rewrite (inv_vk _ _ _ Hi), (inv_sk _ _ _ Hi) in Es.
  apply sth_verify_signed in Es as Hv; [|done]. apply sth_sign_fields in Es as (E1 & E2 & E3 & E4).
  pose proof (with_tree_inv _ _ l t Hi Ht Hc) as Hi'. destruct Hi' as [Hl' Hc' Hcap' Hvk' Hsk' Hseq' Hsths' Hsizes'].
  unfold log_size in *. simpl in *.
  assert (size t = Z.of_nat (length (log_records l))) as Hst by (unfold size in *; rewrite Ht; done).
  assert (sth_ok {| log_tree := t; log_records := log_records l; log_vk := log_vk l; log_sk := log_sk l;
     log_sths := log_sths l ++ [s]; log_sequence := log_sequence l + 1 |} (length (log_sths l)) s) as Hok.
  { split; [congruence|]. unfold log_size; simpl. split; [lia|]. split; [|done].
    rewrite E3, E2, Hsz, Nat2Z.id, take_ge; done. }
  split; [|done]. split; simpl; try done.
  - rewrite length_app. simpl. lia.
  - intros j s' Hj. apply lookup_snoc_Some in Hj as [[_ Hj]|[-> <-]]; [|done]. exact (Hsths' j s' Hj).
  - intros j k s1 s2 Hjk H1 H2.
    apply lookup_snoc_Some in H1 as [[Hb1 H1]|[-> <-]]; apply lookup_snoc_Some in H2 as [[Hb2 H2]|[-> <-]].
    + by apply (Hsizes' j k).
    + destruct (Hsths' j s1 H1) as (_ & Hb & _). unfold log_size in Hb. simpl in Hb. lia.
    + lia.
    + lia.
Qed.

Lemma inclusion_proof_Ok vk sk l i : log_inv vk sk l -> 0 <= i < log_size l ->
  exists p l', inclusion_proof l i = Ok (p, l') /\ log_inv vk sk l' /\
    log_records l' = log_records l /\ log_sths l' = log_sths l /\
    p = {| leaf_index := i; tree_size := log_size l;
           audit_path := audit_path_of (Z.to_nat i) (map leaf_hash (log_records l));
           root_hash := root_of (log_records l) |}.
Proof.
  intros Hi Hr. unfold inclusion_proof, tree_audit_path, in_range, log_size in *.
  destruct (Z.leb_spec 0 i), (Z.ltb_spec i (size (log_tree l))); try lia. simpl.
  unfold mbind, result_bind. pose proof (tree_root_spec _ (inv_cache _ _ _ Hi)) as (Ht & Hl & Hc).
  destruct (tree_root (log_tree l)) as [root t]. simpl in Ht, Hl, Hc.
  do 2 eexists. split; [done|]. split; [by apply with_tree_inv|]. split; [done|]. split; [done|].
  by rewrite Ht, (inv_leaves _ _ _ Hi), root_of_leaves.
Qed.

Lemma inv_step vk sk l l' : signs_for pq profile sk vk -> log_inv vk sk l -> log_step l l' -> log_inv vk sk l'.
Proof.
  intros Hs Hi Hst. destruct Hst as [l r i l' E|l ts s l' E|l i p l' E].
  - by eapply inv_append.
  - by eapply inv_publish.
  - unfold inclusion_proof, mbind, result_bind in E. destruct (tree_audit_path _ _); [|done].
    pose proof (tree_root_spec _ (inv_cache _ _ _ Hi)) as (_ & Hl & Hc).
    destruct (tree_root (log_tree l)) as [root t]. injection E as <- <-. by apply with_tree_inv.
Qed.

Lemma reachable_inv vk sk l : signs_for pq profile sk vk -> reachable vk sk l -> log_inv vk sk l.
Proof.
  intros Hs Hr. unfold reachable in Hr. pose proof (inv_new vk sk) as Hi.
  induction Hr as [|l1 l2 l3 Hst Hr IH]; [done|]. apply IH. by eapply inv_step.
Qed.


(** ** Hash inputs at stake when a proof is checked against a record list *)
Definition log_inputs (rs : list bytes) : list bytes :=
  match rs with [] => [[]] | _ => tree_inputs rs end.
Definition proof_steps (p : InclusionProof) : list (bool * bytes) :=
  zip (rev (directions (Z.to_nat (leaf_index p)) (Z.to_nat (tree_size p)))) (audit_path p).
Definition proof_inputs (p : InclusionProof) (data : bytes) : list bytes :=
  (0 :: data) :: walk_inputs (leaf_hash data) (proof_steps p).

Lemma verify_true p data root :
  verify p data root = true <-> root_hash p = root /\ walk (leaf_hash data) (proof_steps p) = root.
Proof.
  unfold verify. case_bool_decide; simpl; [|naive_solver].
  rewrite bool_decide_eq_true. unfold verify_inclusion, proof_steps. naive_solver.
Qed.

Lemma map_fst_zip {A B} (xs : list A) (ys : list B) : (length xs <= length ys)%nat -> map fst (zip xs ys) = xs.
Proof. intros. by apply fst_zip. Qed.

(** Completeness of inclusion proofs.  In every reachable log, the proof
    for an index in range exists, verifies the stored record against the
    log's root (whatever was cached), has at most [log2] of the size many
    hashes, and asking for it does not change the records. *)
Theorem inclusion_complete vk sk l i :
  signs_for pq profile sk vk -> reachable vk sk l -> 0 <= i < log_size l ->
  exists p l' r, inclusion_proof l i = Ok (p, l') /\ get_record l i = Ok r /\
    (tree_root (log_tree l)).1 = root_of (log_records l) /\
    verify p r (root_of (log_records l)) = true /\
    (path_length p <= Nat.log2_up (Z.to_nat (log_size l)))%nat /\
    log_records l' = log_records l.
Proof.
  intros Hs Hr Hi. apply reachable_inv in Hr; [|done]. pose proof (log_size_records _ _ _ Hr) as Hsz.
  destruct (inclusion_proof_Ok vk sk l i Hr Hi) as (p & l' & E & _ & Hrec & _ & Hp).
  exists p, l', (log_records l !!! Z.to_nat i). split; [done|].
  assert (Z.to_nat i < length (map leaf_hash (log_records l)))%nat as Hlt by (rewrite length_map; lia).
  split_and!; [| | | |done].
  - unfold get_record, in_range.
    destruct (Z.leb_spec 0 i), (Z.ltb_spec i (Z.of_nat (length (log_records l)))); done || lia.
  - pose proof (tree_root_spec _ (inv_cache _ _ _ Hr)) as (-> & _). by rewrite (inv_leaves _ _ _ Hr), root_of_leaves.
  - apply verify_true. subst p. simpl. split; [done|].
    pose proof (verify_inclusion_complete _ _ Hlt) as Hc. unfold verify_inclusion in Hc.
    unfold proof_steps. simpl. rewrite length_map in Hc. rewrite Hsz, Nat2Z.id.
    rewrite <- root_of_leaves. destruct (log_records l) as [|r rs]; [simpl in Hlt; lia|].
    rewrite lookup_total_map in Hc by (rewrite <- (length_map leaf_hash); done). exact Hc.
  - subst p. unfold path_length. simpl. rewrite audit_path_length, length_map, Hsz, Nat2Z.id.
    apply directions_log2. rewrite <- (length_map leaf_hash). done.
Qed.

(** C13: soundness of inclusion proofs.  When a proof (any fields) verifies
    [data] against the root of the records [rs], and the hash has no
    collision among the strings hashed to build the root and to check the
    proof, then [data] is one of the records; and if the proof's size is the
    log's and its path is as long as the index demands, it is the record at
    the claimed index. *)
Theorem inclusion_sound rs p data :
  verify p data (root_of rs) = true ->
  collision_free (proof_inputs p data ++ log_inputs rs) ->
  data ∈ rs /\
  (tree_size p = Z.of_nat (length rs) -> 0 <= leaf_index p < tree_size p ->
   (length (directions (Z.to_nat (leaf_index p)) (length rs)) <= path_length p)%nat ->
   rs !! Z.to_nat (leaf_index p) = Some data).
Proof.
  intros [_ Hw]%verify_true Hcf. unfold proof_inputs in Hcf. destruct rs as [|r rs].
  { exfalso. unfold root_of in Hw. simpl in Hcf. destruct (proof_steps p) as [|[b x] steps _] using rev_ind.
    - apply Hcf in Hw; [done|set_solver..].
    - rewrite walk_snoc in Hw. rewrite walk_inputs_snoc in Hcf.
      destruct b; apply Hcf in Hw; done || set_solver. }
  destruct (walk_sound (r :: rs) data (proof_steps p)) as (i & Hi & Hd); [done|exact Hcf|exact Hw|].
  split; [by eapply list_elem_of_lookup_2|]. intros Hsz Hix Hlen.
  unfold proof_steps in Hd. rewrite Hsz, Nat2Z.id, map_fst_zip in Hd
    by (rewrite length_rev; done).
  apply (f_equal (@rev bool)) in Hd. rewrite !rev_involutive in Hd.
  apply directions_inj in Hd; [by rewrite Hd|lia|by eapply lookup_lt_Some].
Qed.

(** The path length is not checked.  Against the root of three records,
    a one-hash proof that claims index 1 is accepted for the record at index
    2, for any records and any hash; so is the honest proof for index 2 with
    arbitrary hashes appended to its path.  Nor is the size: with the size
    forged to 2, the record at index 2 passes for index 1 on a full path. *)
Theorem misplaced_proof_accepted r0 r1 r2 extra :
  let h01 := node_hash (leaf_hash r0) (leaf_hash r1) in
  let root := root_of [r0; r1; r2] in
  let proof ix path := {| leaf_index := ix; tree_size := 3; audit_path := path; root_hash := root |} in
  verify (proof 1 [h01]) r2 root = true /\ verify (proof 2 (h01 :: extra)) r2 root = true /\
  verify {| leaf_index := 1; tree_size := 2; audit_path := h01 :: extra; root_hash := root |} r2 root = true.
Proof. repeat split; apply verify_true; split; reflexivity. Qed.

(** C15: completeness of the append-only check.  In every reachable log, two
    published tree heads, the later one taken at the log's current size, are
    found consistent. *)
Theorem append_only_complete vk sk l i j s s' :
  signs_for pq profile sk vk -> reachable vk sk l -> (i < j)%nat ->
  log_sths l !! i = Some s -> log_sths l !! j = Some s' -> sth_tree_size s' = log_size l ->
  verify_append_only l s s' = Ok true.
Proof.
  intros Hs Hr Hij E E' Hcur. apply reachable_inv in Hr; [|done].
  pose proof (log_size_records _ _ _ Hr) as Hsz.
  destruct (inv_sths _ _ _ Hr i s E) as (Hseq & Hb & Hroot & Hv).
  destruct (inv_sths _ _ _ Hr j s' E') as (Hseq' & Hb' & Hroot' & Hv').
  unfold verify_append_only. rewrite Hv, Hv'. unfold mbind, result_bind. simpl.
  destruct (Z.leb_spec (sth_sequence s') (sth_sequence s)); [lia|].
  destruct (Z.ltb_spec (sth_tree_size s') (sth_tree_size s)); [lia|].
  destruct (Z.eqb_spec (sth_tree_size s) 0) as [Hz|Hz].
  - rewrite Hroot, Hz. simpl. by rewrite bool_decide_eq_true_2.
  - unfold tree_consistency_proof. fold (log_size l).
    destruct (Z.ltb_spec (sth_tree_size s) 1); [lia|]. destruct (Z.ltb_spec (log_size l) (sth_tree_size s)); [lia|].
    simpl. pose proof (verify_consistency_complete (Z.to_nat (sth_tree_size s)) (map leaf_hash (log_records l))) as Hc.
    rewrite length_map in Hc. specialize (Hc ltac:(lia)).
    assert (root_of (take (Z.to_nat (sth_tree_size s)) (log_records l)) =
            mth (take (Z.to_nat (sth_tree_size s)) (map leaf_hash (log_records l)))) as Er.
    { rewrite firstn_map. destruct (take _ (log_records l)) eqn:Em; [|done].
      apply (f_equal length) in Em. rewrite length_take in Em. simpl in Em. lia. }
    assert (root_of (take (Z.to_nat (sth_tree_size s')) (log_records l)) = mth (map leaf_hash (log_records l))) as Er'.
    { rewrite Hcur, Hsz, Nat2Z.id, firstn_all, <- root_of_leaves. destruct (log_records l); [simpl in Hsz; lia|done]. }
    rewrite Hroot, Hroot', Er, Er', Hcur, Hsz, Nat2Z.id, (inv_leaves _ _ _ Hr).
    destruct (Z.eqb_spec (sth_tree_size s) (Z.of_nat (length (log_records l)))) as [Heq|Hne].
    + destruct (Nat.eqb_spec (Z.to_nat (sth_tree_size s)) (length (log_records l))); [|lia]. by rewrite Hc.
    + destruct (Nat.eqb_spec (Z.to_nat (sth_tree_size s)) (length (log_records l))); [lia|]. by rewrite Hc.
Qed.

(** The strings hashed by [verify_consistency]. *)
Definition consistency_inputs (old_root : bytes) (m n : nat) (proof : list bytes) : list bytes :=
  verify_rec_inputs n old_root m n true proof.

(** C14: soundness of consistency proofs.  When [verify_consistency] accepts
    any proof between the roots of two record lists of the given sizes, and
    the hash has no collision among the strings hashed, the older records are
    the first records of the newer list: nothing was rewritten. *)
Theorem consistency_sound old new proof :
  verify_consistency (length old) (length new) (root_of old) (root_of new) proof = true ->
  collision_free (tree_inputs old ++ tree_inputs new ++
                  consistency_inputs (root_of old) (length old) (length new) proof) ->
  old = take (length old) new.
Proof.
  unfold verify_consistency. destruct (Nat.ltb_spec (length old) 1); [done|].
  destruct (Nat.ltb_spec (length new) (length old)); [done|]. simpl.
  assert (root_of old = mth (map leaf_hash old)) as Eo by (destruct old; [simpl in *; lia|done]).
  assert (root_of new = mth (map leaf_hash new)) as En by (destruct new; [simpl in *; lia|done]).
  intros Hv Hcf.
  enough (map leaf_hash old = take (length old) (map leaf_hash new)) as Em.
  { rewrite firstn_map in Em. clear Hv. revert Em. generalize (length old) as k. intros k Em.
    assert (forall x, x ∈ take k new -> x ∈ new) as Hin.
    { intros x (i & Hx)%list_elem_of_lookup_1. apply lookup_take_Some in Hx as [Hx _].
      by eapply list_elem_of_lookup_2. }
    apply list_eq. intros i. apply (f_equal (lookup i)) in Em. rewrite !lookup_map in Em.
    destruct (old !! i) as [a|] eqn:Ea, (take k new !! i) as [b|] eqn:Eb; try done.
    f_equal. apply (inj (cons 0)). apply Hcf; [..|by injection Em].
    - rewrite elem_of_app. left. unfold tree_inputs, leaf_inputs. rewrite elem_of_app. left.
      apply elem_of_map. eexists. split; [done|]. by eapply list_elem_of_lookup_2.
    - rewrite !elem_of_app. right. left. unfold tree_inputs, leaf_inputs. rewrite elem_of_app. left.
      apply elem_of_map. eexists. split; [done|]. eapply Hin, list_elem_of_lookup_2; done. }
  unfold tree_inputs in Hcf. destruct (Nat.eqb_spec (length old) (length new)) as [El|Hne].
  - breflect. rewrite take_ge by (rewrite length_map; lia).
    apply mth_inj; rewrite ?length_map; auto using leaf_hashes_length; [|congruence].
    eapply collision_free_sub, Hcf. set_solver.
  - destruct (verify_rec _ _ _ _ _ _) as [[[oh nh] rest]|] eqn:Ev; [|done]. breflect.
    eapply (verify_rec_sound _ _ _ _ _ _ _ _ _ (map leaf_hash old) (map leaf_hash new) Ev);
      rewrite ?length_map; auto using leaf_hashes_length; try lia; try congruence.
    unfold consistency_inputs in Hcf. eapply collision_free_sub, Hcf. set_solver.
Qed.

(** [verify_append_only] builds its proof from the current tree, not
    from the newer tree head's size.  Once a log has grown to three records,
    its honest tree heads of sizes 1 and 2 are reported as inconsistent. *)
Theorem append_only_stale vk sk l r0 r1 r2 i j s s' :
  signs_for pq profile sk vk -> reachable vk sk l -> log_records l = [r0; r1; r2] -> (i < j)%nat ->
  log_sths l !! i = Some s -> log_sths l !! j = Some s' ->
  sth_tree_size s = 1 -> sth_tree_size s' = 2 ->
  verify_append_only l s s' = Ok false.
Proof.
  intros Hs Hr Hrec Hij E E' Hz Hz'. apply reachable_inv in Hr; [|done].
  destruct (inv_sths _ _ _ Hr i s E) as (Hseq & Hb & Hroot & Hv).
  destruct (inv_sths _ _ _ Hr j s' E') as (Hseq' & Hb' & Hroot' & Hv').
  unfold verify_append_only. rewrite Hv, Hv'. unfold mbind, result_bind. simpl.
  rewrite Hroot, Hroot', Hz, Hz', Hrec. destruct (Z.leb_spec (sth_sequence s') (sth_sequence s)); [lia|].
  unfold tree_consistency_proof, size. rewrite (inv_leaves _ _ _ Hr), Hrec. simpl length.
  change (verify_consistency 1 2 (leaf_hash r0) (node_hash (leaf_hash r0) (leaf_hash r1))
            [leaf_hash r1; leaf_hash r2]) with (bool_decide (leaf_hash r0 = leaf_hash r0) &&
    bool_decide (node_hash (leaf_hash r0) (leaf_hash r1) = node_hash (leaf_hash r0) (leaf_hash r1)) && false).
  apply (f_equal Ok), andb_false_r.
Qed.

(** Equivocation.  An honest log never equivocates: no two tree heads it
    published are reported, in whatever order its operations were called;
    while two valid tree heads with the same sequence number and different
    roots always are. *)
Theorem equivocation_exact vk sk l s s' :
  signs_for pq profile sk vk -> reachable vk sk l ->
  (s ∈ log_sths l -> s' ∈ log_sths l -> detect_equivocation s s' = Ok false) /\
  (forall t t', sth_sequence t = sth_sequence t' -> sth_verify t = Ok true -> sth_verify t' = Ok true ->
     sth_root_hash t <> sth_root_hash t' -> detect_equivocation t t' = Ok true).
Proof.
  intros Hs Hr. apply reachable_inv in Hr; [|done]. split.
  - intros [i Hi]%list_elem_of_lookup_1 [j Hj]%list_elem_of_lookup_1.
    destruct (inv_sths _ _ _ Hr i s Hi) as (Hseq & _ & _ & Hv).
    destruct (inv_sths _ _ _ Hr j s' Hj) as (Hseq' & _ & _ & Hv').
    unfold detect_equivocation. destruct (Z.eqb_spec (sth_sequence s) (sth_sequence s')) as [Heq|]; [|done].
    rewrite Hv, Hv'. unfold mbind, result_bind. simpl. assert (i = j) as <- by lia.
    rewrite Hi in Hj. injection Hj as <-. by rewrite bool_decide_eq_true_2.
  - intros t t' Hseq Hv Hv' Hne. unfold detect_equivocation. rewrite Hseq, Z.eqb_refl, Hv, Hv'.
    unfold mbind, result_bind. simpl. by rewrite bool_decide_eq_false_2.
Qed.
End Log.

(** * portable_proof.py *)
Module Portable.
Import Domain.

Inductive TreeType : Type := COMMITMENT_LOG | SHARD_TREE.
Definition tree_type_value (t : TreeType) : pystr :=
  match t with COMMITMENT_LOG => lit "commitment_log" | SHARD_TREE => lit "shard_tree" end.

Record PortableMerkleProof : Type := {
  p_version : Z;
  p_tree_type : TreeType;
  p_leaf_index : Z;
  p_tree_size : Z;
  p_leaf_hash : bytes;
  p_root_hash : bytes;
  p_path : list bytes;
  p_path_directions : list bool
}.

(** [_compute_directions] *)
Definition compute_directions (index tree_size : Z) : list bool :=
  rev (directions (Z.to_nat index) (Z.to_nat tree_size)).

(** One byte of packed directions: direction [j] of eight is bit [7 - j]. *)
Definition direction_byte (ds : list bool) : Z :=
  fold_left (fun b j => match ds !! j with
                        | Some true => Z.lor b (Z.shiftl 1 (7 - Z.of_nat j))
                        | _ => b
                        end) (seq 0 8) 0.

Fixpoint pack_directions (fuel : nat) (ds : list bool) : bytes :=
  match fuel, ds with
  | S fuel, _ :: _ => direction_byte (take 8 ds) :: pack_directions fuel (drop 8 ds)
  | _, _ => []
  end.

Section Portable.
Context `{CanonicalHash}.

Definition portable_verify (p : PortableMerkleProof) : bool :=
  if negb (length (p_path p) =? length (p_path_directions p))%nat then false
  else if (length (p_path p) =? 0)%nat && (p_tree_size p =? 1)
  then bool_decide (p_leaf_hash p = p_root_hash p)
  else bool_decide (verify_inclusion (Z.to_nat (p_leaf_index p)) (Z.to_nat (p_tree_size p))
                      (p_leaf_hash p) (p_path p) = p_root_hash p).

Definition portable_canonical_bytes (p : PortableMerkleProof) : result bytes :=
  encode DOMAIN_COMMIT_RECORD
    ([U8 (p_version p); Str (tree_type_value (p_tree_type p)); U64 (p_leaf_index p); U64 (p_tree_size p);
      Raw (p_leaf_hash p); Raw (p_root_hash p); U32 (Z.of_nat (length (p_path p)))]
     ++ map Raw (p_path p)
     ++ U32 (Z.of_nat (length (p_path_directions p)))
        :: map (fun d : bool => U8 (if d then 1 else 0)) (p_path_directions p)).

Definition to_compact_bytes (p : PortableMerkleProof) : result bytes :=
  ix ← struct_pack 8 (p_leaf_index p);
  n ← struct_pack 8 (p_tree_size p);
  count ← struct_pack 4 (Z.of_nat (length (p_path p)));
  Ok (ix ++ n ++ p_leaf_hash p ++ p_root_hash p ++ count ++ concat (p_path p)
      ++ pack_directions (length (p_path_directions p)) (p_path_directions p)).

Definition from_inclusion_proof (proof : InclusionProof) (tree_type : TreeType) (data : bytes)
  : PortableMerkleProof :=
  {| p_version := 1; p_tree_type := tree_type; p_leaf_index := leaf_index proof;
     p_tree_size := tree_size proof; p_leaf_hash := leaf_hash data; p_root_hash := root_hash proof;
     p_path := audit_path proof;
     p_path_directions := compute_directions (leaf_index proof) (tree_size proof) |}.

(** The portable form of an inclusion proof verifies exactly when the
    original verifies against its own root and its path has the length the
    index and size demand; the conversion therefore adds the length check
    that [InclusionProof.verify] does not make. *)
Theorem portable_exact proof tree_type data :
  portable_verify (from_inclusion_proof proof tree_type data) = true <->
  verify proof data (root_hash proof) = true /\
  path_length proof = length (directions (Z.to_nat (leaf_index proof)) (Z.to_nat (tree_size proof))).
Proof.
  rewrite verify_true. unfold portable_verify, from_inclusion_proof, path_length, compute_directions. simpl.
  rewrite length_rev. unfold verify_inclusion, proof_steps.
  destruct (Nat.eqb_spec (length (audit_path proof))
    (length (directions (Z.to_nat (leaf_index proof)) (Z.to_nat (tree_size proof))))) as [El|]; simpl; [|naive_solver].
  destruct ((length (audit_path proof) =? 0)%nat && _) eqn:E; rewrite bool_decide_eq_true; [|naive_solver].
  breflect. destruct (audit_path proof); [|done]. rewrite zip_with_nil_r. simpl. naive_solver.
Qed.

Lemma direction_byte_unpack ds : (length ds <= 8)%nat ->
  map (fun j => Z.testbit (direction_byte ds) (7 - Z.of_nat j)) (seq 0 (length ds)) = ds.
Proof.
  destruct ds as [|b0 [|b1 [|b2 [|b3 [|b4 [|b5 [|b6 [|b7 [|b8 ds]]]]]]]]]; simpl length; intros Hl; [..|lia];
    repeat match goal with b : bool |- _ => destruct b end; reflexivity.
Qed.

Lemma direction_byte_inj ds es : length ds = length es -> (length ds <= 8)%nat ->
  direction_byte ds = direction_byte es -> ds = es.
Proof.
  intros Hl H8 E. rewrite <- (direction_byte_unpack ds), <- (direction_byte_unpack es) by lia.
  by rewrite Hl, E.
Qed.

Lemma pack_directions_inj fuel ds es : length ds = length es -> (length ds <= fuel)%nat ->
  pack_directions fuel ds = pack_directions fuel es -> ds = es.
Proof.
  revert ds es. induction fuel as [|fuel IH]; intros ds es Hl Hf E.
  { destruct ds, es; simpl in *; done || lia. }
  destruct ds as [|d ds], es as [|e es]; try done.
  cbn [pack_directions] in E. injection E as E1 E2.
  rewrite <- (take_drop 8 (d :: ds)), <- (take_drop 8 (e :: es)). f_equal.
  - apply direction_byte_inj; [rewrite !length_take; lia|apply firstn_le_length|done].
  - apply IH; rewrite ?length_drop; [lia|simpl in *; lia|done].
Qed.

Lemma concat_sized_inj n (xs ys : list bytes) : Forall (fun x => length x = n) xs ->
  Forall (fun x => length x = n) ys -> length xs = length ys -> concat xs = concat ys -> xs = ys.
Proof.
  intros Hx. revert ys. induction Hx as [|x xs Hx Hxs IH]; intros [|y ys] Hy Hl E; simpl in *; try done.
  inversion Hy; subst. apply app_inj_len in E as [-> E]; [|done]. f_equal. apply IH; done || lia.
Qed.

(** The hashes of a proof have the digest size, one direction per hash. *)
Definition portable_wf (p : PortableMerkleProof) : Prop :=
  length (p_leaf_hash p) = digest_size /\ length (p_root_hash p) = digest_size /\
  Forall (fun x => length x = digest_size) (p_path p) /\ length (p_path p) = length (p_path_directions p).

(** The compact on-chain form loses nothing but the version and the
    tree type: two well-formed portable proofs with the same compact bytes
    agree on index, size, hashes, path and directions. *)
Theorem compact_injective p q bs : portable_wf p -> portable_wf q ->
  to_compact_bytes p = Ok bs -> to_compact_bytes q = Ok bs ->
  p_leaf_index p = p_leaf_index q /\ p_tree_size p = p_tree_size q /\ p_leaf_hash p = p_leaf_hash q /\
  p_root_hash p = p_root_hash q /\ p_path p = p_path q /\ p_path_directions p = p_path_directions q.
Proof.
  intros (Hl & Hr & Hp & Hd) (Hl' & Hr' & Hp' & Hd'). unfold to_compact_bytes, mbind, result_bind.
  destruct (struct_pack 8 (p_leaf_index p)) eqn:E1; [|done]. destruct (struct_pack 8 (p_tree_size p)) eqn:E2; [|done].
  destruct (struct_pack 4 _) eqn:E3; [|done]. intros <-%Ok_inj.
  destruct (struct_pack 8 (p_leaf_index q)) eqn:E1'; [|done]. destruct (struct_pack 8 (p_tree_size q)) eqn:E2'; [|done].
  destruct (struct_pack 4 (Z.of_nat (length (p_path q)))) eqn:E3'; [|done]. intros E%Ok_inj.
  apply struct_pack_Ok in E1 as [? ->], E2 as [? ->], E3 as [? ->], E1' as [? ->], E2' as [? ->], E3' as [? ->].
  apply app_inj_len in E as [Ei E]; [|by rewrite !be_encode_length].
  apply app_inj_len in E as [En E]; [|by rewrite !be_encode_length].
  apply app_inj_len in E as [El E]; [|lia]. apply app_inj_len in E as [Er E]; [|lia].
  apply app_inj_len in E as [Ec E]; [|by rewrite !be_encode_length].
  apply be_encode_inj in Ei, En, Ec; try done.
  assert (length (p_path q) = length (p_path p)) as Elen by lia.
  assert (forall xs, Forall (fun x : bytes => length x = digest_size) xs ->
            length (concat xs) = (length xs * digest_size)%nat) as Hcl.
  { induction 1 as [|x xs Hx _ IH]; simpl; [done|]. rewrite length_app. lia. }
  apply app_inj_len in E as [Ep E]; [|rewrite !Hcl by done; lia].
  rewrite <- Hd, <- Hd', Elen in E. apply pack_directions_inj in E; [|lia..].
  by rewrite (concat_sized_inj digest_size (p_path q) (p_path p)) by done.
Qed.
End Portable.
End Portable.

(** * Running the log *)
Module Demo.

Inductive op : Type := OpAppend (r : bytes) | OpPublish (ts : Float64.float64) | OpProof (i : Z).

Definition exec (l : log) (o : op) : result log :=
  match o with
  | OpAppend r => '(_, l') ← log_append l r; Ok l'
  | OpPublish ts => '(_, l') ← publish_sth toy_pq demo_profile l ts; Ok l'
  | OpProof i => '(_, l') ← inclusion_proof l i; Ok l'
  end.

Lemma exec_reachable vk sk l ops l' : reachable toy_pq demo_profile vk sk l ->
  foldM exec l ops = Ok l' -> reachable toy_pq demo_profile vk sk l'.
Proof.
  revert l; induction ops as [|o ops IH]; intros l Hr E; simpl in E; [by apply Ok_inj in E as <-|].
  destruct (exec l o) as [l1|] eqn:E1; [|done]. apply (IH l1); [|done]. eapply rtc_r; [exact Hr|].
  destruct o; simpl in E1; unfold mbind, result_bind in E1.
  - destruct (log_append l r) as [[i l2]|] eqn:E2; [|done]. apply Ok_inj in E1 as <-. by eapply step_append.
  - destruct (publish_sth _ _ l ts) as [[s l2]|] eqn:E2; [|done]. apply Ok_inj in E1 as <-. by eapply step_publish.
  - destruct (inclusion_proof l i) as [[p l2]|] eqn:E2; [|done]. apply Ok_inj in E1 as <-. by eapply step_proof.
Qed.

Definition vk1 : bytes := demo_vk 1.
Definition sk1 : signer := RawKey (demo_sk 1).
Definition R0 : bytes := lit "r0".
Definition R1 : bytes := lit "r1".
Definition R2 : bytes := lit "r2".

Definition run (ops : list op) : log :=
  match foldM exec (new_log vk1 sk1) ops with Ok l => l | Err _ => new_log vk1 sk1 end.

(** Three records, tree heads at sizes 1, 2 and 3; and the same log with the
    last tree head not yet published. *)
Definition log2_ops : list op :=
  [OpAppend R0; OpPublish f64_epoch; OpAppend R1; OpProof 0; OpPublish f64_epoch; OpAppend R2].
Definition log_stale : log := run log2_ops.
Definition log_fresh : log := run (log2_ops ++ [OpPublish f64_epoch]).

Lemma signs1 : signs_for toy_pq demo_profile sk1 vk1.
Proof. apply dsa_pair_signs_raw, demo_dsa_pair. Qed.

Lemma run_reachable ops : reachable toy_pq demo_profile vk1 sk1 (run ops).
Proof.
  unfold run. destruct (foldM exec _ ops) as [l|] eqn:E; [|apply rtc_refl].
  eapply exec_reachable; [apply rtc_refl|exact E].
Qed.

Definition sth_at (l : log) (i : nat) : SignedTreeHead :=
  default {| sth_sequence := 0; sth_tree_size := 0; sth_timestamp := 0; sth_root_hash := [];
             sth_operator_vk := []; sth_signature := [] |} (log_sths l !! i).
End Demo.
Import Demo.

Lemma inclusion_complete_witness : exists p l' r,
  inclusion_proof log_stale 2 = Ok (p, l') /\ get_record log_stale 2 = Ok r /\
  (tree_root (log_tree log_stale)).1 = root_of (log_records log_stale) /\
  verify p r (root_of (log_records log_stale)) = true /\
  (path_length p <= Nat.log2_up (Z.to_nat (log_size log_stale)))%nat /\ log_records l' = log_records log_stale.
Proof.
  apply (inclusion_complete toy_pq demo_profile vk1 sk1); [exact signs1|apply run_reachable|].
  assert (log_size log_stale = 3) as -> by (by vm_compute). lia.
Defined.

Definition honest_proof (rs : list bytes) (i : Z) : InclusionProof :=
  {| leaf_index := i; tree_size := Z.of_nat (length rs);
     audit_path := audit_path_of (Z.to_nat i) (map leaf_hash rs); root_hash := root_of rs |}.

Lemma inclusion_sound_witness :
  let rs := [R0; R1; R2] in
  R1 ∈ rs /\
  (3 = 3 -> 0 <= 1 < 3 -> (length (directions 1 3) <= path_length (honest_proof rs 1))%nat -> rs !! 1%nat = Some R1).
Proof.
  apply (inclusion_sound [R0; R1; R2] (honest_proof [R0; R1; R2] 1) R1).
  - by vm_compute.
  - apply no_collision_spec. by vm_compute.
Defined.

Lemma append_only_complete_witness :
  verify_append_only toy_pq demo_profile log_fresh (sth_at log_fresh 0) (sth_at log_fresh 2) = Ok true.
Proof.
  apply (append_only_complete toy_pq demo_profile vk1 sk1 log_fresh 0 2);
    [exact signs1|apply run_reachable|lia|by vm_compute..].
Defined.

Lemma consistency_sound_witness : [R0; R1] = take 2 [R0; R1; R2].
Proof.
  apply (consistency_sound [R0; R1] [R0; R1; R2] (subproof 2 (map leaf_hash [R0; R1; R2]) true)).
  - by vm_compute.
  - apply no_collision_spec. by vm_compute.
Defined.

Lemma append_only_stale_witness :
  verify_append_only toy_pq demo_profile log_stale (sth_at log_stale 0) (sth_at log_stale 1) = Ok false.
Proof.
  apply (append_only_stale toy_pq demo_profile vk1 sk1 log_stale R0 R1 R2 0 1);
    [exact signs1|apply run_reachable|by vm_compute|lia|by vm_compute..].
Defined.

Lemma equivocation_exact_witness :
  (sth_at log_stale 0 ∈ log_sths log_stale -> sth_at log_stale 1 ∈ log_sths log_stale ->
   detect_equivocation toy_pq demo_profile (sth_at log_stale 0) (sth_at log_stale 1) = Ok false) /\
  (forall t t', sth_sequence t = sth_sequence t' -> sth_verify toy_pq demo_profile t = Ok true ->
     sth_verify toy_pq demo_profile t' = Ok true ->
     sth_root_hash t <> sth_root_hash t' -> detect_equivocation toy_pq demo_profile t t' = Ok true).
Proof. apply (equivocation_exact toy_pq demo_profile vk1 sk1); [exact signs1|apply run_reachable]. Defined.

Lemma compact_injective_witness :
  let p := Portable.from_inclusion_proof (honest_proof [R0; R1; R2] 1) Portable.COMMITMENT_LOG R1 in
  Portable.p_path p = Portable.p_path p /\ exists bs, Portable.to_compact_bytes p = Ok bs.
Proof.
  intros p. assert (exists bs, Portable.to_compact_bytes p = Ok bs) as [bs Hbs]
    by (eexists; vm_compute; reflexivity).
  split; [|by exists bs].
  apply (Portable.compact_injective p p bs); try exact Hbs;
    (split; [by vm_compute|]; split; [by vm_compute|]; split; [repeat constructor; by vm_compute|by vm_compute]).
Defined.
