(* ===== verification/Commitment.v ===== *)
(** The commitment layer of src/src/ltp/commitment.py: the shard storage of
    [CommitmentNode], the encodings and signature of [CommitmentRecord], and
    [CommitmentLog], the entity-indexed log over the Merkle log. *)

From S2P Require Import Prelude Float64 Sha3 Hashing Primitives Encoding MerkleTree MerkleLog.
Import CanonicalEncoder.

(** * CommitmentNode: storage *)
Abbreviation shard_key := (pystr * Z)%type.

Record CommitmentNode : Type := {
  node_id : pystr;
  region : pystr;
  shards : gmap shard_key bytes;
  evicted : bool;
  shard_ttl : gmap shard_key (Z * option Z)
}.

Definition new_node (id reg : pystr) : CommitmentNode :=
  {| node_id := id; region := reg; shards := ∅; evicted := false; shard_ttl := ∅ |}.

Definition with_shards (nd : CommitmentNode) (sh : gmap shard_key bytes)
  (ttl : gmap shard_key (Z * option Z)) : CommitmentNode :=
  {| node_id := node_id nd; region := region nd; shards := sh; evicted := evicted nd; shard_ttl := ttl |}.

Definition store_shard (nd : CommitmentNode) (entity_id : pystr) (shard_index : Z) (data : bytes)
  : bool * CommitmentNode :=
  if evicted nd then (false, nd)
  else (true, with_shards nd (<[(entity_id, shard_index) := data]> (shards nd)) (shard_ttl nd)).

Definition store_shard_with_ttl (nd : CommitmentNode) (entity_id : pystr) (shard_index : Z) (data : bytes)
  (stored_at_epoch : Z) (ttl_epochs : option Z) : bool * CommitmentNode :=
  if evicted nd then (false, nd)
  else
    let key := (entity_id, shard_index) in
    (true, with_shards nd (<[key := data]> (shards nd)) (<[key := (stored_at_epoch, ttl_epochs)]> (shard_ttl nd))).

Definition is_shard_expired (nd : CommitmentNode) (entity_id : pystr) (shard_index current_epoch : Z) : bool :=
  match shard_ttl nd !! (entity_id, shard_index) with
  | None => false
  | Some (_, None) => false
  | Some (stored_at, Some ttl) => stored_at + ttl <=? current_epoch
  end.

Definition renew_shard_ttl (nd : CommitmentNode) (entity_id : pystr) (shard_index additional_epochs : Z)
  : bool * CommitmentNode :=
  let key := (entity_id, shard_index) in
  match shard_ttl nd !! key, shards nd !! key with
  | Some (stored_at, ttl), Some _ =>
      match ttl with
      | None => (true, nd)
      | Some ttl => (true, with_shards nd (shards nd)
                             (<[key := (stored_at, Some (ttl + additional_epochs))]> (shard_ttl nd)))
      end
  | _, _ => (false, nd)
  end.

(** [evict_expired_shards]: the expired keys, then one [pop] per key. *)
Definition expired_keys (nd : CommitmentNode) (current_epoch : Z) : list shard_key :=
  filter (fun key => is_shard_expired nd key.1 key.2 current_epoch = true) (map fst (map_to_list (shard_ttl nd))).

Definition pop_shard (nd : CommitmentNode) (key : shard_key) : CommitmentNode :=
  with_shards nd (delete key (shards nd)) (delete key (shard_ttl nd)).

Definition evict_expired_shards (nd : CommitmentNode) (current_epoch : Z) : nat * CommitmentNode :=
  let keys := expired_keys nd current_epoch in
  (length keys, fold_left pop_shard keys nd).

Definition fetch_shard (nd : CommitmentNode) (entity_id : pystr) (shard_index : Z) : option bytes :=
  if evicted nd then None else shards nd !! (entity_id, shard_index).

Definition remove_shard (nd : CommitmentNode) (entity_id : pystr) (shard_index : Z) : bool * CommitmentNode :=
  match shards nd !! (entity_id, shard_index) with
  | Some _ => (true, with_shards nd (delete (entity_id, shard_index) (shards nd)) (shard_ttl nd))
  | None => (false, nd)
  end.

(** * CommitmentRecord *)
(** The values of the [encoding_params] dictionary: integers and strings. *)
Inductive param : Type := PInt (z : Z) | PStr (s : pystr).
Definition str_param (p : param) : pystr := match p with PInt z => str_int z | PStr s => s end.

Record CommitmentRecord : Type := {
  entity_id : pystr;
  sender_id : pystr;
  shard_map_root : pystr;
  content_hash : pystr;
  encoding_params : list (pystr * param);
  shape : pystr;
  shape_hash : pystr;
  timestamp : Float64.float64;
  ttl_epochs : option Z;
  predecessor : option pystr;
  signature : bytes;
  sender_vk : bytes
}.

Definition params_str (r : CommitmentRecord) : list (pystr * pystr) :=
  map (fun kv => (kv.1, str_param kv.2)) (encoding_params r).

Definition with_signature (r : CommitmentRecord) (sig : bytes) : CommitmentRecord :=
  {| entity_id := entity_id r; sender_id := sender_id r; shard_map_root := shard_map_root r;
     content_hash := content_hash r; encoding_params := encoding_params r; shape := shape r;
     shape_hash := shape_hash r; timestamp := timestamp r; ttl_epochs := ttl_epochs r;
     predecessor := predecessor r; signature := sig; sender_vk := sender_vk r |}.

Definition with_predecessor (r : CommitmentRecord) (p : pystr) : CommitmentRecord :=
  {| entity_id := entity_id r; sender_id := sender_id r; shard_map_root := shard_map_root r;
     content_hash := content_hash r; encoding_params := encoding_params r; shape := shape r;
     shape_hash := shape_hash r; timestamp := timestamp r; ttl_epochs := ttl_epochs r;
     predecessor := Some p; signature := signature r; sender_vk := sender_vk r |}.

Definition with_ttl (r : CommitmentRecord) (t : option Z) : CommitmentRecord :=
  {| entity_id := entity_id r; sender_id := sender_id r; shard_map_root := shard_map_root r;
     content_hash := content_hash r; encoding_params := encoding_params r; shape := shape r;
     shape_hash := shape_hash r; timestamp := timestamp r; ttl_epochs := t;
     predecessor := predecessor r; signature := signature r; sender_vk := sender_vk r |}.

Definition COMMIT_TAG : bytes := lit "LTP-COMMIT-v1" ++ [0].
Definition RECORD_TAG : bytes := lit "LTP-RECORD-v1" ++ [0].

Definition signable_payload (r : CommitmentRecord) : result bytes :=
  parts ← mapR lp [entity_id r; sender_id r; shard_map_root r; content_hash r; shape r; shape_hash r];
  ts ← struct_pack 8 (timestamp r);
  params ← lp_items (sorted_items (params_str r));
  Ok (COMMIT_TAG ++ concat parts ++ ts ++ params).

Definition to_bytes (r : CommitmentRecord) : result bytes :=
  payload ← signable_payload r;
  pred ← lp (default [] (predecessor r));
  sig ← lp (signature r);
  vk ← lp (sender_vk r);
  Ok (RECORD_TAG ++ payload ++ pred ++ sig ++ vk).

Definition record_fields (r : CommitmentRecord) : list fval := [
  Str (entity_id r); Str (sender_id r); Str (shard_map_root r); Str (content_hash r); Str (shape r);
  Str (shape_hash r); F64 (timestamp r); SMap (params_str r); OptU64 (ttl_epochs r)].

Definition canonical_bytes (r : CommitmentRecord) : result bytes :=
  encode Domain.DOMAIN_COMMIT_RECORD (record_fields r).

Definition canonical_record_bytes (r : CommitmentRecord) : result bytes :=
  encode Domain.DOMAIN_COMMIT_RECORD (record_fields r ++ [OptS (predecessor r); LP (signature r)]).

(** ** Injectivity of the record encoding *)
Lemma lp_nonempty v a : lp v = Ok a -> a <> [].
Proof.
  unfold lp, mbind, result_bind. destruct (struct_pack 4 _) as [n|] eqn:E; [|done].
  apply struct_pack_Ok in E as [_ ->]. intros <-%Ok_inj Hn%(f_equal length).
  rewrite length_app, be_encode_length in Hn. simpl in Hn. lia.
Qed.

Lemma lps_inj xs ys a b : mapR lp xs = Ok a -> mapR lp ys = Ok b -> concat a = concat b -> xs = ys.
Proof.
  revert ys a b. induction xs as [|x xs IH]; intros [|y ys] a b; simpl.
  - done.
  - intros <-%Ok_inj. destruct (lp y) eqn:E; [|done]. destruct (mapR lp ys); [|done].
    intros <-%Ok_inj. simpl. intros Hn. symmetry in Hn. apply app_eq_nil in Hn as [-> _].
    by apply lp_nonempty in E.
  - intros Ha <-%Ok_inj. destruct (lp x) eqn:E; [|done]. destruct (mapR lp xs); [|done].
    apply Ok_inj in Ha as <-. simpl. intros Hn. apply app_eq_nil in Hn as [-> _].
    by apply lp_nonempty in E.
  - destruct (lp x) eqn:E1; [|done]. destruct (mapR lp xs) eqn:E2; [|done]. intros <-%Ok_inj.
    destruct (lp y) eqn:E3; [|done]. destruct (mapR lp ys) eqn:E4; [|done]. intros <-%Ok_inj.
    simpl. intros E. destruct (lp_inj _ _ _ _ _ _ E1 E3 E) as [-> Er].
    by rewrite (IH ys _ _ eq_refl E4 Er).
Qed.

(** An item list as the flat list of its strings. *)
Definition flat_items (its : list (pystr * pystr)) : list pystr := concat (map (fun kv => [kv.1; kv.2]) its).

Lemma flat_items_inj a b : flat_items a = flat_items b -> a = b.
Proof.
  unfold flat_items. revert b. induction a as [|[k v] a IH]; intros [|[k' v'] b] E; simpl in *; simplify_eq; try done.
  f_equal. auto.
Qed.

Lemma lp_items_flat its a : lp_items its = Ok a ->
  exists bs, mapR lp (flat_items its) = Ok bs /\ a = concat bs.
Proof.
  unfold flat_items. revert a. induction its as [|[k v] its IH]; intros a; simpl.
  - intros <-%Ok_inj. by exists [].
  - unfold mbind, result_bind. destruct (lp k); [|done]. destruct (lp v); [|done].
    destruct (lp_items its); [|done]. intros <-%Ok_inj. destruct (IH _ eq_refl) as (bs & -> & ->).
    eexists. split; [done|]. done.
Qed.

Lemma mapR_app {A B} (f : A -> result B) xs ys a b :
  mapR f xs = Ok a -> mapR f ys = Ok b -> mapR f (xs ++ ys) = Ok (a ++ b).
Proof. rewrite !mapR_Ok. apply Forall2_app. Qed.

(** What the record encoding carries: every field but [ttl_epochs], a missing
    predecessor as the empty one, the parameters as sorted strings. *)
Definition record_view (r : CommitmentRecord) :=
  ([entity_id r; sender_id r; shard_map_root r; content_hash r; shape r; shape_hash r],
   timestamp r, sorted_items (params_str r),
   [default [] (predecessor r); signature r; sender_vk r]).

Lemma to_bytes_view r s b : to_bytes r = Ok b -> to_bytes s = Ok b -> record_view r = record_view s.
Proof.
  unfold to_bytes, signable_payload, record_view, mbind, result_bind.
  set (xs := [entity_id r; sender_id r; _; _; _; _]). set (ys := [entity_id s; sender_id s; _; _; _; _]).
  destruct (mapR lp xs) as [p1|] eqn:E1; [|done]. destruct (struct_pack 8 (timestamp r)) as [t1|] eqn:E2; [|done].
  destruct (lp_items (sorted_items (params_str r))) as [i1|] eqn:E3; [|done].
  destruct (lp (default [] (predecessor r))) as [a1|] eqn:E4; [|done].
  destruct (lp (signature r)) as [b1|] eqn:E5; [|done]. destruct (lp (sender_vk r)) as [c1|] eqn:E6; [|done].
  intros <-%Ok_inj.
  destruct (mapR lp ys) as [p2|] eqn:F1; [|done]. destruct (struct_pack 8 (timestamp s)) as [t2|] eqn:F2; [|done].
  destruct (lp_items (sorted_items (params_str s))) as [i2|] eqn:F3; [|done].
  destruct (lp (default [] (predecessor s))) as [a2|] eqn:F4; [|done].
  destruct (lp (signature s)) as [b2|] eqn:F5; [|done]. destruct (lp (sender_vk s)) as [c2|] eqn:F6; [|done].
  intros E%Ok_inj. apply app_inv_head in E. rewrite <- !app_assoc in E. apply app_inv_head in E.
  assert (forall xs ys p1 p2 r1 r2, length xs = length ys -> mapR lp xs = Ok p1 -> mapR lp ys = Ok p2 ->
    concat p1 ++ r1 = concat p2 ++ r2 -> xs = ys /\ r1 = r2) as Hpre.
  { clear. induction xs as [|x xs IH]; intros [|y ys] p1 p2 r1 r2 Hl; simpl; try done.
    - intros <-%Ok_inj <-%Ok_inj. done.
    - destruct (lp x) eqn:E1; [|done]. destruct (mapR lp xs) eqn:E2; [|done]. intros <-%Ok_inj.
      destruct (lp y) eqn:E3; [|done]. destruct (mapR lp ys) eqn:E4; [|done]. intros <-%Ok_inj.
      simpl. rewrite <- !app_assoc. intros E. destruct (lp_inj _ _ _ _ _ _ E1 E3 E) as [-> Er].
      destruct (IH ys _ _ _ _ (eq_add_S _ _ Hl) eq_refl E4 Er) as [-> ->]. done. }
  destruct (Hpre ys xs p2 p1 _ _ eq_refl F1 E1 E) as [Exy Er].
  apply struct_pack_Ok in E2 as [Ht1 ->], F2 as [Ht2 ->].
  apply app_inj_len in Er as [Et Er]; [|by rewrite !be_encode_length]. apply be_encode_inj in Et; [|done..].
  apply lp_items_flat in E3 as (q1 & E3 & ->), F3 as (q2 & F3 & ->).
  assert (mapR lp [default [] (predecessor r); signature r; sender_vk r] = Ok [a1; b1; c1]) as E7
    by (simpl; by rewrite E4, E5, E6).
  assert (mapR lp [default [] (predecessor s); signature s; sender_vk s] = Ok [a2; b2; c2]) as F7
    by (simpl; by rewrite F4, F5, F6).
  pose proof (mapR_app _ _ _ _ _ E3 E7) as E8. pose proof (mapR_app _ _ _ _ _ F3 F7) as F8.
  assert (concat (q2 ++ [a2; b2; c2]) = concat (q1 ++ [a1; b1; c1])) as Ec.
  { rewrite !concat_app. simpl. by rewrite !app_nil_r. }
  pose proof (lps_inj _ _ _ _ F8 E8 Ec) as Ef. apply app_inj_2 in Ef as [Ei Ez]; [|done].
  apply flat_items_inj in Ei. by rewrite Exy, Et, Ei, Ez.
Qed.

(** The record encoding hashed into the log and the lattice key binds
    the record: two records with the same [to_bytes] agree on all identity
    and hash fields, on the timestamp, on the parameters (as sorted strings),
    on predecessor, signature and verification key. *)
Theorem record_encoding_injective r s b :
  to_bytes r = Ok b -> to_bytes s = Ok b ->
  entity_id r = entity_id s /\ sender_id r = sender_id s /\ shard_map_root r = shard_map_root s /\
  content_hash r = content_hash s /\ shape r = shape s /\ shape_hash r = shape_hash s /\
  timestamp r = timestamp s /\ params_str r ≡ₚ params_str s /\
  default [] (predecessor r) = default [] (predecessor s) /\
  signature r = signature s /\ sender_vk r = sender_vk s.
Proof.
  intros Hr Hs. pose proof (to_bytes_view r s b Hr Hs) as Hv. unfold record_view in Hv.
  injection Hv as ?????????; simplify_eq. split_and!; try done.
  by rewrite <- (sorted_items_perm (params_str r)), H6, sorted_items_perm.
Qed.

(** The time to live is not authenticated: neither the signed payload
    nor the record encoding depends on [ttl_epochs]. *)
Theorem ttl_not_bound r t :
  signable_payload (with_ttl r t) = signable_payload r /\ to_bytes (with_ttl r t) = to_bytes r.
Proof. done. Qed.

Definition demo_record : CommitmentRecord := {|
  entity_id := lit "e1"; sender_id := lit "alice"; shard_map_root := lit "root"; content_hash := lit "h";
  encoding_params := [(lit "n", PInt 8); (lit "k", PInt 4); (lit "algorithm", PStr (lit "reed-solomon-gf256"))];
  shape := lit "text/plain"; shape_hash := lit "sh"; timestamp := f64_epoch; ttl_epochs := Some 3;
  predecessor := None; signature := [1; 2; 3]; sender_vk := [4; 5] |}.

Lemma record_encoding_injective_witness :
  exists b, to_bytes demo_record = Ok b /\ sender_vk demo_record = sender_vk (with_ttl demo_record None).
Proof.
  eexists. split; [vm_compute; reflexivity|].
  eapply (record_encoding_injective demo_record (with_ttl demo_record None)); vm_compute; reflexivity.
Defined.

(** ** Time to live *)
Lemma fold_delete_shards keys nd key :
  shards (fold_left pop_shard keys nd) !! key =
  (if bool_decide (key ∈ keys) then None else shards nd !! key) /\
  shard_ttl (fold_left pop_shard keys nd) !! key =
  (if bool_decide (key ∈ keys) then None else shard_ttl nd !! key).
Proof.
  revert nd. induction keys as [|x keys IH]; intros nd; simpl; [done|]. destruct (IH (pop_shard nd x)) as [-> ->]. simpl.
  destruct (decide (key = x)) as [->|Hne].
  - rewrite !lookup_delete_eq. rewrite (bool_decide_eq_true_2 (x ∈ x :: keys)) by constructor. by case_bool_decide.
  - rewrite !lookup_delete_ne by done. split; do 2 case_bool_decide; set_solver.
Qed.

Lemma elem_of_expired nd e key : key ∈ expired_keys nd e <-> is_shard_expired nd key.1 key.2 e = true.
Proof.
  unfold expired_keys. rewrite list_elem_of_filter. split; [by intros [? _]|]. intros He. split; [done|].
  apply elem_of_map. unfold is_shard_expired in He. destruct key as [i j]. simpl in *.
  destruct (shard_ttl nd !! (i, j)) as [v|] eqn:E; [|done].
  exists ((i, j), v). split; [done|]. by apply elem_of_map_to_list.
Qed.

(** Expiry.  [evict_expired_shards] removes exactly the shards whose
    time to live has passed: what is left is what was there and not expired,
    nothing left is expired, and the count is the number of expired keys. *)
Theorem evict_expired_exact nd epoch :
  let '(count, nd') := evict_expired_shards nd epoch in
  count = length (expired_keys nd epoch) /\
  (forall i j, shards nd' !! (i, j) = if is_shard_expired nd i j epoch then None else shards nd !! (i, j)) /\
  (forall i j, is_shard_expired nd' i j epoch = false) /\
  expired_keys nd' epoch = [].
Proof.
  unfold evict_expired_shards. set (keys := expired_keys nd epoch).
  assert (forall i j, bool_decide ((i, j) ∈ keys) = is_shard_expired nd i j epoch) as Hk.
  { intros i j. unfold keys. case_bool_decide as Hd; rewrite elem_of_expired in Hd; simpl in Hd; by destruct (is_shard_expired nd i j epoch). }
  assert (forall i j, is_shard_expired (fold_left pop_shard keys nd) i j epoch = false) as Hex.
  { intros i j. unfold is_shard_expired at 1. rewrite (proj2 (fold_delete_shards keys nd (i, j))), Hk.
    destruct (is_shard_expired nd i j epoch) eqn:E; [done|exact E]. }
  split; [done|]. split; [|split; [exact Hex|]].
  - intros i j. by rewrite (proj1 (fold_delete_shards keys nd (i, j))), Hk.
  - destruct (expired_keys (fold_left pop_shard keys nd) epoch) as [|key ks] eqn:E; [done|exfalso].
    assert (key ∈ expired_keys (fold_left pop_shard keys nd) epoch) as Hin by (rewrite E; constructor).
    apply elem_of_expired in Hin. by rewrite Hex in Hin.
Qed.

(** * CommitmentLog *)
Module CommitmentLog.

Record clog : Type := {
  merkle_log : log;
  records : gmap pystr CommitmentRecord;
  chain : list pystr;
  record_indices : gmap pystr Z
}.

Section CLog.
Context `{CanonicalHash} (pq : pq_backend) (profile : SecurityProfile).

(** The in-memory log, with its operator's key pair. *)
Definition new_clog (operator : KeyPair) : clog :=
  {| merkle_log := new_log (kp_vk operator) (FromKeyPair operator); records := ∅; chain := []; record_indices := ∅ |}.

Definition head_hash (c : clog) : pystr :=
  match latest_sth (merkle_log c) with
  | None => repeat 48 64
  | Some sth => hex (sth_root_hash sth)
  end.

(** [append]: the reference, the record with its predecessor set (the source
    updates the caller's object), and the new log. *)
Definition append (c : clog) (record : CommitmentRecord) (now : Float64.float64)
  : result (pystr * CommitmentRecord * clog) :=
  match records c !! entity_id record with
  | Some _ => Err (ValueError "already committed (immutable)")
  | None =>
      let record := with_predecessor record (head_hash c) in
      record_bytes ← to_bytes record;
      let record_hash := chash_str record_bytes in
      '(idx, ml) ← log_append (merkle_log c) record_bytes;
      '(_, ml) ← publish_sth pq profile ml now;
      Ok (record_hash, record,
          {| merkle_log := ml; records := <[entity_id record := record]> (records c);
             chain := chain c ++ [entity_id record];
             record_indices := <[entity_id record := idx]> (record_indices c) |})
  end.

Definition fetch (c : clog) (eid : pystr) : option CommitmentRecord := records c !! eid.

Fixpoint verify_chain_from (c : clog) (i : Z) (eids : list pystr) : result (bool * Z) :=
  match eids with
  | [] => Ok (true, Z.of_nat (length (chain c)) - 1)
  | eid :: eids =>
      record ← or_raise KeyError (records c !! eid);
      record_bytes ← to_bytes record;
      stored ← tree_leaf_hash (log_tree (merkle_log c)) i;
      if negb (bool_decide (leaf_hash record_bytes = stored)) then Ok (false, i)
      else verify_chain_from c (i + 1) eids
  end.

Definition verify_chain_integrity (c : clog) : result (bool * Z) :=
  match chain c with [] => Ok (true, -1) | _ => verify_chain_from c 0 (chain c) end.

Definition get_inclusion_proof (c : clog) (eid : pystr) : result (option (InclusionProof * clog)) :=
  match records c !! eid with
  | None => Ok None
  | Some _ =>
      idx ← or_raise KeyError (record_indices c !! eid);
      '(proof, ml) ← inclusion_proof (merkle_log c) idx;
      Ok (Some (proof, {| merkle_log := ml; records := records c; chain := chain c;
                          record_indices := record_indices c |}))
  end.

(** [verify_inclusion(entity_id, proof)], where the proof's [root_hash] entry
    is the proof's own root. *)
Definition clog_verify_inclusion (c : clog) (eid : pystr) (proof : InclusionProof) : result bool :=
  match records c !! eid with
  | None => Ok false
  | Some record => record_bytes ← to_bytes record; Ok (verify proof record_bytes (root_hash proof))
  end.

Definition records_since (c : clog) (index : Z) : result (list (pystr * CommitmentRecord)) :=
  let index := Z.to_nat (Z.max 0 index) in
  mapR (fun eid => r ← or_raise KeyError (records c !! eid); Ok (eid, r)) (drop index (chain c)).

(** ** The log as a state machine *)
Inductive clog_step : clog -> clog -> Prop :=
| clog_append c r now ref r' c' : append c r now = Ok (ref, r', c') -> clog_step c c'
| clog_proof c eid p c' : get_inclusion_proof c eid = Ok (Some (p, c')) -> clog_step c c'.

Definition clog_reachable (operator : KeyPair) (c : clog) : Prop := rtc clog_step (new_clog operator) c.

(** The predecessor a record at position [i] must carry: the root of the
    records before it. *)
Definition link (bs : list bytes) (i : nat) : pystr :=
  match i with O => repeat 48 64 | _ => hex (root_of (take i bs)) end.

Definition entry_ok (c : clog) (i : nat) (eid : pystr) : Prop := exists r b,
  records c !! eid = Some r /\ entity_id r = eid /\ to_bytes r = Ok b /\
  log_records (merkle_log c) !! i = Some b /\ record_indices c !! eid = Some (Z.of_nat i) /\
  predecessor r = Some (link (log_records (merkle_log c)) i).

Record clog_inv (operator : KeyPair) (c : clog) : Prop := {
  ci_log : log_inv pq profile (kp_vk operator) (FromKeyPair operator) (merkle_log c);
  ci_length : length (log_records (merkle_log c)) = length (chain c);
  ci_nodup : NoDup (chain c);
  ci_entries : forall i eid, chain c !! i = Some eid -> entry_ok c i eid;
  ci_dom : forall eid, is_Some (records c !! eid) -> eid ∈ chain c;
  ci_sths : forall s, last (log_sths (merkle_log c)) = Some s -> sth_tree_size s = Z.of_nat (length (chain c));
  ci_sths_len : length (log_sths (merkle_log c)) = length (chain c)
}.

Lemma clog_inv_new op : clog_inv op (new_clog op).
Proof.
  split; try done; try constructor; try apply inv_new; simpl.
  by intros eid [? ?].
Qed.

Lemma head_hash_link op c : clog_inv op c -> head_hash c = link (log_records (merkle_log c)) (length (chain c)).
Proof.
  intros Hi. unfold head_hash, latest_sth. pose proof (ci_sths_len _ _ Hi) as Hlen.
  destruct (last (log_sths (merkle_log c))) as [s|] eqn:E.
  - pose proof (ci_sths _ _ Hi s E) as Hsz. rewrite last_lookup in E.
    destruct (inv_sths _ _ _ _ _ (ci_log _ _ Hi) _ _ E) as (_ & _ & Hr & _).
    rewrite Hr, Hsz, Nat2Z.id. unfold link. destruct (length (chain c)); [|done].
    apply lookup_lt_Some in E. lia.
  - apply last_None in E. rewrite E in Hlen. simpl in Hlen. by rewrite <- Hlen.
Qed.

Lemma entry_ok_weaken c c' i eid :
  entry_ok c i eid -> records c' !! eid = records c !! eid ->
  record_indices c' !! eid = record_indices c !! eid ->
  (exists tl, log_records (merkle_log c') = log_records (merkle_log c) ++ tl) -> entry_ok c' i eid.
Proof.
  intros (r & b & Hr & He & Hb & Hi & Hx & Hp) E1 E2 (tl & E3). exists r, b.
  rewrite E1, E2, E3. split_and!; try done.
  - by apply lookup_app_l_Some.
  - rewrite Hp. f_equal. unfold link. destruct i; [done|]. rewrite take_app_le; [done|].
    apply lookup_lt_Some in Hi. lia.
Qed.

Lemma append_Ok_inv op c r now ref r' c' : signs_for pq profile (FromKeyPair op) (kp_vk op) ->
  clog_inv op c -> append c r now = Ok (ref, r', c') ->
  clog_inv op c' /\ records c !! entity_id r = None /\ chain c' = chain c ++ [entity_id r] /\
  r' = with_predecessor r (link (log_records (merkle_log c)) (length (chain c))) /\
  records c' = <[entity_id r := r']> (records c) /\
  exists b, to_bytes r' = Ok b /\ ref = chash_str b.
Proof.
  intros Hsig Hi. unfold append. destruct (records c !! entity_id r) eqn:Enone; [done|].
  rewrite (head_hash_link op c Hi). set (r1 := with_predecessor r _). unfold mbind, result_bind.
  destruct (to_bytes r1) as [b|] eqn:Eb; [|done].
  destruct (log_append (merkle_log c) b) as [[idx ml]|] eqn:Ea; [|done].
  destruct (publish_sth pq profile ml now) as [[s ml2]|] eqn:Ep; [|done]. intros [= <- <- <-].
  pose proof (ci_log _ _ Hi) as Hlog.
  destruct (inv_append pq profile _ _ _ _ _ _ Hlog Ea) as (Hlog1 & Hidx & Hrec1 & Hsths1).
  destruct (inv_publish pq profile _ _ _ _ _ _ Hsig Hlog1 Ep) as (Hlog2 & Hrec2 & Hsths2 & _ & Hsz).
  pose proof (log_size_records _ _ _ _ _ Hlog) as Hls. pose proof (ci_length _ _ Hi) as Hcl.
  assert (entity_id r ∉ chain c) as Hfresh.
  { intros [i Hin]%list_elem_of_lookup_1. destruct (ci_entries _ _ Hi i _ Hin) as (x & _ & Hx & _). congruence. }
  assert (log_records ml2 = log_records (merkle_log c) ++ [b]) as Hrec by congruence.
  split; [|split_and!; try done; eauto]. split; simpl.
  - done.
  - rewrite Hrec, !length_app, Hcl. done.
  - apply NoDup_app. split; [apply Hi|]. split; [|apply NoDup_singleton]. intros x Hx ->%list_elem_of_singleton. done.
  - intros i eid [Hin|[-> <-]]%lookup_snoc_Some.
    + destruct Hin as [_ Hin]. assert (eid <> entity_id r) as Hne by (intros ->; apply Hfresh; by eapply list_elem_of_lookup_2).
      eapply entry_ok_weaken; [by apply (ci_entries _ _ Hi)|..]; simpl.
      * by rewrite lookup_insert_ne.
      * by rewrite lookup_insert_ne.
      * by exists [b].
    + exists r1, b. simpl. rewrite Hrec, !lookup_insert_eq. split_and!; try done.
      * rewrite lookup_app_r, Hcl, Nat.sub_diag by lia. done.
      * rewrite Hidx. congruence.
      * unfold link. destruct (length (chain c)); [done|]. rewrite take_app_le by lia. done.
  - intros eid Hs. apply elem_of_app. destruct (decide (eid = entity_id r)) as [->|Hne]; [right; constructor|].
    rewrite lookup_insert_ne in Hs by done. left. by apply (ci_dom _ _ Hi).
  - intros s'. rewrite Hsths2, last_snoc. intros [= <-].
    rewrite Hsz, (log_size_records _ _ _ _ _ Hlog1), Hrec1, !length_app, Hcl. done.
  - rewrite Hsths2, Hsths1, !length_app, (ci_sths_len _ _ Hi). done.
Qed.

Lemma proof_Ok_inv op c eid p c' : clog_inv op c -> get_inclusion_proof c eid = Ok (Some (p, c')) ->
  clog_inv op c' /\ records c' = records c /\ chain c' = chain c.
Proof.
  intros Hi. unfold get_inclusion_proof. destruct (records c !! eid) as [r|] eqn:Er; [|done].
  destruct (list_elem_of_lookup_1 _ _ (ci_dom _ _ Hi eid (mk_is_Some _ _ Er))) as [i Hin].
  pose proof (ci_entries _ _ Hi i eid Hin) as (r0 & b & _ & _ & _ & Hb & Hx & _).
  rewrite Hx. simpl. unfold mbind, result_bind.
  destruct (inclusion_proof_Ok pq profile _ _ _ (Z.of_nat i) (ci_log _ _ Hi)) as (p0 & ml & Ep & Hml & Hrec & Hsths & _).
  { rewrite (log_size_records _ _ _ _ _ (ci_log _ _ Hi)). apply lookup_lt_Some in Hb. lia. }
  rewrite Ep. intros [= <- <-]. split; [|done]. destruct Hi as [? Hcl ? Hent ? Hst Hsl]. split; simpl; try done.
  - by rewrite Hrec.
  - intros j eid' Hj. eapply entry_ok_weaken; [by apply Hent|done|done|]. exists []. simpl. by rewrite app_nil_r.
  - rewrite Hsths. exact Hst.
  - rewrite Hsths. exact Hsl.
Qed.

Lemma clog_reachable_inv op c : signs_for pq profile (FromKeyPair op) (kp_vk op) ->
  clog_reachable op c -> clog_inv op c.
Proof.
  intros Hs Hr. unfold clog_reachable in Hr. pose proof (clog_inv_new op) as Hi.
  induction Hr as [|c1 c2 c3 Hst _ IH]; [done|]. apply IH. destruct Hst as [? ? ? ? ? ? E|? ? ? ? E].
  - by eapply append_Ok_inv in E as [? _].
  - by eapply proof_Ok_inv in E as [? _].
Qed.

Lemma verify_chain_from_ok op c i eids : clog_inv op c -> drop i (chain c) = eids ->
  verify_chain_from c (Z.of_nat i) eids = Ok (true, Z.of_nat (length (chain c)) - 1).
Proof.
  intros Hi. revert i. induction eids as [|eid eids IH]; intros i Hd; simpl; [done|].
  assert (chain c !! i = Some eid) as Hc.
  { rewrite <- (Nat.add_0_r i), <- lookup_drop, Hd. done. }
  destruct (ci_entries _ _ Hi i eid Hc) as (r & b & -> & _ & Eb & Hb & _). simpl. unfold mbind, result_bind.
  rewrite Eb. unfold tree_leaf_hash, in_range.
  pose proof (log_size_records _ _ _ _ _ (ci_log _ _ Hi)) as Hls. unfold log_size in Hls. rewrite Hls.
  apply lookup_lt_Some in Hb as Hlt.
  destruct (Z.leb_spec 0 (Z.of_nat i)), (Z.ltb_spec (Z.of_nat i) (Z.of_nat (length (log_records (merkle_log c))))); try lia.
  simpl. rewrite (inv_leaves _ _ _ _ _ (ci_log _ _ Hi)), Nat2Z.id, lookup_total_map by done.
  rewrite (list_lookup_total_correct _ _ _ Hb), bool_decide_eq_true_2 by done. simpl.
  replace (Z.of_nat i + 1) with (Z.of_nat (S i)) by lia. apply IH.
  rewrite <- Nat.add_1_r, <- drop_drop, Hd. done.
Qed.

(** C20: integrity of the commitment log.  In every log reached by appends
    and proof requests, the integrity check passes; the entity ids in the
    chain are distinct and a second append of one is refused; and the record
    at position [i] is the one served for its entity, links to the Merkle
    root of the [i] records before it, and has an inclusion proof that
    verifies. *)
Theorem clog_integrity op c : signs_for pq profile (FromKeyPair op) (kp_vk op) -> clog_reachable op c ->
  verify_chain_integrity c = Ok (true, Z.of_nat (length (chain c)) - 1) /\ NoDup (chain c) /\
  forall i eid, chain c !! i = Some eid -> exists r p c',
    fetch c eid = Some r /\ entity_id r = eid /\
    predecessor r = Some (link (log_records (merkle_log c)) i) /\
    (forall r' now, entity_id r' = eid -> append c r' now = Err (ValueError "already committed (immutable)")) /\
    get_inclusion_proof c eid = Ok (Some (p, c')) /\ leaf_index p = Z.of_nat i /\
    clog_verify_inclusion c eid p = Ok true.
Proof.
  intros Hs Hr. apply clog_reachable_inv in Hr; [|done]. split; [|split; [apply Hr|]].
  - unfold verify_chain_integrity. destruct (chain c) as [|e es] eqn:E; [done|]. rewrite <- E.
    by apply (verify_chain_from_ok op c 0).
  - intros i eid Hi. destruct (ci_entries _ _ Hr i eid Hi) as (r & b & E1 & E2 & E3 & E4 & E5 & E6).
    pose proof (log_size_records _ _ _ _ _ (ci_log _ _ Hr)) as Hls. apply lookup_lt_Some in E4 as Hlt.
    destruct (inclusion_proof_Ok pq profile _ _ _ (Z.of_nat i) (ci_log _ _ Hr)) as (p & ml & Ep & _ & _ & _ & Hp); [lia|].
    exists r, p. eexists. split; [done|]. split; [done|]. split; [done|]. split_and!.
    + intros r' now <-. unfold append. by rewrite E1.
    + unfold get_inclusion_proof. rewrite E1, E5. simpl. unfold mbind, result_bind. by rewrite Ep.
    + by rewrite Hp.
    + unfold clog_verify_inclusion. rewrite E1. unfold mbind, result_bind. rewrite E3. f_equal.
      apply verify_true. split; [done|]. subst p. unfold proof_steps. simpl.
      rewrite Hls, !Nat2Z.id. pose proof (verify_inclusion_complete i (map leaf_hash (log_records (merkle_log c)))) as Hv.
      rewrite length_map, lookup_total_map, (list_lookup_total_correct _ _ _ E4) in Hv by done.
      unfold verify_inclusion in Hv. rewrite Hv by done. rewrite <- root_of_leaves.
      by destruct (log_records (merkle_log c)).
Qed.
End CLog.
End CommitmentLog.

(** A log with two records. *)
Definition demo_op : KeyPair := demo_keypair (lit "log-operator") 9.
Definition demo_record2 : CommitmentRecord := {|
  entity_id := lit "e2"; sender_id := lit "alice"; shard_map_root := lit "root2"; content_hash := lit "h2";
  encoding_params := encoding_params demo_record; shape := lit "text/plain"; shape_hash := lit "sh";
  timestamp := f64_epoch; ttl_epochs := None; predecessor := None; signature := [7]; sender_vk := [4; 5] |}.

Definition run_appends (rs : list CommitmentRecord) : result CommitmentLog.clog :=
  foldM (fun c r => '(_, _, c') ← CommitmentLog.append toy_pq demo_profile c r f64_epoch; Ok c')
        (CommitmentLog.new_clog demo_op) rs.

Lemma run_appends_reachable rs c : run_appends rs = Ok c ->
  CommitmentLog.clog_reachable toy_pq demo_profile demo_op c.
Proof.
  unfold run_appends, CommitmentLog.clog_reachable.
  apply (foldM_inv _ (fun _ c => rtc (CommitmentLog.clog_step toy_pq demo_profile) (CommitmentLog.new_clog demo_op) c)).
  - apply rtc_refl.
  - intros dn r c1 c2 Hr E. unfold mbind, result_bind in E.
    destruct (CommitmentLog.append _ _ c1 r f64_epoch) as [[[ref r'] c']|] eqn:Ea; [|done].
    apply Ok_inj in E as <-. eapply rtc_r; [exact Hr|]. by eapply CommitmentLog.clog_append.
Qed.

Lemma demo_op_signs : signs_for toy_pq demo_profile (FromKeyPair demo_op) (kp_vk demo_op).
Proof. apply dsa_pair_signs_keypair; [done|apply demo_dsa_pair]. Qed.

Definition demo_clog : CommitmentLog.clog :=
  match run_appends [demo_record; demo_record2] with Ok c => c | Err _ => CommitmentLog.new_clog demo_op end.

Lemma clog_integrity_witness :
  CommitmentLog.verify_chain_integrity demo_clog = Ok (true, Z.of_nat (length (CommitmentLog.chain demo_clog)) - 1) /\
  CommitmentLog.chain demo_clog = [lit "e1"; lit "e2"].
Proof.
  split; [|by vm_compute].
  refine (proj1 (CommitmentLog.clog_integrity toy_pq demo_profile demo_op demo_clog demo_op_signs _)).
  unfold demo_clog. destruct (run_appends [demo_record; demo_record2]) as [c|] eqn:E.
  - by eapply run_appends_reachable.
  - apply rtc_refl.
Defined.
