(* ===== verification/Network.v ===== *)
(** The storage side of [CommitmentNetwork] (src/src/ltp/commitment.py):
    deterministic placement with its cache and geo-fence, distribution and
    retrieval of encrypted shards.  Nodes are identified by their position in
    [nodes], as the source identifies them by object identity. *)

From S2P Require Import Prelude Float64 Sha3 Hashing Primitives Encoding MerkleTree MerkleLog Commitment.

(** Python's stable [sorted(xs, key=...)] on string keys. *)
Section Sorting.
Context {A : Type} (key : A -> pystr).
Fixpoint insert_sorted (x : A) (xs : list A) : list A :=
  match xs with
  | [] => [x]
  | y :: ys => if CanonicalEncoder.str_leb (key x) (key y) then x :: y :: ys else y :: insert_sorted x ys
  end.
Definition py_sorted (xs : list A) : list A := fold_right insert_sorted [] xs.

Lemma elem_of_insert_sorted x z xs : z ∈ insert_sorted x xs <-> z = x \/ z ∈ xs.
Proof.
  induction xs as [|y ys IH]; simpl; [set_solver|].
  destruct (CanonicalEncoder.str_leb _ _); [set_solver|]. rewrite !elem_of_cons, IH. tauto.
Qed.
Lemma elem_of_py_sorted z xs : z ∈ py_sorted xs <-> z ∈ xs.
Proof. induction xs as [|x xs IH]; simpl; [done|]. rewrite elem_of_insert_sorted, IH. set_solver. Qed.
End Sorting.

Record CommitmentNetwork : Type := {
  nodes : list CommitmentNode;
  placement_cache : gmap (pystr * Z * Z) (list nat);
  node_count_at_cache : nat;
  node_shard_index : gmap pystr (gset shard_key);
  geo_fence : option (pystr -> bool)
}.

Definition with_cache (net : CommitmentNetwork) (c : gmap (pystr * Z * Z) (list nat)) (n : nat) : CommitmentNetwork :=
  {| nodes := nodes net; placement_cache := c; node_count_at_cache := n;
     node_shard_index := node_shard_index net; geo_fence := geo_fence net |}.

Definition with_nodes (net : CommitmentNetwork) (ns : list CommitmentNode)
  (ix : gmap pystr (gset shard_key)) : CommitmentNetwork :=
  {| nodes := ns; placement_cache := placement_cache net; node_count_at_cache := node_count_at_cache net;
     node_shard_index := ix; geo_fence := geo_fence net |}.

Definition empty_network : CommitmentNetwork :=
  {| nodes := []; placement_cache := ∅; node_count_at_cache := 0; node_shard_index := ∅; geo_fence := None |}.

Definition invalidate_placement_cache (net : CommitmentNetwork) : CommitmentNetwork :=
  with_cache net ∅ (length (nodes net)).

Definition add_node (net : CommitmentNetwork) (id reg : pystr) : CommitmentNetwork :=
  invalidate_placement_cache
    (with_nodes net (nodes net ++ [new_node id reg]) (<[id := ∅]> (node_shard_index net))).

Section Placement.
(** [internal_hash_bytes] *)
Context (ihash : bytes -> bytes).

Definition node_at (net : CommitmentNetwork) (p : nat) : CommitmentNode := default (new_node [] []) (nodes net !! p).

(** Positions of the eligible nodes: all, or those the geo-fence allows. *)
Definition eligible (net : CommitmentNetwork) : list nat :=
  filter (fun p => match geo_fence net with
                   | None => true
                   | Some allowed => allowed (region (node_at net p))
                   end = true) (seq 0 (length (nodes net))).

Definition active_sorted (net : CommitmentNetwork) : list nat :=
  py_sorted (fun p => node_id (node_at net p))
    (filter (fun p => evicted (node_at net p) = false) (eligible net)).

Definition pick (active : list nat) (key : bytes) : nat :=
  active !!! Z.to_nat (be_decode (ihash key) mod Z.of_nat (length active)).

(** The inner loop: rehash until an unselected node is found. *)
Fixpoint rehash (active selected : list nat) (placement_key : bytes) (attempts : list Z) : list nat :=
  match attempts with
  | [] => selected
  | a :: attempts =>
      let candidate := pick active (placement_key ++ lit ":" ++ str_int a) in
      if bool_decide (candidate ∈ selected) then rehash active selected placement_key attempts
      else selected ++ [candidate]
  end.

Definition place_replica (active : list nat) (entity_id : pystr) (shard_index : Z) (selected : list nat) (r : Z)
  : list nat :=
  let placement_key := entity_id ++ lit ":" ++ str_int shard_index ++ lit ":" ++ str_int r in
  let candidate := pick active placement_key in
  if negb (bool_decide (candidate ∈ selected)) then selected ++ [candidate]
  else if (length selected <? length active)%nat
  then rehash active selected placement_key (map Z.of_nat (seq 0 (length active)))
  else selected.

(** [_placement] *)
Definition placement (net : CommitmentNetwork) (entity_id : pystr) (shard_index : Z) (replicas : nat)
  : result (list nat * CommitmentNetwork) :=
  match nodes net with
  | [] => Err (ValueError "No commitment nodes available")
  | _ =>
      let net := if negb (length (nodes net) =? node_count_at_cache net)%nat
                 then invalidate_placement_cache net else net in
      let cache_key := (entity_id, shard_index, Z.of_nat replicas) in
      match placement_cache net !! cache_key with
      | Some cached => Ok (cached, net)
      | None =>
          match geo_fence net, eligible net with
          | Some _, [] => Err (ValueError "No commitment nodes available in allowed jurisdictions")
          | _, _ =>
              match active_sorted net with
              | [] => Err (ValueError "No active commitment nodes available")
              | active =>
                  let selected := fold_left (place_replica active entity_id shard_index)
                                    (map Z.of_nat (seq 0 replicas)) [] in
                  Ok (selected, with_cache net (<[cache_key := selected]> (placement_cache net))
                                  (node_count_at_cache net))
              end
          end
      end
  end.

(** [node.store_shard(...)] on a node, and the reverse index update. *)
Definition store_at (entity_id : pystr) (i : Z) (data : bytes) (net : CommitmentNetwork) (p : nat) : CommitmentNetwork :=
  let nd := node_at net p in
  let ix := node_shard_index net in
  with_nodes net (<[p := (store_shard nd entity_id i data).2]> (nodes net))
    (<[node_id nd := {[(entity_id, i)]} ∪ default ∅ (ix !! node_id nd)]> ix).

Context `{CanonicalHash}.

Definition distribute_one (replicas : nat) (entity_id : pystr) (st : tree * CommitmentNetwork)
  (ish : Z * bytes) : result (tree * CommitmentNetwork) :=
  let '(t, net) := st in
  let '(i, enc_shard) := ish in
  ib ← struct_pack 4 i;
  '(_, t) ← tree_append t (enc_shard ++ entity_id ++ ib);
  '(targets, net) ← placement net entity_id i replicas;
  Ok (t, fold_left (store_at entity_id i enc_shard) targets net).

Definition enumerate {A} (xs : list A) : list (Z * A) := zip (map Z.of_nat (seq 0 (length xs))) xs.

Definition distribute_encrypted_shards (net : CommitmentNetwork) (entity_id : pystr)
  (encrypted_shards : list bytes) (replicas : nat) : result (pystr * CommitmentNetwork) :=
  '(t, net) ← foldM (distribute_one replicas entity_id) (new_tree, net) (enumerate encrypted_shards);
  Ok (chash_str (tree_root t).1, net).

(** The first shard found on a list of nodes. *)
Fixpoint first_shard (net : CommitmentNetwork) (entity_id : pystr) (i : Z) (ps : list nat) : option bytes :=
  match ps with
  | [] => None
  | p :: ps =>
      match fetch_shard (node_at net p) entity_id i with
      | Some data => Some data
      | None => first_shard net entity_id i ps
      end
  end.

Definition fetch_one (entity_id : pystr) (max_shards : nat) (st : gmap nat bytes * CommitmentNetwork) (i : nat)
  : result (gmap nat bytes * CommitmentNetwork) :=
  let '(fetched, net) := st in
  if (max_shards <=? base.size fetched)%nat then Ok (fetched, net)
  else
    '(targets, net) ← placement net entity_id (Z.of_nat i) 2;
    match first_shard net entity_id (Z.of_nat i) targets with
    | Some data => Ok (<[i := data]> fetched, net)
    | None =>
        match first_shard net entity_id (Z.of_nat i) (seq 0 (length (nodes net))) with
        | Some data => Ok (<[i := data]> fetched, net)
        | None => Ok (fetched, net)
        end
    end.

Definition fetch_encrypted_shards (net : CommitmentNetwork) (entity_id : pystr) (n max_shards : nat)
  : result (gmap nat bytes * CommitmentNetwork) :=
  foldM (fetch_one entity_id max_shards) (∅, net) (seq 0 n).

(** ** Placement *)
(** Active nodes inside the geo-fence. *)
Definition usable (net : CommitmentNetwork) (p : nat) : Prop :=
  (p < length (nodes net))%nat /\ evicted (node_at net p) = false /\
  match geo_fence net with None => True | Some allowed => allowed (region (node_at net p)) = true end.

Lemma elem_of_active net p : p ∈ active_sorted net <-> usable net p.
Proof.
  unfold active_sorted, eligible, usable. rewrite elem_of_py_sorted, !list_elem_of_filter, elem_of_seq.
  destruct (geo_fence net); naive_solver lia.
Qed.

Lemma pick_in active key : active <> [] -> pick active key ∈ active.
Proof.
  intros Hne. unfold pick. apply list_elem_of_lookup_total_2.
  assert (0 < length active)%nat by (destruct active; [done|simpl; lia]).
  pose proof (Z.mod_pos_bound (be_decode (ihash key)) (Z.of_nat (length active))). lia.
Qed.

Definition sel_ok (active sel : list nat) : Prop := NoDup sel /\ forall p, p ∈ sel -> p ∈ active.

Lemma sel_ok_snoc active sel p : sel_ok active sel -> p ∈ active -> p ∉ sel -> sel_ok active (sel ++ [p]).
Proof.
  intros [Hnd Hin] Hp Hnp. split.
  - apply NoDup_app. split; [done|]. split; [|apply NoDup_singleton]. intros x Hx ->%list_elem_of_singleton. done.
  - intros q. rewrite elem_of_app, list_elem_of_singleton. intros [?| ->]; auto.
Qed.

Lemma rehash_ok active sel key attempts : active <> [] -> sel_ok active sel ->
  sel_ok active (rehash active sel key attempts) /\
  (length sel <= length (rehash active sel key attempts) <= S (length sel))%nat.
Proof.
  intros Hne Hs. induction attempts as [|a attempts IH]; simpl; [split; [done|lia]|].
  case_bool_decide; [done|]. split; [apply sel_ok_snoc; auto using pick_in|]. rewrite length_app. simpl. lia.
Qed.

Lemma place_replica_ok active eid i sel r : active <> [] -> sel_ok active sel ->
  let sel' := place_replica active eid i sel r in
  sel_ok active sel' /\ (length sel <= length sel' <= S (length sel))%nat /\ sel' <> [].
Proof.
  intros Hne Hs. unfold place_replica. cbv zeta. set (key := eid ++ _). clearbody key.
  case_bool_decide as Hd; simpl negb; cbv iota.
  - assert (sel <> []) by (intros ->; by inversion Hd).
    assert (0 < length sel)%nat by (destruct sel; [done|simpl; lia]).
    destruct (_ <? _)%nat; [|split_and!; try done; lia].
    destruct (rehash_ok active sel key (map Z.of_nat (seq 0 (length active))) Hne Hs) as [Q1 Q2].
    split; [exact Q1|]. split; [exact Q2|]. intros E. rewrite E in Q2. simpl in Q2. lia.
  - split; [apply sel_ok_snoc; auto using pick_in|]. rewrite length_app. simpl. split; [lia|]. by destruct sel.
Qed.

Lemma place_replicas_ok active eid i rs sel : active <> [] -> sel_ok active sel ->
  let sel' := fold_left (place_replica active eid i) rs sel in
  sel_ok active sel' /\ (length sel' <= length sel + length rs)%nat /\ (rs <> [] \/ sel <> [] -> sel' <> []).
Proof.
  intros Hne. revert sel. induction rs as [|r rs IH]; intros sel Hs; simpl.
  - split; [done|]. split; [lia|]. by intros [|].
  - destruct (place_replica_ok active eid i sel r Hne Hs) as (Q1 & Q2 & Q3).
    destruct (IH _ Q1) as (Q4 & Q5 & Q6). split; [done|]. split; [lia|]. intros _. apply Q6. by right.
Qed.

Definition same_nodes (net net' : CommitmentNetwork) : Prop :=
  nodes net' = nodes net /\ node_shard_index net' = node_shard_index net /\ geo_fence net' = geo_fence net.

Lemma placement_frame net eid i rp sel net' : placement net eid i rp = Ok (sel, net') -> same_nodes net net'.
Proof.
  unfold placement. destruct (nodes net) eqn:En; [done|]. rewrite <- En.
  destruct (negb _); (destruct (placement_cache _ !! _); [intros [= <- <-]; done|]);
    simpl; intros E; split_matches; done.
Qed.

(** The placement cache holds nothing about this shard, or is about to be dropped. *)
Definition uncached (net : CommitmentNetwork) (eid : pystr) (i : Z) (rp : nat) : Prop :=
  length (nodes net) <> node_count_at_cache net \/ placement_cache net !! (eid, i, Z.of_nat rp) = None.

Lemma placement_uncached net eid i rp : uncached net eid i rp -> active_sorted net <> [] ->
  exists net', placement net eid i rp =
    Ok (fold_left (place_replica (active_sorted net) eid i) (map Z.of_nat (seq 0 rp)) [], net') /\
    placement_cache net' !! (eid, i, Z.of_nat rp) =
      Some (fold_left (place_replica (active_sorted net) eid i) (map Z.of_nat (seq 0 rp)) []) /\
    node_count_at_cache net' = length (nodes net) /\
    (forall k, k <> (eid, i, Z.of_nat rp) -> placement_cache net !! k = None -> placement_cache net' !! k = None).
Proof.
  intros Hu Ha. unfold placement. destruct (nodes net) as [|n0 ns] eqn:En.
  { destruct Ha. unfold active_sorted, eligible. rewrite En. done. }
  rewrite <- En in *. set (net1 := if negb _ then _ else _).
  assert (active_sorted net1 = active_sorted net /\ eligible net1 = eligible net /\ geo_fence net1 = geo_fence net /\
    placement_cache net1 !! (eid, i, Z.of_nat rp) = None /\ node_count_at_cache net1 = length (nodes net) /\
    (forall k, placement_cache net !! k = None -> placement_cache net1 !! k = None)) as (E1 & E2 & E3 & E4 & E5 & E6).
  { unfold net1. destruct (Nat.eqb_spec (length (nodes net)) (node_count_at_cache net)); simpl; split_and!; try done.
    by destruct Hu. }
  clearbody net1. rewrite E4, E3, E2, E1.
  assert (eligible net <> []) as Hel.
  { intros E. apply Ha. unfold active_sorted. by rewrite E. }
  destruct (active_sorted net) as [|a act] eqn:Eact; [done|]. rewrite <- Eact.
  destruct (geo_fence net), (eligible net); try done; eexists; (split; [reflexivity|]); simpl;
    (split; [by rewrite lookup_insert_eq|]; split; [done|]; intros k Hk Hn; rewrite lookup_insert_ne by done; auto).
Qed.

(** ** Storing *)
Definition holds (net : CommitmentNetwork) (p : nat) (eid : pystr) (i : Z) (d : bytes) : Prop :=
  exists nd, nodes net !! p = Some nd /\ shards nd !! (eid, i) = Some d.
Definition serves (net : CommitmentNetwork) (p : nat) (eid : pystr) (i : Z) (d : bytes) : Prop :=
  exists nd, nodes net !! p = Some nd /\ evicted nd = false /\ shards nd !! (eid, i) = Some d.

(** Identity, region and status of every node. *)
Definition profile_of (net : CommitmentNetwork) : list (pystr * pystr * bool) :=
  map (fun nd => (node_id nd, region nd, evicted nd)) (nodes net).

Lemma node_at_profile net p nd : nodes net !! p = Some nd -> node_at net p = nd.
Proof. unfold node_at. by intros ->. Qed.

Lemma store_at_nodes eid i d net p q : 
  nodes (store_at eid i d net p) !! q =
  if decide (p = q) then (fun nd => (store_shard nd eid i d).2) <$> nodes net !! q else nodes net !! q.
Proof.
  unfold store_at. simpl. destruct (decide (p = q)) as [->|Hne]; [|by rewrite list_lookup_insert_ne].
  destruct (nodes net !! q) as [nd|] eqn:E.
  - rewrite list_lookup_insert_eq by (by eapply lookup_lt_Some). by rewrite (node_at_profile _ _ _ E).
  - simpl. apply lookup_ge_None in E. apply lookup_ge_None. by rewrite length_insert.
Qed.

Lemma store_at_profile eid i d net p : profile_of (store_at eid i d net p) = profile_of net.
Proof.
  unfold profile_of. apply list_eq. intros q. rewrite !lookup_map, store_at_nodes.
  destruct (decide (p = q)) as [->|]; [|done]. destruct (nodes net !! q) as [nd|]; [|done].
  simpl. unfold store_shard. by destruct (evicted nd) eqn:E; simpl; rewrite ?E.
Qed.

Lemma active_of_profile net net' : profile_of net' = profile_of net -> geo_fence net' = geo_fence net ->
  active_sorted net' = active_sorted net.
Proof.
  intros Hp Hg.
  assert (length (nodes net') = length (nodes net)) as El
    by (apply (f_equal length) in Hp; unfold profile_of in Hp; by rewrite !length_map in Hp).
  assert (forall p, node_id (node_at net' p) = node_id (node_at net p) /\
    region (node_at net' p) = region (node_at net p) /\ evicted (node_at net' p) = evicted (node_at net p)) as Hn.
  { intros p. apply (f_equal (lookup p)) in Hp. unfold profile_of in Hp. rewrite !lookup_map in Hp.
    unfold node_at. destruct (nodes net' !! p), (nodes net !! p); simplify_eq/=; done. }
  unfold active_sorted. 
  assert (eligible net' = eligible net) as ->.
  { unfold eligible. rewrite El, Hg. apply list_filter_iff. intros p. destruct (geo_fence net); [|done].
    by rewrite (proj1 (proj2 (Hn p))). }
  assert (filter (fun p => evicted (node_at net' p) = false) (eligible net) =
          filter (fun p => evicted (node_at net p) = false) (eligible net)) as ->.
  { apply list_filter_iff. intros p. by rewrite (proj2 (proj2 (Hn p))). }
  unfold py_sorted. induction (filter _ _) as [|x xs IH]; simpl; [done|]. rewrite IH.
  generalize (fold_right (insert_sorted (fun p => node_id (node_at net p))) [] xs) as l.
  induction l as [|y l IHl]; simpl; [done|]. rewrite !(proj1 (Hn _)), IHl. done.
Qed.

Lemma store_at_shards eid i d net p q e j :
  (forall nd', nodes (store_at eid i d net p) !! q = Some nd' -> exists nd, nodes net !! q = Some nd /\
     evicted nd' = evicted nd /\
     shards nd' !! (e, j) = (if decide (p = q /\ (e, j) = (eid, i) /\ evicted nd = false) then Some d
                             else shards nd !! (e, j))).
Proof.
  intros nd'. rewrite store_at_nodes. destruct (decide (p = q)) as [->|Hne].
  - destruct (nodes net !! q) as [nd|] eqn:E; [|done]. simpl. intros [= <-]. exists nd. split; [done|].
    unfold store_shard. destruct (evicted nd) eqn:Ev; simpl; (split; [done|]).
    + destruct (decide _) as [(_ & _ & ?)|]; done.
    + destruct (decide ((e, j) = (eid, i))) as [Heq|Hneq].
      * rewrite Heq, lookup_insert_eq. destruct (decide _) as [|Hn]; [done|]. destruct Hn. done.
      * rewrite lookup_insert_ne by done. destruct (decide _) as [(_ & ? & _)|]; done.
  - intros E. exists nd'. split; [done|]. split; [done|]. destruct (decide _) as [(? & _)|]; done.
Qed.

(** After storing on a list of nodes: exactly those that are active hold it. *)
Lemma store_all_profile eid i d sel net :
  profile_of (fold_left (store_at eid i d) sel net) = profile_of net /\
  geo_fence (fold_left (store_at eid i d) sel net) = geo_fence net /\
  placement_cache (fold_left (store_at eid i d) sel net) = placement_cache net /\
  node_count_at_cache (fold_left (store_at eid i d) sel net) = node_count_at_cache net.
Proof.
  revert net; induction sel as [|p sel IH]; intros net; simpl; [done|].
  destruct (IH (store_at eid i d net p)) as (-> & -> & -> & ->). by rewrite store_at_profile.
Qed.

Lemma store_all_shards eid i d sel net q nd' e j :
  nodes (fold_left (store_at eid i d) sel net) !! q = Some nd' -> exists nd, nodes net !! q = Some nd /\
    evicted nd' = evicted nd /\
    shards nd' !! (e, j) = (if decide (q ∈ sel /\ (e, j) = (eid, i) /\ evicted nd = false) then Some d
                            else shards nd !! (e, j)).
Proof.
  revert net; induction sel as [|p sel IH]; intros net E; simpl in E.
  - exists nd'. split; [done|]. split; [done|]. destruct (decide _) as [(Hx & _)|]; [by inversion Hx|done].
  - destruct (IH _ E) as (nd1 & E1 & Ev1 & Es1). destruct (store_at_shards _ _ _ _ _ _ e j _ E1) as (nd & E0 & Ev0 & Es0).
    exists nd. split; [done|]. split; [congruence|]. rewrite Es1, Es0, Ev0.
    repeat destruct (decide _); set_solver.
Qed.

Lemma lookup_same_profile net net' p nd : profile_of net' = profile_of net -> nodes net !! p = Some nd ->
  exists nd', nodes net' !! p = Some nd' /\ evicted nd' = evicted nd.
Proof.
  intros Hp E. apply (f_equal (lookup p)) in Hp. unfold profile_of in Hp. rewrite !lookup_map, E in Hp.
  destruct (nodes net' !! p); simplify_eq/=. eauto.
Qed.

(** ** Distribution *)
(** The first [m] shards are stored: some active node serves each, and no
    node holds anything else under their keys. *)
Definition stored (net : CommitmentNetwork) (eid : pystr) (encs : list bytes) : Prop :=
  forall (i : nat) d, encs !! i = Some d ->
    (exists p, serves net p eid (Z.of_nat i) d) /\ (forall p d', holds net p eid (Z.of_nat i) d' -> d' = d).

(** No node holds anything of the entity, and no placement of it is cached. *)
Definition fresh_entity (net : CommitmentNetwork) (eid : pystr) : Prop :=
  (forall p i d, ~ holds net p eid i d) /\ (forall i r, placement_cache net !! (eid, i, r) = None).

Record dist_inv (net0 : CommitmentNetwork) (eid : pystr) (dn : list bytes) (net : CommitmentNetwork) : Prop := {
  di_profile : profile_of net = profile_of net0;
  di_geo : geo_fence net = geo_fence net0;
  di_stored : stored net eid dn;
  di_rest : forall p i d, holds net p eid i d -> i < Z.of_nat (length dn);
  di_cache : forall i r, Z.of_nat (length dn) <= i -> placement_cache net !! (eid, i, r) = None;
  di_other : forall p e i d, e <> eid -> holds net p e i d <-> holds net0 p e i d
}.

Lemma holds_frame net net' p e i d : same_nodes net net' -> holds net' p e i d <-> holds net p e i d.
Proof. intros (E & _). unfold holds. by rewrite E. Qed.

Lemma holds_store net sel eid i d p e j d' :
  holds (fold_left (store_at eid i d) sel net) p e j d' ->
  holds net p e j d' \/ ((e, j) = (eid, i) /\ d' = d).
Proof.
  intros (nd' & E & Es). destruct (store_all_shards _ _ _ _ _ _ _ e j E) as (nd & E0 & _ & Es0).
  rewrite Es in Es0. destruct (decide _) as [(_ & ? & _)|]; [right; naive_solver|]. left. exists nd. naive_solver.
Qed.

Lemma holds_store_other net sel eid i d p e j d' : (e, j) <> (eid, i) ->
  holds net p e j d' -> holds (fold_left (store_at eid i d) sel net) p e j d'.
Proof.
  intros Hne (nd & E & Es). destruct (lookup_same_profile net (fold_left (store_at eid i d) sel net) p nd) as (nd' & E' & _);
    [apply store_all_profile|done|]. exists nd'. split; [done|].
  destruct (store_all_shards _ _ _ _ _ _ _ e j E') as (nd0 & E0 & _ & Es0). rewrite Es0.
  destruct (decide _) as [(_ & ? & _)|]; [done|]. rewrite E in E0. by injection E0 as <-.
Qed.

Lemma serves_store net sel eid i d p : p ∈ sel -> usable net p ->
  serves (fold_left (store_at eid i d) sel net) p eid i d.
Proof.
  intros Hp (Hlt & Hev & _). destruct (lookup_lt_is_Some_2 _ _ Hlt) as [nd E]. rewrite (node_at_profile _ _ _ E) in Hev.
  destruct (lookup_same_profile net (fold_left (store_at eid i d) sel net) p nd) as (nd' & E' & Ev');
    [apply store_all_profile|done|]. exists nd'. split; [done|]. split; [congruence|].
  destruct (store_all_shards _ _ _ _ _ _ _ eid i E') as (nd0 & E0 & _ & Es0). rewrite Es0.
  rewrite E in E0. injection E0 as <-. destruct (decide _) as [|Hn]; [done|]. by destruct Hn.
Qed.

Lemma serves_store_other net sel eid i d p e j d' : (e, j) <> (eid, i) ->
  serves net p e j d' -> serves (fold_left (store_at eid i d) sel net) p e j d'.
Proof.
  intros Hne (nd & E & Ev & Es). destruct (lookup_same_profile net (fold_left (store_at eid i d) sel net) p nd) as (nd' & E' & Ev');
    [apply store_all_profile|done|]. exists nd'. split; [done|]. split; [congruence|].
  destruct (store_all_shards _ _ _ _ _ _ _ e j E') as (nd0 & E0 & _ & Es0). rewrite Es0.
  destruct (decide _) as [(_ & ? & _)|]; [done|]. rewrite E in E0. by injection E0 as <-.
Qed.

Lemma distribute_one_ok net0 eid rp t net dn d : (0 < rp)%nat -> active_sorted net0 <> [] ->
  Z.of_nat (length dn) < 2 ^ 32 -> MerkleLog.size t < CAPACITY ->
  dist_inv net0 eid dn net -> exists t' net', 
    distribute_one rp eid (t, net) (Z.of_nat (length dn), d) = Ok (t', net') /\
    dist_inv net0 eid (dn ++ [d]) net' /\ MerkleLog.size t' = MerkleLog.size t + 1.
Proof.
  intros Hrp Ha Hlen Hcap Hi. unfold distribute_one. unfold struct_pack. change (256 ^ Z.of_nat 4) with (2 ^ 32).
  destruct (Z.leb_spec 0 (Z.of_nat (length dn))), (Z.ltb_spec (Z.of_nat (length dn)) (2 ^ 32)); try lia.
  simpl andb. cbv iota. unfold mbind, result_bind. unfold tree_append.
  destruct (Z.leb_spec CAPACITY (MerkleLog.size t)); [lia|].
  set (i := Z.of_nat (length dn)) in *.
  assert (active_sorted net = active_sorted net0) as Eact by (apply active_of_profile; apply Hi).
  destruct (placement_uncached net eid i rp) as (net1 & Ep & Ec1 & Ec2 & Ec3).
  { right. apply (di_cache _ _ _ _ Hi). unfold i. lia. }
  { by rewrite Eact. }
  rewrite Ep. pose proof (placement_frame _ _ _ _ _ _ Ep) as Hfr. set (sel := fold_left _ _ _) in *.
  destruct (place_replicas_ok (active_sorted net) eid i (map Z.of_nat (seq 0 rp)) []) as ((_ & Hsel) & _ & Hne).
  { by rewrite Eact. } { split; [constructor|]. intros ? Hx. by inversion Hx. }
  assert (sel <> []) as Hsne.
  { apply Hne. left. intros E%(f_equal length). rewrite length_map, length_seq in E. simpl in E. lia. }
  fold sel in Hsel.
  assert (forall p, p ∈ sel -> usable net1 p) as Huse.
  { intros p Hp. apply Hsel, elem_of_active in Hp. destruct Hfr as (E1 & _ & E3).
    unfold usable, node_at in *. by rewrite E1, E3. }
  eexists _, _. split; [reflexivity|]. split.
  2: { unfold MerkleLog.size. simpl. rewrite length_app. simpl. lia. }
  destruct (store_all_profile eid i d sel net1) as (Q1 & Q2 & Q3 & Q4). destruct Hfr as (F1 & F2 & F3).
  assert (profile_of net1 = profile_of net) as F4 by (unfold profile_of; by rewrite F1).
  assert (same_nodes net net1) as Hfr by done.
  split.
  - rewrite Q1, F4. apply Hi.
  - rewrite Q2, F3. apply Hi.
  - intros j d' [[Hj Hlk]|[-> ->]]%lookup_snoc_Some.
    + destruct (di_stored _ _ _ _ Hi j d' Hlk) as [(p & nd & Ep1 & Ep2 & Ep3) Huniq].
      assert ((eid, Z.of_nat j) <> (eid, i)) as Hne2 by (intros [= ?]; unfold i in *; lia). split.
      * exists p. apply serves_store_other; [done|]. exists nd. by rewrite F1.
      * intros q d2 [Hh|[? _]]%holds_store; [|done]. apply (Huniq q). by apply (holds_frame net net1).
    + split.
      * destruct sel as [|p sel'] eqn:Es; [done|]. exists p. rewrite <- Es in *. apply serves_store; [rewrite Es; constructor|].
        apply Huse. rewrite Es. constructor.
      * intros q d2 [Hh|[_ ?]]%holds_store; [|done]. apply (holds_frame net net1) in Hh; [|done].
        apply (di_rest _ _ _ _ Hi) in Hh. lia.
  - intros p j d2 [Hh|[[= ->] _]]%holds_store; rewrite length_app; simpl.
    + apply (holds_frame net net1) in Hh; [|done]. apply (di_rest _ _ _ _ Hi) in Hh. lia.
    + unfold i. lia.
  - intros j r Hj. rewrite length_app in Hj. simpl in Hj. rewrite Q3. apply Ec3.
    + intros [= ? _]. unfold i in *. lia.
    + apply (di_cache _ _ _ _ Hi). lia.
  - intros p e j d2 He. rewrite <- (di_other _ _ _ _ Hi) by done. rewrite <- (holds_frame net net1) by done. split.
    + intros [Hh|[[= ->] _]]%holds_store; done.
    + apply holds_store_other. congruence.
Qed.

#[local] Arguments distribute_one : simpl never.
#[local] Arguments fetch_one : simpl never.

Lemma distribute_from net0 eid rp encs dn t net : (0 < rp)%nat -> active_sorted net0 <> [] ->
  Z.of_nat (length dn + length encs) <= 2 ^ 32 -> MerkleLog.size t + Z.of_nat (length encs) <= CAPACITY ->
  dist_inv net0 eid dn net -> exists t' net',
    foldM (distribute_one rp eid) (t, net) (zip (map Z.of_nat (seq (length dn) (length encs))) encs) = Ok (t', net') /\
    dist_inv net0 eid (dn ++ encs) net'.
Proof.
  intros Hrp Ha. revert dn t net. induction encs as [|d encs IH]; intros dn t net Hl Hc Hi; simpl in *.
  - eexists _, _. split; [done|]. by rewrite app_nil_r.
  - destruct (distribute_one_ok net0 eid rp t net dn d) as (t1 & net1 & E1 & Hi1 & Hs1); try done; try lia.
    rewrite E1. destruct (IH (dn ++ [d]) t1 net1) as (t2 & net2 & E2 & Hi2); try done.
    + rewrite length_app. simpl. lia.
    + lia.
    + exists t2, net2. rewrite length_app in E2. simpl in E2. rewrite Nat.add_1_r in E2. split; [done|].
      by rewrite <- app_assoc in Hi2.
Qed.

Lemma distribute_ok net eid encs rp : (0 < rp)%nat -> active_sorted net <> [] ->
  Z.of_nat (length encs) <= CAPACITY -> fresh_entity net eid ->
  exists root net', distribute_encrypted_shards net eid encs rp = Ok (root, net') /\ dist_inv net eid encs net'.
Proof.
  intros Hrp Ha Hl [Hf Hc]. unfold distribute_encrypted_shards, enumerate.
  destruct (distribute_from net eid rp encs [] new_tree net) as (t & net' & E & Hi); try done.
  - unfold CAPACITY in Hl. cbn [length Nat.add]. lia.
  - split; try done.
    + intros p i d Hh. by apply Hf in Hh.
  - simpl in E. rewrite E. unfold mbind, result_bind. eauto.
Qed.

(** ** Retrieval *)
Lemma first_shard_spec net eid i ps :
  match first_shard net eid i ps with
  | Some d => exists p, p ∈ ps /\ serves net p eid i d
  | None => forall p d, p ∈ ps -> ~ serves net p eid i d
  end.
Proof.
  induction ps as [|p ps IH]; simpl; [by intros p d Hp; inversion Hp|].
  unfold fetch_shard, node_at at 1 2. destruct (nodes net !! p) as [nd|] eqn:E; simpl.
  - destruct (evicted nd) eqn:Ev.
    + destruct (first_shard net eid i ps).
      * destruct IH as (q & ? & ?). exists q. split; [by constructor|done].
      * intros q d Hq Hs. apply elem_of_cons in Hq as [->|Hq]; [|by eapply IH].
        destruct Hs as (nd' & E' & Ev' & _). congruence.
    + destruct (shards nd !! (eid, i)) as [d|] eqn:Es.
      * exists p. split; [constructor|]. by exists nd.
      * destruct (first_shard net eid i ps).
        -- destruct IH as (q & ? & ?). exists q. split; [by constructor|done].
        -- intros q d Hq Hs. apply elem_of_cons in Hq as [->|Hq]; [|by eapply IH].
           destruct Hs as (nd' & E' & _ & Es'). congruence.
  - rewrite lookup_empty. destruct (first_shard net eid i ps).
    + destruct IH as (q & ? & ?). exists q. split; [by constructor|done].
    + intros q d Hq Hs. apply elem_of_cons in Hq as [->|Hq]; [|by eapply IH].
      destruct Hs as (nd' & E' & _). congruence.
Qed.

Lemma placement_total net eid i rp : active_sorted net <> [] -> exists sel net', placement net eid i rp = Ok (sel, net').
Proof.
  intros Ha. destruct (decide (length (nodes net) = node_count_at_cache net)) as [Hc|Hc];
    [destruct (placement_cache net !! (eid, i, Z.of_nat rp)) as [sel|] eqn:E|].
  - exists sel, net. unfold placement. destruct (nodes net) as [|n0 ns] eqn:En.
    { destruct Ha. unfold active_sorted, eligible. by rewrite En. }
    rewrite <- En in *. rewrite Hc, Nat.eqb_refl. simpl. by rewrite E.
  - destruct (placement_uncached net eid i rp) as (net' & Ep & _); [by right|done|eauto].
  - destruct (placement_uncached net eid i rp) as (net' & Ep & _); [by left|done|eauto].
Qed.

Lemma serves_frame net net' p e i d : same_nodes net net' -> serves net' p e i d <-> serves net p e i d.
Proof. intros (E & _). unfold serves. by rewrite E. Qed.

Lemma same_nodes_trans a b c : same_nodes a b -> same_nodes b c -> same_nodes a c.
Proof. intros (? & ? & ?) (? & ? & ?). split_and!; congruence. Qed.

Lemma active_same_nodes net net' : same_nodes net net' -> active_sorted net' = active_sorted net.
Proof. intros (E & _ & G). apply active_of_profile; [|done]. unfold profile_of. by rewrite E. Qed.

Record fetch_inv (net0 : CommitmentNetwork) (eid : pystr) (dn : list nat)
  (st : gmap nat bytes * CommitmentNetwork) : Prop := {
  fi_nodes : same_nodes net0 st.2;
  fi_some : forall i d, st.1 !! i = Some d -> i ∈ dn /\ exists p, serves net0 p eid (Z.of_nat i) d;
  fi_none : forall i p d, i ∈ dn -> serves net0 p eid (Z.of_nat i) d -> is_Some (st.1 !! i)
}.

Lemma fetch_one_ok net0 eid mx dn i st : active_sorted net0 <> [] -> fetch_inv net0 eid dn st ->
  (base.size st.1 < mx)%nat ->
  exists st', fetch_one eid mx st i = Ok st' /\ fetch_inv net0 eid (dn ++ [i]) st'.
Proof.
  intros Ha Hi Hm. destruct st as [fetched net]. simpl in *. unfold fetch_one.
  destruct (Nat.leb_spec mx (base.size fetched)); [lia|].
  destruct (placement_total net eid (Z.of_nat i) 2) as (sel & net1 & Ep).
  { pose proof (active_same_nodes _ _ (fi_nodes _ _ _ _ Hi)) as Eact. simpl in Eact. by rewrite Eact. }
  rewrite Ep. unfold mbind, result_bind. apply placement_frame in Ep.
  assert (same_nodes net0 net1) as Hn by (eapply same_nodes_trans; [apply Hi|done]).
  assert (forall d, (exists p, serves net1 p eid (Z.of_nat i) d) -> 
    fetch_inv net0 eid (dn ++ [i]) (<[i := d]> fetched, net1)) as Hgo.
  { intros d (p & Hp). apply (serves_frame net0 net1) in Hp; [|done]. split; simpl; [done|..].
    - intros j d' Hj. destruct (decide (j = i)) as [->|Hne].
      + rewrite lookup_insert_eq in Hj. injection Hj as <-. set_solver.
      + rewrite lookup_insert_ne in Hj by done. destruct (fi_some _ _ _ _ Hi j d' Hj). set_solver.
    - intros j q d' Hj Hs. destruct (decide (j = i)) as [->|Hne]; [by rewrite lookup_insert_eq|].
      rewrite lookup_insert_ne by done. apply (fi_none _ _ _ _ Hi j q d'); set_solver. }
  pose proof (first_shard_spec net1 eid (Z.of_nat i) sel) as H1.
  destruct (first_shard net1 eid (Z.of_nat i) sel) as [d|].
  { destruct H1 as (p & _ & Hp). eauto. }
  pose proof (first_shard_spec net1 eid (Z.of_nat i) (seq 0 (length (nodes net1)))) as H2.
  destruct (first_shard net1 eid (Z.of_nat i) (seq 0 _)) as [d|].
  { destruct H2 as (p & _ & Hp). eauto. }
  eexists. split; [done|]. split; simpl; [done|..].
  - intros j d Hj. destruct (fi_some _ _ _ _ Hi j d Hj). set_solver.
  - intros j q d Hj Hs. apply elem_of_app in Hj as [Hj|Hj%list_elem_of_singleton]; [by eapply (fi_none _ _ _ _ Hi)|].
    subst j. exfalso. apply (serves_frame net0 net1) in Hs; [|done]. eapply H2, Hs.
    destruct Hs as (nd & E & _). apply lookup_lt_Some in E. apply elem_of_seq. lia.
Qed.

Lemma fetch_inv_size net0 eid n st : fetch_inv net0 eid (seq 0 n) st -> (base.size st.1 <= n)%nat.
Proof.
  intros Hi. assert (dom st.1 ⊆ list_to_set (seq 0 n)) as Hs.
  { intros i (d & Hd)%elem_of_dom. apply elem_of_list_to_set. by destruct (fi_some _ _ _ _ Hi i d Hd). }
  apply subseteq_size in Hs. rewrite size_dom, size_list_to_set, length_seq in Hs by apply NoDup_seq. done.
Qed.

Lemma fetch_ok net eid n : active_sorted net <> [] ->
  exists fetched net', fetch_encrypted_shards net eid n n = Ok (fetched, net') /\ same_nodes net net' /\
    (forall i d, fetched !! i = Some d -> (i < n)%nat /\ exists p, serves net p eid (Z.of_nat i) d) /\
    (forall i p d, (i < n)%nat -> serves net p eid (Z.of_nat i) d -> is_Some (fetched !! i)).
Proof.
  intros Ha. unfold fetch_encrypted_shards.
  assert (forall m, (m <= n)%nat -> exists st, foldM (fetch_one eid n) (∅, net) (seq 0 m) = Ok st /\
    fetch_inv net eid (seq 0 m) st) as H1.
  { induction m as [|m IH]; intros Hm.
    - eexists. split; [done|]. split; simpl; [done|..]. { intros i d Hd. by rewrite lookup_empty in Hd. }
      intros i p d Hin. by inversion Hin.
    - destruct IH as (st & E & Hi); [lia|]. rewrite seq_S, foldM_app, E. simpl.
      destruct (fetch_one_ok net eid n (seq 0 m) m st Ha Hi) as (st' & E' & Hi').
      { apply fetch_inv_size in Hi. lia. }
      rewrite E'. by exists st'. }
  destruct (H1 n (le_n _)) as ([fetched net'] & E & Hi). exists fetched, net'. split; [done|]. split; [apply Hi|]. split.
  - intros i d Hd. destruct (fi_some _ _ _ _ Hi i d Hd) as [Hin ?]. apply elem_of_seq in Hin. split; [lia|done].
  - intros i p d Hin. apply (fi_none _ _ _ _ Hi). apply elem_of_seq. lia.
Qed.
End Placement.

(** Placement.  For a shard without a cached placement, in a network
    with a usable node, [_placement] answers with at least one and at most
    [replicas] distinct nodes, each active and inside the geo-fence, changes
    no node, and answers the same list when asked again. *)
Theorem placement_correct ihash net eid i replicas :
  uncached net eid i replicas -> (exists p, usable net p) -> (0 < replicas)%nat ->
  exists sel net', placement ihash net eid i replicas = Ok (sel, net') /\
    (1 <= length sel <= replicas)%nat /\ NoDup sel /\ (forall p, p ∈ sel -> usable net p) /\
    nodes net' = nodes net /\ placement ihash net' eid i replicas = Ok (sel, net').
Proof.
  intros Hu (p0 & Hp0) Hr. assert (active_sorted net <> []) as Ha.
  { apply elem_of_active in Hp0. intros E. rewrite E in Hp0. by inversion Hp0. }
  destruct (placement_uncached ihash net eid i replicas Hu Ha) as (net' & Ep & Ec & En & _).
  eexists _, net'. split; [exact Ep|]. set (sel := fold_left _ _ _) in *.
  destruct (place_replicas_ok ihash (active_sorted net) eid i (map Z.of_nat (seq 0 replicas)) []) as ((Hnd & Hin) & Hle & Hne); [done|..].
  { split; [constructor|]. intros ? Hx. by inversion Hx. }
  fold sel in Hnd, Hin, Hle, Hne. rewrite length_map, length_seq in Hle. simpl in Hle.
  assert (sel <> []) as Hsne. { apply Hne. left. destruct replicas; [lia|done]. }
  apply placement_frame in Ep as Hfr. destruct Hfr as (Fn & _ & _). split_and!; try done.
  - destruct sel; [done|simpl; lia].
  - intros p Hp. by apply elem_of_active, Hin.
  - unfold placement. destruct (nodes net') as [|n0 ns] eqn:E.
    + destruct Hp0 as [Hlt _]. rewrite <- Fn in Hlt. simpl in Hlt. lia.
    + rewrite <- E, En, <- Fn, E, Nat.eqb_refl. simpl. by rewrite Ec.
Qed.

(** Retrieval.  In any network with a usable node, whatever the nodes
    store and whatever the cache says, fetching the [n] shards of an entity
    succeeds; every shard returned is served by some active node under its
    own index; and every index some active node serves is returned. *)
Theorem fetch_exact ihash net eid n : (exists p, usable net p) ->
  exists fetched net', fetch_encrypted_shards ihash net eid n n = Ok (fetched, net') /\ nodes net' = nodes net /\
    (forall i d, fetched !! i = Some d -> (i < n)%nat /\ exists p, serves net p eid (Z.of_nat i) d) /\
    (forall i p d, (i < n)%nat -> serves net p eid (Z.of_nat i) d -> is_Some (fetched !! i)).
Proof.
  intros (p0 & Hp0). destruct (fetch_ok ihash net eid n) as (f & net' & E & (Hn & _) & H1 & H2).
  { apply elem_of_active in Hp0. intros E. rewrite E in Hp0. by inversion Hp0. }
  by exists f, net'.
Qed.

(** Three nodes in three regions, one shard of one entity already stored. *)
Definition three_nodes : CommitmentNetwork :=
  add_node (add_node (add_node empty_network (lit "n1") (lit "us")) (lit "n2") (lit "eu")) (lit "n3") (lit "ap").
Definition one_shard : CommitmentNetwork := store_at (lit "e") 1 (lit "shard") three_nodes 2.

Lemma placement_correct_witness : exists sel net',
  placement quick_digest three_nodes (lit "e") 1 2 = Ok (sel, net') /\ (1 <= length sel <= 2)%nat /\ NoDup sel.
Proof.
  destruct (placement_correct quick_digest three_nodes (lit "e") 1 2) as (sel & net' & E & Hl & Hnd & _).
  - right. reflexivity.
  - exists 0%nat. split; [vm_compute; lia|]. split; done.
  - lia.
  - exists sel, net'. split; [exact E|]. split; [exact Hl|exact Hnd].
Defined.

Lemma fetch_exact_witness : exists fetched net',
  fetch_encrypted_shards quick_digest one_shard (lit "e") 2 2 = Ok (fetched, net') /\ is_Some (fetched !! 1%nat).
Proof.
  destruct (fetch_exact quick_digest one_shard (lit "e") 2) as (fetched & net' & E & _ & _ & H).
  - exists 0%nat. split; [vm_compute; lia|]. split; done.
  - exists fetched, net'. split; [exact E|]. apply (H 1%nat 2%nat (lit "shard")); [lia|].
    exists (node_at one_shard 2). split; [reflexivity|]. split; reflexivity.
Defined.
