(* ===== verification/Protocol.v ===== *)
(** The three-phase transfer protocol: shard encryption
    (src/src/ltp/shards.py), entities (entity.py, [compute_id]), lattice keys
    (lattice.py), the key registry (keypair.py) and [LTPProtocol]
    (protocol.py): commit, lattice, materialize.

    An operation that raises returns the exception alone; what a raising call
    has already stored (a registered key, distributed shards) is not kept.
    Logging and the session objects, which no phase reads, are left out. *)

From S2P Require Import Prelude Erasure Float64 Sha3 Sha256 Hashing Primitives Encoding MerkleTree MerkleLog Commitment Network.
Import CanonicalEncoder.

(** [bytes.fromhex]: pairs of hexadecimal digits, white space skipped. *)
Definition unhex_digit (c : Z) : option Z :=
  if (48 <=? c) && (c <=? 57) then Some (c - 48)
  else if (97 <=? c) && (c <=? 102) then Some (c - 87)
  else if (65 <=? c) && (c <=? 70) then Some (c - 55)
  else None.
Definition is_space (c : Z) : bool := ((9 <=? c) && (c <=? 13)) || (c =? 32).
Fixpoint fromhex (s : pystr) : result bytes :=
  match s with
  | [] => Ok []
  | c :: s' =>
      if is_space c then fromhex s'
      else
        match unhex_digit c, s' with
        | Some hi, d :: s'' =>
            match unhex_digit d with
            | Some lo => bs ← fromhex s''; Ok (16 * hi + lo :: bs)
            | None => Err (ValueError "non-hexadecimal number found in fromhex() arg")
            end
        | _, _ => Err (ValueError "non-hexadecimal number found in fromhex() arg")
        end
  end.

Lemma fromhex_hex bs : wf_bytes bs -> fromhex (hex bs) = Ok bs.
Proof.
  unfold hex. induction 1 as [|b bs Hb _ IH]; [done|].
  assert (forall d, 0 <= d < 16 -> is_space (hex_digit d) = false /\ unhex_digit (hex_digit d) = Some d) as Hd.
  { intros d Hd. assert (d ∈ seqZ 0 16) as Hin by (apply elem_of_seqZ; lia).
    revert d Hd Hin. assert (Forall (fun d => is_space (hex_digit d) = false /\ unhex_digit (hex_digit d) = Some d)
      (seqZ 0 16)) as Hall by (repeat constructor). rewrite Forall_forall in Hall. auto. }
  unfold isb in Hb. destruct (Hd (b / 16)) as [S1 U1].
  { split; [apply Z.div_pos; lia|apply Z.div_lt_upper_bound; lia]. }
  destruct (Hd (b mod 16)) as [S2 U2]; [apply Z.mod_pos_bound; lia|].
  cbn [map concat]. simpl app. cbn [fromhex]. rewrite S1, U1, U2, IH. unfold mbind, result_bind.
  do 2 f_equal. pose proof (Z.div_mod b 16). lia.
Qed.

(** * shards.py *)
Module ShardEncryptor.
Definition CEK_TRACKING_LIMIT : nat := Z.to_nat 100000.
Definition HKDF_SALT : bytes := lit "ETP-SHARD-NONCE-v1".

(** The class's record of recent keys, oldest first. *)
Definition generate_cek (issued : list bytes) (random : bytes) : result (bytes * list bytes) :=
  if bool_decide (random ∈ issued) then Err RuntimeError
  else
    let issued := issued ++ [random] in
    Ok (random, if (CEK_TRACKING_LIMIT <? length issued)%nat then tail issued else issued).

Definition validate_cek (cek : bytes) : result () :=
  if negb (length cek =? 32)%nat then Err (ValueError "CEK must be exactly 32 bytes")
  else if bool_decide (cek = repeat 0 32) then Err (ValueError "CEK is all-zero")
  else if bool_decide (cek = repeat 255 32) then Err (ValueError "CEK is all-one")
  else Ok ().

Definition extract_prk (cek : bytes) : bytes := hmac_sha256 HKDF_SALT cek.

Definition nonce (cek entity_id : bytes) (shard_index : Z) : result bytes :=
  let prk := extract_prk cek in
  index_bytes ← struct_pack 4 shard_index;
  let expanded := hmac_sha256 prk (entity_id ++ index_bytes ++ [1]) in
  Ok (take (Z.to_nat NONCE_SIZE) expanded).

Definition aad (entity_id : pystr) (shard_index : Z) : result bytes :=
  index_bytes ← struct_pack 4 shard_index; Ok (entity_id ++ index_bytes).

Section Encrypt.
Context (pq : pq_backend).

Definition encrypt_shard (cek entity_id plaintext_shard : bytes) (shard_index : Z) : result bytes :=
  _ ← validate_cek cek;
  n ← nonce cek entity_id shard_index;
  a ← aad entity_id shard_index;
  AEAD_encrypt pq cek plaintext_shard n a.

Definition decrypt_shard (cek entity_id encrypted_shard : bytes) (shard_index : Z) : result bytes :=
  n ← nonce cek entity_id shard_index;
  a ← aad entity_id shard_index;
  AEAD_decrypt pq cek encrypted_shard n a.

Definition valid_cek (cek : bytes) : Prop := validate_cek cek = Ok ().

Lemma nonce_Ok cek eid i : 0 <= i < 2 ^ 32 -> exists n, nonce cek eid i = Ok n /\ len n = NONCE_SIZE.
Proof.
  intros Hi. unfold nonce, struct_pack. change (256 ^ Z.of_nat 4) with (2 ^ 32).
  destruct (Z.leb_spec 0 i), (Z.ltb_spec i (2 ^ 32)); try lia. simpl andb. cbv iota. unfold mbind, result_bind.
  eexists. split; [done|]. unfold len. rewrite length_take, hmac_sha256_length. done.
Qed.

Lemma aad_Ok eid i : 0 <= i < 2 ^ 32 -> exists a, aad eid i = Ok a.
Proof.
  intros Hi. unfold aad, struct_pack. change (256 ^ Z.of_nat 4) with (2 ^ 32).
  destruct (Z.leb_spec 0 i), (Z.ltb_spec i (2 ^ 32)); try lia. eexists. reflexivity.
Qed.

Lemma shard_roundtrip cek eid pt i : aead_ok pq -> valid_cek cek -> 0 <= i < 2 ^ 32 ->
  exists ct, encrypt_shard cek eid pt i = Ok ct /\ decrypt_shard cek eid ct i = Ok pt.
Proof.
  intros Ha Hc Hi. unfold encrypt_shard, decrypt_shard. rewrite Hc.
  destruct (nonce_Ok cek eid i Hi) as (n & -> & Hn). destruct (aad_Ok eid i Hi) as (a & ->).
  unfold mbind, result_bind. destruct (AEAD_roundtrip pq cek pt n a Ha Hn) as (ct & -> & _ & Hd). eauto.
Qed.
End Encrypt.
End ShardEncryptor.

(** * entity.py *)
Record Entity : Type := { content : bytes; e_shape : pystr }.

Section EntityId.
Context `{CanonicalHash}.
Definition identity_input (content shape : bytes) (ts : Float64.float64) (vk : bytes) : result bytes :=
  t ← struct_pack 8 ts; Ok (content ++ shape ++ t ++ vk).
Definition compute_id (e : Entity) (sender_vk : bytes) (ts : Float64.float64) : result pystr :=
  input ← identity_input (content e) (e_shape e) ts sender_vk; Ok (chash_str input).

(** The identity is not prefix-free: content and shape are hashed
    without a separator, so moving the first character of the shape into the
    content gives a different entity with the same EntityID, for any hash,
    sender and time. *)
Theorem entity_id_ambiguous c a b ts vk :
  compute_id {| content := c; e_shape := a :: b |} vk ts =
  compute_id {| content := c ++ [a]; e_shape := b |} vk ts.
Proof.
  unfold compute_id, identity_input, mbind, result_bind. simpl content. simpl e_shape.
  destruct (struct_pack 8 ts); [|done]. by rewrite <- app_assoc.
Qed.
End EntityId.

(** * keypair.py: [KeyRegistry] *)
Definition registry : Type := gmap pystr KeyPair.
Definition registry_register (reg : registry) (kp : KeyPair) : result registry :=
  match kp_label kp with
  | [] => Err (ValueError "Cannot register a keypair without a label")
  | _ => Ok (<[kp_label kp := kp]> reg)
  end.

(** * lattice.py *)
(** [json.dumps] and [json.loads] on a lattice key's four-field object. *)
Class KeyJson : Type := {
  policy : Type;
  default_policy : policy;
  json_dumps : pystr -> pystr -> pystr -> policy -> bytes;
  json_loads : bytes -> result (pystr * pystr * pystr * policy);
  json_roundtrip : forall e c r p, json_loads (json_dumps e c r p) = Ok (e, c, r, p)
}.

Section LatticeKey.
Context `{KeyJson} (pq : pq_backend) (profile : SecurityProfile).

Record LatticeKey : Type := {
  k_entity_id : pystr;
  k_cek : bytes;
  k_commitment_ref : pystr;
  k_access_policy : policy
}.

Definition plaintext_payload (k : LatticeKey) : bytes :=
  json_dumps (k_entity_id k) (hex (k_cek k)) (k_commitment_ref k) (k_access_policy k).

Definition seal (k : LatticeKey) (receiver_ek rnd nonce : bytes) : result bytes :=
  SealedBox_seal pq profile (plaintext_payload k) receiver_ek rnd nonce.

Definition unseal (sealed_data : bytes) (receiver : KeyPair) : result LatticeKey :=
  plaintext ← SealedBox_unseal pq profile sealed_data receiver;
  '(e, c, r, p) ← json_loads plaintext;
  cek ← fromhex c;
  Ok {| k_entity_id := e; k_cek := cek; k_commitment_ref := r; k_access_policy := p |}.

Lemma unseal_seal_key k receiver rnd nonce :
  aead_ok pq -> kem_pair pq profile (kp_ek receiver) (kp_dk receiver) -> kp_hsm receiver = None ->
  len nonce = NONCE_SIZE -> wf_bytes (k_cek k) ->
  exists sealed, seal k (kp_ek receiver) rnd nonce = Ok sealed /\ unseal sealed receiver = Ok k.
Proof.
  intros Ha Hk Hh Hn Hw. unfold seal, unseal.
  destruct (unseal_seal_ok pq profile receiver (plaintext_payload k) rnd nonce Ha Hk Hh Hn) as (sl & E1 & _ & E2).
  exists sl. split; [done|]. rewrite E2. unfold mbind, result_bind, plaintext_payload.
  rewrite json_roundtrip, fromhex_hex by done. by destruct k.
Qed.
End LatticeKey.

(** * protocol.py *)
Record LTPProtocol : Type := {
  network : CommitmentNetwork;
  clog : CommitmentLog.clog;
  default_n : nat;
  default_k : nat;
  entity_sizes : gmap pystr Z;
  key_registry : registry;
  issued_ceks : list bytes
}.

Section Protocol.
Context `{CanonicalHash} `{KeyJson} (pq : pq_backend) (profile : SecurityProfile) (ihash : bytes -> bytes).

(** [record.sign] and [record.verify_signature] *)
Definition sign_record (r : CommitmentRecord) (sender : signer) : result CommitmentRecord :=
  payload ← signable_payload r;
  sig ← sign_with pq profile sender payload;
  Ok (with_signature r sig).

Definition verify_signature (r : CommitmentRecord) (vk : bytes) : result bool :=
  match signature r with
  | [] => Ok false
  | _ => payload ← signable_payload r; MLDSA_verify pq profile vk payload (signature r)
  end.

(** [n or self.default_n] *)
Definition or_default (n : option nat) (d : nat) : nat :=
  match n with None | Some O => d | Some n => n end.

Definition encoding_params_of (n k : nat) : list (pystr * param) := [
  (lit "n", PInt (Z.of_nat n)); (lit "k", PInt (Z.of_nat k)); (lit "algorithm", PStr (lit "reed-solomon-gf256"));
  (lit "gf_poly", PStr (lit "0x11d")); (lit "eval", PStr (lit "vandermonde-powers-of-0x02"))].

Definition encrypt_shards (cek eid : bytes) (shards : list bytes) : result (list bytes) :=
  mapR (fun ish => ShardEncryptor.encrypt_shard pq cek eid ish.2 ish.1) (enumerate shards).

Definition unsigned_record (eid sender_id root : pystr) (e : Entity) (n k : nat) (ts : Float64.float64) (vk : bytes)
  : CommitmentRecord :=
  {| entity_id := eid; sender_id := sender_id; shard_map_root := root; content_hash := chash_str (content e);
     encoding_params := encoding_params_of n k; shape := e_shape e; shape_hash := chash_str (e_shape e);
     timestamp := ts; ttl_epochs := None; predecessor := None; signature := []; sender_vk := vk |}.

(** [commit], at time [ts]; [random] is the key drawn, [now] the log's clock. *)
Definition commit (st : LTPProtocol) (e : Entity) (sender : KeyPair) (n k : option nat)
  (ts : Float64.float64) (random : bytes) (now : Float64.float64)
  : result (pystr * CommitmentRecord * bytes * LTPProtocol) :=
  let n := or_default n (default_n st) in
  let k := or_default k (default_k st) in
  reg ← registry_register (key_registry st) sender;
  eid ← compute_id e (kp_vk sender) ts;
  plaintext_shards ← ErasureCoder.encode None (content e) n k;
  '(cek, issued) ← ShardEncryptor.generate_cek (issued_ceks st) random;
  encrypted_shards ← encrypt_shards cek eid plaintext_shards;
  '(root, net) ← distribute_encrypted_shards ihash (network st) eid encrypted_shards 2;
  record ← sign_record (unsigned_record eid (kp_label sender) root e n k ts (kp_vk sender)) (FromKeyPair sender);
  '(_, record, lg) ← CommitmentLog.append pq profile (clog st) record now;
  Ok (eid, record, cek,
      {| network := net; clog := lg; default_n := default_n st; default_k := default_k st;
         entity_sizes := <[eid := Z.of_nat (length (content e))]> (entity_sizes st);
         key_registry := reg; issued_ceks := issued |}).

(** [lattice]; [rnd] and [nonce] are the randomness of the seal, and
    [access_policy] is the given policy unless it is falsy: [None] stands for an
    absent policy and for an empty dictionary alike. *)
Definition lattice (eid : pystr) (record : CommitmentRecord) (cek : bytes) (receiver : KeyPair)
  (access_policy : option policy) (rnd nonce : bytes) : result bytes :=
  rb ← to_bytes record;
  seal pq profile {| k_entity_id := eid; k_cek := cek; k_commitment_ref := chash_str rb;
                     k_access_policy := default default_policy access_policy |} (kp_ek receiver) rnd nonce.

Definition dict_get (d : list (pystr * param)) (key : pystr) : option param :=
  snd <$> head (filter (fun kv => kv.1 = key) d).

(** [record.encoding_params[key]] used as an integer. *)
Definition int_param (r : CommitmentRecord) (key : pystr) : result Z :=
  match dict_get (encoding_params r) key with
  | Some (PInt z) => Ok z
  | Some (PStr _) => Err TypeError
  | None => Err KeyError
  end.

Definition decrypt_one (cek eid : bytes) (acc : gmap nat bytes) (ish : nat * bytes) : result (gmap nat bytes) :=
  match ShardEncryptor.decrypt_shard pq cek eid ish.2 (Z.of_nat ish.1) with
  | Ok pt => Ok (<[ish.1 := pt]> acc)
  | Err (ValueError _) => Ok acc
  | Err x => Err x
  end.

Definition resolve_sender_vk (st : LTPProtocol) (record : CommitmentRecord) : option bytes :=
  match key_registry st !! sender_id record with
  | Some kp => Some (kp_vk kp)
  | None => match sender_vk record with [] => None | vk => Some vk end
  end.

Definition with_network (st : LTPProtocol) (net : CommitmentNetwork) : LTPProtocol :=
  {| network := net; clog := clog st; default_n := default_n st; default_k := default_k st;
     entity_sizes := entity_sizes st; key_registry := key_registry st; issued_ceks := issued_ceks st |}.

(** Steps 5 to 9 of [materialize], once the record is authenticated.  [n] and [k]
    of the record are counts here: where the code fails on negative ones inside
    the decoder the model fails there too, with another exception. *)
Definition recover (st : LTPProtocol) (key : LatticeKey) (record : CommitmentRecord) (vk : bytes)
  : result (option bytes * LTPProtocol) :=
  n ← int_param record (lit "n");
  k ← int_param record (lit "k");
  '(encrypted_shards, net) ← fetch_encrypted_shards ihash (network st) (k_entity_id key) (Z.to_nat n) (Z.to_nat n);
  let st := with_network st net in
  if Z.of_nat (base.size encrypted_shards) <? k then Ok (None, st)
  else
    plaintext_shards ← foldM (decrypt_one (k_cek key) (k_entity_id key)) ∅ (map_to_list encrypted_shards);
    if Z.of_nat (base.size plaintext_shards) <? k then Ok (None, st)
    else
      entity_content ← ErasureCoder.decode None plaintext_shards (Z.to_nat n) (Z.to_nat k);
      input ← identity_input entity_content (shape record) (timestamp record) vk;
      if bool_decide (chash_str input = k_entity_id key) then Ok (Some entity_content, st) else Ok (None, st).

Definition materialize (st : LTPProtocol) (sealed_key : bytes) (receiver : KeyPair)
  (record : option CommitmentRecord) : result (option bytes * LTPProtocol) :=
  match unseal pq profile sealed_key receiver with
  | Err (ValueError _) => Ok (None, st)
  | Err x => Err x
  | Ok key =>
      match (match record with Some r => Some r | None => CommitmentLog.fetch (clog st) (k_entity_id key) end) with
      | None => Ok (None, st)
      | Some record =>
          rb ← to_bytes record;
          if negb (bool_decide (chash_str rb = k_commitment_ref key)) then Ok (None, st)
          else
            match resolve_sender_vk st record with
            | None => Ok (None, st)
            | Some vk =>
                ok ← verify_signature record vk;
                if negb ok then Ok (None, st) else recover st key record vk
            end
      end
  end.

(** ** Recovery *)
(** Every active node that serves the shard serves [d], and one does. *)
Definition intact (net : CommitmentNetwork) (eid : pystr) (i : nat) (d : bytes) : Prop :=
  (exists p, serves net p eid (Z.of_nat i) d) /\ forall p d', serves net p eid (Z.of_nat i) d' -> d' = d.

(** What the network may have become: a usable node is left, at least [k]
    shards are intact, and anything else served is rejected by the AEAD. *)
Record survives (net : CommitmentNetwork) (eid cek : bytes) (encs : list bytes) (k : nat) : Prop := {
  sv_usable : exists p, usable net p;
  sv_good : exists good, NoDup good /\ (k <= length good)%nat /\
              forall i, i ∈ good -> exists d, encs !! i = Some d /\ intact net eid i d;
  sv_rest : forall i p d, serves net p eid (Z.of_nat i) d -> encs !! i = Some d \/
              exists m, ShardEncryptor.decrypt_shard pq cek eid d (Z.of_nat i) = Err (ValueError m)
}.

Lemma decrypt_all cek eid l acc :
  (forall i d, (i, d) ∈ l -> (exists pt, ShardEncryptor.decrypt_shard pq cek eid d (Z.of_nat i) = Ok pt) \/
     exists m, ShardEncryptor.decrypt_shard pq cek eid d (Z.of_nat i) = Err (ValueError m)) ->
  exists out, foldM (decrypt_one cek eid) acc l = Ok out /\
    (forall i pt, out !! i = Some pt -> acc !! i = Some pt \/
       exists d, (i, d) ∈ l /\ ShardEncryptor.decrypt_shard pq cek eid d (Z.of_nat i) = Ok pt) /\
    (forall i, is_Some (acc !! i) -> is_Some (out !! i)) /\
    (forall i d pt, (i, d) ∈ l -> ShardEncryptor.decrypt_shard pq cek eid d (Z.of_nat i) = Ok pt -> is_Some (out !! i)).
Proof.
  revert acc. induction l as [|[i d] l IH]; intros acc Hl; cbn [foldM].
  { exists acc. split_and!; auto. intros ??? Hx. by inversion Hx. }
  unfold decrypt_one at 1. cbn [fst snd].
  destruct (Hl i d) as [[pt E]|[m E]]; [constructor|..]; rewrite E.
  - destruct (IH (<[i := pt]> acc)) as (out & Eo & Ho1 & Ho2 & Ho3); [intros; apply Hl; by constructor|].
    exists out. split; [done|]. split_and!.
    + intros j pt' Hj. destruct (Ho1 j pt' Hj) as [Ha|(d' & ? & ?)].
      * destruct (decide (i = j)) as [->|Hne]; [rewrite lookup_insert_eq in Ha|rewrite lookup_insert_ne in Ha by done]; [|by left].
        injection Ha as <-. right. exists d. split; [constructor|done].
      * right. exists d'. split; [by constructor|done].
    + intros j Hj. apply Ho2. destruct (decide (i = j)) as [->|]; [by rewrite lookup_insert_eq|by rewrite lookup_insert_ne].
    + intros j d' pt' Hin Ed. apply elem_of_cons in Hin as [[= -> ->]|Hin]; [|by eapply Ho3].
      apply Ho2. by rewrite lookup_insert_eq.
  - destruct (IH acc) as (out & Eo & Ho1 & Ho2 & Ho3); [intros; apply Hl; by constructor|].
    exists out. split; [done|]. split_and!; [|done|].
    + intros j pt' Hj. destruct (Ho1 j pt' Hj) as [?|(d' & ? & ?)]; [by left|]. right. exists d'. split; [by constructor|done].
    + intros j d' pt' Hin Ed. apply elem_of_cons in Hin as [[= -> ->]|Hin]; [congruence|by eapply Ho3].
Qed.

Lemma size_dom_ge (m : gmap nat bytes) good : NoDup good -> (forall i, i ∈ good -> is_Some (m !! i)) ->
  (length good <= base.size m)%nat.
Proof.
  intros Hnd Hg. assert (list_to_set good ⊆ dom m) as Hs.
  { intros i Hi%elem_of_list_to_set. by apply elem_of_dom, Hg. }
  apply subseteq_size in Hs. by rewrite size_list_to_set, size_dom in Hs.
Qed.

Lemma recover_ok st key record vk c n k shards encs input :
  int_param record (lit "n") = Ok (Z.of_nat n) -> int_param record (lit "k") = Ok (Z.of_nat k) ->
  wf_bytes c -> ErasureCoder.encode None c n k = Ok shards -> (length encs <= n)%nat ->
  (forall (i : nat) ct, encs !! i = Some ct -> exists pt, shards !! i = Some pt /\
     ShardEncryptor.decrypt_shard pq (k_cek key) (k_entity_id key) ct (Z.of_nat i) = Ok pt) ->
  survives (network st) (k_entity_id key) (k_cek key) encs k ->
  identity_input c (shape record) (timestamp record) vk = Ok input -> chash_str input = k_entity_id key ->
  exists net', recover st key record vk = Ok (Some c, with_network st net').
Proof.
  intros En Ek Hw Henc Hlen Hdec Hsv Hid Heid. unfold recover. rewrite En, Ek. unfold mbind, result_bind.
  rewrite !Nat2Z.id. destruct Hsv as [(p0 & Hp0) (good & Hnd & Hgl & Hgood) Hrest].
  destruct (fetch_ok ihash (network st) (k_entity_id key) n) as (fetched & net' & Ef & _ & Hf1 & Hf2).
  { apply elem_of_active in Hp0. intros E. rewrite E in Hp0. by inversion Hp0. }
  rewrite Ef. assert (forall i, i ∈ good -> exists d, fetched !! i = Some d /\ encs !! i = Some d) as Hgf.
  { intros i Hi. destruct (Hgood i Hi) as (d & Ed & (p & Hp) & Huniq).
    apply lookup_lt_Some in Ed as Hlt. destruct (Hf2 i p d) as [d' Hd']; [lia|done|].
    destruct (Hf1 i d' Hd') as (_ & q & Hq). rewrite (Huniq q d' Hq) in Hd'. eauto. }
  assert (k <= base.size fetched)%nat.
  { etrans; [exact Hgl|]. apply size_dom_ge; [done|]. intros i Hi. destruct (Hgf i Hi) as (d & -> & _). eauto. }
  destruct (Z.ltb_spec (Z.of_nat (base.size fetched)) (Z.of_nat k)); [lia|].
  destruct (decrypt_all (k_cek key) (k_entity_id key) (map_to_list fetched) ∅) as (out & Eo & Ho1 & _ & Ho3).
  { intros i d Hin%elem_of_map_to_list. destruct (Hf1 i d Hin) as (_ & p & Hp).
    destruct (Hrest i p d Hp) as [Hg|Hr]; [|by right]. left. destruct (Hdec i d Hg) as (pt & _ & E). eauto. }
  rewrite Eo. assert (k <= base.size out)%nat.
  { etrans; [exact Hgl|]. apply size_dom_ge; [done|]. intros i Hi. destruct (Hgf i Hi) as (d & Hd & He).
    destruct (Hdec i d He) as (pt & _ & E). eapply Ho3; [by apply elem_of_map_to_list|exact E]. }
  destruct (Z.ltb_spec (Z.of_nat (base.size out)) (Z.of_nat k)); [lia|].
  rewrite (ErasureCoder.decode_any_k c n k shards out Hw Henc); [|..|done].
  - rewrite Hid. rewrite bool_decide_eq_true_2 by done. eauto.
  - intros i pt Hpt. destruct (Ho1 i pt Hpt) as [Hx|(d & Hin & Ed)]; [by rewrite lookup_empty in Hx|].
    apply elem_of_map_to_list in Hin. destruct (Hf1 i d Hin) as (_ & p & Hp).
    destruct (Hrest i p d Hp) as [Hg|[m Hm]]; [|congruence].
    destruct (Hdec i d Hg) as (pt' & Hs & E). congruence.
Qed.

(** ** What a successful commit has done *)
Record committed (st : LTPProtocol) (e : Entity) (sender : KeyPair) (n k : nat) (ts : Float64.float64)
  (eid : pystr) (record : CommitmentRecord) (cek : bytes) (encs : list bytes) (st1 : LTPProtocol) : Prop := {
  cm_id : exists input, identity_input (content e) (e_shape e) ts (kp_vk sender) = Ok input /\ eid = chash_str input;
  cm_shards : exists shards, ErasureCoder.encode None (content e) n k = Ok shards /\
                encrypt_shards cek eid shards = Ok encs;
  cm_net : exists root, distribute_encrypted_shards ihash (network st) eid encs 2 = Ok (root, network st1);
  cm_record : exists root sig pred,
     record = with_predecessor (with_signature (unsigned_record eid (kp_label sender) root e n k ts (kp_vk sender)) sig) pred /\
     exists payload, signable_payload record = Ok payload /\
                     sign_with pq profile (FromKeyPair sender) payload = Ok sig;
  cm_bytes : exists rb, to_bytes record = Ok rb;
  cm_log : CommitmentLog.fetch (clog st1) eid = Some record;
  cm_registry : key_registry st1 !! kp_label sender = Some sender
}.

Lemma commit_Ok st e sender n k ts random now eid record cek st1 :
  commit st e sender n k ts random now = Ok (eid, record, cek, st1) ->
  exists encs, committed st e sender (or_default n (default_n st)) (or_default k (default_k st)) ts eid record cek encs st1.
Proof.
  unfold commit. set (n' := or_default n _). set (k' := or_default k _). unfold mbind, result_bind.
  destruct (registry_register (key_registry st) sender) as [reg|] eqn:Ereg; [|done].
  unfold compute_id, mbind, result_bind.
  destruct (identity_input (content e) (e_shape e) ts (kp_vk sender)) as [input|] eqn:Eid; [|done].
  destruct (ErasureCoder.encode None (content e) n' k') as [shards|] eqn:Eenc; [|done].
  destruct (ShardEncryptor.generate_cek (issued_ceks st) random) as [[cek' issued]|] eqn:Ecek; [|done].
  destruct (encrypt_shards cek' (chash_str input) shards) as [encs|] eqn:Ecs; [|done].
  destruct (distribute_encrypted_shards ihash (network st) (chash_str input) encs 2) as [[root net]|] eqn:Ed; [|done].
  destruct (sign_record _ (FromKeyPair sender)) as [r0|] eqn:Es; [|done].
  destruct (CommitmentLog.append pq profile (clog st) r0 now) as [[[ref r1] lg]|] eqn:Ea; [|done].
  intros [= <- <- <- <-]. exists encs.
  unfold sign_record, mbind, result_bind in Es.
  destruct (signable_payload (unsigned_record _ _ _ _ _ _ _ _)) as [payload|] eqn:Ep; [|done].
  destruct (sign_with pq profile (FromKeyPair sender) payload) as [sig|] eqn:Esig; [|done].
  apply Ok_inj in Es as <-.
  unfold CommitmentLog.append in Ea. destruct (CommitmentLog.records (clog st) !! _) eqn:Enone; [done|].
  unfold mbind, result_bind in Ea. destruct (to_bytes _) as [rb|] eqn:Erb; [|done].
  destruct (log_append _ rb) as [[idx ml]|]; [|done]. destruct (publish_sth _ _ ml now) as [[s ml2]|]; [|done].
  injection Ea as <- <- <-. split; simpl; eauto.
  - exists root, sig, (CommitmentLog.head_hash (clog st)). split; [done|]. exists payload. split; [|done]. exact Ep.
  - unfold CommitmentLog.fetch. simpl. by rewrite lookup_insert_eq.
  - unfold registry_register in Ereg. destruct (kp_label sender); [done|]. apply Ok_inj in Ereg as <-.
    apply (lookup_insert_eq (M := gmap pystr)).
Qed.

Lemma encrypt_shards_lookup cek eid shards encs i ct : aead_ok pq -> encrypt_shards cek eid shards = Ok encs ->
  encs !! i = Some ct -> exists pt, shards !! i = Some pt /\
    ShardEncryptor.decrypt_shard pq cek eid ct (Z.of_nat i) = Ok pt.
Proof.
  intros Ha E Hi. apply mapR_Ok in E. eapply Forall2_lookup_r in E as (x & Hx & Ex); [|exact Hi].
  unfold enumerate in Hx. apply lookup_zip_with_Some in Hx as (z & pt & -> & Hz & Hpt).
  rewrite lookup_map in Hz. destruct (seq 0 (length shards) !! i) as [j|] eqn:Ej; [|done].
  apply lookup_seq in Ej as [-> Hlt]. injection Hz as <-. simpl in Ex. exists pt. split; [done|].
  unfold ShardEncryptor.encrypt_shard, mbind, result_bind in Ex.
  destruct (ShardEncryptor.validate_cek cek) as [[]|] eqn:Ev; [|done].
  destruct (ShardEncryptor.nonce cek eid (Z.of_nat i)) as [n|] eqn:En; [|done].
  unfold ShardEncryptor.decrypt_shard. rewrite En. unfold mbind, result_bind.
  destruct (ShardEncryptor.aad eid (Z.of_nat i)) as [a|]; [|done].
  assert (len n = NONCE_SIZE) as Hn.
  { unfold AEAD_encrypt in Ex. destruct (Z.eqb_spec (len n) NONCE_SIZE); [done|]. done. }
  destruct (AEAD_roundtrip pq cek pt n a Ha Hn) as (ct' & E1 & _ & E2). rewrite E1 in Ex. by apply Ok_inj in Ex as <-.
Qed.

Lemma encrypt_shards_length cek eid shards encs : encrypt_shards cek eid shards = Ok encs ->
  length encs = length shards.
Proof.
  intros E. apply mapR_Ok, Forall2_length in E. rewrite <- E. unfold enumerate.
  rewrite length_zip_with, length_map, length_seq. lia.
Qed.

Lemma verify_signed_record record vk sender sig payload : 0 < dsa_sig_size profile ->
  signs_for pq profile sender vk -> signable_payload record = Ok payload ->
  sign_with pq profile sender payload = Ok sig -> signature record = sig ->
  verify_signature record vk = Ok true.
Proof.
  intros Hp Hs Ep Es <-. destruct (Hs payload) as (sig & Es' & Ev). rewrite Es in Es'. apply Ok_inj in Es'.
  rewrite <- Es' in Ev. unfold verify_signature. destruct (signature record) as [|b bs] eqn:Eb.
  - exfalso. unfold MLDSA_verify in Ev. destruct (negb (len vk =? _)); [done|].
    change (len []) with 0 in Ev. destruct (Z.eqb_spec 0 (dsa_sig_size profile)); [lia|]. by simpl in Ev.
  - rewrite Ep. unfold mbind, result_bind. done.
Qed.

Lemma transfer_ok st e sender n k ts eid record cek encs st1 receiver rnd nonce acc sealed st' :
  committed st e sender n k ts eid record cek encs st1 ->
  aead_ok pq -> 0 < dsa_sig_size profile -> signs_for pq profile (FromKeyPair sender) (kp_vk sender) ->
  kem_pair pq profile (kp_ek receiver) (kp_dk receiver) -> kp_hsm receiver = None -> len nonce = NONCE_SIZE ->
  wf_bytes (content e) -> wf_bytes cek ->
  lattice eid record cek receiver acc rnd nonce = Ok sealed ->
  CommitmentLog.fetch (clog st') eid = Some record -> resolve_sender_vk st' record = Some (kp_vk sender) ->
  survives (network st') eid cek encs k ->
  exists net', materialize st' sealed receiver None = Ok (Some (content e), with_network st' net').
Proof.
  intros Hc Ha Hsz Hs Hk Hh Hn Hwc Hwk El Ef Er Hsv.
  destruct (cm_bytes _ _ _ _ _ _ _ _ _ _ _ Hc) as [rb Hrb].
  destruct (cm_id _ _ _ _ _ _ _ _ _ _ _ Hc) as (input & Hid & Heid).
  destruct (cm_shards _ _ _ _ _ _ _ _ _ _ _ Hc) as (shards & Hsh & Henc).
  destruct (cm_record _ _ _ _ _ _ _ _ _ _ _ Hc) as (root & sig & pred & Hrec & payload & Hpl & Hsig).
  unfold lattice in El. rewrite Hrb in El. unfold mbind, result_bind in El.
  set (key := {| k_entity_id := eid |}) in El.
  destruct (unseal_seal_key pq profile key receiver rnd nonce Ha Hk Hh Hn Hwk) as (sl & E1 & E2).
  rewrite E1 in El. apply Ok_inj in El as <-. unfold materialize. rewrite E2. simpl k_entity_id. rewrite Ef, Hrb.
  unfold mbind, result_bind. rewrite bool_decide_eq_true_2 by done. simpl negb. cbv iota. rewrite Er.
  rewrite (verify_signed_record record (kp_vk sender) (FromKeyPair sender) sig payload) by (done || by rewrite Hrec).
  simpl negb. cbv iota.
  assert (length shards = n) as Hls.
  { apply ErasureCoder.encode_Ok in Hsh as (_ & _ & _ & cs & ch & r & _ & _ & ->). by rewrite length_map, length_seq. }
  apply (recover_ok st' key record (kp_vk sender) (content e) n k shards encs input); try done.
  - by rewrite Hrec.
  - by rewrite Hrec.
  - rewrite (encrypt_shards_length _ _ _ _ Henc). lia.
  - intros i ct Hi. by eapply encrypt_shards_lookup.
  - by rewrite Hrec.
Qed.

(** ** Right after a commit *)
Lemma survives_fresh net eid cek encs k net' : (exists p, usable net p) -> (k <= length encs)%nat ->
  dist_inv net eid encs net' -> survives net' eid cek encs k.
Proof.
  intros (p0 & Hp0) Hk Hi.
  assert (forall i p d, serves net' p eid (Z.of_nat i) d -> encs !! i = Some d) as Hs.
  { intros i p d (nd & E & _ & Es). assert (holds net' p eid (Z.of_nat i) d) as Hh by (by exists nd).
    pose proof (di_rest _ _ _ _ Hi _ _ _ Hh) as Hlt.
    destruct (lookup_lt_is_Some_2 encs i) as [d0 E0]; [lia|]. rewrite E0.
    destruct (di_stored _ _ _ _ Hi i d0 E0) as [_ Hu]. by rewrite (Hu p d Hh). }
  split.
  - exists p0. apply elem_of_active. rewrite (active_of_profile net) by apply Hi. by apply elem_of_active.
  - exists (seq 0 (length encs)). split; [apply NoDup_seq|]. split; [by rewrite length_seq|].
    intros i Hin%elem_of_seq. destruct (lookup_lt_is_Some_2 encs i) as [d Ed]; [lia|]. exists d. split; [done|].
    destruct (di_stored _ _ _ _ Hi i d Ed) as [Hx Hu]. split; [done|].
    intros p d' Hp. apply Hs in Hp. congruence.
  - intros i p d Hp. left. by eapply Hs.
Qed.

(** ** A commit that can go through *)
Record committable (op : KeyPair) (st : LTPProtocol) (e : Entity) (sender : KeyPair) (n k : nat)
  (ts : Float64.float64) (random : bytes) (now : Float64.float64) : Prop := {
  ct_label : kp_label sender <> [];
  ct_sizes : Forall SignedEnvelope.u32_sized [kp_label sender; e_shape e; kp_vk sender];
  ct_hash : Z.of_nat (length chash_prefix) + 1 + 2 * Z.of_nat digest_size < 2 ^ 32;
  ct_sig : 0 < dsa_sig_size profile < 2 ^ 32;
  ct_times : wf_float ts /\ wf_float now;
  ct_params : (0 < k < n)%nat /\ (n <= 255)%nat;
  ct_content : wf_bytes (content e) /\ Z.of_nat (length (content e)) < 2 ^ 64;
  ct_cek : ShardEncryptor.valid_cek random /\ wf_bytes random /\ random ∉ issued_ceks st;
  ct_usable : exists p, usable (network st) p;
  ct_fresh : forall eid, compute_id e (kp_vk sender) ts = Ok eid ->
               fresh_entity (network st) eid /\ CommitmentLog.fetch (clog st) eid = None;
  ct_sender : signs_for pq profile (FromKeyPair sender) (kp_vk sender);
  ct_operator : signs_for pq profile (FromKeyPair op) (kp_vk op);
  ct_log : CommitmentLog.clog_reachable pq profile op (clog st);
  ct_room : log_size (CommitmentLog.merkle_log (clog st)) < CAPACITY
}.

Lemma struct_pack_8 v : wf_float v -> exists bs, struct_pack 8 v = Ok bs.
Proof.
  intros [H1 H2]. eexists. apply struct_pack_Ok. change (256 ^ Z.of_nat 8) with (2 ^ 64). split; [lia|done].
Qed.

Lemma lp_Ok v : SignedEnvelope.u32_sized v -> exists a, lp v = Ok a.
Proof. intros Hv%SignedEnvelope.lp_is_ok. destruct (lp v); [eauto|done]. Qed.

Lemma lps_Ok xs : Forall SignedEnvelope.u32_sized xs -> exists a, mapR lp xs = Ok a.
Proof.
  induction 1 as [|x xs Hx _ IH]; [by exists []|]. cbn [mapR].
  destruct (lp_Ok x Hx) as [a ->]. destruct IH as [b ->]. eauto.
Qed.

Lemma lp_items_Ok its : Forall (fun kv => SignedEnvelope.u32_sized kv.1 /\ SignedEnvelope.u32_sized kv.2) its ->
  exists a, lp_items its = Ok a.
Proof.
  induction 1 as [|[k v] xs [Hk Hv] _ IH]; [by exists []|]. cbn [lp_items fst snd].
  destruct (lp_Ok k Hk) as [a ->]. destruct (lp_Ok v Hv) as [b ->]. destruct IH as [c ->]. eexists. reflexivity.
Qed.

Lemma str_int_small : forallb (fun n => (length (str_int (Z.of_nat n)) <=? 3)%nat) (seq 0 256) = true.
Proof. by vm_compute. Qed.

Lemma str_int_u32 n : (n <= 255)%nat -> SignedEnvelope.u32_sized (str_int (Z.of_nat n)).
Proof.
  intros Hn. pose proof str_int_small as Hall. rewrite forallb_forall in Hall. specialize (Hall n).
  cbv beta in Hall. assert (In n (seq 0 256)) as Hin by (apply in_seq; lia). apply Hall in Hin.
  apply Nat.leb_le in Hin. unfold SignedEnvelope.u32_sized. lia.
Qed.

Lemma params_u32 n k : (n <= 255)%nat -> (k <= 255)%nat ->
  Forall (fun kv => SignedEnvelope.u32_sized kv.1 /\ SignedEnvelope.u32_sized kv.2)
    (map (fun kv => (kv.1, str_param kv.2)) (encoding_params_of n k)).
Proof.
  intros Hn Hk. unfold encoding_params_of. cbn [map fst snd str_param].
  repeat constructor; try by (cbv [fst snd]; apply str_int_u32). 
Qed.

Lemma encrypt_shards_Ok cek eid shards : aead_ok pq -> ShardEncryptor.valid_cek cek ->
  Z.of_nat (length shards) < 2 ^ 32 -> exists encs, encrypt_shards cek eid shards = Ok encs.
Proof.
  intros Ha Hc Hl. unfold encrypt_shards.
  assert (forall ish, ish ∈ enumerate shards -> 0 <= ish.1 < 2 ^ 32) as Hix.
  { intros [z d] Hin. unfold enumerate in Hin. apply elem_of_zip_l in Hin. apply elem_of_map in Hin as (j & -> & Hj).
    apply elem_of_seq in Hj. simpl. lia. }
  induction (enumerate shards) as [|ish l IH]; [by exists []|]. cbn [mapR].
  destruct (ShardEncryptor.shard_roundtrip pq cek eid ish.2 ish.1 Ha Hc) as (ct & -> & _); [apply Hix; constructor|].
  destruct IH as [encs ->]; [|eauto]. intros; apply Hix; by constructor.
Qed.

(** The log accepts a record whose encoding fits. *)
Lemma clog_append_Ok op c r now : signs_for pq profile (FromKeyPair op) (kp_vk op) ->
  CommitmentLog.clog_reachable pq profile op c -> log_size (CommitmentLog.merkle_log c) < CAPACITY ->
  CommitmentLog.records c !! entity_id r = None -> wf_float now ->
  (exists rb, to_bytes (with_predecessor r (CommitmentLog.head_hash c)) = Ok rb) ->
  exists ref r' c', CommitmentLog.append pq profile c r now = Ok (ref, r', c').
Proof.
  intros Hs Hr Hsz Hn Hw (rb & Hrb). apply CommitmentLog.clog_reachable_inv in Hr; [|done].
  unfold CommitmentLog.append. rewrite Hn, Hrb. unfold mbind, result_bind.
  pose proof (CommitmentLog.ci_log _ _ _ _ Hr) as Hlog.
  assert (exists i ml, log_append (CommitmentLog.merkle_log c) rb = Ok (i, ml)) as (i & ml & Ea).
  { unfold log_append, tree_append. unfold log_size in Hsz.
    destruct (Z.leb_spec CAPACITY (MerkleLog.size (log_tree (CommitmentLog.merkle_log c)))); [lia|].
    unfold mbind, result_bind. eauto. }
  rewrite Ea. destruct (inv_append pq profile _ _ _ _ _ _ Hlog Ea) as (Hlog1 & _ & Hrec & Hsths).
  assert (exists s ml', publish_sth pq profile ml now = Ok (s, ml')) as (s & ml' & Ep).
  { unfold publish_sth. destruct (tree_root (log_tree ml)) as [root t]. unfold sth_sign, sth_payload, mbind, result_bind.
    rewrite (inv_sequence _ _ _ _ _ Hlog1), Hsths, (CommitmentLog.ci_sths_len _ _ _ _ Hr),
      <- (CommitmentLog.ci_length _ _ _ _ Hr), (log_size_records _ _ _ _ _ Hlog1), Hrec.
    pose proof (log_size_records _ _ _ _ _ Hlog) as Hls. unfold CAPACITY in Hsz.
    destruct (struct_pack_8 (Z.of_nat (length (log_records (CommitmentLog.merkle_log c))))) as [a ->]; [split; lia|].
    destruct (struct_pack_8 (Z.of_nat (length (log_records (CommitmentLog.merkle_log c) ++ [rb])))) as [b ->].
    { rewrite length_app. simpl. split; lia. }
    destruct (struct_pack_8 now Hw) as [d ->]. rewrite (inv_sk _ _ _ _ _ Hlog1).
    destruct (Hs (a ++ b ++ d ++ root)) as (sig & -> & _). eauto. }
  rewrite Ep. eauto.
Qed.

Lemma record_bytes_Ok eid label root e n k ts vk sig pred :
  Forall SignedEnvelope.u32_sized [eid; label; root; e_shape e; vk; sig; pred] ->
  Z.of_nat (length chash_prefix) + 1 + 2 * Z.of_nat digest_size < 2 ^ 32 -> wf_float ts ->
  (n <= 255)%nat -> (k <= 255)%nat ->
  exists payload rb, signable_payload (unsigned_record eid label root e n k ts vk) = Ok payload /\
    to_bytes (with_predecessor (with_signature (unsigned_record eid label root e n k ts vk) sig) pred) = Ok rb.
Proof.
  intros Hs Hh Hts Hn Hk.
  repeat match goal with Hx : Forall _ (_ :: _) |- _ => inversion Hx; clear Hx; subst end.
  unfold to_bytes, signable_payload, mbind, result_bind.
  cbn [unsigned_record with_signature with_predecessor entity_id sender_id shard_map_root content_hash shape shape_hash
       timestamp predecessor signature sender_vk default].
  destruct (lps_Ok [eid; label; root; chash_str (content e); e_shape e; chash_str (e_shape e)]) as [a ->].
  { repeat constructor; auto using SignedEnvelope.chash_str_u32. }
  destruct (struct_pack_8 ts Hts) as [t ->].
  destruct (lp_items_Ok (sorted_items (params_str (unsigned_record eid label root e n k ts vk)))) as [b Hb].
  { rewrite sorted_items_perm. apply params_u32; done. }
  rewrite Hb. change (params_str (with_predecessor _ _)) with (params_str (unsigned_record eid label root e n k ts vk)).
  rewrite Hb. change (id pred) with pred. destruct (lp_Ok pred) as [p ->]; [done|]. destruct (lp_Ok sig) as [q ->]; [done|].
  destruct (lp_Ok vk) as [r ->]; [done|]. eauto.
Qed.

Lemma commit_total op st e sender n k ts random now : aead_ok pq ->
  committable op st e sender n k ts random now ->
  exists eid record st1 encs, commit st e sender (Some n) (Some k) ts random now = Ok (eid, record, random, st1) /\
    committed st e sender n k ts eid record random encs st1 /\ dist_inv (network st) eid encs (network st1) /\
    length encs = n.
Proof.
  intros Ha Hc. destruct (ct_params _ _ _ _ _ _ _ _ _ Hc) as ((Hk1 & Hk2) & Hn).
  destruct (ct_times _ _ _ _ _ _ _ _ _ Hc) as [Hts Hnow]. destruct (ct_content _ _ _ _ _ _ _ _ _ Hc) as [Hwc Hlc].
  destruct (ct_cek _ _ _ _ _ _ _ _ _ Hc) as (Hv & Hwr & Hfr). pose proof (ct_hash _ _ _ _ _ _ _ _ _ Hc) as Hh.
  assert (or_default (Some n) (default_n st) = n /\ or_default (Some k) (default_k st) = k) as [En Ek].
  { destruct n, k; try lia. done. }
  destruct (struct_pack_8 ts Hts) as [tb Htb].
  set (input := content e ++ e_shape e ++ tb ++ kp_vk sender).
  assert (compute_id e (kp_vk sender) ts = Ok (chash_str input)) as Hid.
  { unfold compute_id, identity_input. rewrite Htb. done. }
  destruct (ct_fresh _ _ _ _ _ _ _ _ _ Hc _ Hid) as [Hfe Hff]. set (eid := chash_str input) in *.
  destruct (ErasureCoder.encode_total (content e) n k) as (shards & Eenc & Hls); [lia..|].
  destruct (encrypt_shards_Ok random eid shards Ha Hv) as [encs Eencs]; [lia|].
  pose proof (encrypt_shards_length _ _ _ _ Eencs) as Hle.
  destruct (ct_usable _ _ _ _ _ _ _ _ _ Hc) as [p0 Hp0].
  destruct (distribute_ok ihash (network st) eid encs 2) as (root & net & Ed & Hdi); [lia| |unfold CAPACITY; lia|done|].
  { apply elem_of_active in Hp0. intros E. rewrite E in Hp0. by inversion Hp0. }
  assert (exists t, root = chash_str t) as (troot & Hroot).
  { unfold distribute_encrypted_shards, mbind, result_bind in Ed. destruct (foldM _ _ _) as [[t nt]|]; [|done].
    injection Ed as <- _. eauto. }
  pose proof (ct_sizes _ _ _ _ _ _ _ _ _ Hc) as Hsz. rewrite !Forall_cons in Hsz. destruct Hsz as (Hz1 & Hz2 & Hz3 & _).
  rewrite Hroot in Ed.
  pose proof (ct_sig _ _ _ _ _ _ _ _ _ Hc) as Hss.
  set (r0 := unsigned_record eid (kp_label sender) (chash_str troot) e n k ts (kp_vk sender)).
  assert (forall sig, len sig = dsa_sig_size profile -> exists payload rb, signable_payload r0 = Ok payload /\
    to_bytes (with_predecessor (with_signature r0 sig) (CommitmentLog.head_hash (clog st))) = Ok rb) as Hrb.
  { intros sig Hsig. apply record_bytes_Ok; try done; try lia.
    assert (SignedEnvelope.u32_sized sig) by (unfold SignedEnvelope.u32_sized, len in *; lia).
    rewrite !Forall_cons. unfold eid. split_and!; try done; try (by apply SignedEnvelope.chash_str_u32).
    unfold CommitmentLog.head_hash, SignedEnvelope.u32_sized. destruct (latest_sth (CommitmentLog.merkle_log (clog st))) as [s|] eqn:Es; [|done]. rewrite hex_length.
    pose proof (CommitmentLog.clog_reachable_inv pq profile op (clog st) (ct_operator _ _ _ _ _ _ _ _ _ Hc)
      (ct_log _ _ _ _ _ _ _ _ _ Hc)) as Hci.
    unfold latest_sth in Es. rewrite last_lookup in Es.
    destruct (inv_sths _ _ _ _ _ (CommitmentLog.ci_log _ _ _ _ Hci) _ _ Es) as (_ & _ & Hrt & _). rewrite Hrt.
    unfold root_of. destruct (take _ _) as [|x xs]; [rewrite chash_length; lia|].
    rewrite mth_length_pos; [lia|simpl; lia|apply leaf_hashes_length]. }
  destruct (Hrb (repeat 0 (Z.to_nat (dsa_sig_size profile)))) as (payload & _ & Hpl & _).
  { unfold len. rewrite repeat_length. lia. }
  destruct (ct_sender _ _ _ _ _ _ _ _ _ Hc payload) as (sig & Hsig & Hver).
  assert (len sig = dsa_sig_size profile) as Hlsig.
  { unfold MLDSA_verify in Hver. destruct (negb (len (kp_vk sender) =? _)); [done|].
    destruct (Z.eqb_spec (len sig) (dsa_sig_size profile)); [done|]. by simpl in Hver. }
  destruct (Hrb sig Hlsig) as (_ & rb & _ & Hrbs).
  destruct (clog_append_Ok op (clog st) (with_signature r0 sig) now) as (ref & r1 & lg & Eapp); try apply Hc; try done; eauto.
  eexists eid, r1, _, encs.
  assert (commit st e sender (Some n) (Some k) ts random now = Ok (eid, r1, random,
    {| network := net; clog := lg; default_n := default_n st; default_k := default_k st;
       entity_sizes := <[eid := Z.of_nat (length (content e))]> (entity_sizes st);
       key_registry := <[kp_label sender := sender]> (key_registry st);
       issued_ceks := if (ShardEncryptor.CEK_TRACKING_LIMIT <? length (issued_ceks st ++ [random]))%nat
                      then tail (issued_ceks st ++ [random]) else issued_ceks st ++ [random] |})) as Ecommit.
  { assert (registry_register (key_registry st) sender = Ok (<[kp_label sender := sender]> (key_registry st))) as Hreg.
    { unfold registry_register. pose proof (ct_label _ _ _ _ _ _ _ _ _ Hc). by destruct (kp_label sender). }
    unfold commit. rewrite En, Ek, Hreg. unfold mbind, result_bind.
    rewrite Hid, Eenc. unfold ShardEncryptor.generate_cek. rewrite bool_decide_eq_false_2 by done.
    rewrite Eencs, Ed. unfold sign_record. fold r0. rewrite Hpl. unfold mbind, result_bind. rewrite Hsig, Eapp.
    done. }
  split; [exact Ecommit|]. split; [|split; [exact Hdi|lia]].
  destruct (commit_Ok _ _ _ _ _ _ _ _ _ _ _ _ Ecommit) as (encs' & Hcm). rewrite En, Ek in Hcm.
  destruct (cm_shards _ _ _ _ _ _ _ _ _ _ _ Hcm) as (sh' & E1 & E2). rewrite Eenc in E1. apply Ok_inj in E1 as <-.
  rewrite Eencs in E2. apply Ok_inj in E2 as <-. exact Hcm.
Qed.

(** ** Soundness of materialization *)
Definition used_record (st : LTPProtocol) (eid : pystr) (record : option CommitmentRecord) : option CommitmentRecord :=
  match record with Some r => Some r | None => CommitmentLog.fetch (clog st) eid end.

(** The strings [materialize] hashes when it returns [c]: the encoding of the
    record it uses and the identity it recomputes. *)
Definition run_inputs (st : LTPProtocol) (eid : pystr) (record : option CommitmentRecord) (c : bytes) : list bytes :=
  match used_record st eid record with
  | None => []
  | Some r =>
      match to_bytes r with Ok rb => [rb] | Err _ => [] end ++
      match resolve_sender_vk st r with
      | None => []
      | Some vk => match identity_input c (shape r) (timestamp r) vk with Ok i => [i] | Err _ => [] end
      end
  end.

Lemma recover_Some st key r vk c st' : recover st key r vk = Ok (Some c, st') ->
  exists input, identity_input c (shape r) (timestamp r) vk = Ok input /\ chash_str input = k_entity_id key.
Proof.
  unfold recover, mbind, result_bind. destruct (int_param r (lit "n")); [|done]. destruct (int_param r (lit "k")); [|done].
  destruct (fetch_encrypted_shards _ _ _ _ _) as [[enc net]|]; [|done]. destruct (_ <? _); [done|].
  destruct (foldM _ _ _); [|done]. destruct (_ <? _); [done|]. destruct (ErasureCoder.decode _ _ _ _) as [c'|]; [|done].
  destruct (identity_input c' _ _ _) as [input|] eqn:E; [|done]. case_bool_decide; [|done]. intros [= -> _]. eauto.
Qed.

Lemma materialize_Some st sealed receiver rec c st' key : unseal pq profile sealed receiver = Ok key ->
  materialize st sealed receiver rec = Ok (Some c, st') ->
  exists r rb vk input, used_record st (k_entity_id key) rec = Some r /\ to_bytes r = Ok rb /\
    chash_str rb = k_commitment_ref key /\ resolve_sender_vk st r = Some vk /\ verify_signature r vk = Ok true /\
    identity_input c (shape r) (timestamp r) vk = Ok input /\ chash_str input = k_entity_id key.
Proof.
  intros Ek. unfold materialize. rewrite Ek. fold (used_record st (k_entity_id key) rec).
  destruct (used_record st (k_entity_id key) rec) as [r|] eqn:Er; [|done]. unfold mbind, result_bind.
  destruct (to_bytes r) as [rb|] eqn:Eb; [|done]. case_bool_decide as Hd; [|done]. simpl negb. cbv iota.
  destruct (resolve_sender_vk st r) as [vk|] eqn:Ev; [|done].
  destruct (verify_signature r vk) as [[]|] eqn:Es; try done. simpl negb. cbv iota. intros Hr.
  apply recover_Some in Hr as (input & Hi & Heq). by exists r, rb, vk, input.
Qed.

Lemma verify_signature_size r vk : verify_signature r vk = Ok true -> len vk = dsa_vk_size profile.
Proof.
  unfold verify_signature, mbind, result_bind. destruct (signature r); [done|]. destruct (signable_payload r); [|done].
  unfold MLDSA_verify. by destruct (Z.eqb_spec (len vk) (dsa_vk_size profile)).
Qed.

(** C1: end-to-end transfer.  When a commit can go through (valid parameters
    and keys, a usable node, a fresh entity, room in the log), all three
    phases succeed: commit returns, the lattice key is sealed to the receiver,
    and the receiver materializes exactly the committed content. *)
Theorem transfer_end_to_end op st e sender n k ts random now receiver rnd nonce acc :
  aead_ok pq -> committable op st e sender n k ts random now ->
  kem_pair pq profile (kp_ek receiver) (kp_dk receiver) -> kp_hsm receiver = None -> len nonce = NONCE_SIZE ->
  exists eid record st1 sealed st2,
    commit st e sender (Some n) (Some k) ts random now = Ok (eid, record, random, st1) /\
    lattice eid record random receiver acc rnd nonce = Ok sealed /\
    materialize st1 sealed receiver None = Ok (Some (content e), st2).
Proof.
  intros Ha Hc Hk Hh Hn. destruct (commit_total op st e sender n k ts random now Ha Hc) as (eid & r & st1 & encs & E & Hcm & Hdi & Hl).
  destruct (ct_params _ _ _ _ _ _ _ _ _ Hc) as ((Hk1 & Hk2) & _). destruct (ct_cek _ _ _ _ _ _ _ _ _ Hc) as (_ & Hwr & _).
  destruct (cm_bytes _ _ _ _ _ _ _ _ _ _ _ Hcm) as [rb Hrb].
  assert (exists sealed, lattice eid r random receiver acc rnd nonce = Ok sealed) as [sealed Hs].
  { unfold lattice. rewrite Hrb. unfold mbind, result_bind.
    destruct (unseal_seal_key pq profile {| k_entity_id := eid; k_cek := random; k_commitment_ref := chash_str rb;
      k_access_policy := default default_policy acc |} receiver rnd nonce Ha Hk Hh Hn Hwr) as (sl & E1 & _). eauto. }
  destruct (transfer_ok st e sender n k ts eid r random encs st1 receiver rnd nonce acc sealed st1) as (net' & Hm);
    try done; try apply Hc.
  - apply (cm_log _ _ _ _ _ _ _ _ _ _ _ Hcm).
  - unfold resolve_sender_vk. destruct (cm_record _ _ _ _ _ _ _ _ _ _ _ Hcm) as (root & sig & pred & -> & _).
    simpl sender_id. by rewrite (cm_registry _ _ _ _ _ _ _ _ _ _ _ Hcm).
  - eapply survives_fresh; [apply Hc|lia|done].
  - by exists eid, r, st1, sealed, (with_network st1 net').
Qed.

(** C2: resilience.  After a successful commit and lattice, materialization
    returns the committed content from any later state whose log still holds
    the record and resolves the sender's key, as long as [k] of the shards
    are intact and whatever else the nodes serve is rejected by the AEAD:
    nodes may have been evicted, lost shards, or replaced them. *)
Theorem transfer_resilient st e sender n k ts random now eid record cek st1 receiver rnd nonce acc sealed :
  commit st e sender n k ts random now = Ok (eid, record, cek, st1) ->
  lattice eid record cek receiver acc rnd nonce = Ok sealed ->
  aead_ok pq -> 0 < dsa_sig_size profile -> signs_for pq profile (FromKeyPair sender) (kp_vk sender) ->
  kem_pair pq profile (kp_ek receiver) (kp_dk receiver) -> kp_hsm receiver = None -> len nonce = NONCE_SIZE ->
  wf_bytes (content e) -> wf_bytes cek ->
  exists shards encs,
    ErasureCoder.encode None (content e) (or_default n (default_n st)) (or_default k (default_k st)) = Ok shards /\
    encrypt_shards cek eid shards = Ok encs /\
    forall st', CommitmentLog.fetch (clog st') eid = Some record ->
      resolve_sender_vk st' record = Some (kp_vk sender) ->
      survives (network st') eid cek encs (or_default k (default_k st)) ->
      exists net', materialize st' sealed receiver None = Ok (Some (content e), with_network st' net').
Proof.
  intros Ec El Ha Hsz Hs Hk Hh Hn Hwc Hwk. apply commit_Ok in Ec as (encs & Hcm).
  destruct (cm_shards _ _ _ _ _ _ _ _ _ _ _ Hcm) as (shards & E1 & E2). exists shards, encs.
  split; [done|]. split; [done|]. intros st' Hf Hr Hsv. by eapply transfer_ok.
Qed.

(** C3: soundness.  A receiver who holds a lattice key sealed for a record
    never materializes anything but the committed content: for any state of
    the network, the log and the registry, and any record supplied by a third
    party, a returned content is the one the EntityID was computed from,
    provided the hash has no collision among the record encodings and
    identity strings involved. *)
Theorem materialize_sound st' eid cek record rb c0 vk0 input receiver acc rnd nonce sealed rec c st'' :
  lattice eid record cek receiver acc rnd nonce = Ok sealed ->
  to_bytes record = Ok rb -> identity_input c0 (shape record) (timestamp record) vk0 = Ok input ->
  eid = chash_str input -> len vk0 = dsa_vk_size profile ->
  aead_ok pq -> kem_pair pq profile (kp_ek receiver) (kp_dk receiver) -> kp_hsm receiver = None ->
  len nonce = NONCE_SIZE -> wf_bytes cek ->
  materialize st' sealed receiver rec = Ok (Some c, st'') ->
  collision_free (rb :: input :: run_inputs st' eid rec c) -> c = c0.
Proof.
  intros El Hrb Hin Heid Hvk Ha Hk Hh Hn Hwk Hm Hcf. unfold lattice in El. rewrite Hrb in El.
  unfold mbind, result_bind in El. set (key := {| k_entity_id := eid |}) in El.
  destruct (unseal_seal_key pq profile key receiver rnd nonce Ha Hk Hh Hn Hwk) as (sl & E1 & E2).
  rewrite E1 in El. apply Ok_inj in El as <-.
  destruct (materialize_Some _ _ _ _ _ _ _ E2 Hm) as (r & rb' & vk & input' & Hu & Hrb' & Href & Hres & Hver & Hid & Hidh).
  simpl in Hu, Href, Hidh. unfold run_inputs in Hcf. rewrite Hu, Hrb', Hres, Hid in Hcf.
  apply chash_str_inj, Hcf in Href; [|set_solver..]. subst rb'.
  rewrite Heid in Hidh. apply chash_str_inj, Hcf in Hidh; [|set_solver..]. subst input'.
  pose proof (to_bytes_view r record rb Hrb' Hrb) as Hview. unfold record_view in Hview.
  injection Hview as _ _ _ _ Eshape _ Ets _ _ _ _. rewrite Eshape, Ets in Hid.
  apply verify_signature_size in Hver. unfold identity_input, mbind, result_bind in Hid, Hin.
  destruct (struct_pack 8 (timestamp record)); [|done]. apply Ok_inj in Hid, Hin. rewrite <- Hid in Hin.
  rewrite !(app_assoc (shape record)) in Hin. rewrite !app_assoc in Hin.
  apply app_inj_2 in Hin as [Hin _]; [|unfold len in *; lia].
  rewrite <- !app_assoc in Hin. symmetry. by apply app_inv_tail in Hin.
Qed.
End Protocol.

(** * A run of the protocol *)
Module Demo.

(** A self-delimiting codec in place of JSON. *)
Definition put_str (s : pystr) : bytes := concat (map (fun x => [1; x]) s) ++ [0].
Fixpoint get_str (bs : bytes) : option (pystr * bytes) :=
  match bs with
  | 0 :: rest => Some ([], rest)
  | 1 :: x :: rest => match get_str rest with Some (s, r) => Some (x :: s, r) | None => None end
  | _ => None
  end.

Lemma get_put s rest : get_str (put_str s ++ rest) = Some (s, rest).
Proof. unfold put_str. induction s as [|x s IH]; simpl in *; [done|]. by rewrite IH. Qed.

Definition demo_loads (bs : bytes) : result (pystr * pystr * pystr * pystr) :=
  match get_str bs with
  | Some (e, bs) => match get_str bs with
    | Some (c, bs) => match get_str bs with
      | Some (r, bs) => match get_str bs with
        | Some (p, _) => Ok (e, c, r, p)
        | None => Err (ValueError "json") end
      | None => Err (ValueError "json") end
    | None => Err (ValueError "json") end
  | None => Err (ValueError "json")
  end.

#[export] Instance demo_json : KeyJson.
Proof.
  refine {| policy := pystr; default_policy := lit "unrestricted";
            json_dumps := fun e c r p => put_str e ++ put_str c ++ put_str r ++ put_str p;
            json_loads := demo_loads |}.
  intros e c r p. unfold demo_loads. rewrite !get_put.
  by rewrite <- (app_nil_r (put_str p)), get_put.
Defined.

Definition alice : KeyPair := demo_keypair (lit "alice") 3.
Definition bob : KeyPair := demo_keypair (lit "bob") 7.
Definition ihash0 : bytes -> bytes := quick_digest.
Definition net0 : CommitmentNetwork :=
  add_node (add_node (add_node empty_network (lit "n1") (lit "us")) (lit "n2") (lit "eu")) (lit "n3") (lit "ap").
Definition st0 : LTPProtocol := {|
  network := net0; clog := CommitmentLog.new_clog demo_op; default_n := 8; default_k := 4;
  entity_sizes := ∅; key_registry := ∅; issued_ceks := [] |}.
Definition entity0 : Entity := {| content := lit "hello lattice"; e_shape := lit "text/plain" |}.
Definition cek0 : bytes := repeat 5 32.
Definition nonce0 : bytes := repeat 9 24.

Lemma committable0 : committable toy_pq demo_profile demo_op st0 entity0 alice 5 3 f64_epoch cek0 f64_epoch.
Proof.
  split; try done; try lia.
  - repeat constructor.
  - split; [apply lit_wf|done].
  - split; [by vm_compute|]. split; [|by intros Hx; inversion Hx]. repeat constructor; unfold isb; lia.
  - exists 0%nat. split; [vm_compute; lia|]. split; done.
  - intros eid _. split; [|done]. split; [|done]. intros p i d (nd & E & Es).
    destruct p as [|[|[|p]]]; simpl in E; simplify_eq; by rewrite lookup_empty in Es.
  - apply dsa_pair_signs_keypair; [done|apply demo_dsa_pair].
  - apply demo_op_signs.
  - apply rtc_refl.
Qed.
End Demo.
Import Demo.

Lemma transfer_end_to_end_witness : exists eid record st1 sealed st2,
  commit toy_pq demo_profile ihash0 st0 entity0 alice (Some 5%nat) (Some 3%nat) f64_epoch cek0 f64_epoch
    = Ok (eid, record, cek0, st1) /\
  lattice toy_pq demo_profile eid record cek0 bob None [1; 2] nonce0 = Ok sealed /\
  materialize toy_pq demo_profile ihash0 st1 sealed bob None = Ok (Some (lit "hello lattice"), st2).
Proof.
  apply (transfer_end_to_end toy_pq demo_profile ihash0 demo_op);
    [exact toy_aead_ok|exact committable0|exact (demo_kem_pair 7)|reflexivity|reflexivity].
Defined.

Lemma transfer_resilient_witness : exists eid record st1 sealed shards encs,
  commit toy_pq demo_profile ihash0 st0 entity0 alice (Some 5%nat) (Some 3%nat) f64_epoch cek0 f64_epoch
    = Ok (eid, record, cek0, st1) /\
  ErasureCoder.encode None (content entity0) 5 3 = Ok shards /\ encrypt_shards toy_pq cek0 eid shards = Ok encs /\
  exists net', materialize toy_pq demo_profile ihash0 st1 sealed bob None
    = Ok (Some (lit "hello lattice"), with_network st1 net').
Proof.
  destruct (commit_total toy_pq demo_profile ihash0 demo_op st0 entity0 alice 5 3 f64_epoch cek0 f64_epoch
    toy_aead_ok committable0) as (eid & r & st1 & encs & E & Hcm & Hdi & Hl).
  assert (wf_bytes cek0) as Hw by (repeat constructor; unfold isb; lia).
  destruct (cm_bytes _ _ _ _ _ _ _ _ _ _ _ _ _ _ Hcm) as [rb Hrb].
  assert (exists sealed, lattice toy_pq demo_profile eid r cek0 bob None [1; 2] nonce0 = Ok sealed) as [sealed Hs].
  { unfold lattice. rewrite Hrb. unfold mbind, result_bind.
    destruct (unseal_seal_key toy_pq demo_profile {| k_entity_id := eid; k_cek := cek0; k_commitment_ref := chash_str rb;
      k_access_policy := default default_policy None |} bob [1; 2] nonce0 toy_aead_ok (demo_kem_pair 7) eq_refl eq_refl Hw)
      as (sl & E1 & _). eauto. }
  destruct (transfer_resilient toy_pq demo_profile ihash0 st0 entity0 alice (Some 5%nat) (Some 3%nat) f64_epoch cek0 f64_epoch
    eid r cek0 st1 bob [1; 2] nonce0 None sealed E Hs toy_aead_ok eq_refl) as (shards & encs' & E1 & E2 & Hall).
  - apply dsa_pair_signs_keypair; [done|apply demo_dsa_pair].
  - exact (demo_kem_pair 7).
  - reflexivity.
  - reflexivity.
  - apply lit_wf.
  - exact Hw.
  - exists eid, r, st1, sealed, shards, encs'. split; [done|]. split; [done|]. split; [done|].
    assert (encs' = encs) as ->.
    { destruct (cm_shards _ _ _ _ _ _ _ _ _ _ _ _ _ _ Hcm) as (sh & F1 & F2). cbn [or_default] in E1.
      rewrite F1 in E1. apply Ok_inj in E1 as <-. rewrite F2 in E2. by apply Ok_inj in E2. }
    apply Hall.
    + apply (cm_log _ _ _ _ _ _ _ _ _ _ _ _ _ _ Hcm).
    + unfold resolve_sender_vk. destruct (cm_record _ _ _ _ _ _ _ _ _ _ _ _ _ _ Hcm) as (root & sig & pred & -> & _).
      cbn [sender_id with_predecessor with_signature unsigned_record].
      by rewrite (cm_registry _ _ _ _ _ _ _ _ _ _ _ _ _ _ Hcm).
    + refine (survives_fresh toy_pq (network st0) eid cek0 encs 3 (network st1) _ _ Hdi); [|rewrite Hl; lia].
      exact (ct_usable _ _ _ _ _ _ _ _ _ _ _ committable0).
Defined.

(** A record supplied by the caller instead of the log's. *)
Definition run0 : result (pystr * CommitmentRecord * LTPProtocol * bytes) :=
  '(eid, r, cek, st1) ← commit toy_pq demo_profile ihash0 st0 entity0 alice (Some 3%nat) (Some 2%nat) f64_epoch cek0 f64_epoch;
  sealed ← lattice toy_pq demo_profile eid r cek bob None [1; 2] nonce0;
  Ok (eid, r, st1, sealed).

Definition out0 : pystr * CommitmentRecord * LTPProtocol * bytes :=
  get_ok ([], demo_record, st0, []) run0.
Definition eid0 : pystr := out0.1.1.1.
Definition record0 : CommitmentRecord := out0.1.1.2.
Definition sealed0 : bytes := out0.2.
Definition rb0 : bytes := get_ok [] (to_bytes record0).
Definition input0 : bytes :=
  get_ok [] (identity_input (content entity0) (shape record0) (timestamp record0) (kp_vk alice)).

Lemma out0_ok : lattice toy_pq demo_profile eid0 record0 cek0 bob None [1; 2] nonce0 = Ok sealed0 /\
  to_bytes record0 = Ok rb0 /\
  identity_input (content entity0) (shape record0) (timestamp record0) (kp_vk alice) = Ok input0 /\
  eid0 = chash_str input0.
Proof. vm_compute. done. Qed.

Lemma pair_eta {A B} (p : A * B) a : p.1 = a -> p = (a, p.2).
Proof. by destruct p; intros <-. Qed.

Definition mat0 : option bytes * LTPProtocol :=
  get_ok (None, st0) (materialize toy_pq demo_profile ihash0 (out0.1.2) sealed0 bob (Some record0)).

Lemma mat0_ok : materialize toy_pq demo_profile ihash0 (out0.1.2) sealed0 bob (Some record0) = Ok mat0 /\
  mat0.1 = Some (lit "hello lattice").
Proof.
  assert ((p ← materialize toy_pq demo_profile ihash0 (out0.1.2) sealed0 bob (Some record0); Ok p.1)
    = Ok (Some (lit "hello lattice"))) as E by (by vm_compute).
  unfold mat0. destruct (materialize _ _ _ _ _ _ _) as [p|]; [|done]. split; [done|]. by apply Ok_inj in E.
Qed.

Lemma cf0 : no_collision (rb0 :: input0 :: run_inputs (out0.1.2) eid0 (Some record0) (lit "hello lattice")) = true.
Proof. by vm_compute. Qed.

Lemma materialize_sound_witness : lit "hello lattice" = content entity0.
Proof.
  destruct out0_ok as (E1 & E2 & E3 & E4). destruct mat0_ok as [Em Ec].
  apply (materialize_sound toy_pq demo_profile ihash0 (out0.1.2) eid0 cek0 record0 rb0 (content entity0) (kp_vk alice) input0
    bob None [1; 2] nonce0 sealed0 (Some record0) (lit "hello lattice") mat0.2 E1 E2 E3 E4 eq_refl toy_aead_ok (demo_kem_pair 7)
    eq_refl eq_refl).
  - repeat constructor; unfold isb; lia.
  - exact (eq_trans Em (f_equal Ok (pair_eta mat0 _ Ec))).
  - apply no_collision_spec, cf0.
Defined.
