(* ===== verification/Writer.v ===== *)
(** The per-VM writer registry of src/src/ltp/execution/: identities and
    lifecycle (writer.py), [WriterRegistry] (writer_registry.py), epoch
    operations (writer_epoch.py), the policy engine (writer_policy.py,
    writer_config.py), roles (writer_roles.py), emergency recovery
    (writer_recovery.py) and the two-phase gate (writer_gate.py).

    A writer record is a Python object shared by the registry and its
    callers, always reached through the registry's dictionary: an update of a
    field is an update of the entry.  Batch scans visit the dictionary in the
    order of the map; each visit touches one entry only. *)

From Stdlib Require Import SpecFloat.
From S2P Require Import Prelude Float64 Sha3 Hashing.

(** * writer.py, types.py, writer_config.py *)
Inductive IdentityTier : Type := MLDSA | BLS | COMPOSITE.
Inductive WriterState : Type := PENDING | PROBATION | ACTIVE | SUSPENDED | EXPIRED | REVOKED.
Inductive ApprovalPath : Type := ADMIN | SPONSOR | SELF.
Inductive OperationType : Type := TRANSFER | DEPLOY | CALL | STATE_MODIFY | STATE_READ.

#[export] Instance tier_eq_dec : EqDecision IdentityTier.
Proof. solve_decision. Defined.
#[export] Instance state_eq_dec : EqDecision WriterState.
Proof. solve_decision. Defined.
#[export] Instance op_eq_dec : EqDecision OperationType.
Proof. solve_decision. Defined.
#[export] Instance path_eq_dec : EqDecision ApprovalPath.
Proof. solve_decision. Defined.

(** The values of the enumerations. *)
Definition state_value (s : WriterState) : pystr :=
  match s with
  | PENDING => lit "pending" | PROBATION => lit "probation" | ACTIVE => lit "active"
  | SUSPENDED => lit "suspended" | EXPIRED => lit "expired" | REVOKED => lit "revoked"
  end.
Definition tier_value (t : IdentityTier) : pystr :=
  match t with MLDSA => lit "mldsa" | BLS => lit "bls" | COMPOSITE => lit "composite" end.
Definition op_value (o : OperationType) : pystr :=
  match o with
  | TRANSFER => lit "transfer" | DEPLOY => lit "deploy" | CALL => lit "call"
  | STATE_MODIFY => lit "state_modify" | STATE_READ => lit "state_read"
  end.

Definition TRANSACTABLE_STATES (s : WriterState) : bool :=
  match s with ACTIVE | PROBATION => true | _ => false end.

Definition VALID_WRITER_TRANSITIONS (a b : WriterState) : bool :=
  match a, b with
  | PENDING, PROBATION | PENDING, ACTIVE | PENDING, REVOKED
  | PROBATION, ACTIVE | PROBATION, SUSPENDED | PROBATION, REVOKED
  | ACTIVE, SUSPENDED | ACTIVE, EXPIRED | ACTIVE, REVOKED
  | SUSPENDED, ACTIVE | SUSPENDED, REVOKED
  | EXPIRED, ACTIVE | EXPIRED, REVOKED => true
  | _, _ => false
  end.

Definition validate_writer_transition (current target : WriterState) : bool :=
  if bool_decide (current = target) then false else VALID_WRITER_TRANSITIONS current target.

Record TransitionEntry : Type := {
  te_timestamp : Z;
  from_state : WriterState;
  to_state : WriterState;
  actor_fp : bytes;
  te_reason : pystr;
  is_emergency : bool
}.

Record WriterIdentity : Type := {
  tier : IdentityTier;
  fingerprint : bytes;
  mldsa_vk : option bytes;
  bls_pk : option bytes
}.

(** [WriterIdentity.from_keypair], [from_bls_identity] with the fingerprints
    of bls_keys.py. *)
Section Identity.
Context `{CanonicalHash}.
Definition bls_fingerprint (pk : bytes) : bytes := chash pk.
Definition composite_fingerprint (vk pk : bytes) : bytes := chash (vk ++ pk).
Definition from_keypair (vk : bytes) (pk : option bytes) : WriterIdentity :=
  match pk with
  | Some pk => {| tier := COMPOSITE; fingerprint := composite_fingerprint vk pk; mldsa_vk := Some vk; bls_pk := Some pk |}
  | None => {| tier := MLDSA; fingerprint := chash vk; mldsa_vk := Some vk; bls_pk := None |}
  end.
Definition from_bls_identity (fp pk : bytes) : WriterIdentity :=
  {| tier := BLS; fingerprint := fp; mldsa_vk := None; bls_pk := Some pk |}.
End Identity.

Record WriterRecord : Type := {
  identity : WriterIdentity;
  state : WriterState;
  approval_path : ApprovalPath;
  enrolled_at : Z;
  approved_at : option Z;
  approved_by : option bytes;
  sponsors : list bytes;
  probation_until : option Z;
  expires_at : option Z;
  suspension_reason : option pystr;
  transition_log : list TransitionEntry
}.

Definition can_transact (r : WriterRecord) : bool := TRANSACTABLE_STATES (state r).

Record ProbationModifiers : Type := {
  rate_limit_divisor : Z;
  fee_multiplier_factor : spec_float;
  blocked_operations : list pystr
}.
Record RegistryConfig : Type := {
  sponsor_threshold : Z;
  probation_epochs : Z;
  default_expiry_epochs : Z;
  probation_modifiers : ProbationModifiers
}.
Definition default_config : RegistryConfig := {|
  sponsor_threshold := 2; probation_epochs := 10; default_expiry_epochs := 0;
  probation_modifiers := {| rate_limit_divisor := 2; fee_multiplier_factor := S754_finite false 4503599627370496 (-51);
                            blocked_operations := [lit "deploy"] |} |}.

(** [infer_operation_type] *)
Definition infer_operation_type (payload : bytes) : OperationType :=
  match payload with
  | 1 :: _ => DEPLOY
  | 2 :: _ => CALL
  | 3 :: _ => STATE_MODIFY
  | 4 :: _ => STATE_READ
  | _ => TRANSFER
  end.

(** * writer_registry.py *)
Record WriterRegistry : Type := {
  config : RegistryConfig;
  records : gmap bytes WriterRecord;
  revoked : gset bytes
}.

Definition new_registry (cfg : RegistryConfig) : WriterRegistry :=
  {| config := cfg; records := ∅; revoked := ∅ |}.

Definition put_record (reg : WriterRegistry) (fp : bytes) (r : WriterRecord) : WriterRegistry :=
  {| config := config reg; records := <[fp := r]> (records reg); revoked := revoked reg |}.

Definition with_approval (r : WriterRecord) (at_ : Z) (by_ : bytes) (path : ApprovalPath) : WriterRecord :=
  {| identity := identity r; state := state r; approval_path := path; enrolled_at := enrolled_at r;
     approved_at := Some at_; approved_by := Some by_; sponsors := sponsors r; probation_until := probation_until r;
     expires_at := expires_at r; suspension_reason := suspension_reason r; transition_log := transition_log r |}.

Definition with_sponsors (r : WriterRecord) (sp : list bytes) : WriterRecord :=
  {| identity := identity r; state := state r; approval_path := approval_path r; enrolled_at := enrolled_at r;
     approved_at := approved_at r; approved_by := approved_by r; sponsors := sp; probation_until := probation_until r;
     expires_at := expires_at r; suspension_reason := suspension_reason r; transition_log := transition_log r |}.

Definition with_probation (r : WriterRecord) (until : Z) : WriterRecord :=
  {| identity := identity r; state := state r; approval_path := SPONSOR; enrolled_at := enrolled_at r;
     approved_at := approved_at r; approved_by := approved_by r; sponsors := sponsors r; probation_until := Some until;
     expires_at := expires_at r; suspension_reason := suspension_reason r; transition_log := transition_log r |}.

Definition with_suspension (r : WriterRecord) (why : option pystr) : WriterRecord :=
  {| identity := identity r; state := state r; approval_path := approval_path r; enrolled_at := enrolled_at r;
     approved_at := approved_at r; approved_by := approved_by r; sponsors := sponsors r;
     probation_until := probation_until r; expires_at := expires_at r; suspension_reason := why;
     transition_log := transition_log r |}.

(** The two assignments at the end of [_transition]. *)
Definition moved (r : WriterRecord) (target : WriterState) (e : TransitionEntry) : WriterRecord :=
  {| identity := identity r; state := target; approval_path := approval_path r; enrolled_at := enrolled_at r;
     approved_at := approved_at r; approved_by := approved_by r; sponsors := sponsors r;
     probation_until := probation_until r; expires_at := expires_at r; suspension_reason := suspension_reason r;
     transition_log := transition_log r ++ [e] |}.

Definition enroll (reg : WriterRegistry) (id : WriterIdentity) (timestamp : Z) : result WriterRegistry :=
  let fp := fingerprint id in
  if bool_decide (fp ∈ revoked reg) then Err (ValueError "was previously revoked and cannot re-enroll")
  else
    match records reg !! fp with
    | Some _ => Err (ValueError "is already registered")
    | None =>
        Ok (put_record reg fp
              {| identity := id; state := PENDING; approval_path := SPONSOR; enrolled_at := timestamp;
                 approved_at := None; approved_by := None; sponsors := []; probation_until := None;
                 expires_at := None; suspension_reason := None; transition_log := [] |})
    end.

Definition lookup (reg : WriterRegistry) (fp : bytes) : option WriterRecord := records reg !! fp.

Definition get_or_raise (reg : WriterRegistry) (fp : bytes) : result WriterRecord :=
  or_raise KeyError (records reg !! fp).

(** [_transition] *)
Definition transition (reg : WriterRegistry) (fp : bytes) (target : WriterState) (actor : bytes)
  (reason : pystr) (timestamp : Z) (emergency : bool) : result WriterRegistry :=
  record ← get_or_raise reg fp;
  if negb (validate_writer_transition (state record) target) then Err (ValueError "Transition rejected")
  else Ok (put_record reg fp (moved record target
             {| te_timestamp := timestamp; from_state := state record; to_state := target; actor_fp := actor;
                te_reason := reason; is_emergency := emergency |})).

(** An assignment to fields of the record registered under [fp]. *)
Definition update (reg : WriterRegistry) (fp : bytes) (f : WriterRecord -> WriterRecord) : result WriterRegistry :=
  r ← get_or_raise reg fp; Ok (put_record reg fp (f r)).

Definition approve (reg : WriterRegistry) (fp admin_fp : bytes) (timestamp : Z) : result WriterRegistry :=
  record ← get_or_raise reg fp;
  if negb (bool_decide (state record = PENDING)) then Err (ValueError "approve requires PENDING state")
  else
    reg ← transition reg fp ACTIVE admin_fp (lit "admin approval") timestamp false;
    update reg fp (fun r => with_approval r timestamp admin_fp ADMIN).

Definition sponsor (reg : WriterRegistry) (fp sponsor_fp : bytes) (timestamp : Z) : result WriterRegistry :=
  record ← get_or_raise reg fp;
  if negb (bool_decide (state record = PENDING)) then Err (ValueError "sponsor only operates on PENDING writers")
  else
    match records reg !! sponsor_fp with
    | None => Err (ValueError "must be an ACTIVE or PROBATION writer")
    | Some sponsor_record =>
        if negb (TRANSACTABLE_STATES (state sponsor_record))
        then Err (ValueError "must be an ACTIVE or PROBATION writer")
        else if bool_decide (sponsor_fp ∈ sponsors record) then Ok reg
        else
          let sp := sponsors record ++ [sponsor_fp] in
          let reg := put_record reg fp (with_sponsors record sp) in
          let n := Z.of_nat (length sp) in
          if sponsor_threshold (config reg) <=? n
          then
            reg ← transition reg fp PROBATION sponsor_fp
                    (lit "sponsor threshold met (" ++ str_int n ++ lit "/"
                      ++ str_int (sponsor_threshold (config reg)) ++ lit ")") timestamp false;
            update reg fp (fun r => with_probation r (timestamp + probation_epochs (config reg)))
          else Ok reg
    end.

Definition promote (reg : WriterRegistry) (fp : bytes) (timestamp : Z) : result WriterRegistry :=
  record ← get_or_raise reg fp;
  transition reg fp ACTIVE (fingerprint (identity record)) (lit "probation completed; promoted to active") timestamp false.

Definition suspend (reg : WriterRegistry) (fp : bytes) (reason : pystr) (actor : bytes) (timestamp : Z)
  : result WriterRegistry :=
  reg ← transition reg fp SUSPENDED actor reason timestamp false;
  update reg fp (fun r => with_suspension r (Some reason)).

Definition reinstate (reg : WriterRegistry) (fp actor : bytes) (timestamp : Z) : result WriterRegistry :=
  reg ← transition reg fp ACTIVE actor (lit "suspension lifted; reinstated") timestamp false;
  update reg fp (fun r => with_suspension r None).

Definition revoke (reg : WriterRegistry) (fp : bytes) (reason : pystr) (actor : bytes) (timestamp : Z)
  : result WriterRegistry :=
  reg ← transition reg fp REVOKED actor reason timestamp false;
  Ok {| config := config reg; records := records reg; revoked := {[fp]} ∪ revoked reg |}.

Definition renew (reg : WriterRegistry) (fp actor : bytes) (timestamp : Z) : result WriterRegistry :=
  transition reg fp ACTIVE actor (lit "credential renewed") timestamp false.

(** The comprehension of [check_expirations]. *)
Definition due_to_expire (current_epoch : Z) (r : WriterRecord) : bool :=
  bool_decide (state r = ACTIVE) &&
  match expires_at r with Some e => (0 <? e) && (e <=? current_epoch) | None => false end.

Definition to_expire (reg : WriterRegistry) (current_epoch : Z) : list bytes :=
  map fst (filter (fun kv => due_to_expire current_epoch kv.2 = true) (map_to_list (records reg))).

Definition expire_one (current_epoch : Z) (reg : WriterRegistry) (fp : bytes) : result WriterRegistry :=
  record ← get_or_raise reg fp;
  transition reg fp EXPIRED fp
    (lit "credential expired at epoch " ++ match expires_at record with Some e => str_int e | None => lit "None" end)
    current_epoch false.

Definition check_expirations (reg : WriterRegistry) (current_epoch : Z) : result (list bytes * WriterRegistry) :=
  let fps := to_expire reg current_epoch in
  reg ← foldM (expire_one current_epoch) reg fps;
  Ok (fps, reg).

Definition active_writers (reg : WriterRegistry) : list WriterRecord :=
  filter (fun r => TRANSACTABLE_STATES (state r) = true) (map snd (map_to_list (records reg))).

(** * writer_epoch.py *)
Record EpochTracker : Type := {
  counts : gmap (bytes * Z) Z;
  current_epoch : Z
}.
Definition new_tracker : EpochTracker := {| counts := ∅; current_epoch := 0 |}.

Definition advance_epoch (t : EpochTracker) (new_epoch : Z) : EpochTracker :=
  if new_epoch <=? current_epoch t then t else {| counts := ∅; current_epoch := new_epoch |}.

Definition get_tx_count (t : EpochTracker) (writer_fp : bytes) (vm_tag : Z) : Z :=
  default 0 (counts t !! (writer_fp, vm_tag)).

Definition increment (t : EpochTracker) (writer_fp : bytes) (vm_tag epoch : Z) : EpochTracker :=
  let t := if negb (epoch =? current_epoch t) then advance_epoch t epoch else t in
  {| counts := <[(writer_fp, vm_tag) := get_tx_count t writer_fp vm_tag + 1]> (counts t);
     current_epoch := current_epoch t |}.

(** The test of [promote_due_probations] on the live record. *)
Definition due_to_promote (epoch : Z) (r : WriterRecord) : bool :=
  bool_decide (state r = PROBATION) &&
  match probation_until r with Some u => u <=? epoch | None => false end.

(** The keys of the records [active_writers] returns: the loop reads and
    updates the records themselves, not copies. *)
Definition active_keys (reg : WriterRegistry) : list bytes :=
  map fst (filter (fun kv => TRANSACTABLE_STATES (state kv.2) = true) (map_to_list (records reg))).

Definition promote_one (epoch timestamp : Z) (st : list bytes * WriterRegistry) (fp : bytes)
  : result (list bytes * WriterRegistry) :=
  let '(promoted, reg) := st in
  record ← get_or_raise reg fp;
  if due_to_promote epoch record then
    reg ← promote reg (fingerprint (identity record)) timestamp;
    Ok (promoted ++ [fingerprint (identity record)], reg)
  else Ok (promoted, reg).

Definition promote_due_probations (reg : WriterRegistry) (epoch timestamp : Z) : result (list bytes * WriterRegistry) :=
  foldM (promote_one epoch timestamp) ([], reg) (active_keys reg).

(** * The registry as a state machine *)
Inductive reg_op : Type :=
| OpEnroll (id : WriterIdentity) (ts : Z)
| OpApprove (fp admin : bytes) (ts : Z)
| OpSponsor (fp sponsor_fp : bytes) (ts : Z)
| OpPromote (fp : bytes) (ts : Z)
| OpSuspend (fp : bytes) (reason : pystr) (actor : bytes) (ts : Z)
| OpReinstate (fp actor : bytes) (ts : Z)
| OpRevoke (fp : bytes) (reason : pystr) (actor : bytes) (ts : Z)
| OpRenew (fp actor : bytes) (ts : Z)
| OpCheckExpirations (epoch : Z)
| OpPromoteDue (epoch ts : Z).

Definition exec (reg : WriterRegistry) (o : reg_op) : result WriterRegistry :=
  match o with
  | OpEnroll id ts => enroll reg id ts
  | OpApprove fp a ts => approve reg fp a ts
  | OpSponsor fp s ts => sponsor reg fp s ts
  | OpPromote fp ts => promote reg fp ts
  | OpSuspend fp why a ts => suspend reg fp why a ts
  | OpReinstate fp a ts => reinstate reg fp a ts
  | OpRevoke fp why a ts => revoke reg fp why a ts
  | OpRenew fp a ts => renew reg fp a ts
  | OpCheckExpirations e => p ← check_expirations reg e; Ok p.2
  | OpPromoteDue e ts => p ← promote_due_probations reg e ts; Ok p.2
  end.

(** One successful call; a call that raises leaves the registry as it was. *)
Inductive reg_step : WriterRegistry -> WriterRegistry -> Prop :=
| reg_exec reg o reg' : exec reg o = Ok reg' -> reg_step reg reg'.

Definition reg_reachable (cfg : RegistryConfig) : WriterRegistry -> Prop := rtc reg_step (new_registry cfg).

(** Replaying an audit log: every entry must start where the previous one
    ended and follow an edge of the lifecycle. *)
Fixpoint replay (s : WriterState) (log : list TransitionEntry) : option WriterState :=
  match log with
  | [] => Some s
  | e :: log =>
      if bool_decide (from_state e = s) && validate_writer_transition s (to_state e)
      then replay (to_state e) log else None
  end.

Record rec_inv (reg : WriterRegistry) (fp : bytes) (r : WriterRecord) : Prop := {
  ri_fp : fingerprint (identity r) = fp;
  ri_log : replay PENDING (transition_log r) = Some (state r);
  ri_revoked : state r = REVOKED <-> fp ∈ revoked reg;
  ri_nodup : NoDup (sponsors r);
  ri_sponsors : forall s, s ∈ sponsors r -> s <> fp /\ is_Some (records reg !! s);
  ri_threshold : PROBATION ∈ map to_state (transition_log r) ->
    sponsor_threshold (config reg) <= Z.of_nat (length (sponsors r));
  ri_expiry : expires_at r = None
}.
Record reg_inv (cfg : RegistryConfig) (reg : WriterRegistry) : Prop := {
  gi_config : config reg = cfg;
  gi_records : forall fp r, records reg !! fp = Some r -> rec_inv reg fp r;
  gi_revoked : forall fp, fp ∈ revoked reg -> is_Some (records reg !! fp)
}.

(** ** Preservation *)
Lemma replay_snoc s log e t :
  replay s log = Some t -> from_state e = t -> validate_writer_transition t (to_state e) = true ->
  replay s (log ++ [e]) = Some (to_state e).
Proof.
  revert s; induction log as [|e' log IH]; simpl; intros s H Hf Hv.
  - simplify_eq. by rewrite bool_decide_eq_true_2, Hv.
  - destruct (_ && _); [|done]. by apply IH.
Qed.

Lemma revoked_terminal t : validate_writer_transition REVOKED t = false.
Proof. by destruct t. Qed.

Lemma transition_Ok reg fp target actor why ts em reg' :
  transition reg fp target actor why ts em = Ok reg' <->
  exists r, records reg !! fp = Some r /\ validate_writer_transition (state r) target = true /\
    reg' = put_record reg fp (moved r target
             {| te_timestamp := ts; from_state := state r; to_state := target; actor_fp := actor;
                te_reason := why; is_emergency := em |}).
Proof.
  unfold transition, get_or_raise, or_raise, mbind, result_bind.
  destruct (records reg !! fp) as [r|]; [|split; [done|by intros (?&?&?)]].
  destruct (validate_writer_transition _ _) eqn:Hv; simpl; split.
  - intros [= <-]. by exists r.
  - by intros (?&[= <-]&_&->).
  - done.
  - intros (?&[= <-]&?&_). congruence.
Qed.

Lemma update_Ok reg fp f reg' :
  update reg fp f = Ok reg' <-> exists r, records reg !! fp = Some r /\ reg' = put_record reg fp (f r).
Proof.
  unfold update, get_or_raise, or_raise, mbind, result_bind.
  destruct (records reg !! fp) as [r|]; split; try done.
  - intros [= <-]. by exists r.
  - by intros (?&[= <-]&->).
  - by intros (?&?&?).
Qed.

(** Replacing one record by one that satisfies the invariant. *)
Lemma put_inv cfg reg fp r :
  reg_inv cfg reg -> rec_inv (put_record reg fp r) fp r -> reg_inv cfg (put_record reg fp r).
Proof.
  intros [Hc Hr Hv] Hi. split; [done| |]; simpl.
  - intros fp' r'. destruct (decide (fp' = fp)) as [->|Hne].
    + rewrite lookup_insert_eq. by intros [= <-].
    + rewrite lookup_insert_ne by done. intros E. destruct (Hr _ _ E) as [A1 A2 A3 A4 A5 A6 A7].
      split; try done; simpl. intros s Hs. destruct (A5 s Hs) as [? Hl]. split; [done|].
      rewrite lookup_insert_is_Some. destruct (decide (fp = s)); [by left|by right].
  - intros fp' Hin. rewrite lookup_insert_is_Some. destruct (decide (fp = fp')); [by left|right; auto].
Qed.

Lemma transition_inv cfg reg fp target actor why ts em reg' :
  reg_inv cfg reg -> target <> REVOKED -> target <> PROBATION ->
  transition reg fp target actor why ts em = Ok reg' -> reg_inv cfg reg'.
Proof.
  intros Hi Hnr Hnp (r&El&Hval&->)%transition_Ok. apply put_inv; [done|].
  destruct (gi_records _ _ Hi _ _ El) as [A1 A2 A3 A4 A5 A6 A7].
  split; simpl; try done.
  - by eapply (replay_snoc PENDING (transition_log r)
      {| te_timestamp := ts; from_state := state r; to_state := target; actor_fp := actor;
         te_reason := why; is_emergency := em |}).
  - split; [done|]. intros Hin. apply A3 in Hin. rewrite Hin, revoked_terminal in Hval. done.
  - intros s Hs. destruct (A5 s Hs). split; [done|]. apply lookup_insert_is_Some'. by right.
  - rewrite map_app, elem_of_app. intros [?|Hin]; [auto|]. apply list_elem_of_singleton in Hin. done.
Qed.

(** Fields the invariant does not speak about may change freely. *)
Lemma update_inv cfg reg fp f reg' :
  reg_inv cfg reg ->
  (forall r, identity (f r) = identity r /\ state (f r) = state r /\ sponsors (f r) = sponsors r
     /\ expires_at (f r) = expires_at r /\ transition_log (f r) = transition_log r) ->
  update reg fp f = Ok reg' -> reg_inv cfg reg'.
Proof.
  intros Hi Hf (r&El&->)%update_Ok. apply put_inv; [done|].
  destruct (gi_records _ _ Hi _ _ El) as [A1 A2 A3 A4 A5 A6 A7].
  destruct (Hf r) as (E1&E2&E3&E4&E5).
  split; simpl; rewrite ?E1, ?E2, ?E3, ?E4, ?E5; try done.
  intros s Hs. destruct (A5 s Hs). split; [done|]. apply lookup_insert_is_Some'. by right.
Qed.

Lemma get_or_raise_Ok reg fp r : get_or_raise reg fp = Ok r <-> records reg !! fp = Some r.
Proof. unfold get_or_raise, or_raise. destruct (records reg !! fp); naive_solver. Qed.

Lemma enroll_inv cfg reg id ts reg' : reg_inv cfg reg -> enroll reg id ts = Ok reg' -> reg_inv cfg reg'.
Proof.
  unfold enroll. intros Hi. case_bool_decide as Hn; [done|].
  destruct (records reg !! fingerprint id) eqn:El; [done|]. intros [= <-].
  apply put_inv; [done|]. split; simpl; try done; try constructor; try set_solver.
Qed.

Lemma approve_inv cfg reg fp a ts reg' : reg_inv cfg reg -> approve reg fp a ts = Ok reg' -> reg_inv cfg reg'.
Proof.
  unfold approve. intros Hi. unfold mbind, result_bind.
  destruct (get_or_raise reg fp); [|done]. case_bool_decide; simpl; [|done].
  destruct (transition _ _ _ _ _ _ _) eqn:Et; [|done].
  apply update_inv; [|by intros]. eapply transition_inv; [..|exact Et]; done.
Qed.

(** What [sponsor] does to the registry, call by call. *)
Lemma sponsor_Ok reg fp s ts reg' :
  sponsor reg fp s ts = Ok reg' ->
  exists r sr, records reg !! fp = Some r /\ state r = PENDING /\ records reg !! s = Some sr /\
    TRANSACTABLE_STATES (state sr) = true /\
    let sp := sponsors r ++ [s] in
    (s ∈ sponsors r /\ reg' = reg) \/
    (s ∉ sponsors r /\ Z.of_nat (length sp) < sponsor_threshold (config reg)
       /\ reg' = put_record reg fp (with_sponsors r sp)) \/
    (s ∉ sponsors r /\ sponsor_threshold (config reg) <= Z.of_nat (length sp) /\ exists e,
       from_state e = PENDING /\ to_state e = PROBATION /\
       records reg' = <[fp := with_probation (moved (with_sponsors r sp) PROBATION e)
                                (ts + probation_epochs (config reg))]> (records reg) /\
       revoked reg' = revoked reg /\ config reg' = config reg).
Proof.
  unfold sponsor. unfold mbind at 1, result_bind at 1.
  destruct (get_or_raise reg fp) as [r|] eqn:Eg; [|done]. apply get_or_raise_Ok in Eg.
  case_bool_decide as Hp; simpl; [|done].
  destruct (records reg !! s) as [sr|] eqn:Es; [|done].
  destruct (TRANSACTABLE_STATES (state sr)) eqn:Ht; simpl; [|done].
  intros E. exists r, sr. split_and!; try done.
  case_bool_decide as Hin; [left; by simplify_eq|right].
  cbv zeta in E. destruct (_ <=? _) eqn:Hth in E; breflect; [right|left; by simplify_eq].
  unfold mbind, result_bind in E.
  destruct (transition _ _ _ _ _ _ _) as [reg1|] eqn:Et in E; [|done]. revert E.
  apply transition_Ok in Et as (r1&E1&_&->). simpl in E1. rewrite lookup_insert_eq in E1.
  injection E1 as <-. intros (r2&E2&->)%update_Ok. simpl in E2. rewrite lookup_insert_eq in E2. simplify_eq.
  split; [done|]. split; [done|]. eexists.
  split; [|split; [|split; [by simpl; rewrite !insert_insert_eq|by split]]]; done.
Qed.

Lemma sponsor_inv cfg reg fp s ts reg' : reg_inv cfg reg -> sponsor reg fp s ts = Ok reg' -> reg_inv cfg reg'.
Proof.
  intros Hi (r&sr&El&Hp&Es&Ht&Hc)%sponsor_Ok.
  destruct (gi_records _ _ Hi _ _ El) as [A1 A2 A3 A4 A5 A6 A7].
  assert (s <> fp) by (intros ->; simplify_eq; by rewrite Hp in Ht).
  assert (forall x w, x ∈ sponsors r ++ [s] -> x <> fp /\ is_Some (<[fp := w]> (records reg) !! x)) as Hsp.
  { intros x w Hx. apply elem_of_app in Hx as [Hx|Hx].
    - destruct (A5 x Hx). split; [done|]. apply lookup_insert_is_Some'. by right.
    - apply list_elem_of_singleton in Hx as ->. split; [done|]. apply lookup_insert_is_Some'. right. by rewrite Es. }
  destruct Hc as [[_ ->]|[(Hn&Hlt&->)|(Hn&Hle&e&Hf&Hto&Hrec&Hrev&Hcfg)]]; [done| |].
  - apply put_inv; [done|]. split; simpl; try done.
    + apply NoDup_app; split_and!; [done|set_solver|apply NoDup_singleton].
    + by intros; apply Hsp.
    + rewrite length_app. intros Hin. specialize (A6 Hin). lia.
  - destruct reg' as [c' recs' rv']. simpl in *. subst.
    apply (put_inv _ reg); [done|]. split; simpl; try done.
    + rewrite <- Hto. eapply replay_snoc; [done|by rewrite Hp|]. by rewrite Hp, Hto.
    + rewrite <- A3. split; [done|]. congruence.
    + apply NoDup_app; split_and!; [done|set_solver|apply NoDup_singleton].
    + by intros; apply Hsp.
Qed.

Lemma suspend_inv cfg reg fp why a ts reg' : reg_inv cfg reg -> suspend reg fp why a ts = Ok reg' -> reg_inv cfg reg'.
Proof.
  unfold suspend, mbind, result_bind. intros Hi.
  destruct (transition _ _ _ _ _ _ _) eqn:Et; [|done].
  apply update_inv; [|by intros]. eapply transition_inv; [..|exact Et]; done.
Qed.

Lemma reinstate_inv cfg reg fp a ts reg' : reg_inv cfg reg -> reinstate reg fp a ts = Ok reg' -> reg_inv cfg reg'.
Proof.
  unfold reinstate, mbind, result_bind. intros Hi.
  destruct (transition _ _ _ _ _ _ _) eqn:Et; [|done].
  apply update_inv; [|by intros]. eapply transition_inv; [..|exact Et]; done.
Qed.

Lemma revoke_inv cfg reg fp why a ts reg' : reg_inv cfg reg -> revoke reg fp why a ts = Ok reg' -> reg_inv cfg reg'.
Proof.
  unfold revoke, mbind, result_bind. intros Hi.
  destruct (transition _ _ _ _ _ _ _) as [reg1|] eqn:Et; [|done]. intros [= <-].
  apply transition_Ok in Et as (r&El&Hval&->).
  split; simpl.
  - apply (gi_config _ _ Hi).
  - intros fp' r'. destruct (decide (fp' = fp)) as [->|Hne].
    + rewrite lookup_insert_eq. intros [= <-].
      destruct (gi_records _ _ Hi _ _ El) as [A1 A2 A3 A4 A5 A6 A7].
      split; simpl; try done.
      * eapply (replay_snoc _ _ {| to_state := REVOKED |}); done.
      * set_solver.
      * intros s Hs. destruct (A5 s Hs). split; [done|]. apply lookup_insert_is_Some'. by right.
      * rewrite map_app, elem_of_app. intros [?|Hin]; [auto|]. by apply list_elem_of_singleton in Hin.
    + rewrite lookup_insert_ne by done. intros E.
      destruct (gi_records _ _ Hi _ _ E) as [A1 A2 A3 A4 A5 A6 A7].
      split; simpl; try done; [rewrite A3; set_solver|].
      intros s Hs. destruct (A5 s Hs). split; [done|]. apply lookup_insert_is_Some'. by right.
  - intros fp' Hin. apply lookup_insert_is_Some'. apply elem_of_union in Hin as [Hin|Hin].
    + left. by apply elem_of_singleton in Hin.
    + right. by eapply gi_revoked.
Qed.

(** ** Batch scans

    A loop over distinct keys, each visit of which rewrites the record under
    its own key by [g] and appends [h] to an output list. *)
Section Scan.
Context {S : Type} (pr : S -> WriterRegistry) (out : S -> list bytes).
Context (f : S -> bytes -> result S).
Context (P : bytes -> WriterRecord -> Prop) (g : bytes -> WriterRecord -> WriterRecord) (h : bytes -> WriterRecord -> list bytes).
Hypothesis visit : forall s fp r, records (pr s) !! fp = Some r -> P fp r ->
  exists s', f s fp = Ok s' /\ pr s' = put_record (pr s) fp (g fp r) /\ out s' = out s ++ h fp r.

Definition scanned (fps : list bytes) (fp : bytes) (r : WriterRecord) : WriterRecord :=
  if bool_decide (fp ∈ fps) then g fp r else r.
Definition scan_output (reg : WriterRegistry) (fps : list bytes) : list bytes :=
  concat (map (fun fp => match records reg !! fp with Some r => h fp r | None => [] end) fps).

Lemma scan_ok fps s :
  NoDup fps -> (forall fp, fp ∈ fps -> exists r, records (pr s) !! fp = Some r /\ P fp r) ->
  exists s', foldM f s fps = Ok s' /\ config (pr s') = config (pr s) /\ revoked (pr s') = revoked (pr s) /\
    (forall fp, records (pr s') !! fp = scanned fps fp <$> records (pr s) !! fp) /\
    out s' = out s ++ scan_output (pr s) fps.
Proof.
  revert s; induction fps as [|fp fps IH]; intros s Hnd Hp.
  - exists s. split_and!; try done; [|by rewrite app_nil_r]. intros fp. unfold scanned. rewrite bool_decide_eq_false_2 by set_solver.
    by destruct (records (pr s) !! fp).
  - apply NoDup_cons in Hnd as [Hn Hnd].
    destruct (Hp fp ltac:(set_solver)) as (r&El&Hpr). destruct (visit s fp r El Hpr) as (s1&E1&Epr&Eout).
    assert (forall fp', fp' ∈ fps -> records (pr s1) !! fp' = records (pr s) !! fp') as Hsame.
    { intros fp' Hin. rewrite Epr. simpl. apply lookup_insert_ne. set_solver. }
    destruct (IH s1 Hnd) as (s'&E2&Hc&Hr&Hrec&Hout).
    { intros fp' Hin. rewrite Hsame by done. apply Hp. set_solver. }
    exists s'. simpl. rewrite E1. split_and!; [done|by rewrite Hc, Epr|by rewrite Hr, Epr| |].
    + intros fp'. rewrite Hrec, Epr. simpl. unfold scanned. destruct (decide (fp' = fp)) as [->|Hne].
      * rewrite lookup_insert_eq, El. simpl. rewrite bool_decide_eq_false_2, bool_decide_eq_true_2 by set_solver. done.
      * rewrite lookup_insert_ne by done. destruct (records (pr s) !! fp'); [|done]. simpl.
        by rewrite (bool_decide_ext (fp' ∈ fp :: fps) (fp' ∈ fps)) by set_solver.
    + rewrite Hout, Eout, <- app_assoc. f_equal. unfold scan_output. simpl. rewrite El. f_equal. f_equal.
      apply map_ext_in. intros fp' Hin%list_elem_of_In. by rewrite Hsame.
Qed.
End Scan.

Lemma NoDup_keys (P : bytes * WriterRecord -> Prop) `{forall kv, Decision (P kv)} (m : gmap bytes WriterRecord) :
  NoDup (map fst (filter P (map_to_list m))).
Proof.
  pose proof (NoDup_fst_map_to_list m) as Hnd. revert Hnd. generalize (map_to_list m). intros l.
  induction l as [|kv l IH]; simpl; [constructor|]. intros [Hn Hnd]%NoDup_cons.
  rewrite filter_cons. case_decide; simpl; [|auto]. constructor; [|auto].
  intros (y&E&Hy)%elem_of_map. apply Hn. apply elem_of_map. exists y. split; [done|].
  by apply list_elem_of_filter in Hy as [_ ?].
Qed.

Lemma elem_of_keys (P : bytes * WriterRecord -> Prop) `{forall kv, Decision (P kv)} (m : gmap bytes WriterRecord) fp :
  fp ∈ map fst (filter P (map_to_list m)) <-> exists r, m !! fp = Some r /\ P (fp, r).
Proof.
  rewrite elem_of_map. split.
  - intros ([k r]&->&[Hp Hin]%list_elem_of_filter). apply elem_of_map_to_list in Hin. by exists r.
  - intros (r&El&Hp). exists (fp, r). split; [done|]. apply list_elem_of_filter. split; [done|].
    by apply elem_of_map_to_list.
Qed.

(** What one expiry and one promotion write. *)
Definition expired_record (epoch : Z) (fp : bytes) (r : WriterRecord) : WriterRecord :=
  if due_to_expire epoch r then
    moved r EXPIRED {| te_timestamp := epoch; from_state := ACTIVE; to_state := EXPIRED; actor_fp := fp;
      te_reason := lit "credential expired at epoch " ++ match expires_at r with Some e => str_int e | None => lit "None" end;
      is_emergency := false |}
  else r.

Definition promoted_record (epoch ts : Z) (fp : bytes) (r : WriterRecord) : WriterRecord :=
  if due_to_promote epoch r then
    moved r ACTIVE {| te_timestamp := ts; from_state := PROBATION; to_state := ACTIVE; actor_fp := fp;
      te_reason := lit "probation completed; promoted to active"; is_emergency := false |}
  else r.

Lemma expire_visit epoch reg fp r :
  records reg !! fp = Some r -> due_to_expire epoch r = true ->
  expire_one epoch reg fp = Ok (put_record reg fp (expired_record epoch fp r)).
Proof.
  intros El Hd. unfold expire_one, mbind, result_bind.
  rewrite (proj2 (get_or_raise_Ok _ _ _) El). apply transition_Ok. exists r.
  unfold expired_record. rewrite Hd. apply andb_true_iff in Hd as [Hs _]. apply bool_decide_eq_true in Hs.
  by rewrite Hs.
Qed.

Lemma expirations_spec reg epoch : exists reg',
  check_expirations reg epoch = Ok (to_expire reg epoch, reg') /\
  config reg' = config reg /\ revoked reg' = revoked reg /\
  forall fp, records reg' !! fp = expired_record epoch fp <$> records reg !! fp.
Proof.
  destruct (scan_ok id (fun _ => []) (expire_one epoch) (fun _ r => due_to_expire epoch r = true)
    (expired_record epoch) (fun _ _ => [])) with (fps := to_expire reg epoch) (s := reg)
    as (reg'&E&Hc&Hr&Hrec&_).
  - intros s fp r El Hd. eexists. split; [by apply expire_visit|done].
  - apply NoDup_keys.
  - intros fp (r&El&Hd)%elem_of_keys. by exists r.
  - exists reg'. unfold check_expirations, mbind, result_bind. rewrite E. split_and!; try done.
    intros fp. unfold id in *. rewrite Hrec. destruct (records reg !! fp) as [r|] eqn:El; [|done]. simpl. f_equal.
    unfold scanned. case_bool_decide as Hin; [done|]. unfold expired_record.
    destruct (due_to_expire epoch r) eqn:Hd; [|done]. destruct Hin. apply elem_of_keys. by exists r.
Qed.

Lemma promote_visit epoch ts st fp r :
  records st.2 !! fp = Some r -> fingerprint (identity r) = fp ->
  promote_one epoch ts st fp =
    Ok (st.1 ++ (if due_to_promote epoch r then [fp] else []), put_record st.2 fp (promoted_record epoch ts fp r)).
Proof.
  destruct st as [acc reg]. simpl. intros El Hf. unfold promote_one, mbind, result_bind.
  rewrite (proj2 (get_or_raise_Ok _ _ _) El). unfold promoted_record.
  destruct (due_to_promote epoch r) eqn:Hd.
  - apply andb_true_iff in Hd as [Hs _]. apply bool_decide_eq_true in Hs. rewrite Hf.
    unfold promote, mbind, result_bind. rewrite (proj2 (get_or_raise_Ok _ _ _) El), Hf.
    erewrite (proj2 (transition_Ok _ _ _ _ _ _ _ _)); [done|]. exists r. by rewrite Hs.
  - rewrite app_nil_r. unfold put_record. rewrite insert_id by done. by destruct reg.
Qed.

Lemma promotions_spec cfg reg epoch ts : reg_inv cfg reg -> exists fps reg',
  promote_due_probations reg epoch ts = Ok (fps, reg') /\
  (forall fp, fp ∈ fps <-> exists r, records reg !! fp = Some r /\ due_to_promote epoch r = true) /\ NoDup fps /\
  config reg' = config reg /\ revoked reg' = revoked reg /\
  forall fp, records reg' !! fp = promoted_record epoch ts fp <$> records reg !! fp.
Proof.
  intros Hi.
  destruct (scan_ok snd fst (promote_one epoch ts) (fun fp r => fingerprint (identity r) = fp)
    (promoted_record epoch ts) (fun fp r => if due_to_promote epoch r then [fp] else []))
    with (fps := active_keys reg) (s := (@nil bytes, reg)) as ([fps reg']&E&Hc&Hr&Hrec&Ho).
  - intros s fp r El Hf. eexists. split; [by apply promote_visit|done].
  - apply NoDup_keys.
  - intros fp (r&El&_)%elem_of_keys. exists r. split; [done|]. by eapply ri_fp, gi_records.
  - assert (forall fp r, records reg !! fp = Some r -> due_to_promote epoch r = true -> fp ∈ active_keys reg) as Hact.
    { intros fp r El Hd. apply elem_of_keys. exists r. split; [done|]. simpl.
      apply andb_true_iff in Hd as [Hs _]. apply bool_decide_eq_true in Hs. by rewrite Hs. }
    exists fps, reg'. simpl in *. subst fps. split_and!; try done.
    + intros fp. unfold scan_output. rewrite list_elem_of_In, in_concat. setoid_rewrite in_map_iff. split.
      * intros (x&(fp'&<-&Hin)&Hfp). destruct (records reg !! fp') as [r|] eqn:El; [|done].
        destruct (due_to_promote epoch r) eqn:Hd; [|done]. destruct Hfp as [->|[]]. by exists r.
      * intros (r&El&Hd). eexists. split; [exists fp; split; [done|]|].
        -- apply list_elem_of_In. by eapply Hact.
        -- rewrite El, Hd. by left.
    + unfold scan_output. pose proof (NoDup_keys (fun kv => TRANSACTABLE_STATES (state kv.2) = true) (records reg)) as Hnd.
      fold (active_keys reg) in Hnd. revert Hnd. generalize (active_keys reg). intros l.
      induction l as [|fp l IH]; simpl; [constructor|]. intros [Hn Hnd]%NoDup_cons.
      apply NoDup_app. split_and!; [| |auto].
      * destruct (records reg !! fp) as [r|]; [|constructor]. destruct (due_to_promote _ _); [apply NoDup_singleton|constructor].
      * intros x Hx Hc'. apply list_elem_of_In, in_concat in Hc' as (y&(fp'&<-&Hin)%in_map_iff&Hy).
        destruct (records reg !! fp) as [r|]; [|set_solver]. destruct (due_to_promote _ _); [|set_solver].
        apply list_elem_of_singleton in Hx as ->. destruct (records reg !! fp') as [r'|]; [|done].
        destruct (due_to_promote _ _); [|done]. destruct Hy as [->|[]]. by apply Hn, list_elem_of_In.
    + intros fp. rewrite Hrec. destruct (records reg !! fp) as [r|] eqn:El; [|done]. simpl. f_equal.
      unfold scanned. case_bool_decide as Hin; [done|]. unfold promoted_record.
      destruct (due_to_promote epoch r) eqn:Hd; [|done]. destruct Hin. by eapply Hact.
Qed.

(** A scan whose visits follow lifecycle edges other than to PROBATION and
    REVOKED keeps the invariant. *)
Lemma scan_inv cfg reg reg' (g : bytes -> WriterRecord -> WriterRecord) :
  reg_inv cfg reg -> config reg' = config reg -> revoked reg' = revoked reg ->
  (forall fp, records reg' !! fp = g fp <$> records reg !! fp) ->
  (forall fp r, records reg !! fp = Some r -> g fp r = r \/ exists target e, g fp r = moved r target e /\ from_state e = state r /\
     to_state e = target /\ validate_writer_transition (state r) target = true /\
     target <> PROBATION /\ target <> REVOKED) ->
  reg_inv cfg reg'.
Proof.
  intros Hi Hc Hr Hrec Hg. split; [rewrite Hc; apply (gi_config _ _ Hi)| |].
  - intros fp r'. rewrite Hrec. intros Efm. apply fmap_Some in Efm as (r&El&->).
    destruct (gi_records _ _ Hi _ _ El) as [A1 A2 A3 A4 A5 A6 A7].
    assert (forall s, s ∈ sponsors r -> s <> fp /\ is_Some (records reg' !! s)) as Hs.
    { intros s Hs. rewrite Hrec, fmap_is_Some. auto. }
    destruct (Hg fp r El) as [->|(target&e&->&Hf&Ht&Hv&Hp&Hnr)]; split; rewrite ?Hc, ?Hr; simpl; try done.
    + rewrite <- Ht. eapply replay_snoc; [done|done|by rewrite Ht].
    + rewrite <- A3. split; [done|]. intros E. by rewrite E, revoked_terminal in Hv.
    + rewrite map_app, elem_of_app. intros [?|Hin]; [auto|]. apply list_elem_of_singleton in Hin. congruence.
  - intros fp. rewrite Hr, Hrec, fmap_is_Some. apply (gi_revoked _ _ Hi).
Qed.

Lemma expired_record_step epoch fp r :
  expired_record epoch fp r = r \/ exists target e, expired_record epoch fp r = moved r target e /\ from_state e = state r /\
     to_state e = target /\ validate_writer_transition (state r) target = true /\ target <> PROBATION /\ target <> REVOKED.
Proof.
  unfold expired_record. destruct (due_to_expire epoch r) eqn:Hd; [right|by left].
  apply andb_true_iff in Hd as [Hs _]. apply bool_decide_eq_true in Hs. rewrite Hs. by eexists _, _.
Qed.

Lemma promoted_record_step epoch ts fp r :
  promoted_record epoch ts fp r = r \/ exists target e, promoted_record epoch ts fp r = moved r target e /\ from_state e = state r /\
     to_state e = target /\ validate_writer_transition (state r) target = true /\ target <> PROBATION /\ target <> REVOKED.
Proof.
  unfold promoted_record. destruct (due_to_promote epoch r) eqn:Hd; [right|by left].
  apply andb_true_iff in Hd as [Hs _]. apply bool_decide_eq_true in Hs. rewrite Hs. by eexists _, _.
Qed.

Lemma exec_inv cfg reg o reg' : reg_inv cfg reg -> exec reg o = Ok reg' -> reg_inv cfg reg'.
Proof.
  intros Hi. destruct o; simpl;
    [by apply enroll_inv|by apply approve_inv|by apply sponsor_inv| |by apply suspend_inv
    |by apply reinstate_inv|by apply revoke_inv| | |].
  - unfold promote, mbind, result_bind. destruct (get_or_raise _ _); [|done].
    intros E. eapply transition_inv; [..|exact E]; done.
  - intros E. eapply transition_inv; [..|exact E]; done.
  - destruct (expirations_spec reg epoch) as (reg1&->&Hc&Hr&Hrec). intros [= <-].
    eapply scan_inv; try done. intros; apply expired_record_step.
  - destruct (promotions_spec cfg reg epoch ts Hi) as (fps&reg1&->&_&_&Hc&Hr&Hrec). intros [= <-].
    eapply scan_inv; try done. intros; apply promoted_record_step.
Qed.

Lemma new_registry_inv cfg : reg_inv cfg (new_registry cfg).
Proof. split; simpl; [done| |]; intros fp; [intros r; by rewrite lookup_empty|set_solver]. Qed.

Lemma steps_inv cfg reg reg' : reg_inv cfg reg -> rtc reg_step reg reg' -> reg_inv cfg reg'.
Proof. intros Hi Hs. induction Hs as [|? ? ? [] ? IH]; [done|]. apply IH. by eapply exec_inv. Qed.

Lemma registry_reachable_inv cfg reg : reg_reachable cfg reg -> reg_inv cfg reg.
Proof. apply steps_inv, new_registry_inv. Qed.

(** In every registry the operations can produce, each record sits under
    the fingerprint of its own identity; its audit log replays along lifecycle
    edges from PENDING to exactly its current state; it is REVOKED iff its
    fingerprint is in the revocation set; and if it was ever put on probation,
    at least [sponsor_threshold] distinct registered writers other than itself
    sponsored it. *)
Theorem registry_audit cfg reg fp r :
  reg_reachable cfg reg -> lookup reg fp = Some r ->
  fingerprint (identity r) = fp /\
  replay PENDING (transition_log r) = Some (state r) /\
  (state r = REVOKED <-> fp ∈ revoked reg) /\
  NoDup (sponsors r) /\ (forall s, s ∈ sponsors r -> s <> fp /\ is_Some (lookup reg s)) /\
  (PROBATION ∈ map to_state (transition_log r) -> sponsor_threshold cfg <= Z.of_nat (length (sponsors r))).
Proof.
  intros Hr El. pose proof (registry_reachable_inv _ _ Hr) as Hi.
  destruct (gi_records _ _ Hi _ _ El) as [A1 A2 A3 A4 A5 A6 A7].
  rewrite <- (gi_config _ _ Hi). done.
Qed.

(** ** Revocation *)
Lemma transition_frozen reg fp' target a why ts em reg' fp r :
  records reg !! fp = Some r -> state r = REVOKED ->
  transition reg fp' target a why ts em = Ok reg' -> records reg' !! fp = Some r.
Proof.
  intros El Hs (r'&El'&Hv&->)%transition_Ok. simpl. apply lookup_insert_Some. right. split; [|done].
  intros ->. simplify_eq. by rewrite Hs, revoked_terminal in Hv.
Qed.

Lemma update_frozen reg fp' f reg' fp r r' :
  records reg !! fp = Some r -> state r = REVOKED ->
  records reg !! fp' = Some r' -> state r' <> REVOKED ->
  update reg fp' f = Ok reg' -> records reg' !! fp = Some r.
Proof.
  intros El Hs El' Hne (r2&_&->)%update_Ok. simpl. apply lookup_insert_Some. right. split; [|done].
  intros ->. simplify_eq.
Qed.

Lemma transition_target reg fp target a why ts em reg' :
  transition reg fp target a why ts em = Ok reg' -> exists r', records reg' !! fp = Some r' /\ state r' = target.
Proof. intros (r&_&_&->)%transition_Ok. simpl. rewrite lookup_insert_eq. by eexists. Qed.

(** A transition followed by an assignment to the same record, away from REVOKED. *)
Lemma transition_update_frozen reg fp' target a why ts em reg1 f reg' fp r :
  records reg !! fp = Some r -> state r = REVOKED -> target <> REVOKED ->
  transition reg fp' target a why ts em = Ok reg1 -> update reg1 fp' f = Ok reg' -> records reg' !! fp = Some r.
Proof.
  intros El Hs Hne Et Eu. pose proof (transition_target _ _ _ _ _ _ _ _ Et) as (r'&El'&Hs').
  eapply update_frozen; [|done|done|congruence|done]. by eapply transition_frozen.
Qed.

Lemma exec_frozen cfg reg o reg' fp r :
  reg_inv cfg reg -> records reg !! fp = Some r -> state r = REVOKED ->
  exec reg o = Ok reg' -> records reg' !! fp = Some r.
Proof.
  intros Hi El Hs. destruct o; simpl.
  - unfold enroll. case_bool_decide; [done|]. destruct (records reg !! fingerprint id) eqn:E; [done|].
    intros [= <-]. simpl. rewrite lookup_insert_ne; [done|congruence].
  - unfold approve, mbind, result_bind. destruct (get_or_raise _ _); [|done]. case_bool_decide; simpl; [|done].
    destruct (transition _ _ _ _ _ _ _) eqn:Et; [|done].
    eapply transition_update_frozen; [exact El|exact Hs| |exact Et]; done.
  - intros (r'&sr&El'&Hp&_&_&Hc)%sponsor_Ok.
    assert (fp0 <> fp) by (intros ->; congruence).
    destruct Hc as [[_ ->]|[(_&_&->)|(_&_&e&_&_&Hrec&_)]]; [done| |rewrite Hrec];
      simpl; by rewrite lookup_insert_ne.
  - unfold promote, mbind, result_bind. destruct (get_or_raise _ _); [|done]. by eapply transition_frozen.
  - unfold suspend, mbind, result_bind. destruct (transition _ _ _ _ _ _ _) eqn:Et; [|done].
    eapply transition_update_frozen; [exact El|exact Hs| |exact Et]; done.
  - unfold reinstate, mbind, result_bind. destruct (transition _ _ _ _ _ _ _) eqn:Et; [|done].
    eapply transition_update_frozen; [exact El|exact Hs| |exact Et]; done.
  - unfold revoke, mbind, result_bind. destruct (transition _ _ _ _ _ _ _) eqn:Et; [|done]. intros [= <-]. simpl.
    by eapply transition_frozen.
  - by eapply transition_frozen.
  - destruct (expirations_spec reg epoch) as (reg1&->&_&_&Hrec). intros [= <-]. rewrite Hrec, El. simpl.
    unfold expired_record, due_to_expire. by rewrite Hs.
  - destruct (promotions_spec cfg reg epoch ts Hi) as (fps&reg1&->&_&_&_&_&Hrec). intros [= <-].
    rewrite Hrec, El. simpl. unfold promoted_record, due_to_promote. by rewrite Hs.
Qed.

Lemma steps_frozen cfg reg reg' fp r :
  reg_inv cfg reg -> records reg !! fp = Some r -> state r = REVOKED ->
  rtc reg_step reg reg' -> records reg' !! fp = Some r.
Proof.
  intros Hi El Hs Ht. induction Ht as [|? ? ? [] ? IH]; [done|].
  apply IH; [by eapply exec_inv|by eapply exec_frozen].
Qed.

(** C24: Revocation is permanent: once [revoke] has succeeded on a writer, no
    sequence of registry operations ever changes its record again, the writer
    can never transact, and every attempt to enroll the identity again is
    refused. *)
Theorem revocation_permanent cfg reg fp why actor ts reg1 reg2 :
  reg_reachable cfg reg -> revoke reg fp why actor ts = Ok reg1 -> rtc reg_step reg1 reg2 ->
  exists r, lookup reg1 fp = Some r /\ lookup reg2 fp = Some r /\ can_transact r = false /\
    forall id ts', fingerprint id = fp -> exists e, enroll reg2 id ts' = Err e.
Proof.
  intros Hr E Ht. pose proof (registry_reachable_inv _ _ Hr) as Hi.
  pose proof (revoke_inv _ _ _ _ _ _ _ Hi E) as Hi1. pose proof (steps_inv _ _ _ Hi1 Ht) as Hi2.
  unfold revoke, mbind, result_bind in E. destruct (transition _ _ _ _ _ _ _) as [rg|] eqn:Et; [|done].
  apply transition_target in Et as (r&El&Hs). injection E as <-.
  pose proof (steps_frozen _ _ _ fp r Hi1 El Hs Ht) as El2.
  exists r. split_and!; [done|done|by unfold can_transact; rewrite Hs|].
  intros id ts' <-. unfold enroll. rewrite bool_decide_eq_true_2; [by eexists|].
  by eapply ri_revoked; [eapply gi_records|].
Qed.

(** The epoch scan promotes exactly the writers whose probation is over:
    on every reachable registry [promote_due_probations] does not raise,
    returns each due fingerprint once and nothing else, moves those records to
    ACTIVE with one audit entry, and leaves every other record as it was. *)
Theorem promotions_exact cfg reg epoch ts :
  reg_reachable cfg reg -> exists fps reg',
    promote_due_probations reg epoch ts = Ok (fps, reg') /\ NoDup fps /\
    (forall fp, fp ∈ fps <-> exists r, lookup reg fp = Some r /\ due_to_promote epoch r = true) /\
    (forall fp, lookup reg' fp = promoted_record epoch ts fp <$> lookup reg fp) /\
    forall fp r, fp ∈ fps -> lookup reg' fp = Some r -> state r = ACTIVE.
Proof.
  intros Hr. destruct (promotions_spec cfg reg epoch ts (registry_reachable_inv _ _ Hr))
    as (fps&reg'&E&Hin&Hnd&_&_&Hrec).
  exists fps, reg'. split_and!; try done. intros fp r (r0&El&Hd)%Hin.
  unfold lookup. rewrite Hrec, El. simpl. unfold promoted_record. rewrite Hd. by intros [= <-].
Qed.

Lemma enrolled_record reg id ts reg1 :
  enroll reg id ts = Ok reg1 -> exists r, records reg1 !! fingerprint id = Some r /\ state r = PENDING /\
    identity r = id /\ approved_by r = None /\ sponsors r = [].
Proof.
  unfold enroll. case_bool_decide; [done|]. destruct (records reg !! _); [done|]. intros [= <-].
  simpl. rewrite lookup_insert_eq. by eexists.
Qed.

(** A freshly enrolled writer needs neither an approval nor a sponsor to
    become ACTIVE: [promote], [reinstate] and [renew] each check only that the
    lifecycle has an edge to ACTIVE, and PENDING has one. *)
Theorem approval_bypassed reg id ts reg1 ts' actor :
  enroll reg id ts = Ok reg1 ->
  let admits res := exists reg2 r, res = Ok reg2 /\ lookup reg2 (fingerprint id) = Some r /\
    can_transact r = true /\ state r = ACTIVE /\ approved_by r = None /\ sponsors r = [] in
  admits (promote reg1 (fingerprint id) ts') /\
  admits (reinstate reg1 (fingerprint id) actor ts') /\
  admits (renew reg1 (fingerprint id) actor ts').
Proof.
  intros (r&El&Hs&Hid&Ha&Hsp)%enrolled_record admits.
  assert (forall a why, transition reg1 (fingerprint id) ACTIVE a why ts' false = Ok (put_record reg1 (fingerprint id)
    (moved r ACTIVE {| te_timestamp := ts'; from_state := state r; to_state := ACTIVE; actor_fp := a;
       te_reason := why; is_emergency := false |}))) as Et.
  { intros. apply transition_Ok. exists r. by rewrite Hs. }
  unfold admits, promote, reinstate, renew, mbind, result_bind, lookup.
  rewrite (proj2 (get_or_raise_Ok _ _ _) El), !Et. unfold update, get_or_raise, mbind, result_bind.
  simpl. rewrite lookup_insert_eq. simpl.
  split_and!; do 2 eexists; (split; [reflexivity|]); simpl; rewrite ?insert_insert_eq, lookup_insert_eq;
    (split; [reflexivity|]); done.
Qed.

(** No registry operation ever sets [expires_at], so on every reachable
    registry [check_expirations] expires nobody, whatever the epoch: the
    EXPIRED state and the configured expiry are dead. *)
Theorem expiry_never_fires cfg reg epoch :
  reg_reachable cfg reg ->
  check_expirations reg epoch = Ok ([], reg) /\
  forall fp r, lookup reg fp = Some r -> expires_at r = None.
Proof.
  intros Hr. pose proof (registry_reachable_inv _ _ Hr) as Hi.
  assert (to_expire reg epoch = []) as E.
  { destruct (to_expire reg epoch) as [|fp l] eqn:E; [done|].
    assert (fp ∈ to_expire reg epoch) as (r&El&Hd)%elem_of_keys by (rewrite E; constructor).
    unfold due_to_expire in Hd. simpl in Hd. rewrite (ri_expiry _ _ _ (gi_records _ _ Hi _ _ El)) in Hd.
    by rewrite andb_false_r in Hd. }
  split; [by unfold check_expirations; rewrite E|].
  intros fp r El. by eapply ri_expiry, gi_records.
Qed.

(** * A concrete registry: two approved writers sponsor a third *)
Definition demo_identity (n : Z) : WriterIdentity :=
  {| tier := MLDSA; fingerprint := be_encode 32 n; mldsa_vk := Some (be_encode 32 n); bls_pk := None |}.

Fixpoint exec_all (reg : WriterRegistry) (ops : list reg_op) : result WriterRegistry :=
  match ops with [] => Ok reg | o :: ops => reg ← exec reg o; exec_all reg ops end.

Lemma exec_all_steps ops reg reg' : exec_all reg ops = Ok reg' -> rtc reg_step reg reg'.
Proof.
  revert reg; induction ops as [|o ops IH]; simpl; intros reg; [by intros [= ->]|].
  unfold mbind, result_bind. destruct (exec reg o) eqn:E; [|done]. intros H.
  eapply rtc_l; [by econstructor|]. by apply IH.
Qed.

Definition demo_ops : list reg_op := [
  OpEnroll (demo_identity 1) 100; OpApprove (be_encode 32 1) (be_encode 32 9) 101;
  OpEnroll (demo_identity 2) 102; OpApprove (be_encode 32 2) (be_encode 32 9) 103;
  OpEnroll (demo_identity 3) 104; OpSponsor (be_encode 32 3) (be_encode 32 1) 105;
  OpSponsor (be_encode 32 3) (be_encode 32 2) 106].
Definition demo_registry : WriterRegistry := get_ok (new_registry default_config) (exec_all (new_registry default_config) demo_ops).

Lemma demo_registry_reachable : reg_reachable default_config demo_registry.
Proof. apply (exec_all_steps demo_ops). apply get_ok_eq. by vm_compute. Qed.

Definition no_record : WriterRecord := {|
  identity := demo_identity 0; state := PENDING; approval_path := SELF; enrolled_at := 0; approved_at := None;
  approved_by := None; sponsors := []; probation_until := None; expires_at := None; suspension_reason := None;
  transition_log := [] |}.
Definition demo_writer (n : Z) : WriterRecord := get_ok no_record (get_or_raise demo_registry (be_encode 32 n)).

Lemma lookup_demo n : is_ok (get_or_raise demo_registry (be_encode 32 n)) = true ->
  lookup demo_registry (be_encode 32 n) = Some (demo_writer n).
Proof. intros H. unfold lookup. apply get_or_raise_Ok. by apply get_ok_eq. Qed.

Lemma demo_writer3 : state (demo_writer 3) = PROBATION /\ sponsors (demo_writer 3) = [be_encode 32 1; be_encode 32 2].
Proof. by vm_compute. Qed.

Lemma registry_audit_witness :
  sponsor_threshold default_config <= Z.of_nat (length (sponsors (demo_writer 3))) /\
  replay PENDING (transition_log (demo_writer 3)) = Some (state (demo_writer 3)).
Proof.
  destruct (registry_audit default_config demo_registry (be_encode 32 3) (demo_writer 3) demo_registry_reachable
    (lookup_demo 3 ltac:(by vm_compute))) as (_&H1&_&_&_&H2).
  split; [apply H2; by vm_compute; constructor|exact H1].
Defined.

Definition demo_revoked : WriterRegistry :=
  get_ok demo_registry (revoke demo_registry (be_encode 32 2) (lit "fraud") (be_encode 32 9) 200).

Lemma revocation_permanent_witness :
  exists r, lookup demo_revoked (be_encode 32 2) = Some r /\ can_transact r = false.
Proof.
  destruct (revocation_permanent default_config demo_registry (be_encode 32 2) (lit "fraud") (be_encode 32 9) 200
    demo_revoked demo_revoked demo_registry_reachable) as (r&_&H1&H2&_).
  - apply get_ok_eq. by vm_compute.
  - apply rtc_refl.
  - exists r. split; [exact H1|exact H2].
Defined.

Lemma promotions_exact_witness : exists reg',
  promote_due_probations demo_registry 116 300 = Ok ([be_encode 32 3], reg').
Proof.
  destruct (promotions_exact default_config demo_registry 116 300 demo_registry_reachable)
    as (fps&reg'&E&_&Hin&_).
  exists reg'. rewrite E.
  assert (fps = [be_encode 32 3]) as ->; [|reflexivity].
  apply (f_equal (fun p => match p with Ok q => q.1 | Err _ => [] end)) in E. simpl in E. rewrite <- E.
  by vm_compute.
Defined.

Lemma approval_bypassed_witness : exists reg2 r,
  promote (get_ok (new_registry default_config) (enroll (new_registry default_config) (demo_identity 5) 1)) (be_encode 32 5) 2 = Ok reg2 /\
  lookup reg2 (be_encode 32 5) = Some r /\ state r = ACTIVE /\ approved_by r = None.
Proof.
  destruct (approval_bypassed (new_registry default_config) (demo_identity 5) 1
    (get_ok (new_registry default_config) (enroll (new_registry default_config) (demo_identity 5) 1)) 2 [])
    as [(reg2&r&E&El&_&Hs&Ha&_) _].
  - apply get_ok_eq. by vm_compute.
  - exists reg2, r. split; [exact E|]. split; [exact El|]. split; [exact Hs|exact Ha].
Defined.

Lemma expiry_never_fires_witness : check_expirations demo_registry 1000000 = Ok ([], demo_registry).
Proof. exact (proj1 (expiry_never_fires default_config demo_registry 1000000 demo_registry_reachable)). Defined.
