(* ===== verification/WriterGate.v ===== *)
(** Authorisation of writers, on top of the registry of Writer.v: the
    declarative policy engine (src/src/ltp/execution/writer_policy.py), roles
    (writer_roles.py), emergency recovery and policy history
    (writer_recovery.py) and the two-phase gate (writer_gate.py,
    writer_auth.py).

    Policies are mutable objects that governance updates in place, so the gate
    holds references: [heap] maps references to policies, the snapshots hold
    deep copies, that is, values. *)

From Stdlib Require Import SpecFloat.
From S2P Require Import Prelude Float64 Sha3 Hashing Writer.

Definition tier_code (t : IdentityTier) : nat := match t with MLDSA => 0 | BLS => 1 | COMPOSITE => 2 end.
Definition tier_decode (n : nat) : IdentityTier := match n with O => MLDSA | 1%nat => BLS | _ => COMPOSITE end.
#[export] Instance tier_countable : Countable IdentityTier.
Proof. apply (inj_countable' tier_code tier_decode). by intros []. Defined.
Definition op_code (o : OperationType) : nat :=
  match o with TRANSFER => 0 | DEPLOY => 1 | CALL => 2 | STATE_MODIFY => 3 | STATE_READ => 4 end.
Definition op_decode (n : nat) : OperationType :=
  match n with O => TRANSFER | 1%nat => DEPLOY | 2%nat => CALL | 3%nat => STATE_MODIFY | _ => STATE_READ end.
#[export] Instance op_countable : Countable OperationType.
Proof. apply (inj_countable' op_code op_decode). by intros []. Defined.

(** * writer_policy.py *)
Record VMWriterPolicy : Type := {
  p_vm_tag : Z;
  allowed_tiers : gset IdentityTier;
  tier_operations : gmap IdentityTier (gset OperationType);
  max_txs_per_epoch : gmap IdentityTier Z;
  min_stake : gmap IdentityTier Z;
  max_writers : Z;
  fee_multiplier : gmap IdentityTier spec_float;
  allowlist : option (gset bytes);
  denylist : gset bytes;
  default_access_epochs : Z
}.

(** The double 1.0. *)
Definition f_one : spec_float := S754_finite false 4503599627370496 (-52).

Definition all_ops : gset OperationType := {[TRANSFER; DEPLOY; CALL; STATE_MODIFY; STATE_READ]}.
Definition default_allowed_tiers : gset IdentityTier := {[MLDSA; BLS; COMPOSITE]}.
Definition default_tier_operations : gmap IdentityTier (gset OperationType) :=
  <[MLDSA := all_ops]> (<[BLS := {[TRANSFER; STATE_READ]}]> (<[COMPOSITE := all_ops]> ∅)).
Definition default_max_txs_per_epoch : gmap IdentityTier Z :=
  <[MLDSA := 0]> (<[BLS := 1000]> (<[COMPOSITE := 0]> ∅)).
Definition default_min_stake : gmap IdentityTier Z := <[MLDSA := 0]> (<[BLS := 0]> (<[COMPOSITE := 0]> ∅)).
Definition default_fee_multiplier : gmap IdentityTier spec_float :=
  <[MLDSA := f_one]> (<[BLS := f_one]> (<[COMPOSITE := f_one]> ∅)).

(** [VMWriterPolicy(vm_tag=...)] *)
Definition default_policy (vm_tag : Z) : VMWriterPolicy := {|
  p_vm_tag := vm_tag; allowed_tiers := default_allowed_tiers; tier_operations := default_tier_operations;
  max_txs_per_epoch := default_max_txs_per_epoch; min_stake := default_min_stake; max_writers := 0;
  fee_multiplier := default_fee_multiplier; allowlist := None; denylist := ∅; default_access_epochs := 0 |}.

(** [PolicyResult], and [AuthorizationResult] without its metadata, which the
    gate drops. *)
Record PolicyResult : Type := { allowed : bool; reason : option pystr; fee : spec_float }.
Definition deny (why : pystr) : PolicyResult := {| allowed := false; reason := Some why; fee := f_one |}.
Definition permit (fm : spec_float) : PolicyResult := {| allowed := true; reason := None; fee := fm |}.

(** [record.state is WriterState.PROBATION] *)
Definition is_probation (r : WriterRecord) : bool := match state r with PROBATION => true | _ => false end.

Lemma is_probation_true r : is_probation r = true <-> state r = PROBATION.
Proof. unfold is_probation. by destruct (state r). Qed.

(** [PolicyEngine.evaluate] *)
Definition evaluate (cfg : RegistryConfig) (record : WriterRecord) (operation : OperationType)
  (policy : VMWriterPolicy) (tx_count writer_count stake : Z) : result PolicyResult :=
  let t := tier (identity record) in
  let fp := fingerprint (identity record) in
  let is_probation := is_probation record in
  let mods := probation_modifiers cfg in
  if negb (bool_decide (t ∈ allowed_tiers policy)) then Ok (deny (lit "tier " ++ tier_value t ++ lit " not allowed"))
  else if bool_decide (fp ∈ denylist policy) then Ok (deny (lit "writer on denylist"))
  else if match allowlist policy with Some al => negb (bool_decide (fp ∈ al)) | None => false end
  then Ok (deny (lit "writer not on allowlist"))
  else if is_probation && bool_decide (op_value operation ∈ blocked_operations mods)
  then Ok (deny (lit "operation " ++ op_value operation ++ lit " blocked during probation"))
  else if negb (bool_decide (operation ∈ default ∅ (tier_operations policy !! t)))
  then Ok (deny (lit "operation " ++ op_value operation ++ lit " not permitted for tier " ++ tier_value t))
  else
    let limit := default 0 (max_txs_per_epoch policy !! t) in
    limit ← (if is_probation && (0 <? limit)
             then if rate_limit_divisor mods =? 0 then Err ZeroDivisionError
                  else Ok (Z.max 1 (limit / rate_limit_divisor mods))
             else Ok limit);
    if (0 <? limit) && (limit <=? tx_count) then Ok (deny (lit "rate limit exceeded"))
    else if stake <? default 0 (min_stake policy !! t) then Ok (deny (lit "insufficient stake"))
    else if (0 <? max_writers policy) && (max_writers policy <=? writer_count) then Ok (deny (lit "writer cap reached"))
    else
      let base_fm := default f_one (fee_multiplier policy !! t) in
      Ok (permit (if is_probation then fmul base_fm (fee_multiplier_factor mods) else base_fm)).

(** * writer_roles.py *)
Inductive RegistryAction : Type :=
  APPROVE | REJECT | SUSPEND | REINSTATE | REVOKE | CONFIGURE_POLICY | SET_RATE_LIMIT | MANAGE_ALLOWLIST | MANAGE_DENYLIST.
#[export] Instance action_eq_dec : EqDecision RegistryAction.
Proof. solve_decision. Defined.
Definition all_registry_actions : list RegistryAction :=
  [APPROVE; REJECT; SUSPEND; REINSTATE; REVOKE; CONFIGURE_POLICY; SET_RATE_LIMIT; MANAGE_ALLOWLIST; MANAGE_DENYLIST].

Record ScopedPermission : Type := {
  perm_action : RegistryAction;
  tier_scope : option (gset IdentityTier);
  vm_scope : option (gset Z)
}.

(** A scope check is skipped when either side is [None]. *)
Definition in_scope {A} `{Countable A} (scope : option (gset A)) (x : option A) : bool :=
  match scope, x with Some s, Some x => bool_decide (x ∈ s) | _, _ => true end.

Definition matches (p : ScopedPermission) (action : RegistryAction) (t : option IdentityTier) (vm : option Z) : bool :=
  if negb (bool_decide (perm_action p = action)) then false
  else if negb (in_scope (tier_scope p) t) then false
  else if negb (in_scope (vm_scope p) vm) then false
  else true.

Record RegistryRole : Type := { role_name : pystr; permissions : list ScopedPermission; is_builtin : bool }.

Definition has_permission (r : RegistryRole) (action : RegistryAction) (t : option IdentityTier) (vm : option Z) : bool :=
  existsb (fun p => matches p action t vm) (permissions r).

Record RoleAssignment : Type := {
  role : RegistryRole;
  assignee_fp : bytes;
  assigned_by : bytes;
  assigned_at : Z;
  role_expires_at : option Z
}.
Definition is_active (a : RoleAssignment) (current_epoch : Z) : bool :=
  match role_expires_at a with None => true | Some e => current_epoch <? e end.

Definition unscoped (a : RegistryAction) : ScopedPermission := {| perm_action := a; tier_scope := None; vm_scope := None |}.
Definition builtin_owner : RegistryRole :=
  {| role_name := lit "owner"; permissions := map unscoped all_registry_actions; is_builtin := true |}.
Definition builtin_admin : RegistryRole :=
  {| role_name := lit "admin"; permissions := map unscoped [APPROVE; REJECT; SUSPEND; REINSTATE; REVOKE]; is_builtin := true |}.
Definition builtin_sponsor : RegistryRole :=
  {| role_name := lit "sponsor"; permissions := [unscoped APPROVE]; is_builtin := true |}.

(** * writer_recovery.py *)
Inductive EmergencyAction : Type :=
  FREEZE_REGISTRY | UNFREEZE_REGISTRY | FREEZE_VM | UNFREEZE_VM | BYPASS_AUTHORIZER | CLEAR_BYPASS | FORCE_REVOKE
  | ROLLBACK_POLICY | ROTATE_OWNER | OVERRIDE_DISPATCH | CLEAR_OVERRIDE | FORCE_EPOCH_ADVANCE.

Record EmergencyIntervention : Type := {
  i_action : EmergencyAction;
  i_actor_fp : bytes;
  i_reason : pystr;
  i_timestamp : Z;
  i_scope : option Z;
  i_auto_expires : option Z
}.

Record EmergencyState : Type := {
  registry_frozen : bool;
  frozen_vms : gset Z;
  bypassed_authorizers : gset Z;
  dispatch_overrides : gmap bytes bool;
  interventions : list EmergencyIntervention
}.
Definition new_emergency : EmergencyState :=
  {| registry_frozen := false; frozen_vms := ∅; bypassed_authorizers := ∅; dispatch_overrides := ∅; interventions := [] |}.

Definition audit (a : EmergencyAction) (actor : bytes) (why : pystr) (ts : Z) (scope : option Z) : EmergencyIntervention :=
  {| i_action := a; i_actor_fp := actor; i_reason := why; i_timestamp := ts; i_scope := scope; i_auto_expires := None |}.

Definition is_vm_frozen (e : EmergencyState) (vm : Z) : bool := bool_decide (vm ∈ frozen_vms e).
Definition is_authorizer_bypassed (e : EmergencyState) (vm : Z) : bool := bool_decide (vm ∈ bypassed_authorizers e).
Definition get_dispatch_override (e : EmergencyState) (fp : bytes) : option bool := dispatch_overrides e !! fp.

Definition freeze_registry (e : EmergencyState) (actor : bytes) (why : pystr) (ts : Z) : EmergencyState :=
  {| registry_frozen := true; frozen_vms := frozen_vms e; bypassed_authorizers := bypassed_authorizers e;
     dispatch_overrides := dispatch_overrides e;
     interventions := interventions e ++ [audit FREEZE_REGISTRY actor why ts None] |}.
Definition unfreeze_registry (e : EmergencyState) (actor : bytes) (ts : Z) : EmergencyState :=
  {| registry_frozen := false; frozen_vms := frozen_vms e; bypassed_authorizers := bypassed_authorizers e;
     dispatch_overrides := dispatch_overrides e;
     interventions := interventions e ++ [audit UNFREEZE_REGISTRY actor (lit "registry unfrozen") ts None] |}.
Definition freeze_vm (e : EmergencyState) (vm : Z) (actor : bytes) (why : pystr) (ts : Z) : EmergencyState :=
  {| registry_frozen := registry_frozen e; frozen_vms := {[vm]} ∪ frozen_vms e;
     bypassed_authorizers := bypassed_authorizers e; dispatch_overrides := dispatch_overrides e;
     interventions := interventions e ++ [audit FREEZE_VM actor why ts (Some vm)] |}.
Definition unfreeze_vm (e : EmergencyState) (vm : Z) (actor : bytes) (ts : Z) : EmergencyState :=
  {| registry_frozen := registry_frozen e; frozen_vms := frozen_vms e ∖ {[vm]};
     bypassed_authorizers := bypassed_authorizers e; dispatch_overrides := dispatch_overrides e;
     interventions := interventions e ++ [audit UNFREEZE_VM actor (lit "VM unfrozen") ts (Some vm)] |}.
Definition bypass_authorizer (e : EmergencyState) (vm : Z) (actor : bytes) (why : pystr) (ts : Z) : EmergencyState :=
  {| registry_frozen := registry_frozen e; frozen_vms := frozen_vms e;
     bypassed_authorizers := {[vm]} ∪ bypassed_authorizers e; dispatch_overrides := dispatch_overrides e;
     interventions := interventions e ++ [audit BYPASS_AUTHORIZER actor why ts (Some vm)] |}.
Definition clear_bypass (e : EmergencyState) (vm : Z) (actor : bytes) (ts : Z) : EmergencyState :=
  {| registry_frozen := registry_frozen e; frozen_vms := frozen_vms e;
     bypassed_authorizers := bypassed_authorizers e ∖ {[vm]}; dispatch_overrides := dispatch_overrides e;
     interventions := interventions e ++ [audit CLEAR_BYPASS actor (lit "authorizer bypass cleared") ts (Some vm)] |}.
Definition force_revoke (e : EmergencyState) (fp actor : bytes) (why : pystr) (ts : Z) (reg : WriterRegistry)
  : result (EmergencyState * WriterRegistry) :=
  reg ← revoke reg fp (lit "EMERGENCY: " ++ why) actor ts;
  Ok ({| registry_frozen := registry_frozen e; frozen_vms := frozen_vms e;
         bypassed_authorizers := bypassed_authorizers e; dispatch_overrides := dispatch_overrides e;
         interventions := interventions e ++ [audit FORCE_REVOKE actor why ts None] |}, reg).
Definition set_dispatch_override (e : EmergencyState) (fp : bytes) (allow : bool) (actor : bytes) (why : pystr) (ts : Z)
  : EmergencyState :=
  {| registry_frozen := registry_frozen e; frozen_vms := frozen_vms e; bypassed_authorizers := bypassed_authorizers e;
     dispatch_overrides := <[fp := allow]> (dispatch_overrides e);
     interventions := interventions e ++ [audit OVERRIDE_DISPATCH actor why ts None] |}.
Definition clear_dispatch_override (e : EmergencyState) (fp actor : bytes) (ts : Z) : EmergencyState :=
  {| registry_frozen := registry_frozen e; frozen_vms := frozen_vms e; bypassed_authorizers := bypassed_authorizers e;
     dispatch_overrides := delete fp (dispatch_overrides e);
     interventions := interventions e ++ [audit CLEAR_OVERRIDE actor (lit "dispatch override cleared") ts None] |}.

Record PolicySnapshot : Type := { version : Z; snap_policy : VMWriterPolicy; snap_timestamp : Z }.
Abbreviation PolicySnapshotStore := (gmap Z (list PolicySnapshot)).

Definition version_count (s : PolicySnapshotStore) (vm : Z) : Z := Z.of_nat (length (default [] (s !! vm))).
Definition snapshot (s : PolicySnapshotStore) (vm : Z) (policy : VMWriterPolicy) (ts : Z) : Z * PolicySnapshotStore :=
  let snaps := default [] (s !! vm) in
  let v := Z.of_nat (length snaps) in
  (v, <[vm := snaps ++ [{| version := v; snap_policy := policy; snap_timestamp := ts |}]]> s).
Definition rollback (s : PolicySnapshotStore) (vm v : Z) : result VMWriterPolicy :=
  match s !! vm with
  | None => Err KeyError
  | Some snaps =>
      if (Z.of_nat (length snaps) <=? v) || (v <? 0) then Err KeyError
      else snap ← or_raise IndexError (snaps !! Z.to_nat v); Ok (snap_policy snap)
  end.

Record RecoveryQuorum : Type := { recovery_keys : gset bytes; threshold : Z; votes : gset bytes }.
Definition new_quorum (keys : list bytes) (th : Z) : RecoveryQuorum :=
  {| recovery_keys := list_to_set keys; threshold := th; votes := ∅ |}.
Definition add_vote (q : RecoveryQuorum) (key_fp : bytes) : result RecoveryQuorum :=
  if negb (bool_decide (key_fp ∈ recovery_keys q)) then Err (ValueError "is not a registered recovery key")
  else Ok {| recovery_keys := recovery_keys q; threshold := threshold q; votes := {[key_fp]} ∪ votes q |}.
Definition is_met (q : RecoveryQuorum) : bool := threshold q <=? Z.of_nat (size (votes q)).
Definition reset (q : RecoveryQuorum) : RecoveryQuorum :=
  {| recovery_keys := recovery_keys q; threshold := threshold q; votes := ∅ |}.

(** * writer_gate.py *)
Record DispatchDecision : Type := {
  d_allowed : bool;
  d_reason : option pystr;
  d_fee : spec_float;
  d_record : option WriterRecord
}.
Definition blocked (why : pystr) : DispatchDecision :=
  {| d_allowed := false; d_reason := Some why; d_fee := f_one; d_record := None |}.
Definition passed (r : WriterRecord) : DispatchDecision :=
  {| d_allowed := true; d_reason := None; d_fee := f_one; d_record := Some r |}.
Definition decided (p : PolicyResult) (r : WriterRecord) : DispatchDecision :=
  {| d_allowed := allowed p; d_reason := reason p; d_fee := fee p; d_record := Some r |}.

Record WriterGate : Type := {
  g_registry : WriterRegistry;
  g_emergency : EmergencyState;
  g_epoch : EpochTracker;
  g_policies : gmap Z positive;
  heap : gmap positive VMWriterPolicy;
  g_engine : RegistryConfig;
  g_snapshots : PolicySnapshotStore
}.
Definition new_gate (reg : WriterRegistry) : WriterGate :=
  {| g_registry := reg; g_emergency := new_emergency; g_epoch := new_tracker; g_policies := ∅; heap := ∅;
     g_engine := config reg; g_snapshots := ∅ |}.

Definition with_policies (g : WriterGate) (ps : gmap Z positive) (h : gmap positive VMWriterPolicy)
  (s : PolicySnapshotStore) : WriterGate :=
  {| g_registry := g_registry g; g_emergency := g_emergency g; g_epoch := g_epoch g; g_policies := ps; heap := h;
     g_engine := g_engine g; g_snapshots := s |}.
Definition with_epoch (g : WriterGate) (t : EpochTracker) : WriterGate :=
  {| g_registry := g_registry g; g_emergency := g_emergency g; g_epoch := t; g_policies := g_policies g; heap := heap g;
     g_engine := g_engine g; g_snapshots := g_snapshots g |}.
Definition with_emergency (g : WriterGate) (e : EmergencyState) : WriterGate :=
  {| g_registry := g_registry g; g_emergency := e; g_epoch := g_epoch g; g_policies := g_policies g; heap := heap g;
     g_engine := g_engine g; g_snapshots := g_snapshots g |}.

(** [set_policy]: [loc] refers to the caller's policy object. *)
Definition set_policy (g : WriterGate) (vm : Z) (loc : positive) : result WriterGate :=
  policy ← or_raise TypeError (heap g !! loc);
  Ok (with_policies g (<[vm := loc]> (g_policies g)) (heap g) (snapshot (g_snapshots g) vm policy 0).2).

(** [rollback_policy]: the deep copy is a new object. *)
Definition rollback_policy (g : WriterGate) (vm v : Z) : result (positive * WriterGate) :=
  policy ← rollback (g_snapshots g) vm v;
  let loc := fresh (dom (heap g)) in
  Ok (loc, with_policies g (<[vm := loc]> (g_policies g)) (<[loc := policy]> (heap g)) (g_snapshots g)).

(** Governance creates a policy object, or assigns to one it holds. *)
Definition write_policy (g : WriterGate) (loc : positive) (p : VMWriterPolicy) : WriterGate :=
  with_policies g (g_policies g) (<[loc := p]> (heap g)) (g_snapshots g).

Definition record_dispatch (g : WriterGate) (fp : bytes) (vm epoch : Z) : WriterGate :=
  with_epoch g (increment (g_epoch g) fp vm epoch).

Definition WRITER_FP_SIZE : nat := 32.

(** [f"{b:02X}"] for a byte. *)
Definition hex_upper (n : Z) : Z := if n <? 10 then 48 + n else 55 + n.
Definition hex02 (b : Z) : pystr := [hex_upper (b / 16); hex_upper (b mod 16)].

Definition pre_dispatch (g : WriterGate) (tx_bytes : bytes) : DispatchDecision :=
  if (length tx_bytes <? WRITER_FP_SIZE + 1)%nat then blocked (lit "tx too short for writer gate")
  else
    let writer_fp := take WRITER_FP_SIZE tx_bytes in
    let vm_tag := tx_bytes !!! WRITER_FP_SIZE in
    if registry_frozen (g_emergency g) then blocked (lit "registry frozen")
    else
      match Writer.lookup (g_registry g) writer_fp with
      | None => blocked (lit "writer not found")
      | Some record =>
          if negb (TRANSACTABLE_STATES (state record))
          then blocked (lit "writer not active (state=" ++ state_value (state record) ++ lit ")")
          else
            match get_dispatch_override (g_emergency g) writer_fp with
            | Some true => passed record
            | Some false => blocked (lit "dispatch override: blocked")
            | None =>
                if is_vm_frozen (g_emergency g) vm_tag then blocked (lit "VM 0x" ++ hex02 vm_tag ++ lit " frozen")
                else passed record
            end
      end.

(** The policy [vm_authorize] evaluates for a VM. *)
Definition policy_for (g : WriterGate) (vm_tag : option Z) : result VMWriterPolicy :=
  match vm_tag ≫= fun t => g_policies g !! t with
  | Some loc => or_raise TypeError (heap g !! loc)
  | None => Ok (default_policy (default 0 vm_tag))
  end.

(** [vm_authorize]: the executor is seen through its optional [vm_tag]
    attribute and, if it implements the protocol, its [authorize_writer]. *)
Definition vm_authorize (g : WriterGate) (record : WriterRecord) (vm_tag : option Z)
  (authorize_writer : option (WriterRecord -> OperationType -> bytes -> result PolicyResult))
  (operation : OperationType) (tx_bytes : bytes) : result DispatchDecision :=
  let bypassed := match vm_tag with Some t => is_authorizer_bypassed (g_emergency g) t | None => false end in
  match (if bypassed then None else authorize_writer) with
  | Some auth => res ← auth record operation tx_bytes; Ok (decided res record)
  | None =>
      policy ← policy_for g vm_tag;
      let tx_count := get_tx_count (g_epoch g) (fingerprint (identity record)) (default 0 vm_tag) in
      let writer_count := Z.of_nat (length (active_writers (g_registry g))) in
      res ← evaluate (g_engine g) record operation policy tx_count writer_count 0;
      Ok (decided res record)
  end.

(** * The policy engine *)

(** The effective rate limit: halved on probation, at least one; zero means
    none. *)
Definition effective_limit (cfg : RegistryConfig) (r : WriterRecord) (policy : VMWriterPolicy) : Z :=
  let limit := default 0 (max_txs_per_epoch policy !! tier (identity r)) in
  if is_probation r && (0 <? limit)
  then Z.max 1 (limit / rate_limit_divisor (probation_modifiers cfg)) else limit.

(** The eight knobs as one proposition. *)
Record policy_allows (cfg : RegistryConfig) (r : WriterRecord) (op : OperationType) (policy : VMWriterPolicy)
  (tx_count writer_count stake : Z) : Prop := {
  pa_tier : tier (identity r) ∈ allowed_tiers policy;
  pa_deny : fingerprint (identity r) ∉ denylist policy;
  pa_allow : forall al, allowlist policy = Some al -> fingerprint (identity r) ∈ al;
  pa_probation : state r = PROBATION -> op_value op ∉ blocked_operations (probation_modifiers cfg);
  pa_op : exists ops, tier_operations policy !! tier (identity r) = Some ops /\ op ∈ ops;
  pa_rate : 0 < effective_limit cfg r policy -> tx_count < effective_limit cfg r policy;
  pa_stake : default 0 (min_stake policy !! tier (identity r)) <= stake;
  pa_cap : 0 < max_writers policy -> writer_count < max_writers policy
}.

Definition effective_fee (cfg : RegistryConfig) (r : WriterRecord) (policy : VMWriterPolicy) : spec_float :=
  let base := default f_one (fee_multiplier policy !! tier (identity r)) in
  if is_probation r then fmul base (fee_multiplier_factor (probation_modifiers cfg)) else base.

Ltac denied := eexists; split; [reflexivity|]; split; [|split]; [split; [done|intros Hpa; exfalso; revert Hpa] | done | done].

Lemma evaluate_spec cfg r op policy tx_count writer_count stake :
  rate_limit_divisor (probation_modifiers cfg) <> 0 ->
  exists res, evaluate cfg r op policy tx_count writer_count stake = Ok res /\
    (allowed res = true <-> policy_allows cfg r op policy tx_count writer_count stake) /\
    (allowed res = true -> reason res = None /\ fee res = effective_fee cfg r policy) /\
    (allowed res = false -> is_Some (reason res)).
Proof.
  intros Hdiv. unfold evaluate. cbv zeta.
  case_bool_decide as H1; simpl; [|denied; intros [??]; done].
  case_bool_decide as H2; simpl; [denied; by intros []|].
  destruct (match allowlist policy with Some al => _ | None => false end) eqn:H3.
  { denied. intros [? ? Ha]. destruct (allowlist policy) as [al|]; [|done]. breflect. by apply H3, Ha. }
  destruct (is_probation r && bool_decide _) eqn:H4.
  { denied. intros [? ? ? Hp]. breflect. apply Hp; [by apply is_probation_true|done]. }
  destruct (bool_decide (op ∈ _)) eqn:H5; simpl; breflect; [|denied; intros [? ? ? ? (ops&E&?)]; rewrite E in H5; done].
  assert ((if is_probation r && (0 <? default 0 (max_txs_per_epoch policy !! tier (identity r)))
     then if rate_limit_divisor (probation_modifiers cfg) =? 0 then Err ZeroDivisionError
          else Ok (Z.max 1 (default 0 (max_txs_per_epoch policy !! tier (identity r)) / rate_limit_divisor (probation_modifiers cfg)))
     else Ok (default 0 (max_txs_per_epoch policy !! tier (identity r)))) = Ok (effective_limit cfg r policy)) as ->.
  { unfold effective_limit. cbv zeta. rewrite (proj2 (Z.eqb_neq _ _) Hdiv). destruct (is_probation r); simpl; [|done]. by destruct (0 <? default 0 _). }
  unfold mbind, result_bind.
  destruct ((0 <? effective_limit cfg r policy) && _) eqn:H6.
  { denied. intros [? ? ? ? ? Hr]. breflect. lia. }
  destruct (stake <? _) eqn:H7; [denied; intros [? ? ? ? ? ? Hs]; breflect; lia|].
  destruct ((0 <? max_writers policy) && _) eqn:H8; [denied; intros [? ? ? ? ? ? ? Hc]; breflect; lia|].
  eexists. split; [reflexivity|]. split; [split; [intros _|done]|by split].
  assert (forall a b : Z, (0 <? a) && (a <=? b) = false -> 0 < a -> b < a) as Hlim.
  { intros a b [Hf|Hf]%andb_false_iff; breflect; lia. }
  split; try done.
  - intros al Eal. rewrite Eal in H3. by breflect.
  - intros Hp%is_probation_true Hin. rewrite Hp in H4. simpl in H4. by apply bool_decide_eq_false in H4.
  - destruct (tier_operations policy !! tier (identity r)) as [ops|]; [by exists ops|set_solver].
  - by apply Hlim.
  - by breflect.
  - by apply Hlim.
Qed.

(** The policy engine never raises (for a nonzero probation divisor) and
    allows an operation exactly when all eight knobs do: tier allowed, not on
    the denylist, on the allowlist if there is one, not blocked on probation,
    permitted for the tier, below the effective rate limit, enough stake,
    writer cap not reached.  An allowed operation carries the tier's fee
    multiplier, times the probation factor on probation; a refusal carries a
    reason. *)
Theorem policy_exact cfg r op policy tx_count writer_count stake :
  rate_limit_divisor (probation_modifiers cfg) <> 0 ->
  exists res, evaluate cfg r op policy tx_count writer_count stake = Ok res /\
    (allowed res = true <-> policy_allows cfg r op policy tx_count writer_count stake) /\
    (allowed res = true -> reason res = None /\ fee res = effective_fee cfg r policy) /\
    (allowed res = false -> is_Some (reason res)).
Proof. apply evaluate_spec. Qed.

Lemma policy_exact_witness : exists res,
  evaluate default_config (demo_writer 3) TRANSFER (default_policy 1) 0 3 0 = Ok res /\ allowed res = true /\
  fee res = S754_finite false 4503599627370496 (-51).
Proof.
  destruct (policy_exact default_config (demo_writer 3) TRANSFER (default_policy 1) 0 3 0 ltac:(done))
    as (res&E&_&Hf&_).
  assert (allowed res = true) as Ha.
  { apply (f_equal (fun x => match x with Ok p => allowed p | Err _ => false end)) in E.
    simpl in E. rewrite <- E. by vm_compute. }
  exists res. split; [exact E|]. split; [exact Ha|]. rewrite (proj2 (Hf Ha)). by vm_compute.
Defined.

(** Two knobs refuse every writer.  The gate never passes a stake, so a
    tier with a positive minimum stake is always refused; and the writers
    counted against the cap include the one asking, so a VM whose cap equals
    the number of its transactable writers refuses all of them. *)
Theorem stake_and_cap_refuse g r vm policy op tx d :
  rate_limit_divisor (probation_modifiers (g_engine g)) <> 0 ->
  policy_for g (Some vm) = Ok policy ->
  0 < default 0 (min_stake policy !! tier (identity r)) \/
  (0 < max_writers policy /\ max_writers policy <= Z.of_nat (length (active_writers (g_registry g)))) ->
  vm_authorize g r (Some vm) None op tx = Ok d -> d_allowed d = false.
Proof.
  intros Hdiv Ep Hk. unfold vm_authorize. cbv zeta.
  replace (if is_authorizer_bypassed (g_emergency g) vm then None else None)
    with (@None (WriterRecord -> OperationType -> bytes -> result PolicyResult)) by (by destruct (is_authorizer_bypassed _ _)).
  rewrite Ep. unfold mbind, result_bind.
  destruct (evaluate_spec (g_engine g) r op policy (get_tx_count (g_epoch g) (fingerprint (identity r)) (default 0 (Some vm)))
    (Z.of_nat (length (active_writers (g_registry g)))) 0 Hdiv) as (res&->&Ha&_).
  intros [= <-]. simpl. apply not_true_iff_false. rewrite Ha. intros [? ? ? ? ? ? Hs Hc].
  destruct Hk as [Hk|[Hk1 Hk2]]; [lia|]. specialize (Hc Hk1). lia.
Qed.

(** * Policy history

    What governance and the dispatch path do to a gate between two points. *)
Inductive gate_step : WriterGate -> WriterGate -> Prop :=
| gs_set g vm loc g' : set_policy g vm loc = Ok g' -> gate_step g g'
| gs_rollback g vm v loc g' : rollback_policy g vm v = Ok (loc, g') -> gate_step g g'
| gs_write g loc p : gate_step g (write_policy g loc p)
| gs_dispatch g fp vm epoch : gate_step g (record_dispatch g fp vm epoch)
| gs_emergency g e : gate_step g (with_emergency g e).

Lemma snapshot_lookup s vm p ts vm' :
  default [] ((snapshot s vm p ts).2 !! vm') = default [] (s !! vm') ++
    (if bool_decide (vm' = vm) then [{| version := version_count s vm; snap_policy := p; snap_timestamp := ts |}] else []).
Proof.
  simpl. case_bool_decide as E; [subst; by rewrite lookup_insert_eq|].
  by rewrite lookup_insert_ne, app_nil_r.
Qed.

Lemma gate_step_history g g' vm : gate_step g g' ->
  exists tl, default [] (g_snapshots g' !! vm) = default [] (g_snapshots g !! vm) ++ tl.
Proof.
  destruct 1 as [g vm' loc g' E|g vm' v loc g' E|g loc p|g fp vm' epoch|g e];
    [| |exists []; by rewrite app_nil_r..].
  - unfold set_policy, mbind, result_bind in E. destruct (or_raise _ _); [|done]. injection E as <-.
    eexists. apply (snapshot_lookup (g_snapshots g)).
  - unfold rollback_policy, mbind, result_bind in E. destruct (rollback _ _ _); [|done]. injection E as <- <-.
    exists []. by rewrite app_nil_r.
Qed.

Lemma gate_steps_history g g' vm : rtc gate_step g g' ->
  exists tl, default [] (g_snapshots g' !! vm) = default [] (g_snapshots g !! vm) ++ tl.
Proof.
  induction 1 as [|g1 g2 g3 Hs _ [tl2 IH]]; [exists []; by rewrite app_nil_r|].
  destruct (gate_step_history _ _ vm Hs) as [tl1 E]. exists (tl1 ++ tl2). by rewrite IH, E, app_assoc.
Qed.

Lemma rollback_snap s vm (i : nat) snap :
  default [] (s !! vm) !! i = Some snap -> rollback s vm (Z.of_nat i) = Ok (snap_policy snap).
Proof.
  unfold rollback. destruct (s !! vm) as [snaps|]; simpl; [|done]. intros E.
  pose proof (lookup_lt_Some _ _ _ E).
  replace (Z.of_nat (length snaps) <=? Z.of_nat i) with false by (symmetry; apply Z.leb_gt; lia).
  replace (Z.of_nat i <? 0) with false by (symmetry; apply Z.ltb_ge; lia). simpl.
  by rewrite Nat2Z.id, E.
Qed.

(** The gate only refers to policy objects that exist. *)
Definition no_dangling (g : WriterGate) : Prop :=
  forall vm loc, g_policies g !! vm = Some loc -> is_Some (heap g !! loc).

Lemma gate_step_no_dangling g g' : no_dangling g -> gate_step g g' -> no_dangling g'.
Proof.
  unfold no_dangling. intros Hg. destruct 1 as [g vm loc g' E|g vm v loc g' E|g loc p|g fp vm epoch|g e]; try done.
  - unfold set_policy, mbind, result_bind, or_raise in E. destruct (heap g !! loc) eqn:El; [|done]. injection E as <-.
    simpl. intros vm' l [[_ <-]|[_ ?]]%lookup_insert_Some; [by rewrite El|eauto].
  - unfold rollback_policy, mbind, result_bind in E. destruct (rollback _ _ _); [|done]. injection E as <- <-.
    simpl. intros vm' l [[_ <-]|[_ ?]]%lookup_insert_Some; apply lookup_insert_is_Some'; eauto.
  - simpl. intros vm l Hl. apply lookup_insert_is_Some'. eauto.
Qed.

Lemma gate_steps_no_dangling g g' : no_dangling g -> rtc gate_step g g' -> no_dangling g'.
Proof. intros Hg. induction 1; [done|]. eauto using gate_step_no_dangling. Qed.

(** Rolling a policy back restores it exactly: the version recorded when
    a policy was installed can be restored after any later history, also when
    governance has since assigned to the very policy object it installed; the
    VM is then governed by a new object holding the old policy, and the
    policies of the other VMs are as they were. *)
Theorem rollback_restores g0 vm loc p g1 g2 :
  no_dangling g0 -> heap g0 !! loc = Some p -> set_policy g0 vm loc = Ok g1 -> rtc gate_step g1 g2 ->
  exists loc' g3, rollback_policy g2 vm (version_count (g_snapshots g0) vm) = Ok (loc', g3) /\
    policy_for g3 (Some vm) = Ok p /\ heap g2 !! loc' = None /\
    forall vm', vm' <> vm -> policy_for g3 (Some vm') = policy_for g2 (Some vm').
Proof.
  intros Hnd Eh E Hs.
  pose proof (gate_steps_no_dangling _ _ (gate_step_no_dangling _ _ Hnd (gs_set _ _ _ _ E)) Hs) as Hnd2.
  unfold set_policy, mbind, result_bind in E. rewrite Eh in E. simpl in E.
  injection E as <-. destruct (gate_steps_history _ _ vm Hs) as [tl Etl].
  pose proof (snapshot_lookup (g_snapshots g0) vm p 0 vm) as Esl. rewrite bool_decide_eq_true_2 in Esl by done.
  simpl in Esl, Etl. rewrite Esl in Etl.
  unfold rollback_policy, mbind, result_bind, version_count.
  rewrite (rollback_snap _ vm _ {| version := version_count (g_snapshots g0) vm; snap_policy := p; snap_timestamp := 0 |}).
  2: { rewrite Etl, <- app_assoc. rewrite lookup_app_r by done. by rewrite Nat.sub_diag. }
  set (loc' := fresh (dom (heap g2))).
  assert (heap g2 !! loc' = None) as Hf by (apply not_elem_of_dom, is_fresh).
  eexists loc', _. split; [reflexivity|]. unfold policy_for. simpl. rewrite lookup_insert_eq. simpl.
  rewrite lookup_insert_eq. split; [done|]. split; [done|].
  intros vm' Hne. rewrite lookup_insert_ne by done. destruct (g_policies g2 !! vm') as [l|] eqn:El; simpl; [|done].
  apply Hnd2 in El. destruct (decide (l = loc')) as [->|Hl]; [by rewrite Hf in El; destruct El|].
  by rewrite lookup_insert_ne.
Qed.

(** A gate over the demo registry: VM 1 first gets the default policy, then
    governance caps the same object at one writer. *)
Definition demo_gate0 : WriterGate := write_policy (new_gate demo_registry) 1 (default_policy 1).
Definition demo_gate1 : WriterGate := get_ok demo_gate0 (set_policy demo_gate0 1 1).
Definition capped_policy : VMWriterPolicy := {|
  p_vm_tag := 1; allowed_tiers := default_allowed_tiers; tier_operations := default_tier_operations;
  max_txs_per_epoch := default_max_txs_per_epoch; min_stake := default_min_stake; max_writers := 3;
  fee_multiplier := default_fee_multiplier; allowlist := None; denylist := ∅; default_access_epochs := 0 |}.
Definition demo_gate2 : WriterGate := write_policy demo_gate1 1 capped_policy.

Lemma stake_and_cap_refuse_witness : exists d,
  vm_authorize demo_gate2 (demo_writer 1) (Some 1) None TRANSFER [] = Ok d /\ d_allowed d = false.
Proof.
  assert (is_ok (vm_authorize demo_gate2 (demo_writer 1) (Some 1) None TRANSFER []) = true) as E by (by vm_compute).
  apply (get_ok_eq (blocked [])) in E. eexists. split; [exact E|].
  eapply (stake_and_cap_refuse demo_gate2 (demo_writer 1) 1 capped_policy); [done|by vm_compute|right|exact E].
  split; [done|]. by vm_compute.
Defined.

Lemma rollback_restores_witness : exists loc' g3,
  rollback_policy demo_gate2 1 0 = Ok (loc', g3) /\ policy_for g3 (Some 1) = Ok (default_policy 1).
Proof.
  destruct (rollback_restores demo_gate0 1 1 (default_policy 1) demo_gate1 demo_gate2) as (loc'&g3&E&Hp&_).
  - intros vm l El. simpl in El. by rewrite lookup_empty in El.
  - by vm_compute.
  - apply get_ok_eq. by vm_compute.
  - eapply rtc_once, gs_write.
  - exists loc', g3. split; [exact E|exact Hp].
Defined.
