(* ===== verification/Router.v ===== *)
(** Multi-VM execution (src/src/ltp/execution/): the registry of VM executors
    (registry.py), the transaction router with its writer gate (router.py), the
    multi-VM state root (state_root.py, model.py) and the batch executor
    (batch_executor.py).

    The virtual machines are plug-ins behind the [ExecutionModel] protocol: a
    class whose instances are executor objects with their own state. *)

From Stdlib Require Import SpecFloat.
From S2P Require Import Prelude Float64 Sha3 Hashing Encoding Writer WriterGate.

(** * types.py *)
Record OrderedBatch : Type := {
  b_round : Z;
  b_epoch : Z;
  transactions : list bytes;
  leader_authority : Z;
  timestamp_ms : Z;
  consensus_type : pystr
}.
Record TxResult : Type := { success : bool; gas_used : Z; error : pystr; return_data : bytes }.
Definition accepted (gas : Z) (data : bytes) : TxResult :=
  {| success := true; gas_used := gas; error := []; return_data := data |}.
Definition rejected (why : pystr) : TxResult :=
  {| success := false; gas_used := 0; error := why; return_data := [] |}.
Definition failed (why : pystr) (gas : Z) : TxResult :=
  {| success := false; gas_used := gas; error := why; return_data := [] |}.

Record StateQuery : Type := { target_vm : Z; query_type : pystr; key : bytes }.
Record StateResult : Type := { data : bytes; found : bool }.

(** * model.py

    An executor object.  [execute] returns or raises, and in both cases leaves
    a new state of the object; it does not change its own tag.
    [authorize_writer] is [Some] for an executor that also implements
    [WriterAuthorizer].  [str_exn] is [str(exc)]. *)
Class ExecutionModel (Obj : Type) : Type := {
  vm_tag : Obj -> Z;
  vm_name : Obj -> pystr;
  execute : Obj -> bytes -> result TxResult * Obj;
  state_root : Obj -> result bytes;
  query_state : Obj -> StateQuery -> result StateResult;
  authorize_writer : Obj -> option (WriterRecord -> OperationType -> bytes -> result PolicyResult);
  str_exn : exn -> pystr;
  execute_tag : forall o p, vm_tag (execute o p).2 = vm_tag o
}.

Definition family_from_tag (tag : Z) : Z := Z.shiftr tag 4.

(** * state_root.py *)
Record MultiVMStateRoot : Type := { vm_roots : gmap Z bytes; batch_round : Z }.

Section StateRoot.
Context `{CanonicalHash}.

(** One level of [_merkle_root]: an odd last node is paired with itself. *)
Fixpoint pair_level (current : list bytes) : list bytes :=
  match current with
  | a :: b :: rest => chash (a ++ b) :: pair_level rest
  | [a] => [chash (a ++ a)]
  | [] => []
  end.

(** The [while len(current) > 1] loop. *)
Fixpoint merkle_levels (fuel : nat) (current : list bytes) : list bytes :=
  match fuel with
  | O => current
  | S fuel => if (1 <? length current)%nat then merkle_levels fuel (pair_level current) else current
  end.

Definition merkle_root (leaves : list bytes) : bytes :=
  match leaves with
  | [] => repeat 0 32
  | _ => hd [] (merkle_levels (length leaves) leaves)
  end.

Lemma list_pair_ind {A} (P : list A -> Prop) :
  P [] -> (forall a, P [a]) -> (forall a b l, P l -> P (a :: b :: l)) -> forall l, P l.
Proof.
  intros H0 H1 H2 l. enough (P l /\ forall a, P (a :: l)) by tauto.
  induction l as [|x l [IH1 IH2]]; split; auto.
Qed.

(** The loop ends with one node: the number of leaves is fuel enough. *)
Lemma pair_level_length l : length (pair_level l) = ((length l + 1) / 2)%nat.
Proof.
  induction l as [| |a b l IH] using list_pair_ind; [done..|].
  cbn [pair_level length]. rewrite IH.
  replace (S (S (length l)) + 1)%nat with (length l + 1 + 1 * 2)%nat by lia.
  rewrite Nat.div_add by lia. lia.
Qed.

Lemma merkle_levels_single fuel l :
  (1 <= length l <= fuel)%nat -> length (merkle_levels fuel l) = 1%nat.
Proof.
  revert l; induction fuel as [|fuel IH]; intros l Hl; simpl; [lia|].
  destruct (Nat.ltb_spec 1 (length l)); [|lia]. apply IH. rewrite pair_level_length.
  pose proof (Nat.div_mod (length l + 1) 2). pose proof (Nat.mod_upper_bound (length l + 1) 2). lia.
Qed.

Definition sorted_tags (m : gmap Z bytes) : list Z := merge_sort Z.le (elements (dom m)).

Definition vm_leaf (tag : Z) (root : bytes) : result bytes :=
  t ← int_to_bytes 1 tag; Ok (chash (t ++ root)).

(** [family_leaves.setdefault(family_id, []).append(leaf)] *)
Definition add_leaf (m : gmap Z bytes) (acc : gmap Z (list bytes)) (tag : Z) : result (gmap Z (list bytes)) :=
  let family_id := family_from_tag tag in
  leaf ← vm_leaf tag (m !!! tag);
  Ok (<[family_id := default [] (acc !! family_id) ++ [leaf]]> acc).

Definition compute_family_subtrees (r : MultiVMStateRoot) : result (gmap Z bytes) :=
  leaves ← foldM (add_leaf (vm_roots r)) (∅ : gmap Z (list bytes)) (sorted_tags (vm_roots r));
  Ok (fmap (M := gmap Z) merkle_root leaves).

Definition active_families (r : MultiVMStateRoot) : list Z :=
  merge_sort Z.le (elements (list_to_set (map family_from_tag (elements (dom (vm_roots r)))) : gset Z)).

Definition family_subtree_root (r : MultiVMStateRoot) (family_id : Z) : result bytes :=
  subtrees ← compute_family_subtrees r;
  Ok (default (repeat 0 32) (subtrees !! family_id)).

Definition root (r : MultiVMStateRoot) : result bytes :=
  subtrees ← compute_family_subtrees r;
  let subtree_roots := map (fun f => subtrees !!! f) (sorted_tags subtrees) in
  rnd ← int_to_bytes 8 (batch_round r);
  Ok (chash (Domain.DOMAIN_MULTI_VM_STATE_ROOT ++ merkle_root subtree_roots ++ rnd)).
End StateRoot.

(** * registry.py *)
Section Registry.
Context {Obj : Type} `{ExecutionModel Obj}.

(** The executors in registration order, under the tag they had then. *)
Abbreviation VMRegistry := (list (Z * Obj)).

Fixpoint get (reg : VMRegistry) (tag : Z) : option Obj :=
  match reg with
  | [] => None
  | (t, o) :: reg => if t =? tag then Some o else get reg tag
  end.

Definition register (reg : VMRegistry) (o : Obj) : result VMRegistry :=
  match get reg (vm_tag o) with
  | Some _ => Err (ValueError "VM tag already registered")
  | None => Ok (reg ++ [(vm_tag o, o)])
  end.

(** The executor object under [tag] has changed state. *)
Fixpoint put_vm (reg : VMRegistry) (tag : Z) (o : Obj) : VMRegistry :=
  match reg with
  | [] => []
  | (t, o') :: reg => if t =? tag then (t, o) :: reg else (t, o') :: put_vm reg tag o
  end.

Definition active_tags (reg : VMRegistry) : list Z := merge_sort Z.le (map fst reg).

Definition health_check (reg : VMRegistry) : list (Z * bool) :=
  map (fun p => (p.1, is_ok (state_root p.2))) reg.

(** * router.py *)
Record TransactionRouter : Type := { vms : VMRegistry; gate : option WriterGate }.

Record BatchResult : Type := { br_round : Z; tx_results : list TxResult; br_state_root : option MultiVMStateRoot }.

(** What can leave [execute_batch]: [ExecutorUnavailable] with its cause, or an
    exception of a custom authorizer or of the policy engine. *)
Inductive batch_error : Type :=
| ExecutorUnavailable (name : pystr) (tag : Z) (cause : exn)
| Raised (e : exn).

(** Run the payload on the executor under [tag], with the router's
    [try]/[except]. *)
Definition run_vm (reg : VMRegistry) (tag : Z) (executor : Obj) (payload : bytes) : TxResult * VMRegistry :=
  let '(res, o) := execute executor payload in
  (match res with
   | Ok r => r
   | Err e => failed (lit "execution_error:" ++ str_exn e) 0
   end, put_vm reg tag o).

Definition execute_ungated (reg : VMRegistry) (tx_bytes : bytes) : TxResult * VMRegistry :=
  let tag := tx_bytes !!! 0%nat in
  let payload := drop 1 tx_bytes in
  match get reg tag with
  | None => (rejected (lit "unknown_vm_tag:0x" ++ hex02 tag), reg)
  | Some executor => run_vm reg tag executor payload
  end.

Definition opt_str (o : option pystr) : pystr := default (lit "None") o.

Definition execute_gated (reg : VMRegistry) (g : WriterGate) (tx_bytes : bytes) (epoch : Z)
  : result TxResult * VMRegistry * WriterGate :=
  let decision := pre_dispatch g tx_bytes in
  if negb (d_allowed decision)
  then (Ok (rejected (lit "writer_gate:" ++ opt_str (d_reason decision))), reg, g)
  else
    let tag := tx_bytes !!! WRITER_FP_SIZE in
    let payload := drop (WRITER_FP_SIZE + 1) tx_bytes in
    match get reg tag, d_record decision with
    | None, _ => (Ok (rejected (lit "unknown_vm_tag:0x" ++ hex02 tag)), reg, g)
    | Some _, None => (Err TypeError, reg, g)
    | Some executor, Some record =>
        let operation := infer_operation_type payload in
        match vm_authorize g record (Some (vm_tag executor)) (authorize_writer executor) operation payload with
        | Err e => (Err e, reg, g)
        | Ok vm_decision =>
            if negb (d_allowed vm_decision)
            then (Ok (rejected (lit "writer_gate:" ++ opt_str (d_reason vm_decision))), reg, g)
            else
              let '(result, reg) := run_vm reg tag executor payload in
              (Ok result, reg,
               if success result then record_dispatch g (take WRITER_FP_SIZE tx_bytes) tag epoch else g)
        end
    end.

(** The body of the loop of [execute_batch]. *)
Definition execute_tx (st : TransactionRouter) (epoch : Z) (tx_bytes : bytes) : result TxResult * TransactionRouter :=
  if (length tx_bytes =? 0)%nat then (Ok (rejected (lit "empty_transaction")), st)
  else
    match gate st with
    | Some g =>
        let '(res, reg, g) := execute_gated (vms st) g tx_bytes epoch in (res, {| vms := reg; gate := Some g |})
    | None =>
        let '(res, reg) := execute_ungated (vms st) tx_bytes in (Ok res, {| vms := reg; gate := None |})
    end.

Fixpoint run_txs (st : TransactionRouter) (epoch : Z) (txs : list bytes) : result (list TxResult) * TransactionRouter :=
  match txs with
  | [] => (Ok [], st)
  | tx :: txs =>
      match execute_tx st epoch tx with
      | (Err e, st) => (Err e, st)
      | (Ok r, st) =>
          match run_txs st epoch txs with
          | (Err e, st) => (Err e, st)
          | (Ok rs, st) => (Ok (r :: rs), st)
          end
      end
  end.

Fixpoint collect_roots (acc : gmap Z bytes) (reg : VMRegistry) : gmap Z bytes + batch_error :=
  match reg with
  | [] => inl acc
  | (_, o) :: reg =>
      match state_root o with
      | Ok r => collect_roots (<[vm_tag o := r]> acc) reg
      | Err e => inr (ExecutorUnavailable (vm_name o) (vm_tag o) e)
      end
  end.

(** An exception keeps the state the transactions have left. *)
Definition execute_batch (st : TransactionRouter) (batch : OrderedBatch) : (BatchResult + batch_error) * TransactionRouter :=
  match run_txs st (b_epoch batch) (transactions batch) with
  | (Err e, st) => (inr (Raised e), st)
  | (Ok results, st) =>
      match collect_roots ∅ (vms st) with
      | inr e => (inr e, st)
      | inl roots =>
          (inl {| br_round := b_round batch; tx_results := results;
                  br_state_root := Some {| vm_roots := roots; batch_round := b_round batch |} |}, st)
      end
  end.

(** * batch_executor.py *)
Record BatchExecutor : Type := { be_router : TransactionRouter; catastrophic : bool; last_error : option pystr }.

Definition be_execute (be : BatchExecutor) (batch : OrderedBatch) : BatchResult * BatchExecutor :=
  match execute_batch (be_router be) batch with
  | (inl r, st) => (r, {| be_router := st; catastrophic := false; last_error := None |})
  | (inr e, st) =>
      ({| br_round := b_round batch; tx_results := []; br_state_root := None |},
       {| be_router := st; catastrophic := true;
          last_error := Some (str_exn match e with ExecutorUnavailable _ _ c => c | Raised e => e end) |})
  end.

(** * precompile.py: [CrossVMPrecompile.call] *)
Record PrecompileResult : Type := { pc_success : bool; pc_data : bytes; pc_error : pystr; pc_gas : Z }.
Definition pc_ok (d : bytes) (g : Z) : PrecompileResult := {| pc_success := true; pc_data := d; pc_error := []; pc_gas := g |}.
Definition pc_fail (e : pystr) : PrecompileResult := {| pc_success := false; pc_data := []; pc_error := e; pc_gas := 0 |}.
Definition BASE_GAS : Z := 700.
Definition PER_BYTE_GAS : Z := 3.

Definition precompile_call (reg : VMRegistry) (input_data : bytes) (caller_vm_tag : Z) : PrecompileResult :=
  if (length input_data <? 33)%nat then pc_fail (lit "input too short: need [1-byte tag][32-byte key]")
  else
    let target_tag := input_data !!! 0%nat in
    let k := take 32 (drop 1 input_data) in
    if target_tag =? caller_vm_tag then pc_fail (lit "use native state access, not cross-VM")
    else
      match get reg target_tag with
      | None => pc_fail (lit "vm 0x" ++ hex02 target_tag ++ lit " not registered")
      | Some target =>
          match query_state target {| target_vm := target_tag; query_type := lit "storage"; key := k |} with
          | Err e => pc_fail (lit "query failed: " ++ str_exn e)
          | Ok res =>
              if negb (found res) then pc_ok [] BASE_GAS
              else pc_ok (data res) (BASE_GAS + PER_BYTE_GAS * Z.of_nat (length (data res)))
          end
      end.
End Registry.
Arguments TransactionRouter : clear implicits.
Arguments BatchExecutor : clear implicits.

(** * Dispatch *)
Section Dispatch.
Context {Obj : Type} `{ExecutionModel Obj}.
Implicit Types reg : list (Z * Obj).

Definition tx_fp (tx : bytes) : bytes := take WRITER_FP_SIZE tx.
Definition tx_tag (tx : bytes) : Z := tx !!! WRITER_FP_SIZE.
Definition tx_payload (tx : bytes) : bytes := drop (WRITER_FP_SIZE + 1) tx.

(** What the gate promises to have established before an executor runs: the
    transaction [tx] comes from the registered, transactable writer [r], no
    emergency measure stands in its way, and the VM [o] it names admits it. *)
Record authorized (reg : list (Z * Obj)) (g : WriterGate) (tx : bytes) (r : WriterRecord) (o : Obj) : Prop := {
  au_length : (WRITER_FP_SIZE < length tx)%nat;
  au_unfrozen : registry_frozen (g_emergency g) = false;
  au_writer : Writer.lookup (g_registry g) (tx_fp tx) = Some r;
  au_state : can_transact r = true;
  au_emergency : get_dispatch_override (g_emergency g) (tx_fp tx) = Some true \/
    (get_dispatch_override (g_emergency g) (tx_fp tx) = None /\ is_vm_frozen (g_emergency g) (tx_tag tx) = false);
  au_vm : get reg (tx_tag tx) = Some o;
  au_policy : exists d, d_allowed d = true /\
    vm_authorize g r (Some (vm_tag o)) (authorize_writer o) (infer_operation_type (tx_payload tx)) (tx_payload tx) = Ok d
}.

Lemma pre_dispatch_spec g tx :
  d_allowed (pre_dispatch g tx) = true <->
  exists r, pre_dispatch g tx = passed r /\ (WRITER_FP_SIZE < length tx)%nat /\
    registry_frozen (g_emergency g) = false /\ Writer.lookup (g_registry g) (tx_fp tx) = Some r /\ can_transact r = true /\
    (get_dispatch_override (g_emergency g) (tx_fp tx) = Some true \/
     (get_dispatch_override (g_emergency g) (tx_fp tx) = None /\ is_vm_frozen (g_emergency g) (tx_tag tx) = false)).
Proof.
  split; [|by intros (r&->&_)]. unfold pre_dispatch. cbv zeta. fold (tx_fp tx) (tx_tag tx).
  destruct (_ <? _)%nat eqn:Hl; [done|]. breflect.
  destruct (registry_frozen _); [done|]. destruct (Writer.lookup _ _) as [r|]; [|done].
  destruct (TRANSACTABLE_STATES (state r)) eqn:Hs; [|done]. cbn [negb].
  destruct (get_dispatch_override _ _) as [[]|]; [|done|destruct (is_vm_frozen _ _); [done|]];
    intros _; exists r; (split; [done|]); (split; [unfold WRITER_FP_SIZE in *; lia|]);
    (split; [done|]); (split; [done|]); (split; [exact Hs|]); auto.
Qed.

Lemma pre_dispatch_complete g tx r :
  (WRITER_FP_SIZE < length tx)%nat -> registry_frozen (g_emergency g) = false ->
  Writer.lookup (g_registry g) (tx_fp tx) = Some r -> can_transact r = true ->
  (get_dispatch_override (g_emergency g) (tx_fp tx) = Some true \/
   (get_dispatch_override (g_emergency g) (tx_fp tx) = None /\ is_vm_frozen (g_emergency g) (tx_tag tx) = false)) ->
  pre_dispatch g tx = passed r.
Proof.
  intros Hl Hf Ew Hs Hd. unfold pre_dispatch. cbv zeta. fold (tx_fp tx) (tx_tag tx).
  rewrite (proj2 (Nat.ltb_ge _ _)) by (unfold WRITER_FP_SIZE in *; lia). rewrite Hf, Ew.
  unfold can_transact in Hs. rewrite Hs. simpl.
  destruct Hd as [->|[-> ->]]; done.
Qed.

Lemma gated_spec reg g tx epoch :
  let '(res, reg', g') := execute_gated reg g tx epoch in
  (exists r o, authorized reg g tx r o /\
     let '(x, reg1) := run_vm reg (tx_tag tx) o (tx_payload tx) in
     res = Ok x /\ reg' = reg1 /\
     g' = if success x then record_dispatch g (tx_fp tx) (tx_tag tx) epoch else g) \/
  ((forall r o, ~ authorized reg g tx r o) /\ reg' = reg /\ g' = g /\
     forall x, res = Ok x -> success x = false).
Proof.
  unfold execute_gated. cbv zeta. fold (tx_fp tx) (tx_tag tx) (tx_payload tx).
  destruct (d_allowed (pre_dispatch g tx)) eqn:Hp; cbn [negb].
  2: { right. split_and!; try done; [|by intros ? [= <-]].
    intros r o [H1 H2 H3 H4 H5 _ _]. rewrite (pre_dispatch_complete g tx r) in Hp by done. done. }
  apply pre_dispatch_spec in Hp as (r&->&Hl&Hf&Hw&Hs&Hd). simpl.
  destruct (get reg (tx_tag tx)) as [o|] eqn:Ho.
  2: { right. split_and!; try done; [|by intros ? [= <-]]. intros r' o' [_ _ _ _ _ Hv _]. congruence. }
  destruct (vm_authorize _ _ _ _ _ _) as [d|] eqn:Ev.
  2: { right. split_and!; try done. intros r' o' [_ _ Hw' _ _ Ho' (d&_&Ev')]. simplify_eq. congruence. }
  destruct (d_allowed d) eqn:Ha; simpl.
  - destruct (run_vm reg (tx_tag tx) o (tx_payload tx)) as [x reg1] eqn:Er.
    left. exists r, o. split; [split; try done; by exists d|]. by rewrite Er.
  - right. split_and!; try done; [|by intros ? [= <-]].
    intros r' o' [_ _ Hw' _ _ Ho' (d'&Ha'&Ev')]. simplify_eq. congruence.
Qed.

(** C22: The gate decides exactly: a transaction reaches an executor if and
    only if it is [authorized]; then exactly the executor it names runs
    exactly its payload, and the writer's counter moves exactly when it
    succeeds.  Otherwise the transaction does not succeed and neither any VM
    nor the gate changes. *)
Theorem dispatch_exact reg g tx epoch :
  let '(res, reg', g') := execute_gated reg g tx epoch in
  (exists r o, authorized reg g tx r o /\
     let '(x, reg1) := run_vm reg (tx_tag tx) o (tx_payload tx) in
     res = Ok x /\ reg' = reg1 /\
     g' = if success x then record_dispatch g (tx_fp tx) (tx_tag tx) epoch else g) \/
  ((forall r o, ~ authorized reg g tx r o) /\ reg' = reg /\ g' = g /\
     forall x, res = Ok x -> success x = false).
Proof. exact (gated_spec reg g tx epoch). Qed.

(** ** Isolation of the virtual machines *)
Lemma get_put_vm reg tag o t :
  get (put_vm reg tag o) t = if t =? tag then (fun _ => o) <$> get reg t else get reg t.
Proof.
  induction reg as [|[t' o'] reg IH]; simpl; [by destruct (t =? tag)|].
  destruct (Z.eqb_spec t' tag) as [->|Hne]; simpl.
  - destruct (Z.eqb_spec tag t) as [->|]; [by rewrite Z.eqb_refl|].
    by rewrite (proj2 (Z.eqb_neq t tag)) by congruence.
  - rewrite IH. destruct (Z.eqb_spec t' t) as [->|]; [|done]. by rewrite (proj2 (Z.eqb_neq _ _) Hne).
Qed.

(** The payload a transaction carries for VM [t] under this router. *)
Definition addressed (gated : bool) (t : Z) (tx : bytes) : list bytes :=
  if gated
  then if (WRITER_FP_SIZE <? length tx)%nat && (tx_tag tx =? t) then [tx_payload tx] else []
  else if (0 <? length tx)%nat && (tx !!! 0%nat =? t) then [drop 1 tx] else [].

Definition run_all (o : Obj) (payloads : list bytes) : Obj := fold_left (fun o p => (execute o p).2) payloads o.

Lemma run_none (x : option Obj) : x = (fun o => run_all o []) <$> x.
Proof. by destruct x. Qed.

Lemma run_vm_get reg tag o p t :
  get reg tag = Some o -> get (run_vm reg tag o p).2 t = if t =? tag then Some (run_all o [p]) else get reg t.
Proof.
  intros E. unfold run_vm. destruct (execute o p) as [res o'] eqn:Ee. simpl. rewrite get_put_vm, Ee. simpl.
  destruct (Z.eqb_spec t tag) as [->|]; [|done]. by rewrite E.
Qed.

Definition is_gated (st : TransactionRouter Obj) : bool := match gate st with Some _ => true | None => false end.

Lemma execute_tx_vm st epoch tx t res st' :
  execute_tx st epoch tx = (res, st') ->
  is_gated st' = is_gated st /\ exists ps,
    ps `sublist_of` addressed (is_gated st) t tx /\
    (is_gated st = false -> ps = addressed false t tx) /\
    get (vms st') t = (fun o => run_all o ps) <$> get (vms st) t.
Proof.
  unfold execute_tx. destruct (length tx =? 0)%nat eqn:Hl; breflect.
  { intros [= <- <-]. split; [done|]. exists []. split; [apply sublist_nil_l|].
    split; [|apply run_none]. intros _. unfold addressed. by rewrite Hl. }
  unfold is_gated. destruct (gate st) as [g|] eqn:Hg.
  - destruct (execute_gated (vms st) g tx epoch) as [[r reg'] g'] eqn:Ee.
    pose proof (gated_spec (vms st) g tx epoch) as Hs. rewrite Ee in Hs. intros [= <- <-].
    split; [done|]. simpl.
    destruct Hs as [(w&o&Ha&Hr)|(_&->&_)].
    2: { exists []. split_and!; [apply sublist_nil_l|done|apply run_none]. }
    destruct (run_vm _ _ _ _) as [x reg1] eqn:Er. destruct Hr as (_&->&_).
    pose proof (run_vm_get (vms st) (tx_tag tx) o (tx_payload tx) t (au_vm _ _ _ _ _ Ha)) as Hget.
    rewrite Er in Hget. simpl in Hget. rewrite Hget. unfold addressed.
    rewrite (proj2 (Nat.ltb_lt _ _) (au_length _ _ _ _ _ Ha)). simpl. rewrite (Z.eqb_sym (tx_tag tx)).
    destruct (Z.eqb_spec t (tx_tag tx)) as [->|].
    + exists [tx_payload tx]. split_and!; [done|done|]. by rewrite (au_vm _ _ _ _ _ Ha).
    + exists []. split_and!; [apply sublist_nil_l|done|apply run_none].
  - destruct (execute_ungated (vms st) tx) as [r reg'] eqn:Ee. intros [= <- <-]. split; [done|]. simpl.
    exists (addressed false t tx). split_and!; [done|done|].
    unfold execute_ungated in Ee. unfold addressed. rewrite (proj2 (Nat.ltb_lt 0 (length tx))) by lia. simpl.
    destruct (get (vms st) (tx !!! 0%nat)) as [o|] eqn:Eo.
    + pose proof (run_vm_get (vms st) _ o (drop 1 tx) t Eo) as Hget. rewrite Ee in Hget. simpl in Hget.
      rewrite Hget, (Z.eqb_sym (tx !!! 0%nat)). destruct (Z.eqb_spec t (tx !!! 0%nat)) as [->|]; [by rewrite Eo|apply run_none].
    + injection Ee as <- <-. destruct (Z.eqb_spec (tx !!! 0%nat) t) as [<-|]; [by rewrite Eo|apply run_none].
Qed.

Lemma run_all_app o ps qs : run_all o (ps ++ qs) = run_all (run_all o ps) qs.
Proof. apply fold_left_app. Qed.

Lemma run_txs_vm st epoch txs t res st' :
  run_txs st epoch txs = (res, st') ->
  is_gated st' = is_gated st /\ exists ps,
    ps `sublist_of` concat (map (addressed (is_gated st) t) txs) /\
    (is_gated st = false -> ps = concat (map (addressed false t) txs) \/ is_ok res = false) /\
    get (vms st') t = (fun o => run_all o ps) <$> get (vms st) t /\
    (forall rs, res = Ok rs -> length rs = length txs).
Proof.
  revert st res st'; induction txs as [|tx txs IH]; simpl; intros st res st'.
  { intros [= <- <-]. split; [done|]. exists []. split_and!; [done|auto|apply run_none|by intros ? [= <-]]. }
  destruct (execute_tx st epoch tx) as [r1 st1] eqn:E1.
  destruct (execute_tx_vm _ _ _ t _ _ E1) as (Hg1&ps1&Hsub1&Hall1&Hget1).
  destruct r1 as [r1|e].
  2: { intros [= <- <-]. split; [done|]. exists ps1. split_and!; [|auto|done|done]. by apply sublist_inserts_r. }
  destruct (run_txs st1 epoch txs) as [r2 st2] eqn:E2.
  destruct (IH _ _ _ E2) as (Hg2&ps2&Hsub2&Hall2&Hget2&Hlen2). rewrite Hg1 in *.
  assert (get (vms st2) t = (fun o => run_all o (ps1 ++ ps2)) <$> get (vms st) t) as Hget.
  { rewrite Hget2, Hget1. destruct (get (vms st) t); simpl; [|done]. by rewrite run_all_app. }
  assert (ps1 ++ ps2 `sublist_of` addressed (is_gated st) t tx ++ concat (map (addressed (is_gated st) t) txs)) by by apply sublist_app.
  destruct r2 as [rs|e]; intros [= <- <-]; (split; [by rewrite Hg2|]); exists (ps1 ++ ps2); split_and!; try done.
  - intros Hf. left. rewrite (Hall1 Hf). destruct (Hall2 Hf) as [->|]; done.
  - intros ? [= <-]. simpl. by rewrite (Hlen2 rs).
  - by right.
Qed.

(** C25: Virtual machines are isolated and order is preserved: after a batch,
    whether it completed or raised, the state of every VM is the one reached
    by running, in batch order, a subsequence of the payloads addressed to
    that VM and nothing else; without a gate it is all of them.  A completed
    batch has one result per transaction, and its state root lists exactly the
    roots of the registered VMs in their final states. *)
Theorem batch_isolation (st : TransactionRouter Obj) batch t res st' :
  execute_batch st batch = (res, st') ->
  (exists ps, ps `sublist_of` concat (map (addressed (is_gated st) t) (transactions batch)) /\
     get (vms st') t = (fun o => run_all o ps) <$> get (vms st) t /\
     (is_gated st = false -> is_ok (run_txs st (b_epoch batch) (transactions batch)).1 = true ->
        ps = concat (map (addressed false t) (transactions batch)))) /\
  forall br, res = inl br -> br_round br = b_round batch /\ length (tx_results br) = length (transactions batch) /\
    exists roots, collect_roots ∅ (vms st') = inl roots /\
      br_state_root br = Some {| vm_roots := roots; batch_round := b_round batch |}.
Proof.
  unfold execute_batch. destruct (run_txs st (b_epoch batch) (transactions batch)) as [r1 st1] eqn:E1.
  destruct (run_txs_vm _ _ _ t _ _ E1) as (_&ps&Hsub&Hall&Hget&Hlen). intros E.
  assert (st1 = st') as -> by (destruct r1; [destruct (collect_roots _ _)|]; congruence).
  split.
  - exists ps. split_and!; try done. simpl. intros Hf Hok. destruct (Hall Hf) as [->|]; [done|congruence].
  - destruct r1 as [rs|]; [|by simplify_eq]. destruct (collect_roots ∅ (vms st')) as [roots|] eqn:Er; [|by simplify_eq].
    injection E as <-. intros br [= <-]. simpl. split_and!; [done|by apply Hlen|]. by exists roots.
Qed.

(** ** Rate limits *)
Definition registry_ok (reg : list (Z * Obj)) : Prop := Forall (fun p => vm_tag p.2 = p.1) reg.

Lemma registry_ok_get reg t o : registry_ok reg -> get reg t = Some o -> vm_tag o = t.
Proof.
  induction 1 as [|[t' o'] reg Hp _ IH]; simpl in *; [done|]. destruct (Z.eqb_spec t' t); [naive_solver|done].
Qed.

Lemma put_vm_ok reg t o : registry_ok reg -> vm_tag o = t -> registry_ok (put_vm reg t o).
Proof.
  intros Hr Ho. induction Hr as [|[t' o'] reg Hp Hr IH]; simpl in *; [constructor|].
  destruct (Z.eqb_spec t' t) as [->|]; constructor; done.
Qed.

Lemma run_vm_ok reg t o p : registry_ok reg -> get reg t = Some o -> registry_ok (run_vm reg t o p).2.
Proof.
  intros Hr Ho. unfold run_vm. pose proof (execute_tag o p) as Ht. destruct (execute o p) as [res o']. simpl in *.
  apply put_vm_ok; [done|]. rewrite Ht. by eapply registry_ok_get.
Qed.

(** Transactions keep the registry's keys, and the tags of the executors. *)
Lemma put_vm_keys reg t (o : Obj) : map fst (put_vm reg t o) = map fst reg.
Proof. induction reg as [|[t' o'] reg IH]; [done|]. cbn. by destruct (t' =? t); cbn; rewrite ?IH. Qed.

Lemma run_vm_keys reg t (o : Obj) p : map fst (run_vm reg t o p).2 = map fst reg.
Proof. unfold run_vm. destruct (execute o p). apply put_vm_keys. Qed.

Definition same_keys (reg reg' : list (Z * Obj)) : Prop := (registry_ok reg -> registry_ok reg') /\ map fst reg' = map fst reg.

Lemma run_vm_same reg t (o : Obj) p : get reg t = Some o -> same_keys reg (run_vm reg t o p).2.
Proof. intros Ho. split; [intros Hr; by apply run_vm_ok|apply run_vm_keys]. Qed.

Lemma execute_tx_same (st : TransactionRouter Obj) epoch tx : same_keys (vms st) (vms (execute_tx st epoch tx).2).
Proof.
  unfold execute_tx. destruct (length tx =? 0)%nat; [done|]. destruct (gate st) as [g|].
  - unfold execute_gated. destruct (negb (d_allowed (pre_dispatch g tx))); [done|].
    destruct (get (vms st) _) as [o|] eqn:Eg; [|done]. destruct (d_record _); [|done].
    destruct (vm_authorize _ _ _ _ _ _); [|done]. destruct (negb _); [done|].
    pose proof (run_vm_same (vms st) _ o (drop (WRITER_FP_SIZE + 1) tx) Eg) as Hs. by destruct (run_vm _ _ _ _).
  - unfold execute_ungated. destruct (get (vms st) _) as [o|] eqn:Eg; [|done].
    pose proof (run_vm_same (vms st) _ o (drop 1 tx) Eg) as Hs. by destruct (run_vm _ _ _ _).
Qed.

Lemma run_txs_same (st : TransactionRouter Obj) epoch txs : same_keys (vms st) (vms (run_txs st epoch txs).2).
Proof.
  revert st. induction txs as [|tx txs IH]; intros st; cbn [run_txs]; [done|].
  pose proof (execute_tx_same st epoch tx) as H1. destruct (execute_tx st epoch tx) as [[r|e] st1]; [|done]. cbn in H1.
  specialize (IH st1). destruct (run_txs st1 epoch txs) as [[rs|e] st2]; cbn in *; destruct H1, IH; split; auto; congruence.
Qed.

(** The roots of a batch are those of the registered executors. *)
Lemma collect_roots_spec reg acc roots : registry_ok reg -> NoDup (map fst reg) -> collect_roots acc reg = inl roots ->
  forall t v, roots !! t = Some v <->
    (exists o, (t, o) ∈ reg /\ state_root o = Ok v) \/ (acc !! t = Some v /\ t ∉ map fst reg).
Proof.
  intros Hok. revert acc. induction Hok as [|[t' o'] reg Ht Hok IH]; intros acc Hnd; cbn [collect_roots map fst].
  - intros [= <-] t v. split; [intros Hv; right; split; [done|apply not_elem_of_nil]|].
    by intros [(o & []%not_elem_of_nil & _)|[? _]].
  - cbn in Ht, Hnd. apply NoDup_cons in Hnd as [Hnin Hnd]. destruct (state_root o') as [r|] eqn:Er; [|done]. rewrite Ht.
    intros Hc t v. rewrite (IH _ Hnd Hc). setoid_rewrite elem_of_cons. destruct (decide (t' = t)) as [<-|Hne].
    + rewrite lookup_insert_eq. split.
      * intros [(o & Ho & Hv)|[[= ->] _]]; [left; eauto|]. left. exists o'. eauto.
      * intros [(o & [[= ->]|Ho] & Hv)|[_ Hn]]; [right; split; [congruence|done]|left; eauto|]. destruct Hn. by left.
    + rewrite lookup_insert_ne by done. split.
      * intros [(o & Ho & Hv)|[Hv Hn]]; [left; eauto|]. right. split; [done|]. intros [->|]; [by destruct Hne|done].
      * intros [(o & [[= -> ->]|Ho] & Hv)|[Hv Hn]]; [by destruct Hne|left; eauto|]. right. split; [done|]. intros Hin. apply Hn. by right.
Qed.

(** The counter that epoch [e] sees. *)
Definition seen (g : WriterGate) (fp : bytes) (t e : Z) : Z :=
  if current_epoch (g_epoch g) =? e then get_tx_count (g_epoch g) fp t else 0.

Definition counted (fp : bytes) (t : Z) (tx : bytes) (r : TxResult) : Z :=
  if bool_decide (tx_fp tx = fp) && (tx_tag tx =? t) && success r then 1 else 0.
Definition successes (fp : bytes) (t : Z) (txs : list bytes) (rs : list TxResult) : Z :=
  foldr Z.add 0 (zip_with (counted fp t) txs rs).

Definition all_nonneg (g : WriterGate) : Prop := forall k n, counts (g_epoch g) !! k = Some n -> 0 <= n.

Lemma get_tx_count_nonneg g fp t : all_nonneg g -> 0 <= get_tx_count (g_epoch g) fp t.
Proof.
  intros Hn. unfold get_tx_count. destruct (counts (g_epoch g) !! (fp, t)) eqn:E; simpl; [|lia]. by eapply Hn.
Qed.

Lemma dispatch_counter g fp t fp' t' e :
  current_epoch (g_epoch g) <= e -> all_nonneg g ->
  let g' := record_dispatch g fp' t' e in
  current_epoch (g_epoch g') = e /\ all_nonneg g' /\
  seen g' fp t e = seen g fp t e + (if bool_decide (fp' = fp) && (t' =? t) then 1 else 0).
Proof.
  intros Hle Hn. unfold record_dispatch, with_epoch, increment, advance_epoch, seen, all_nonneg. simpl.
  assert (0 <= get_tx_count (g_epoch g) fp' t') by by apply get_tx_count_nonneg.
  destruct (Z.eqb_spec e (current_epoch (g_epoch g))) as [->|Hne]; simpl.
  - rewrite Z.eqb_refl. split_and!; [done| |].
    + intros k n [[_ <-]|[_ ?]]%lookup_insert_Some; [lia|eauto].
    + unfold get_tx_count. simpl. case_bool_decide as E1; simpl.
      * destruct (Z.eqb_spec t' t) as [->|]; subst; [by rewrite lookup_insert_eq|].
        rewrite lookup_insert_ne by congruence. lia.
      * rewrite lookup_insert_ne by congruence. lia.
  - rewrite (proj2 (Z.leb_gt _ _)) by lia. simpl. rewrite Z.eqb_refl, (proj2 (Z.eqb_neq (current_epoch (g_epoch g)) e)) by lia.
    split_and!; [done| |].
    + intros k n [[_ <-]|[_ Hk]]%lookup_insert_Some; [unfold get_tx_count; simpl; rewrite lookup_empty; simpl; lia|].
      by rewrite lookup_empty in Hk.
    + unfold get_tx_count. simpl. rewrite lookup_empty. simpl. case_bool_decide as E1; simpl.
      * destruct (Z.eqb_spec t' t) as [->|]; subst; [by rewrite lookup_insert_eq|].
        rewrite lookup_insert_ne by congruence. by rewrite lookup_empty.
      * rewrite lookup_insert_ne by congruence. by rewrite lookup_empty.
Qed.

(** Writer [fp] is registered and VM [t] is governed by a policy (not by a
    custom authorizer) that limits it to [L] transactions per epoch. *)
Definition rate_limited (g : WriterGate) (fp : bytes) (t L : Z) : Prop :=
  0 < L /\ rate_limit_divisor (probation_modifiers (g_engine g)) <> 0 /\ exists r policy,
    Writer.lookup (g_registry g) fp = Some r /\ fingerprint (identity r) = fp /\
    policy_for g (Some t) = Ok policy /\ effective_limit (g_engine g) r policy = L /\
    (is_authorizer_bypassed (g_emergency g) t = true \/ forall o : Obj, vm_tag o = t -> authorize_writer o = None).

Lemma authorized_below reg g tx r o fp t L :
  registry_ok reg -> rate_limited g fp t L -> authorized reg g tx r o -> tx_fp tx = fp -> tx_tag tx = t ->
  get_tx_count (g_epoch g) fp t < L.
Proof.
  intros Hr (Hp&Hdiv&r'&policy&Hl&Hfp&Epol&HL&Hauth) Ha Ef Et.
  destruct Ha as [_ _ Hw _ _ Ho (d&Hd&Ev)]. rewrite Ef in Hw. rewrite Et in Ho.
  assert (r = r') as <- by congruence.
  pose proof (registry_ok_get _ _ _ Hr Ho) as Ht. unfold vm_authorize in Ev. cbv zeta in Ev. rewrite Ht in Ev.
  replace (if is_authorizer_bypassed (g_emergency g) t then None else authorize_writer o)
    with (@None (WriterRecord -> OperationType -> bytes -> result PolicyResult)) in Ev
    by (destruct Hauth as [->|Hn]; [done|rewrite (Hn o Ht); by destruct (is_authorizer_bypassed _ _)]).
  rewrite Epol in Ev. unfold mbind, result_bind in Ev.
  match type of Ev with context [evaluate ?c ?w ?op ?p ?n ?k ?s] =>
    destruct (evaluate_spec c w op p n k s Hdiv) as (res&Ee&Hiff&_) end.
  rewrite Ee in Ev. injection Ev as <-. apply Hiff in Hd. pose proof (pa_rate _ _ _ _ _ _ _ Hd) as Hrate.
  rewrite HL in Hrate. specialize (Hrate Hp). simpl in Hrate. rewrite Hfp in Hrate. exact Hrate.
Qed.

(** The state the router keeps while writer [fp] is limited to [L] on [t]. *)
Record limited_state (st : TransactionRouter Obj) (g : WriterGate) (fp : bytes) (t L : Z) : Prop := {
  ls_gate : gate st = Some g;
  ls_vms : registry_ok (vms st);
  ls_nonneg : all_nonneg g;
  ls_limit : rate_limited g fp t L
}.

Lemma execute_tx_count st g epoch tx x st' fp t L :
  limited_state st g fp t L -> current_epoch (g_epoch g) <= epoch -> execute_tx st epoch tx = (Ok x, st') ->
  exists g', limited_state st' g' fp t L /\
    (current_epoch (g_epoch g') = current_epoch (g_epoch g) \/ current_epoch (g_epoch g') = epoch) /\
    seen g' fp t epoch = seen g fp t epoch + counted fp t tx x /\
    (0 < counted fp t tx x -> seen g' fp t epoch <= L).
Proof.
  intros [Hg Hv Hn Hlim] Hle. unfold execute_tx. rewrite Hg.
  assert (forall y, success y = false -> y = x -> (Ok y, st) = (Ok x, st') -> exists g', limited_state st' g' fp t L /\
    (current_epoch (g_epoch g') = current_epoch (g_epoch g) \/ current_epoch (g_epoch g') = epoch) /\
    seen g' fp t epoch = seen g fp t epoch + counted fp t tx x /\
    (0 < counted fp t tx x -> seen g' fp t epoch <= L)) as Hskip.
  { intros y Hs -> [= <-]. exists g. split; [by split|]. split; [by left|]. unfold counted. rewrite Hs, andb_false_r. lia. }
  destruct (length tx =? 0)%nat; [intros E; by eapply (Hskip (rejected (lit "empty_transaction"))); simplify_eq|].
  destruct (execute_gated (vms st) g tx epoch) as [[res reg'] g'] eqn:Ee.
  pose proof (gated_spec (vms st) g tx epoch) as Hs. rewrite Ee in Hs. intros [= -> <-].
  destruct Hs as [(r&o&Ha&Hr)|(_&->&->&Hf)].
  2: { apply (Hskip x); [by apply Hf|done|]. f_equal. destruct st; simpl in *; congruence. }
  pose proof (run_vm_ok (vms st) (tx_tag tx) o (tx_payload tx) Hv (au_vm _ _ _ _ _ Ha)) as Hok.
  destruct (run_vm _ _ _ _) as [y reg1] eqn:Er. destruct Hr as ([= <-]&->&->). simpl in Hok.
  unfold counted. destruct (success x) eqn:Hsx; cycle 1.
  { exists g. split; [by split|]. split; [by left|]. rewrite andb_false_r. lia. }
  destruct (dispatch_counter g fp t (tx_fp tx) (tx_tag tx) epoch Hle Hn) as (Hc&Hn'&Hsn).
  exists (record_dispatch g (tx_fp tx) (tx_tag tx) epoch). split; [by split|]. split; [by right|].
  rewrite Hsn, andb_true_r. split; [done|].
  destruct (bool_decide (tx_fp tx = fp) && (tx_tag tx =? t)) eqn:Hmine; [intros _|lia]. breflect.
  pose proof (authorized_below _ _ _ _ _ _ _ _ Hv Hlim Ha ltac:(done) ltac:(done)).
  pose proof (get_tx_count_nonneg g fp t Hn).
  unfold seen. destruct (_ =? _); [lia|]. destruct Hlim. lia.
Qed.

Lemma run_txs_count st g epoch txs rs st' fp t L :
  limited_state st g fp t L -> current_epoch (g_epoch g) <= epoch -> run_txs st epoch txs = (Ok rs, st') ->
  exists g', limited_state st' g' fp t L /\
    (current_epoch (g_epoch g') = current_epoch (g_epoch g) \/ current_epoch (g_epoch g') = epoch) /\
    seen g' fp t epoch = seen g fp t epoch + successes fp t txs rs /\
    0 <= successes fp t txs rs /\ (0 < successes fp t txs rs -> seen g' fp t epoch <= L).
Proof.
  revert st g rs st'. induction txs as [|tx txs IH]; simpl; intros st g rs st' Hls Hle.
  { intros [= <- <-]. exists g. split; [done|]. split; [by left|]. unfold successes. simpl. lia. }
  destruct (execute_tx st epoch tx) as [[x|e] st1] eqn:E1; [|done].
  destruct (execute_tx_count _ _ _ _ _ _ _ _ _ Hls Hle E1) as (g1&Hls1&Hc1&Hs1&Hb1).
  destruct (run_txs st1 epoch txs) as [[rs'|e] st2] eqn:E2; [|done]. intros [= <- <-].
  destruct (IH st1 g1 rs' st2 Hls1 ltac:(lia) E2) as (g2&Hls2&Hc2&Hs2&Hnn&Hb2).
  exists g2. split; [done|]. split; [lia|].
  assert (0 <= counted fp t tx x) by (unfold counted; destruct (_ && _); lia).
  unfold successes in *. simpl. split_and!; [lia|lia|]. intros Hpos.
  destruct (Z.eq_dec (foldr Z.add 0 (zip_with (counted fp t) txs rs')) 0); lia.
Qed.

(** Executing a run of batches, until one raises. *)
Fixpoint run_batches (st : TransactionRouter Obj) (bs : list OrderedBatch)
  : list (OrderedBatch * BatchResult) * TransactionRouter Obj :=
  match bs with
  | [] => ([], st)
  | b :: bs =>
      match execute_batch st b with
      | (inl r, st) => let '(done, st) := run_batches st bs in ((b, r) :: done, st)
      | (inr _, st) => ([], st)
      end
  end.

(** The successful transactions of [fp] on VM [t] in the batches of epoch [e]. *)
Definition epoch_successes (fp : bytes) (t e : Z) (done : list (OrderedBatch * BatchResult)) : Z :=
  foldr Z.add 0 (map (fun p => if b_epoch p.1 =? e then successes fp t (transactions p.1) (tx_results p.2) else 0) done).

(** Every batch of the run leaves the limit in force and the counter no
    earlier than its epoch. *)
Lemma run_batches_limit bs st g fp t L e :
  limited_state st g fp t L ->
  Forall (fun b => current_epoch (g_epoch g) <= b_epoch b) bs -> StronglySorted (fun a b => b_epoch a <= b_epoch b) bs ->
  current_epoch (g_epoch g) <= e ->
  seen g fp t e + epoch_successes fp t e (run_batches st bs).1 <= Z.max L (seen g fp t e).
Proof.
  revert st g. induction bs as [|b bs IH]; intros st g Hls Hge Hsort He; [simpl; unfold epoch_successes; simpl; lia|].
  inversion Hge as [|? ? Hb Hge']; subst. apply StronglySorted_inv in Hsort as [Hsort Hlater].
  simpl. unfold execute_batch.
  destruct (run_txs st (b_epoch b) (transactions b)) as [[rs|ex] st1] eqn:E1; [|unfold epoch_successes; simpl; lia].
  destruct (run_txs_count _ _ _ _ _ _ _ _ _ Hls Hb E1) as (g1&Hls1&Hc1&Hs1&Hnn&Hlim).
  destruct (collect_roots ∅ (vms st1)); [|unfold epoch_successes; simpl; lia].
  assert (0 < L) by apply (ls_limit _ _ _ _ _ Hls).
  destruct (Z_lt_le_dec e (b_epoch b)) as [Hpast|Hnow].
  - (* a past epoch: neither this batch nor a later one belongs to it *)
    enough (epoch_successes fp t e (run_batches st1 bs).1 = 0) as Hz.
    { destruct (run_batches st1 bs) as [dn st2]. unfold epoch_successes in *. simpl in *.
      rewrite (proj2 (Z.eqb_neq (b_epoch b) e)) by lia. lia. }
    assert (Forall (fun b => e < b_epoch b) bs) as Hfut by (eapply Forall_impl; [exact Hlater|]; simpl; lia).
    clear - Hfut. revert st1. induction Hfut as [|b bs Hb _ IH]; intros st; [done|]. simpl.
    destruct (execute_batch st b) as [[r|] st1]; [|done]. specialize (IH st1).
    destruct (run_batches st1 bs) as [dn st2]. unfold epoch_successes in *. simpl in *.
    rewrite (proj2 (Z.eqb_neq (b_epoch b) e)) by lia. lia.
  - specialize (IH st1 g1 Hls1).
    assert (Forall (fun b => current_epoch (g_epoch g1) <= b_epoch b) bs) as Hge1.
    { rewrite Forall_forall in *. intros b' Hin. specialize (Hge' b' Hin). specialize (Hlater b' Hin). simpl in *. lia. }
    specialize (IH Hge1 Hsort ltac:(lia)).
    destruct (run_batches st1 bs) as [dn st2]. unfold epoch_successes in *. simpl in *.
    destruct (Z.eqb_spec (b_epoch b) e) as [Heq|Hne]; [rewrite Heq in *; lia|].
    replace (seen g1 fp t e) with (seen g fp t e) in IH; [lia|].
    unfold seen. by rewrite !(proj2 (Z.eqb_neq _ e)) by lia.
Qed.

(** The rate limit holds: over any run of batches in epoch order, the
    number of transactions of a writer that succeed on a VM within one epoch
    never exceeds the writer's effective limit there.  The gate may start with
    anything in its counters as long as the epoch at hand has not begun. *)
Theorem rate_limit_enforced bs (st : TransactionRouter Obj) g fp t L e :
  limited_state st g fp t L ->
  StronglySorted (fun a b => b_epoch a <= b_epoch b) bs ->
  Forall (fun b => current_epoch (g_epoch g) <= b_epoch b) bs ->
  current_epoch (g_epoch g) < e ->
  epoch_successes fp t e (run_batches st bs).1 <= L.
Proof.
  intros Hls Hs Hge He. pose proof (run_batches_limit bs st g fp t L e Hls Hge Hs ltac:(lia)) as Hb.
  assert (0 < L) by apply (ls_limit _ _ _ _ _ Hls).
  unfold seen in Hb. rewrite (proj2 (Z.eqb_neq _ e)) in Hb by lia. lia.
Qed.

(** The limit is never lifted for a writer that dispatches alone: once
    its counter has reached the limit, a batch of its transactions is refused
    whole in every later epoch too, and leaves the router as it was, because
    only a successful dispatch makes the gate notice a new epoch. *)
Theorem rate_limit_lockout (st : TransactionRouter Obj) g fp t L epoch txs :
  limited_state st g fp t L -> L <= get_tx_count (g_epoch g) fp t ->
  Forall (fun tx => tx_fp tx = fp /\ tx_tag tx = t) txs ->
  (run_txs st epoch txs).2 = st /\
  forall rs, (run_txs st epoch txs).1 = Ok rs -> Forall (fun r => success r = false) rs.
Proof.
  intros [Hg Hv Hn Hlim] Hat Htx. induction Htx as [|tx txs [Hf Ht] _ IH].
  { split; [done|]. by intros ? [= <-]. }
  simpl. assert (exists res, execute_tx st epoch tx = (res, st) /\ forall x, res = Ok x -> success x = false)
    as (res&->&Hres).
  { unfold execute_tx. rewrite Hg. destruct (length tx =? 0)%nat; [eexists; split; [done|by intros ? [= <-]]|].
    destruct (execute_gated (vms st) g tx epoch) as [[res reg'] g'] eqn:Ee.
    pose proof (gated_spec (vms st) g tx epoch) as Hs. rewrite Ee in Hs.
    destruct Hs as [(r&o&Ha&_)|(_&->&->&Hs)].
    - pose proof (authorized_below _ _ _ _ _ _ _ _ Hv Hlim Ha Hf Ht). lia.
    - exists res. split; [|done]. f_equal. destruct st; simpl in *; congruence. }
  destruct res as [x|e]; [|done]. destruct IH as [IH1 IH2].
  destruct (run_txs st epoch txs) as [[rs|e] st2]; simpl in *; subst st2; (split; [done|]); [|done].
  intros ? [= <-]. constructor; [by apply Hres|by apply IH2].
Qed.
End Dispatch.

(** * A concrete router: one VM that logs its payloads, one transaction per
    writer and epoch *)
Module Demo.
Record log_vm : Type := { lv_tag : Z; lv_log : list bytes }.

#[global] Instance log_vm_model : ExecutionModel log_vm.
Proof.
  refine {| vm_tag := lv_tag; vm_name := fun _ => lit "log";
    execute := fun o p => (Ok (accepted 1 p), {| lv_tag := lv_tag o; lv_log := lv_log o ++ [p] |});
    state_root := fun o => Ok (quick_digest (concat (lv_log o)));
    query_state := fun _ _ => Err KeyError; authorize_writer := fun _ => None; str_exn := fun _ => lit "error" |}.
  done.
Defined.

Definition one_per_epoch : VMWriterPolicy := {|
  p_vm_tag := 1; allowed_tiers := default_allowed_tiers; tier_operations := default_tier_operations;
  max_txs_per_epoch := <[MLDSA := 1]> ∅; min_stake := default_min_stake; max_writers := 0;
  fee_multiplier := default_fee_multiplier; allowlist := None; denylist := ∅; default_access_epochs := 0 |}.
Definition gate0 : WriterGate :=
  get_ok demo_gate0 (set_policy (write_policy (new_gate demo_registry) 1 one_per_epoch) 1 1).
Definition router0 : TransactionRouter log_vm :=
  {| vms := [(1, {| lv_tag := 1; lv_log := [] |})]; gate := Some gate0 |}.
Definition tx (n : Z) (payload : bytes) : bytes := be_encode 32 n ++ [1] ++ payload.
Definition batch (epoch : Z) (txs : list bytes) : OrderedBatch :=
  {| b_round := epoch; b_epoch := epoch; transactions := txs; leader_authority := 0; timestamp_ms := 0;
     consensus_type := lit "dag" |}.
Definition batch1 : OrderedBatch := batch 5 [tx 1 [0; 7]; tx 1 [0; 8]; tx 2 [0; 9]].
Definition router1 : TransactionRouter log_vm := (execute_batch router0 batch1).2.

Lemma limited0 n : is_ok (get_or_raise demo_registry (be_encode 32 n)) = true ->
  fingerprint (identity (demo_writer n)) = be_encode 32 n ->
  effective_limit default_config (demo_writer n) one_per_epoch = 1 ->
  rate_limited (Obj := log_vm) gate0 (be_encode 32 n) 1 1.
Proof.
  intros Hl Hf HL. split; [done|]. split; [by vm_compute|]. exists (demo_writer n), one_per_epoch.
  split; [by apply lookup_demo|]. split; [exact Hf|]. split; [by vm_compute|]. split; [exact HL|]. by right.
Qed.

(** Only the first of writer 1's two transactions of the epoch goes through. *)
Lemma batch1_results :
  match execute_batch router0 batch1 with
  | (inl r, _) => map success (tx_results r) = [true; false; true]
  | _ => False
  end.
Proof. by vm_compute. Qed.
End Demo.

Lemma batch_isolation_witness : exists ps,
  ps `sublist_of` [[0; 7]; [0; 8]; [0; 9]] /\
  get (vms Demo.router1) 1 = Some (run_all {| Demo.lv_tag := 1; Demo.lv_log := [] |} ps).
Proof.
  destruct (batch_isolation Demo.router0 Demo.batch1 1 (execute_batch Demo.router0 Demo.batch1).1 Demo.router1)
    as [(ps&Hs&Hg&_) _].
  - unfold Demo.router1. by destruct (execute_batch Demo.router0 Demo.batch1).
  - exists ps. split; [exact Hs|exact Hg].
Defined.

Lemma rate_limit_enforced_witness :
  epoch_successes (be_encode 32 1) 1 5 (run_batches Demo.router0 [Demo.batch1; Demo.batch 5 [Demo.tx 1 [0; 1]]]).1 <= 1.
Proof.
  apply (rate_limit_enforced [Demo.batch1; Demo.batch 5 [Demo.tx 1 [0; 1]]] Demo.router0 Demo.gate0 (be_encode 32 1) 1 1 5).
  - split; [reflexivity|by repeat constructor| |].
    + intros k n Hk. exfalso. assert (counts (g_epoch Demo.gate0) = ∅) as E by (by vm_compute). by rewrite E, lookup_empty in Hk.
    + apply Demo.limited0; by vm_compute.
  - repeat constructor; simpl; lia.
  - repeat constructor; simpl; vm_compute; done.
  - by vm_compute.
Defined.

Lemma rate_limit_lockout_witness :
  (run_txs Demo.router1 1000 [Demo.tx 1 [0; 1]; Demo.tx 1 [0; 2]]).2 = Demo.router1.
Proof.
  assert (gate Demo.router1 = Some (default Demo.gate0 (gate Demo.router1))) as Eg by (by vm_compute).
  apply (rate_limit_lockout Demo.router1 (default Demo.gate0 (gate Demo.router1)) (be_encode 32 1) 1 1 1000).
  - split; [exact Eg|by repeat constructor| |].
    + intros k n Hk. apply elem_of_map_to_list in Hk. revert k n Hk.
      assert (Forall (fun kv => 0 <= kv.2) (map_to_list (counts (g_epoch (default Demo.gate0 (gate Demo.router1)))))) as HF
        by (by vm_compute; repeat constructor).
      intros k n Hk. by apply (proj1 (Forall_forall _ _) HF (k, n)).
    + assert (default Demo.gate0 (gate Demo.router1) = with_epoch Demo.gate0 (g_epoch (default Demo.gate0 (gate Demo.router1)))) as ->
        by (by vm_compute).
      apply (Demo.limited0 1); by vm_compute.
  - by vm_compute.
  - repeat constructor; by vm_compute.
Defined.
