(* ===== verification/Sequencing.v ===== *)
(** Replay protection (src/src/ltp/sequencing.py): the per-signer sequence
    tracker with chain binding and expiry.  [time.time()] is an argument, one
    reading per call; [str_float] is Python's rendering of a float in the
    rejection messages. *)

From S2P Require Import Prelude Float64 Sha3 Hashing Encoding.

Record SequenceTracker : Type := {
  chain_id : pystr;
  default_expiry_seconds : Float64.float64;
  hwm : gmap bytes Z
}.

Definition new_tracker (chain : pystr) (expiry : Float64.float64) : SequenceTracker :=
  {| chain_id := chain; default_expiry_seconds := expiry; hwm := ∅ |}.

(** One item of a batch, with the time at which it is looked at. *)
Record item : Type := {
  signer_vk : bytes;
  sequence : Z;
  target_chain_id : pystr;
  valid_until : Float64.float64;
  now : Float64.float64
}.

Section Tracker.
Context `{CanonicalHash} (str_float : Float64.float64 -> pystr).

Definition fp_of (it : item) : bytes := Domain.signer_fingerprint (signer_vk it).

Definition current_sequence (t : SequenceTracker) (vk : bytes) : Z :=
  default (-1) (hwm t !! Domain.signer_fingerprint vk).
Definition next_sequence (t : SequenceTracker) (vk : bytes) : Z := current_sequence t vk + 1.

Definition validate_and_advance (t : SequenceTracker) (it : item) : (bool * pystr) * SequenceTracker :=
  if negb (bool_decide (target_chain_id it = chain_id t))
  then ((false, lit "chain mismatch: expected " ++ chain_id t ++ lit ", got " ++ target_chain_id it), t)
  else if f64_ge (now it) (valid_until it)
  then ((false, lit "expired: valid_until=" ++ str_float (valid_until it) ++ lit ", now=" ++ str_float (now it)), t)
  else
    let fp := Domain.signer_fingerprint (signer_vk it) in
    let current := default (-1) (hwm t !! fp) in
    if sequence it <=? current
    then ((false, lit "replay: sequence " ++ str_int (sequence it) ++ lit " <= current " ++ str_int current), t)
    else ((true, []),
          {| chain_id := chain_id t; default_expiry_seconds := default_expiry_seconds t;
             hwm := <[fp := sequence it]> (hwm t) |}).

Fixpoint validate_batch (t : SequenceTracker) (items : list item) : list (bool * pystr) * SequenceTracker :=
  match items with
  | [] => ([], t)
  | it :: items =>
      let '(r, t) := validate_and_advance t it in
      let '(rs, t) := validate_batch t items in (r :: rs, t)
  end.

(** The verdict on one item as a proposition. *)
Definition acceptable (t : SequenceTracker) (it : item) : Prop :=
  target_chain_id it = chain_id t /\ f64_ge (now it) (valid_until it) = false /\
  current_sequence t (signer_vk it) < sequence it.

Lemma validate_spec t it :
  let '(r, t') := validate_and_advance t it in
  (r.1 = true <-> acceptable t it) /\ chain_id t' = chain_id t /\
  (r.1 = true -> hwm t' = <[fp_of it := sequence it]> (hwm t)) /\ (r.1 = false -> t' = t).
Proof.
  unfold validate_and_advance, acceptable, current_sequence. cbv zeta.
  case_bool_decide as Hc; simpl; [|naive_solver].
  destruct (f64_ge _ _); simpl; [naive_solver|].
  destruct (_ <=? _) eqn:Hs; breflect; simpl; [|done].
  split; [split; [done|]|done]. intros (_&_&?). lia.
Qed.

(** The accepted items of a batch, in order. *)
Fixpoint accepted_items (items : list item) (rs : list (bool * pystr)) : list item :=
  match items, rs with
  | it :: items, r :: rs => if r.1 then it :: accepted_items items rs else accepted_items items rs
  | _, _ => []
  end.

(** The high-water mark of a fingerprint. *)
Definition mark (t : SequenceTracker) (fp : bytes) : Z := default (-1) (hwm t !! fp).

Definition newer (a b : item) : Prop := fp_of a = fp_of b -> sequence a < sequence b.

Lemma validate_batch_spec items t :
  let '(rs, t') := validate_batch t items in
  length rs = length items /\ chain_id t' = chain_id t /\
  (forall fp, mark t fp <= mark t' fp) /\
  StronglySorted newer (accepted_items items rs) /\
  Forall (fun it => target_chain_id it = chain_id t /\ f64_ge (now it) (valid_until it) = false /\
            mark t (fp_of it) < sequence it <= mark t' (fp_of it)) (accepted_items items rs).
Proof.
  revert t. induction items as [|it items IH]; intros t; simpl.
  { split_and!; try done; constructor. }
  pose proof (validate_spec t it) as Hv. destruct (validate_and_advance t it) as [r t1].
  destruct Hv as (Hok&Hc1&Ht&Hf). specialize (IH t1). destruct (validate_batch t1 items) as [rs t2].
  destruct IH as (Hl&Hc2&Hm&Hs&Hall). simpl. destruct r as [[] why]; simpl in *; cycle 1.
  { specialize (Hf eq_refl) as ->. by rewrite Hl. }
  destruct (proj1 Hok eq_refl) as (Hchain&Hexp&Hseq). specialize (Ht eq_refl).
  assert (forall fp, mark t1 fp = if bool_decide (fp = fp_of it) then sequence it else mark t fp) as Hm1.
  { intros fp. unfold mark. rewrite Ht. case_bool_decide as E; [by rewrite E, lookup_insert_eq|by rewrite lookup_insert_ne]. }
  assert (mark t (fp_of it) < sequence it) as Hlt by exact Hseq.
  assert (forall fp, mark t fp <= mark t1 fp) as Hle.
  { intros fp. rewrite Hm1. case_bool_decide; [subst; lia|lia]. }
  assert (mark t1 (fp_of it) = sequence it) as Hself by by rewrite Hm1, bool_decide_eq_true_2.
  split_and!; [lia|congruence| | |].
  - intros fp. etrans; [apply Hle|apply Hm].
  - constructor; [done|]. eapply Forall_impl; [exact Hall|]. intros it' (_&_&Hr) E.
    rewrite <- E, Hself in Hr. lia.
  - constructor; [split_and!; try done; rewrite <- Hself; apply Hm|].
    eapply Forall_impl; [exact Hall|]. intros it' (?&?&?&?). rewrite <- Hc1. split_and!; try done.
    pose proof (Hle (fp_of it')). lia.
Qed.

(** No replay: in any batch, among the accepted items of one signer the
    sequence numbers strictly increase and start above the signer's
    high-water mark, so nothing is accepted twice; every accepted item is
    bound to the tracker's chain and unexpired; and afterwards all accepted
    numbers are at or below the marks, so feeding any of them again is
    rejected. *)
Theorem no_replay t items :
  let '(rs, t') := validate_batch t items in
  length rs = length items /\
  StronglySorted newer (accepted_items items rs) /\
  Forall (fun it => target_chain_id it = chain_id t /\ f64_ge (now it) (valid_until it) = false /\
            current_sequence t (signer_vk it) < sequence it) (accepted_items items rs) /\
  forall it it', it ∈ accepted_items items rs -> signer_vk it' = signer_vk it -> sequence it' = sequence it ->
    (validate_and_advance t' it').1.1 = false.
Proof.
  pose proof (validate_batch_spec items t) as Hb. destruct (validate_batch t items) as [rs t'].
  destruct Hb as (Hl&Hc&Hm&Hs&Hall). split_and!; [done|done| |].
  - eapply Forall_impl; [exact Hall|]. by intros it (?&?&?&_).
  - intros it it' Hin Evk Eseq. pose proof (proj1 (Forall_forall _ _) Hall it Hin) as (_&_&_&Hle).
    pose proof (validate_spec t' it') as Hv. destruct (validate_and_advance t' it') as [r t2]. destruct Hv as [Hok _].
    simpl. apply not_true_iff_false. rewrite Hok. intros (_&_&Hlt).
    unfold mark, fp_of, current_sequence in *. rewrite Evk in Hlt. lia.
Qed.

(** [next_sequence] is accepted, on the right chain and in time. *)
Lemma next_accepted t it :
  target_chain_id it = chain_id t -> f64_ge (now it) (valid_until it) = false ->
  sequence it = next_sequence t (signer_vk it) ->
  exists t', validate_and_advance t it = ((true, []), t') /\ current_sequence t' (signer_vk it) = sequence it.
Proof.
  intros Hc He Hs. unfold validate_and_advance. rewrite bool_decide_eq_true_2, He by done. simpl.
  unfold next_sequence in Hs. unfold current_sequence in *.
  rewrite (proj2 (Z.leb_gt _ _)) by lia. eexists. split; [done|]. simpl. by rewrite lookup_insert_eq.
Qed.
End Tracker.

Example tracker_runs :
  let it s := {| signer_vk := [1]; sequence := s; target_chain_id := lit "chain"; valid_until := f64_epoch; now := f64_hour |} in
  map fst (validate_batch (fun _ => []) (new_tracker (lit "chain") f64_hour) [it 0; it 3; it 3; it 2; it 4]).1
  = [true; true; false; false; true].
Proof. by vm_compute. Qed.
