(* ===== verification/Dag.v ===== *)
(** The block DAG of src/src/ltp/consensus/: the data types of types.py, the
    per-validator store of dag_store.py and the commit rule of commit_rule.py.

    The breadth-first search of [collect_causal_history] runs on fuel bounded
    by the number of parent links of the store; [causal_history_exact] shows
    that the bound is always enough and says exactly which blocks come out. *)

From S2P Require Import Prelude Sha3 Hashing Encoding.
Import CanonicalEncoder (str_leb, str_leb_total, str_leb_trans, str_leb_antisym).

Section Dag.
Context `{CanonicalHash}.

(** * types.py *)

(** The bytes fed to the hasher, [len(p).to_bytes(4, "big")] before each item. *)
Definition lp4 (p : bytes) : result bytes :=
  n ← int_to_bytes 4 (Z.of_nat (length p)); Ok (n ++ p).

Definition block_preimage (author round : Z) (payload : list bytes) (parents : gset bytes) : result bytes :=
  a ← int_to_bytes 4 author;
  r ← int_to_bytes 8 round;
  l ← int_to_bytes 4 (Z.of_nat (length payload));
  ps ← mapR lp4 (sort_by str_leb payload);
  qs ← mapR lp4 (sort_by str_leb (elements parents));
  Ok (a ++ r ++ l ++ concat ps ++ concat qs).

Definition compute_block_digest (author round : Z) (payload : list bytes) (parents : gset bytes) : result bytes :=
  x ← block_preimage author round payload parents; Ok (chash x).

Record Block : Type := {
  b_author : Z;
  b_round : Z;
  b_payload : list bytes;
  b_parents : gset bytes;
  b_timestamp_ms : Z;
  b_digest : bytes
}.

(** The constructor: [__post_init__] sets the digest, and may raise. *)
Definition make_block (author round : Z) (payload : list bytes) (parents : gset bytes) (timestamp_ms : Z) : result Block :=
  d ← compute_block_digest author round payload parents;
  Ok {| b_author := author; b_round := round; b_payload := payload; b_parents := parents;
        b_timestamp_ms := timestamp_ms; b_digest := d |}.

(** Every [Block] object carries the digest of its fields. *)
Definition wf_block (b : Block) : Prop :=
  compute_block_digest (b_author b) (b_round b) (b_payload b) (b_parents b) = Ok (b_digest b).

Record Certificate : Type := {
  c_block : Block;
  c_signers : gset Z
}.
Definition c_digest (c : Certificate) : bytes := b_digest (c_block c).

Record CommitDecision : Type := {
  leader_certificate : Certificate;
  committed_blocks : list Block;
  d_round : Z
}.

Record EquivocationProof : Type := {
  e_author : Z;
  block_a : Block;
  block_b : Block;
  e_round : Z
}.

#[global] Instance Block_eq_dec : EqDecision Block.
Proof. solve_decision. Defined.
#[global] Instance Certificate_eq_dec : EqDecision Certificate.
Proof. solve_decision. Defined.
#[global] Instance CommitDecision_eq_dec : EqDecision CommitDecision.
Proof. solve_decision. Defined.

(** * dag_store.py *)
Record DAGStore : Type := {
  blocks_by_digest : gmap bytes Block;
  blocks_by_round : gmap Z (gmap Z Block);
  certs_by_round : gmap Z (gmap Z Certificate)
}.

Definition empty_dag : DAGStore :=
  {| blocks_by_digest := ∅; blocks_by_round := ∅; certs_by_round := ∅ |}.

(** [d.get(round, {})], and the [defaultdict] access [d[round]]. *)
Definition at_round {A} (m : gmap Z (gmap Z A)) (round : Z) : gmap Z A := default ∅ (m !! round).

Definition add_block (dag : DAGStore) (block : Block) : bool * DAGStore :=
  match at_round (blocks_by_round dag) (b_round block) !! b_author block with
  | Some _ => (false, dag)
  | None =>
      (true, {| blocks_by_digest := <[b_digest block := block]> (blocks_by_digest dag);
                blocks_by_round :=
                  <[b_round block := <[b_author block := block]>
                      (at_round (blocks_by_round dag) (b_round block))]> (blocks_by_round dag);
                certs_by_round := certs_by_round dag |})
  end.

Definition get_block (dag : DAGStore) (digest : bytes) : option Block :=
  blocks_by_digest dag !! digest.

Definition blocks_at_round (dag : DAGStore) (round : Z) : list Block :=
  (map_to_list (at_round (blocks_by_round dag) round)).*2.

Definition add_certificate (dag : DAGStore) (cert : Certificate) : DAGStore :=
  {| blocks_by_digest := blocks_by_digest dag;
     blocks_by_round := blocks_by_round dag;
     certs_by_round :=
       <[b_round (c_block cert) := <[b_author (c_block cert) := cert]>
           (at_round (certs_by_round dag) (b_round (c_block cert)))]> (certs_by_round dag) |}.

Definition get_certificate (dag : DAGStore) (author round : Z) : option Certificate :=
  at_round (certs_by_round dag) round !! author.

Definition certificates_at_round (dag : DAGStore) (round : Z) : list Certificate :=
  (map_to_list (at_round (certs_by_round dag) round)).*2.

Definition has_quorum_certificates (dag : DAGStore) (round quorum_threshold : Z) : bool :=
  quorum_threshold <=? Z.of_nat (size (at_round (certs_by_round dag) round)).

(** * commit_rule.py *)

(** The sort key [(b.round, b.author)]. *)
Definition block_leb (a b : Block) : bool :=
  (b_round a <? b_round b) || ((b_round a =? b_round b) && (b_author a <=? b_author b)).

(** The [while queue] loop; [None] if the fuel runs out. *)
Fixpoint history_loop (fuel : nat) (dag : DAGStore) (already_committed : gset bytes)
    (visited : gset bytes) (result : list Block) (queue : list bytes) : option (list Block) :=
  match queue with
  | [] => Some result
  | digest :: queue =>
      match fuel with
      | O => None
      | S fuel =>
          if bool_decide (digest ∈ visited) || bool_decide (digest ∈ already_committed)
          then history_loop fuel dag already_committed visited result queue
          else
            let visited := {[digest]} ∪ visited in
            match get_block dag digest with
            | None => history_loop fuel dag already_committed visited result queue
            | Some block =>
                let new := filter (fun p => p ∉ visited /\ p ∉ already_committed)
                             (elements (b_parents block)) in
                history_loop fuel dag already_committed visited (result ++ [block]) (queue ++ new)
            end
      end
  end.

(** One entry per parent link of a stored block, and the start. *)
Definition history_fuel (dag : DAGStore) : nat :=
  S (map_fold (fun _ b n => (size (b_parents b) + n)%nat) 0%nat (blocks_by_digest dag)).

(** [history_loop_total] shows that the default is never used. *)
Definition collect_causal_history (dag : DAGStore) (certificate : Certificate)
    (already_committed : gset bytes) : list Block :=
  sort_by block_leb
    (default [] (history_loop (history_fuel dag) dag already_committed ∅ [] [c_digest certificate])).

Definition evaluate_direct_commit (dag : DAGStore) (round leader quorum_threshold : Z) :
  option CommitDecision :=
  match get_certificate dag leader round with
  | None => None
  | Some leader_cert =>
      let referencing := Z.of_nat (length (filter
        (fun cert => c_digest leader_cert ∈ b_parents (c_block cert))
        (certificates_at_round dag (round + 1)))) in
      if referencing <? quorum_threshold then None
      else
        let committed := collect_causal_history dag leader_cert ∅ in
        Some {| leader_certificate := leader_cert; committed_blocks := committed; d_round := round |}
  end.

(** [max(xs, default=d)] *)
Definition max_default (d : Z) (xs : list Z) : Z :=
  match xs with [] => d | x :: xs => fold_left Z.max xs x end.

(** The loop over the sorted committed rounds. *)
Fixpoint indirect_loop (dag : DAGStore) (leader_cert : Certificate) (round : Z) (rounds : list Z) :
  option CommitDecision :=
  match rounds with
  | [] => None
  | committed_round :: rounds =>
      if committed_round <=? round then indirect_loop dag leader_cert round rounds
      else
        let n_validators := max_default 1 (map (fun b => b_author b + 1) (blocks_at_round dag 0)) in
        let committed_leader := committed_round mod n_validators in
        match get_certificate dag committed_leader committed_round with
        | None => indirect_loop dag leader_cert round rounds
        | Some committed_cert =>
            let history := collect_causal_history dag committed_cert ∅ in
            if bool_decide (b_digest (c_block leader_cert) ∈ map b_digest history) then
              let committed := collect_causal_history dag leader_cert ∅ in
              Some {| leader_certificate := leader_cert; committed_blocks := committed; d_round := round |}
            else indirect_loop dag leader_cert round rounds
        end
  end.

Definition evaluate_indirect_commit (dag : DAGStore) (round leader : Z) (committed_rounds : gset Z) :
  option CommitDecision :=
  if bool_decide (round ∈ committed_rounds) then None
  else
    match get_certificate dag leader round with
    | None => None
    | Some leader_cert =>
        indirect_loop dag leader_cert round (sort_by Z.leb (elements committed_rounds))
    end.

(** * Lemmas on the store *)

(** The indices agree: a block stored under a digest has that digest and
    occupies its (round, author) slot, and slots hold what they are named for. *)
Record dag_ok (dag : DAGStore) : Prop := {
  ok_digest d b : get_block dag d = Some b ->
    b_digest b = d /\ at_round (blocks_by_round dag) (b_round b) !! b_author b = Some b;
  ok_slot r a b : at_round (blocks_by_round dag) r !! a = Some b ->
    b_round b = r /\ b_author b = a /\ is_Some (get_block dag (b_digest b));
  ok_cert r a c : at_round (certs_by_round dag) r !! a = Some c ->
    b_round (c_block c) = r /\ b_author (c_block c) = a
}.

Lemma at_round_insert {A} (m : gmap Z (gmap Z A)) r r' a a' (x : A) :
  at_round (<[r := <[a := x]> (at_round m r)]> m) r' !! a' =
  if decide (r = r' /\ a = a') then Some x else at_round m r' !! a'.
Proof.
  unfold at_round at 1. destruct (decide (r = r')) as [<-|Hr].
  - rewrite lookup_insert_eq. simpl. destruct (decide (a = a')) as [<-|Ha].
    + by rewrite lookup_insert_eq, decide_True.
    + rewrite lookup_insert_ne by done. by rewrite decide_False by tauto.
  - rewrite lookup_insert_ne by done. by rewrite decide_False by tauto.
Qed.

Lemma empty_dag_ok : dag_ok empty_dag.
Proof. split; intros *; unfold get_block, at_round; simpl; rewrite ?lookup_empty; simpl; rewrite ?lookup_empty; done. Qed.

Lemma add_block_ok dag b : dag_ok dag -> dag_ok (add_block dag b).2.
Proof.
  intros [Hd Hs Hc]. unfold add_block.
  destruct (at_round (blocks_by_round dag) (b_round b) !! b_author b) as [b0|] eqn:E; simpl; [by split|].
  split; simpl; [| |done].
  - unfold get_block; simpl. intros d b'. rewrite at_round_insert.
    destruct (decide (b_digest b = d)) as [<-|Hne].
    + rewrite lookup_insert_eq. intros [= <-]. split; [done|]. by rewrite decide_True.
    + rewrite lookup_insert_ne by done. intros [? Hb]%Hd. split; [done|].
      rewrite decide_False; [done|]. intros [E1 E2]. rewrite <- E1, <- E2, E in Hb. done.
  - intros r a b'. rewrite at_round_insert. unfold get_block; simpl.
    destruct (decide _) as [[<- <-]|].
    + intros [= <-]. by rewrite lookup_insert_eq.
    + intros (? & ? & Hg)%Hs. split_and!; [done..|]. rewrite lookup_insert_is_Some'. by right.
Qed.

Lemma add_certificate_ok dag c : dag_ok dag -> dag_ok (add_certificate dag c).
Proof.
  intros [Hd Hs Hc]. split; simpl; [done|done|]. intros r a c'. rewrite at_round_insert.
  destruct (decide _) as [[<- <-]|]; [by intros [= <-]|apply Hc].
Qed.

(** The digest of a stored block determines the block stored in its slot. *)
Lemma same_slot dag d1 d2 b1 b2 : dag_ok dag ->
  get_block dag d1 = Some b1 -> get_block dag d2 = Some b2 ->
  b_round b1 = b_round b2 -> b_author b1 = b_author b2 -> d1 = d2.
Proof.
  intros Hok [<- H1]%(ok_digest _ Hok) [<- H2]%(ok_digest _ Hok) Er Ea.
  rewrite Er, Ea, H2 in H1. by simplify_eq.
Qed.

(** * The causal history *)
Section History.
Context (dag : DAGStore) (ac : gset bytes).

(** Reachable over parent links of stored blocks, outside [ac]. *)
Inductive causal (start : bytes) : bytes -> Prop :=
| causal_start : start ∉ ac -> causal start start
| causal_parent d b p :
    causal start d -> get_block dag d = Some b -> p ∈ b_parents b -> p ∉ ac -> causal start p.

(** Parent links of the blocks not visited yet. *)
Definition links (visited : gset bytes) : nat :=
  map_fold (fun _ b n => (size (b_parents b) + n)%nat) 0%nat
    (filter (fun kv => kv.1 ∉ visited) (blocks_by_digest dag)).

Lemma links_visit visited d b :
  d ∉ visited -> get_block dag d = Some b -> links visited = (size (b_parents b) + links ({[d]} ∪ visited))%nat.
Proof.
  intros Hd Hb. unfold links.
  rewrite (map_fold_delete_L (fun _ b n => (size (b_parents b) + n)%nat) 0%nat d b).
  - f_equal. f_equal. apply map_eq. intros d'. unfold get_block in Hb.
    destruct (decide (d = d')) as [<-|Hne].
    + rewrite lookup_delete_eq. symmetry. apply map_lookup_filter_None_2. right. set_solver.
    + rewrite lookup_delete_ne by done. apply option_eq. intros b'.
      rewrite !map_lookup_filter_Some; simpl. set_solver.
  - intros. lia.
  - apply map_lookup_filter_Some_2; done.
Qed.

Lemma links_skip visited d : (links ({[d]} ∪ visited) <= links visited)%nat.
Proof.
  destruct (decide (d ∈ visited)) as [Hv|Hv].
  - by replace ({[d]} ∪ visited) with visited by set_solver.
  - destruct (get_block dag d) as [b|] eqn:E.
    + rewrite (links_visit visited d b) by done. lia.
    + unfold links. apply Nat.eq_le_incl. f_equal. apply map_eq. intros d'. apply option_eq. intros b'.
      rewrite !map_lookup_filter_Some; simpl. unfold get_block in E.
      split; [set_solver|]. intros [Hl Hn]. split; [done|]. intros [->%elem_of_singleton|?]%elem_of_union; congruence.
Qed.

(** What the loop has established when it pops the next digest. *)
Record loop_inv (start : bytes) (visited : gset bytes) (result : list Block) (queue : list bytes) : Prop := {
  li_start : start ∈ ac \/ start ∈ visited \/ start ∈ queue;
  li_visited d : d ∈ visited -> causal start d;
  li_queue d : d ∈ queue -> d ∈ ac \/ causal start d;
  li_closed d b p : d ∈ visited -> get_block dag d = Some b -> p ∈ b_parents b ->
    p ∈ ac \/ p ∈ visited \/ p ∈ queue;
  li_result b : b ∈ result <-> exists d, d ∈ visited /\ get_block dag d = Some b;
  li_nodup : NoDup result
}.

Lemma loop_inv_skip start visited result d queue :
  d ∈ visited \/ d ∈ ac -> loop_inv start visited result (d :: queue) -> loop_inv start visited result queue.
Proof.
  intros Hd [H1 H2 H3 H4 H5 H6]. split; try done.
  - rewrite elem_of_cons in H1. naive_solver.
  - intros p Hp. apply H3. by right.
  - intros d' b p Hd' Hg Hp. specialize (H4 d' b p Hd' Hg Hp). rewrite elem_of_cons in H4. naive_solver.
Qed.

Lemma loop_inv_missing start visited result d queue :
  d ∉ ac -> get_block dag d = None -> loop_inv start visited result (d :: queue) ->
  loop_inv start ({[d]} ∪ visited) result queue.
Proof.
  intros Hd Hg [H1 H2 H3 H4 H5 H6].
  assert (causal start d) as Hcd by (destruct (H3 d); [constructor|done..]).
  split; [| | | | |done].
  - rewrite elem_of_cons in H1. rewrite elem_of_union, elem_of_singleton. naive_solver.
  - intros p [->%elem_of_singleton|?]%elem_of_union; auto.
  - intros p Hp. apply H3. by right.
  - intros d' b p [->%elem_of_singleton|Hd']%elem_of_union Hg' Hp; [congruence|].
    specialize (H4 d' b p Hd' Hg' Hp). rewrite elem_of_cons in H4.
    rewrite elem_of_union, elem_of_singleton. naive_solver.
  -  intros b. rewrite H5. split; [intros (d' & ? & ?); exists d'; split; [apply elem_of_union; by right|done]|]. intros (d' & [->%elem_of_singleton|?]%elem_of_union & ?); [congruence|eauto].
Qed.

Lemma loop_inv_visit start visited result d b queue : dag_ok dag ->
  d ∉ ac -> d ∉ visited -> get_block dag d = Some b -> loop_inv start visited result (d :: queue) ->
  loop_inv start ({[d]} ∪ visited) (result ++ [b])
    (queue ++ filter (fun p => p ∉ {[d]} ∪ visited /\ p ∉ ac) (elements (b_parents b))).
Proof.
  intros Hok Hac Hv Hg [H1 H2 H3 H4 H5 H6].
  assert (causal start d) as Hcd by (destruct (H3 d); [constructor|done..]).
  split.
  - rewrite elem_of_cons in H1. rewrite elem_of_union, elem_of_singleton, elem_of_app. naive_solver.
  - intros p [->%elem_of_singleton|?]%elem_of_union; auto.
  - intros p [Hp|Hp]%elem_of_app; [apply H3; by right|]. right.
    apply list_elem_of_filter in Hp as [[_ ?] Hp]. eapply causal_parent; [done..| |done]. by apply elem_of_elements.
  - intros d' b' p Hd' Hg' Hp. destruct (decide (p ∈ ac)); [by left|]. right.
    destruct (decide (p ∈ {[d]} ∪ visited)) as [?|n0]; [by left|]. right. apply elem_of_app.
    apply elem_of_union in Hd' as [->%elem_of_singleton|Hd'].
    + simplify_eq. right. apply list_elem_of_filter. split; [done|]. by apply elem_of_elements.
    + left. destruct (H4 d' b' p Hd' Hg' Hp) as [?|[?|Hq]]; [done|exfalso; apply n0, elem_of_union; by right|].
      apply elem_of_cons in Hq as [->|?]; [exfalso; apply n0, elem_of_union; left; by apply elem_of_singleton|done].
  - intros b'. rewrite elem_of_app, list_elem_of_singleton, H5. split.
    + intros [(d' & ? & ?)| ->]; [exists d'|exists d]; split; try done; apply elem_of_union; rewrite elem_of_singleton; auto.
    + intros (d' & [->%elem_of_singleton|?]%elem_of_union & Hg'); [right; congruence|left; eauto].
  - apply NoDup_app. split_and!; [done| |apply NoDup_singleton].
    intros b' (d' & Hd' & Hg')%H5 ->%list_elem_of_singleton.
    apply (ok_digest _ Hok) in Hg as [? _]. apply (ok_digest _ Hok) in Hg' as [? _]. congruence.
Qed.

Lemma loop_inv_done start visited result : loop_inv start visited result [] ->
  forall b, b ∈ result <-> exists d, causal start d /\ get_block dag d = Some b.
Proof.
  intros [H1 H2 _ H4 H5 _] b. rewrite H5. split; intros (d & Hd & Hb); exists d; split; auto; [].
  clear Hb. induction Hd as [Hs|d b' p Hd IH Hg Hp Hn].
  - destruct H1 as [?|[?|?%not_elem_of_nil]]; done.
  - destruct (H4 d b' p IH Hg Hp) as [?|[?|?%not_elem_of_nil]]; done.
Qed.

Lemma history_loop_total (Hok : dag_ok dag) start fuel visited result queue :
  loop_inv start visited result queue -> (length queue + links visited <= fuel)%nat ->
  exists r, history_loop fuel dag ac visited result queue = Some r /\ NoDup r /\
    forall b, b ∈ r <-> exists d, causal start d /\ get_block dag d = Some b.
Proof.
  revert visited result queue. induction fuel as [|fuel IH]; intros visited result [|d queue] Hi Hf;
    simpl in Hf; try lia; [by exists result; eauto using loop_inv_done, li_nodup..|].
  simpl. destruct (_ || _) eqn:Eseen.
  - apply IH; [|lia]. eapply loop_inv_skip; [|done].
    apply orb_true_iff in Eseen as [?%bool_decide_eq_true|?%bool_decide_eq_true]; auto.
  - breflect. destruct (get_block dag d) as [b|] eqn:Eg.
    + apply IH; [by apply loop_inv_visit|]. rewrite (links_visit visited d b) in Hf by done.
      rewrite length_app. pose proof (length_filter (fun p => p ∉ {[d]} ∪ visited /\ p ∉ ac) (elements (b_parents b))) as Hl.
      unfold size, set_size in Hf. simpl in Hf. lia.
    + apply IH; [by apply loop_inv_missing|]. pose proof (links_skip visited d). lia.
Qed.

(** The fuel of [collect_causal_history] suffices. *)
Lemma history_loop_enough (Hok : dag_ok dag) start :
  exists r, history_loop (history_fuel dag) dag ac ∅ [] [start] = Some r /\ NoDup r /\
    forall b, b ∈ r <-> exists d, causal start d /\ get_block dag d = Some b.
Proof.
  apply (history_loop_total Hok start).
  - split; try done; [set_solver| | |].
    + intros d Hd. destruct (decide (d ∈ ac)); [by left|]. right.
      apply list_elem_of_singleton in Hd as ->. by constructor.
    + intros b. split; [by intros ?%not_elem_of_nil|set_solver].
    + constructor.
  - unfold links, history_fuel. rewrite map_filter_id by set_solver. simpl. lia.
Qed.
End History.

(** ** The order of the history *)
Definition block_lt (a b : Block) : Prop :=
  b_round a < b_round b \/ (b_round a = b_round b /\ b_author a < b_author b).

Lemma block_leb_spec a b :
  block_leb a b = true <-> block_lt a b \/ (b_round a = b_round b /\ b_author a = b_author b).
Proof.
  unfold block_leb, block_lt. rewrite orb_true_iff, andb_true_iff, Z.ltb_lt, Z.eqb_eq, Z.leb_le. lia.
Qed.

Lemma block_leb_total a b : block_leb a b = true \/ block_leb b a = true.
Proof. rewrite !block_leb_spec. unfold block_lt. lia. Qed.
Lemma block_leb_trans a b c : block_leb a b = true -> block_leb b c = true -> block_leb a c = true.
Proof. rewrite !block_leb_spec. unfold block_lt. lia. Qed.

Lemma strictly_sorted l : StronglySorted (fun a b => block_leb a b = true) l -> NoDup l ->
  (forall a b, a ∈ l -> b ∈ l -> b_round a = b_round b -> b_author a = b_author b -> a = b) ->
  StronglySorted block_lt l.
Proof.
  induction 1 as [|a l Hs IH Ha]; intros Hn Hu; constructor; inversion Hn; subst.
  - apply IH; [done|]. intros; apply Hu; by try right.
  - apply Forall_forall. intros b Hb. rewrite Forall_forall in Ha.
    pose proof (Ha b Hb) as [?|[E1 E2]]%block_leb_spec; [done|].
    assert (a = b) as <- by (apply Hu; [by left|by right|done..]). done.
Qed.

Lemma history_spec dag cert ac : dag_ok dag ->
  StronglySorted block_lt (collect_causal_history dag cert ac) /\
  forall b, b ∈ collect_causal_history dag cert ac <->
    exists d, causal dag ac (c_digest cert) d /\ get_block dag d = Some b.
Proof.
  intros Hok. unfold collect_causal_history.
  destruct (history_loop_enough dag ac Hok (c_digest cert)) as (r & -> & Hnd & Hr). simpl.
  split; [|intros b; by rewrite elem_of_sort_by].
  apply strictly_sorted; [apply sort_by_sorted; eauto using block_leb_total, block_leb_trans|by rewrite sort_by_perm|].
  intros a b. rewrite !elem_of_sort_by, !Hr. intros (d1 & _ & H1) (d2 & _ & H2) Er Ea.
  pose proof (same_slot dag d1 d2 a b Hok H1 H2 Er Ea). congruence.
Qed.

(** ** What a digest binds *)
Definition preimage_of (b : Block) : bytes :=
  get_ok [] (block_preimage (b_author b) (b_round b) (b_payload b) (b_parents b)).

Lemma wf_block_preimage b : wf_block b ->
  block_preimage (b_author b) (b_round b) (b_payload b) (b_parents b) = Ok (preimage_of b) /\
  b_digest b = chash (preimage_of b).
Proof.
  unfold wf_block, compute_block_digest, preimage_of, mbind, result_bind.
  destruct (block_preimage _ _ _ _) as [x|]; simpl; [|done]. by intros [= <-].
Qed.

Lemma lp4_inj a b x y r s : lp4 a = Ok x -> lp4 b = Ok y -> x ++ r = y ++ s -> a = b /\ r = s.
Proof.
  unfold lp4, mbind, result_bind.
  destruct (int_to_bytes 4 (Z.of_nat (length a))) as [n|] eqn:En; [|done].
  destruct (int_to_bytes 4 (Z.of_nat (length b))) as [m|] eqn:Em; [|done].
  apply int_to_bytes_Ok in En as [Hn ->], Em as [Hm ->]. intros <-%Ok_inj <-%Ok_inj E.
  rewrite <- !app_assoc in E. apply app_inj_len in E as [E1 E2]; [|by rewrite !be_encode_length].
  apply be_encode_inj in E1; [|done..]. apply app_inj_len in E2; [done|lia].
Qed.

Lemma lp4_nonempty a x : lp4 a = Ok x -> x <> [].
Proof.
  unfold lp4, mbind, result_bind. destruct (int_to_bytes _ _) as [n|] eqn:En; [|done].
  apply int_to_bytes_Ok in En as [_ ->]. intros <-%Ok_inj E. apply (f_equal length) in E.
  rewrite length_app, be_encode_length in E. simpl in E. lia.
Qed.

(** Length-prefixed items parse back, when the count is known or when they
    run to the end of the input. *)
Lemma lp4s_inj xs ys us vs r s :
  Forall2 (fun a x => lp4 a = Ok x) xs us -> Forall2 (fun a x => lp4 a = Ok x) ys vs ->
  length xs = length ys \/ (r = [] /\ s = []) -> concat us ++ r = concat vs ++ s -> xs = ys /\ r = s.
Proof.
  intros Hx. revert ys vs. induction Hx as [|a x xs us Ha Hx IH]; intros ys vs Hy Hl E.
  - destruct Hy as [|b y ys vs Hb Hy]; [done|]. simpl in *. destruct Hl as [?|[-> ->]]; [lia|].
    rewrite app_nil_r in E. apply lp4_nonempty in Hb. by destruct y.
  - destruct Hy as [|b y ys vs Hb Hy]; simpl in *.
    + destruct Hl as [?|[-> ->]]; [lia|]. rewrite app_nil_r in E. apply lp4_nonempty in Ha. by destruct x.
    + rewrite <- !app_assoc in E. destruct (lp4_inj _ _ _ _ _ _ Ha Hb E) as [-> E'].
      destruct (IH ys vs Hy) as [-> ->]; [destruct Hl; [left; lia|by right]|done..].
Qed.

Lemma block_preimage_inj a1 r1 p1 q1 a2 r2 p2 q2 x :
  block_preimage a1 r1 p1 q1 = Ok x -> block_preimage a2 r2 p2 q2 = Ok x ->
  a1 = a2 /\ r1 = r2 /\ p1 ≡ₚ p2 /\ q1 = q2.
Proof.
  unfold block_preimage, mbind, result_bind.
  destruct (int_to_bytes 4 a1) as [xa1|] eqn:Ea1; [|done]. destruct (int_to_bytes 8 r1) as [xr1|] eqn:Er1; [|done].
  destruct (int_to_bytes 4 (Z.of_nat (length p1))) as [l1|] eqn:El1; [|done].
  destruct (mapR lp4 (sort_by str_leb p1)) as [ps1|] eqn:Ep1; [|done].
  destruct (mapR lp4 (sort_by str_leb (elements q1))) as [qs1|] eqn:Eq1; [|done]. intros Ex%Ok_inj.
  destruct (int_to_bytes 4 a2) as [xa2|] eqn:Ea2; [|done]. destruct (int_to_bytes 8 r2) as [xr2|] eqn:Er2; [|done].
  destruct (int_to_bytes 4 (Z.of_nat (length p2))) as [l2|] eqn:El2; [|done].
  destruct (mapR lp4 (sort_by str_leb p2)) as [ps2|] eqn:Ep2; [|done].
  destruct (mapR lp4 (sort_by str_leb (elements q2))) as [qs2|] eqn:Eq2; [|done]. intros <-%Ok_inj.
  apply int_to_bytes_Ok in Ea1 as [? ->], Er1 as [? ->], El1 as [? ->], Ea2 as [? ->], Er2 as [? ->], El2 as [? ->].
  apply mapR_Ok in Ep1, Eq1, Ep2, Eq2.
  apply app_inj_len in Ex as [E1 Ex]; [|by rewrite !be_encode_length].
  apply app_inj_len in Ex as [E2 Ex]; [|by rewrite !be_encode_length].
  apply app_inj_len in Ex as [E3 Ex]; [|by rewrite !be_encode_length].
  apply be_encode_inj in E1, E2, E3; try done.
  destruct (lp4s_inj _ _ _ _ (concat qs1) (concat qs2) Ep1 Ep2) as [E4 E5]; [left; rewrite !sort_by_perm; lia|done|].
  destruct (lp4s_inj _ _ _ _ [] [] Eq1 Eq2) as [E6 _]; [by right|by rewrite E5|].
  split_and!; [done..| |].
  - by rewrite <- (sort_by_perm str_leb p1), E4, sort_by_perm.
  - apply leibniz_equiv. intros p. rewrite <- !elem_of_elements, <- (elem_of_sort_by str_leb), E6, elem_of_sort_by. done.
Qed.

Lemma digest_binds b1 b2 : wf_block b1 -> wf_block b2 ->
  collision_free [preimage_of b1; preimage_of b2] -> b_digest b1 = b_digest b2 ->
  b_author b1 = b_author b2 /\ b_round b1 = b_round b2 /\ b_payload b1 ≡ₚ b_payload b2 /\ b_parents b1 = b_parents b2.
Proof.
  intros [H1 D1]%wf_block_preimage [H2 D2]%wf_block_preimage Hc E. rewrite D1, D2 in E.
  apply Hc in E; [|set_solver..]. rewrite E in H1. by eapply block_preimage_inj.
Qed.

(** ** Agreement of two stores on a history *)
Definition stored (dag : DAGStore) : list Block := (map_to_list (blocks_by_digest dag)).*2.
Definition blocks_wf (dag : DAGStore) : Prop := forall d b, get_block dag d = Some b -> wf_block b.

(** Every block of the history of [start] has arrived. *)
Definition complete (dag : DAGStore) (start : bytes) : Prop :=
  forall d, causal dag ∅ start d -> is_Some (get_block dag d).

Lemma elem_of_stored dag d b : get_block dag d = Some b -> b ∈ stored dag.
Proof. intros Hg. apply list_elem_of_fmap. exists (d, b). split; [done|]. by apply elem_of_map_to_list. Qed.

Section Agreement.
Context (dag1 dag2 : DAGStore).
Context (ok1 : dag_ok dag1) (ok2 : dag_ok dag2) (wf1 : blocks_wf dag1) (wf2 : blocks_wf dag2).
Context (nocoll : collision_free (map preimage_of (stored dag1 ++ stored dag2))).

Lemma same_digest d b1 b2 : get_block dag1 d = Some b1 -> get_block dag2 d = Some b2 ->
  b_author b1 = b_author b2 /\ b_round b1 = b_round b2 /\ b_payload b1 ≡ₚ b_payload b2 /\ b_parents b1 = b_parents b2.
Proof.
  intros H1 H2. apply digest_binds; [by eapply wf1|by eapply wf2| |].
  - eapply collision_free_sub; [|exact nocoll]. intros x Hx. apply elem_of_map.
    rewrite elem_of_cons, list_elem_of_singleton in Hx.
    destruct Hx as [-> | ->]; [exists b1|exists b2]; (split; [done|]); apply elem_of_app;
      eauto using elem_of_stored.
  - apply (ok_digest _ ok1) in H1 as [-> _]. by apply (ok_digest _ ok2) in H2 as [-> _].
Qed.

Lemma causal_transfer start d : complete dag2 start -> causal dag1 ∅ start d -> causal dag2 ∅ start d.
Proof.
  intros Hc. induction 1 as [?|d b p Hd IH Hb Hp Hn]; [by constructor|].
  destruct (Hc d IH) as [b2 Hb2]. eapply causal_parent; [done..| |done].
  destruct (same_digest d b b2) as (_ & _ & _ & <-); done.
Qed.
End Agreement.

(** Position and digest of a block. *)
Definition tag (b : Block) : Z * Z * bytes := (b_round b, b_author b, b_digest b).
Definition tag_lt (x y : Z * Z * bytes) : Prop :=
  x.1.1 < y.1.1 \/ (x.1.1 = y.1.1 /\ x.1.2 < y.1.2).

Lemma sorted_tags l : StronglySorted block_lt l -> StronglySorted tag_lt (map tag l).
Proof.
  induction 1 as [|b l Hs IH Hb]; simpl; constructor; [done|]. apply Forall_map.
  eapply Forall_impl; [exact Hb|]. done.
Qed.

Lemma tags_nodup l : StronglySorted tag_lt l -> NoDup l.
Proof.
  induction 1 as [|b l Hs IH Hb]; constructor; [|done]. intros Hin.
  rewrite Forall_forall in Hb. specialize (Hb b Hin). unfold tag_lt in Hb. lia.
Qed.

Lemma tags_unique l1 l2 : StronglySorted tag_lt l1 -> StronglySorted tag_lt l2 ->
  (forall x, x ∈ l1 <-> x ∈ l2) -> l1 = l2.
Proof.
  intros H1 H2 Hx. eapply (StronglySorted_unique_strong tag_lt); [|done..|].
  - intros x y _ _. unfold tag_lt. lia.
  - apply NoDup_Permutation; eauto using tags_nodup.
Qed.

Lemma history_tags_incl dag1 dag2 c1 c2 x :
  dag_ok dag1 -> dag_ok dag2 -> blocks_wf dag1 -> blocks_wf dag2 ->
  collision_free (map preimage_of (stored dag1 ++ stored dag2)) ->
  c_digest c1 = c_digest c2 -> complete dag2 (c_digest c2) ->
  x ∈ map tag (collect_causal_history dag1 c1 ∅) -> x ∈ map tag (collect_causal_history dag2 c2 ∅).
Proof.
  intros O1 O2 W1 W2 Hc Ed C2 (b & -> & Hb)%elem_of_map.
  apply history_spec in Hb as (d & Hd & Hg); [|done]. rewrite Ed in Hd.
  apply (causal_transfer dag1 dag2) in Hd; [|done..]. destruct (C2 d Hd) as [b2 Hg2].
  apply elem_of_map. exists b2. split; [|apply history_spec; eauto].
  destruct (same_digest dag1 dag2 O1 O2 W1 W2 Hc d b b2 Hg Hg2) as (E1 & E2 & _).
  apply (ok_digest _ O1) in Hg as [E3 _]. apply (ok_digest _ O2) in Hg2 as [E4 _].
  unfold tag. congruence.
Qed.

Lemma history_agreement dag1 dag2 c1 c2 :
  dag_ok dag1 -> dag_ok dag2 -> blocks_wf dag1 -> blocks_wf dag2 ->
  collision_free (map preimage_of (stored dag1 ++ stored dag2)) ->
  c_digest c1 = c_digest c2 -> complete dag1 (c_digest c1) -> complete dag2 (c_digest c2) ->
  map tag (collect_causal_history dag1 c1 ∅) = map tag (collect_causal_history dag2 c2 ∅).
Proof.
  intros O1 O2 W1 W2 Hc Ed C1 C2.
  apply tags_unique; [by apply sorted_tags, history_spec..|].
  intros x. split; apply history_tags_incl; try done.
  eapply collision_free_sub; [|exact Hc]. intros y. rewrite !elem_of_map. set_solver.
Qed.

(** C18: The causal history is computed exactly.  On every store whose indices
    agree, the breadth-first search stops within its bound, and the result
    consists of the stored blocks reachable from the certificate over parent
    links outside the committed set, each once, in strictly increasing
    (round, author) order. *)
Theorem causal_history_exact dag cert ac (Hok : dag_ok dag) :
  (exists r, history_loop (history_fuel dag) dag ac ∅ [] [c_digest cert] = Some r) /\
  StronglySorted block_lt (collect_causal_history dag cert ac) /\
  forall b, b ∈ collect_causal_history dag cert ac <->
    exists d, causal dag ac (c_digest cert) d /\ get_block dag d = Some b.
Proof.
  destruct (history_loop_enough dag ac Hok (c_digest cert)) as (r & Hr & _).
  split; [by exists r|by apply history_spec].
Qed.

End Dag.

Lemma causal_history_exact_witness :
  let b0 := get_ok {| b_author := 0; b_round := 0; b_payload := []; b_parents := ∅;
                      b_timestamp_ms := 0; b_digest := [] |} (make_block 1 0 [lit "tx"] ∅ 5) in
  let b1 := get_ok b0 (make_block 0 1 [] {[b_digest b0; lit "missing"]} 6) in
  let dag := (add_block (add_block empty_dag b0).2 b1).2 in
  map (fun b => (b_round b, b_author b))
    (collect_causal_history dag {| c_block := b1; c_signers := ∅ |} ∅) = [(0, 1); (1, 0)] /\
  exists r, history_loop (history_fuel dag) dag ∅ ∅ [] [b_digest b1] = Some r.
Proof.
  intros b0 b1 dag. split; [vm_compute; reflexivity|].
  apply (causal_history_exact dag {| c_block := b1; c_signers := ∅ |} ∅).
  apply add_block_ok, add_block_ok, empty_dag_ok.
Defined.
