(* ===== verification/DagBft.v ===== *)
(** One validator of the DAG-BFT protocol, src/src/ltp/consensus/protocol.py,
    and the system of all validators as a step relation.

    In [sys_step] the Byzantine validators may send any block, acknowledge
    under their own index and assemble certificates from acknowledgements that
    were sent; honest validators run the code.  The channels are authenticated:
    nobody acknowledges in the name of an honest validator. *)

From S2P Require Import Prelude Sha3 Hashing Encoding Dag.

Section DagBft.
Context `{CanonicalHash}.

(** * types.py: [RoundState] *)
Record RoundState : Type := {
  rs_round : Z;
  proposals : gmap Z Block;
  acks : gmap bytes (gset Z);
  certificates : gmap Z Certificate;
  timed_out : bool
}.

Definition new_round_state (round : Z) : RoundState :=
  {| rs_round := round; proposals := ∅; acks := ∅; certificates := ∅; timed_out := false |}.

(** * protocol.py: [DagBftProtocol] *)
Record DagBftProtocol : Type := {
  p_index : Z;
  p_n : Z;
  p_f : Z;
  p_quorum : Z;
  p_dag : DAGStore;
  p_rounds : gmap Z RoundState;
  p_equivocators : gset Z;
  p_committed_digests : gset bytes;
  p_committed_rounds : gset Z;
  p_current_round : Z
}.

Definition new_protocol (validator_index num_validators : Z) (fault_tolerance : option Z) : DagBftProtocol :=
  let f := default ((num_validators - 1) / 3) fault_tolerance in
  {| p_index := validator_index; p_n := num_validators; p_f := f; p_quorum := 2 * f + 1;
     p_dag := empty_dag; p_rounds := ∅; p_equivocators := ∅; p_committed_digests := ∅;
     p_committed_rounds := ∅; p_current_round := 0 |}.

Definition with_dag (p : DagBftProtocol) (dag : DAGStore) : DagBftProtocol :=
  {| p_index := p_index p; p_n := p_n p; p_f := p_f p; p_quorum := p_quorum p; p_dag := dag;
     p_rounds := p_rounds p; p_equivocators := p_equivocators p;
     p_committed_digests := p_committed_digests p; p_committed_rounds := p_committed_rounds p;
     p_current_round := p_current_round p |}.
Definition with_round (p : DagBftProtocol) (round : Z) (rs : RoundState) : DagBftProtocol :=
  {| p_index := p_index p; p_n := p_n p; p_f := p_f p; p_quorum := p_quorum p; p_dag := p_dag p;
     p_rounds := <[round := rs]> (p_rounds p); p_equivocators := p_equivocators p;
     p_committed_digests := p_committed_digests p; p_committed_rounds := p_committed_rounds p;
     p_current_round := p_current_round p |}.
Definition flag_equivocator (p : DagBftProtocol) (author : Z) : DagBftProtocol :=
  {| p_index := p_index p; p_n := p_n p; p_f := p_f p; p_quorum := p_quorum p; p_dag := p_dag p;
     p_rounds := p_rounds p; p_equivocators := {[author]} ∪ p_equivocators p;
     p_committed_digests := p_committed_digests p; p_committed_rounds := p_committed_rounds p;
     p_current_round := p_current_round p |}.
(** [if round > self._current_round: self._current_round = round] *)
Definition raise_round (p : DagBftProtocol) (round : Z) : DagBftProtocol :=
  {| p_index := p_index p; p_n := p_n p; p_f := p_f p; p_quorum := p_quorum p; p_dag := p_dag p;
     p_rounds := p_rounds p; p_equivocators := p_equivocators p;
     p_committed_digests := p_committed_digests p; p_committed_rounds := p_committed_rounds p;
     p_current_round := if p_current_round p <? round then round else p_current_round p |}.
(** [self._committed_rounds.add(round)] and the digests of the decision. *)
Definition mark_committed (p : DagBftProtocol) (round : Z) (decision : CommitDecision) : DagBftProtocol :=
  {| p_index := p_index p; p_n := p_n p; p_f := p_f p; p_quorum := p_quorum p; p_dag := p_dag p;
     p_rounds := p_rounds p; p_equivocators := p_equivocators p;
     p_committed_digests := list_to_set (map b_digest (committed_blocks decision)) ∪ p_committed_digests p;
     p_committed_rounds := {[round]} ∪ p_committed_rounds p;
     p_current_round := p_current_round p |}.

(** [_get_round_state]: the object is created on first access. *)
Definition get_round_state (p : DagBftProtocol) (round : Z) : RoundState :=
  default (new_round_state round) (p_rounds p !! round).

Definition set_proposal (rs : RoundState) (author : Z) (b : Block) : RoundState :=
  {| rs_round := rs_round rs; proposals := <[author := b]> (proposals rs); acks := acks rs;
     certificates := certificates rs; timed_out := timed_out rs |}.
Definition add_ack (rs : RoundState) (digest : bytes) (signer : Z) : RoundState :=
  {| rs_round := rs_round rs; proposals := proposals rs;
     acks := <[digest := {[signer]} ∪ default ∅ (acks rs !! digest)]> (acks rs);
     certificates := certificates rs; timed_out := timed_out rs |}.
Definition set_certificate (rs : RoundState) (author : Z) (c : Certificate) : RoundState :=
  {| rs_round := rs_round rs; proposals := proposals rs; acks := acks rs;
     certificates := <[author := c]> (certificates rs); timed_out := timed_out rs |}.

(** [round % self._n]; every validator belongs to a set of [n >= 1]. *)
Definition leader_for_round (p : DagBftProtocol) (round : Z) : Z := round mod p_n p.

Definition is_equivocator (p : DagBftProtocol) (author : Z) : bool :=
  bool_decide (author ∈ p_equivocators p).

Definition propose (p : DagBftProtocol) (round : Z) (payload : list bytes) (now_ms : Z) :
  result (Block * DagBftProtocol) :=
  let parents : gset bytes :=
    if round =? 0 then ∅
    else list_to_set (map c_digest (certificates_at_round (p_dag p) (round - 1))) in
  block ← make_block (p_index p) round payload parents now_ms;
  let p := with_dag p (add_block (p_dag p) block).2 in
  let rs := set_proposal (get_round_state p round) (p_index p) block in
  let p := with_round p round (add_ack rs (b_digest block) (p_index p)) in
  Ok (block, raise_round p round).

Definition detect_equivocation (p : DagBftProtocol) (block : Block) : option EquivocationProof :=
  let same := match get_block (p_dag p) (b_digest block) with
              | Some existing => bool_decide (b_digest existing = b_digest block)
              | None => false
              end in
  if same then None
  else
    match List.find (fun b => (b_author b =? b_author block) && negb (bool_decide (b_digest b = b_digest block)))
            (blocks_at_round (p_dag p) (b_round block)) with
    | Some b => Some {| e_author := b_author block; block_a := b; block_b := block; e_round := b_round block |}
    | None => None
    end.

Definition receive_block (p : DagBftProtocol) (block : Block) : option Z * DagBftProtocol :=
  if bool_decide (b_author block ∈ p_equivocators p) then (None, p)
  else
    match detect_equivocation p block with
    | Some _ => (None, flag_equivocator p (b_author block))
    | None =>
        let '(added, dag) := add_block (p_dag p) block in
        if negb added then (None, p)
        else
          let p := with_dag p dag in
          let rs := set_proposal (get_round_state p (b_round block)) (b_author block) block in
          let p := with_round p (b_round block) (add_ack rs (b_digest block) (p_index p)) in
          (Some (p_index p), raise_round p (b_round block))
    end.

Definition receive_ack (p : DagBftProtocol) (block_digest : bytes) (signer : Z) :
  option Certificate * DagBftProtocol :=
  match get_block (p_dag p) block_digest with
  | None => (None, p)
  | Some block =>
      let rs := add_ack (get_round_state p (b_round block)) block_digest signer in
      let signers := default ∅ (acks rs !! block_digest) in
      if (p_quorum p <=? Z.of_nat (size signers)) &&
         bool_decide (certificates rs !! b_author block = None) then
        let cert := {| c_block := block; c_signers := signers |} in
        let p := with_round p (b_round block) (set_certificate rs (b_author block) cert) in
        (Some cert, with_dag p (add_certificate (p_dag p) cert))
      else (None, with_round p (b_round block) rs)
  end.

(** [_try_commit_from] *)
Definition try_commit_from (p : DagBftProtocol) (trigger_round : Z) : option CommitDecision * DagBftProtocol :=
  if 0 <? trigger_round then
    let target_round := trigger_round - 1 in
    if bool_decide (target_round ∈ p_committed_rounds p) then (None, p)
    else
      let leader := leader_for_round p target_round in
      if is_equivocator p leader then (None, p)
      else
        match evaluate_direct_commit (p_dag p) target_round leader (p_quorum p) with
        | Some decision => (Some decision, mark_committed p target_round decision)
        | None => (None, p)
        end
  else (None, p).

Definition receive_certificate (p : DagBftProtocol) (cert : Certificate) : option CommitDecision * DagBftProtocol :=
  let round := b_round (c_block cert) in
  let p := with_round p round (set_certificate (get_round_state p round) (b_author (c_block cert)) cert) in
  let p := with_dag p (add_certificate (p_dag p) cert) in
  try_commit_from (raise_round p round) round.

Definition check_commit (p : DagBftProtocol) (round : Z) : option CommitDecision * DagBftProtocol :=
  if bool_decide (round ∈ p_committed_rounds p) then (None, p)
  else
    let leader := leader_for_round p round in
    if is_equivocator p leader then (None, p)
    else
      match evaluate_direct_commit (p_dag p) round leader (p_quorum p) with
      | Some decision => (Some decision, mark_committed p round decision)
      | None =>
          match evaluate_indirect_commit (p_dag p) round leader (p_committed_rounds p) with
          | Some decision => (Some decision, mark_committed p round decision)
          | None => (None, p)
          end
      end.

Definition skip_round (p : DagBftProtocol) (round : Z) : DagBftProtocol :=
  let rs := get_round_state p round in
  with_round p round {| rs_round := rs_round rs; proposals := proposals rs; acks := acks rs;
                        certificates := certificates rs; timed_out := true |}.

(** * The system of validators *)
Section System.
Context (n quorum : Z) (byz : gset Z).

(** The validators' states, and what has been sent, seen and decided so far. *)
Record system : Type := {
  nodes : list DagBftProtocol;
  sent_acks : list (Z * bytes);
  sent_certs : list Certificate;
  seen : list Block;
  decided : list (Z * CommitDecision)
}.

Definition initial (fault_tolerance : option Z) : system :=
  {| nodes := map (fun i => new_protocol (Z.of_nat i) n fault_tolerance) (seq 0 (Z.to_nat n));
     sent_acks := []; sent_certs := []; seen := []; decided := [] |}.

(** Assembled from acknowledgements that exist. *)
Definition assembled (s : system) (c : Certificate) : Prop :=
  quorum <= Z.of_nat (size (c_signers c)) /\
  forall w, w ∈ c_signers c -> 0 <= w < n /\ (w ∈ byz \/ (w, c_digest c) ∈ sent_acks s).

Definition set_node (s : system) (v : nat) (p : DagBftProtocol) : list DagBftProtocol :=
  <[v := p]> (nodes s).

Inductive sys_step (s : system) : system -> Prop :=
| step_propose v p round payload now_ms b p' :
    nodes s !! v = Some p -> Z.of_nat v ∉ byz ->
    propose p round payload now_ms = Ok (b, p') ->
    sys_step s {| nodes := set_node s v p'; sent_acks := sent_acks s; sent_certs := sent_certs s;
                  seen := b :: seen s; decided := decided s |}
| step_block v p b a p' :
    nodes s !! v = Some p -> Z.of_nat v ∉ byz -> wf_block b ->
    receive_block p b = (a, p') ->
    sys_step s {| nodes := set_node s v p';
                  sent_acks := map (fun w => (w, b_digest b)) (option_list a) ++ sent_acks s;
                  sent_certs := sent_certs s; seen := b :: seen s; decided := decided s |}
| step_ack v p d w c p' :
    nodes s !! v = Some p -> Z.of_nat v ∉ byz ->
    (w, d) ∈ sent_acks s \/ (w ∈ byz /\ 0 <= w < n) ->
    receive_ack p d w = (c, p') ->
    sys_step s {| nodes := set_node s v p'; sent_acks := sent_acks s;
                  sent_certs := option_list c ++ sent_certs s; seen := seen s; decided := decided s |}
| step_cert v p c d p' :
    nodes s !! v = Some p -> Z.of_nat v ∉ byz ->
    c ∈ sent_certs s \/ (wf_block (c_block c) /\ assembled s c) ->
    receive_certificate p c = (d, p') ->
    sys_step s {| nodes := set_node s v p'; sent_acks := sent_acks s; sent_certs := sent_certs s;
                  seen := c_block c :: seen s;
                  decided := map (pair (Z.of_nat v)) (option_list d) ++ decided s |}
| step_check v p round d p' :
    nodes s !! v = Some p -> Z.of_nat v ∉ byz ->
    check_commit p round = (d, p') ->
    sys_step s {| nodes := set_node s v p'; sent_acks := sent_acks s; sent_certs := sent_certs s;
                  seen := seen s;
                  decided := map (pair (Z.of_nat v)) (option_list d) ++ decided s |}
| step_skip v p round :
    nodes s !! v = Some p -> Z.of_nat v ∉ byz ->
    sys_step s {| nodes := set_node s v (skip_round p round); sent_acks := sent_acks s;
                  sent_certs := sent_certs s; seen := seen s; decided := decided s |}.

Inductive reachable (f : option Z) : system -> Prop :=
| reach_initial : reachable f (initial f)
| reach_step s s' : reachable f s -> sys_step s s' -> reachable f s'.

(** Executions can be evaluated: the steps with their guards decided. *)
Inductive event : Type :=
| EvPropose (v : nat) (round : Z) (payload : list bytes) (now_ms : Z)
| EvBlock (v : nat) (b : Block)
| EvAck (v : nat) (d : bytes) (w : Z)
| EvCert (v : nat) (c : Certificate).

Definition acting (s : system) (v : nat) : option DagBftProtocol :=
  if bool_decide (Z.of_nat v ∈ byz) then None else nodes s !! v.

Definition exec (s : system) (ev : event) : option system :=
  match ev with
  | EvPropose v round payload now_ms =>
      p ← acting s v;
      match propose p round payload now_ms with
      | Err _ => None
      | Ok (b, p') => Some {| nodes := set_node s v p'; sent_acks := sent_acks s; sent_certs := sent_certs s;
                              seen := b :: seen s; decided := decided s |}
      end
  | EvBlock v b =>
      p ← acting s v;
      if bool_decide (compute_block_digest (b_author b) (b_round b) (b_payload b) (b_parents b) = Ok (b_digest b))
      then let '(a, p') := receive_block p b in
           Some {| nodes := set_node s v p';
                   sent_acks := map (fun w => (w, b_digest b)) (option_list a) ++ sent_acks s;
                   sent_certs := sent_certs s; seen := b :: seen s; decided := decided s |}
      else None
  | EvAck v d w =>
      p ← acting s v;
      if bool_decide ((w, d) ∈ sent_acks s) || (bool_decide (w ∈ byz) && (0 <=? w) && (w <? n))
      then let '(c, p') := receive_ack p d w in
           Some {| nodes := set_node s v p'; sent_acks := sent_acks s;
                   sent_certs := option_list c ++ sent_certs s; seen := seen s; decided := decided s |}
      else None
  | EvCert v c =>
      p ← acting s v;
      if bool_decide (c ∈ sent_certs s)
      then let '(d, p') := receive_certificate p c in
           Some {| nodes := set_node s v p'; sent_acks := sent_acks s; sent_certs := sent_certs s;
                   seen := c_block c :: seen s;
                   decided := map (pair (Z.of_nat v)) (option_list d) ++ decided s |}
      else None
  end.

Fixpoint exec_all (s : system) (evs : list event) : option system :=
  match evs with
  | [] => Some s
  | ev :: evs => s' ← exec s ev; exec_all s' evs
  end.

(** A decision whose history names no block outside it. *)
Definition closed_history (d : CommitDecision) : Prop :=
  c_digest (leader_certificate d) ∈ map b_digest (committed_blocks d) /\
  forall b p, b ∈ committed_blocks d -> p ∈ b_parents b -> p ∈ map b_digest (committed_blocks d).

Lemma exec_step s ev s' : exec s ev = Some s' -> sys_step s s'.
Proof.
  assert (forall v p, acting s v = Some p -> nodes s !! v = Some p /\ Z.of_nat v ∉ byz) as Hact.
  { intros v p. unfold acting. by case_bool_decide. }
  destruct ev; simpl; intros (p & Hp & E)%bind_Some; apply Hact in Hp as [Hv Hb].
  - destruct (propose p _ _ _) as [[b p']|] eqn:Ep; [|done]. injection E as <-. by eapply step_propose.
  - case_bool_decide; [|done]. destruct (receive_block p b) as [a p'] eqn:Ep. injection E as <-. by eapply step_block.
  - destruct (_ || _) eqn:Eg; [|done]. destruct (receive_ack p d w) as [c p'] eqn:Ep. injection E as <-.
    eapply step_ack; try done. apply orb_true_iff in Eg as [?|?]; breflect; auto.
  - case_bool_decide; [|done]. destruct (receive_certificate p c) as [d p'] eqn:Ep. injection E as <-.
    eapply step_cert; try done. by left.
Qed.

Lemma exec_all_reachable f s evs s' : reachable f s -> exec_all s evs = Some s' -> reachable f s'.
Proof.
  revert s. induction evs as [|ev evs IH]; intros s Hr E; simpl in E; [by simplify_eq|].
  apply bind_Some in E as (s1 & E1 & E2). eapply IH; [|done]. eapply reach_step; [done|]. by eapply exec_step.
Qed.

(** * Invariants *)

(** Validator [w] has stored a block with digest [d]. *)
Definition supports (ns : list DagBftProtocol) (w : Z) (d : bytes) : Prop :=
  exists v p, w = Z.of_nat v /\ ns !! v = Some p /\ is_Some (get_block (p_dag p) d).

Definition backed (ns : list DagBftProtocol) (c : Certificate) : Prop :=
  quorum <= Z.of_nat (size (c_signers c)) /\
  forall w, w ∈ c_signers c -> 0 <= w < n /\ (w ∈ byz \/ supports ns w (c_digest c)).

(** A validator acknowledged its own proposal [d], but its slot was taken. *)
Definition orphan (sn : list Block) (p : DagBftProtocol) (d : bytes) : Prop :=
  exists bo b', bo ∈ sn /\ b_digest bo = d /\
    at_round (blocks_by_round (p_dag p)) (b_round bo) !! b_author bo = Some b' /\ b_digest b' <> d.

Definition ack_ok ns sn p (d : bytes) (w : Z) : Prop :=
  0 <= w < n /\ (w ∈ byz \/ supports ns w d \/ orphan sn p d).

Record node_inv (ns : list DagBftProtocol) (sn : list Block) (p : DagBftProtocol) : Prop := {
  ni_index : 0 <= p_index p < n;
  ni_config : p_n p = n /\ p_quorum p = quorum;
  ni_dag : dag_ok (p_dag p);
  ni_blocks d b : get_block (p_dag p) d = Some b -> b ∈ sn;
  ni_certs r a c : at_round (certs_by_round (p_dag p)) r !! a = Some c -> c_block c ∈ sn /\ backed ns c;
  ni_acks r d S w : acks (get_round_state p r) !! d = Some S -> w ∈ S -> ack_ok ns sn p d w
}.

(** Stores only grow. *)
Record extends (p p' : DagBftProtocol) : Prop := {
  ex_index : p_index p' = p_index p;
  ex_get d : is_Some (get_block (p_dag p) d) -> is_Some (get_block (p_dag p') d);
  ex_slot r a b : at_round (blocks_by_round (p_dag p)) r !! a = Some b ->
    at_round (blocks_by_round (p_dag p')) r !! a = Some b;
  ex_committed : p_committed_rounds p ⊆ p_committed_rounds p'
}.

Lemma extends_same p p' : p_index p' = p_index p -> p_dag p' = p_dag p ->
  p_committed_rounds p ⊆ p_committed_rounds p' -> extends p p'.
Proof. intros Hi Hd Hc. split; [done|by rewrite Hd..|done]. Qed.

#[local] Instance extends_preorder : PreOrder extends.
Proof.
  split; [intros p; by apply extends_same|].
  intros p q r [I1 G1 S1 C1] [I2 G2 S2 C2]. split; [congruence|auto..|by etrans].
Qed.

Lemma extends_add_block p b : extends p (with_dag p (add_block (p_dag p) b).2).
Proof.
  unfold add_block. destruct (at_round _ _ !! _) eqn:E; simpl; [by apply extends_same|].
  split; simpl; [done| | |done].
  - intros d Hd. unfold get_block; simpl. rewrite lookup_insert_is_Some'. by right.
  - intros r a b' Hb. rewrite at_round_insert. destruct (decide _) as [[<- <-]|]; [congruence|done].
Qed.

Lemma extends_add_certificate p c : extends p (with_dag p (add_certificate (p_dag p) c)).
Proof. by split. Qed.

Lemma orphan_mono sn sn' p p' d : extends p p' -> sn ⊆ sn' -> orphan sn p d -> orphan sn' p' d.
Proof. intros [_ _ Hs _] Hsub (bo & b' & ? & ? & ? & ?). exists bo, b'. split_and!; auto. Qed.

(** ** Steps of one validator *)
Section Node.
Context (ns : list DagBftProtocol) (sn : list Block).

Lemma node_inv_round p r rs : node_inv ns sn p ->
  (forall d S w, acks rs !! d = Some S -> w ∈ S -> ack_ok ns sn p d w) ->
  node_inv ns sn (with_round p r rs).
Proof.
  intros [H1 H2 H3 H4 H5 H6] Hrs. split; try done.
  intros r' d S w. unfold get_round_state. simpl. destruct (decide (r = r')) as [<-|Hne].
  - rewrite lookup_insert_eq. apply Hrs.
  - rewrite lookup_insert_ne by done. apply H6.
Qed.

(** Adding one acknowledgement to a round that was fine. *)
Lemma add_ack_ok p r rs d w : node_inv ns sn p -> acks rs = acks (get_round_state p r) ->
  ack_ok ns sn p d w -> forall d' S w', acks (add_ack rs d w) !! d' = Some S -> w' ∈ S -> ack_ok ns sn p d' w'.
Proof.
  intros Hp Hrs Hw d' S w'. unfold add_ack. simpl. rewrite Hrs.
  destruct (decide (d = d')) as [<-|Hne]; [|rewrite lookup_insert_ne by done; apply Hp].
  rewrite lookup_insert_eq. intros [= <-] [->%elem_of_singleton|Hin]%elem_of_union; [done|].
  destruct (acks (get_round_state p r) !! d) as [S|] eqn:E; simpl in Hin; [by eapply ni_acks|set_solver].
Qed.

Lemma node_inv_add_block p b : node_inv ns sn p -> b ∈ sn ->
  node_inv ns sn (with_dag p (add_block (p_dag p) b).2).
Proof.
  intros [H1 H2 H3 H4 H5 H6] Hb. pose proof (extends_add_block p b) as Hex. split; try done.
  - by apply add_block_ok.
  - unfold add_block. destruct (at_round _ _ !! _); simpl; [done|]. unfold get_block; simpl.
    intros d b'. destruct (decide (b_digest b = d)) as [<-|Hne].
    + rewrite lookup_insert_eq. by intros [= <-].
    + rewrite lookup_insert_ne by done. apply H4.
  - unfold add_block. by destruct (at_round _ _ !! _).
  - intros r d S w Ha Hw. destruct (H6 r d S w Ha Hw) as [? Hor]. split; [done|].
    destruct Hor as [?|[?|?]]; eauto using orphan_mono.
Qed.

Lemma node_inv_add_certificate p c : node_inv ns sn p -> c_block c ∈ sn -> backed ns c ->
  node_inv ns sn (with_dag p (add_certificate (p_dag p) c)).
Proof.
  intros [H1 H2 H3 H4 H5 H6] Hb Hc. split; try done; [by apply add_certificate_ok|].
  simpl. intros r a c'. rewrite at_round_insert. destruct (decide _) as [[<- <-]|]; [by intros [= <-]|apply H5].
Qed.

Lemma node_inv_same p p' : p_index p' = p_index p -> p_n p' = p_n p -> p_quorum p' = p_quorum p ->
  p_dag p' = p_dag p -> p_rounds p' = p_rounds p -> node_inv ns sn p -> node_inv ns sn p'.
Proof.
  intros Ei En Eq Ed Er [H1 H2 H3 H4 H5 H6]. split; rewrite ?Ei, ?En, ?Eq, ?Ed; try done.
  unfold get_round_state, ack_ok, orphan in *. rewrite Er, Ed. done.
Qed.

Lemma node_inv_raise p r : node_inv ns sn p -> node_inv ns sn (raise_round p r).
Proof. by apply node_inv_same. Qed.

(** What the node stores is what it supports. *)
Definition self_support (p p' : DagBftProtocol) : Prop :=
  forall d, is_Some (get_block (p_dag p') d) -> supports ns (p_index p) d.

Lemma stored_or_orphan p b : node_inv ns sn p -> b ∈ sn ->
  let p' := with_dag p (add_block (p_dag p) b).2 in
  is_Some (get_block (p_dag p') (b_digest b)) \/ orphan sn p' (b_digest b).
Proof.
  intros Hp Hb. unfold add_block. destruct (at_round _ _ !! _) as [b'|] eqn:E; simpl.
  - destruct (decide (b_digest b' = b_digest b)) as [Ed|Hne].
    + left. apply (ok_slot _ (ni_dag _ _ _ Hp)) in E as (_ & _ & Hs). by rewrite <- Ed.
    + right. exists b, b'. done.
  - left. unfold get_block; simpl. by rewrite lookup_insert_eq.
Qed.

(** Storing a block, recording it as a proposal and acknowledging it. *)
Lemma store_ack_inv p b r a : node_inv ns sn p -> b ∈ sn ->
  self_support p (with_dag p (add_block (p_dag p) b).2) ->
  let p1 := with_dag p (add_block (p_dag p) b).2 in
  let rs := set_proposal (get_round_state p1 r) a b in
  node_inv ns sn (with_round p1 r (add_ack rs (b_digest b) (p_index p1))).
Proof.
  intros Hp Hb Hself p1 rs.
  assert (node_inv ns sn p1) as Hp1 by (by apply node_inv_add_block).
  apply node_inv_round; [done|]. eapply add_ack_ok; [exact Hp1|reflexivity|].
  split; [apply Hp1|]. right. destruct (stored_or_orphan p b Hp Hb); [left; by apply Hself|by right].
Qed.

Lemma propose_inv p round payload t b p' : node_inv ns sn p ->
  propose p round payload t = Ok (b, p') -> b ∈ sn -> self_support p p' -> node_inv ns sn p'.
Proof.
  intros Hp E Hb Hself. unfold propose, mbind, result_bind in E.
  destruct (make_block _ _ _ _ _) as [b'|]; [|done]. simplify_eq/=.
  apply node_inv_raise. by apply (store_ack_inv p b round (p_index p)).
Qed.

Lemma receive_block_inv p b a p' : node_inv ns sn p ->
  receive_block p b = (a, p') -> b ∈ sn -> self_support p p' -> node_inv ns sn p'.
Proof.
  intros Hp E Hb Hself. unfold receive_block in E. destruct (bool_decide _); [by simplify_eq|].
  destruct (detect_equivocation p b); [simplify_eq; by apply (node_inv_same p)|].
  destruct (add_block (p_dag p) b) as [added dag] eqn:Ea. destruct added; simplify_eq/=; [|done].
  change dag with (true, dag).2. rewrite <- Ea. apply node_inv_raise.
  apply store_ack_inv; [done..|]. by rewrite Ea.
Qed.

Section Collisions.
Context (wf_seen : Forall wf_block sn) (nocoll : collision_free (map preimage_of sn)).

Lemma seen_binds b1 b2 : b1 ∈ sn -> b2 ∈ sn -> b_digest b1 = b_digest b2 ->
  b_author b1 = b_author b2 /\ b_round b1 = b_round b2 /\ b_payload b1 ≡ₚ b_payload b2 /\ b_parents b1 = b_parents b2.
Proof.
  intros H1 H2. rewrite Forall_forall in wf_seen. apply digest_binds; [by apply wf_seen..|].
  eapply collision_free_sub; [|exact nocoll]. intros x. rewrite elem_of_map. set_solver.
Qed.

Lemma not_orphan p d b : node_inv ns sn p -> get_block (p_dag p) d = Some b -> orphan sn p d -> False.
Proof.
  intros Hp Hg (bo & b' & Hbo & Ed & Hs & Hne).
  pose proof (ok_digest _ (ni_dag _ _ _ Hp) _ _ Hg) as [Eb Hslot].
  destruct (seen_binds bo b Hbo) as (Ea & Er & _); [by eapply ni_blocks|congruence|].
  rewrite Ea, Er, Hslot in Hs. by simplify_eq.
Qed.

Lemma receive_ack_inv p d w c p' : node_inv ns sn p -> receive_ack p d w = (c, p') ->
  0 <= w < n -> w ∈ byz \/ supports ns w d ->
  node_inv ns sn p' /\ (forall cert, c = Some cert -> c_block cert ∈ sn /\ backed ns cert).
Proof.
  intros Hp E Hw Hsup. unfold receive_ack in E.
  destruct (get_block (p_dag p) d) as [b|] eqn:Eg; [|by simplify_eq].
  set (rs := add_ack _ d w) in *.
  assert (forall d' S w', acks rs !! d' = Some S -> w' ∈ S -> ack_ok ns sn p d' w') as Hrs.
  { eapply add_ack_ok; [done|reflexivity|]. split; [done|]. tauto. }
  destruct (_ && _) eqn:Ec; simplify_eq/=; [|split; [by apply node_inv_round|done]].
  apply andb_true_iff in Ec as [Hq _]. apply Z.leb_le in Hq.
  destruct (ok_digest _ (ni_dag _ _ _ Hp) _ _ Eg) as [Ed _].
  set (cert := {| c_block := b; c_signers := _ |}) in *.
  assert (c_block cert ∈ sn /\ backed ns cert) as [Hb Hbk].
  { split; [by eapply ni_blocks|]. destruct (ni_config _ _ _ Hp) as [_ Eq]. split; [by rewrite <- Eq|].
    simpl. intros w' Hw'. unfold c_digest; simpl. rewrite Ed.
    rewrite lookup_insert_eq in Hw'. simpl in Hw'.
    destruct (Hrs d _ w' (lookup_insert_eq _ _ _) Hw') as [? [?|[?|Ho]]]; [by auto..|].
    exfalso. by eapply not_orphan. }
  split; [|by intros ? [= <-]]. apply (node_inv_add_certificate (with_round p (b_round b) (set_certificate rs (b_author b) cert))); [|done..].
  by apply node_inv_round.
Qed.

End Collisions.

(** ** Decisions *)
Definition decision_ok (dec : CommitDecision) : Prop :=
  let c := leader_certificate dec in
  c_block c ∈ sn /\ backed ns c /\ b_round (c_block c) = d_round dec /\
  b_author (c_block c) = d_round dec mod n /\
  exists dag, dag_ok dag /\ (forall d b, get_block dag d = Some b -> b ∈ sn) /\
    committed_blocks dec = collect_causal_history dag c ∅.

Definition commits dag round leader dec : Prop :=
  exists c, get_certificate dag leader round = Some c /\
    dec = {| leader_certificate := c; committed_blocks := collect_causal_history dag c ∅; d_round := round |}.

Lemma direct_commits dag round leader q dec :
  evaluate_direct_commit dag round leader q = Some dec -> commits dag round leader dec.
Proof.
  unfold evaluate_direct_commit, commits. destruct (get_certificate _ _ _) as [c|]; [|done].
  destruct (_ <? _); [done|]. intros [= <-]. eauto.
Qed.

Lemma indirect_commits dag round leader rounds dec :
  evaluate_indirect_commit dag round leader rounds = Some dec -> commits dag round leader dec.
Proof.
  unfold evaluate_indirect_commit, commits. destruct (bool_decide _); [done|].
  destruct (get_certificate _ _ _) as [c|]; [|done]. generalize (sort_by Z.leb (elements rounds)) as l.
  induction l as [|r l IH]; simpl; [done|]. destruct (r <=? round); [done|].
  destruct (get_certificate _ _ _) as [c'|]; [|done]. destruct (bool_decide _); [|done].
  intros [= <-]. eauto.
Qed.

Lemma commits_ok p round dec : node_inv ns sn p ->
  commits (p_dag p) round (leader_for_round p round) dec -> decision_ok dec /\ d_round dec = round.
Proof.
  intros Hp (c & Hc & ->). unfold get_certificate, leader_for_round in Hc.
  destruct (ni_config _ _ _ Hp) as [En _]. rewrite En in Hc.
  pose proof (ni_certs _ _ _ Hp _ _ _ Hc) as [? ?].
  pose proof (ok_cert _ (ni_dag _ _ _ Hp) _ _ _ Hc) as [Er Ea].
  split; [|done]. unfold decision_ok; simpl. split_and!; [done..|].
  exists (p_dag p). split_and!; [apply Hp| |done]. apply Hp.
Qed.

(** A commit attempt: the decision, if any, is for an undecided round. *)
Lemma try_commit_inv p r d p' : node_inv ns sn p -> try_commit_from p r = (d, p') ->
  node_inv ns sn p' /\ extends p p' /\
  forall dec, d = Some dec -> decision_ok dec /\ d_round dec ∉ p_committed_rounds p /\ d_round dec ∈ p_committed_rounds p'.
Proof.
  intros Hp. unfold try_commit_from. destruct (0 <? r); [|by intros [= <- <-]].
  destruct (bool_decide _) eqn:Ec; [by intros [= <- <-]|]. apply bool_decide_eq_false in Ec.
  destruct (is_equivocator _ _); [by intros [= <- <-]|].
  destruct (evaluate_direct_commit _ _ _ _) as [dec|] eqn:Ed; intros [= <- <-]; [|done].
  apply direct_commits, commits_ok in Ed as [? Er]; [|done].
  split_and!; [by apply (node_inv_same p)|apply extends_same; [done..|set_solver]|].
  intros ? [= <-]. rewrite Er. simpl. set_solver.
Qed.

Lemma check_commit_inv p r d p' : node_inv ns sn p -> check_commit p r = (d, p') ->
  node_inv ns sn p' /\ extends p p' /\
  forall dec, d = Some dec -> decision_ok dec /\ d_round dec ∉ p_committed_rounds p /\ d_round dec ∈ p_committed_rounds p'.
Proof.
  intros Hp. unfold check_commit. destruct (bool_decide _) eqn:Ec; [by intros [= <- <-]|].
  apply bool_decide_eq_false in Ec. destruct (is_equivocator _ _); [by intros [= <- <-]|].
  assert (forall dec, commits (p_dag p) r (leader_for_round p r) dec ->
    node_inv ns sn (mark_committed p r dec) /\ extends p (mark_committed p r dec) /\
    (decision_ok dec /\ d_round dec ∉ p_committed_rounds p /\
     d_round dec ∈ p_committed_rounds (mark_committed p r dec))) as Hm.
  { intros dec [? Er]%commits_ok; [|done]. split_and!; try done;
      [by apply (node_inv_same p)|apply extends_same; [done..|set_solver]|by rewrite Er|rewrite Er; simpl; set_solver]. }
  destruct (evaluate_direct_commit _ _ _ _) as [dec|] eqn:Ed; [intros [= <- <-]|].
  { destruct (Hm dec (direct_commits _ _ _ _ _ Ed)) as (? & ? & ?). split_and!; [done..|]. by intros ? [= <-]. }
  destruct (evaluate_indirect_commit _ _ _ _) as [dec|] eqn:Ei; intros [= <- <-]; [|done].
  destruct (Hm dec (indirect_commits _ _ _ _ _ Ei)) as (? & ? & ?). split_and!; [done..|]. by intros ? [= <-].
Qed.
End Node.

(** ** Steps of the system *)
Record system_inv (s : system) : Prop := {
  si_length : length (nodes s) = Z.to_nat n;
  si_nodes v p : nodes s !! v = Some p -> node_inv (nodes s) (seen s) p /\ p_index p = Z.of_nat v;
  si_seen : Forall wf_block (seen s);
  si_acks w d : (w, d) ∈ sent_acks s -> supports (nodes s) w d;
  si_certs c : c ∈ sent_certs s -> c_block c ∈ seen s /\ backed (nodes s) c;
  si_decided w d : (w, d) ∈ decided s -> decision_ok (nodes s) (seen s) d /\
    exists v p, w = Z.of_nat v /\ nodes s !! v = Some p /\ d_round d ∈ p_committed_rounds p;
  si_once : NoDup (map (fun wd => (wd.1, d_round wd.2)) (decided s))
}.

Lemma supports_mono s v p p' w d : nodes s !! v = Some p -> extends p p' ->
  supports (nodes s) w d -> supports (set_node s v p') w d.
Proof.
  intros Hv Hex (u & q & -> & Hu & Hd). unfold supports, set_node.
  destruct (decide (u = v)) as [->|Hne].
  - exists v, p'. simplify_eq. split_and!; [done| |by apply (ex_get _ _ Hex)].
    apply list_lookup_insert_eq. by eapply lookup_lt_Some.
  - exists u, q. by rewrite list_lookup_insert_ne.
Qed.

Lemma backed_mono ns ns' c : (forall w d, supports ns w d -> supports ns' w d) -> backed ns c -> backed ns' c.
Proof. intros Hs [Hq Hw]. split; [done|]. intros w Hin. destruct (Hw w Hin) as [? [?|?]]; auto. Qed.

Lemma node_inv_mono ns ns' sn sn' p : (forall w d, supports ns w d -> supports ns' w d) -> sn ⊆ sn' ->
  node_inv ns sn p -> node_inv ns' sn' p.
Proof.
  intros Hs Hsub [H1 H2 H3 H4 H5 H6]. split; try done.
  - intros d b Hb. apply Hsub. by eapply H4.
  - intros r a c Hc. destruct (H5 r a c Hc). split; [by apply Hsub|by eapply backed_mono].
  - intros r d S w Ha Hw. destruct (H6 r d S w Ha Hw) as [? [?|[?|?]]]; split; auto.
    right; right. eapply orphan_mono; [reflexivity|done..].
Qed.

Lemma decision_ok_mono ns ns' sn sn' d : (forall w d, supports ns w d -> supports ns' w d) -> sn ⊆ sn' ->
  decision_ok ns sn d -> decision_ok ns' sn' d.
Proof.
  intros Hs Hsub (H1 & H2 & H3 & H4 & dag & H5 & H6 & H7). unfold decision_ok.
  split_and!; [by apply Hsub|by eapply backed_mono|done..|]. exists dag. split_and!; [done| |done].
  intros d' b Hb. by eapply Hsub, H6.
Qed.

(** The parts of the invariant that a step of node [v] has to re-establish. *)
Lemma system_update_inv s v p p' acks' certs' seen' decided' :
  system_inv s -> nodes s !! v = Some p -> extends p p' ->
  let ns := set_node s v p' in let sn := seen' ++ seen s in
  node_inv ns sn p' -> Forall wf_block seen' ->
  (forall w d, (w, d) ∈ acks' -> supports ns w d) ->
  (forall c, c ∈ certs' -> c_block c ∈ sn /\ backed ns c) ->
  (forall d, d ∈ option_list decided' -> decision_ok ns sn d /\
     d_round d ∉ p_committed_rounds p /\ d_round d ∈ p_committed_rounds p') ->
  system_inv {| nodes := ns; sent_acks := acks' ++ sent_acks s; sent_certs := certs' ++ sent_certs s;
                seen := sn; decided := map (pair (Z.of_nat v)) (option_list decided') ++ decided s |}.
Proof.
  intros [I1 I2 I3 I4 I5 I6 I7] Hv Hex ns sn Hp' Hwf Ha Hc Hd.
  pose proof (fun w d => supports_mono s v p p' w d Hv Hex) as Hmono.
  assert (seen s ⊆ sn) as Hsub by (intros b Hb; apply elem_of_app; by right).
  assert (ns !! v = Some p') as Hv' by (apply list_lookup_insert_eq; by eapply lookup_lt_Some).
  split; simpl.
  - unfold ns, set_node. by rewrite length_insert.
  - intros u q Hu. destruct (decide (u = v)) as [->|Hne].
    + simplify_eq. split; [done|]. rewrite (ex_index _ _ Hex). by apply I2.
    + unfold ns, set_node in Hu. rewrite list_lookup_insert_ne in Hu by done.
      destruct (I2 u q Hu). split; [by eapply node_inv_mono|done].
  - apply Forall_app; done.
  - intros w d [?|?]%elem_of_app; auto.
  - intros c [?|Hin]%elem_of_app; [auto|]. destruct (I5 c Hin). split; [by apply Hsub|by eapply backed_mono].
  - intros w d [(d' & [= -> ->] & Hin)%elem_of_map|Hin]%elem_of_app.
    + destruct (Hd d' Hin) as (? & _ & ?). split; [done|]. by exists v, p'.
    + destruct (I6 w d Hin) as [Hok (u & q & -> & Hu & Hr)]. split; [by eapply decision_ok_mono|].
      destruct (decide (u = v)) as [->|Hne].
      * exists v, p'. simplify_eq. split_and!; [done..|by apply (ex_committed _ _ Hex)].
      * exists u, q. split_and!; [done| |done]. unfold ns, set_node. by rewrite list_lookup_insert_ne.
  - destruct decided' as [d|]; simpl; [|done]. constructor; [|done].
    intros ([w d'] & [= Ew Er] & Hin)%elem_of_map. simpl in *. destruct (Hd d) as (_ & Hn & _); [by left|].
    destruct (I6 w d' Hin) as [_ (u & q & -> & Hu & Hr)]. apply Nat2Z.inj in Ew as <-. simplify_eq.
    apply Hn. by rewrite Er.
Qed.

Lemma propose_extends p round payload t b p' : propose p round payload t = Ok (b, p') ->
  extends p p' /\ wf_block b.
Proof.
  unfold propose, make_block, mbind, result_bind.
  destruct (compute_block_digest _ _ _ _) as [d|] eqn:E; [|done]. intros [= <- <-]. split; [|done].
  etrans; [apply extends_add_block|]. by apply extends_same.
Qed.

Lemma receive_block_extends p b a p' : receive_block p b = (a, p') ->
  extends p p' /\ (forall w, a = Some w -> w = p_index p /\ is_Some (get_block (p_dag p') (b_digest b))).
Proof.
  unfold receive_block. destruct (bool_decide _); [by intros [= <- <-]|].
  destruct (detect_equivocation p b); [intros [= <- <-]; split; [by apply extends_same|done]|].
  pose proof (extends_add_block p b) as Hex. unfold add_block in *.
  destruct (at_round _ _ !! _) as [b'|]; simpl in *; [by intros [= <- <-]|]. intros [= <- <-].
  split; [etrans; [exact Hex|by apply extends_same]|]. intros ? [= <-]. split; [done|].
  unfold get_block; simpl. by rewrite lookup_insert_eq.
Qed.

Lemma receive_ack_extends p d w c p' : receive_ack p d w = (c, p') -> extends p p'.
Proof.
  unfold receive_ack. destruct (get_block (p_dag p) d) as [b|]; [|by intros [= <- <-]].
  destruct (_ && _); intros [= <- <-]; by split.
Qed.

(** Steps preserve the invariant, as long as the digests of the blocks seen
    do not collide. *)
Lemma self_support_set s v p p' : nodes s !! v = Some p -> p_index p = Z.of_nat v ->
  self_support (set_node s v p') p p'.
Proof.
  intros Hv Hi d Hd. exists v, p'. split_and!; [done| |done].
  apply list_lookup_insert_eq. by eapply lookup_lt_Some.
Qed.

Lemma step_node_inv s v p p' sn' : system_inv s -> nodes s !! v = Some p -> extends p p' ->
  node_inv (set_node s v p') (sn' ++ seen s) p.
Proof.
  intros Hs Hv Hex. eapply node_inv_mono; [..|by apply (si_nodes _ Hs v p Hv)].
  - intros w d. by apply supports_mono with p.
  - intros b Hb. apply elem_of_app. by right.
Qed.

Lemma receive_certificate_inv ns sn p c d p' : node_inv ns sn p -> c_block c ∈ sn -> backed ns c ->
  receive_certificate p c = (d, p') ->
  node_inv ns sn p' /\ extends p p' /\
  forall dec, d = Some dec -> decision_ok ns sn dec /\ d_round dec ∉ p_committed_rounds p /\ d_round dec ∈ p_committed_rounds p'.
Proof.
  intros Hp Hb Hc. unfold receive_certificate. set (p1 := raise_round _ _).
  assert (node_inv ns sn p1) as Hp1.
  { apply node_inv_raise, node_inv_add_certificate; [|done..]. apply node_inv_round; [done|]. simpl. apply Hp. }
  intros E. destruct (try_commit_inv ns sn _ _ _ _ Hp1 E) as (? & ? & ?). split_and!; [done| |done].
  etrans; [|done]. by split.
Qed.

Lemma receive_certificate_extends p c d p' : receive_certificate p c = (d, p') -> extends p p'.
Proof.
  unfold receive_certificate, try_commit_from. set (p1 := raise_round _ _). intros E.
  assert (extends p p1) as Hex by (by split). etrans; [exact Hex|]. clearbody p1. clear Hex.
  repeat case_match; simplify_eq; try done. apply extends_same; [done..|set_solver].
Qed.

Lemma check_commit_extends p r d p' : check_commit p r = (d, p') -> extends p p'.
Proof.
  unfold check_commit. intros E. repeat case_match; simplify_eq; try done;
    (apply extends_same; [done..|set_solver]).
Qed.

Lemma step_inv s s' : system_inv s -> collision_free (map preimage_of (seen s')) ->
  sys_step s s' -> system_inv s'.
Proof.
  intros Hs Hc Hstep. pose proof (si_nodes _ Hs) as Hn.
  destruct Hstep as [v p round payload t b p' Hv _ E | v p b a p' Hv _ Hb E | v p d w c p' Hv _ Hw E
                    | v p c d p' Hv _ Hcert E | v p r d p' Hv _ E | v p r Hv _]; simpl in Hc.
  - destruct (propose_extends _ _ _ _ _ _ E) as [Hex Hb].
    apply (system_update_inv s v p p' [] [] [b] None); try done; [|repeat constructor; done|set_solver..].
    eapply propose_inv; [by apply step_node_inv|exact E|set_solver|apply self_support_set; [done|by apply Hn]].
  - destruct (receive_block_extends _ _ _ _ E) as [Hex Ha].
    apply (system_update_inv s v p p' _ [] [b] None); try done; [|by repeat constructor| |set_solver..].
    + eapply receive_block_inv; [by apply step_node_inv|exact E|set_solver|apply self_support_set; [done|by apply Hn]].
    + intros w d' (w' & [= -> ->] & Hin)%elem_of_map. destruct a as [a|]; [|by apply not_elem_of_nil in Hin].
      apply list_elem_of_singleton in Hin as ->. destruct (Ha a eq_refl) as [-> Hd].
      apply (self_support_set s v p p'); [done|by apply Hn|done].
  - pose proof (receive_ack_extends _ _ _ _ _ E) as Hex.
    destruct (receive_ack_inv (set_node s v p') (seen s) (si_seen _ Hs) Hc p d w c p') as [Hp' Hcs];
      [by apply (step_node_inv s v p p' [])|exact E| | |].
    + destruct Hw as [Hw|[_ Hw]]; [|done]. destruct (si_acks _ Hs _ _ Hw) as (u & q & -> & Hu & _).
      apply lookup_lt_Some in Hu. rewrite (si_length _ Hs) in Hu. lia.
    + destruct Hw as [Hw|[Hw _]]; [right|by left]. eapply supports_mono; [done..|]. by apply (si_acks _ Hs).
    + apply (system_update_inv s v p p' [] _ [] None); try done; [set_solver| |set_solver].
      intros c' Hin. destruct c as [c|]; [|by apply not_elem_of_nil in Hin].
      apply list_elem_of_singleton in Hin as ->. by apply Hcs.
  - pose proof (receive_certificate_extends _ _ _ _ E) as Hex.
    assert (wf_block (c_block c) /\ backed (nodes s) c) as [Hb Hbk].
    { destruct Hcert as [Hin|[Hb [Hq Hw]]].
      { apply (si_certs _ Hs) in Hin as [Hin ?]. split; [|done]. pose proof (si_seen _ Hs) as Hwf.
        rewrite Forall_forall in Hwf. by apply Hwf. }
      split; [done|]. split; [done|].
      intros w Hin. destruct (Hw w Hin) as [? [?|?]]; [by auto|]. split; [done|]. right. by apply (si_acks _ Hs). }
    destruct (receive_certificate_inv (set_node s v p') ([c_block c] ++ seen s) p c d p') as (Hp' & _ & Hd);
      [by apply step_node_inv|set_solver| |exact E|].
    + eapply backed_mono; [|exact Hbk]. intros w' d'. by apply supports_mono with p.
    + apply (system_update_inv s v p p' [] [] [c_block c] d); try done; [by repeat constructor|set_solver..|].
      intros dec Hin. destruct d as [d|]; [|by apply not_elem_of_nil in Hin].
      apply list_elem_of_singleton in Hin as ->. by apply Hd.
  - pose proof (check_commit_extends _ _ _ _ E) as Hex.
    destruct (check_commit_inv (set_node s v p') (seen s) p r d p') as (Hp' & _ & Hd);
      [by apply (step_node_inv s v p p' [])|exact E|].
    apply (system_update_inv s v p p' [] [] [] d); try done; [set_solver..|].
    intros dec Hin. destruct d as [d|]; [|by apply not_elem_of_nil in Hin].
    apply list_elem_of_singleton in Hin as ->. by apply Hd.
  - assert (extends p (skip_round p r)) as Hex by (by split).
    apply (system_update_inv s v p (skip_round p r) [] [] [] None); try done; [|set_solver..].
    apply node_inv_round; [by apply (step_node_inv s v p _ [])|]. simpl.
    by apply (step_node_inv s v p (skip_round p r) []).
Qed.

Lemma initial_inv f : quorum = 2 * default ((n - 1) / 3) f + 1 -> system_inv (initial f).
Proof.
  intros Hq. split; simpl; try (by intros; match goal with Hx : _ ∈ [] |- _ => apply not_elem_of_nil in Hx end).
  - by rewrite length_map, length_seq.
  - intros v p Hv. rewrite lookup_map in Hv. apply fmap_Some in Hv as (i & Hi & ->).
    apply lookup_seq in Hi as [-> Hlt]. split; [|done]. split; simpl; try done.
    lia.
  - constructor.
  - constructor.
Qed.

Lemma system_reachable_inv f s : quorum = 2 * default ((n - 1) / 3) f + 1 ->
  reachable f s -> collision_free (map preimage_of (seen s)) -> system_inv s.
Proof.
  intros Hq. induction 1 as [|s s' Hr IH Hs]; intros Hc; [by apply initial_inv|].
  eapply step_inv; [|done..]. apply IH. eapply collision_free_sub; [|exact Hc].
  intros x (b & -> & Hb)%elem_of_map. apply elem_of_map. exists b. split; [done|].
  destruct Hs; simpl; rewrite ?elem_of_cons; auto.
Qed.

(** Whatever the digests, blocks in stores and certificates have been seen. *)
Record seen_inv (s : system) : Prop := {
  sv_certs c : c ∈ sent_certs s -> c_block c ∈ seen s;
  sv_blocks v p d b : nodes s !! v = Some p -> get_block (p_dag p) d = Some b -> b ∈ seen s
}.

Lemma get_add_block dag b d b' : get_block (add_block dag b).2 d = Some b' -> b' = b \/ get_block dag d = Some b'.
Proof.
  unfold add_block. destruct (at_round _ _ !! _); simpl; [by right|]. unfold get_block; simpl.
  destruct (decide (b_digest b = d)) as [<-|]; [rewrite lookup_insert_eq; intros [= <-]; by left|].
  rewrite lookup_insert_ne by done. by right.
Qed.

Lemma seen_inv_update s v p p' acks' certs' sn decided' : seen_inv s -> nodes s !! v = Some p ->
  seen s ⊆ sn -> (forall c, c ∈ certs' -> c ∈ sent_certs s \/ c_block c ∈ sn) ->
  (forall d b, get_block (p_dag p') d = Some b -> b ∈ sn \/ get_block (p_dag p) d = Some b) ->
  seen_inv {| nodes := set_node s v p'; sent_acks := acks'; sent_certs := certs'; seen := sn; decided := decided' |}.
Proof.
  intros [Hc Hb] Hv Hsub Hcs Hg. split; simpl.
  - intros c [?|?]%Hcs; [apply Hsub; auto|done].
  - intros u q d b Hu Hq. unfold set_node in Hu. destruct (decide (u = v)) as [->|Hne].
    + rewrite list_lookup_insert_eq in Hu by (by eapply lookup_lt_Some). simplify_eq.
      destruct (Hg d b Hq); [done|]. apply Hsub. by eapply Hb.
    + rewrite list_lookup_insert_ne in Hu by done. apply Hsub. by eapply Hb.
Qed.

Lemma try_commit_dag p r d p' : try_commit_from p r = (d, p') -> p_dag p' = p_dag p.
Proof. unfold try_commit_from. intros. by repeat case_match; simplify_eq. Qed.
Lemma check_commit_dag p r d p' : check_commit p r = (d, p') -> p_dag p' = p_dag p.
Proof. unfold check_commit. intros. by repeat case_match; simplify_eq. Qed.

Lemma step_seen s s' : seen_inv s -> sys_step s s' -> seen_inv s'.
Proof.
  intros Hs [v p round payload t b p' Hv _ E | v p b a p' Hv _ Hb E | v p d w c p' Hv _ Hw E
            | v p c d p' Hv _ Hcert E | v p r d p' Hv _ E | v p r Hv _];
    eapply seen_inv_update; try exact Hs; try exact Hv; simpl; try (by auto); try (by intros ? ?; right).
  - unfold propose, mbind, result_bind in E. destruct (make_block _ _ _ _ _) as [b'|]; simplify_eq/=.
    intros d x [->|?]%get_add_block; [left; by left|by right].
  - unfold receive_block in E. intros d x Hx.
    repeat case_match; simplify_eq/=; try (by right).
    match goal with Ha : add_block _ _ = _ |- _ => pose proof (f_equal snd Ha) as Ed end. simpl in Ed.
    rewrite <- Ed in Hx. apply get_add_block in Hx as [->|?]; [left; by left|by right].
  - intros c' [Hin|?]%elem_of_app; [|by left]. right. unfold receive_ack in E.
    repeat case_match; simplify_eq/=; [|by apply not_elem_of_nil in Hin..].
    apply list_elem_of_singleton in Hin as ->. by eapply sv_blocks.
  - unfold receive_ack in E. intros d' x Hx. repeat case_match; simplify_eq/=; by right.
  - unfold receive_certificate in E. apply try_commit_dag in E. intros d' x. rewrite E. by right.
  - apply check_commit_dag in E. intros d' x. rewrite E. by right.
Qed.

Lemma reachable_seen f s : reachable f s -> seen_inv s.
Proof.
  induction 1 as [|s s' _ IH Hs]; [|by eapply step_seen]. split; simpl.
  - by intros c ?%not_elem_of_nil.
  - intros v p d b Hv. rewrite lookup_map in Hv. apply fmap_Some in Hv as (i & _ & ->). done.
Qed.

(** ** Quorum intersection *)
Lemma quorums_meet (A B : gset Z) : 0 <= n -> n + Z.of_nat (size byz) < 2 * quorum ->
  quorum <= Z.of_nat (size A) -> quorum <= Z.of_nat (size B) ->
  (forall w, w ∈ A -> 0 <= w < n) -> (forall w, w ∈ B -> 0 <= w < n) ->
  exists w, w ∈ A /\ w ∈ B /\ w ∉ byz.
Proof.
  intros Hn Hlt HA HB RA RB.
  assert (size (A ∪ B) <= Z.to_nat n)%nat as Hu.
  { transitivity (size (list_to_set (seqZ 0 n) : gset Z)).
    - apply subseteq_size. intros w. rewrite elem_of_list_to_set, elem_of_seqZ.
      intros [?%RA|?%RB]%elem_of_union; lia.
    - rewrite size_list_to_set by apply NoDup_seqZ. rewrite length_seqZ. lia. }
  rewrite size_union_alt in Hu.
  pose proof (size_difference_alt B A) as Hd. pose proof (subseteq_size (B ∩ A) B (intersection_subseteq_l B A)).
  destruct (decide (B ∩ A ⊆ byz)) as [Hsub|Hns].
  - apply subseteq_size in Hsub. lia.
  - destruct (set_choose_or_empty ((B ∩ A) ∖ byz)) as [[w Hw]|He].
    + apply elem_of_difference in Hw as [[? ?]%elem_of_intersection ?]. by exists w.
    + destruct Hns. intros w Hw. destruct (decide (w ∈ byz)); [done|].
      destruct (not_elem_of_empty (C := gset Z) w). apply He. by apply elem_of_difference.
Qed.

(** Two certificates for one slot are for one digest. *)
Lemma backed_unique s c1 c2 : 0 <= n -> n + Z.of_nat (size byz) < 2 * quorum ->
  system_inv s -> collision_free (map preimage_of (seen s)) ->
  c_block c1 ∈ seen s -> c_block c2 ∈ seen s -> backed (nodes s) c1 -> backed (nodes s) c2 ->
  b_round (c_block c1) = b_round (c_block c2) -> b_author (c_block c1) = b_author (c_block c2) ->
  c_digest c1 = c_digest c2.
Proof.
  intros Hpos Hlt Hs Hc S1 S2 [Q1 W1] [Q2 W2] Er Ea.
  destruct (quorums_meet (c_signers c1) (c_signers c2)) as (w & I1 & I2 & Hh);
    [done..|by intros; apply W1|by intros; apply W2|].
  destruct (W1 w I1) as [_ [?|(v & p & -> & Hp & [b1 G1])]]; [done|].
  destruct (W2 _ I2) as [_ [?|(v' & p' & E & Hp' & [b2 G2])]]; [done|].
  apply Nat2Z.inj in E as <-. simplify_eq.
  destruct (si_nodes _ Hs v p Hp) as [Hn _].
  pose proof (ok_digest _ (ni_dag _ _ _ Hn) _ _ G1) as [D1 _].
  pose proof (ok_digest _ (ni_dag _ _ _ Hn) _ _ G2) as [D2 _].
  destruct (seen_binds (seen s) (si_seen _ Hs) Hc b1 (c_block c1)) as (A1 & R1 & _);
    [by eapply ni_blocks|done..|].
  destruct (seen_binds (seen s) (si_seen _ Hs) Hc b2 (c_block c2)) as (A2 & R2 & _);
    [by eapply ni_blocks|done..|].
  eapply same_slot; [by apply Hn|done..| |]; congruence.
Qed.

(** A closed history is complete in the store it was collected from. *)
Lemma closed_complete dag d : dag_ok dag ->
  committed_blocks d = collect_causal_history dag (leader_certificate d) ∅ ->
  closed_history d -> complete dag (c_digest (leader_certificate d)).
Proof.
  intros Hok Ed [H1 H2] x. set (start := c_digest _) in *.
  assert (forall y, y ∈ map b_digest (committed_blocks d) -> is_Some (get_block dag y)) as Hin.
  { intros y (b & -> & Hb)%elem_of_map. rewrite Ed in Hb.
    apply history_spec in Hb as (z & _ & Hg); [|done]. apply (ok_digest _ Hok) in Hg as Hz.
    destruct Hz as [-> _]. by exists b. }
  induction 1 as [|y b p Hy IH Hg Hp _]; [by apply Hin|].
  apply Hin, (H2 b p); [|done]. rewrite Ed. apply history_spec; [done|]. by exists y.
Qed.

Lemma closed_agree s d1 d2 : system_inv s -> collision_free (map preimage_of (seen s)) ->
  decision_ok (nodes s) (seen s) d1 -> decision_ok (nodes s) (seen s) d2 ->
  c_digest (leader_certificate d1) = c_digest (leader_certificate d2) ->
  closed_history d1 -> closed_history d2 ->
  map tag (committed_blocks d1) = map tag (committed_blocks d2).
Proof.
  intros Hs Hc (_ & _ & _ & _ & dag1 & O1 & B1 & E1) (_ & _ & _ & _ & dag2 & O2 & B2 & E2) Ed C1 C2.
  pose proof (si_seen _ Hs) as Hwf. rewrite Forall_forall in Hwf.
  rewrite E1, E2. apply history_agreement; try done; [by intros ???; eauto..| | |].
  - eapply collision_free_sub; [|exact Hc]. intros x (b & -> & Hb)%elem_of_map.
    apply elem_of_map. exists b. split; [done|]. unfold stored in Hb. rewrite elem_of_app, !list_elem_of_fmap in Hb.
    destruct Hb as [([k b'] & -> & Hb)|([k b'] & -> & Hb)]; apply elem_of_map_to_list in Hb; eauto.
  - by apply closed_complete.
  - by apply closed_complete.
Qed.

End System.

(** The quorum of a committee of [n], [2f + 1]. *)
Definition quorum_of (n : Z) (fault_tolerance : option Z) : Z := 2 * default ((n - 1) / 3) fault_tolerance + 1.

Lemma commit_agreement_aux n byz f s :
  0 <= n ->
  n + Z.of_nat (size byz) < 2 * quorum_of n f ->
  reachable n (quorum_of n f) byz f s ->
  collision_free (map preimage_of (seen s)) ->
  forall w1 d1 w2 d2, (w1, d1) ∈ decided s -> (w2, d2) ∈ decided s -> d_round d1 = d_round d2 ->
  c_digest (leader_certificate d1) = c_digest (leader_certificate d2) /\
  (closed_history d1 -> closed_history d2 ->
   map tag (committed_blocks d1) = map tag (committed_blocks d2)).
Proof.
  intros Hn Hlt Hr Hc w1 d1 w2 d2 H1 H2 Er.
  pose proof (system_reachable_inv _ _ _ f s eq_refl Hr Hc) as Hs.
  destruct (si_decided _ _ _ _ Hs _ _ H1) as [O1 _]. destruct (si_decided _ _ _ _ Hs _ _ H2) as [O2 _].
  assert (c_digest (leader_certificate d1) = c_digest (leader_certificate d2)) as Ed.
  { destruct O1 as (S1 & K1 & R1 & A1 & _), O2 as (S2 & K2 & R2 & A2 & _).
    eapply backed_unique; [done..| |]; congruence. }
  split; [done|]. by eapply closed_agree.
Qed.

(** C4: Agreement.  In every execution in which fewer than [2 * quorum - n]
    validators are Byzantine (at most [f] of [3 f + 1]), channels are
    authenticated and block digests do not collide, two decisions of honest
    validators for the same round name the same leader block; and when their
    histories are closed under parents, they commit the same blocks, at the
    same positions and in the same order. *)
Theorem commit_agreement n byz f s :
  0 <= n ->
  n + Z.of_nat (size byz) < 2 * quorum_of n f ->
  reachable n (quorum_of n f) byz f s ->
  collision_free (map preimage_of (seen s)) ->
  forall w1 d1 w2 d2, (w1, d1) ∈ decided s -> (w2, d2) ∈ decided s -> d_round d1 = d_round d2 ->
  c_digest (leader_certificate d1) = c_digest (leader_certificate d2) /\
  (closed_history d1 -> closed_history d2 ->
   map tag (committed_blocks d1) = map tag (committed_blocks d2)).
Proof. apply commit_agreement_aux. Qed.

(** No validator decides a round twice: over every execution the pairs of
    validator and decided round are distinct. *)
Theorem decide_once n byz f s :
  reachable n (quorum_of n f) byz f s ->
  collision_free (map preimage_of (seen s)) ->
  NoDup (map (fun wd => (wd.1, d_round wd.2)) (decided s)).
Proof. intros Hr Hc. by eapply si_once, system_reachable_inv. Qed.

End DagBft.
