(* ===== verification/Engine.v ===== *)
(** The in-process consensus engine of src/src/ltp/consensus/engine.py, with the
    fault injection of faults.py and the partitions of message_bus.py.

    [advance_round] runs the four phases of a round over all validators.  Every
    run is an execution of the system of DagBft ([engine_reachable]), so that
    the agreement theorem applies to it whatever faults are injected. *)

From S2P Require Import Prelude Sha3 Hashing Encoding Router Dag DagBft.

(** * faults.py *)
Inductive FaultType : Type := HONEST | EQUIVOCATE | WITHHOLD | CRASH | DELAY | CENSOR.
#[export] Instance FaultType_eq_dec : EqDecision FaultType.
Proof. solve_decision. Defined.

(** Of [params] the engine reads the key "withhold_targets" only. *)
Record FaultConfig : Type := {
  fc_validator : Z;
  fc_fault_type : FaultType;
  fc_start_round : Z;
  fc_end_round : option Z;
  fc_withhold_targets : list Z
}.

Record PartitionConfig : Type := {
  group_a : gset Z;
  group_b : gset Z;
  pc_start_round : Z;
  pc_duration : option Z
}.

(** * message_bus.py: the partition in force *)
Definition is_partitioned (partition : option PartitionConfig) (from_v to_v : Z) : bool :=
  match partition with
  | None => false
  | Some p =>
      (bool_decide (from_v ∈ group_a p) && bool_decide (to_v ∈ group_b p)) ||
      (bool_decide (from_v ∈ group_b p) && bool_decide (to_v ∈ group_a p))
  end.

Section Engine.
Context `{CanonicalHash}.

(** * engine.py *)

(** The output to the execution layer, an [OrderedBatch] of execution/types.py. *)
Definition to_ordered_batch (decision : CommitDecision) (epoch : Z) : OrderedBatch :=
  {| Router.b_round := d_round decision;
     b_epoch := epoch;
     transactions := concat (map b_payload (committed_blocks decision));
     leader_authority := b_author (c_block (leader_certificate decision));
     timestamp_ms := b_timestamp_ms (c_block (leader_certificate decision));
     consensus_type := lit "dag" |}.

Record LocalDagBftEngine : Type := {
  eng_n : Z;
  eng_f : Z;
  eng_current_round : Z;
  eng_validators : list DagBftProtocol;
  eng_partition : option PartitionConfig;
  eng_mempool : list bytes;
  eng_faults : gmap Z FaultConfig;
  eng_commit_queue : list CommitDecision
}.

Definition py_range (n : Z) : list nat := seq 0 (Z.to_nat n).

Definition new_engine (num_validators : Z) (fault_tolerance : option Z) : LocalDagBftEngine :=
  let f := default ((num_validators - 1) / 3) fault_tolerance in
  {| eng_n := num_validators; eng_f := f; eng_current_round := -1;
     eng_validators := map (fun i => new_protocol (Z.of_nat i) num_validators (Some f)) (py_range num_validators);
     eng_partition := None; eng_mempool := []; eng_faults := ∅; eng_commit_queue := [] |}.

Definition submit_transactions (e : LocalDagBftEngine) (txs : list bytes) : LocalDagBftEngine :=
  {| eng_n := eng_n e; eng_f := eng_f e; eng_current_round := eng_current_round e;
     eng_validators := eng_validators e; eng_partition := eng_partition e;
     eng_mempool := eng_mempool e ++ txs; eng_faults := eng_faults e;
     eng_commit_queue := eng_commit_queue e |}.

Definition inject_fault (e : LocalDagBftEngine) (fault : FaultConfig) : LocalDagBftEngine :=
  {| eng_n := eng_n e; eng_f := eng_f e; eng_current_round := eng_current_round e;
     eng_validators := eng_validators e; eng_partition := eng_partition e;
     eng_mempool := eng_mempool e; eng_faults := <[fc_validator fault := fault]> (eng_faults e);
     eng_commit_queue := eng_commit_queue e |}.

(** [set_partition] and [clear_partition] of the bus. *)
Definition set_partition (e : LocalDagBftEngine) (config : option PartitionConfig) : LocalDagBftEngine :=
  {| eng_n := eng_n e; eng_f := eng_f e; eng_current_round := eng_current_round e;
     eng_validators := eng_validators e; eng_partition := config;
     eng_mempool := eng_mempool e; eng_faults := eng_faults e;
     eng_commit_queue := eng_commit_queue e |}.

Definition is_faulty (faults : gmap Z FaultConfig) (validator round : Z) (fault_type : FaultType) : bool :=
  match faults !! validator with
  | None => false
  | Some cfg =>
      if negb (bool_decide (fc_fault_type cfg = fault_type)) then false
      else if round <? fc_start_round cfg then false
      else match fc_end_round cfg with
           | Some end_round => negb (end_round <? round)
           | None => true
           end
  end.

Section Round.
Context (n r : Z) (faults : gmap Z FaultConfig) (partition : option PartitionConfig).
(** [time.time()] when validator [v] proposes. *)
Context (now_ms : nat -> Z).

Let crashed (v : nat) : bool := is_faulty faults (Z.of_nat v) r CRASH.

(** ** Phase 1: propose.  [validators[v]] exists for every [v] in [range(n)]. *)
Definition propose_one (st : list DagBftProtocol * list bytes * list Block) (v : nat) :
  result (list DagBftProtocol * list bytes * list Block) :=
  let '(vs, mempool, blocks) := st in
  match vs !! v with
  | None => Err IndexError
  | Some p =>
      if crashed v then Ok st
      else if is_faulty faults (Z.of_nat v) r EQUIVOCATE then
        '(b1, p') ← propose p r [lit "equivocate_a"] (now_ms v);
        b2 ← make_block (Z.of_nat v) r [lit "equivocate_b"] (b_parents b1) (b_timestamp_ms b1);
        Ok (<[v := p']> vs, mempool, blocks ++ [b1; b2])
      else
        let '(payload, mempool) :=
          if is_faulty faults (Z.of_nat v) r CENSOR then ([], mempool)
          else (mempool, []) in
        '(block, p') ← propose p r payload (now_ms v);
        Ok (<[v := p']> vs, mempool, blocks ++ [block])
  end.

(** ** Phase 2: deliver the blocks, collect acknowledgements. *)
Definition deliver_block (block : Block) (st : list DagBftProtocol * list (bytes * Z)) (v : nat) :
  list DagBftProtocol * list (bytes * Z) :=
  let '(vs, acks) := st in
  match vs !! v with
  | None => st
  | Some p =>
      if crashed v then st
      else if Z.of_nat v =? b_author block then st
      else if is_faulty faults (b_author block) r WITHHOLD &&
              bool_decide (Z.of_nat v ∈ from_option fc_withhold_targets [] (faults !! b_author block)) then st
      else if is_partitioned partition (b_author block) (Z.of_nat v) then st
      else
        let '(ack, p') := receive_block p block in
        (<[v := p']> vs, acks ++ map (pair (b_digest block)) (option_list ack))
  end.

(** Authors some validator knows to equivocate. *)
Definition equivocators_known (vs : list DagBftProtocol) : list Z :=
  filter (fun a => existsb (fun p => is_equivocator p a) vs = true) (map Z.of_nat (py_range n)).

Definition digest_author (vs : list DagBftProtocol) (digest : bytes) : option Z :=
  match omap (fun p => get_block (p_dag p) digest) vs with
  | blk :: _ => Some (b_author blk)
  | [] => None
  end.

Definition keep_acks (vs : list DagBftProtocol) (acks : list (bytes * Z)) : list (bytes * Z) :=
  List.filter (fun ds => match digest_author vs ds.1 with
                         | Some a => bool_decide (a ∉ equivocators_known vs)
                         | None => true
                         end) acks.

(** ** Phase 3: deliver the acknowledgements, form certificates. *)
Definition deliver_ack (ds : bytes * Z) (st : list DagBftProtocol * list Certificate) (v : nat) :
  list DagBftProtocol * list Certificate :=
  let '(vs, certs) := st in
  match vs !! v with
  | None => st
  | Some p =>
      if crashed v then st
      else if is_faulty faults ds.2 r DELAY then st
      else if is_partitioned partition ds.2 (Z.of_nat v) then st
      else
        let '(cert, p') := receive_ack p ds.1 ds.2 in
        (<[v := p']> vs, certs ++ option_list cert)
  end.

(** ** Phase 4: deliver the certificates, check commits. *)
Fixpoint unique_certs (seen_certs : gset bytes) (certs : list Certificate) : list Certificate :=
  match certs with
  | [] => []
  | cert :: certs =>
      if bool_decide (c_digest cert ∈ seen_certs) then unique_certs seen_certs certs
      else cert :: unique_certs ({[c_digest cert]} ∪ seen_certs) certs
  end.

(** [decision is not None and decision.round not in {d.round for d in decisions}] *)
Definition fresh_decision (decision : option CommitDecision) (decisions : list CommitDecision) : bool :=
  match decision with
  | None => false
  | Some d => bool_decide (d_round d ∉ map d_round decisions)
  end.

Definition deliver_cert (cert : Certificate) (st : list DagBftProtocol * list CommitDecision) (v : nat) :
  list DagBftProtocol * list CommitDecision :=
  let '(vs, decisions) := st in
  match vs !! v with
  | None => st
  | Some p =>
      if crashed v then st
      else if is_partitioned partition (b_author (c_block cert)) (Z.of_nat v) then st
      else
        let '(decision, p') := receive_certificate p cert in
        (<[v := p']> vs,
         if fresh_decision decision decisions then decisions ++ option_list decision else decisions)
  end.

(** The inner loop over [check_round], left at the first fresh decision. *)
Fixpoint check_rounds (p : DagBftProtocol) (decisions : list CommitDecision) (rounds : list nat) :
  DagBftProtocol * list CommitDecision :=
  match rounds with
  | [] => (p, decisions)
  | check_round :: rounds =>
      let '(decision, p') := check_commit p (Z.of_nat check_round) in
      if fresh_decision decision decisions then (p', decisions ++ option_list decision)
      else check_rounds p' decisions rounds
  end.

Definition check_one (st : list DagBftProtocol * list CommitDecision) (v : nat) :
  list DagBftProtocol * list CommitDecision :=
  let '(vs, decisions) := st in
  match vs !! v with
  | None => st
  | Some p =>
      if crashed v then st
      else let '(p', decisions) := check_rounds p decisions (py_range (r + 1)) in (<[v := p']> vs, decisions)
  end.
End Round.

Definition deliver_all {A S} (f : A -> S -> nat -> S) (n : Z) (st : S) (msgs : list A) : S :=
  fold_left (fun st m => fold_left (f m) (py_range n) st) msgs st.

Definition advance_round (now_ms : nat -> Z) (e : LocalDagBftEngine) : result LocalDagBftEngine :=
  let r := eng_current_round e + 1 in
  let n := eng_n e in
  let faults := eng_faults e in
  let partition := eng_partition e in
  '(vs, mempool, blocks) ← foldM (propose_one r faults now_ms) (eng_validators e, eng_mempool e, []) (py_range n);
  let '(vs, acks) := deliver_all (deliver_block r faults partition) n (vs, []) blocks in
  let acks := keep_acks n vs acks in
  let '(vs, certs) := deliver_all (deliver_ack r faults partition) n (vs, []) acks in
  let '(vs, decisions) := deliver_all (deliver_cert r faults partition) n (vs, []) (unique_certs ∅ certs) in
  let '(vs, decisions) := fold_left (check_one r faults) (py_range n) (vs, decisions) in
  Ok {| eng_n := n; eng_f := eng_f e; eng_current_round := r; eng_validators := vs;
        eng_partition := partition; eng_mempool := mempool; eng_faults := faults;
        eng_commit_queue := eng_commit_queue e ++ sort_by (fun a b => d_round a <=? d_round b) decisions |}.

(** [run_rounds]: [count] rounds, then drain the queue. *)
Fixpoint advance_many (clock : Z -> nat -> Z) (e : LocalDagBftEngine) (count : nat) : result LocalDagBftEngine :=
  match count with
  | O => Ok e
  | S count => e' ← advance_round (clock (eng_current_round e + 1)) e; advance_many clock e' count
  end.

Definition run_rounds (clock : Z -> nat -> Z) (e : LocalDagBftEngine) (count : nat) :
  result (list CommitDecision * LocalDagBftEngine) :=
  e' ← advance_many clock e count;
  Ok (sort_by (fun a b => d_round a <=? d_round b) (eng_commit_queue e'),
      {| eng_n := eng_n e'; eng_f := eng_f e'; eng_current_round := eng_current_round e';
         eng_validators := eng_validators e'; eng_partition := eng_partition e';
         eng_mempool := eng_mempool e'; eng_faults := eng_faults e'; eng_commit_queue := [] |}).

(** The blocks phase 1 creates. *)
Definition round_blocks (now_ms : nat -> Z) (e : LocalDagBftEngine) : list Block :=
  match foldM (propose_one (eng_current_round e + 1) (eng_faults e) now_ms)
          (eng_validators e, eng_mempool e, []) (py_range (eng_n e)) with
  | Ok (_, _, blocks) => blocks
  | Err _ => []
  end.

Definition drained (e : LocalDagBftEngine) : LocalDagBftEngine :=
  {| eng_n := eng_n e; eng_f := eng_f e; eng_current_round := eng_current_round e;
     eng_validators := eng_validators e; eng_partition := eng_partition e;
     eng_mempool := eng_mempool e; eng_faults := eng_faults e; eng_commit_queue := [] |}.

(** Uses of an engine: transactions, faults, partitions, rounds, and consuming
    the queue.  [outs] collects what was consumed, [blks] the blocks created. *)
Inductive engine_run (n : Z) (f : option Z) : LocalDagBftEngine -> list CommitDecision -> list Block -> Prop :=
| er_new : engine_run n f (new_engine n f) [] []
| er_submit e outs blks txs : engine_run n f e outs blks -> engine_run n f (submit_transactions e txs) outs blks
| er_fault e outs blks fault : engine_run n f e outs blks -> engine_run n f (inject_fault e fault) outs blks
| er_partition e outs blks config : engine_run n f e outs blks -> engine_run n f (set_partition e config) outs blks
| er_advance e outs blks now_ms e' : engine_run n f e outs blks -> advance_round now_ms e = Ok e' ->
    engine_run n f e' outs (round_blocks now_ms e ++ blks)
| er_drain e outs blks : engine_run n f e outs blks -> engine_run n f (drained e) (outs ++ eng_commit_queue e) blks.

(** * Every run is an execution of the system *)
Section Simulation.
Context (n f : Z).
Notation reach := (reachable n (2 * f + 1) ∅ (Some f)).
Notation step := (sys_step n (2 * f + 1) ∅).

(** [s] is an execution with these validators, whose blocks are among [blks],
    that extends [s0]. *)
Record sim (blks : list Block) (s0 s : system) (vs : list DagBftProtocol) : Prop := {
  sim_reach : reach s;
  sim_nodes : nodes s = vs;
  sim_seen : seen s ⊆ blks;
  sim_acks : sent_acks s0 ⊆ sent_acks s;
  sim_certs : sent_certs s0 ⊆ sent_certs s;
  sim_decided : decided s0 ⊆ decided s
}.

Lemma sim_step blks s0 s s' vs vs' : sim blks s0 s vs -> step s s' -> nodes s' = vs' ->
  seen s' ⊆ blks -> sim blks s0 s' vs'.
Proof.
  intros [Hr Hn Hs Ha Hc Hd] Hst Hn' Hs'. split; [by eapply reach_step|done..| | |];
    destruct Hst; simpl; etrans; try done; set_solver.
Qed.

Lemma fold_left_inv {A S} (g : S -> A -> S) (I : S -> Prop) xs st :
  I st -> (forall st x, x ∈ xs -> I st -> I (g st x)) -> I (fold_left g xs st).
Proof.
  revert st. induction xs as [|x xs IH]; intros st H0 Hs; simpl; [done|].
  apply IH; [apply Hs; [by left|done]|]. intros; apply Hs; [by right|done].
Qed.

Lemma deliver_all_inv {A S} (g : A -> S -> nat -> S) (I : S -> Prop) m st msgs :
  I st -> (forall a st v, a ∈ msgs -> I st -> I (g a st v)) -> I (deliver_all g m st msgs).
Proof.
  intros H0 Hs. unfold deliver_all. apply fold_left_inv; [done|]. intros st' a Ha HI.
  apply fold_left_inv; [done|]. intros st'' v _. by apply Hs.
Qed.

Section Phases.
Context (r : Z) (faults : gmap Z FaultConfig) (partition : option PartitionConfig).
Context (s0 : system).

Lemma make_block_wf a rd pl ps t b : make_block a rd pl ps t = Ok b -> wf_block b.
Proof.
  unfold make_block, mbind, result_bind. destruct (compute_block_digest _ _ _ _) eqn:E; [|done]. by intros [= <-].
Qed.

Lemma sim_propose blks s vs v p payload t b p' : sim blks s0 s vs -> vs !! v = Some p ->
  propose p r payload t = Ok (b, p') -> exists s', sim (blks ++ [b]) s0 s' (<[v := p']> vs) /\ wf_block b.
Proof.
  intros Hs Hv E. pose proof Hs as [_ <- _ _ _ _].
  pose proof (step_propose n (2 * f + 1) ∅ s v p r payload t b p' Hv ltac:(set_solver) E) as Hst.
  eexists. split; [|by eapply propose_extends].
  eapply (sim_step (blks ++ [b]) s0 s); [|exact Hst|reflexivity|].
  - destruct Hs as [? ? Hsub ? ? ?]. split; try done. set_solver.
  - simpl. destruct Hs as [? ? Hsub ? ? ?]. set_solver.
Qed.

Lemma phase1_sim (now_ms : nat -> Z) blks0 s vs mp vs' mp' blocks vsl : sim blks0 s0 s vs ->
  foldM (propose_one r faults now_ms) (vs, mp, []) vsl = Ok (vs', mp', blocks) ->
  (exists s', sim (blks0 ++ blocks) s0 s' vs') /\ Forall wf_block blocks.
Proof.
  intros Hs E.
  refine (foldM_inv _ (fun _ st => (exists s', sim (blks0 ++ st.2) s0 s' st.1.1) /\ Forall wf_block st.2) _ _ _ _ _ E).
  - split; [|constructor]. exists s. by rewrite app_nil_r.
  - clear s vs vs' mp mp' blocks Hs E. intros _ v [[vs mp] blocks] [[vs' mp'] blocks'] [[s Hs] Hwf] E. simpl in *.
    destruct (vs !! v) as [p|] eqn:Hv; [|done]. destruct (is_faulty faults (Z.of_nat v) r CRASH); [by simplify_eq; eauto|].
    unfold mbind, result_bind in E. destruct (is_faulty faults (Z.of_nat v) r EQUIVOCATE).
    + destruct (propose p r _ _) as [[b1 p']|] eqn:Ep; [|done].
      destruct (make_block _ _ _ _ _) as [b2|] eqn:Eb; [|done]. simplify_eq.
      destruct (sim_propose _ _ _ _ _ _ _ _ _ Hs Hv Ep) as (s' & Hs' & Hb).
      split; [|apply Forall_app; repeat constructor; eauto using make_block_wf].
      exists s'. destruct Hs' as [? ? Hsub ? ? ?]. split; try done. set_solver.
    + destruct (if is_faulty faults (Z.of_nat v) r CENSOR then _ else _) as [payload mp1].
      destruct (propose p r _ _) as [[b1 p']|] eqn:Ep; [|done]. simplify_eq.
      destruct (sim_propose _ _ _ _ _ _ _ _ _ Hs Hv Ep) as (s' & Hs' & Hb).
      split; [|apply Forall_app; repeat constructor; eauto]. exists s'. by rewrite app_assoc.
Qed.

Lemma phase2_sim blks blocks m s vs vs' acks : sim blks s0 s vs -> Forall wf_block blocks -> blocks ⊆ blks ->
  deliver_all (deliver_block r faults partition) m (vs, []) blocks = (vs', acks) ->
  exists s', sim blks s0 s' vs' /\ forall d w, (d, w) ∈ acks -> (w, d) ∈ sent_acks s'.
Proof.
  intros Hs Hwf Hsub E.
  pose (I := fun st : list DagBftProtocol * list (bytes * Z) =>
    exists s', sim blks s0 s' st.1 /\ forall d w, (d, w) ∈ st.2 -> (w, d) ∈ sent_acks s').
  change (I (vs', acks)). rewrite <- E. apply deliver_all_inv.
  - exists s. split; [done|]. by intros d w ?%not_elem_of_nil.
  - clear s vs Hs E. intros b [vs acks0] v Hb (s & Hs & Ha). simpl in *. unfold deliver_block.
    destruct (vs !! v) as [p|] eqn:Hv; [|by exists s].
    repeat (match goal with |- context [if ?c then _ else _] => destruct c; [by exists s|] end).
    destruct (receive_block p b) as [ack p'] eqn:Er. pose proof Hs as [_ <- Hseen _ _ _].
    rewrite Forall_forall in Hwf.
    pose proof (step_block n (2 * f + 1) ∅ s v p b ack p' Hv ltac:(set_solver) (Hwf b Hb) Er) as Hst.
    eexists. split; [eapply (sim_step blks s0 s); [exact Hs|exact Hst|reflexivity|]|]; simpl.
    + set_solver.
    + intros d w [?|(w' & [= -> ->] & Hw)%elem_of_map]%elem_of_app; apply elem_of_app; [right; auto|left].
      apply elem_of_map. eauto.
Qed.

Lemma phase3_sim blks acks m s vs vs' certs : sim blks s0 s vs ->
  (forall d w, (d, w) ∈ acks -> (w, d) ∈ sent_acks s0) ->
  deliver_all (deliver_ack r faults partition) m (vs, []) acks = (vs', certs) ->
  exists s', sim blks s0 s' vs' /\ certs ⊆ sent_certs s'.
Proof.
  intros Hs Hacks E.
  pose (I := fun st : list DagBftProtocol * list Certificate =>
    exists s', sim blks s0 s' st.1 /\ st.2 ⊆ sent_certs s').
  change (I (vs', certs)). rewrite <- E. apply deliver_all_inv.
  - exists s. split; [done|]. set_solver.
  - clear s vs Hs E. intros [d w] [vs certs0] v Hb (s & Hs & Hc). simpl in *. unfold deliver_ack. simpl.
    destruct (vs !! v) as [p|] eqn:Hv; [|by exists s].
    repeat (match goal with |- context [if ?c then _ else _] => destruct c; [by exists s|] end).
    destruct (receive_ack p d w) as [cert p'] eqn:Er. pose proof Hs as [_ <- Hseen Ha _ _].
    pose proof (step_ack n (2 * f + 1) ∅ s v p d w cert p' Hv ltac:(set_solver)
      ltac:(left; by apply Ha, Hacks) Er) as Hst.
    eexists. split; [eapply (sim_step blks s0 s); [exact Hs|exact Hst|reflexivity|done]|]; simpl. set_solver.
Qed.

Definition are_decided (s : system) (ds : list CommitDecision) : Prop :=
  forall d, d ∈ ds -> exists w, (w, d) ∈ decided s.

Lemma phase4_sim blks certs m s vs vs' ds : sim blks s0 s vs -> certs ⊆ sent_certs s0 ->
  deliver_all (deliver_cert r faults partition) m (vs, []) certs = (vs', ds) ->
  exists s', sim blks s0 s' vs' /\ are_decided s' ds.
Proof.
  intros Hs Hcerts E.
  pose (I := fun st : list DagBftProtocol * list CommitDecision =>
    exists s', sim blks s0 s' st.1 /\ are_decided s' st.2).
  change (I (vs', ds)). rewrite <- E. apply deliver_all_inv.
  - exists s. split; [done|]. by intros d ?%not_elem_of_nil.
  - clear s vs Hs E. intros c [vs ds0] v Hb (s & Hs & Hd). simpl in *. unfold deliver_cert.
    destruct (vs !! v) as [p|] eqn:Hv; [|by exists s].
    do 2 (match goal with |- context [if ?c then _ else _] => destruct c; [by exists s|] end).
    destruct (receive_certificate p c) as [od p'] eqn:Er. pose proof Hs as [Hr <- Hseen _ Hcs _].
    assert (c ∈ sent_certs s) as Hin by (by apply Hcs, Hcerts).
    pose proof (step_cert n (2 * f + 1) ∅ s v p c od p' Hv ltac:(set_solver) ltac:(by left) Er) as Hst.
    pose proof (sv_certs _ (reachable_seen _ _ _ _ _ Hr) c Hin) as Hcb.
    eexists. split; [eapply (sim_step blks s0 s); [exact Hs|exact Hst|reflexivity|]|]; simpl.
    + intros x [->|?]%elem_of_cons; auto.
    + intros d. simpl. assert (d ∈ ds0 -> exists w, (w, d) ∈ map (pair (Z.of_nat v)) (option_list od) ++ decided s) as Hold.
      { intros [w Hw]%Hd. exists w. apply elem_of_app. by right. }
      destruct (fresh_decision od ds0); [|done]. intros [?|Hin']%elem_of_app; [auto|].
      exists (Z.of_nat v). apply elem_of_app. left. apply elem_of_map. eauto.
Qed.

Lemma check_rounds_sim blks v rounds s vs p p' ds ds' : sim blks s0 s (<[v := p]> vs) -> (v < length vs)%nat ->
  are_decided s ds -> check_rounds p ds rounds = (p', ds') ->
  exists s', sim blks s0 s' (<[v := p']> vs) /\ are_decided s' ds'.
Proof.
  revert s p ds. induction rounds as [|c rounds IH]; intros s p ds Hs Hv Hd E; simpl in E; [simplify_eq; eauto|].
  destruct (check_commit p (Z.of_nat c)) as [od p1] eqn:Ec. pose proof Hs as [_ Hn Hseen _ _ _].
  assert (nodes s !! v = Some p) as Hp by (rewrite Hn; by apply list_lookup_insert_eq).
  pose proof (step_check n (2 * f + 1) ∅ s v p (Z.of_nat c) od p1 Hp ltac:(set_solver) Ec) as Hst.
  pose proof (sim_step blks s0 s _ _ _ Hs Hst eq_refl Hseen) as Hs1. simpl in Hs1.
  unfold set_node in Hs1. rewrite Hn, list_insert_insert_eq in Hs1.
  assert (forall ds1, ds1 = ds \/ ds1 = ds ++ option_list od -> are_decided
    {| nodes := <[v := p1]> (nodes s); sent_acks := sent_acks s; sent_certs := sent_certs s; seen := seen s;
       decided := map (pair (Z.of_nat v)) (option_list od) ++ decided s |} ds1) as Hd1.
  { intros ds1 Hds1 d Hin. assert (d ∈ ds \/ d ∈ option_list od) as [[w Hw]%Hd|Hin1] by (destruct Hds1; set_solver).
    - exists w. apply elem_of_app. by right.
    - exists (Z.of_nat v). apply elem_of_app. left. apply elem_of_map. eauto. }
  rewrite Hn, list_insert_insert_eq in Hd1.
  destruct (fresh_decision od ds).
  - simplify_eq. eexists. split; [exact Hs1|]. apply Hd1. by right.
  - eapply (IH _ p1 ds Hs1 Hv); [|exact E]. apply Hd1. by left.
Qed.

Lemma phase5_sim blks vsl s vs vs' ds ds' : sim blks s0 s vs -> are_decided s ds ->
  fold_left (check_one r faults) vsl (vs, ds) = (vs', ds') ->
  exists s', sim blks s0 s' vs' /\ are_decided s' ds'.
Proof.
  intros Hs Hd E.
  pose (I := fun st : list DagBftProtocol * list CommitDecision =>
    exists s', sim blks s0 s' st.1 /\ are_decided s' st.2).
  change (I (vs', ds')). rewrite <- E. apply fold_left_inv; [by exists s|].
  clear s vs Hs Hd E ds ds'. intros [vs ds] v _ (s & Hs & Hd). simpl in *. unfold check_one.
  destruct (vs !! v) as [p|] eqn:Hv; [|by exists s].
  match goal with |- context [if ?c then _ else _] => destruct c; [by exists s|] end.
  destruct (check_rounds p ds _) as [p' ds'] eqn:Ec.
  eapply check_rounds_sim; [|by eapply lookup_lt_Some|exact Hd|exact Ec].
  by rewrite list_insert_id.
Qed.
End Phases.

Lemma sim_trans blks s0 s1 s2 vs1 vs2 : sim blks s0 s1 vs1 -> sim blks s1 s2 vs2 -> sim blks s0 s2 vs2.
Proof. intros [_ _ _ A1 C1 D1] [? ? ? A2 C2 D2]. split; [done..| | |]; by etrans. Qed.
Lemma sim_refl blks s0 s vs : sim blks s0 s vs -> sim blks s s vs.
Proof. intros [? ? ? _ _ _]. by split. Qed.
Lemma sim_more blks blks' s0 s vs : blks ⊆ blks' -> sim blks s0 s vs -> sim blks' s0 s vs.
Proof. intros Hsub [? ? Hs ? ? ?]. split; try done. by etrans. Qed.
Lemma are_decided_mono blks s0 s vs ds : sim blks s0 s vs -> are_decided s0 ds -> are_decided s ds.
Proof. intros Hs Hd d [w Hw]%Hd. exists w. by apply (sim_decided _ _ _ _ Hs). Qed.

Lemma unique_certs_sub seen_certs certs : unique_certs seen_certs certs ⊆ certs.
Proof.
  revert seen_certs. induction certs as [|c certs IH]; intros sc; simpl; [done|].
  case_match; [by apply list_subseteq_cons|]. intros x [->|?%IH]%elem_of_cons; [by left|by right].
Qed.

Lemma keep_acks_sub m vs acks ds : ds ∈ keep_acks m vs acks -> ds ∈ acks.
Proof. unfold keep_acks. rewrite !list_elem_of_In, filter_In. tauto. Qed.

Lemma advance_sim now_ms e e' blks s : advance_round now_ms e = Ok e' ->
  sim blks s s (eng_validators e) ->
  eng_n e' = eng_n e /\ eng_f e' = eng_f e /\
  exists s', sim (round_blocks now_ms e ++ blks) s s' (eng_validators e') /\
    forall ds, are_decided s (ds ++ eng_commit_queue e) -> are_decided s' (ds ++ eng_commit_queue e').
Proof.
  unfold advance_round, round_blocks, mbind, result_bind.
  set (r := eng_current_round e + 1). intros E Hs.
  destruct (foldM _ _ _) as [[[vs1 mp] blocks]|] eqn:E1; [|done].
  destruct (deliver_all (deliver_block _ _ _) _ _ _) as [vs2 acks] eqn:E2.
  destruct (deliver_all (deliver_ack _ _ _) _ _ _) as [vs3 certs] eqn:E3.
  destruct (deliver_all (deliver_cert _ _ _) _ _ _) as [vs4 ds4] eqn:E4.
  destruct (fold_left (check_one _ _) _ _) as [vs5 ds5] eqn:E5. simplify_eq/=.
  split_and!; [done..|].
  edestruct phase1_sim as [[s1 Hs1] Hwf]; [exact Hs|exact E1|].
  apply (sim_more _ (blocks ++ blks)) in Hs1; [|set_solver].
  edestruct phase2_sim as (s2 & Hs2 & Ha); [exact Hs1|exact Hwf|set_solver|exact E2|].
  edestruct phase3_sim as (s3 & Hs3 & Hc); [by eapply sim_refl| |exact E3|].
  { intros d w Hin. apply Ha. by eapply keep_acks_sub. }
  edestruct phase4_sim as (s4 & Hs4 & Hd4); [by eapply sim_refl| |exact E4|].
  { etrans; [apply unique_certs_sub|exact Hc]. }
  edestruct phase5_sim as (s5 & Hs5 & Hd5); [exact Hs4|exact Hd4|exact E5|].
  assert (sim (blocks ++ blks) s s5 vs5) as Hall by (eapply sim_trans; [exact Hs2|]; eapply sim_trans; eauto).
  exists s5. split; [done|]. intros ds Hq d. rewrite app_assoc, elem_of_app, elem_of_sort_by.
  intros [Hin|Hin]; [|by apply Hd5]. by apply (are_decided_mono _ _ _ _ _ Hall Hq).
Qed.
End Simulation.

Lemma run_sim n f e outs blks : engine_run n f e outs blks ->
  let ft := default ((n - 1) / 3) f in
  eng_n e = n /\ eng_f e = ft /\
  exists s, sim n ft blks s s (eng_validators e) /\ are_decided s (outs ++ eng_commit_queue e).
Proof.
  intros Hr ft.
  induction Hr as [|e outs blks txs _ IH|e outs blks fault _ IH|e outs blks c _ IH
                  |e outs blks now_ms e' _ IH Ha|e outs blks _ IH]; try exact IH.
  - split_and!; [done..|]. exists (initial n (Some ft)). split; [|by intros d ?%not_elem_of_nil].
    split; try done. constructor.
  - destruct IH as (En & Ef & s & Hs & Hd).
    destruct (advance_sim n ft now_ms e e' blks s Ha Hs) as (En' & Ef' & s' & Hs' & Hd').
    split_and!; [congruence..|]. exists s'. split; [by eapply sim_refl|auto].
  - destruct IH as (En & Ef & s & Hs & Hd). split_and!; [done..|]. exists s. split; [done|].
    simpl. by rewrite app_nil_r.
Qed.

(** C5: The engine implements the protocol.  Whatever transactions, faults and
    partitions are injected, after every run of the engine its validators are
    in a state the system of honest validators with authenticated channels can
    reach, on blocks the engine created, and every decision it put out was
    made by a validator there. *)
Theorem engine_refines n f e outs blks : engine_run n f e outs blks ->
  exists s, reachable n (quorum_of n f) ∅ (Some (default ((n - 1) / 3) f)) s /\
    nodes s = eng_validators e /\ seen s ⊆ blks /\
    forall d, d ∈ outs ++ eng_commit_queue e -> exists w, (w, d) ∈ decided s.
Proof. intros (_ & _ & s & [? ? ? _ _ _] & Hd)%run_sim. by exists s. Qed.

(** C6: Engine agreement.  When two quorums always intersect, all decisions
    the engine puts out for a round, over any run with any faults and
    partitions, name the same leader block, and equal blocks when their
    histories are closed. *)
Theorem engine_agreement n f e outs blks : 0 <= n -> n < 2 * quorum_of n f ->
  engine_run n f e outs blks -> collision_free (map preimage_of blks) ->
  forall d1 d2, d1 ∈ outs ++ eng_commit_queue e -> d2 ∈ outs ++ eng_commit_queue e ->
  d_round d1 = d_round d2 ->
  c_digest (leader_certificate d1) = c_digest (leader_certificate d2) /\
  (closed_history d1 -> closed_history d2 ->
   map tag (committed_blocks d1) = map tag (committed_blocks d2)).
Proof.
  intros Hn Hq Hr Hc d1 d2 H1 H2 Ed.
  apply run_sim in Hr as (_ & _ & s & [Hr _ Hs _ _ _] & Hd).
  destruct (Hd d1 H1) as [w1 W1], (Hd d2 H2) as [w2 W2].
  eapply (commit_agreement_aux n ∅ (Some (default ((n - 1) / 3) f))); try done.
  - rewrite size_empty. by rewrite Z.add_0_r.
  - eapply collision_free_sub; [|exact Hc]. intros x (b & -> & Hb)%elem_of_map. apply elem_of_map. eauto.
Qed.

End Engine.

(** * Consequences for what the engine delivers *)
Section Delivered.
Context `{CanonicalHash}.

(** Committed transactions are delivered again.  Decisions are always
    collected with an empty committed set, so whenever the history of a
    decided leader contains an earlier decided leader, every transaction of
    the earlier batch is in the later batch too. *)
Theorem transactions_replayed dag r1 l1 r2 l2 q d1 d2 epoch1 epoch2 :
  dag_ok dag ->
  evaluate_direct_commit dag r1 l1 q = Some d1 -> evaluate_direct_commit dag r2 l2 q = Some d2 ->
  causal dag ∅ (c_digest (leader_certificate d2)) (c_digest (leader_certificate d1)) ->
  forall tx, tx ∈ transactions (to_ordered_batch d1 epoch1) -> tx ∈ transactions (to_ordered_batch d2 epoch2).
Proof.
  intros Hok (c1 & _ & ->)%direct_commits (c2 & _ & ->)%direct_commits Hc tx. simpl in *.
  rewrite <- !flat_map_concat_map, !list_elem_of_In, !in_flat_map. intros (b & Hb & Htx). exists b. split; [|done].
  rewrite <- list_elem_of_In in *. apply history_spec in Hb as (d & Hd & Hg); [|done].
  apply history_spec; [done|]. exists d. split; [|done]. clear Hg.
  induction Hd as [|d b' p Hd IH Hg Hp Hn]; [done|]. by eapply causal_parent.
Qed.

(** The block digest does not bind the order of the transactions nor the
    timestamp: permuting the payload and changing the time gives another block
    with the same digest, position and parents. *)
Theorem digest_order_blind author round payload payload' parents t t' b :
  make_block author round payload parents t = Ok b -> payload ≡ₚ payload' ->
  exists b', make_block author round payload' parents t' = Ok b' /\
    b_digest b' = b_digest b /\ tag b' = tag b /\ b_payload b' = payload' /\ b_timestamp_ms b' = t'.
Proof.
  unfold make_block, compute_block_digest, block_preimage, mbind, result_bind. intros E Hp.
  assert (length payload' = length payload) as -> by (by rewrite Hp).
  rewrite <- (sort_by_canonical CanonicalEncoder.str_leb CanonicalEncoder.str_leb_total
    CanonicalEncoder.str_leb_trans payload payload'); [|by intros; apply CanonicalEncoder.str_leb_antisym|done].
  repeat case_match; simplify_eq/=. eexists. split_and!; reflexivity.
Qed.
End Delivered.

(** * Examples *)
Definition nil_block : Block :=
  {| b_author := 0; b_round := 0; b_payload := []; b_parents := ∅; b_timestamp_ms := 0; b_digest := [] |}.
Definition blk (author round : Z) (payload : list bytes) (parents : gset bytes) : Block :=
  get_ok nil_block (make_block author round payload parents 0).
Definition crt (b : Block) (signers : list Z) : Certificate := {| c_block := b; c_signers := list_to_set signers |}.

Lemma digest_order_blind_witness :
  exists b', make_block 0 0 [lit "pay"; lit "refund"] ∅ 9 = Ok b' /\
    b_digest b' = b_digest (blk 0 0 [lit "refund"; lit "pay"] ∅).
Proof.
  destruct (digest_order_blind 0 0 [lit "refund"; lit "pay"] [lit "pay"; lit "refund"] ∅ 0 9
    (blk 0 0 [lit "refund"; lit "pay"] ∅)) as (b' & H1 & H2 & _);
    [vm_compute; reflexivity|apply Permutation_swap|]. exists b'. split; assumption.
Defined.

(** A committee of six, [f = 1], [quorum = 3], with one Byzantine validator 0,
    which leads round 0 and sends different blocks to the two halves. *)
Module Split.
Definition A := Eval vm_compute in blk 0 0 [lit "a"] ∅.
Definition B := Eval vm_compute in blk 0 0 [lit "b"] ∅.
Definition b1 := Eval vm_compute in blk 1 1 [] {[b_digest A]}.
Definition b2 := Eval vm_compute in blk 2 1 [] {[b_digest A]}.
Definition b3 := Eval vm_compute in blk 3 1 [] {[b_digest A]}.
Definition b4 := Eval vm_compute in blk 4 1 [] {[b_digest B]}.
Definition b5 := Eval vm_compute in blk 5 1 [] {[b_digest B]}.
Definition b0 := Eval vm_compute in blk 0 1 [] {[b_digest B]}.
Definition cA := crt A [1; 2; 3].
Definition cB := crt B [4; 5; 0].

(** Validator [v] proposes [b] in its half and certifies it there. *)
Definition certify (v : nat) (b : Block) (peers : list nat) (acks : list Z) : list event :=
  EvPropose v 1 [] 0 :: map (fun u => EvBlock u b) peers ++ map (EvAck v (b_digest b)) acks.

Definition events : list event :=
  map (fun v => EvBlock v A) [1; 2; 3]%nat ++ map (fun v => EvBlock v B) [4; 5]%nat ++
  map (EvAck 1 (b_digest A)) [2; 3] ++ map (EvAck 4 (b_digest B)) [5; 0] ++
  map (fun v => EvCert v cA) [2; 3]%nat ++ [EvCert 5 cB] ++
  certify 1 b1 [2; 3]%nat [2; 3] ++ certify 2 b2 [1; 3]%nat [1; 3] ++ certify 3 b3 [1; 2]%nat [1; 2] ++
  certify 4 b4 [5]%nat [5; 0] ++ certify 5 b5 [4]%nat [4; 0] ++
  map (fun v => EvBlock v b0) [4; 5]%nat ++ map (EvAck 4 (b_digest b0)) [5; 0] ++
  map (EvCert 1) [crt b2 [2; 1; 3]; crt b3 [3; 1; 2]] ++
  map (EvCert 4) [crt b5 [5; 4; 0]; crt b0 [4; 5; 0]].

End Split.

(** What the decisions of an execution say, and that no digests collide. *)
Definition outcome (s : system) : list (Z * Z * bytes) * bool :=
  (map (fun wd => (wd.1, d_round wd.2, c_digest (leader_certificate wd.2))) (decided s),
   no_collision (map preimage_of (seen s))).

Lemma outcome_two n q byz f evs w1 r1 x1 w2 r2 x2 :
  outcome <$> exec_all n byz (initial n f) evs = Some ([(w1, r1, x1); (w2, r2, x2)], true) ->
  exists s d1 d2, reachable n q byz f s /\ collision_free (map preimage_of (seen s)) /\
    (w1, d1) ∈ decided s /\ (w2, d2) ∈ decided s /\ d_round d1 = r1 /\ d_round d2 = r2 /\
    c_digest (leader_certificate d1) = x1 /\ c_digest (leader_certificate d2) = x2.
Proof.
  intros (s & E & Ex)%fmap_Some. unfold outcome in Ex. injection Ex as Ed Ec.
  destruct (decided s) as [|[u1 d1] [|[u2 d2] [|]]] eqn:Eds; simplify_eq/=.
  exists s, d1, d2. rewrite Eds. split_and!; try done.
  - eapply exec_all_reachable; [constructor|exact E].
  - by apply no_collision_spec.
  - by left.
  - right. by left.
Qed.

(** C39: With [f = (n - 1) // 3] the quorum [2 f + 1] is too small unless
    [n = 3 f + 1].  In a committee of six with a single Byzantine validator,
    within the tolerated [f = 1], two honest validators decide different
    leader blocks for round 0. *)
Theorem quorum_split :
  exists s d1 d2, Z.of_nat (size ({[0]} : gset Z)) <= (6 - 1) / 3 /\
    reachable 6 (quorum_of 6 None) {[0]} None s /\ collision_free (map preimage_of (seen s)) /\
    (4, d1) ∈ decided s /\ (1, d2) ∈ decided s /\ d_round d1 = d_round d2 /\
    c_digest (leader_certificate d1) <> c_digest (leader_certificate d2).
Proof.
  destruct (outcome_two 6 (quorum_of 6 None) {[0]} None Split.events 4 0 (b_digest Split.B) 1 0 (b_digest Split.A))
    as (s & d1 & d2 & Hr & Hc & H1 & H2 & E1 & E2 & X1 & X2); [vm_compute; reflexivity|].
  exists s, d1, d2. split_and!; try done; [congruence|]. rewrite X1, X2. by vm_compute.
Qed.

(** Four validators, the last one Byzantine; the leader of round 0 is honest
    and two validators decide it. *)
Module Agree.
Definition A := Eval vm_compute in blk 0 0 [lit "a"] ∅.
Definition b (i : Z) := blk i 1 [] {[b_digest A]}.
Definition events : list event :=
  EvPropose 0 0 [lit "a"] 0 :: map (fun v => EvBlock v A) [1; 2]%nat ++ map (EvAck 0 (b_digest A)) [1; 2] ++
  map (fun v => EvCert v (crt A [0; 1; 2])) [1; 2]%nat ++
  Split.certify 0 (b 0) [1; 2]%nat [1; 2] ++ Split.certify 1 (b 1) [0; 2]%nat [0; 3] ++
  Split.certify 2 (b 2) [0; 1]%nat [0; 1] ++
  map (EvCert 0) [crt (b 1) [1; 0; 3]; crt (b 2) [2; 0; 1]] ++
  map (EvCert 1) [crt (b 0) [0; 1; 2]; crt (b 2) [2; 0; 1]].
End Agree.

Lemma commit_agreement_witness :
  exists s d1 d2, (1, d1) ∈ decided s /\ (0, d2) ∈ decided s /\
    c_digest (leader_certificate d1) = c_digest (leader_certificate d2).
Proof.
  destruct (outcome_two 4 (quorum_of 4 None) {[3]} None Agree.events 1 0 (b_digest Agree.A) 0 0 (b_digest Agree.A))
    as (s & d1 & d2 & Hr & Hc & H1 & H2 & E1 & E2 & X1 & X2); [vm_compute; reflexivity|].
  exists s, d1, d2. split; [exact H1|split; [exact H2|]].
  apply (commit_agreement 4 {[3]} None s) with (w1 := 1) (w2 := 0);
    [lia|vm_compute; reflexivity|exact Hr|exact Hc|exact H1|exact H2|rewrite E1, E2; reflexivity].
Defined.

(** Four validators; in round 1 validator 3 is cut off from 0 and 2, and it
    decides round 0 later than the others. *)
Module Late.
Definition clock (r : Z) (v : nat) : Z := 10 * r + Z.of_nat v.
Definition start := submit_transactions (new_engine 4 None) [lit "a"; lit "b"].
Definition next (e : LocalDagBftEngine) : LocalDagBftEngine :=
  get_ok e (advance_round (clock (eng_current_round e + 1)) e).
Definition cut (e : LocalDagBftEngine) := set_partition e
  (Some {| group_a := {[0; 2]}; group_b := {[3]}; pc_start_round := 1; pc_duration := None |}).
Definition e1 := next start.
Definition e2 := next (cut e1).
Definition e3 := next (set_partition e2 None).
Definition e4 := next e3.
Definition blocks : list Block :=
  round_blocks (clock 3) e3 ++ round_blocks (clock 2) (set_partition e2 None) ++
  round_blocks (clock 1) (cut e1) ++ round_blocks (clock 0) start ++ [].

Definition ok (e : LocalDagBftEngine) : bool := is_ok (advance_round (clock (eng_current_round e + 1)) e).

Lemma next_ok e : ok e = true -> advance_round (clock (eng_current_round e + 1)) e = Ok (next e).
Proof. apply get_ok_eq. Qed.

Lemma next_run r n f e outs blks : eng_current_round e + 1 = r -> ok e = true ->
  engine_run n f e outs blks -> engine_run n f (next e) outs (round_blocks (clock r) e ++ blks).
Proof. intros <- Hok Hr. eapply er_advance; [exact Hr|]. by apply next_ok. Qed.

(** One evaluation of the run. *)
Definition report : bool * (list (Z * Z * list bytes) * bool) :=
  (ok start && ok (cut e1) && ok (set_partition e2 None) && ok e3,
   (map (fun d => (d_round d, b_author (c_block (leader_certificate d)), transactions (to_ordered_batch d 0)))
      (eng_commit_queue e4),
    no_collision (map preimage_of blocks))).

Lemma report_ok : report =
  (true, ([(0, 0, [lit "a"; lit "b"]); (0, 0, [lit "a"; lit "b"]); (1, 1, [lit "a"; lit "b"]);
           (2, 2, [lit "a"; lit "b"])], true)).
Proof. vm_compute. reflexivity. Qed.

Lemma late_run : engine_run 4 None e4 [] blocks.
Proof.
  assert (report.1 = true) as Eok by (by rewrite report_ok). cbn [report fst] in Eok. breflect.
  unfold e4, blocks. apply next_run; [vm_compute; reflexivity|done|]. unfold e3.
  apply next_run; [vm_compute; reflexivity|done|]. apply er_partition. unfold e2.
  apply next_run; [vm_compute; reflexivity|done|]. apply er_partition. unfold e1.
  apply next_run; [vm_compute; reflexivity|done|]. apply er_submit, er_new.
Qed.

Lemma late_queue : exists d1 d2 ds, eng_commit_queue e4 = d1 :: d2 :: ds /\ d_round d1 = 0 /\ d_round d2 = 0 /\
  collision_free (map preimage_of blocks).
Proof.
  assert (map (fun x => x.1.1) (take 2 report.2.1) = [0; 0]) as Eq by (by rewrite report_ok).
  assert (report.2.2 = true) as Ec by (by rewrite report_ok). cbn [report fst snd] in Eq, Ec.
  destruct (eng_commit_queue e4) as [|d1 [|d2 ds]]; [discriminate Eq..|].
  cbn [map take fst] in Eq. apply (f_equal (fun l => (l !! 0%nat, l !! 1%nat))) in Eq. simpl in Eq.
  injection Eq as E1 E2.
  exists d1, d2, ds. split_and!; [done..|]. by apply no_collision_spec.
Qed.
End Late.

Lemma engine_refines_witness :
  exists s, reachable 4 (quorum_of 4 None) ∅ (Some 1) s /\ nodes s = eng_validators Late.e4.
Proof.
  destruct (engine_refines 4 None Late.e4 [] Late.blocks Late.late_run) as (s & Hr & Hn & _).
  exists s. split; [exact Hr|exact Hn].
Defined.

Lemma engine_agreement_witness :
  exists d1 d2 ds, eng_commit_queue Late.e4 = d1 :: d2 :: ds /\
    c_digest (leader_certificate d1) = c_digest (leader_certificate d2).
Proof.
  destruct Late.late_queue as (d1 & d2 & ds & Eq & R1 & R2 & Hc). exists d1, d2, ds. split; [exact Eq|].
  apply (engine_agreement 4 None Late.e4 [] Late.blocks);
    [lia|vm_compute; reflexivity|exact Late.late_run|exact Hc|rewrite Eq; left|rewrite Eq; right; left|].
  rewrite R1, R2. reflexivity.
Defined.

(** Two decided leaders, the second building on the first. *)
Module Replay.
Definition A := Eval vm_compute in blk 0 0 [lit "pay"] ∅.
Definition B := Eval vm_compute in blk 1 1 [] {[b_digest A]}.
Definition C := Eval vm_compute in blk 0 2 [] {[b_digest B]}.
Definition dag : DAGStore :=
  fold_left (fun dag b => add_certificate (add_block dag b).2 (crt b [0])) [A; B; C] empty_dag.
Definition d1 : CommitDecision :=
  {| leader_certificate := crt A [0]; committed_blocks := [A]; d_round := 0 |}.
Definition d2 : CommitDecision :=
  {| leader_certificate := crt B [0]; committed_blocks := [A; B]; d_round := 1 |}.
End Replay.

Lemma transactions_replayed_witness :
  evaluate_direct_commit Replay.dag 0 0 1 = Some Replay.d1 /\
  evaluate_direct_commit Replay.dag 1 1 1 = Some Replay.d2 /\
  lit "pay" ∈ transactions (to_ordered_batch Replay.d2 0).
Proof.
  assert (evaluate_direct_commit Replay.dag 0 0 1 = Some Replay.d1) as H1 by (vm_compute; reflexivity).
  assert (evaluate_direct_commit Replay.dag 1 1 1 = Some Replay.d2) as H2 by (vm_compute; reflexivity).
  split; [exact H1|split; [exact H2|]].
  apply (transactions_replayed Replay.dag 0 0 1 1 1 Replay.d1 Replay.d2 0 0); [|exact H1|exact H2| |left].
  - unfold Replay.dag. simpl. apply add_certificate_ok, add_block_ok, add_certificate_ok, add_block_ok,
      add_certificate_ok, add_block_ok, empty_dag_ok.
  - apply (causal_parent Replay.dag ∅ _ (b_digest Replay.B) Replay.B);
      [apply causal_start; apply not_elem_of_empty|vm_compute; reflexivity|vm_compute; reflexivity|
       apply not_elem_of_empty].
Defined.
