(* ===== verification/ScalarField.v ===== *)
(** The BLS12-381 scalar field and the polynomials of
    src/src/ltp/execution/committee/dkg/scalar_poly.py.

    The modulus is proved prime by a Pocklington certificate, so that inversion
    by exponentiation and Lagrange interpolation hold without assumptions. *)

From S2P Require Import Prelude.
From Stdlib Require Import Znumtheory Zmod.

(** * [pow(a, e, m)] for [e >= 0]: square and multiply *)
Fixpoint pow_pos_mod (a : Z) (e : positive) (m : Z) : Z :=
  match e with
  | xH => a mod m
  | xO e => let x := pow_pos_mod a e m in (x * x) mod m
  | xI e => let x := pow_pos_mod a e m in ((x * x) mod m * a) mod m
  end.
Definition py_pow (a e m : Z) : Z :=
  match e with
  | Z0 => 1 mod m
  | Zpos e => pow_pos_mod a e m
  | Zneg _ => 0
  end.

(** * [ScalarField] *)
Definition R : Z := 0x73EDA753299D7D483339D80809A1D80553BDA402FFFE5BFEFFFFFFFF00000001.

Definition sf_add (a b : Z) : Z := (a + b) mod R.
Definition sf_mul (a b : Z) : Z := (a * b) mod R.
Definition sf_inv (a : Z) : Z := py_pow a (R - 2) R.
Definition sf_neg (a : Z) : Z := (- a) mod R.

(** * [ScalarPoly] *)
Definition evaluate (coeffs : list Z) (x : Z) : Z :=
  fold_left (fun result coeff => sf_add (sf_mul result x) coeff) (rev coeffs) 0.

Definition lagrange_coefficient (i : Z) (participants : list Z) : Z :=
  let '(numerator, denominator) :=
    fold_left (fun nd j =>
      if j =? i then nd
      else (sf_mul nd.1 (sf_neg j), sf_mul nd.2 ((i - j) mod R)))
      participants (1, 1) in
  sf_mul numerator (sf_inv denominator).

(** * Modular exponentiation *)
Lemma pow_pos_mod_spec a e m : 0 < m -> pow_pos_mod a e m = a ^ Zpos e mod m.
Proof.
  intros Hm. induction e as [e IH|e IH|]; simpl pow_pos_mod; rewrite ?IH.
  - rewrite Pos2Z.inj_xI, Z.pow_add_r, Z.pow_1_r, (Z.mul_comm 2), Z.pow_mul_r, Z.pow_2_r by lia.
    by rewrite <- Zmult_mod, Zmult_mod_idemp_l.
  - rewrite Pos2Z.inj_xO, (Z.mul_comm 2), Z.pow_mul_r, Z.pow_2_r by lia. by rewrite <- Zmult_mod.
  - by rewrite Z.pow_1_r.
Qed.

Lemma py_pow_spec a e m : 0 < m -> 0 <= e -> py_pow a e m = a ^ e mod m.
Proof. intros Hm He. destruct e; [done|by apply pow_pos_mod_spec|lia]. Qed.

(** * Primality *)
Section Pocklington.

Lemma pow_1_mod a q m n : 1 < q -> 0 <= m -> 0 <= n -> a ^ m mod q = 1 -> a ^ (m * n) mod q = 1.
Proof.
  intros Hq Hm Hn E. rewrite Z.pow_mul_r by done. rewrite <- Z.mod_pow_l, E, Z.pow_1_l by done.
  apply Z.mod_1_l. lia.
Qed.

(** Exponents that send [a] to 1 are closed under the greatest common divisor. *)
Lemma pow_gcd a q m n : 1 < q -> 0 <= m -> 0 <= n ->
  a ^ m mod q = 1 -> a ^ n mod q = 1 -> a ^ (Z.gcd m n) mod q = 1.
Proof.
  intros Hq Hm. revert n. pattern m. apply Z_lt_induction; [|done]. clear m Hm.
  intros m IH n Hn Em En. destruct (decide (m = 0)) as [->|Hz]; [rewrite Z.gcd_0_l, Z.abs_eq by lia; done|].
  destruct (decide (m < 0)) as [Hneg|Hpos].
  { rewrite Z.pow_neg_r in Em by done. rewrite Z.mod_0_l in Em; lia. }
  rewrite <- Z.gcd_mod, Z.gcd_comm by lia. pose proof (Z.mod_pos_bound n m ltac:(lia)).
  rewrite Z.gcd_comm. apply IH; [lia..| |done].
  assert (0 <= n / m) by (apply Z.div_pos; lia).
  rewrite (Z.div_mod n m) in En by lia.
  rewrite Z.pow_add_r, Zmult_mod, pow_1_mod, Z.mul_1_l, Z.mod_mod in En by lia. done.
Qed.

(** If [k] divides [p^e * m] but [p^e] does not divide [k], then [k] divides
    the quotient by [p]. *)
Lemma divide_quotient p e m k : Z.prime p -> 0 < e -> 0 < k ->
  (k | p ^ e * m) -> ~ (p ^ e | k) -> (k | p ^ (e - 1) * m).
Proof.
  intros Hp He Hk [t Ht] Hn. pose proof (Z.prime_ge_2 p Hp).
  destruct (Zdivide_dec p t) as [[u ->]|Hd].
  - exists u. apply (Z.mul_reg_l _ _ p); [lia|].
    replace (p * (p ^ (e - 1) * m)) with (p ^ e * m); [rewrite Ht; ring|].
    rewrite <- (Z.succ_pred e) at 1. rewrite Z.pow_succ_r, <- Z.sub_1_r by lia. ring.
  - destruct Hn. apply (Z.gauss _ t); [exists m; rewrite <- Ht; ring|].
    apply Z.coprime_pow_l; [lia|]. by apply Z.coprime_prime_l.
Qed.

(** One prime power of the certificate. *)
Record cofactor (n a p e : Z) : Prop := {
  cf_prime : Z.prime p;
  cf_pos : 0 < e;
  cf_divides : (p ^ e | n - 1);
  cf_gcd : Z.gcd (a ^ ((n - 1) / p) mod n - 1) n = 1
}.

Lemma cofactor_divides n a p e q : 1 < n -> a ^ (n - 1) mod n = 1 -> cofactor n a p e ->
  Z.prime q -> (q | n) -> (p ^ e | q - 1).
Proof.
  intros Hn Ha [Hp He [m Hm] Hg] Hq Hqn. pose proof (Z.prime_ge_2 q Hq). pose proof (Z.prime_ge_2 p Hp).
  assert (0 < q /\ 0 < n) as [Hq0 Hn0] by lia.
  destruct (Zdivide_dec (p ^ e) (q - 1)) as [?|Hno]; [done|]. exfalso.
  assert (~ (q | a)) as Hqa.
  { intros Hqa. assert (a ^ (n - 1) mod q = 1) as E.
    { rewrite (Zmod_div_mod q n), Ha by done. apply Z.mod_1_l. lia. }
    rewrite <- Z.mod_pow_l, (proj2 (Z.mod_divide a q ltac:(lia)) Hqa), Z.pow_0_l, Z.mod_0_l in E by lia. lia. }
  (* the exponent gcd(q - 1, n - 1) divides (n - 1) / p *)
  set (k := Z.gcd (q - 1) (n - 1)).
  assert (a ^ k mod q = 1) as Hk.
  { apply pow_gcd; [lia..| |].
    - apply ZmodInv.Z.fermat_nz; [done|]. intros Hz. apply Hqa. by apply Z.mod_divide; [lia|].
    - rewrite (Zmod_div_mod q n), Ha by done. apply Z.mod_1_l. lia. }
  assert (0 < k) as Hk0.
  { pose proof (Z.gcd_nonneg (q - 1) (n - 1)). assert (k <> 0); [|unfold k in *; lia].
    intros Hz. apply Z.gcd_eq_0_r in Hz. lia. }
  assert (k | p ^ (e - 1) * m) as [t Ht].
  { apply divide_quotient; [done..| |].
    - rewrite Z.mul_comm, <- Hm. apply Z.gcd_divide_r.
    - intros Hd. apply Hno. etrans; [exact Hd|apply Z.gcd_divide_l]. }
  assert ((n - 1) / p = t * k) as Eq.
  { rewrite Hm, <- Ht. symmetry. apply Z.div_unique_exact; [lia|].
    rewrite <- (Z.succ_pred e) at 1. rewrite Z.pow_succ_r, <- Z.sub_1_r by lia. ring. }
  assert (0 <= t) by nia.
  (* so q divides the number that was checked to be coprime to n *)
  assert (q | a ^ ((n - 1) / p) mod n - 1) as Hqg.
  { apply Z.mod_divide; [lia|]. rewrite Zminus_mod, <- (Zmod_div_mod q n), Eq, Z.mul_comm by done.
    rewrite pow_1_mod by lia. rewrite Z.mod_1_l, Z.sub_diag by lia. apply Z.mod_0_l. lia. }
  pose proof (Z.gcd_greatest _ _ _ Hqg Hqn) as Hq1. rewrite Hg in Hq1.
  apply Z.divide_1_r_nonneg in Hq1; lia.
Qed.

Lemma prime_divisor d : 1 < d -> exists q, Z.prime q /\ (q | d).
Proof.
  intros Hd. assert (0 <= d) as H0 by lia. revert Hd. pattern d. apply Z_lt_induction; [|done].
  clear d H0. intros d IH Hd.
  destruct (prime_dec d) as [Hp|Hp]; [exists d; split; [by apply prime_alt|reflexivity]|].
  destruct (not_prime_divide d Hd Hp) as (x & Hx & Hxd).
  destruct (IH x ltac:(lia) ltac:(lia)) as (q & Hq & Hqx). exists q. split; [done|]. by etrans.
Qed.

Lemma composite_divisor n : 1 < n -> ~ Z.prime n -> exists q, Z.prime q /\ (q | n) /\ q * q <= n.
Proof.
  intros Hn Hp. rewrite prime_alt in Hp. destruct (not_prime_divide n Hn Hp) as (x & Hx & [y Hy]).
  assert (1 < y < n) by nia.
  assert (exists z, 1 < z /\ (z | n) /\ z * z <= n) as (z & Hz & Hzn & Hzz).
  { destruct (decide (x <= y)); [exists x|exists y]; (split; [lia|]); split; try nia;
      [by exists y|by exists x; lia]. }
  destruct (prime_divisor z Hz) as (q & Hq & Hqz). exists q. split_and!; [done|by etrans|].
  pose proof (Z.prime_ge_2 q Hq). apply Z.divide_pos_le in Hqz; nia.
Qed.

(** The certificate: prime powers that exhaust more than the square root. *)
Lemma pocklington n a fs F : 1 < n -> a ^ (n - 1) mod n = 1 ->
  Forall (fun pe => cofactor n a pe.1 pe.2) fs ->
  (forall q, (forall pe, pe ∈ fs -> (pe.1 ^ pe.2 | q)) -> (F | q)) -> n < F * F -> 0 < F -> Z.prime n.
Proof.
  intros Hn Ha Hfs HF Hbig Hpos. destruct (prime_dec n) as [Hp|Hp]; [by apply prime_alt|].
  rewrite <- prime_alt in Hp. destruct (composite_divisor n Hn Hp) as (q & Hq & Hqn & Hqq). exfalso.
  rewrite Forall_forall in Hfs. assert (F | q - 1) as Hd.
  { apply HF. intros pe Hpe. eapply cofactor_divides; eauto. }
  pose proof (Z.prime_ge_2 q Hq). apply Z.divide_pos_le in Hd; nia.
Qed.

(** Small primes by trial division. *)
Definition trial (p : Z) (bound : nat) : bool :=
  forallb (fun d => negb (p mod Z.of_nat d =? 0)) (seq 2 bound).

Lemma trial_prime p bound : 1 < p -> p < (Z.of_nat bound + 2) * (Z.of_nat bound + 2) ->
  trial p bound = true -> Z.prime p.
Proof.
  intros Hp Hb Ht. destruct (prime_dec p) as [?|Hn]; [by apply prime_alt|]. rewrite <- prime_alt in Hn.
  destruct (composite_divisor p Hp Hn) as (q & Hq & Hqp & Hqq). pose proof (Z.prime_ge_2 q Hq).
  unfold trial in Ht. rewrite forallb_forall in Ht. specialize (Ht (Z.to_nat q)).
  rewrite in_seq, negb_true_iff, Z.eqb_neq, Z2Nat.id in Ht by lia.
  exfalso. apply Ht; [nia|]. by apply Z.mod_divide; [lia|].
Qed.
End Pocklington.

Lemma coprime_mul_divide a b q : (a | q) -> (b | q) -> Z.gcd a b = 1 -> (a * b | q).
Proof.
  intros [c ->] Hb Hg. rewrite Z.gcd_comm in Hg. rewrite Z.mul_comm in Hb.
  apply Z.gauss in Hb as [d ->]; [|done]. exists d. ring.
Qed.

Lemma prime_859267 : Z.prime 859267.
Proof. apply (trial_prime _ 930); vm_compute; reflexivity. Qed.
Lemma prime_906349 : Z.prime 906349.
Proof. apply (trial_prime _ 960); vm_compute; reflexivity. Qed.
Lemma prime_2508409 : Z.prime 2508409.
Proof. apply (trial_prime _ 1590); vm_compute; reflexivity. Qed.
Lemma prime_2529403 : Z.prime 2529403.
Proof. apply (trial_prime _ 1595); vm_compute; reflexivity. Qed.

(** The powers of 7 the certificate needs, along a chain of exponents that
    ends in [R - 1]. *)
Definition chain_x : Z := 0x5ABE88813B1010D458C5B0C4DB3D44DC9DA5D193E153ED0AA1CFC6E5449A7E9E.
Definition chain_c : Z := 0x71EBC1177B0F482CB7BF3439DEB2100802F41A3C8D711669FBC46B5AFEDBAC8C.
Definition chain_d : Z := 0x6C215AE4F031215014BB261717292C39BD3FE1071B1FDAA4CF0FCED5CBB7983A.
Definition chain_y1 : Z := 0x73EDA753299D7D483339D80809A1D80553BDA402FFFE5BFEFFFFFFFF00000000.
Definition chain_y2 : Z := 0x672315BDE95B3660335E8A5DCACE029B6404F0331EAE7401FA8C8374CD50438D.
Definition chain_y3 : Z := 0x67EE5D1F3B069511CD89744D5897256537CB1D8475A21D7924A57BA2B69A4D76.
Definition chain_y4 : Z := 0x86FB27A35F67DD3F695A1E882F5BDB7C92D2F844520E02C83A6BCD031849292.
Definition chain_y5 : Z := 0x6D8CEEC08003F0A44F6C0B36A44AB7B7576B0589FA20719FC0B3E86B24AEEACF.
Definition chain_M : Z := 2 * 859267 * 906349 * 2508409 * 2529403.

Lemma chain_x_ok : py_pow 7 ((R - 1) / chain_M) R = chain_x.
Proof. vm_compute. reflexivity. Qed.
Lemma chain_c_ok : py_pow chain_x (2 * 859267 * 906349) R = chain_c.
Proof. vm_compute. reflexivity. Qed.
Lemma chain_d_ok : py_pow chain_x (2508409 * 2529403) R = chain_d.
Proof. vm_compute. reflexivity. Qed.
Lemma chain_y1_ok : py_pow chain_d (859267 * 906349) R = chain_y1.
Proof. vm_compute. reflexivity. Qed.
Lemma chain_y2_ok : py_pow chain_d (2 * 906349) R = chain_y2.
Proof. vm_compute. reflexivity. Qed.
Lemma chain_y3_ok : py_pow chain_d (2 * 859267) R = chain_y3.
Proof. vm_compute. reflexivity. Qed.
Lemma chain_y4_ok : py_pow chain_c 2529403 R = chain_y4.
Proof. vm_compute. reflexivity. Qed.
Lemma chain_y5_ok : py_pow chain_c 2508409 R = chain_y5.
Proof. vm_compute. reflexivity. Qed.
Lemma chain_1_ok : py_pow chain_y5 2529403 R = 1.
Proof. vm_compute. reflexivity. Qed.

Lemma pow_chain a e f g x y : 0 < R -> 0 <= e -> 0 <= f -> g = e * f ->
  a ^ e mod R = x -> py_pow x f R = y -> a ^ g mod R = y.
Proof.
  intros HR He Hf -> Hx Hy. rewrite py_pow_spec in Hy by done. rewrite Z.pow_mul_r by done.
  by rewrite <- Z.mod_pow_l, Hx.
Qed.

Ltac exponents := first [vm_compute; reflexivity | vm_compute; discriminate].

Lemma chain_x_pow : 7 ^ ((R - 1) / chain_M) mod R = chain_x.
Proof. rewrite <- py_pow_spec; [exact chain_x_ok|exponents..]. Qed.
Lemma chain_c_pow : 7 ^ ((R - 1) / (2508409 * 2529403)) mod R = chain_c.
Proof. refine (pow_chain _ _ _ _ _ _ _ _ _ _ chain_x_pow chain_c_ok); exponents. Qed.
Lemma chain_d_pow : 7 ^ ((R - 1) / (2 * 859267 * 906349)) mod R = chain_d.
Proof. refine (pow_chain _ _ _ _ _ _ _ _ _ _ chain_x_pow chain_d_ok); exponents. Qed.
Lemma chain_y5_pow : 7 ^ ((R - 1) / 2529403) mod R = chain_y5.
Proof. refine (pow_chain _ _ _ _ _ _ _ _ _ _ chain_c_pow chain_y5_ok); exponents. Qed.

(** The checks of one prime power. *)
Lemma cofactor_check p e f x y ex : Z.prime p -> 7 ^ ex mod R = x -> py_pow x f R = y ->
  (0 <? e) && ((R - 1) mod p ^ e =? 0) && negb (p ^ e =? 0) && (0 <=? ex) && (0 <=? f) &&
  ((R - 1) / p =? ex * f) && (Z.gcd (y - 1) R =? 1) && (0 <? R) = true -> cofactor R 7 p e.
Proof.
  intros Hp Hx Hy Hb. breflect. split; [done..| |].
  - by apply Z.mod_divide.
  - by rewrite (pow_chain 7 ex f ((R - 1) / p) x y).
Qed.

Lemma R_prime : Z.prime R.
Proof.
  apply (pocklington R 7 [(2, 32); (859267, 1); (906349, 2); (2508409, 1); (2529403, 1)]
    (2 ^ 32 * (859267 ^ 1 * (906349 ^ 2 * (2508409 ^ 1 * 2529403 ^ 1))))); [exponents| | | |exponents..].
  - refine (pow_chain _ _ _ _ _ _ _ _ _ _ chain_y5_pow chain_1_ok); exponents.
  - apply List.Forall_cons; [apply (cofactor_check _ _ _ _ _ _ Z.prime_2 chain_d_pow chain_y1_ok); exponents|].
    apply List.Forall_cons; [apply (cofactor_check _ _ _ _ _ _ prime_859267 chain_d_pow chain_y2_ok); exponents|].
    apply List.Forall_cons; [apply (cofactor_check _ _ _ _ _ _ prime_906349 chain_d_pow chain_y3_ok); exponents|].
    apply List.Forall_cons; [apply (cofactor_check _ _ _ _ _ _ prime_2508409 chain_c_pow chain_y4_ok); exponents|].
    apply List.Forall_cons; [apply (cofactor_check _ _ _ _ _ _ prime_2529403 chain_c_pow chain_y5_ok); exponents|].
    apply List.Forall_nil.
  - intros q Hq. apply coprime_mul_divide; [apply (Hq (2, 32)); set_solver| |exponents].
    apply coprime_mul_divide; [apply (Hq (859267, 1)); set_solver| |exponents].
    apply coprime_mul_divide; [apply (Hq (906349, 2)); set_solver| |exponents].
    apply coprime_mul_divide; [apply (Hq (2508409, 1)); set_solver| |exponents].
    apply (Hq (2529403, 1)). set_solver.
Qed.

(** * The field *)
Lemma R_pos : 0 < R.
Proof. done. Qed.
#[global] Opaque R.

Lemma sf_inv_l a : a mod R <> 0 -> sf_mul (sf_inv a) a = 1.
Proof.
  intros Ha. unfold sf_mul, sf_inv. pose proof R_pos. assert (2 < R) by (by vm_compute).
  rewrite py_pow_spec, Zmult_mod_idemp_l by lia.
  rewrite <- (Z.pow_1_r a) at 2. rewrite <- Z.pow_add_r by lia.
  replace (R - 2 + 1) with (R - 1) by lia. by apply ZmodInv.Z.fermat_nz, Ha; apply R_prime.
Qed.
