(* ===== verification/Shamir.v ===== *)
(** Lagrange interpolation at zero over the scalar field: the recovery of a
    shared secret from any large enough set of shares, as computed by
    src/src/ltp/execution/committee/dkg/scalar_poly.py. *)

From S2P Require Import Prelude ScalarField.
From Stdlib Require Import Zmod Field.

(** * Interpolation in a field *)
Section Interpolation.
Context (F : Type) (fO fI : F) (fadd fmul fsub : F -> F -> F) (fopp : F -> F).
Context (fdiv : F -> F -> F) (finv : F -> F).
Context (Fth : field_theory fO fI fadd fmul fsub fopp fdiv finv eq).
Context `{EqDecision F}.
Add Field Ff : Fth.

Local Infix "+" := fadd.
Local Infix "*" := fmul.
Local Infix "-" := fsub.
Local Infix "/" := fdiv.

(** The weight of point [i] among [S], for evaluation at zero. *)
Definition weight (i : F) (S : list F) : F :=
  fold_right (fun j acc => if decide (j = i) then acc else (fO - j) / (i - j) * acc) fI S.
Definition fsum (xs : list F) : F := fold_right fadd fO xs.
Definition interpolate (f : F -> F) (S : list F) : F := fsum (map (fun i => f i * weight i S) S).

Local Arguments weight : simpl never.

Lemma weight_ne i a S : i <> a -> weight i (a :: S) = (fO - a) / (i - a) * weight i S.
Proof. intros Hne. unfold weight. simpl. by rewrite decide_False. Qed.

Lemma sub_nz a b : a <> b -> a - b <> fO.
Proof. intros Hne E. apply Hne. replace a with ((a - b) + b) by ring. rewrite E. ring. Qed.

Lemma fsum_perm xs ys : xs ≡ₚ ys -> fsum xs = fsum ys.
Proof. unfold fsum. induction 1; simpl; try congruence. ring. Qed.

Lemma weight_perm i S S' : S ≡ₚ S' -> weight i S = weight i S'.
Proof.
  induction 1 as [|x l l' _ IH|x y l|l1 l2 l3 _ IH1 _ IH2]; unfold weight in *; simpl; [done|by rewrite IH| |congruence].
  destruct (decide (x = i)), (decide (y = i)); try done. ring.
Qed.

Lemma interpolate_perm f S S' : S ≡ₚ S' -> interpolate f S = interpolate f S'.
Proof.
  intros Hp. unfold interpolate. rewrite (fsum_perm _ (map (fun i => f i * weight i S) S')) by (by rewrite Hp).
  f_equal. apply map_ext. intros i. by rewrite (weight_perm i S S').
Qed.

Lemma fsum_linear c d (f g : F -> F) l :
  fsum (map (fun i => c * f i + d * g i) l) = c * fsum (map f l) + d * fsum (map g l).
Proof. unfold fsum. induction l as [|x l IH]; simpl; [ring|]. rewrite IH. ring. Qed.

Lemma interpolate_linear c d f g S :
  interpolate (fun x => c * f x + d * g x) S = c * interpolate f S + d * interpolate g S.
Proof. unfold interpolate. rewrite <- fsum_linear. f_equal. apply map_ext. intros. ring. Qed.

Lemma interpolate_ext f g S : (forall x, x ∈ S -> f x = g x) -> interpolate f S = interpolate g S.
Proof.
  intros Hfg. unfold interpolate. f_equal. apply map_ext_in. intros x Hx%list_elem_of_In. by rewrite Hfg.
Qed.

Lemma interpolate_sum (gs : list (F -> F)) S :
  interpolate (fun x => fsum (map (fun g => g x) gs)) S = fsum (map (fun g => interpolate g S) gs).
Proof.
  induction gs as [|g gs IH]; simpl.
  - unfold interpolate. enough (forall l, fsum (map (fun i => fO * weight i S) l) = fO) as He by apply He.
    unfold fsum. induction l as [|x l IHl]; simpl; [done|]. rewrite IHl. ring.
  - rewrite <- IH. replace (fadd (interpolate g S) _) with
      (fI * interpolate g S + fI * interpolate (fun x => fsum (map (fun g => g x) gs)) S) by ring.
    rewrite <- interpolate_linear. apply interpolate_ext. intros. unfold fsum. simpl. ring.
Qed.

(** A factor [x - a] removes the point [a]. *)
Lemma interpolate_factor g a S : a ∉ S -> interpolate (fun x => (x - a) * g x) (a :: S) = (fO - a) * interpolate g S.
Proof.
  intros Ha. unfold interpolate.
  assert (forall l, a ∉ l -> fsum (map (fun i => (i - a) * g i * weight i (a :: S)) l) =
    (fO - a) * fsum (map (fun i => g i * weight i S) l)) as Hl.
  { unfold fsum. induction l as [|x l IH]; intros Hx; simpl; [ring|].
    apply not_elem_of_cons in Hx as [Hx Hl]. rewrite IH by done. rewrite weight_ne by done.
    field. by apply sub_nz. }
  simpl. rewrite Hl by done. ring.
Qed.

Lemma interpolate_one S : NoDup S -> S <> [] -> interpolate (fun _ => fI) S = fI.
Proof.
  remember (length S) as n eqn:En. revert S En. induction n as [|n IH]; intros S En Hnd Hne; [by destruct S|].
  destruct S as [|a [|b S]]; [done| |].
  - unfold interpolate, weight, fsum. simpl. rewrite decide_True by done. ring.
  - apply NoDup_cons in Hnd as [Ha Hnd]. pose proof Hnd as [Hb HS]%NoDup_cons.
    assert (a <> b /\ a ∉ S) as [Hab HaS] by (by apply not_elem_of_cons in Ha).
    assert (b - a <> fO) as Hnz by (apply sub_nz; congruence).
    rewrite (interpolate_ext _ (fun x => fI / (b - a) * ((x - a) * fI) + fopp (fI / (b - a)) * ((x - b) * fI)))
      by (intros; field; done).
    rewrite interpolate_linear, interpolate_factor by done.
    rewrite (interpolate_perm _ (a :: b :: S) (b :: a :: S)) by constructor.
    rewrite interpolate_factor by (apply not_elem_of_cons; done).
    rewrite !IH; [field; done|simpl in *; lia|by constructor|done|simpl in *; lia|done..].
Qed.

(** ** Polynomials *)
Definition peval (cs : list F) (x : F) : F := fold_right (fun c acc => c + x * acc) fO cs.

Lemma peval_factor cs a : exists g, length g = pred (length cs) /\
  forall x, peval cs x = peval cs a + (x - a) * peval g x.
Proof.
  induction cs as [|c cs (g & Hg & IH)]; [exists []; split; [done|intros; simpl; ring]|].
  destruct cs as [|c' cs].
  - exists []. split; [done|]. intros x. simpl. ring.
  - exists (peval (c' :: cs) a :: g). split; [simpl in *; lia|]. intros x.
    change (peval (c :: c' :: cs) x) with (c + x * peval (c' :: cs) x).
    change (peval (c :: c' :: cs) a) with (c + a * peval (c' :: cs) a).
    change (peval (peval (c' :: cs) a :: g) x) with (peval (c' :: cs) a + x * peval g x).
    rewrite (IH x). ring.
Qed.

Lemma interpolate_poly cs S : NoDup S -> (length cs <= length S)%nat -> interpolate (peval cs) S = peval cs fO.
Proof.
  revert cs. induction S as [|a S IH]; intros cs Hnd Hl.
  - destruct cs; [done|simpl in Hl; lia].
  - apply NoDup_cons in Hnd as Hnd'. destruct Hnd' as [Ha HS].
    destruct (peval_factor cs a) as (g & Hg & E).
    rewrite (interpolate_ext _ (fun x => peval cs a * fI + fI * ((x - a) * peval g x))) by (intros x _; rewrite E; ring).
    rewrite interpolate_linear, interpolate_factor, interpolate_one, IH by (done || (simpl in Hl; lia)).
    rewrite (E fO). ring.
Qed.
End Interpolation.
#[global] Arguments weight : simpl never.

(** * The scalar field *)
Abbreviation Fr := (Zmod R).
Abbreviation fr := (Zmod.of_Z R).

#[export] Instance Fr_eq_dec : EqDecision Fr.
Proof.
  intros x y. destruct (decide (Zmod.to_Z x = Zmod.to_Z y)) as [E|E]; [left|right; congruence].
  by apply Zmod.to_Z_inj.
Defined.

Abbreviation fr_weight := (weight Fr Zmod.zero Zmod.one Zmod.mul Zmod.sub Zmod.mdiv).
Abbreviation fr_peval := (peval Fr Zmod.zero Zmod.add Zmod.mul).
Abbreviation fr_interpolate := (interpolate Fr Zmod.zero Zmod.one Zmod.add Zmod.mul Zmod.sub Zmod.mdiv).

Definition Fr_field := Zmod.field_theory R R_prime.
Add Field Fr_field_decl : Fr_field.

Lemma fr_add a b : fr (sf_add a b) = Zmod.add (fr a) (fr b).
Proof. unfold sf_add. by rewrite Zmod.of_Z_mod, Zmod.of_Z_add. Qed.
Lemma fr_mul a b : fr (sf_mul a b) = Zmod.mul (fr a) (fr b).
Proof. unfold sf_mul. by rewrite Zmod.of_Z_mod, Zmod.of_Z_mul. Qed.
Lemma fr_neg a : fr (sf_neg a) = Zmod.sub Zmod.zero (fr a).
Proof. unfold sf_neg. rewrite Zmod.of_Z_mod, Zmod.of_Z_opp. ring. Qed.

Lemma fr_zero a : fr a = Zmod.zero <-> a mod R = 0.
Proof. rewrite <- Zmod.of_Z_0, Zmod.of_Z_inj, Z.mod_0_l by (pose proof R_pos; lia). done. Qed.

Lemma fr_inj a b : 0 <= a < R -> 0 <= b < R -> fr a = fr b -> a = b.
Proof. intros Ha Hb E%Zmod.of_Z_inj. by rewrite !Z.mod_small in E. Qed.

Lemma fr_inv a : fr a <> Zmod.zero -> fr (sf_inv a) = Zmod.inv (fr a).
Proof.
  intros Ha. assert (sf_mul (sf_inv a) a = 1) as E by (apply sf_inv_l; by rewrite <- fr_zero).
  apply (f_equal fr) in E. rewrite fr_mul in E.
  replace (fr (sf_inv a)) with (Zmod.mul (Zmod.mul (fr (sf_inv a)) (fr a)) (Zmod.inv (fr a))) by (field; done).
  rewrite E. change (fr 1) with (Zmod.one (m := R)). ring.
Qed.

Lemma fr_evaluate cs x : fr (evaluate cs x) = fr_peval (map fr cs) (fr x).
Proof.
  unfold evaluate. rewrite <- fold_left_rev_right, rev_involutive.
  induction cs as [|c cs IH]; simpl; [apply Zmod.of_Z_0|]. rewrite fr_add, fr_mul, IH. ring.
Qed.

Lemma sf_range_add a b : 0 <= sf_add a b < R.
Proof. apply Z.mod_pos_bound, R_pos. Qed.
Lemma sf_range_mul a b : 0 <= sf_mul a b < R.
Proof. apply Z.mod_pos_bound, R_pos. Qed.

Lemma evaluate_range cs x : 0 <= evaluate cs x < R.
Proof.
  unfold evaluate. rewrite <- fold_left_rev_right, rev_involutive.
  destruct cs; simpl; [pose proof R_pos; lia|apply sf_range_add].
Qed.

Lemma lagrange_weight i S : 0 <= i < R -> Forall (fun j => 0 <= j < R) S ->
  fr (lagrange_coefficient i S) = fr_weight (fr i) (map fr S).
Proof.
  intros Hi HS. unfold lagrange_coefficient.
  assert (forall nd, fr nd.2 <> Zmod.zero ->
    let '(num, den) := fold_left (fun nd j => if j =? i then nd
      else (sf_mul nd.1 (sf_neg j), sf_mul nd.2 ((i - j) mod R))) S nd in
    fr den <> Zmod.zero /\
    Zmod.mdiv (fr num) (fr den) = Zmod.mul (Zmod.mdiv (fr nd.1) (fr nd.2)) (fr_weight (fr i) (map fr S))) as Hfold.
  { induction HS as [|j S Hj HS IH]; intros [n d] Hd; simpl in *.
    - split; [done|]. unfold weight; simpl. ring.
    - destruct (Z.eqb_spec j i) as [->|Hne].
      + specialize (IH (n, d) Hd). destruct (fold_left _ _ _) as [num den]. destruct IH as [? ->]. split; [done|].
        unfold weight; simpl. by rewrite decide_True.
      + assert (fr i <> fr j) as Hf by (intros E; apply fr_inj in E; auto).
        assert (Zmod.sub (fr i) (fr j) <> Zmod.zero) as Hs by (by apply (sub_nz _ _ _ _ _ _ _ _ _ Fr_field)).
        specialize (IH (sf_mul n (sf_neg j), sf_mul d ((i - j) mod R))). simpl in IH.
        assert (fr (sf_mul d ((i - j) mod R)) = Zmod.mul (fr d) (Zmod.sub (fr i) (fr j))) as Ed
          by (by rewrite fr_mul, Zmod.of_Z_mod, Zmod.of_Z_sub).
        rewrite Ed in IH. destruct (fold_left _ _ _) as [num den]. destruct IH as [? ->].
        { intros E. apply Zmod.mul_0_iff_prime in E; [|apply R_prime]. tauto. }
        split; [done|]. rewrite fr_mul, fr_neg.
        rewrite (weight_ne _ _ _ _ _ _) by congruence. field. done. }
  specialize (Hfold (1, 1)). destruct (fold_left _ _ _) as [num den]. simpl in Hfold.
  assert (fr 1 <> Zmod.zero) as H1 by (rewrite fr_zero; rewrite Z.mod_small; pose proof R_prime as HR; apply Z.prime_ge_2 in HR; lia).
  destruct (Hfold H1) as [Hd E]. rewrite fr_mul, fr_inv by done.
  change (fr 1) with (Zmod.one (m := R)) in E, H1.
  transitivity (Zmod.mdiv (fr num) (fr den)); [field; done|]. rewrite E. field. done.
Qed.

(** ** Reconstruction *)
Definition sf_sum (xs : list Z) : Z := fold_left sf_add xs 0.

Lemma fr_sum xs : fr (sf_sum xs) = fsum Fr Zmod.zero Zmod.add (map fr xs).
Proof.
  unfold sf_sum, fsum. assert (forall a, fr (fold_left sf_add xs a) = Zmod.add (fr a) (fold_right Zmod.add Zmod.zero (map fr xs))) as H.
  { induction xs as [|x xs IH]; intros a; simpl; [ring|]. rewrite IH, fr_add. ring. }
  rewrite H, Zmod.of_Z_0. ring.
Qed.

Lemma sf_sum_range xs : 0 <= sf_sum xs < R.
Proof.
  unfold sf_sum. destruct xs as [|x xs] using rev_ind; [pose proof R_pos; simpl; lia|].
  rewrite fold_left_app. apply sf_range_add.
Qed.

(** The sum of several shared secrets is recovered from the sums of shares. *)
Lemma shamir_reconstruct (fs : list (list Z)) S : NoDup S -> Forall (fun j => 0 <= j < R) S ->
  Forall (fun cs => (length cs <= length S)%nat) fs ->
  sf_sum (map (fun i => sf_mul (lagrange_coefficient i S) (sf_sum (map (fun cs => evaluate cs i) fs))) S) =
  sf_sum (map (fun cs => evaluate cs 0) fs).
Proof.
  intros Hnd HS Hl. apply fr_inj; [apply sf_sum_range..|].
  rewrite !fr_sum, !map_map.
  assert (NoDup (map fr S)) as Hnd'.
  { apply NoDup_fmap_2_strong; [|done]. intros x y Hx Hy. rewrite Forall_forall in HS. apply fr_inj; auto. }
  transitivity (fr_interpolate (fun x => fsum Fr Zmod.zero Zmod.add (map (fun g => g x) (map (fun cs => fr_peval (map fr cs)) fs))) (map fr S)).
  - unfold interpolate. rewrite map_map. f_equal. apply map_ext_in. intros i Hi%list_elem_of_In.
    rewrite fr_mul, lagrange_weight by (rewrite ?Forall_forall in *; auto).
    rewrite fr_sum, !map_map. rewrite (map_ext (fun cs => fr (evaluate cs i)) (fun cs => fr_peval (map fr cs) (fr i)))
      by (intros; apply fr_evaluate). ring.
  - rewrite (interpolate_sum _ _ _ _ _ _ _ _ _ Fr_field), map_map. f_equal. apply map_ext_in.
    intros cs Hcs%list_elem_of_In. rewrite Forall_forall in Hl.
    rewrite (interpolate_poly _ _ _ _ _ _ _ _ _ Fr_field); [|done|rewrite !length_map; auto].
    by rewrite fr_evaluate, Zmod.of_Z_0.
Qed.
