(* ===== verification/Dkg.v ===== *)
(** Distributed key generation and threshold signing,
    src/src/ltp/execution/committee/dkg/ (vss.py, session.py,
    threshold_signing.py, registry.py, types.py).

    The curve arithmetic is the third-party library behind zk/ec_backend.py; it
    is the class [CurveGroup], a group of prime order [R] with a serialization.
    Random polynomials are arguments. *)

From S2P Require Import Prelude Primitives Bls ScalarField Shamir.
From Stdlib Require Import Zmod.

(** * zk/ec_backend.py: a group of order [R] written additively *)
Class CurveGroup (G : Type) : Type := {
  g_identity : G;
  g_add : G -> G -> G;
  g_scalar_mul : G -> Z -> G;
  g_eq : G -> G -> bool;
  g_serialize : G -> bytes;
  g_deserialize : bytes -> result G;
  g_add_comm P Q : g_add P Q = g_add Q P;
  g_add_assoc P Q S : g_add P (g_add Q S) = g_add (g_add P Q) S;
  g_add_id P : g_add g_identity P = P;
  g_mul_0 P : g_scalar_mul P 0 = g_identity;
  g_mul_1 P : g_scalar_mul P 1 = P;
  g_mul_add P a b : g_scalar_mul P (a + b) = g_add (g_scalar_mul P a) (g_scalar_mul P b);
  g_mul_mul P a b : g_scalar_mul (g_scalar_mul P a) b = g_scalar_mul P (a * b);
  g_mul_dist P Q a : g_scalar_mul (g_add P Q) a = g_add (g_scalar_mul P a) (g_scalar_mul Q a);
  g_mul_mod P a : g_scalar_mul P (a mod R) = g_scalar_mul P a;
  g_eq_spec P Q : g_eq P Q = true <-> P = Q;
  g_des_ser P : g_deserialize (g_serialize P) = Ok P
}.

(** * types.py *)
Inductive DKGState : Type :=
| IDLE | COMMITTING | SHARING | VERIFYING | COMPLAINING | FINALIZING | COMPLETED | FAILED.
#[export] Instance DKGState_eq_dec : EqDecision DKGState.
Proof. solve_decision. Defined.

Inductive DKGPhase : Type := EAGER | INLINE.

Record DKGCommitment : Type := {
  dc_dealer_fp : bytes;
  feldman_commitments : list bytes;
  pedersen_commitments : list bytes;
  dc_round_id : Z
}.
Record DKGShare : Type := {
  ds_dealer_fp : bytes;
  ds_recipient_fp : bytes;
  ds_share : Z;
  ds_blinding_share : Z
}.
Record DKGComplaint : Type := {
  complainant_fp : bytes;
  dcm_dealer_fp : bytes;
  revealed_share : Z;
  revealed_blinding : Z;
  dcm_round_id : Z
}.
Record DKGResult : Type := {
  dr_vm_tag : Z;
  dr_epoch : Z;
  dr_group_pk : bytes;
  participant_vks : list (bytes * bytes);
  dr_threshold : Z;
  qual_set : gset bytes;
  dr_phase : DKGPhase;
  my_secret_share : option Z
}.
Record DKGSessionConfig : Type := {
  cfg_vm_tag : Z;
  cfg_epoch : Z;
  cfg_threshold : Z;
  cfg_participants : list bytes;
  cfg_timeout_rounds : Z;
  cfg_start_round : Z
}.

(** * threshold_signing.py: types *)
Record ThresholdSigningKey : Type := {
  participant_fp : bytes;
  participant_index : Z;
  secret_share : Z;
  group_pk : bytes;
  tk_threshold : Z;
  tk_epoch : Z;
  tk_vm_tag : Z
}.
Record PartialSignature : Type := {
  signer_fp : bytes;
  signer_index : Z;
  ps_signature : bytes;
  ps_epoch : Z
}.

Section Dkg.
Context {G1 : Type} `{CurveGroup G1}.
(** The generators [G_POINT] and [H_POINT]. *)
Context (G_POINT H_POINT : G1).

(** * vss.py: [PedersenVSS] *)
Definition generate_commitments (secret_poly blinding_poly : list Z) : list bytes * list bytes :=
  let rows := map (fun sb : Z * Z =>
    let s_G := g_scalar_mul G_POINT sb.1 in
    let b_H := g_scalar_mul H_POINT sb.2 in
    (g_serialize s_G, g_serialize (g_add s_G b_H))) (zip secret_poly blinding_poly) in
  (rows.*1, rows.*2).

Definition create_share (secret_poly blinding_poly : list Z) (recipient_index : Z) : Z * Z :=
  (evaluate secret_poly recipient_index, evaluate blinding_poly recipient_index).

(** [g1_add(p, q) if p is not None else q]: [None] is the identity. *)
Definition add_or (p q : G1) : G1 := if g_eq p g_identity then q else g_add p q.

Definition verify_share (recipient_index share blinding_share : Z) (pedersen_commitments : list bytes) : result bool :=
  let lhs := g_add (g_scalar_mul G_POINT share) (g_scalar_mul H_POINT blinding_share) in
  '(rhs, _) ← foldM (fun st commitment_bytes =>
      let '(rhs, x_power) := (st : G1 * Z) in
      c_point ← g_deserialize commitment_bytes;
      Ok (add_or rhs (g_scalar_mul c_point x_power), sf_mul x_power recipient_index))
    (g_identity, 1) pedersen_commitments;
  Ok (g_eq lhs rhs).

(** * session.py: [DKGSession] *)
Record DKGSession : Type := {
  config : DKGSessionConfig;
  state : DKGState;
  my_fp : bytes;
  my_index : Z;
  secret_poly : option (list Z);
  blinding_poly : option (list Z);
  commitments : list (bytes * DKGCommitment);
  shares : list (bytes * DKGShare);
  complaints : list DKGComplaint;
  qual : gset bytes
}.

Definition new_session (config : DKGSessionConfig) (my_fp : bytes) (my_index : Z) : DKGSession :=
  {| config := config; state := IDLE; my_fp := my_fp; my_index := my_index; secret_poly := None;
     blinding_poly := None; commitments := []; shares := []; complaints := []; qual := ∅ |}.

Definition with_state (s : DKGSession) (st : DKGState) : DKGSession :=
  {| config := config s; state := st; my_fp := my_fp s; my_index := my_index s; secret_poly := secret_poly s;
     blinding_poly := blinding_poly s; commitments := commitments s; shares := shares s;
     complaints := complaints s; qual := qual s |}.

(** [begin], with the coefficients [ScalarPoly.random(threshold - 1)] draws. *)
Definition begin (s : DKGSession) (secret blinding : list Z) :
  result (DKGCommitment * list (bytes * DKGShare) * DKGSession) :=
  if negb (bool_decide (state s = IDLE)) then Err (ValueError "cannot begin: state is not IDLE")
  else
    let '(feldman, pedersen) := generate_commitments secret blinding in
    let commitment := {| dc_dealer_fp := my_fp s; feldman_commitments := feldman;
                         pedersen_commitments := pedersen; dc_round_id := cfg_start_round (config s) |} in
    let out := fold_left (fun out ifp =>
      if decide (ifp.2 = my_fp s) then out
      else let '(sh, b) := create_share secret blinding (Z.of_nat ifp.1 + 1) in
           dict_set out ifp.2 {| ds_dealer_fp := my_fp s; ds_recipient_fp := ifp.2; ds_share := sh; ds_blinding_share := b |})
      (imap pair (cfg_participants (config s))) [] in
    Ok (commitment, out,
        {| config := config s; state := COMMITTING; my_fp := my_fp s; my_index := my_index s;
           secret_poly := Some secret; blinding_poly := Some blinding;
           commitments := dict_set (commitments s) (my_fp s) commitment; shares := shares s;
           complaints := complaints s; qual := qual s |}).

Definition receive_commitment (s : DKGSession) (commitment : DKGCommitment) : DKGSession :=
  {| config := config s; state := state s; my_fp := my_fp s; my_index := my_index s;
     secret_poly := secret_poly s; blinding_poly := blinding_poly s;
     commitments := dict_set (commitments s) (dc_dealer_fp commitment) commitment;
     shares := shares s; complaints := complaints s; qual := qual s |}.

Definition end_commitment_phase (s : DKGSession) : DKGSession := with_state s SHARING.

Definition receive_share (s : DKGSession) (share : DKGShare) : DKGSession :=
  {| config := config s; state := state s; my_fp := my_fp s; my_index := my_index s;
     secret_poly := secret_poly s; blinding_poly := blinding_poly s; commitments := commitments s;
     shares := dict_set (shares s) (ds_dealer_fp share) share;
     complaints := complaints s; qual := qual s |}.

Definition end_sharing_phase (s : DKGSession) : result (list DKGComplaint * DKGSession) :=
  cs ← foldM (fun cs ds =>
      let '(dealer_fp, share) := (ds : bytes * DKGShare) in
      match dict_find (commitments s) dealer_fp with
      | None => Ok cs
      | Some commitment =>
          valid ← verify_share (my_index s) (ds_share share) (ds_blinding_share share) (pedersen_commitments commitment);
          Ok (if negb valid then
                cs ++ [{| complainant_fp := my_fp s; dcm_dealer_fp := dealer_fp; revealed_share := ds_share share;
                          revealed_blinding := ds_blinding_share share; dcm_round_id := cfg_start_round (config s) |}]
              else cs)
      end) [] (shares s);
  Ok (cs, {| config := config s; state := COMPLAINING; my_fp := my_fp s; my_index := my_index s;
             secret_poly := secret_poly s; blinding_poly := blinding_poly s; commitments := commitments s;
             shares := shares s; complaints := cs; qual := qual s |}).

Definition receive_complaint (s : DKGSession) (complaint : DKGComplaint) : DKGSession :=
  {| config := config s; state := state s; my_fp := my_fp s; my_index := my_index s;
     secret_poly := secret_poly s; blinding_poly := blinding_poly s; commitments := commitments s;
     shares := shares s; complaints := complaints s ++ [complaint]; qual := qual s |}.

(** [list.index(x)]: raises [ValueError] when absent. *)
Definition py_index (xs : list bytes) (x : bytes) : result Z :=
  match list_find (eq x) xs with
  | Some (i, _) => Ok (Z.of_nat i)
  | None => Err (ValueError "not in list")
  end.

(** A loop that updates [self._qual] in place: what it leaves there, and the
    exception that stopped it. *)
Fixpoint fold_until {A S} (f : S -> A -> result S) (s : S) (xs : list A) : S * option exn :=
  match xs with
  | [] => (s, None)
  | x :: xs => match f s x with Ok s' => fold_until f s' xs | Err e => (s, Some e) end
  end.

(** The dealers that remain after the complaints. *)
Definition resolve_qual (s : DKGSession) : gset bytes * option exn :=
  fold_until (fun qual complaint =>
      match dict_find (commitments s) (dcm_dealer_fp complaint) with
      | None => Ok qual
      | Some commitment =>
          i ← py_index (cfg_participants (config s)) (complainant_fp complaint);
          valid ← verify_share (i + 1) (revealed_share complaint) (revealed_blinding complaint)
                    (pedersen_commitments commitment);
          Ok (if negb valid then qual ∖ {[dcm_dealer_fp complaint]} else qual)
      end) (list_to_set (commitments s).*1) (complaints s).

(** The sum of the dealers' first Feldman commitments. *)
Definition group_point_of (s : DKGSession) (qual : gset bytes) : result G1 :=
  foldM (fun p fp =>
      c ← or_raise KeyError (dict_find (commitments s) fp);
      c0 ← or_raise IndexError (head (feldman_commitments c));
      pt ← g_deserialize c0;
      Ok (add_or p pt)) g_identity (elements qual).

Definition my_share_of (s : DKGSession) (qual : gset bytes) : result Z :=
  foldM (fun acc fp =>
      if decide (fp = my_fp s) then
        poly ← or_raise AttributeError (secret_poly s);
        Ok (sf_add acc (evaluate poly (my_index s)))
      else match dict_find (shares s) fp with
           | Some share => Ok (sf_add acc (ds_share share))
           | None => Ok acc
           end) 0 (elements qual).

Definition with_qual (s : DKGSession) (st : DKGState) (q : gset bytes) : DKGSession :=
  {| config := config s; state := st; my_fp := my_fp s; my_index := my_index s; secret_poly := secret_poly s;
     blinding_poly := blinding_poly s; commitments := commitments s; shares := shares s;
     complaints := complaints s; qual := q |}.

(** [finalize]: the outcome and the session as it is left. *)
Definition finalize (s : DKGSession) : result (DKGResult * ThresholdSigningKey) * DKGSession :=
  match resolve_qual s with
  | (q, Some e) => (Err e, with_qual s FINALIZING q)
  | (q, None) =>
      if Z.of_nat (size q) <? cfg_threshold (config s)
      then (Err (ValueError "QUAL set too small"), with_qual s FAILED q)
      else
        match (group_point ← group_point_of s q; share ← my_share_of s q; Ok (group_point, share)) with
        | Err e => (Err e, with_qual s FINALIZING q)
        | Ok (group_point, share) =>
            let my_vk := g_serialize (g_scalar_mul G_POINT share) in
            let group_pk_bytes := g_serialize group_point in
            (Ok ({| dr_vm_tag := cfg_vm_tag (config s); dr_epoch := cfg_epoch (config s);
                    dr_group_pk := group_pk_bytes; participant_vks := [(my_fp s, my_vk)];
                    dr_threshold := cfg_threshold (config s); qual_set := q; dr_phase := EAGER;
                    my_secret_share := Some share |},
                 {| participant_fp := my_fp s; participant_index := my_index s; secret_share := share;
                    group_pk := group_pk_bytes; tk_threshold := cfg_threshold (config s);
                    tk_epoch := cfg_epoch (config s); tk_vm_tag := cfg_vm_tag (config s) |}),
             with_qual s COMPLETED q)
        end
  end.

Definition abort (s : DKGSession) : DKGSession := with_state s FAILED.

Definition check_timeout (s : DKGSession) (current_round : Z) : bool * DKGSession :=
  if cfg_start_round (config s) + cfg_timeout_rounds (config s) <=? current_round
  then (true, with_state s FAILED) else (false, s).

(** * registry.py: [DKGKeyRegistry] *)
Record DKGKeyRegistry : Type := { kr_vm_tag : Z; kr_epochs : gmap Z DKGResult }.

Definition new_registry (vm_tag : Z) : DKGKeyRegistry := {| kr_vm_tag := vm_tag; kr_epochs := ∅ |}.

Definition kr_store (kr : DKGKeyRegistry) (res : DKGResult) : result DKGKeyRegistry :=
  match kr_epochs kr !! dr_epoch res with
  | Some _ => Err (ValueError "epoch already has a group key")
  | None =>
      if negb (dr_vm_tag res =? kr_vm_tag kr) then Err (ValueError "vm_tag mismatch")
      else Ok {| kr_vm_tag := kr_vm_tag kr; kr_epochs := <[dr_epoch res := res]> (kr_epochs kr) |}
  end.

Definition kr_get (kr : DKGKeyRegistry) (epoch : Z) : result DKGResult :=
  or_raise KeyError (kr_epochs kr !! epoch).

(** [self._epochs[max(self._epochs)]] *)
Definition kr_current (kr : DKGKeyRegistry) : option DKGResult :=
  match elements (dom (kr_epochs kr)) with
  | [] => None
  | e :: es => kr_epochs kr !! fold_left Z.max es e
  end.

Definition kr_group_pk (kr : DKGKeyRegistry) (epoch : Z) : result bytes :=
  res ← kr_get kr epoch; Ok (dr_group_pk res).

Definition kr_has_epoch (kr : DKGKeyRegistry) (epoch : Z) : bool := bool_decide (is_Some (kr_epochs kr !! epoch)).
Definition kr_epoch_count (kr : DKGKeyRegistry) : Z := Z.of_nat (size (kr_epochs kr)).

(** * threshold_signing.py *)
Definition DOMAIN_ATTESTATION : bytes := lit "ETP-THRESHOLD-ATTESTATION:v1".
Definition DOMAIN_STATE_ROOT : bytes := lit "ETP-THRESHOLD-STATE-ROOT:v1".
Definition DOMAIN_CROSS_VM : bytes := lit "ETP-THRESHOLD-CROSS-VM:v1".

Section Signing.
Context {G2 : Type} `{CurveGroup G2}.
(** [hash_to_G2] with the standard tag, [g1_compress], and the pairing library
    behind [BLS.verify]. *)
Context (hash_to_G2 : bytes -> G2) (g1_compress : G1 -> bytes) (bls : option bls_library).

Definition partial_sign (key : ThresholdSigningKey) (message domain : bytes) : PartialSignature :=
  let tagged := domain ++ message in
  let h_point := hash_to_G2 tagged in
  let sig_point := g_scalar_mul h_point (secret_share key) in
  {| signer_fp := participant_fp key; signer_index := participant_index key;
     ps_signature := g_serialize sig_point; ps_epoch := tk_epoch key |}.

Definition combine_partial_signatures (partials : list PartialSignature) (threshold : Z) : result bytes :=
  if Z.of_nat (length partials) <? threshold then Err (ValueError "Need at least threshold partials")
  else
    let indices := map signer_index partials in
    combined ← foldM (fun combined partial =>
        let li := lagrange_coefficient (signer_index partial) indices in
        sig_point ← g_deserialize (ps_signature partial);
        Ok (g_add combined (g_scalar_mul sig_point li))) (g_identity : G2) partials;
    Ok (g_serialize combined).

Definition threshold_verify (group_pk message signature domain : bytes) : result bool :=
  let tagged := domain ++ message in
  group_pk_point ← g_deserialize group_pk;
  BLS_verify bls (g1_compress group_pk_point) tagged signature.
End Signing.

(** What the code relies on of the pairing library and the point encodings:
    compressed keys have 48 bytes and signatures 96; [Verify] accepts the
    signature made with a secret under its key, and, as [KeyValidate] requires,
    nothing under the identity, the key of the secret 0. *)
Record bls_standard {G1 G2} `{CurveGroup G1} `{CurveGroup G2} (GP : G1) (hash_to_G2 : bytes -> G2) (g1_compress : G1 -> bytes)
    (lib : bls_library) : Prop := {
  std_pk_size P : len (g1_compress P) = PK_SIZE;
  std_sig_size (Q : G2) : len (g_serialize Q) = SIG_SIZE;
  std_accepts s m : s mod R <> 0 ->
    lib_verify lib (g1_compress (g_scalar_mul GP s)) m (g_serialize (g_scalar_mul (hash_to_G2 m) s)) = true;
  std_identity m sig : lib_verify lib (g1_compress g_identity) m sig = false
}.

(** * Lemmas *)
Lemma add_or_spec p q : add_or p q = g_add p q.
Proof. unfold add_or. destruct (g_eq p g_identity) eqn:E; [|done]. apply g_eq_spec in E as ->. by rewrite g_add_id. Qed.

(** Unreduced evaluation. *)
Definition zeval (cs : list Z) (x : Z) : Z := fold_right (fun c acc => c + x * acc) 0 cs.

Lemma evaluate_zeval cs x : evaluate cs x = zeval cs x mod R.
Proof.
  unfold evaluate, zeval. rewrite <- fold_left_rev_right, rev_involutive.
  induction cs as [|c cs IH]; simpl; [by rewrite Z.mod_0_l by (pose proof R_pos; lia)|].
  rewrite IH. unfold sf_add, sf_mul. rewrite Zmult_mod_idemp_l, Zplus_mod_idemp_l. f_equal. ring.
Qed.

Lemma g_mul_evaluate P cs x : g_scalar_mul P (evaluate cs x) = g_scalar_mul P (zeval cs x).
Proof. by rewrite evaluate_zeval, g_mul_mod. Qed.

(** Rearranging sums of points. *)
Lemma g_add_swap (a b c d : G1) : g_add (g_add a b) (g_add c d) = g_add (g_add a c) (g_add b d).
Proof. rewrite !g_add_assoc. f_equal. rewrite <- !g_add_assoc. f_equal. apply g_add_comm. Qed.

Lemma rhs_fold i rows : forall rhs x,
  exists x', foldM (fun st commitment_bytes =>
      let '(rhs, x_power) := (st : G1 * Z) in
      c_point ← g_deserialize commitment_bytes;
      Ok (add_or rhs (g_scalar_mul c_point x_power), sf_mul x_power i)) (rhs, x)
    (map (fun sb : Z * Z => g_serialize (g_add (g_scalar_mul G_POINT sb.1) (g_scalar_mul H_POINT sb.2))) rows) =
  Ok (g_add rhs (g_add (g_scalar_mul G_POINT (x * zeval rows.*1 i)) (g_scalar_mul H_POINT (x * zeval rows.*2 i))), x').
Proof.
  induction rows as [|[s b] rows IH]; intros rhs x; simpl.
  - exists x. rewrite !Z.mul_0_r, !g_mul_0, g_add_id, g_add_comm, g_add_id. done.
  - rewrite g_des_ser. simpl. destruct (IH (add_or rhs (g_scalar_mul (g_add (g_scalar_mul G_POINT s) (g_scalar_mul H_POINT b)) x))
      (sf_mul x i)) as (x' & ->). exists x'. f_equal. f_equal.
    rewrite add_or_spec, <- g_add_assoc. f_equal. rewrite g_mul_dist, !g_mul_mul, g_add_swap.
    assert (forall P c z, g_add (g_scalar_mul P (c * x)) (g_scalar_mul P (sf_mul x i * z)) = g_scalar_mul P (x * (c + i * z))) as E.
    { intros P c z. rewrite <- g_mul_add, <- (g_mul_mod P (x * _)), <- g_mul_mod. f_equal. unfold sf_mul.
      rewrite <- Zplus_mod_idemp_r, Zmult_mod_idemp_l, Zplus_mod_idemp_r. f_equal. ring. }
    by rewrite !E.
Qed.

(** What the check of a share decides, for commitments of known polynomials. *)
Lemma verify_share_spec sp bp i sh bl : length sp = length bp ->
  verify_share i sh bl (generate_commitments sp bp).2 =
  Ok (g_eq (g_add (g_scalar_mul G_POINT sh) (g_scalar_mul H_POINT bl))
           (g_add (g_scalar_mul G_POINT (evaluate sp i)) (g_scalar_mul H_POINT (evaluate bp i)))).
Proof.
  intros Hl. unfold verify_share, generate_commitments. cbn [snd].
  match goal with |- context [foldM ?f ?s0 ?l] =>
    replace l with (map (fun sb : Z * Z =>
      g_serialize (g_add (g_scalar_mul G_POINT sb.1) (g_scalar_mul H_POINT sb.2))) (zip sp bp)) end.
  2: { change (map (fun sb : Z * Z => g_serialize (g_add (g_scalar_mul G_POINT sb.1) (g_scalar_mul H_POINT sb.2))) (zip sp bp) =
         map snd (map (fun sb : Z * Z => (g_serialize (g_scalar_mul G_POINT sb.1),
           g_serialize (g_add (g_scalar_mul G_POINT sb.1) (g_scalar_mul H_POINT sb.2)))) (zip sp bp))).
       by rewrite map_map. }
  destruct (rhs_fold i (zip sp bp) g_identity 1) as (x' & ->). simpl.
  rewrite g_add_id, !Z.mul_1_l, !g_mul_evaluate.
  rewrite fst_zip, snd_zip by lia. done.
Qed.

Lemma receive_commitments cs s : fold_left receive_commitment cs s =
  {| config := config s; state := state s; my_fp := my_fp s; my_index := my_index s;
     secret_poly := secret_poly s; blinding_poly := blinding_poly s;
     commitments := fold_left (fun d c => dict_set d (dc_dealer_fp c) c) cs (commitments s);
     shares := shares s; complaints := complaints s; qual := qual s |}.
Proof. revert s. induction cs as [|c cs IH]; intros s; simpl; [by destruct s|]. by rewrite IH. Qed.

Lemma receive_shares cs s : fold_left receive_share cs s =
  {| config := config s; state := state s; my_fp := my_fp s; my_index := my_index s;
     secret_poly := secret_poly s; blinding_poly := blinding_poly s; commitments := commitments s;
     shares := fold_left (fun d c => dict_set d (ds_dealer_fp c) c) cs (shares s);
     complaints := complaints s; qual := qual s |}.
Proof. revert s. induction cs as [|c cs IH]; intros s; simpl; [by destruct s|]. by rewrite IH. Qed.

(** ** Sums of scalars *)
Definition zsum (xs : list Z) : Z := fold_right Z.add 0 xs.

Lemma sf_sum_zsum xs : sf_sum xs = zsum xs mod R.
Proof.
  unfold sf_sum. enough (forall a, fold_left sf_add xs a mod R = (a + zsum xs) mod R) as He.
  { specialize (He 0). rewrite Z.mod_small in He by (apply (sf_sum_range xs)). by rewrite He. }
  induction xs as [|x xs IH]; intros a; simpl; [by rewrite Z.add_0_r|].
  rewrite IH. unfold sf_add. rewrite Zplus_mod_idemp_l. f_equal. lia.
Qed.

Lemma zsum_mod {A} (f g : A -> Z) l : (forall x, x ∈ l -> f x mod R = g x mod R) ->
  zsum (map f l) mod R = zsum (map g l) mod R.
Proof.
  intros Hfg. induction l as [|x l IH]; simpl; [done|].
  rewrite Zplus_mod, Hfg, IH, <- Zplus_mod; [done| |by left]. intros; apply Hfg; by right.
Qed.

Lemma zsum_perm xs ys : xs ≡ₚ ys -> zsum xs = zsum ys.
Proof. unfold zsum. induction 1; simpl; lia. Qed.

Lemma sf_sum_perm xs ys : xs ≡ₚ ys -> sf_sum xs = sf_sum ys.
Proof. intros Hp. by rewrite !sf_sum_zsum, (zsum_perm xs ys). Qed.

(** * A ceremony of honest participants *)
Section Ceremony.
Context (cfg : DKGSessionConfig) (sp bp : bytes -> list Z).

(** Positions are counted from 1, as [enumerate(participants, start=1)]. *)
Definition idx (fp : bytes) : Z :=
  match list_find (eq fp) (cfg_participants cfg) with Some (i, _) => Z.of_nat i + 1 | None => 0 end.

Definition dealer (d : bytes) : result (DKGCommitment * list (bytes * DKGShare) * DKGSession) :=
  begin (new_session cfg d (idx d)) (sp d) (bp d).

Definition others (my : bytes) : list bytes := filter (fun d => d <> my) (cfg_participants cfg).

(** What one participant does: deal, collect commitments and shares and check
    them, then resolve. *)
Definition ceremony_session (my : bytes) : result DKGSession :=
  '(_, _, s) ← dealer my;
  cs ← mapR (fun d => '(c, _, _) ← dealer d; Ok c) (others my);
  ss ← mapR (fun d => '(_, out, _) ← dealer d; or_raise KeyError (dict_find out my)) (others my);
  let s := end_commitment_phase (fold_left receive_commitment cs s) in
  '(_, s) ← end_sharing_phase (fold_left receive_share ss s);
  Ok s.

Definition ceremony (my : bytes) : result (DKGResult * ThresholdSigningKey) :=
  s ← ceremony_session my; (finalize s).1.

Definition commitment_of (d : bytes) : DKGCommitment :=
  {| dc_dealer_fp := d; feldman_commitments := (generate_commitments (sp d) (bp d)).1;
     pedersen_commitments := (generate_commitments (sp d) (bp d)).2; dc_round_id := cfg_start_round cfg |}.
Definition share_of (d r : bytes) : DKGShare :=
  {| ds_dealer_fp := d; ds_recipient_fp := r; ds_share := evaluate (sp d) (idx r);
     ds_blinding_share := evaluate (bp d) (idx r) |}.

(** The secret nobody holds. *)
Definition group_secret : Z := sf_sum (map (fun d => evaluate (sp d) 0) (cfg_participants cfg)).

Context (ps_nodup : NoDup (cfg_participants cfg)).
Context (threshold_pos : 1 <= cfg_threshold cfg <= Z.of_nat (length (cfg_participants cfg))).
Context (degree_ok : forall d, d ∈ cfg_participants cfg ->
  length (sp d) = Z.to_nat (cfg_threshold cfg) /\ length (bp d) = Z.to_nat (cfg_threshold cfg)).

Lemma idx_lookup i fp : cfg_participants cfg !! i = Some fp -> idx fp = Z.of_nat i + 1.
Proof.
  intros Hi. unfold idx. destruct (list_find (eq fp) (cfg_participants cfg)) as [[j fp']|] eqn:E.
  - apply list_find_Some in E as (Hj & <- & _). by rewrite (NoDup_lookup _ _ _ _ ps_nodup Hi Hj).
  - apply list_find_None in E. rewrite Forall_forall in E. exfalso. apply (E fp); [by eapply list_elem_of_lookup_2|done].
Qed.

Lemma dealer_spec d : exists out s, dealer d = Ok (commitment_of d, out, s) /\
  s = {| config := cfg; state := COMMITTING; my_fp := d; my_index := idx d; secret_poly := Some (sp d);
         blinding_poly := Some (bp d); commitments := [(d, commitment_of d)]; shares := []; complaints := []; qual := ∅ |} /\
  forall r, r ∈ cfg_participants cfg -> r <> d -> dict_find out r = Some (share_of d r).
Proof.
  unfold dealer, begin. simpl.
  change (generate_commitments (sp d) (bp d)) with ((generate_commitments (sp d) (bp d)).1, (generate_commitments (sp d) (bp d)).2).
  cbv iota beta. eexists _, _. split; [reflexivity|]. split; [reflexivity|].
  intros r [i Hi]%list_elem_of_lookup Hne. pose proof (idx_lookup i r Hi) as Er.
  set (f := fun out ifp => _).
  assert (forall l out, r ∉ l.*2 -> dict_find (fold_left f l out) r = dict_find out r) as Hskip.
  { induction l as [|[j fp] l IH]; intros out Hn; simpl; [done|]. apply not_elem_of_cons in Hn as [Hn Hl].
    simpl in Hn. rewrite IH by done. unfold f. simpl. destruct (decide (fp = d)); [done|].
    rewrite dict_find_set. by rewrite decide_False. }
  assert (forall l out, NoDup l.*2 -> (i, r) ∈ l -> dict_find (fold_left f l out) r = Some (share_of d r)) as Hin.
  { induction l as [|[j fp] l IH]; intros out Hnd Hin; [by apply not_elem_of_nil in Hin|].
    apply NoDup_cons in Hnd as [Hn Hnd]. simpl. apply elem_of_cons in Hin as [E|Hin]; [|by apply IH].
    simplify_eq. rewrite Hskip by done. unfold f. simpl. rewrite decide_False by done. rewrite dict_find_set.
    rewrite decide_True by done. unfold share_of. by rewrite Er. }
  apply Hin.
  - replace ((imap pair (cfg_participants cfg)).*2) with (cfg_participants cfg); [done|].
    apply list_eq. intros j. rewrite list_lookup_fmap, list_lookup_imap. by destruct (cfg_participants cfg !! j).
  - apply elem_of_lookup_imap. eauto.
Qed.

Lemma others_spec my d : d ∈ others my <-> d ∈ cfg_participants cfg /\ d <> my.
Proof. unfold others. rewrite list_elem_of_filter. tauto. Qed.

Lemma others_perm my : my ∈ cfg_participants cfg -> my :: others my ≡ₚ cfg_participants cfg.
Proof.
  intros Hm. apply NoDup_Permutation; [|done|].
  - constructor; [rewrite others_spec; tauto|]. by apply NoDup_filter.
  - intros d. rewrite elem_of_cons, others_spec. destruct (decide (d = my)) as [->|]; naive_solver.
Qed.

(** The session when the shares have been checked. *)
Definition collected (my : bytes) : DKGSession :=
  {| config := cfg; state := COMPLAINING; my_fp := my; my_index := idx my; secret_poly := Some (sp my);
     blinding_poly := Some (bp my);
     commitments := map (fun d => (d, commitment_of d)) (my :: others my);
     shares := map (fun d => (d, share_of d my)) (others my); complaints := []; qual := ∅ |}.

Lemma find_commitment my d : d ∈ my :: others my -> my ∈ cfg_participants cfg ->
  dict_find (map (fun d => (d, commitment_of d)) (my :: others my)) d = Some (commitment_of d).
Proof.
  intros Hd Hm. apply dict_find_elem; [|apply elem_of_map; eauto].
  replace ((map _ _).*1) with (my :: others my); [by rewrite others_perm|].
  change (map (fun d => (d, commitment_of d)) (my :: others my)).*1 with
    (map fst (map (fun d => (d, commitment_of d)) (my :: others my))). by rewrite map_map, map_id.
Qed.

Lemma share_checks my d : d ∈ cfg_participants cfg ->
  verify_share (idx my) (ds_share (share_of d my)) (ds_blinding_share (share_of d my))
    (pedersen_commitments (commitment_of d)) = Ok true.
Proof.
  intros Hd. destruct (degree_ok d Hd) as [E1 E2].
  etransitivity; [apply (verify_share_spec (sp d) (bp d)); lia|]. f_equal. by apply g_eq_spec.
Qed.

Lemma collect_ok my : my ∈ cfg_participants cfg -> ceremony_session my = Ok (collected my).
Proof.
  intros Hm. unfold ceremony_session.
  destruct (dealer_spec my) as (out & s & -> & -> & _). cbn [mbind result_bind].
  rewrite (mapR_pure _ commitment_of).
  2: { intros d _. destruct (dealer_spec d) as (o & s & -> & _). done. }
  cbn [mbind result_bind]. rewrite (mapR_pure _ (fun d => share_of d my)).
  2: { intros d [Hd Hne]%others_spec. destruct (dealer_spec d) as (o & s & -> & _ & Ho). simpl. by rewrite Ho. }
  simpl. rewrite receive_commitments, receive_shares. simpl.
  assert (NoDup (my :: others my)) as Hnd by (by rewrite others_perm).
  rewrite (dict_fill dc_dealer_fp) by (simpl; by rewrite map_map, map_id).
  rewrite (dict_fill ds_dealer_fp) by (simpl; rewrite map_map, map_id; by apply NoDup_cons in Hnd as [_ ?]).
  rewrite !map_map. simpl. unfold end_sharing_phase. simpl.
  match goal with |- context [foldM ?f [] ?l] => assert (foldM f [] l = Ok []) as -> end; [|done].
  assert (forall d, d ∈ others my -> dict_find (map (fun x => (x, commitment_of x)) (my :: others my)) d =
    Some (commitment_of d)) as Hfind by (intros; apply find_commitment; [by right|done]).
  assert (forall l, (forall d, d ∈ l -> d ∈ others my) -> forall f,
    (forall d, d ∈ l -> f [] (d, share_of d my) = Ok []) ->
    foldM f ([] : list DKGComplaint) (map (fun x => (x, share_of x my)) l) = Ok []) as Hl.
  { induction l as [|d l IH]; intros Hs f Hf; simpl; [done|]. rewrite Hf by (by left).
    apply IH; intros; [apply Hs|apply Hf]; by right. }
  apply Hl; [done|]. intros d Hd. specialize (Hfind d Hd). simpl in Hfind. rewrite Hfind. rewrite share_checks by (by apply others_spec in Hd as [? ?]). done.
Qed.

Definition everyone : gset bytes := list_to_set (cfg_participants cfg).

Lemma elements_everyone : elements everyone ≡ₚ cfg_participants cfg.
Proof. unfold everyone. by apply elements_list_to_set. Qed.

Lemma collected_qual my : my ∈ cfg_participants cfg -> resolve_qual (collected my) = (everyone, None).
Proof.
  intros Hm. unfold resolve_qual. cbn [collected complaints commitments fold_until]. f_equal.
  apply set_eq. intros d. unfold everyone. rewrite !elem_of_list_to_set.
  change (map (fun d => (d, commitment_of d)) (my :: others my)).*1 with
    (map fst (map (fun d => (d, commitment_of d)) (my :: others my))).
  by rewrite map_map, map_id, others_perm.
Qed.

Lemma feldman_head d : d ∈ cfg_participants cfg ->
  exists c cs, sp d = c :: cs /\
    head (feldman_commitments (commitment_of d)) = Some (g_serialize (g_scalar_mul G_POINT c)).
Proof.
  intros Hd. destruct (degree_ok d Hd) as [E1 E2]. simpl.
  destruct (sp d) as [|c cs], (bp d) as [|b bs]; simpl in *; try lia. by eexists _, _.
Qed.

Lemma evaluate_zero c cs : g_scalar_mul G_POINT (evaluate (c :: cs) 0) = g_scalar_mul G_POINT c.
Proof. rewrite g_mul_evaluate. unfold zeval. simpl. f_equal. lia. Qed.

Lemma group_point_fold my l p : my ∈ cfg_participants cfg -> (forall d, d ∈ l -> d ∈ cfg_participants cfg) ->
  foldM (fun p fp =>
      c ← or_raise KeyError (dict_find (commitments (collected my)) fp);
      c0 ← or_raise IndexError (head (feldman_commitments c));
      pt ← g_deserialize c0;
      Ok (add_or p pt)) p l =
  Ok (g_add p (g_scalar_mul G_POINT (zsum (map (fun d => evaluate (sp d) 0) l)))).
Proof.
  intros Hm. revert p. induction l as [|d l IH]; intros p Hl.
  - cbn. by rewrite g_mul_0, g_add_comm, g_add_id.
  - cbn [foldM]. cbn [collected commitments] in *. assert (d ∈ cfg_participants cfg) as Hd by (apply Hl; by left).
    rewrite find_commitment by (done || by rewrite others_perm). cbn [or_raise mbind result_bind].
    destruct (feldman_head d Hd) as (c & cs & Ec & ->). cbn [or_raise mbind result_bind]. rewrite g_des_ser.
    cbn [mbind result_bind]. rewrite IH by (intros; apply Hl; by right).
    rewrite add_or_spec, <- g_add_assoc. f_equal. f_equal. cbn [map zsum fold_right].
    by rewrite g_mul_add, Ec, evaluate_zero.
Qed.

Lemma share_fold my l acc : (forall d, d ∈ l -> d ∈ cfg_participants cfg) ->
  foldM (fun acc fp =>
      if decide (fp = my) then
        poly ← or_raise AttributeError (secret_poly (collected my));
        Ok (sf_add acc (evaluate poly (idx my)))
      else match dict_find (shares (collected my)) fp with
           | Some share => Ok (sf_add acc (ds_share share))
           | None => Ok acc
           end) acc l =
  Ok (fold_left sf_add (map (fun d => evaluate (sp d) (idx my)) l) acc).
Proof.
  revert acc. induction l as [|d l IH]; intros acc Hl; [done|]. cbn [foldM map fold_left].
  destruct (decide (d = my)) as [->|Hne].
  - cbn [collected secret_poly or_raise mbind result_bind]. apply IH. intros; apply Hl; by right.
  - assert (d ∈ others my) as Hd by (apply others_spec; split; [apply Hl; by left|done]).
    cbn [collected shares].
    rewrite (dict_find_elem _ d (share_of d my)).
    + apply IH. intros; apply Hl; by right.
    + change (map (fun d => (d, share_of d my)) (others my)).*1 with
        (map fst (map (fun d => (d, share_of d my)) (others my))). rewrite map_map, map_id.
      by apply NoDup_filter.
    + apply elem_of_map. eauto.
Qed.

(** The key each participant ends up with. *)
Definition key_of (my : bytes) : ThresholdSigningKey :=
  {| participant_fp := my; participant_index := idx my;
     secret_share := sf_sum (map (fun d => evaluate (sp d) (idx my)) (cfg_participants cfg));
     group_pk := g_serialize (g_scalar_mul G_POINT group_secret);
     tk_threshold := cfg_threshold cfg; tk_epoch := cfg_epoch cfg; tk_vm_tag := cfg_vm_tag cfg |}.
Definition result_of (my : bytes) : DKGResult :=
  {| dr_vm_tag := cfg_vm_tag cfg; dr_epoch := cfg_epoch cfg; dr_group_pk := group_pk (key_of my);
     participant_vks := [(my, g_serialize (g_scalar_mul G_POINT (secret_share (key_of my))))];
     dr_threshold := cfg_threshold cfg; qual_set := everyone; dr_phase := EAGER;
     my_secret_share := Some (secret_share (key_of my)) |}.

Lemma finalize_ok my : my ∈ cfg_participants cfg -> (finalize (collected my)).1 = Ok (result_of my, key_of my).
Proof.
  intros Hm. unfold finalize. rewrite collected_qual by done.
  assert (Z.of_nat (size everyone) <? cfg_threshold (config (collected my)) = false) as ->.
  { apply Z.ltb_ge. cbn [collected config]. unfold everyone. rewrite size_list_to_set by done. lia. }
  assert (forall d, d ∈ elements everyone -> d ∈ cfg_participants cfg) as Hin
    by (intros d; by rewrite elements_everyone).
  unfold group_point_of, my_share_of. rewrite group_point_fold by done.
  cbn [mbind result_bind collected my_fp my_index]. rewrite share_fold by done. cbn [mbind result_bind fst].
  fold (sf_sum (map (fun d => evaluate (sp d) (idx my)) (elements everyone))).
  rewrite (sf_sum_perm _ (map (fun d => evaluate (sp d) (idx my)) (cfg_participants cfg)))
    by (by rewrite elements_everyone).
  rewrite (zsum_perm _ (map (fun d => evaluate (sp d) 0) (cfg_participants cfg))) by (by rewrite elements_everyone).
  assert (g_add g_identity (g_scalar_mul G_POINT (zsum (map (fun d => evaluate (sp d) 0) (cfg_participants cfg)))) =
    g_scalar_mul G_POINT group_secret) as -> by (unfold group_secret; by rewrite g_add_id, sf_sum_zsum, g_mul_mod).
  done.
Qed.

Lemma ceremony_ok my : my ∈ cfg_participants cfg -> ceremony my = Ok (result_of my, key_of my).
Proof. intros Hm. unfold ceremony. rewrite collect_ok by done. by apply finalize_ok. Qed.

Lemma idx_range my : my ∈ cfg_participants cfg -> 1 <= idx my <= Z.of_nat (length (cfg_participants cfg)).
Proof. intros [i Hi]%list_elem_of_lookup. rewrite (idx_lookup i my Hi). apply lookup_lt_Some in Hi. lia. Qed.

Lemma idx_inj a b : a ∈ cfg_participants cfg -> b ∈ cfg_participants cfg -> idx a = idx b -> a = b.
Proof.
  intros [i Hi]%list_elem_of_lookup [j Hj]%list_elem_of_lookup. rewrite (idx_lookup i a Hi), (idx_lookup j b Hj).
  intros E. assert (i = j) as -> by lia. congruence.
Qed.

Section Combine.
Context {G2 : Type} `{CurveGroup G2} (hash_to_G2 : bytes -> G2).
Context (size_ok : Z.of_nat (length (cfg_participants cfg)) < R).

Lemma combine_fold (h : G2) (key : bytes -> Z) indices l p :
  foldM (fun combined partial =>
      let li := lagrange_coefficient (signer_index partial) indices in
      sig_point ← g_deserialize (ps_signature partial);
      Ok (g_add combined (g_scalar_mul sig_point li))) p
    (map (fun my => {| signer_fp := my; signer_index := idx my; ps_signature := g_serialize (g_scalar_mul h (key my));
                       ps_epoch := cfg_epoch cfg |}) l) =
  Ok (g_add p (g_scalar_mul h (zsum (map (fun my => key my * lagrange_coefficient (idx my) indices) l)))).
Proof.
  revert p. induction l as [|my l IH]; intros p; cbn [map foldM].
  - cbn. by rewrite g_mul_0, g_add_comm, g_add_id.
  - cbn [signer_index ps_signature]. rewrite g_des_ser. cbn [mbind result_bind]. rewrite IH.
    rewrite <- g_add_assoc, g_mul_mul, <- g_mul_add. done.
Qed.

Lemma combine_ok Q t message domain : NoDup Q -> (forall d, d ∈ Q -> d ∈ cfg_participants cfg) ->
  cfg_threshold cfg <= Z.of_nat (length Q) -> t <= Z.of_nat (length Q) ->
  combine_partial_signatures (G2 := G2) (map (fun my => partial_sign hash_to_G2 (key_of my) message domain) Q) t =
  Ok (g_serialize (g_scalar_mul (hash_to_G2 (domain ++ message)) group_secret)).
Proof.
  intros Hnd HQ Ht Htt. unfold combine_partial_signatures. rewrite length_map.
  assert (Z.of_nat (length Q) <? t = false) as -> by (by apply Z.ltb_ge).
  rewrite map_map. cbn [partial_sign signer_index key_of participant_index].
  unfold partial_sign. cbn [participant_fp participant_index secret_share key_of tk_epoch].
  rewrite (combine_fold (hash_to_G2 (domain ++ message))
    (fun my => sf_sum (map (fun d => evaluate (sp d) (idx my)) (cfg_participants cfg)))).
  cbn [mbind result_bind]. rewrite g_add_id. f_equal. f_equal. rewrite <- g_mul_mod. f_equal.
  set (S := map (fun my => idx my) Q). unfold group_secret.
  rewrite <- (map_map sp (fun cs => evaluate cs 0)).
  rewrite <- (shamir_reconstruct (map sp (cfg_participants cfg)) S).
  - unfold S. rewrite map_map, sf_sum_zsum. apply zsum_mod. intros my _.
    rewrite map_map. unfold sf_mul. rewrite Z.mod_mod by (pose proof R_pos; lia). f_equal. apply Z.mul_comm.
  - unfold S. apply NoDup_fmap_2_strong; [|done]. intros a b Ha Hb. apply idx_inj; auto.
  - apply Forall_map, Forall_forall. intros my Hmy%HQ%idx_range. lia.
  - apply Forall_map, Forall_forall. intros d [E _]%degree_ok. unfold S. rewrite length_map, E. lia.
Qed.
End Combine.
End Ceremony.

End Dkg.

Lemma g_mul_identity {G} `{CurveGroup G} a : g_scalar_mul (g_identity : G) a = g_identity.
Proof. rewrite <- (g_mul_0 g_identity), g_mul_mul. by rewrite Z.mul_0_l. Qed.
(** Two openings of one commitment relate the generators. *)
Lemma open_twice {G1} `{CurveGroup G1} (GP HP : G1) s b s' b' :
  g_add (g_scalar_mul GP s) (g_scalar_mul HP b) = g_add (g_scalar_mul GP s') (g_scalar_mul HP b') ->
  g_scalar_mul GP (s - s') = g_scalar_mul HP (b' - b).
Proof.
  intros E. apply (f_equal (fun P => g_add P (g_add (g_scalar_mul GP (- s')) (g_scalar_mul HP (- b))))) in E.
  rewrite (g_add_swap (g_scalar_mul GP s)), (g_add_swap (g_scalar_mul GP s')) in E.
  rewrite <- !g_mul_add, !Z.add_opp_r, !Z.sub_diag, !g_mul_0, g_add_id in E.
  by rewrite g_add_comm, g_add_id in E.
Qed.

Lemma open_twice_inv {G1} `{CurveGroup G1} (GP HP : G1) s b s' b' :
  g_scalar_mul GP (s - s') = g_scalar_mul HP (b' - b) ->
  g_add (g_scalar_mul GP s) (g_scalar_mul HP b) = g_add (g_scalar_mul GP s') (g_scalar_mul HP b').
Proof.
  intros E. replace s with (s' + (s - s')) by lia. replace b' with (b + (b' - b)) by lia.
  by rewrite !g_mul_add, E, <- !g_add_assoc, (g_add_comm (g_scalar_mul HP b)).
Qed.
(** Under a secret's key the signature made with it verifies, unless the secret
    is zero. *)
Lemma threshold_verify_signed {G1 G2} `{CurveGroup G1} `{CurveGroup G2} (GP : G1) (hash_to_G2 : bytes -> G2) g1_compress lib s message domain :
  bls_standard GP hash_to_G2 g1_compress lib -> 0 <= s < R ->
  threshold_verify g1_compress (Some lib) (g_serialize (g_scalar_mul GP s)) message
    (g_serialize (g_scalar_mul (hash_to_G2 (domain ++ message)) s)) domain = Ok (negb (s =? 0)).
Proof.
  intros [Hpk Hsig Hacc Hid] Hs. unfold threshold_verify, BLS_verify. rewrite g_des_ser. cbn [mbind result_bind].
  rewrite Hpk, Hsig, !Z.eqb_refl. cbn [negb backend or_raise mbind result_bind]. f_equal. destruct (Z.eqb_spec s 0) as [->|Hne].
  - by rewrite g_mul_0, Hid.
  - apply Hacc. by rewrite Z.mod_small.
Qed.
Lemma group_secret_range cfg sp : 0 <= group_secret cfg sp < R.
Proof. apply sf_sum_range. Qed.
Lemma g_mul_inv {G} `{CurveGroup G} (P Q : G) a b : b mod R <> 0 -> g_scalar_mul P a = g_scalar_mul Q b -> Q = g_scalar_mul P (a * sf_inv b).
Proof.
  intros Hb E. rewrite <- g_mul_mul, E, g_mul_mul, <- (g_mul_mod Q), Z.mul_comm. change ((sf_inv b * b) mod R) with (sf_mul (sf_inv b) b).
  by rewrite sf_inv_l, g_mul_1.
Qed.
Lemma mod_diff a b : a mod R <> b mod R -> (a - b) mod R <> 0.
Proof.
  pose proof R_pos. intros Hne Hz. apply Hne. apply Z.mod_divide in Hz as [k Hk]; [|lia]. replace a with (b + k * R) by lia. apply Z.mod_add. lia.
Qed.

(** * Theorems *)


(** C11: The check of a share against Pedersen commitments binds.  The honest
    share always passes, and a share passes exactly when its error and that of
    its blinding satisfy one explicit equation between the generators.  Hence
    for commitments of any origin nobody can have two different shares that
    pass for one index without being able to compute the discrete logarithm of
    the second generator from them. *)
Theorem vss_binding {G1} `{CurveGroup G1} (GP HP : G1) sp bp i :
  length sp = length bp ->
  let commitments := (generate_commitments GP HP sp bp).2 in
  verify_share GP HP i (create_share sp bp i).1 (create_share sp bp i).2 commitments = Ok true /\
  (forall share blinding, verify_share GP HP i share blinding commitments = Ok true <->
     g_scalar_mul GP (share - evaluate sp i) = g_scalar_mul HP (evaluate bp i - blinding)) /\
  forall any s b s' b', GP <> g_identity ->
    verify_share GP HP i s b any = Ok true -> verify_share GP HP i s' b' any = Ok true -> s mod R <> s' mod R ->
    HP = g_scalar_mul GP ((s - s') * sf_inv (b' - b)).
Proof.
  intros Hl. cbn zeta. split; [|split].
  - rewrite verify_share_spec by done. f_equal. by apply g_eq_spec.
  - intros share blinding. rewrite verify_share_spec by done. split; [intros E%Ok_inj%g_eq_spec; by apply open_twice|].
    intros E. f_equal. apply g_eq_spec. by apply open_twice_inv.
  - intros any s b s' b' HG E1 E2 Hne. unfold verify_share in E1, E2. destruct (foldM _ (g_identity, 1) any) as [[rhs xp]|]; [|done].
    cbn [mbind result_bind] in E1, E2. apply Ok_inj, g_eq_spec in E1, E2. rewrite <- E2 in E1. apply open_twice in E1.
    apply g_mul_inv; [|done]. intros Hz. apply HG. rewrite <- (g_mul_mod HP), Hz, g_mul_0 in E1.
    rewrite <- (g_mul_1 GP). change 1 with (1 mod R). rewrite <- (sf_inv_l (s - s')) by (by apply mod_diff). unfold sf_mul.
    by rewrite Zmod_mod, g_mul_mod, Z.mul_comm, <- g_mul_mul, E1, (g_mul_identity (sf_inv (s - s'))).
Qed.

(** A false complaint excludes an honest dealer.  The share revealed in a
    complaint is taken from the complainant alone: in a ceremony in which
    everybody dealt correctly, one complaint that reveals a wrong share removes
    the accused dealer from the qualified set. *)
Theorem honest_dealer_excluded {G1} `{CurveGroup G1} (GP HP : G1) cfg sp bp my c d round_id :
  let ps := cfg_participants cfg in
  NoDup ps -> 1 <= cfg_threshold cfg <= Z.of_nat (length ps) ->
  (forall d, d ∈ ps -> length (sp d) = Z.to_nat (cfg_threshold cfg) /\ length (bp d) = Z.to_nat (cfg_threshold cfg)) ->
  GP <> g_identity -> my ∈ ps -> c ∈ ps -> d ∈ ps ->
  resolve_qual GP HP (receive_complaint (collected GP HP cfg sp bp my)
    {| complainant_fp := c; dcm_dealer_fp := d; revealed_share := evaluate (sp d) (idx cfg c) + 1;
       revealed_blinding := evaluate (bp d) (idx cfg c); dcm_round_id := round_id |}) =
  (list_to_set ps ∖ {[d]}, None).
Proof.
  intros ps Hnd Ht Hdeg HG Hmy Hc Hd.
  assert (resolve_qual GP HP (collected GP HP cfg sp bp my) = (everyone cfg, None)) as Hq by (by apply collected_qual).
  unfold resolve_qual in *.
  cbn [receive_complaint complaints commitments collected config fold_until app
       dcm_dealer_fp complainant_fp revealed_share revealed_blinding] in *.
  apply (f_equal fst) in Hq. cbn [fst] in Hq. rewrite Hq.
  rewrite find_commitment by (done || by rewrite others_perm).
  assert (py_index ps c = Ok (idx cfg c - 1)) as Hidx.
  { unfold py_index, idx. fold ps. apply list_elem_of_lookup in Hc as [i Hi].
    destruct (list_find (eq c) ps) as [[j x]|] eqn:E; [f_equal; lia|].
    apply list_find_None in E. rewrite Forall_forall in E. destruct (E c); [by eapply list_elem_of_lookup_2|done]. }
  fold ps. rewrite Hidx. cbn [mbind result_bind]. rewrite Z.sub_add.
  destruct (Hdeg d Hd) as [E1 E2].
  assert (verify_share GP HP (idx cfg c) (evaluate (sp d) (idx cfg c) + 1) (evaluate (bp d) (idx cfg c))
    (pedersen_commitments (commitment_of GP HP cfg sp bp d)) = Ok false) as ->.
  { etransitivity; [apply (verify_share_spec GP HP (sp d) (bp d)); lia|]. f_equal.
    destruct (g_eq _ _) eqn:E; [|done]. apply g_eq_spec in E. exfalso. apply HG.
    apply open_twice in E. rewrite Z.sub_diag, g_mul_0, Z.add_simpl_l in E. by rewrite g_mul_1 in E. }
  done.
Qed.

(** What each qualified dealer contributes to the own share. *)
Definition contribution (s : DKGSession) (poly : list Z) (fp : bytes) : option Z :=
  if decide (fp = my_fp s) then Some (evaluate poly (my_index s)) else ds_share <$> dict_find (shares s) fp.

Lemma my_share_sum s q poly : secret_poly s = Some poly ->
  my_share_of s q = Ok (sf_sum (omap (contribution s poly) (elements q))).
Proof.
  intros Hp. unfold my_share_of, sf_sum. rewrite Hp. generalize 0 as acc.
  induction (elements q) as [|fp l IH]; intros acc; [done|]. cbn [foldM omap list_omap]. unfold contribution at 1.
  destruct (decide (fp = my_fp s)).
  - cbn. apply IH.
  - destruct (dict_find (shares s) fp) as [sh|]; cbn; apply IH.
Qed.

(** A withheld share goes unnoticed.  When a dealer's share has not
    arrived, checking the shares produces no complaint against that dealer,
    and finalizing leaves the dealer's contribution out of the own share even
    though the dealer is qualified. *)
Theorem missing_share_ignored {G1} `{CurveGroup G1} (GP HP : G1) s d q poly cs s' :
  secret_poly s = Some poly -> d <> my_fp s -> dict_find (shares s) d = None ->
  end_sharing_phase GP HP s = Ok (cs, s') ->
  (forall c, c ∈ cs -> dcm_dealer_fp c <> d) /\
  my_share_of s ({[d]} ∪ q) = my_share_of s q.
Proof.
  intros Hp Hd Hf E. split.
  - unfold end_sharing_phase, mbind, result_bind in E.
    destruct (foldM _ [] (shares s)) as [cs'|] eqn:Ef; [|done]. simplify_eq.
    assert (forall c, c ∈ cs -> dcm_dealer_fp c ∈ (shares s).*1) as Hc.
    { refine (foldM_inv _ (fun seen cs => forall c, c ∈ cs -> dcm_dealer_fp c ∈ seen.*1) _ _ _ _ _ Ef);
        [by intros c ?%not_elem_of_nil|].
      clear. intros seen [fp sh] cs1 cs2 IH E c. rewrite fmap_app, elem_of_app.
      destruct (dict_find (commitments s) fp); [|simplify_eq; by left; apply IH].
      destruct (verify_share _ _ _ _ _ _) as [[]|]; simplify_eq/=; [by left; apply IH|].
      intros [?| ->%list_elem_of_singleton]%elem_of_app; [left; by apply IH|right; by left]. }
    intros c Hin Ed. apply dict_find_None in Hf. apply Hf. rewrite <- Ed. by apply Hc.
  - rewrite !(my_share_sum _ _ _ Hp). f_equal.
    destruct (decide (d ∈ q)) as [Hq|Hq]; [by replace ({[d]} ∪ q) with q by set_solver|].
    apply sf_sum_perm. rewrite elements_union_singleton by done. cbn [omap list_omap].
    unfold contribution at 1. by rewrite decide_False, Hf by done.
Qed.

(** * Example: the scalars themselves as a group *)
#[export] Instance scalar_group : CurveGroup Fr.
Proof.
  refine {| g_identity := Zmod.zero;
  g_add := Zmod.add;
  g_scalar_mul := fun P a => Zmod.mul P (fr a);
  g_eq := fun P Q => bool_decide (P = Q);
  g_serialize := fun P => be_encode 96 (Zmod.to_Z P);
  g_deserialize := fun bs => if (length bs =? 96)%nat then Ok (fr (be_decode bs)) else Err (ValueError "length") |}.
  - apply Zmod.add_comm.
  - apply Zmod.add_assoc.
  - apply Zmod.add_0_l.
  - intros P. rewrite Zmod.of_Z_0. ring.
  - intros P. change (fr 1) with (Zmod.one (m := R)). ring.
  - intros P a b. rewrite Zmod.of_Z_add. ring.
  - intros P a b. rewrite Zmod.of_Z_mul. ring.
  - intros P Q a. ring.
  - intros P a. by rewrite Zmod.of_Z_mod.
  - intros P Q. apply bool_decide_eq_true.
  - intros P. rewrite be_encode_length, Nat.eqb_refl, be_decode_encode; [by rewrite Zmod.of_Z_to_Z|].
    pose proof (Zmod.to_Z_pos_bound P R_pos). assert (R < 256 ^ Z.of_nat 96) by (vm_compute; reflexivity). lia.
Defined.

Module Trio.
Definition cfg : DKGSessionConfig :=
  {| cfg_vm_tag := 1; cfg_epoch := 7; cfg_threshold := 2; cfg_participants := [lit "ann"; lit "ben"; lit "cat"];
     cfg_timeout_rounds := 10; cfg_start_round := 0 |}.
(** Each dealer's polynomials, from its name. *)
Definition sp (d : bytes) : list Z := [11 + be_decode d; 5].
Definition bp (d : bytes) : list Z := [be_decode d; 9].
Definition hash_to_G2 (m : bytes) : Fr := fr (be_decode m + 1).
Definition compress (P : Fr) : bytes := be_encode 48 (Zmod.to_Z P).
Definition verify (pk m sig : bytes) : bool :=
  bool_decide (be_decode pk <> 0) && bool_decide (sig = g_serialize (g_scalar_mul (hash_to_G2 m) (be_decode pk))).
Definition lib : bls_library := {|
  lib_sign := fun _ _ => Err RuntimeError;
  lib_verify := verify;
  lib_aggregate := fun _ => Err RuntimeError;
  lib_aggregate_verify := fun _ _ _ => false;
  lib_fast_aggregate_verify := fun _ _ _ => false
|}.

Lemma compress_decode P : be_decode (compress P) = Zmod.to_Z P.
Proof.
  apply be_decode_encode. pose proof (Zmod.to_Z_pos_bound P R_pos). assert (R < 256 ^ Z.of_nat 48) by (vm_compute; reflexivity). lia.
Qed.
Lemma standard : bls_standard (Zmod.one (m := R)) hash_to_G2 compress lib.
Proof.
  split.
  - intros P. unfold len, compress. by rewrite be_encode_length.
  - intros Q. unfold len. cbn [g_serialize scalar_group]. by rewrite be_encode_length.
  - intros s m Hs. cbn [lib lib_verify]. unfold verify. rewrite compress_decode. cbn [g_scalar_mul scalar_group].
    replace (Zmod.mul Zmod.one (fr s)) with (fr s) by ring. rewrite Zmod.of_Z_to_Z. rewrite !bool_decide_eq_true_2; [done|done|].
    by rewrite Zmod.to_Z_of_Z.
  - intros m sig. cbn [lib lib_verify]. unfold verify. rewrite compress_decode. cbn [g_identity scalar_group]. by rewrite Zmod.to_Z_0.
Qed.
Lemma participants_nodup : NoDup (cfg_participants cfg).
Proof. apply (bool_decide_eq_true_1 (NoDup (cfg_participants cfg))). vm_compute. reflexivity. Qed.
Lemma degrees d : d ∈ cfg_participants cfg ->
  length (sp d) = Z.to_nat (cfg_threshold cfg) /\ length (bp d) = Z.to_nat (cfg_threshold cfg).
Proof. split; reflexivity. Qed.
End Trio.


Lemma vss_binding_witness :
  verify_share (Zmod.one (m := R)) (fr 3) 2 (evaluate [4; 5] 2) (evaluate [6; 7] 2)
    (generate_commitments (Zmod.one (m := R)) (fr 3) [4; 5] [6; 7]).2 = Ok true.
Proof. exact (proj1 (vss_binding (Zmod.one (m := R)) (fr 3) [4; 5] [6; 7] 2 eq_refl)). Defined.

Lemma honest_dealer_excluded_witness :
  resolve_qual (Zmod.one (m := R)) (fr 3)
    (receive_complaint (collected (Zmod.one (m := R)) (fr 3) Trio.cfg Trio.sp Trio.bp (lit "ann"))
      {| complainant_fp := lit "cat"; dcm_dealer_fp := lit "ben";
         revealed_share := evaluate (Trio.sp (lit "ben")) (idx Trio.cfg (lit "cat")) + 1;
         revealed_blinding := evaluate (Trio.bp (lit "ben")) (idx Trio.cfg (lit "cat")); dcm_round_id := 0 |}) =
  (list_to_set [lit "ann"; lit "ben"; lit "cat"] ∖ {[lit "ben"]}, None).
Proof.
  apply (honest_dealer_excluded (Zmod.one (m := R)) (fr 3) Trio.cfg Trio.sp Trio.bp);
    [exact Trio.participants_nodup|vm_compute; split; discriminate|exact Trio.degrees| |left|right; right; left|right; left].
  apply Zmod.one_neq_zero. pose proof R_prime as HR. apply Z.prime_ge_2 in HR. lia.
Defined.

Lemma missing_share_ignored_witness :
  let s := collected (Zmod.one (m := R)) (fr 3) Trio.cfg Trio.sp Trio.bp (lit "ann") in
  let s := {| config := config s; state := SHARING; my_fp := my_fp s; my_index := my_index s; secret_poly := secret_poly s;
              blinding_poly := blinding_poly s; commitments := commitments s; shares := []; complaints := []; qual := ∅ |} in
  my_share_of s ({[lit "ben"]} ∪ {[lit "ann"]}) = my_share_of s {[lit "ann"]}.
Proof.
  intros s0 s. apply (missing_share_ignored (Zmod.one (m := R)) (fr 3) s (lit "ben") {[lit "ann"]}
    (Trio.sp (lit "ann")) [] (with_state s COMPLAINING)); [reflexivity|discriminate|reflexivity|reflexivity].
Defined.
