(* ===== verification/Committee.v ===== *)
(** The validator committee of one virtual machine,
    src/src/ltp/execution/committee/ (types.py, policy.py, formation.py,
    standby.py, eviction.py, epoch.py, manager.py).

    The writer registry enters through the list [active_writers] returns, which
    is documented as unordered: operations take that list as [candidates].
    A roster is a mutable object shared by the epoch manager and the epoch
    history: rosters live in the store [em_rosters] and are referred to by
    position, so an eviction is seen through every reference. *)

From Stdlib Require Import Zmod.
From S2P Require Import Prelude Bls ScalarField Shamir Dkg Writer.

(** * policy.py, types.py *)
Inductive EpochStrategy : Type := ROUND_COUNT | TIME_BASED | MANUAL.
Inductive FloorMode : Type := HARD | SOFT.
Inductive StandbyStrategy : Type := PRIORITY_QUEUE | FIFO | ADMIN_DESIGNATED.
Inductive EvictionMode : Type := IMMEDIATE | IMMEDIATE_BACKFILL | EPOCH_BOUNDARY.

Record CommitteePolicy : Type := {
  cp_vm_tag : Z;
  epoch_strategy : EpochStrategy;
  epoch_length : Z;
  epoch_duration_ms : Z;
  max_committee_size : Z;
  min_committee_size : Z;
  floor_mode : FloorMode;
  standby_strategy : StandbyStrategy;
  max_standby_size : Z;
  admin_standby_list : list bytes;
  required_tiers : option (list IdentityTier);
  min_epochs_active : Z;
  require_bls_key : bool;
  security_eviction : EvictionMode;
  operational_eviction : EvictionMode;
  require_committee_for_dispatch : bool;
  force_include : gset bytes;
  force_exclude : gset bytes;
  dkg_threshold : Z;
  dkg_timeout_rounds : Z;
  dkg_eager_start_rounds : Z
}.

Inductive CommitteeRole : Type := RoleActive | RoleStandby.
Record CommitteeMember : Type := {
  writer_fp : bytes;
  m_bls_pk : bytes;
  m_tier : IdentityTier;
  joined_epoch : Z;
  role : CommitteeRole
}.
#[export] Instance CommitteeRole_eq_dec : EqDecision CommitteeRole.
Proof. solve_decision. Defined.
#[export] Instance CommitteeMember_eq_dec : EqDecision CommitteeMember.
Proof. solve_decision. Defined.

Record CommitteeRoster : Type := {
  r_vm_tag : Z;
  r_epoch : Z;
  active_members : list CommitteeMember;
  standby_members : list CommitteeMember;
  formed_at : Z;
  formation_round : Z
}.

Inductive EpochTrigger : Type := TriggerRoundCount | TriggerAdmin | TriggerEmergency | TriggerTime.
(** [er_roster] is a reference into the store of rosters. *)
Record EpochRecord : Type := {
  er_vm_tag : Z;
  er_epoch : Z;
  er_roster : nat;
  er_trigger : EpochTrigger;
  er_previous_epoch : Z;
  er_timestamp : Z
}.

Inductive EvictionReason : Type := ReasonRevoked | ReasonSuspended | ReasonExpired | ReasonAdmin.
Record EvictionEvent : Type := {
  ev_writer_fp : bytes;
  ev_vm_tag : Z;
  ev_epoch : Z;
  ev_reason : EvictionReason;
  backfill_fp : option bytes;
  ev_timestamp : Z
}.
Inductive CommitteeEvent : Type :=
| MEMBER_EVICTED | MEMBER_BACKFILLED | COMMITTEE_HALTED | BELOW_FLOOR | FLOOR_RESTORED.

(** * standby.py *)
Definition tier_weight (t : IdentityTier) : Z := match t with MLDSA => 1 | BLS => 2 | COMPOSITE => 3 end.

Definition score_member (m : CommitteeMember) : Z * Z := (tier_weight (m_tier m), - joined_epoch m).

(** [x] comes before [y] in the stable sort by descending score. *)
Definition score_geb (x y : CommitteeMember) : bool :=
  let '(a1, a2) := score_member x in
  let '(b1, b2) := score_member y in
  (b1 <? a1) || ((b1 =? a1) && (b2 <=? a2)).

Definition rank (candidates : list CommitteeMember) : list CommitteeMember := sort_by score_geb candidates.

(** [{m.writer_fp: m for m in members}[fp]]: the last member wins. *)
Definition find_member (fp : bytes) (members : list CommitteeMember) : option CommitteeMember :=
  List.find (fun m => bool_decide (writer_fp m = fp)) (rev members).

Definition standby_next (policy : CommitteePolicy) (roster : CommitteeRoster) : option CommitteeMember :=
  match standby_members roster with
  | [] => None
  | first :: _ =>
      match standby_strategy policy with
      | PRIORITY_QUEUE => head (rank (standby_members roster))
      | FIFO => Some first
      | ADMIN_DESIGNATED =>
          head (omap (fun fp => find_member fp (standby_members roster)) (admin_standby_list policy))
      end
  end.

(** * formation.py *)
Definition passes_filters (record : WriterRecord) (policy : CommitteePolicy) : bool :=
  let t := tier (identity record) in
  if require_bls_key policy && negb (bool_decide (t = BLS) || bool_decide (t = COMPOSITE)) then false
  else if match required_tiers policy with
          | Some tiers => negb (bool_decide (t ∈ tiers))
          | None => false
          end then false
  else if 0 <? min_epochs_active policy then
    let active_transitions := Z.of_nat (length (filter (fun e => to_state e = ACTIVE) (transition_log record))) in
    negb (active_transitions <? min_epochs_active policy)
  else true.

Definition to_member (record : WriterRecord) (epoch : Z) : CommitteeMember :=
  {| writer_fp := fingerprint (identity record); m_bls_pk := default [] (bls_pk (identity record));
     m_tier := tier (identity record); joined_epoch := epoch; role := RoleActive |}.

Definition with_role (r : CommitteeRole) (m : CommitteeMember) : CommitteeMember :=
  {| writer_fp := writer_fp m; m_bls_pk := m_bls_pk m; m_tier := m_tier m; joined_epoch := joined_epoch m; role := r |}.

(** One pass over the candidates: the eligible and the force-included. *)
Definition split_candidates (policy : CommitteePolicy) (candidates : list WriterRecord) :
  list WriterRecord * list WriterRecord :=
  fold_left (fun acc record =>
    let '(eligible, forced) := acc in
    let fp := fingerprint (identity record) in
    if negb (TRANSACTABLE_STATES (state record)) then acc
    else if bool_decide (fp ∈ force_include policy) then (eligible, forced ++ [record])
    else if bool_decide (fp ∈ force_exclude policy) then acc
    else if negb (passes_filters record policy) then acc
    else (eligible ++ [record], forced)) candidates ([], []).

Definition build_roster (policy : CommitteePolicy) (candidates : list WriterRecord)
    (epoch round_num timestamp : Z) : CommitteeRoster :=
  let '(eligible, forced) := split_candidates policy candidates in
  let members := rank (map (fun r => to_member r epoch) (eligible ++ forced)) in
  let cap := max_committee_size policy in
  let '(active, standby_pool) :=
    if 0 <? cap then (take (Z.to_nat cap) members, drop (Z.to_nat cap) members) else (members, []) in
  let standby_pool :=
    if 0 <? max_standby_size policy then take (Z.to_nat (max_standby_size policy)) standby_pool else standby_pool in
  {| r_vm_tag := cp_vm_tag policy; r_epoch := epoch; active_members := map (with_role RoleActive) active;
     standby_members := map (with_role RoleStandby) standby_pool;
     formed_at := timestamp; formation_round := round_num |}.

(** * eviction.py *)
Record EvictionHandler : Type := {
  eh_events : list EvictionEvent;
  eh_halted : bool;
  pending_evictions : list (bytes * EvictionReason);
  emitted_events : list CommitteeEvent
}.
Definition new_handler : EvictionHandler :=
  {| eh_events := []; eh_halted := false; pending_evictions := []; emitted_events := [] |}.

Definition STATE_TO_REASON (s : WriterState) : option EvictionReason :=
  match s with
  | REVOKED => Some ReasonRevoked
  | SUSPENDED => Some ReasonSuspended
  | EXPIRED => Some ReasonExpired
  | _ => None
  end.

Definition emit (eh : EvictionHandler) (e : CommitteeEvent) : EvictionHandler :=
  {| eh_events := eh_events eh; eh_halted := eh_halted eh; pending_evictions := pending_evictions eh;
     emitted_events := emitted_events eh ++ [e] |}.
Definition set_halted (eh : EvictionHandler) (h : bool) : EvictionHandler :=
  {| eh_events := eh_events eh; eh_halted := h; pending_evictions := pending_evictions eh;
     emitted_events := emitted_events eh |}.

Definition check_floor (policy : CommitteePolicy) (eh : EvictionHandler) (roster : CommitteeRoster) : EvictionHandler :=
  if min_committee_size policy <=? Z.of_nat (length (active_members roster)) then
    if eh_halted eh then emit (set_halted eh false) FLOOR_RESTORED else eh
  else
    match floor_mode policy with
    | HARD => emit (set_halted eh true) COMMITTEE_HALTED
    | SOFT => emit eh BELOW_FLOOR
    end.

(** [list.remove]: the first equal element. *)
Fixpoint remove_first {A} `{EqDecision A} (x : A) (xs : list A) : list A :=
  match xs with [] => [] | y :: ys => if decide (x = y) then ys else y :: remove_first x ys end.

Definition set_members (roster : CommitteeRoster) (active standby : list CommitteeMember) : CommitteeRoster :=
  {| r_vm_tag := r_vm_tag roster; r_epoch := r_epoch roster; active_members := active;
     standby_members := standby; formed_at := formed_at roster; formation_round := formation_round roster |}.

(** The replacement of an evicted member, when the mode asks for one. *)
Definition backfill (policy : CommitteePolicy) (mode : EvictionMode) (roster : CommitteeRoster) :
  option bytes * CommitteeRoster :=
  match mode with
  | IMMEDIATE_BACKFILL =>
      match standby_next policy roster with
      | Some replacement =>
          (Some (writer_fp replacement),
           set_members roster (active_members roster ++ [with_role RoleActive replacement])
             (remove_first replacement (standby_members roster)))
      | None => (None, roster)
      end
  | _ => (None, roster)
  end.

Definition eviction_mode (policy : CommitteePolicy) (new_state : WriterState) : EvictionMode :=
  if bool_decide (new_state = REVOKED) then security_eviction policy else operational_eviction policy.

Definition handle_state_change (policy : CommitteePolicy) (eh : EvictionHandler) (roster : CommitteeRoster)
    (fp : bytes) (new_state : WriterState) (timestamp : Z) :
  option EvictionEvent * EvictionHandler * CommitteeRoster :=
  match STATE_TO_REASON new_state with
  | None => (None, eh, roster)
  | Some reason =>
      match list_find (fun m => writer_fp m = fp) (active_members roster) with
      | None => (None, eh, roster)
      | Some (member_idx, _) =>
          let mode := eviction_mode policy new_state in
          match mode with
          | EPOCH_BOUNDARY =>
              (None, {| eh_events := eh_events eh; eh_halted := eh_halted eh;
                        pending_evictions := pending_evictions eh ++ [(fp, reason)];
                        emitted_events := emitted_events eh |}, roster)
          | _ =>
              let roster := set_members roster (delete member_idx (active_members roster)) (standby_members roster) in
              let '(filled, roster) := backfill policy mode roster in
              let eh := if filled then emit eh MEMBER_BACKFILLED else eh in
              let eh := check_floor policy (emit eh MEMBER_EVICTED) roster in
              let event := {| ev_writer_fp := fp; ev_vm_tag := r_vm_tag roster; ev_epoch := r_epoch roster;
                              ev_reason := reason; backfill_fp := filled; ev_timestamp := timestamp |} in
              (Some event, {| eh_events := eh_events eh ++ [event]; eh_halted := eh_halted eh;
                              pending_evictions := pending_evictions eh; emitted_events := emitted_events eh |}, roster)
          end
      end
  end.

(** * epoch.py *)
Record EpochManager : Type := {
  em_vm_tag : Z;
  em_current_epoch : Z;
  em_start_round : Z;
  em_start_ts : Z;
  em_rosters : list CommitteeRoster;
  em_roster : option nat;
  em_history : list EpochRecord
}.
Definition new_epoch_manager (vm_tag : Z) : EpochManager :=
  {| em_vm_tag := vm_tag; em_current_epoch := 0; em_start_round := 0; em_start_ts := 0;
     em_rosters := []; em_roster := None; em_history := [] |}.

(** [_advance] *)
Definition em_advance (policy : CommitteePolicy) (candidates : list WriterRecord) (em : EpochManager)
    (current_round timestamp : Z) (trigger : EpochTrigger) : EpochManager :=
  let epoch := em_current_epoch em + 1 in
  let ref := length (em_rosters em) in
  {| em_vm_tag := em_vm_tag em; em_current_epoch := epoch;
     em_start_round := current_round; em_start_ts := timestamp;
     em_rosters := em_rosters em ++ [build_roster policy candidates epoch current_round timestamp];
     em_roster := Some ref;
     em_history := em_history em ++ [{| er_vm_tag := em_vm_tag em; er_epoch := epoch; er_roster := ref;
       er_trigger := trigger; er_previous_epoch := em_current_epoch em; er_timestamp := timestamp |}] |}.

Definition check_advance (policy : CommitteePolicy) (candidates : list WriterRecord) (em : EpochManager)
    (current_round timestamp_ms : Z) : bool * EpochManager :=
  match epoch_strategy policy with
  | MANUAL => (false, em)
  | ROUND_COUNT =>
      if current_round - em_start_round em <? epoch_length policy then (false, em)
      else (true, em_advance policy candidates em current_round timestamp_ms TriggerRoundCount)
  | TIME_BASED =>
      if (em_start_ts em =? 0) && (em_current_epoch em =? 0) then
        (false, em_advance policy candidates em current_round timestamp_ms TriggerRoundCount)
      else if timestamp_ms - em_start_ts em <? epoch_duration_ms policy then (false, em)
      else (true, em_advance policy candidates em current_round timestamp_ms TriggerTime)
  end.

Definition admin_advance (policy : CommitteePolicy) (candidates : list WriterRecord) (em : EpochManager)
    (timestamp : Z) : EpochManager :=
  em_advance policy candidates em 0 timestamp TriggerAdmin.

Definition emergency_advance (policy : CommitteePolicy) (candidates : list WriterRecord) (em : EpochManager)
    (timestamp : Z) : EpochManager :=
  em_advance policy candidates em 0 timestamp TriggerEmergency.

(** [roster]: the object the manager refers to. *)
Definition current_roster (em : EpochManager) : option CommitteeRoster :=
  ref ← em_roster em; em_rosters em !! ref.

(** * manager.py: [CommitteeManager] *)
Record CommitteeManager : Type := {
  cm_vm_tag : Z;
  cm_policy : CommitteePolicy;
  cm_eviction : EvictionHandler;
  cm_epochs : EpochManager;
  cm_dkg : DKGKeyRegistry;
  cm_signing_keys : gmap Z (list ThresholdSigningKey)
}.

Definition new_manager (vm_tag : Z) (policy : CommitteePolicy) : CommitteeManager :=
  {| cm_vm_tag := vm_tag; cm_policy := policy; cm_eviction := new_handler;
     cm_epochs := new_epoch_manager vm_tag; cm_dkg := Dkg.new_registry vm_tag; cm_signing_keys := ∅ |}.

Definition with_epochs (cm : CommitteeManager) (em : EpochManager) : CommitteeManager :=
  {| cm_vm_tag := cm_vm_tag cm; cm_policy := cm_policy cm; cm_eviction := cm_eviction cm; cm_epochs := em;
     cm_dkg := cm_dkg cm; cm_signing_keys := cm_signing_keys cm |}.

Definition on_writer_state_change (cm : CommitteeManager) (fp : bytes) (new_state : WriterState) : CommitteeManager :=
  match em_roster (cm_epochs cm) with
  | None => cm
  | Some ref =>
      match em_rosters (cm_epochs cm) !! ref with
      | None => cm
      | Some roster =>
          let '(_, eh, roster) := handle_state_change (cm_policy cm) (cm_eviction cm) roster fp new_state 0 in
          let em := cm_epochs cm in
          {| cm_vm_tag := cm_vm_tag cm; cm_policy := cm_policy cm; cm_eviction := eh;
             cm_epochs := {| em_vm_tag := em_vm_tag em; em_current_epoch := em_current_epoch em;
                             em_start_round := em_start_round em; em_start_ts := em_start_ts em;
                             em_rosters := <[ref := roster]> (em_rosters em);
                             em_roster := em_roster em; em_history := em_history em |};
             cm_dkg := cm_dkg cm; cm_signing_keys := cm_signing_keys cm |}
      end
  end.

Section Manager.
Context {G1 G2 : Type} `{CurveGroup G1} `{CurveGroup G2} (G_POINT H_POINT : G1).
Context (hash_to_G2 : bytes -> G2) (g1_compress : G1 -> bytes) (bls : option bls_library).

(** [except (ValueError, KeyError): pass] *)
Definition caught (e : exn) : bool :=
  match e with ValueError _ | KeyError => true | _ => false end.

(** [_run_dkg_ceremony]: the sessions of all members in one process, with the
    polynomials their dealers draw.  The last result is the one stored; there
    is one because the threshold is positive when the ceremony is run. *)
Definition run_dkg_ceremony (cm : CommitteeManager) (sp bp : bytes -> list Z) : result CommitteeManager :=
  match current_roster (cm_epochs cm) with
  | None => Ok cm
  | Some roster =>
      let participants := map writer_fp (active_members roster) in
      if Z.of_nat (length participants) <? dkg_threshold (cm_policy cm) then Ok cm
      else
        let epoch := em_current_epoch (cm_epochs cm) in
        let cfg := {| cfg_vm_tag := cm_vm_tag cm; cfg_epoch := epoch; cfg_threshold := dkg_threshold (cm_policy cm);
                      cfg_participants := participants;
                      cfg_timeout_rounds := dkg_timeout_rounds (cm_policy cm); cfg_start_round := 0 |} in
        sessions ← mapR (ceremony_session G_POINT H_POINT cfg sp bp) participants;
        match (outs ← mapR (fun s => (finalize G_POINT H_POINT s).1) sessions;
               res ← or_raise KeyError (last outs);
               kr ← kr_store (cm_dkg cm) res.1; Ok (kr, map snd outs)) with
        | Ok (kr, keys) =>
            Ok {| cm_vm_tag := cm_vm_tag cm; cm_policy := cm_policy cm; cm_eviction := cm_eviction cm;
                  cm_epochs := cm_epochs cm; cm_dkg := kr;
                  cm_signing_keys := <[epoch := keys]> (cm_signing_keys cm) |}
        | Err e => if caught e then Ok cm else Err e
        end
  end.

Definition tick (cm : CommitteeManager) (candidates : list WriterRecord) (sp bp : bytes -> list Z)
    (current_round timestamp_ms : Z) : result (bool * CommitteeManager) :=
  let '(advanced, em) := check_advance (cm_policy cm) candidates (cm_epochs cm) current_round timestamp_ms in
  let cm := with_epochs cm em in
  if advanced && (0 <? dkg_threshold (cm_policy cm)) then
    cm ← run_dkg_ceremony cm sp bp; Ok (true, cm)
  else Ok (advanced, cm).

Definition sign_as_committee (cm : CommitteeManager) (message domain : bytes) : result (option bytes) :=
  match cm_signing_keys cm !! em_current_epoch (cm_epochs cm) with
  | None | Some [] => Ok None
  | Some keys =>
      let threshold := dkg_threshold (cm_policy cm) in
      let partials := map (fun k => partial_sign hash_to_G2 k message domain) (take (Z.to_nat threshold) keys) in
      sig ← combine_partial_signatures (G2 := G2) partials threshold;
      Ok (Some sig)
  end.

Definition verify_committee_signature (cm : CommitteeManager) (message signature domain : bytes)
    (epoch : option Z) : result bool :=
  let epoch := default (em_current_epoch (cm_epochs cm)) epoch in
  if negb (kr_has_epoch (cm_dkg cm) epoch) then Ok false
  else
    pk ← kr_group_pk (cm_dkg cm) epoch;
    threshold_verify g1_compress bls pk message signature domain.
End Manager.

Definition is_member (cm : CommitteeManager) (fp : bytes) : bool :=
  match current_roster (cm_epochs cm) with
  | None => false
  | Some roster => existsb (fun m => bool_decide (writer_fp m = fp)) (active_members roster)
  end.

(** [history]: the records with the rosters they refer to, as they are now. *)
Definition cm_history (cm : CommitteeManager) : list (EpochRecord * option CommitteeRoster) :=
  map (fun r => (r, em_rosters (cm_epochs cm) !! er_roster r)) (em_history (cm_epochs cm)).

(** * Formation *)
Definition eligible (policy : CommitteePolicy) (r : WriterRecord) : bool :=
  let fp := fingerprint (identity r) in
  TRANSACTABLE_STATES (state r) &&
  (bool_decide (fp ∈ force_include policy) ||
   (negb (bool_decide (fp ∈ force_exclude policy)) && passes_filters r policy)).

Lemma split_candidates_perm policy candidates :
  (split_candidates policy candidates).1 ++ (split_candidates policy candidates).2 ≡ₚ
  List.filter (eligible policy) candidates.
Proof.
  unfold split_candidates.
  enough (forall l acc, let out := fold_left _ l acc in out.1 ++ out.2 ≡ₚ (acc.1 ++ acc.2) ++ List.filter (eligible policy) l)
    as He by (apply (He candidates ([], []))).
  induction l as [|r l IH]; intros [e f]; cbn -[eligible]; [by rewrite app_nil_r|].
  etrans; [apply IH|]. unfold eligible at 2.
  destruct (TRANSACTABLE_STATES (state r)); cbn -[eligible]; [|done].
  destruct (bool_decide (fingerprint (identity r) ∈ force_include policy)); cbn -[eligible].
  { rewrite !app_assoc. by rewrite <- (app_assoc _ [r]). }
  destruct (bool_decide (fingerprint (identity r) ∈ force_exclude policy)); cbn -[eligible]; [done|].
  destruct (passes_filters r policy); cbn -[eligible]; [|done].
  rewrite <- !app_assoc. apply Permutation_app_head. simpl. apply Permutation_middle.
Qed.

Lemma score_geb_total x y : score_geb x y = true \/ score_geb y x = true.
Proof. unfold score_geb, score_member. rewrite !orb_true_iff, !andb_true_iff, !Z.ltb_lt, !Z.eqb_eq, !Z.leb_le. lia. Qed.
Lemma score_geb_trans x y z : score_geb x y = true -> score_geb y z = true -> score_geb x z = true.
Proof. unfold score_geb, score_member. rewrite !orb_true_iff, !andb_true_iff, !Z.ltb_lt, !Z.eqb_eq, !Z.leb_le. lia. Qed.

(** The ranking the roster is cut from. *)
Definition ranking (policy : CommitteePolicy) (candidates : list WriterRecord) (epoch : Z) : list CommitteeMember :=
  let ef := split_candidates policy candidates in
  rank (map (fun r => to_member r epoch) (ef.1 ++ ef.2)).

Definition fps (ms : list CommitteeMember) : list bytes := map writer_fp ms.

Lemma fps_role r ms : fps (map (with_role r) ms) = fps ms.
Proof. unfold fps. rewrite map_map. done. Qed.

Lemma ranking_fps policy candidates epoch :
  fps (ranking policy candidates epoch) ≡ₚ
  map (fun r => fingerprint (identity r)) (List.filter (eligible policy) candidates).
Proof.
  unfold ranking, rank, fps. rewrite sort_by_perm, map_map. cbn. by rewrite split_candidates_perm.
Qed.

Lemma ranking_sorted policy candidates epoch :
  StronglySorted (fun x y => score_geb x y = true) (ranking policy candidates epoch).
Proof. apply sort_by_sorted; [apply score_geb_total|apply score_geb_trans]. Qed.

(** The two cuts. *)
Definition active_part (policy : CommitteePolicy) (ms : list CommitteeMember) : list CommitteeMember :=
  if 0 <? max_committee_size policy then take (Z.to_nat (max_committee_size policy)) ms else ms.
Definition standby_part (policy : CommitteePolicy) (ms : list CommitteeMember) : list CommitteeMember :=
  let pool := if 0 <? max_committee_size policy then drop (Z.to_nat (max_committee_size policy)) ms else [] in
  if 0 <? max_standby_size policy then take (Z.to_nat (max_standby_size policy)) pool else pool.

Lemma build_roster_eq policy candidates epoch round ts :
  active_members (build_roster policy candidates epoch round ts) =
    map (with_role RoleActive) (active_part policy (ranking policy candidates epoch)) /\
  standby_members (build_roster policy candidates epoch round ts) =
    map (with_role RoleStandby) (standby_part policy (ranking policy candidates epoch)).
Proof.
  unfold build_roster, active_part, standby_part, ranking.
  destruct (split_candidates policy candidates) as [e f]. cbn [fst snd].
  by destruct (0 <? max_committee_size policy).
Qed.

(** The roster is a prefix of the ranking, cut in two. *)
Lemma parts_prefix policy ms : exists rest, active_part policy ms ++ standby_part policy ms ++ rest = ms.
Proof.
  unfold active_part, standby_part. destruct (0 <? max_committee_size policy).
  - destruct (0 <? max_standby_size policy).
    + exists (drop (Z.to_nat (max_standby_size policy)) (drop (Z.to_nat (max_committee_size policy)) ms)).
      by rewrite !take_drop.
    + exists []. by rewrite app_nil_r, take_drop.
  - exists []. destruct (0 <? max_standby_size policy); rewrite ?take_nil, !app_nil_r; done.
Qed.

Definition roster_ok (policy : CommitteePolicy) (ro : CommitteeRoster) : Prop :=
  NoDup (fps (active_members ro ++ standby_members ro)) /\
  (0 < max_committee_size policy -> Z.of_nat (length (active_members ro)) <= max_committee_size policy).

Lemma build_roster_ok policy candidates epoch round ts :
  NoDup (map (fun r => fingerprint (identity r)) candidates) ->
  roster_ok policy (build_roster policy candidates epoch round ts).
Proof.
  intros Hnd. destruct (build_roster_eq policy candidates epoch round ts) as [Ea Es].
  split.
  - rewrite Ea, Es. unfold fps. rewrite map_app. change (map writer_fp) with fps. rewrite !fps_role.
    destruct (parts_prefix policy (ranking policy candidates epoch)) as [rest Er].
    assert (NoDup (fps (ranking policy candidates epoch))) as Hr.
    { rewrite ranking_fps. clear -Hnd. induction candidates as [|r l IH]; [constructor|].
      apply NoDup_cons in Hnd as [Hn Hnd]. simpl. destruct (eligible policy r); [|auto]. simpl. constructor; [|auto].
      intros (x & Ex & Hx)%elem_of_map. apply Hn. apply elem_of_map. exists x. split; [done|].
      apply list_elem_of_In in Hx. apply filter_In in Hx as [Hx _]. by apply list_elem_of_In. }
    rewrite <- Er in Hr. unfold fps in Hr. rewrite !map_app, app_assoc in Hr. by apply NoDup_app in Hr as [? _].
  - intros Hc. rewrite Ea, length_map. unfold active_part. rewrite (proj2 (Z.ltb_lt 0 _) Hc), length_take. lia.
Qed.

(** Formation.  The roster of a new epoch consists of eligible candidates,
    each once; the active committee respects the cap and leaves nobody waiting
    below the cap; no standby member outranks an active one; and without a
    standby limit every eligible writer is placed when there is a cap, and all
    are active when there is none. *)
Theorem formation_exact policy candidates epoch round ts :
  NoDup (map (fun r => fingerprint (identity r)) candidates) ->
  let ro := build_roster policy candidates epoch round ts in
  let good := map (fun r => fingerprint (identity r)) (List.filter (eligible policy) candidates) in
  NoDup (fps (active_members ro ++ standby_members ro)) /\
  fps (active_members ro ++ standby_members ro) ⊆ good /\
  (0 < max_committee_size policy -> Z.of_nat (length (active_members ro)) <= max_committee_size policy /\
     (standby_members ro <> [] -> Z.of_nat (length (active_members ro)) = max_committee_size policy)) /\
  (max_committee_size policy <= 0 -> fps (active_members ro) ≡ₚ good) /\
  (0 < max_committee_size policy -> max_standby_size policy <= 0 -> fps (active_members ro ++ standby_members ro) ≡ₚ good) /\
  (forall a s, a ∈ active_members ro -> s ∈ standby_members ro -> score_geb a s = true).
Proof.
  intros Hnd ro good. destruct (build_roster_ok policy candidates epoch round ts Hnd) as [H1 H2].
  destruct (build_roster_eq policy candidates epoch round ts) as [Ea Es]. fold ro in H1, H2, Ea, Es.
  set (ms := ranking policy candidates epoch) in *.
  assert (fps ms ≡ₚ good) as Hms by apply ranking_fps.
  assert (fps (active_members ro ++ standby_members ro) = fps (active_part policy ms ++ standby_part policy ms)) as Efps.
  { rewrite Ea, Es. unfold fps. rewrite !map_app, !map_map. done. }
  destruct (parts_prefix policy ms) as [rest Er]. split_and!; [done|..].
  - rewrite Efps. intros fp Hfp. rewrite <- Hms, <- Er, app_assoc. unfold fps in *. rewrite map_app. apply elem_of_app. by left.
  - intros Hc. split; [by apply H2|]. intros Hs. rewrite Ea, length_map.
    assert (standby_part policy ms <> []) as Hs' by (intros E; apply Hs; by rewrite Es, E).
    unfold active_part, standby_part in *. rewrite (proj2 (Z.ltb_lt 0 _) Hc) in *. rewrite length_take.
    enough (Z.to_nat (max_committee_size policy) < length ms)%nat by lia.
    destruct (decide (length ms <= Z.to_nat (max_committee_size policy))%nat); [|lia].
    rewrite drop_ge in Hs' by done. destruct (0 <? max_standby_size policy); rewrite ?take_nil in Hs'; done.
  - intros Hc. rewrite Ea, fps_role. unfold active_part. rewrite (proj2 (Z.ltb_ge 0 _)) by done. done.
  - intros Hc Hs. rewrite Efps. unfold active_part, standby_part. rewrite (proj2 (Z.ltb_lt 0 _) Hc), (proj2 (Z.ltb_ge 0 _) Hs), take_drop. done.
  - intros a s Ha Hs. rewrite Ea in Ha. rewrite Es in Hs.
    apply elem_of_map in Ha as (a' & -> & Ha), Hs as (s' & -> & Hs).
    change (score_geb a' s' = true). pose proof (ranking_sorted policy candidates epoch) as Hsort. fold ms in Hsort.
    rewrite <- Er in Hsort. apply StronglySorted_app in Hsort as (Hx & _). apply Hx; [done|]. apply elem_of_app. by left.
Qed.

(** * Evictions *)
Lemma remove_first_perm {A} `{EqDecision A} (x : A) xs : x ∈ xs -> x :: remove_first x xs ≡ₚ xs.
Proof.
  induction xs as [|y xs IH]; intros Hin; [by apply not_elem_of_nil in Hin|]. simpl.
  destruct (decide (x = y)) as [->|Hne]; [done|]. apply elem_of_cons in Hin as [?|Hin]; [done|].
  rewrite <- (IH Hin) at 2. constructor.
Qed.

Lemma standby_next_elem policy ro m : standby_next policy ro = Some m -> m ∈ standby_members ro.
Proof.
  unfold standby_next. destruct (standby_members ro) as [|first rest] eqn:E; [done|].
  destruct (standby_strategy policy).
  - intros Hh. apply (elem_of_sort_by score_geb). unfold rank in Hh. destruct (sort_by _ _); simplify_eq/=. by left.
  - intros [= <-]. by left.
  - intros Hh. destruct (omap _ _) as [|x l] eqn:Eo; simplify_eq/=.
    assert (m ∈ omap (fun fp => find_member fp (first :: rest)) (admin_standby_list policy)) as Hin
      by (rewrite Eo; by left).
    apply list_elem_of_omap in Hin as (fp & _ & Hf). unfold find_member in Hf.
    apply find_some in Hf as [Hf _]. rewrite <- in_rev in Hf. by apply list_elem_of_In.
Qed.

(** Filling a vacancy moves one standby member, or changes nothing. *)
Lemma backfill_spec policy mode ro filled ro' : backfill policy mode ro = (filled, ro') ->
  match filled with
  | None => ro' = ro
  | Some fp => exists m, mode = IMMEDIATE_BACKFILL /\ standby_next policy ro = Some m /\ fp = writer_fp m /\
      active_members ro' = active_members ro ++ [with_role RoleActive m] /\
      m :: standby_members ro' ≡ₚ standby_members ro
  end.
Proof.
  unfold backfill. destruct mode; [by intros [= <- <-]| |by intros [= <- <-]].
  destruct (standby_next policy ro) as [m|] eqn:En; intros [= <- <-]; [|done].
  exists m. split_and!; try done. simpl. apply remove_first_perm. by eapply standby_next_elem.
Qed.

Lemma delete_spec (ms : list CommitteeMember) i m : ms !! i = Some m -> m :: delete i ms ≡ₚ ms.
Proof. intros Hi. symmetry. by apply delete_Permutation. Qed.

(** The standby member an eviction brings in. *)
Definition replacement (policy : CommitteePolicy) (ro : CommitteeRoster) (st : WriterState) : option CommitteeMember :=
  match eviction_mode policy st with IMMEDIATE_BACKFILL => standby_next policy ro | _ => None end.

Lemma check_floor_halted policy eh ro :
  eh_halted (check_floor policy eh ro) =
  if min_committee_size policy <=? Z.of_nat (length (active_members ro)) then false
  else match floor_mode policy with HARD => true | SOFT => eh_halted eh end.
Proof.
  unfold check_floor. destruct (_ <=? _); [by destruct (eh_halted eh) eqn:E|]. by destruct (floor_mode policy).
Qed.

Lemma check_floor_events policy eh ro : eh_events (check_floor policy eh ro) = eh_events eh.
Proof. unfold check_floor. by destruct (_ <=? _), (eh_halted eh), (floor_mode policy). Qed.

(** The roster after an eviction and a backfill. *)
Lemma backfilled_ok policy mode ro i m filled ro' : roster_ok policy ro -> active_members ro !! i = Some m ->
  backfill policy mode (set_members ro (delete i (active_members ro)) (standby_members ro)) = (filled, ro') ->
  roster_ok policy ro' /\
  (forall fp, fp ∈ fps (active_members ro') <->
    (fp ∈ fps (active_members ro) /\ fp <> writer_fp m) \/ filled = Some fp).
Proof.
  intros [Hnd Hcap] Hi Hb%backfill_spec. pose proof (delete_spec _ _ _ Hi) as Hdel.
  set (del := delete i (active_members ro)) in *.
  assert (NoDup (writer_fp m :: fps del ++ fps (standby_members ro))) as Hnd'.
  { unfold fps in *. rewrite map_app in Hnd. by rewrite <- Hdel in Hnd. }
  assert (forall fp, fp ∈ fps del <-> fp ∈ fps (active_members ro) /\ fp <> writer_fp m) as Hin.
  { intros fp. assert (fp ∈ fps (active_members ro) <-> fp = writer_fp m \/ fp ∈ fps del) as ->.
    { unfold fps. rewrite <- Hdel. simpl. by rewrite elem_of_cons. }
    apply NoDup_cons in Hnd' as [Hn _]. rewrite elem_of_app in Hn. split; [intros Hf|naive_solver].
    split; [by right|]. intros ->. tauto. }
  assert (length (active_members ro) = S (length del)) as Hlen by (by rewrite <- Hdel).
  destruct filled as [fp|]; [|subst ro'].
  - destruct Hb as (rm & _ & _ & -> & Ea & Es). simpl in Ea, Es. unfold roster_ok. rewrite Ea. split.
    + split.
      * unfold fps. rewrite !map_app, <- app_assoc. simpl. apply NoDup_cons in Hnd' as [_ Hnd'].
        unfold fps in Hnd'. by rewrite <- Es in Hnd'.
      * intros Hc. specialize (Hcap Hc). rewrite length_app. simpl. lia.
    + intros fp. unfold fps at 1. rewrite map_app. simpl. rewrite elem_of_app, list_elem_of_singleton.
      change (map writer_fp del) with (fps del). rewrite Hin. naive_solver.
  - split.
    + split; simpl.
      * unfold fps. rewrite map_app. by apply NoDup_cons in Hnd' as [_ ?].
      * intros Hc. specialize (Hcap Hc). fold del. lia.
    + intros fp. simpl. fold del. rewrite Hin. naive_solver.
Qed.

(** Evictions.  When a member of the committee is revoked, suspended or
    expires and the policy does not defer it, exactly that member leaves and
    exactly the designated standby member, if the mode asks for one, joins;
    the roster stays within its cap without repetitions; the event reports
    this, and the committee is halted exactly when it is below a hard floor
    (below a soft floor the flag is unchanged). *)
Theorem eviction_exact policy eh ro fp st ts reason :
  roster_ok policy ro -> STATE_TO_REASON st = Some reason -> fp ∈ fps (active_members ro) ->
  eviction_mode policy st <> EPOCH_BOUNDARY ->
  exists ev eh' ro', handle_state_change policy eh ro fp st ts = (Some ev, eh', ro') /\
    ev = {| ev_writer_fp := fp; ev_vm_tag := r_vm_tag ro; ev_epoch := r_epoch ro; ev_reason := reason;
            backfill_fp := writer_fp <$> replacement policy ro st; ev_timestamp := ts |} /\
    roster_ok policy ro' /\
    (forall fp', fp' ∈ fps (active_members ro') <->
      (fp' ∈ fps (active_members ro) /\ fp' <> fp) \/ writer_fp <$> replacement policy ro st = Some fp') /\
    eh_events eh' = eh_events eh ++ [ev] /\
    eh_halted eh' = (if min_committee_size policy <=? Z.of_nat (length (active_members ro')) then false
                     else match floor_mode policy with HARD => true | SOFT => eh_halted eh end).
Proof.
  intros Hok Hr Hfp Hmode. unfold handle_state_change. rewrite Hr.
  destruct (list_find (fun m => writer_fp m = fp) (active_members ro)) as [[i m]|] eqn:Ef.
  2: { apply list_find_None in Ef. rewrite Forall_forall in Ef. apply elem_of_map in Hfp as (m & -> & Hm).
       by destruct (Ef m Hm). }
  apply list_find_Some in Ef as (Hi & <- & _).
  set (ro1 := set_members ro (delete i (active_members ro)) (standby_members ro)).
  assert (forall mode, mode <> EPOCH_BOUNDARY -> (backfill policy mode ro1).1 =
    writer_fp <$> match mode with IMMEDIATE_BACKFILL => standby_next policy ro | _ => None end) as Hrep.
  { intros mode _. unfold backfill. destruct mode; try done.
    change (standby_next policy ro1) with (standby_next policy ro). by destruct (standby_next policy ro). }
  assert (forall mode, r_vm_tag (backfill policy mode ro1).2 = r_vm_tag ro /\
    r_epoch (backfill policy mode ro1).2 = r_epoch ro) as Hkeep.
  { intros mode. unfold backfill. destruct mode; try done. by destruct (standby_next policy ro1). }
  specialize (Hrep _ Hmode). specialize (Hkeep (eviction_mode policy st)). unfold replacement.
  destruct (backfill policy (eviction_mode policy st) ro1) as [filled ro2] eqn:Eb.
  destruct (backfilled_ok policy _ ro i m filled ro2 Hok Hi Eb) as [Hok2 Hin]. cbn [fst snd] in Hrep, Hkeep.
  destruct Hkeep as [K1 K2]. rewrite <- Hrep.
  destruct (eviction_mode policy st); [..|done]; cbv zeta; eexists _, _, _; (split; [reflexivity|]);
    rewrite K1, K2; (split_and!; [done|done|done|cbn [eh_events]|cbn [eh_halted]]).
  all: try (rewrite check_floor_halted; by destruct filled).
  all: by rewrite check_floor_events; destruct filled.
Qed.

(** * The manager over time *)
Section ManagerTheorems.
Context {G1 G2 : Type} `{CurveGroup G1} `{CurveGroup G2} (GP HP : G1).
Context (hash_to_G2 : bytes -> G2) (g1_compress : G1 -> bytes) (bls : option bls_library).

(** The registry is a dict: the candidates it returns are distinct. *)
Definition distinct (candidates : list WriterRecord) : Prop :=
  NoDup (map (fun r => fingerprint (identity r)) candidates).

Inductive cm_step (cm : CommitteeManager) : CommitteeManager -> Prop :=
| step_tick candidates sp bp round ts advanced cm' :
    distinct candidates -> tick GP HP cm candidates sp bp round ts = Ok (advanced, cm') -> cm_step cm cm'
| step_writer fp st : cm_step cm (on_writer_state_change cm fp st)
| step_admin candidates ts : distinct candidates ->
    cm_step cm (with_epochs cm (admin_advance (cm_policy cm) candidates (cm_epochs cm) ts))
| step_emergency candidates ts : distinct candidates ->
    cm_step cm (with_epochs cm (emergency_advance (cm_policy cm) candidates (cm_epochs cm) ts)).

Inductive cm_reachable (vm_tag : Z) (policy : CommitteePolicy) : CommitteeManager -> Prop :=
| cm_init : cm_reachable vm_tag policy (new_manager vm_tag policy)
| cm_next cm cm' : cm_reachable vm_tag policy cm -> cm_step cm cm' -> cm_reachable vm_tag policy cm'.

(** Record [i] of the history is epoch [i + 1] and refers to roster [i]. *)
Definition record_ok (rosters : list CommitteeRoster) (i : nat) (r : EpochRecord) : Prop :=
  er_epoch r = Z.of_nat i + 1 /\ er_previous_epoch r = Z.of_nat i /\ er_roster r = i /\
  exists ro, rosters !! i = Some ro /\ r_epoch ro = Z.of_nat i + 1.

Record em_ok (policy : CommitteePolicy) (em : EpochManager) : Prop := {
  eo_epoch : em_current_epoch em = Z.of_nat (length (em_history em));
  eo_rosters : length (em_rosters em) = length (em_history em);
  eo_current : em_roster em = match length (em_history em) with 0%nat => None | S i => Some i end;
  eo_records : forall i r, em_history em !! i = Some r -> record_ok (em_rosters em) i r;
  eo_ok : Forall (roster_ok policy) (em_rosters em)
}.

Record cm_ok (vm_tag : Z) (policy : CommitteePolicy) (cm : CommitteeManager) : Prop := {
  co_tag : cm_vm_tag cm = vm_tag;
  co_policy : cm_policy cm = policy;
  co_epochs : em_ok policy (cm_epochs cm);
  co_registry : kr_vm_tag (cm_dkg cm) = vm_tag;
  co_keys : forall e, is_Some (cm_signing_keys cm !! e) <-> is_Some (kr_epochs (cm_dkg cm) !! e);
  co_past : forall e, is_Some (kr_epochs (cm_dkg cm) !! e) -> 1 <= e <= em_current_epoch (cm_epochs cm)
}.

Lemma em_advance_ok policy candidates em round ts trigger : distinct candidates -> em_ok policy em ->
  em_ok policy (em_advance policy candidates em round ts trigger).
Proof.
  intros Hd [H1 H2 H3 H4 H5]. constructor; cbn [em_advance em_current_epoch em_history em_rosters em_roster].
  - rewrite length_app, H1. simpl. lia.
  - rewrite !length_app, H2. done.
  - rewrite length_app, H2, Nat.add_1_r. done.
  - intros i r Hi. apply lookup_app_Some in Hi as [Hi|[Hlen Hi]].
    + destruct (H4 i r Hi) as (E1 & E2 & E3 & ro & Hro & E4). repeat split; try done.
      exists ro. split; [|done]. by apply lookup_app_l_Some.
    + assert (i = length (em_history em)) as Ei by (apply list_lookup_singleton_Some in Hi as [? _]; lia).
      rewrite Ei, Nat.sub_diag in Hi. injection Hi as <-. unfold record_ok. cbn. rewrite H1, H2, Ei.
      repeat split; try done. eexists. split; [rewrite lookup_app_r, H2, Nat.sub_diag by lia; reflexivity|].
      unfold build_roster. destruct (split_candidates policy candidates), (0 <? max_committee_size policy); done.
  - apply Forall_app. split; [done|]. constructor; [|constructor]. by apply build_roster_ok.
Qed.

Lemma check_advance_ok policy candidates em round ts b em' : distinct candidates -> em_ok policy em ->
  check_advance policy candidates em round ts = (b, em') ->
  em_ok policy em' /\ em_current_epoch em <= em_current_epoch em' /\
  (b = true -> em_current_epoch em' = em_current_epoch em + 1).
Proof.
  intros Hd Hok. unfold check_advance.
  destruct (epoch_strategy policy); repeat case_match; intros [= <- <-];
    (split; [first [done|by apply em_advance_ok]|cbn [em_advance em_current_epoch]; (split; [lia|done])]).
Qed.
Lemma backfill_epoch policy mode ro : r_epoch (backfill policy mode ro).2 = r_epoch ro.
Proof. unfold backfill. destruct mode; try done. by destruct (standby_next policy ro). Qed.

Lemma handle_ok policy eh ro fp st ts ev eh' ro' : roster_ok policy ro ->
  handle_state_change policy eh ro fp st ts = (ev, eh', ro') -> roster_ok policy ro' /\ r_epoch ro' = r_epoch ro.
Proof.
  intros Hok. unfold handle_state_change.
  destruct (STATE_TO_REASON st); [|by intros [= <- <- <-]].
  destruct (list_find _ _) as [[i m]|] eqn:Ef; [|by intros [= <- <- <-]].
  apply list_find_Some in Ef as (Hi & _ & _).
  set (ro1 := set_members ro (delete i (active_members ro)) (standby_members ro)).
  pose proof (backfill_epoch policy (eviction_mode policy st) ro1) as He.
  destruct (backfill policy (eviction_mode policy st) ro1) as [filled ro2] eqn:Eb.
  destruct (backfilled_ok policy _ ro i m filled ro2 Hok Hi Eb) as [Hok2 _].
  destruct (eviction_mode policy st); cbv zeta; intros [= <- <- <-]; done.
Qed.

Lemma on_writer_ok vm policy cm fp st : cm_ok vm policy cm -> cm_ok vm policy (on_writer_state_change cm fp st).
Proof.
  intros Hcm. pose proof Hcm as [H1 H2 [E1 E2 E3 E4 E5] H4 H5 H6]. unfold on_writer_state_change.
  destruct (em_roster (cm_epochs cm)) as [ref|] eqn:Er; [|done].
  destruct (em_rosters (cm_epochs cm) !! ref) as [ro|] eqn:Ero; [|done].
  destruct (handle_state_change _ _ _ _ _ _) as [[ev eh] ro'] eqn:Eh. rewrite H2 in Eh.
  rewrite Forall_lookup in E5.
  destruct (handle_ok _ _ _ _ _ _ _ _ _ (E5 _ _ Ero) Eh) as [Hok Hep].
  constructor; try done. constructor; cbn [cm_epochs em_current_epoch em_history em_rosters em_roster].
  - done.
  - by rewrite length_insert.
  - congruence.
  - intros i r Hi. destruct (E4 i r Hi) as (A1 & A2 & A3 & ro0 & A4 & A5). repeat split; try done.
    destruct (decide (i = ref)) as [->|Hne].
    + exists ro'. rewrite list_lookup_insert_eq by (by eapply lookup_lt_Some). split; [done|]. simplify_eq. congruence.
    + exists ro0. by rewrite list_lookup_insert_ne.
  - apply Forall_insert; [by apply Forall_lookup|done].
Qed.

(** The sessions of a ceremony and their results carry its configuration. *)
Lemma session_config cfg sp bp my s : ceremony_session GP HP cfg sp bp my = Ok s -> Dkg.config s = cfg.
Proof.
  unfold ceremony_session, dealer, begin. cbn [new_session Dkg.state]. rewrite bool_decide_true by done. cbn [negb].
  destruct (generate_commitments GP HP (sp my) (bp my)) as [f p]. cbn [mbind result_bind].
  match goal with |- context [mapR ?f (others cfg my)] => destruct (mapR f (others cfg my)) as [cs|]; [|discriminate] end.
  cbn [mbind result_bind].
  match goal with |- context [mapR ?f (others cfg my)] => destruct (mapR f (others cfg my)) as [ss|]; [|discriminate] end.
  cbn [mbind result_bind].
  rewrite receive_commitments, receive_shares. unfold end_sharing_phase.
  destruct (foldM _ _ _); [|done]. cbn [mbind result_bind]. by intros [= <-].
Qed.

Lemma finalize_config s out : (finalize GP HP s).1 = Ok out ->
  dr_epoch out.1 = cfg_epoch (Dkg.config s) /\ dr_vm_tag out.1 = cfg_vm_tag (Dkg.config s).
Proof.
  unfold finalize. destruct (resolve_qual GP HP s) as [q [e|]]; [done|].
  destruct (_ <? _); [done|]. destruct (group_point ← _; _) as [[gp sh]|e]; [|done]. by intros [= <-].
Qed.

Lemma or_raise_Ok {A} e (o : option A) x : or_raise e o = Ok x -> o = Some x.
Proof. destruct o; [by intros [= ->]|done]. Qed.

Lemma ceremony_results cfg sp bp ps sessions outs res :
  mapR (ceremony_session GP HP cfg sp bp) ps = Ok sessions ->
  mapR (fun s => (finalize GP HP s).1) sessions = Ok outs -> last outs = Some res ->
  dr_epoch res.1 = cfg_epoch cfg /\ dr_vm_tag res.1 = cfg_vm_tag cfg.
Proof.
  intros Hs%mapR_Ok Ho%mapR_Ok Hl. apply last_Some in Hl as [l ->].
  apply Forall2_app_inv_r in Ho as (ss & s1 & _ & Hlast & ->). inversion Hlast as [|s ? ? ? Hf Hn]; subst.
  inversion Hn; subst. apply Forall2_app_inv_r in Hs as (? & ? & _ & Hs & ->).
  inversion Hs as [|? ? ? ? Hc _]; subst. apply session_config in Hc. apply finalize_config in Hf.
  by rewrite Hc in Hf.
Qed.

Lemma run_dkg_ok vm policy cm sp bp cm' : cm_ok vm policy cm -> 1 <= em_current_epoch (cm_epochs cm) ->
  run_dkg_ceremony GP HP cm sp bp = Ok cm' -> cm_ok vm policy cm'.
Proof.
  intros Hok Hpos. unfold run_dkg_ceremony. destruct (current_roster (cm_epochs cm)) as [ro|]; [|by intros [= <-]].
  destruct (_ <? _); [by intros [= <-]|].
  destruct (mapR _ (map writer_fp (active_members ro))) as [sessions|e] eqn:Es; [|done]. cbn [mbind result_bind].
  destruct (mapR _ sessions) as [outs|e] eqn:Eo; cbn [mbind result_bind];
    [|destruct (caught e); [by intros [= <-]|done]].
  destruct (last outs) as [res|] eqn:El; cbn [or_raise mbind result_bind]; [|by intros [= <-]].
  pose proof (ceremony_results _ _ _ _ _ _ _ Es Eo El) as [E1 E2]. cbn [cfg_epoch cfg_vm_tag] in E1, E2.
  unfold kr_store. rewrite E1. destruct Hok as [H1 H2 H3 H4 H5 H6].
  destruct (kr_epochs (cm_dkg cm) !! _) eqn:Ee; [by intros [= <-]; constructor|].
  rewrite E2, H1, H4, Z.eqb_refl. intros [= <-]. constructor; try done; cbn [cm_signing_keys cm_dkg kr_epochs].
  - intros e. rewrite !lookup_insert_is_Some, H5. done.
  - intros e [Hc|[_ He]]%lookup_insert_is_Some; [cbn; lia|by apply H6].
Qed.

Lemma cm_ok_epochs vm policy cm em : cm_ok vm policy cm -> em_ok policy em ->
  em_current_epoch (cm_epochs cm) <= em_current_epoch em -> cm_ok vm policy (with_epochs cm em).
Proof. intros [H1 H2 H3 H4 H5 H6] Hem Hle. constructor; try done. intros e He%H6. cbn. lia. Qed.

Lemma cm_step_ok vm policy cm cm' : cm_ok vm policy cm -> cm_step cm cm' -> cm_ok vm policy cm'.
Proof.
  intros Hok Hs. pose proof Hok as [H1 H2 H3 H4 H5 H6].
  destruct Hs as [cands sp bp round ts adv cm' Hd Ht|fp st|cands ts Hd|cands ts Hd].
  - unfold tick in Ht. rewrite H2 in Ht.
    destruct (check_advance policy cands (cm_epochs cm) round ts) as [b em] eqn:Ec.
    destruct (check_advance_ok _ _ _ _ _ _ _ Hd H3 Ec) as (Hem & Hle & Hb).
    pose proof (cm_ok_epochs _ _ _ _ Hok Hem Hle) as Hok'.
    destruct b, (0 <? dkg_threshold (cm_policy (with_epochs cm em))); cbn [andb] in Ht; try by injection Ht as _ <-.
    destruct (run_dkg_ceremony GP HP (with_epochs cm em) sp bp) as [cm1|] eqn:Er; [|done]. injection Ht as _ <-.
    eapply run_dkg_ok; [exact Hok'| |exact Er]. cbn. rewrite Hb, (eo_epoch _ _ H3) by done. lia.
  - by apply on_writer_ok.
  - rewrite H2. apply cm_ok_epochs; [done|by apply em_advance_ok|cbn; lia].
  - rewrite H2. apply cm_ok_epochs; [done|by apply em_advance_ok|cbn; lia].
Qed.

Lemma cm_reachable_ok vm policy cm : cm_reachable vm policy cm -> cm_ok vm policy cm.
Proof.
  induction 1 as [|cm cm' _ IH Hs]; [|by eapply cm_step_ok].
  constructor; try done.
  - intros e. cbn. rewrite !lookup_empty. split; intros [? ?]; done.
  - intros e. cbn. rewrite lookup_empty. intros [? ?]; done.
Qed.

(** C28: The committee over its whole life.  Whatever rounds pass, whichever
    writers change state and whenever an administrator or an emergency forces
    an epoch, the history lists the epochs 1, 2, ... in order, each with its own
    roster; every roster, past or current, is free of repetitions and within
    its cap; the current roster is the one of the last epoch; and signing keys
    exist exactly for the epochs whose group key is registered, all of them
    past or current. *)
Theorem committee_invariant vm policy cm : cm_reachable vm policy cm ->
  em_current_epoch (cm_epochs cm) = Z.of_nat (length (cm_history cm)) /\
  (forall i r o, cm_history cm !! i = Some (r, o) ->
    er_epoch r = Z.of_nat i + 1 /\ er_previous_epoch r = Z.of_nat i /\
    exists ro, o = Some ro /\ r_epoch ro = er_epoch r /\ roster_ok policy ro) /\
  current_roster (cm_epochs cm) = (last (cm_history cm) ≫= snd) /\
  (forall e, is_Some (cm_signing_keys cm !! e) <-> kr_has_epoch (cm_dkg cm) e = true) /\
  (forall e, kr_has_epoch (cm_dkg cm) e = true -> 1 <= e <= em_current_epoch (cm_epochs cm)).
Proof.
  intros [H1 H2 [E1 E2 E3 E4 E5] H4 H5 H6]%cm_reachable_ok. unfold cm_history, kr_has_epoch.
  assert (forall i r o, cm_history cm !! i = Some (r, o) -> record_ok (em_rosters (cm_epochs cm)) i r /\
    o = em_rosters (cm_epochs cm) !! i) as Hrec.
  { intros i r o Hi. unfold cm_history in Hi. apply list_lookup_fmap_Some in Hi as (r' & [= -> ->] & Hr).
    destruct (E4 i r' Hr) as (A1 & A2 & A3 & A4). by rewrite A3. }
  split_and!.
  - by rewrite length_map.
  - intros i r o Hi. destruct (Hrec i r o Hi) as [(A1 & A2 & A3 & ro & A4 & A5) ->].
    split_and!; [done|done|]. exists ro. rewrite A1. split_and!; [done|done|]. rewrite Forall_lookup in E5. by eapply E5.
  - unfold current_roster. rewrite E3. rewrite last_lookup, length_map.
    destruct (length (em_history (cm_epochs cm))) as [|i] eqn:El.
    { cbn. apply nil_length_inv in El. by rewrite El. }
    destruct (lookup_lt_is_Some_2 (em_history (cm_epochs cm)) i) as [r Hr]; [lia|].
    cbn [pred]. rewrite list_lookup_fmap, Hr. cbn. destruct (E4 i r Hr) as (_ & _ & -> & _). done.
  - intros e. by rewrite bool_decide_eq_true.
  - intros e. rewrite bool_decide_eq_true. apply H6.
Qed.

Lemma build_epoch policy candidates epoch round ts : r_epoch (build_roster policy candidates epoch round ts) = epoch.
Proof. unfold build_roster. by destruct (split_candidates _ _), (0 <? _). Qed.

Lemma check_advance_true policy candidates em round ts : (check_advance policy candidates em round ts).1 = true ->
  exists trigger, check_advance policy candidates em round ts = (true, em_advance policy candidates em round ts trigger).
Proof. unfold check_advance. destruct (epoch_strategy policy); repeat case_match; try done; eauto. Qed.

Lemma sign_with_keys cm keys message domain signature :
  cm_signing_keys cm !! em_current_epoch (cm_epochs cm) = Some keys -> keys <> [] ->
  combine_partial_signatures (G2 := G2)
    (map (fun k => partial_sign hash_to_G2 k message domain) (take (Z.to_nat (dkg_threshold (cm_policy cm))) keys))
    (dkg_threshold (cm_policy cm)) = Ok signature ->
  sign_as_committee hash_to_G2 cm message domain = Ok (Some signature).
Proof. intros Hk Hne Hc. unfold sign_as_committee. rewrite Hk. destruct keys; [done|]. by rewrite Hc. Qed.

(** The configuration of the ceremony of a new epoch. *)
Definition epoch_config (vm : Z) (policy : CommitteePolicy) (epoch : Z) (members : list bytes) : DKGSessionConfig :=
  {| cfg_vm_tag := vm; cfg_epoch := epoch; cfg_threshold := dkg_threshold policy; cfg_participants := members;
     cfg_timeout_rounds := dkg_timeout_rounds policy; cfg_start_round := 0 |}.

(** A manager whose current epoch has the keys of an honest ceremony. *)
Record keyed (vm : Z) (policy : CommitteePolicy) (sp : bytes -> list Z) (ro : CommitteeRoster) (epoch : Z)
    (cm : CommitteeManager) : Prop := {
  ky_epoch : em_current_epoch (cm_epochs cm) = epoch;
  ky_policy : cm_policy cm = policy;
  ky_roster : current_roster (cm_epochs cm) = Some ro;
  ky_keys : cm_signing_keys cm !! epoch =
    Some (map (key_of GP (epoch_config vm policy epoch (fps (active_members ro))) sp) (fps (active_members ro)));
  ky_group : kr_group_pk (cm_dkg cm) epoch =
    Ok (g_serialize (g_scalar_mul GP (group_secret (epoch_config vm policy epoch (fps (active_members ro))) sp)))
}.

Section NewEpoch.
Context (vm : Z) (policy : CommitteePolicy) (cm : CommitteeManager) (candidates : list WriterRecord).
Context (sp bp : bytes -> list Z) (round ts : Z).
Let epoch := em_current_epoch (cm_epochs cm) + 1.
Let ro := build_roster policy candidates epoch round ts.
Let members := fps (active_members ro).
Let cfg := epoch_config vm policy epoch members.
Context (Hreach : cm_reachable vm policy cm) (Hd : distinct candidates).
Context (Hadv : (check_advance policy candidates (cm_epochs cm) round ts).1 = true).
Context (Ht : 1 <= dkg_threshold policy <= Z.of_nat (length members)).
Context (Hdeg : forall d, d ∈ members -> length (sp d) = Z.to_nat (dkg_threshold policy) /\
                                         length (bp d) = Z.to_nat (dkg_threshold policy)).

Lemma members_nodup : NoDup members.
Proof.
  destruct (build_roster_ok policy candidates epoch round ts Hd) as [Hn _]. unfold fps in Hn. rewrite map_app in Hn.
  by apply NoDup_app in Hn as [? _].
Qed.

Lemma ceremony_keys : mapR (fun s => (finalize GP HP s).1) (map (collected GP HP cfg sp bp) members) =
  Ok (map (fun my => (result_of GP cfg sp my, key_of GP cfg sp my)) members).
Proof.
  apply mapR_Ok, Forall2_fmap, Forall_Forall2_diag, Forall_forall. intros my Hmy.
  by apply finalize_ok; [apply members_nodup|..].
Qed.

Lemma tick_keyed : exists cm', tick GP HP cm candidates sp bp round ts = Ok (true, cm') /\ keyed vm policy sp ro epoch cm'.
Proof.
  destruct (cm_reachable_ok _ _ _ Hreach) as [H1 H2 H3 H4 H5 H6].
  unfold tick. rewrite H2. destruct (check_advance_true _ _ _ _ _ Hadv) as [trigger ->].
  set (em := em_advance policy candidates (cm_epochs cm) round ts trigger).
  cbn [with_epochs cm_policy]. rewrite H2, (proj2 (Z.ltb_lt 0 _)) by lia. cbn [andb].
  set (cm1 := with_epochs cm em).
  assert (current_roster (cm_epochs cm1) = Some ro) as Hro.
  { unfold current_roster. cbn. by rewrite lookup_app_r, Nat.sub_diag. }
  unfold run_dkg_ceremony. rewrite Hro. fold (fps (active_members ro)). fold members.
  replace (cm_policy cm1) with policy by done. rewrite (proj2 (Z.ltb_ge _ _)) by lia.
  replace (em_current_epoch (cm_epochs cm1)) with epoch by done. replace (cm_vm_tag cm1) with vm by done.
  fold (epoch_config vm policy epoch members). fold cfg.
  rewrite (mapR_pure _ (collected GP HP cfg sp bp)) by (intros my Hmy; apply collect_ok; [apply members_nodup|done..]).
  cbn [mbind result_bind]. rewrite ceremony_keys. cbn [mbind result_bind].
  assert (exists my, last members = Some my) as [my Hmy].
  { apply last_is_Some. intros E. rewrite E in Ht. cbn in Ht. lia. }
  change (map (fun my => ?f my) members) with (f <$> members).
  rewrite fmap_last, Hmy. cbn [fmap option_fmap option_map or_raise mbind result_bind fst].
  assert (kr_epochs (cm_dkg cm1) !! epoch = None) as Hfresh.
  { apply eq_None_not_Some. intros He%H6. unfold epoch in He. lia. }
  unfold kr_store. cbn [result_of dr_epoch dr_vm_tag cfg epoch_config cfg_epoch cfg_vm_tag]. rewrite Hfresh.
  replace (kr_vm_tag (cm_dkg cm1)) with vm by done.
  rewrite Z.eqb_refl. cbn [negb mbind result_bind]. rewrite <- list_fmap_compose.
  eexists. split; [reflexivity|]. constructor; try done; cbn [cm_signing_keys cm_dkg].
  - by rewrite lookup_insert_eq.
  - unfold kr_group_pk, kr_get. cbn [kr_epochs]. by rewrite lookup_insert_eq.
Qed.
End NewEpoch.

(** The holder of keys of an honest ceremony signs, and verifies what it signed. *)
Lemma keyed_signs lib vm policy (sp bp : bytes -> list Z) ro epoch cm message domain :
  let members := fps (active_members ro) in
  keyed vm policy sp ro epoch cm -> NoDup members ->
  1 <= dkg_threshold policy <= Z.of_nat (length members) -> Z.of_nat (length members) < R ->
  (forall d, d ∈ members -> length (sp d) = Z.to_nat (dkg_threshold policy) /\
                            length (bp d) = Z.to_nat (dkg_threshold policy)) ->
  bls = Some lib -> bls_standard GP hash_to_G2 g1_compress lib ->
  exists signature, sign_as_committee hash_to_G2 cm message domain = Ok (Some signature) /\
    verify_committee_signature g1_compress bls cm message signature domain None =
      Ok (negb (group_secret (epoch_config vm policy epoch members) sp =? 0)).
Proof.
  intros members [K1 K2 K3 K4 K5] Hnd Ht HR Hdeg -> Hbls. fold members in K4, K5. eexists. split.
  - eapply (sign_with_keys _ (map (key_of GP (epoch_config vm policy epoch members) sp) members)).
    + by rewrite K1.
    + intros E%map_eq_nil. rewrite E in Ht. cbn in Ht. lia.
    + rewrite K2, firstn_map, map_map.
      apply (combine_ok GP _ sp bp); try done; try (rewrite length_take; cbn [epoch_config cfg_threshold]; lia).
      * by apply NoDup_take_prefix.
      * intros d Hdd. by apply (subseteq_take (Z.to_nat (dkg_threshold policy)) members).
  - unfold verify_committee_signature. cbn [default]. rewrite K1. unfold kr_group_pk, kr_get in K5.
    destruct (kr_epochs (cm_dkg cm) !! epoch) as [res|] eqn:Ek; [|done]. cbn in K5. apply Ok_inj in K5.
    unfold kr_has_epoch, kr_group_pk, kr_get. rewrite Ek, bool_decide_true by done. cbn [negb or_raise mbind result_bind].
    rewrite K5. by apply (threshold_verify_signed GP), group_secret_range.
Qed.


(** A forced epoch has no key and no length.  [admin_advance] forms a new
    committee but runs no key ceremony, so the committee cannot sign and no
    signature of it verifies; and as it restarts the round counter at 0, the
    next tick at any round past the epoch length ends that epoch at once. *)
Theorem forced_epoch_keyless vm policy cm candidates ts message signature domain :
  cm_reachable vm policy cm ->
  let cm' := with_epochs cm (admin_advance policy candidates (cm_epochs cm) ts) in
  sign_as_committee hash_to_G2 cm' message domain = Ok None /\
  verify_committee_signature g1_compress bls cm' message signature domain None = Ok false /\
  (epoch_strategy policy = ROUND_COUNT -> forall candidates' round ts', epoch_length policy <= round ->
    (check_advance policy candidates' (cm_epochs cm') round ts').1 = true).
Proof.
  intros [H1 H2 H3 H4 H5 H6]%cm_reachable_ok cm'.
  assert (kr_epochs (cm_dkg cm) !! (em_current_epoch (cm_epochs cm) + 1) = None) as Hk
    by (apply eq_None_not_Some; intros He%H6; lia).
  split_and!.
  - unfold sign_as_committee. cbn. destruct (cm_signing_keys cm !! _) eqn:E; [|done].
    assert (is_Some (kr_epochs (cm_dkg cm) !! (em_current_epoch (cm_epochs cm) + 1))) as [? ?] by (apply H5; eauto).
    congruence.
  - unfold verify_committee_signature, kr_has_epoch. cbn. rewrite Hk. done.
  - intros Es cs round ts' Hr. unfold check_advance. rewrite Es. cbn.
    rewrite (proj2 (Z.ltb_ge _ _)) by lia. done.
Qed.
End ManagerTheorems.

(** A revoked standby member is promoted.  State changes are looked up
    among the active members only, so revoking a standby writer changes
    nothing; when an active member is suspended afterwards under immediate
    backfill, the revoked writer joins the committee. *)
Theorem revoked_standby_promoted policy eh ro m sb i :
  roster_ok policy ro -> active_members ro !! i = Some m -> standby_next policy ro = Some sb ->
  operational_eviction policy = IMMEDIATE_BACKFILL ->
  handle_state_change policy eh ro (writer_fp sb) REVOKED 0 = (None, eh, ro) /\
  writer_fp sb ∈ fps (active_members (handle_state_change policy eh ro (writer_fp m) SUSPENDED 0).2).
Proof.
  intros Hok Hi Hn Hm. split.
  - unfold handle_state_change. cbn [STATE_TO_REASON].
    rewrite (proj2 (list_find_None _ _)); [done|]. apply Forall_forall. intros a Ha E.
    destruct Hok as [Hnd _]. unfold fps in Hnd. rewrite map_app in Hnd. apply NoDup_app in Hnd as (_ & Hno & _).
    apply (Hno (writer_fp a)); [apply elem_of_map; eauto|]. rewrite E. apply elem_of_map. exists sb. split; [done|]. by eapply standby_next_elem.
  - unfold handle_state_change. cbn [STATE_TO_REASON].
    destruct (list_find _ _) as [[j m']|] eqn:Ef.
    2: { apply list_find_None in Ef. rewrite Forall_forall in Ef. by destruct (Ef m); [eapply list_elem_of_lookup_2|]. }
    unfold eviction_mode. rewrite bool_decide_false by done. rewrite Hm. unfold backfill.
    change (standby_next policy (set_members ro _ _)) with (standby_next policy ro). rewrite Hn. cbn -[fps].
    unfold fps. rewrite map_app. apply elem_of_app. right. by left.
Qed.

(** * Concrete committees *)
Module Quartet.
Definition writer (name : bytes) (t : IdentityTier) : WriterRecord :=
  {| identity := {| tier := t; fingerprint := name; mldsa_vk := None; bls_pk := Some name |}; state := ACTIVE;
     approval_path := ADMIN; enrolled_at := 0; approved_at := None; approved_by := None; sponsors := [];
     probation_until := None; expires_at := None; suspension_reason := None; transition_log := [] |}.
Definition writers : list WriterRecord :=
  [writer (lit "ann") BLS; writer (lit "ben") COMPOSITE; writer (lit "cat") MLDSA; writer (lit "dan") BLS].
(** Three seats, one standby, a threshold of two. *)
Definition policy : CommitteePolicy :=
  {| cp_vm_tag := 1; epoch_strategy := ROUND_COUNT; epoch_length := 10; epoch_duration_ms := 0;
     max_committee_size := 3; min_committee_size := 2; floor_mode := HARD; standby_strategy := PRIORITY_QUEUE;
     max_standby_size := 0; admin_standby_list := []; required_tiers := None; min_epochs_active := 0;
     require_bls_key := false; security_eviction := IMMEDIATE_BACKFILL; operational_eviction := IMMEDIATE_BACKFILL;
     require_committee_for_dispatch := false; force_include := ∅; force_exclude := ∅;
     dkg_threshold := 2; dkg_timeout_rounds := 10; dkg_eager_start_rounds := 0 |}.
Definition roster : CommitteeRoster := build_roster policy writers 1 10 0.
Lemma writers_distinct : distinct writers.
Proof. apply (bool_decide_eq_true_1 (NoDup (map (fun r => fingerprint (identity r)) writers))). vm_compute. reflexivity. Qed.
Lemma roster_good : roster_ok policy roster.
Proof. apply build_roster_ok, writers_distinct. Qed.
End Quartet.

Lemma formation_exact_witness :
  length (active_members Quartet.roster) = 3%nat /\ fps (standby_members Quartet.roster) = [lit "cat"] /\
  NoDup (fps (active_members Quartet.roster ++ standby_members Quartet.roster)).
Proof.
  split; [vm_compute; reflexivity|]. split; [vm_compute; reflexivity|].
  exact (proj1 (formation_exact Quartet.policy Quartet.writers 1 10 0 Quartet.writers_distinct)).
Defined.

Lemma eviction_exact_witness :
  exists ev eh ro, handle_state_change Quartet.policy new_handler Quartet.roster (lit "ben") REVOKED 5 = (Some ev, eh, ro) /\
    backfill_fp ev = Some (lit "cat") /\ lit "ben" ∉ fps (active_members ro).
Proof.
  destruct (eviction_exact Quartet.policy new_handler Quartet.roster (lit "ben") REVOKED 5 ReasonRevoked)
    as (ev & eh & ro & H1 & H2 & _ & H3 & _).
  - exact Quartet.roster_good.
  - reflexivity.
  - apply (bool_decide_eq_true_1 (lit "ben" ∈ fps (active_members Quartet.roster))). vm_compute. reflexivity.
  - discriminate.
  - exists ev, eh, ro. split; [exact H1|]. split; [rewrite H2; vm_compute; reflexivity|].
    intros Hin. apply H3 in Hin as [[_ Hne]|Hr]; [by apply Hne|]. vm_compute in Hr. discriminate.
Defined.

Lemma revoked_standby_promoted_witness :
  lit "cat" ∈ fps (active_members
    (handle_state_change Quartet.policy new_handler Quartet.roster (lit "ben") SUSPENDED 0).2).
Proof.
  set (at_ := fun (l : list CommitteeMember) (i : nat) => default (to_member (Quartet.writer (lit "ann") BLS) 0) (l !! i)).
  refine (proj2 (revoked_standby_promoted Quartet.policy new_handler Quartet.roster
    (at_ (active_members Quartet.roster) 0%nat) (at_ (standby_members Quartet.roster) 0%nat) 0 Quartet.roster_good _ _ _)).
  - vm_compute. reflexivity.
  - vm_compute. reflexivity.
  - reflexivity.
Defined.


Lemma committee_invariant_witness :
  cm_reachable (Zmod.one (m := R)) (fr 3) 1 Quartet.policy
    (with_epochs (new_manager 1 Quartet.policy)
      (admin_advance Quartet.policy Quartet.writers (cm_epochs (new_manager 1 Quartet.policy)) 0)) /\
  forall e, kr_has_epoch (cm_dkg (new_manager 1 Quartet.policy)) e = true -> 1 <= e <= 1.
Proof.
  assert (cm_reachable (Zmod.one (m := R)) (fr 3) 1 Quartet.policy
    (with_epochs (new_manager 1 Quartet.policy)
      (admin_advance Quartet.policy Quartet.writers (cm_epochs (new_manager 1 Quartet.policy)) 0))) as Hr.
  { eapply cm_next; [apply cm_init|]. apply (step_admin _ _ (new_manager 1 Quartet.policy)), Quartet.writers_distinct. }
  split; [exact Hr|]. apply (committee_invariant _ _ _ _ _ Hr).
Defined.

Lemma forced_epoch_keyless_witness :
  (check_advance Quartet.policy Quartet.writers
    (admin_advance Quartet.policy Quartet.writers (new_epoch_manager 1) 0) 25 0).1 = true.
Proof.
  apply (forced_epoch_keyless (G2 := Fr) (Zmod.one (m := R)) (fr 3) Trio.hash_to_G2 Trio.compress (Some Trio.lib)
    1 Quartet.policy (new_manager 1 Quartet.policy) Quartet.writers 0 [] [] []).
  - apply cm_init.
  - reflexivity.
  - vm_compute. discriminate.
Defined.
