(* ===== verification/Adapter.v ===== *)
(** The consensus adapter, src/src/ltp/consensus/: validator sets
    (validator_set.py), committee synchronisation (committee_sync.py), events
    (events.py), certificate signing (bls_certificates.py), the backend over
    the local engine (backend.py) and [DagBftAdapter] (adapter.py), which puts
    the committee, its threshold keys and the engine together.

    The committee manager is a separate object the adapter only reads:
    operations take it as an argument.  The adapter and its [CommitteeSync]
    always refer to the same [ValidatorSet] object ([start] and
    [_handle_epoch_transition] are the only assignments), which is kept once,
    in the sync.  No listener is registered in the sources; the events a
    listener would see are the ones returned. *)

From Stdlib Require Import Zmod.
From S2P Require Import Prelude Sha3 Hashing Encoding Bls ScalarField Shamir Dkg Writer Committee Router Dag DagBft Engine.

(** * validator_set.py *)
Record ValidatorInfo : Type := {
  vi_writer_fp : bytes;
  vi_bls_pk : bytes;
  validator_index : Z
}.

Record ValidatorSet : Type := {
  vs_epoch : Z;
  vs_members : list ValidatorInfo;
  vs_quorum_threshold : Z;
  vs_evicted : gset bytes;
  fp_to_index : gmap bytes Z;
  index_to_fp : gmap Z bytes;
  index_to_bls : gmap Z bytes
}.

(** [{k(m): v(m) for m in members}] *)
Definition dict_of {K V} `{Countable K} (k : ValidatorInfo -> K) (v : ValidatorInfo -> V) (ms : list ValidatorInfo) : gmap K V :=
  fold_left (fun d m => <[k m := v m]> d) ms ∅.

Definition new_validator_set (epoch : Z) (members : list ValidatorInfo) : ValidatorSet :=
  let n := Z.of_nat (length members) in
  let f := if 0 <? n then (n - 1) / 3 else 0 in
  {| vs_epoch := epoch; vs_members := members; vs_quorum_threshold := 2 * f + 1; vs_evicted := ∅;
     fp_to_index := dict_of vi_writer_fp validator_index members;
     index_to_fp := dict_of validator_index vi_writer_fp members;
     index_to_bls := dict_of validator_index vi_bls_pk members |}.

Definition from_roster (roster : CommitteeRoster) : ValidatorSet :=
  new_validator_set (r_epoch roster)
    (imap (fun i m => {| vi_writer_fp := writer_fp m; vi_bls_pk := m_bls_pk m; validator_index := Z.of_nat i |})
       (active_members roster)).

Definition vs_size (vs : ValidatorSet) : Z := Z.of_nat (length (vs_members vs)).
Definition index_for (vs : ValidatorSet) (fp : bytes) : result Z := or_raise KeyError (fp_to_index vs !! fp).
Definition fp_for (vs : ValidatorSet) (index : Z) : result bytes := or_raise KeyError (index_to_fp vs !! index).
Definition bls_pk_for (vs : ValidatorSet) (index : Z) : result bytes := or_raise KeyError (index_to_bls vs !! index).

Definition evict (vs : ValidatorSet) (fp : bytes) : result ValidatorSet :=
  match fp_to_index vs !! fp with
  | None => Err KeyError
  | Some _ => Ok {| vs_epoch := vs_epoch vs; vs_members := vs_members vs;
                    vs_quorum_threshold := vs_quorum_threshold vs; vs_evicted := {[fp]} ∪ vs_evicted vs;
                    fp_to_index := fp_to_index vs; index_to_fp := index_to_fp vs; index_to_bls := index_to_bls vs |}
  end.

Definition is_active (vs : ValidatorSet) (fp : bytes) : bool :=
  bool_decide (is_Some (fp_to_index vs !! fp)) && bool_decide (fp ∉ vs_evicted vs).
Definition is_evicted (vs : ValidatorSet) (fp : bytes) : bool := bool_decide (fp ∈ vs_evicted vs).
Definition active_count (vs : ValidatorSet) : Z := vs_size vs - Z.of_nat (size (vs_evicted vs)).
Definition evicted_indices (vs : ValidatorSet) : result (gset Z) :=
  indices ← mapR (fun fp => or_raise KeyError (fp_to_index vs !! fp)) (elements (vs_evicted vs)); Ok (list_to_set indices).

(** * events.py, with the payloads that are emitted *)
Inductive EventPayload : Type :=
| EPOCH_TRANSITION (old_epoch new_epoch validator_count : Z) (dkg_completed : bool)
| VALIDATOR_EVICTED (fp : bytes) (index : Z) (reason : pystr) (remaining_active : Z)
| COMMIT_ATTESTED (round : Z) (batch_digest signature : bytes)
| ENGINE_REBUILT (epoch validator_count quorum_threshold : Z)
| BATCH_EXECUTED (round epoch tx_count success_count failure_count : Z) (state_root : option bytes)
| STATE_ROOT_ATTESTED (round epoch : Z) (state_root : option bytes) (mode : pystr) (bls_signed : bool).

Record ConsensusEvent : Type := {
  ce_epoch : Z;
  ce_round : Z;
  ce_timestamp_ms : Z;
  payload : EventPayload
}.

(** * committee_sync.py *)
Record CommitteeSync : Type := {
  cs_current_epoch : Z;
  cs_validator_set : option ValidatorSet;
  known_evicted : gset bytes
}.

Definition new_sync (cm : CommitteeManager) : CommitteeSync :=
  {| cs_current_epoch := em_current_epoch (cm_epochs cm); cs_validator_set := None; known_evicted := ∅ |}.

Definition set_validator_set (cs : CommitteeSync) (vs : ValidatorSet) : CommitteeSync :=
  {| cs_current_epoch := cs_current_epoch cs; cs_validator_set := Some vs; known_evicted := ∅ |}.

Definition has_signing_keys (cm : CommitteeManager) (epoch : Z) : bool := kr_has_epoch (cm_dkg cm) epoch.
Definition get_signing_keys (cm : CommitteeManager) (epoch : Z) : list ThresholdSigningKey :=
  default [] (cm_signing_keys cm !! epoch).

Definition sync_epoch (cm : CommitteeManager) (cs : CommitteeSync) (round timestamp_ms : Z) :
  option ConsensusEvent * CommitteeSync :=
  let new_epoch := em_current_epoch (cm_epochs cm) in
  if new_epoch <=? cs_current_epoch cs then (None, cs)
  else
    let old_epoch := cs_current_epoch cs in
    let cs :=
      match current_roster (cm_epochs cm) with
      | Some roster => {| cs_current_epoch := new_epoch; cs_validator_set := Some (from_roster roster); known_evicted := ∅ |}
      | None => {| cs_current_epoch := new_epoch; cs_validator_set := cs_validator_set cs; known_evicted := known_evicted cs |}
      end in
    let validator_count := from_option vs_size 0 (cs_validator_set cs) in
    (Some {| ce_epoch := new_epoch; ce_round := round; ce_timestamp_ms := timestamp_ms;
             payload := EPOCH_TRANSITION old_epoch new_epoch validator_count (has_signing_keys cm new_epoch) |}, cs).

(** One member of the loop of [sync_evictions]. *)
Definition sync_one (active_fps : gset bytes) (epoch round timestamp_ms : Z)
    (st : ValidatorSet * gset bytes * list ConsensusEvent) (member : ValidatorInfo) :
  result (ValidatorSet * gset bytes * list ConsensusEvent) :=
  let '(vs, known, events) := st in
  let fp := vi_writer_fp member in
  if bool_decide (fp ∈ known) then Ok st
  else if bool_decide (fp ∉ active_fps) && negb (is_evicted vs fp) then
    vs ← evict vs fp;
    Ok (vs, {[fp]} ∪ known,
        events ++ [{| ce_epoch := epoch; ce_round := round; ce_timestamp_ms := timestamp_ms;
                      payload := VALIDATOR_EVICTED fp (validator_index member) (lit "evicted_from_roster") (active_count vs) |}])
  else Ok st.

Definition sync_evictions (cm : CommitteeManager) (cs : CommitteeSync) (vs : ValidatorSet) (round timestamp_ms : Z) :
  result (list ConsensusEvent * CommitteeSync) :=
  match current_roster (cm_epochs cm) with
  | None => Ok ([], cs)
  | Some roster =>
      let active_fps := list_to_set (map writer_fp (active_members roster)) in
      '(vs, known, events) ← foldM (sync_one active_fps (cs_current_epoch cs) round timestamp_ms)
        (vs, known_evicted cs, []) (vs_members vs);
      Ok (events, {| cs_current_epoch := cs_current_epoch cs; cs_validator_set := Some vs; known_evicted := known |})
  end.

Definition on_tick (cm : CommitteeManager) (cs : CommitteeSync) (round timestamp_ms : Z) :
  result (list ConsensusEvent * CommitteeSync) :=
  let '(epoch_event, cs) := sync_epoch cm cs round timestamp_ms in
  match cs_validator_set cs with
  | None => Ok (option_list epoch_event, cs)
  | Some vs =>
      '(eviction_events, cs) ← sync_evictions cm cs vs round timestamp_ms;
      Ok (option_list epoch_event ++ eviction_events, cs)
  end.

(** * adapter.py *)
Definition DOMAIN_CONSENSUS_ACK : bytes := lit "ETP-CONSENSUS-ACK:v1".

(** [xs[i]]: a negative index counts from the end. *)
Definition py_get {A} (xs : list A) (i : Z) : result A :=
  let i := if i <? 0 then i + Z.of_nat (length xs) else i in
  if i <? 0 then Err IndexError else or_raise IndexError (xs !! Z.to_nat i).

Record DagBftAdapter : Type := {
  a_sync : CommitteeSync;
  a_group_pk : option bytes;
  a_backend : option LocalDagBftEngine;
  a_signing_keys : option (list ThresholdSigningKey);
  a_events : list ConsensusEvent;
  a_running : bool;
  a_current_epoch : Z
}.

Definition new_adapter (cm : CommitteeManager) : DagBftAdapter :=
  {| a_sync := new_sync cm; a_group_pk := None; a_backend := None; a_signing_keys := None; a_events := [];
     a_running := false; a_current_epoch := em_current_epoch (cm_epochs cm) |}.

Definition with_backend (a : DagBftAdapter) (b : option LocalDagBftEngine) : DagBftAdapter :=
  {| a_sync := a_sync a; a_group_pk := a_group_pk a; a_backend := b; a_signing_keys := a_signing_keys a;
     a_events := a_events a; a_running := a_running a; a_current_epoch := a_current_epoch a |}.
Definition with_sync (a : DagBftAdapter) (cs : CommitteeSync) : DagBftAdapter :=
  {| a_sync := cs; a_group_pk := a_group_pk a; a_backend := a_backend a; a_signing_keys := a_signing_keys a;
     a_events := a_events a; a_running := a_running a; a_current_epoch := a_current_epoch a |}.
Definition record_event (a : DagBftAdapter) (e : ConsensusEvent) : DagBftAdapter :=
  {| a_sync := a_sync a; a_group_pk := a_group_pk a; a_backend := a_backend a; a_signing_keys := a_signing_keys a;
     a_events := a_events a ++ [e]; a_running := a_running a; a_current_epoch := a_current_epoch a |}.

(** The keys of an epoch and the group key they carry; nothing changes when
    the list is empty. *)
Definition install_keys (cm : CommitteeManager) (epoch : Z) (a : DagBftAdapter) : DagBftAdapter :=
  match get_signing_keys cm epoch with
  | [] => a
  | (k :: _) as keys =>
      {| a_sync := a_sync a; a_group_pk := Some (group_pk k); a_backend := a_backend a; a_signing_keys := Some keys;
         a_events := a_events a; a_running := a_running a; a_current_epoch := a_current_epoch a |}
  end.

Definition start (cm : CommitteeManager) (a : DagBftAdapter) : result DagBftAdapter :=
  match current_roster (cm_epochs cm) with
  | None => Err RuntimeError
  | Some roster =>
      let vs := from_roster roster in
      let epoch := em_current_epoch (cm_epochs cm) in
      let a := {| a_sync := set_validator_set (a_sync a) vs; a_group_pk := a_group_pk a;
                  a_backend := Some (new_engine (vs_size vs) None); a_signing_keys := a_signing_keys a;
                  a_events := a_events a; a_running := a_running a; a_current_epoch := epoch |} in
      let a := if has_signing_keys cm epoch then install_keys cm epoch a else a in
      Ok {| a_sync := a_sync a; a_group_pk := a_group_pk a; a_backend := a_backend a; a_signing_keys := a_signing_keys a;
            a_events := a_events a; a_running := true; a_current_epoch := a_current_epoch a |}
  end.

Definition stop (a : DagBftAdapter) : DagBftAdapter :=
  {| a_sync := a_sync a; a_group_pk := a_group_pk a; a_backend := a_backend a; a_signing_keys := a_signing_keys a;
     a_events := a_events a; a_running := false; a_current_epoch := a_current_epoch a |}.

Definition adapter_current_round (a : DagBftAdapter) : Z := from_option eng_current_round (-1) (a_backend a).

Definition handle_epoch_transition (cm : CommitteeManager) (a : DagBftAdapter) (event : ConsensusEvent) (new_epoch : Z) :
  DagBftAdapter :=
  let a := {| a_sync := a_sync a; a_group_pk := a_group_pk a; a_backend := a_backend a;
              a_signing_keys := a_signing_keys a; a_events := a_events a; a_running := a_running a;
              a_current_epoch := new_epoch |} in
  match cs_validator_set (a_sync a) with
  | None => a
  | Some vs =>
      let n := vs_size vs in
      let a := with_backend a (match a_backend a with Some _ => Some (new_engine n None) | None => None end) in
      let a :=
        if has_signing_keys cm new_epoch then install_keys cm new_epoch a
        else {| a_sync := a_sync a; a_group_pk := a_group_pk a; a_backend := a_backend a; a_signing_keys := None;
                a_events := a_events a; a_running := a_running a; a_current_epoch := a_current_epoch a |} in
      record_event a {| ce_epoch := new_epoch; ce_round := ce_round event; ce_timestamp_ms := ce_timestamp_ms event;
                        payload := ENGINE_REBUILT new_epoch n (vs_quorum_threshold vs) |}
  end.

Definition crash_fault (index : Z) : FaultConfig :=
  {| fc_validator := index; fc_fault_type := CRASH; fc_start_round := 0; fc_end_round := None; fc_withhold_targets := [] |}.

Definition handle_eviction (a : DagBftAdapter) (index : Z) : DagBftAdapter :=
  match a_backend a with
  | None => a
  | Some engine => with_backend a (Some (inject_fault engine (crash_fault index)))
  end.

Definition handle_event (cm : CommitteeManager) (a : DagBftAdapter) (event : ConsensusEvent) : DagBftAdapter :=
  let a := record_event a event in
  match payload event with
  | EPOCH_TRANSITION _ new_epoch _ _ => handle_epoch_transition cm a event new_epoch
  | VALIDATOR_EVICTED _ index _ _ => handle_eviction a index
  | _ => a
  end.

(** [tick] *)
Definition adapter_tick (cm : CommitteeManager) (a : DagBftAdapter) (round timestamp_ms : Z) :
  result (list ConsensusEvent * DagBftAdapter) :=
  '(events, cs) ← on_tick cm (a_sync a) round timestamp_ms;
  Ok (events, fold_left (handle_event cm) events (with_sync a cs)).

Section Signing.
Context `{CanonicalHash}.
Context {G2 : Type} `{CurveGroup G2} (hash_to_G2 : bytes -> G2).

Definition submit_transaction (a : DagBftAdapter) (tx_bytes : bytes) : result (bytes * DagBftAdapter) :=
  if negb (a_running a) then Err RuntimeError
  else match a_backend a with
       | None => Err RuntimeError
       | Some engine => Ok (chash tx_bytes, with_backend a (Some (submit_transactions engine [tx_bytes])))
       end.

(** The bytes [_serialize_batch] feeds to the hasher. *)
Definition batch_preimage (batch : OrderedBatch) : result bytes :=
  r ← int_to_bytes 8 (Router.b_round batch);
  e ← int_to_bytes 8 (b_epoch batch);
  l ← int_to_bytes 4 (Z.of_nat (length (transactions batch)));
  ts ← mapR lp4 (transactions batch);
  Ok (r ++ e ++ l ++ concat ts).
Definition serialize_batch (batch : OrderedBatch) : result bytes :=
  x ← batch_preimage batch; Ok (chash x).

(** The partial signatures of a certificate's signers. *)
Definition ack_partials (keys : list ThresholdSigningKey) (cert : Certificate) : result (list PartialSignature) :=
  foldM (fun partials signer_idx =>
      if signer_idx <? Z.of_nat (length keys) then
        k ← py_get keys signer_idx;
        Ok (partials ++ [partial_sign hash_to_G2 k (c_digest cert) DOMAIN_CONSENSUS_ACK])
      else Ok partials) [] (sort_by Z.leb (elements (c_signers cert))).

(** [_sign_decision]; the signed certificate is built and dropped. *)
Definition sign_decision (a : DagBftAdapter) (keys : list ThresholdSigningKey) (vs : ValidatorSet)
    (decision : CommitDecision) (batch : OrderedBatch) : result DagBftAdapter :=
  let cert := leader_certificate decision in
  let threshold := vs_quorum_threshold vs in
  partials ← ack_partials keys cert;
  _ ← (if threshold <=? Z.of_nat (length partials) then
         agg_sig ← combine_partial_signatures (G2 := G2) partials threshold;
         signer_keys ← mapR (bls_pk_for vs) (List.filter (fun i => i <? vs_size vs) (elements (c_signers cert)));
         Ok tt
       else Ok tt);
  batch_bytes ← serialize_batch batch;
  let batch_partials := map (fun k => partial_sign hash_to_G2 k batch_bytes DOMAIN_ATTESTATION) (take (Z.to_nat threshold) keys) in
  if threshold <=? Z.of_nat (length batch_partials) then
    combined_sig ← combine_partial_signatures (G2 := G2) batch_partials threshold;
    Ok (record_event a {| ce_epoch := a_current_epoch a; ce_round := Router.b_round batch; ce_timestamp_ms := timestamp_ms batch;
                          payload := COMMIT_ATTESTED (Router.b_round batch) (chash batch_bytes) combined_sig |})
  else Ok a.

Definition process_decision (a : DagBftAdapter) (decision : CommitDecision) : result (OrderedBatch * DagBftAdapter) :=
  let batch := to_ordered_batch decision (a_current_epoch a) in
  match a_signing_keys a, cs_validator_set (a_sync a) with
  | Some ((_ :: _) as keys), Some vs => a ← sign_decision a keys vs decision batch; Ok (batch, a)
  | _, _ => Ok (batch, a)
  end.

Definition process_all (a : DagBftAdapter) (decisions : list CommitDecision) : result (list OrderedBatch * DagBftAdapter) :=
  foldM (fun st d => '(batch, a) ← process_decision st.2 d; Ok (st.1 ++ [batch], a)) ([], a) decisions.

Definition drive_rounds (clock : Z -> nat -> Z) (a : DagBftAdapter) (n : nat) : result (list OrderedBatch * DagBftAdapter) :=
  match a_backend a with
  | None => Err RuntimeError
  | Some engine =>
      '(decisions, engine) ← run_rounds clock engine n;
      process_all (with_backend a (Some engine)) decisions
  end.
End Signing.

(** * bls_certificates.py: verification *)
Record SignedCertificate : Type := {
  sc_certificate : Certificate;
  aggregated_signature : bytes;
  sc_signer_keys : gset bytes
}.

Section Certificates.
Context {G1 : Type} `{CurveGroup G1} (g1_compress : G1 -> bytes) (bls : option bls_library).

(** [except Exception: return False] *)
Definition or_false (r : result bool) : bool := match r with Ok b => b | Err _ => false end.

Definition verify_certificate_signature (pk : option bytes) (signed_cert : SignedCertificate) : bool :=
  match pk with
  | None => false
  | Some pk => or_false (threshold_verify g1_compress bls pk (c_digest (sc_certificate signed_cert))
                           (aggregated_signature signed_cert) DOMAIN_CONSENSUS_ACK)
  end.

Definition verify_batch_attestation (signature batch_bytes pk domain : bytes) : bool :=
  or_false (threshold_verify g1_compress bls pk batch_bytes signature domain).
End Certificates.

(** * Attestations *)
Lemma vs_size_roster ro : vs_size (from_roster ro) = Z.of_nat (length (active_members ro)).
Proof. unfold vs_size, from_roster, new_validator_set. cbn [vs_members]. by rewrite length_imap. Qed.

Lemma quorum_roster ro : active_members ro <> [] ->
  vs_quorum_threshold (from_roster ro) = 2 * ((Z.of_nat (length (active_members ro)) - 1) / 3) + 1 /\
  1 <= vs_quorum_threshold (from_roster ro) <= Z.of_nat (length (active_members ro)).
Proof.
  intros Hne. unfold from_roster, new_validator_set. cbn [vs_quorum_threshold]. rewrite length_imap.
  assert (0 < Z.of_nat (length (active_members ro))) as Hlen by (destruct (active_members ro); [done|cbn; lia]).
  rewrite (proj2 (Z.ltb_lt _ _) Hlen). split; [done|].
  pose proof (Z.div_le_mono 0 (Z.of_nat (length (active_members ro)) - 1) 3).
  pose proof (Z.mul_div_le (Z.of_nat (length (active_members ro)) - 1) 3). rewrite Z.div_0_l in H by lia. lia.
Qed.

Lemma dict_of_elem {K V} `{Countable K} (k : ValidatorInfo -> K) (v : ValidatorInfo -> V) ms m :
  m ∈ ms -> is_Some (dict_of k v ms !! k m).
Proof.
  unfold dict_of. generalize (∅ : gmap K V). revert m. induction ms as [|m' ms IH]; intros m d; [by intros ?%not_elem_of_nil|].
  intros [->|Hm]%elem_of_cons; [|by apply IH]. cbn. clear IH.
  assert (is_Some (<[k m':=v m']> d !! k m')) as Hs by (rewrite lookup_insert_eq; eauto). revert Hs.
  generalize (<[k m':=v m']> d). induction ms as [|x ms IH]; intros d' Hs; [done|]. cbn. apply IH.
  apply lookup_insert_is_Some'. by right.
Qed.

Lemma bls_pk_roster ro i : 0 <= i < vs_size (from_roster ro) -> exists pk, bls_pk_for (from_roster ro) i = Ok pk.
Proof.
  rewrite vs_size_roster. intros Hi. unfold bls_pk_for, from_roster, new_validator_set. cbn [index_to_bls].
  set (ms := imap _ (active_members ro)).
  destruct (lookup_lt_is_Some_2 (active_members ro) (Z.to_nat i)) as [m Hm]; [lia|].
  assert ({| vi_writer_fp := writer_fp m; vi_bls_pk := m_bls_pk m; validator_index := i |} ∈ ms) as Hin.
  { apply list_elem_of_lookup. exists (Z.to_nat i). unfold ms. rewrite list_lookup_imap, Hm. cbn. by rewrite Z2Nat.id by lia. }
  destruct (dict_of_elem validator_index vi_bls_pk ms _ Hin) as [pk Hpk]. cbn in Hpk. exists pk. by rewrite Hpk.
Qed.

Section Attest.
Context `{CanonicalHash}.
Context {G1 G2 : Type} `{CurveGroup G1} `{CurveGroup G2} (GP HP : G1).
Context (hash_to_G2 : bytes -> G2) (g1_compress : G1 -> bytes) (lib : bls_library).

Definition partials_of (keys : list ThresholdSigningKey) (message domain : bytes) : list PartialSignature :=
  map (fun k => partial_sign hash_to_G2 k message domain) keys.

Lemma ack_partials_ok keys cert : (forall i, i ∈ c_signers cert -> 0 <= i < Z.of_nat (length keys)) ->
  exists ks, ack_partials hash_to_G2 keys cert = Ok (partials_of ks (c_digest cert) DOMAIN_CONSENSUS_ACK).
Proof.
  intros Hs. unfold ack_partials.
  assert (forall i, i ∈ sort_by Z.leb (elements (c_signers cert)) -> 0 <= i < Z.of_nat (length keys)) as Hs'
    by (intros i Hi%elem_of_sort_by; apply Hs; by apply elem_of_elements).
  match goal with |- context [foldM ?g _ _] => set (step := g) end.
  enough (forall l ks, (forall i, i ∈ l -> 0 <= i < Z.of_nat (length keys)) -> exists ks',
    foldM step (partials_of ks (c_digest cert) DOMAIN_CONSENSUS_ACK) l = Ok (partials_of ks' (c_digest cert) DOMAIN_CONSENSUS_ACK))
    as He by (apply (He _ [] Hs')).
  induction l as [|i l IH]; intros ks Hl; cbn [foldM]; [by exists ks|]. unfold step at 1.
  destruct (Hl i) as [Hi0 Hi]; [by left|]. rewrite (proj2 (Z.ltb_lt _ _) Hi).
  destruct (lookup_lt_is_Some_2 keys (Z.to_nat i)) as [k Hk]; [lia|].
  unfold py_get. rewrite (proj2 (Z.ltb_ge i 0)) by lia. cbv zeta. rewrite (proj2 (Z.ltb_ge i 0)) by lia.
  rewrite Hk. cbn [or_raise mbind result_bind].
  specialize (IH (ks ++ [k])). unfold partials_of in IH at 1. rewrite map_app in IH. apply IH. intros j Hj. apply Hl. by right.
Qed.

(** Partial signatures of any keys combine, to a point. *)
Lemma combine_total keys t message domain : t <= Z.of_nat (length keys) ->
  exists signature, combine_partial_signatures (G2 := G2) (partials_of keys message domain) t = Ok signature.
Proof.
  intros Ht. unfold combine_partial_signatures, partials_of. rewrite length_map, (proj2 (Z.ltb_ge _ _)) by lia. cbv zeta.
  generalize (map signer_index (map (fun k => partial_sign hash_to_G2 k message domain) keys)) as indices. intros indices.
  match goal with |- context [foldM ?g _ _] => set (step := g) end.
  enough (forall p, exists q, foldM step p (map (fun k => partial_sign hash_to_G2 k message domain) keys) = Ok q) as He.
  { destruct (He g_identity) as [q ->]. eauto. }
  clear Ht. induction keys as [|k keys IH]; intros p; cbn [map foldM]; [eauto|].
  unfold step at 1. cbn [partial_sign ps_signature]. rewrite g_des_ser. apply IH.
Qed.

(** The adapter started on a committee with fresh keys. *)
Lemma start_keyed vm policy sp ro epoch cm : keyed GP vm policy sp ro epoch cm -> active_members ro <> [] ->
  let cfg := epoch_config vm policy epoch (fps (active_members ro)) in
  exists a, start cm (new_adapter cm) = Ok a /\ a_signing_keys a = Some (map (key_of GP cfg sp) (fps (active_members ro))) /\
    a_group_pk a = Some (g_serialize (g_scalar_mul GP (group_secret cfg sp))) /\
    cs_validator_set (a_sync a) = Some (from_roster ro) /\ a_current_epoch a = epoch /\ a_events a = [].
Proof.
  intros [K1 K2 K3 K4 K5] Hne cfg. unfold start. rewrite K3, K1. cbv zeta.
  assert (has_signing_keys cm epoch = true) as ->.
  { unfold has_signing_keys, kr_has_epoch. apply bool_decide_eq_true. unfold kr_group_pk, kr_get in K5.
    destruct (kr_epochs (cm_dkg cm) !! epoch); [eauto|done]. }
  unfold install_keys, get_signing_keys. rewrite K4. cbn [default from_option]. fold cfg.
  destruct (active_members ro) as [|m ms] eqn:Em; [done|]. cbn [fps map]. eexists. split; [reflexivity|]. done.
Qed.

(** What signing a decision leaves behind. *)
Definition attestation (a : DagBftAdapter) (batch : OrderedBatch) (bb signature : bytes) : ConsensusEvent :=
  {| ce_epoch := a_current_epoch a; ce_round := Router.b_round batch; ce_timestamp_ms := timestamp_ms batch;
     payload := COMMIT_ATTESTED (Router.b_round batch) (chash bb) signature |}.

Lemma sign_decision_ok keys ro a d batch bb : let q := vs_quorum_threshold (from_roster ro) in
  active_members ro <> [] -> length keys = length (active_members ro) ->
  (forall i, i ∈ c_signers (leader_certificate d) -> 0 <= i < vs_size (from_roster ro)) ->
  serialize_batch batch = Ok bb ->
  exists signature, combine_partial_signatures (G2 := G2) (partials_of (take (Z.to_nat q) keys) bb DOMAIN_ATTESTATION) q = Ok signature /\
  sign_decision hash_to_G2 a keys (from_roster ro) d batch = Ok (record_event a (attestation a batch bb signature)).
Proof.
  intros q Hne Hlen Hsig Hbb. destruct (quorum_roster ro Hne) as [_ Hq]. fold q in Hq.
  assert (q <= Z.of_nat (length (take (Z.to_nat q) keys))) as Hq' by (rewrite length_take; lia).
  destruct (combine_total _ _ bb DOMAIN_ATTESTATION Hq') as [signature Hsg]. exists signature. split; [done|].
  unfold sign_decision. fold q.
  destruct (ack_partials_ok keys (leader_certificate d)) as [ks ->]; [by rewrite Hlen, <- vs_size_roster|].
  cbn [mbind result_bind]. unfold partials_of at 1. rewrite length_map.
  match goal with |- context [if q <=? Z.of_nat (length ks) then ?x else ?y] =>
    assert (exists u, (if q <=? Z.of_nat (length ks) then x else y) = Ok u) as [u ->] end.
  { destruct (_ <=? _) eqn:Ele; [|eauto]. apply Z.leb_le in Ele.
    destruct (combine_total ks _ (c_digest (leader_certificate d)) DOMAIN_CONSENSUS_ACK Ele) as [sg ->].
    cbn [mbind result_bind]. eexists.
    rewrite (mapR_pure _ (fun i => match bls_pk_for (from_roster ro) i with Ok pk => pk | Err _ => [] end)); [done|].
    intros i Hi. apply list_elem_of_In, filter_In in Hi as [Hi _]. apply list_elem_of_In, elem_of_elements, Hsig in Hi.
    by destruct (bls_pk_roster ro i Hi) as [pk ->]. }
  cbn [mbind result_bind]. rewrite Hbb. cbn [mbind result_bind]. rewrite length_map.
  fold (partials_of (take (Z.to_nat q) keys) bb DOMAIN_ATTESTATION). by rewrite (proj2 (Z.leb_le _ _) Hq'), Hsg.
Qed.

Lemma process_signed a d keys vs a' : keys <> [] -> a_signing_keys a = Some keys -> cs_validator_set (a_sync a) = Some vs ->
  sign_decision hash_to_G2 a keys vs d (to_ordered_batch d (a_current_epoch a)) = Ok a' ->
  process_decision hash_to_G2 a d = Ok (to_ordered_batch d (a_current_epoch a), a').
Proof.
  intros Hne A1 A2 Hs. unfold process_decision. rewrite A1, A2. destruct keys as [|k ks]; [done|by rewrite Hs].
Qed.

Lemma lagrange_single i : lagrange_coefficient i [i] = 1.
Proof.
  unfold lagrange_coefficient. cbn [fold_left]. rewrite Z.eqb_refl. unfold sf_mul. rewrite Z.mul_1_l.
  assert (2 < R) by (vm_compute; reflexivity). unfold sf_inv. rewrite py_pow_spec, Z.pow_1_l by lia. rewrite !(Z.mod_small 1 R) by lia. done.
Qed.

Lemma combine_single k ks message domain :
  combine_partial_signatures (G2 := G2) (partials_of (take (Z.to_nat 1) (k :: ks)) message domain) 1 =
  Ok (ps_signature (partial_sign hash_to_G2 k message domain)).
Proof.
  unfold combine_partial_signatures, partials_of. change (Z.to_nat 1) with 1%nat. cbn [take firstn map length foldM].
  change (Z.of_nat 1 <? 1) with false. cbv iota zeta. rewrite lagrange_single. cbn [partial_sign ps_signature].
  rewrite g_des_ser. cbn [mbind result_bind]. by rewrite g_add_id, g_mul_1.
Qed.


(** Small committees attest with one key.  Attestations combine as many
    partial signatures as the consensus quorum, whatever the threshold of the
    keys: with up to three validators the quorum is one, and the attestation
    is the partial signature of the first member alone. *)
Theorem single_signer_attests ro a k ks d :
  let batch := to_ordered_batch d (a_current_epoch a) in
  (length (active_members ro) <= 3)%nat -> length (k :: ks) = length (active_members ro) ->
  a_signing_keys a = Some (k :: ks) -> cs_validator_set (a_sync a) = Some (from_roster ro) ->
  (forall i, i ∈ c_signers (leader_certificate d) -> 0 <= i < vs_size (from_roster ro)) ->
  forall bb, serialize_batch batch = Ok bb ->
  process_decision hash_to_G2 a d =
    Ok (batch, record_event a (attestation a batch bb (ps_signature (partial_sign hash_to_G2 k bb DOMAIN_ATTESTATION)))).
Proof.
  intros batch H3 Hlen A1 A2 Hsig bb Hbb.
  assert (active_members ro <> []) as Hne by (by destruct (active_members ro)).
  destruct (sign_decision_ok (k :: ks) ro a d batch bb Hne Hlen Hsig Hbb) as (signature & Hsg & Hsign).
  rewrite (process_signed a d (k :: ks) _ _ ltac:(done) A1 A2 Hsign). do 2 f_equal. apply f_equal. f_equal.
  destruct (quorum_roster ro Hne) as [Eq _].
  assert (vs_quorum_threshold (from_roster ro) = 1) as E1.
  { rewrite Eq, Z.div_small; [done|]. rewrite <- Hlen in *. cbn [length] in *. lia. }
  rewrite E1 in Hsg. apply Ok_inj. rewrite <- Hsg. apply combine_single.
Qed.
End Attest.

(** * Evicted validators *)
Definition set_evicted (vs : ValidatorSet) (ev : gset bytes) : ValidatorSet :=
  {| vs_epoch := vs_epoch vs; vs_members := vs_members vs; vs_quorum_threshold := vs_quorum_threshold vs;
     vs_evicted := ev; fp_to_index := fp_to_index vs; index_to_fp := index_to_fp vs; index_to_bls := index_to_bls vs |}.

Definition vfps (ms : list ValidatorInfo) : list bytes := map vi_writer_fp ms.

(** The members an eviction scan newly finds missing. *)
Definition missing (active : gset bytes) (evicted : gset bytes) (ms : list ValidatorInfo) : list ValidatorInfo :=
  filter (fun m => vi_writer_fp m ∉ active /\ vi_writer_fp m ∉ evicted) ms.

Definition evicted_index (e : ConsensusEvent) : option Z :=
  match payload e with VALIDATOR_EVICTED _ i _ _ => Some i | _ => None end.

Lemma missing_cons active evicted m ms : missing active evicted (m :: ms) =
  if decide (vi_writer_fp m ∉ active /\ vi_writer_fp m ∉ evicted) then m :: missing active evicted ms else missing active evicted ms.
Proof. unfold missing. by rewrite filter_cons. Qed.

Lemma missing_evict active evicted fp ms : fp ∉ vfps ms -> missing active ({[fp]} ∪ evicted) ms = missing active evicted ms.
Proof.
  intros Hfp. induction ms as [|m ms IH]; [done|]. rewrite !missing_cons. unfold vfps in Hfp. cbn in Hfp.
  apply not_elem_of_cons in Hfp as [Hne Hfp]. rewrite (IH Hfp).
  destruct (decide (vi_writer_fp m ∉ active /\ vi_writer_fp m ∉ {[fp]} ∪ evicted)) as [D|D],
    (decide (vi_writer_fp m ∉ active /\ vi_writer_fp m ∉ evicted)) as [D'|D']; try done; exfalso; set_solver.
Qed.

(** The scan evicts exactly the missing members, in order, and never raises. *)
Lemma sync_fold active ep round ts ms : forall vs known evs,
  NoDup (vfps ms) -> (forall m, m ∈ ms -> is_Some (fp_to_index vs !! vi_writer_fp m)) -> known ⊆ vs_evicted vs ->
  let new := missing active (vs_evicted vs) ms in
  exists out, foldM (sync_one active ep round ts) (vs, known, evs) ms =
    Ok (set_evicted vs (list_to_set (vfps new) ∪ vs_evicted vs), list_to_set (vfps new) ∪ known, evs ++ out) /\
    map evicted_index out = map (fun m => Some (validator_index m)) new.
Proof.
  induction ms as [|m ms IH]; intros vs known evs Hnd Hkeys Hkn new.
  { exists []. cbn. split; [|done]. rewrite !union_empty_l_L, app_nil_r. by destruct vs. }
  apply NoDup_cons in Hnd as [Hm Hnd]. cbn [foldM]. unfold sync_one at 1.
  assert (forall x, x ∈ ms -> is_Some (fp_to_index vs !! vi_writer_fp x)) as Hkeys' by (intros x Hx; apply Hkeys; by right).
  subst new. rewrite missing_cons. destruct (decide _) as [[D1 D2]|D].
  - rewrite bool_decide_false by set_solver. rewrite bool_decide_true by done.
    unfold is_evicted. rewrite bool_decide_false by done. cbn [andb negb].
    unfold evict. destruct (Hkeys m ltac:(by left)) as [i ->]. cbn [mbind result_bind].
    fold (set_evicted vs ({[vi_writer_fp m]} ∪ vs_evicted vs)).
    edestruct (IH (set_evicted vs ({[vi_writer_fp m]} ∪ vs_evicted vs)) ({[vi_writer_fp m]} ∪ known)) as (out & Hf & Hout);
      [done|done|cbn; set_solver|]. rewrite Hf. cbn [set_evicted vs_evicted] in *. rewrite missing_evict in * by done.
    assert (forall S : gset bytes, list_to_set (vfps (m :: missing active (vs_evicted vs) ms)) ∪ S =
      list_to_set (vfps (missing active (vs_evicted vs) ms)) ∪ ({[vi_writer_fp m]} ∪ S)) as Eu.
    { intros S. cbn. rewrite (assoc_L (∪)). f_equal. apply (comm_L (∪)). }
    eexists (_ :: out). rewrite <- app_assoc, !Eu. split; [reflexivity|]. cbn. by rewrite Hout.
  - assert ((if bool_decide (vi_writer_fp m ∈ known) then Ok (vs, known, evs)
      else if bool_decide (vi_writer_fp m ∉ active) && negb (is_evicted vs (vi_writer_fp m)) then
        vs ← evict vs (vi_writer_fp m);
        Ok (vs, {[vi_writer_fp m]} ∪ known,
          evs ++ [{| ce_epoch := ep; ce_round := round; ce_timestamp_ms := ts;
                     payload := VALIDATOR_EVICTED (vi_writer_fp m) (validator_index m) (lit "evicted_from_roster") (active_count vs) |}])
      else Ok (vs, known, evs)) = Ok (vs, known, evs)) as ->; [|by apply IH].
    destruct (bool_decide (vi_writer_fp m ∈ known)); [done|]. unfold is_evicted.
    destruct (bool_decide (vi_writer_fp m ∉ active)) eqn:E1; [|done].
    destruct (bool_decide (vi_writer_fp m ∈ vs_evicted vs)) eqn:E2; [done|].
    apply bool_decide_eq_true in E1. apply bool_decide_eq_false in E2. by destruct D.
Qed.

(** A crashed validator is left alone by a round. *)
Section Crashed.
Context `{CanonicalHash}.

Lemma advance_crashed now_ms e e' v : advance_round now_ms e = Ok e' ->
  is_faulty (eng_faults e) (Z.of_nat v) (eng_current_round e + 1) CRASH = true ->
  eng_validators e' !! v = eng_validators e !! v.
Proof.
  intros He Hc. unfold advance_round in He.
  assert (forall w, is_faulty (eng_faults e) (Z.of_nat w) (eng_current_round e + 1) CRASH = false -> w <> v) as Hne
    by (intros w Hw ->; congruence).
  destruct (foldM _ _ _) as [[[vs1 mp] blocks]|] eqn:E1; [|done]. cbn [mbind result_bind] in He.
  assert (vs1 !! v = eng_validators e !! v) as H1.
  { refine (foldM_inv _ (fun _ st => st.1.1 !! v = eng_validators e !! v) _ _ _ _ _ E1); [done|].
    intros done_ w [[vs mp'] bs] st' Hi Hst. unfold propose_one in Hst.
    destruct (vs !! w); [|done]. destruct (is_faulty _ (Z.of_nat w) _ CRASH) eqn:Ef; [by injection Hst as <-|].
    destruct (is_faulty _ (Z.of_nat w) _ EQUIVOCATE).
    - destruct (propose _ _ _ _) as [[b1 p']|]; [|done]. cbn [mbind result_bind] in Hst.
      destruct (make_block _ _ _ _ _); [|done]. cbn [mbind result_bind] in Hst. injection Hst as <-.
      cbn. by rewrite list_lookup_insert_ne by (by apply Hne).
    - destruct (if is_faulty _ (Z.of_nat w) _ CENSOR then _ else _) as [pl mp''].
      destruct (propose _ _ _ _) as [[b1 p']|]; [|done]. cbn [mbind result_bind] in Hst. injection Hst as <-.
      cbn. by rewrite list_lookup_insert_ne by (by apply Hne). }
  destruct (deliver_all (deliver_block _ _ _) _ _ _) as [vs2 acks] eqn:E2.
  assert (vs2 !! v = eng_validators e !! v) as H2.
  { change vs2 with (vs2, acks).1. rewrite <- E2. apply deliver_all_inv; [done|].
    intros b [vs ak] w _ Hi. unfold deliver_block. destruct (vs !! w); [|done].
    destruct (is_faulty _ (Z.of_nat w) _ CRASH) eqn:Ef; [done|]. destruct (_ =? _); [done|].
    destruct (_ && _); [done|]. destruct (is_partitioned _ _ _); [done|].
    destruct (receive_block _ _). cbn. by rewrite list_lookup_insert_ne by (by apply Hne). }
  destruct (deliver_all (deliver_ack _ _ _) _ _ _) as [vs3 certs] eqn:E3.
  assert (vs3 !! v = eng_validators e !! v) as H3.
  { change vs3 with (vs3, certs).1. rewrite <- E3. apply deliver_all_inv; [done|].
    intros b [vs ak] w _ Hi. unfold deliver_ack. destruct (vs !! w); [|done].
    destruct (is_faulty _ (Z.of_nat w) _ CRASH) eqn:Ef; [done|]. destruct (is_faulty _ _ _ DELAY); [done|].
    destruct (is_partitioned _ _ _); [done|].
    destruct (receive_ack _ _ _). cbn. by rewrite list_lookup_insert_ne by (by apply Hne). }
  destruct (deliver_all (deliver_cert _ _ _) _ _ _) as [vs4 ds] eqn:E4.
  assert (vs4 !! v = eng_validators e !! v) as H4.
  { change vs4 with (vs4, ds).1. rewrite <- E4. apply deliver_all_inv; [done|].
    intros b [vs ak] w _ Hi. unfold deliver_cert. destruct (vs !! w); [|done].
    destruct (is_faulty _ (Z.of_nat w) _ CRASH) eqn:Ef; [done|]. destruct (is_partitioned _ _ _); [done|].
    destruct (receive_certificate _ _). cbn. by rewrite list_lookup_insert_ne by (by apply Hne). }
  destruct (fold_left (check_one _ _) _ _) as [vs5 ds5] eqn:E5. injection He as <-. cbn [eng_validators].
  change vs5 with (vs5, ds5).1. rewrite <- E5. apply fold_left_inv; [done|].
  intros [vs ak] w _ Hi. unfold check_one. destruct (vs !! w); [|done].
  destruct (is_faulty _ (Z.of_nat w) _ CRASH) eqn:Ef; [done|].
  destruct (check_rounds _ _ _). cbn. by rewrite list_lookup_insert_ne by (by apply Hne).
Qed.

Lemma advance_keeps now_ms e e' : advance_round now_ms e = Ok e' ->
  eng_faults e' = eng_faults e /\ eng_current_round e' = eng_current_round e + 1.
Proof.
  unfold advance_round. destruct (foldM _ _ _) as [[[vs1 mp] blocks]|]; [|done]. cbn [mbind result_bind].
  destruct (deliver_all (deliver_block _ _ _) _ _ _), (deliver_all (deliver_ack _ _ _) _ _ _),
    (deliver_all (deliver_cert _ _ _) _ _ _), (fold_left (check_one _ _) _ _). by intros [= <-].
Qed.

Lemma advance_many_crashed clock n : forall e e' v, advance_many clock e n = Ok e' -> -1 <= eng_current_round e ->
  eng_faults e' = eng_faults e /\ -1 <= eng_current_round e' /\
  ((forall r, 0 <= r -> is_faulty (eng_faults e) (Z.of_nat v) r CRASH = true) ->
   eng_validators e' !! v = eng_validators e !! v).
Proof.
  induction n as [|n IH]; intros e e' v He Hr; cbn in He; [by injection He as <-|].
  destruct (advance_round _ e) as [e1|] eqn:E1; [|done]. cbn [mbind result_bind] in He.
  destruct (advance_keeps _ _ _ E1) as [F1 R1]. destruct (IH e1 e' v He) as (F2 & R2 & V2); [lia|].
  rewrite F1 in F2, V2. split_and!; [done|done|]. intros Hc. rewrite (V2 Hc).
  apply (advance_crashed _ _ _ _ E1). apply Hc. lia.
Qed.
End Crashed.

(** * The adapter over time *)
Definition vs_good (vs : ValidatorSet) : Prop :=
  NoDup (vfps (vs_members vs)) /\ forall m, m ∈ vs_members vs -> is_Some (fp_to_index vs !! vi_writer_fp m) /\ 0 <= validator_index m.

Lemma from_roster_good policy ro : roster_ok policy ro -> vs_good (from_roster ro) /\ vs_evicted (from_roster ro) = ∅ /\
  vfps (vs_members (from_roster ro)) = fps (active_members ro).
Proof.
  intros [Hnd _]. assert (vfps (vs_members (from_roster ro)) = fps (active_members ro)) as Ef.
  { unfold vfps, from_roster, new_validator_set, fps. cbn [vs_members]. apply list_eq. intros i.
    change (map vi_writer_fp ?l) with (vi_writer_fp <$> l). change (map writer_fp ?l) with (writer_fp <$> l).
    rewrite !list_lookup_fmap, list_lookup_imap. by destruct (active_members ro !! i). }
  split_and!; [|done|done]. split.
  - rewrite Ef. unfold fps in Hnd. rewrite map_app in Hnd. by apply NoDup_app in Hnd as [? _].
  - intros m Hm. split; [by apply dict_of_elem|]. cbn in Hm. apply list_elem_of_lookup in Hm as [i Hi].
    rewrite list_lookup_imap in Hi. destruct (active_members ro !! i); [|done]. injection Hi as <-. cbn. lia.
Qed.

(** Every evicted member of the validator set is crashed in the engine. *)
Definition silenced (vs : ValidatorSet) (eng : LocalDagBftEngine) : Prop :=
  -1 <= eng_current_round eng /\
  forall m, m ∈ vs_members vs -> vi_writer_fp m ∈ vs_evicted vs ->
    eng_faults eng !! validator_index m = Some (crash_fault (validator_index m)).

Record adapter_ok (cm : CommitteeManager) (a : DagBftAdapter) : Prop := {
  ao_epoch : 0 <= cs_current_epoch (a_sync a);
  ao_sync : forall vs, cs_validator_set (a_sync a) = Some vs -> vs_good vs /\ known_evicted (a_sync a) ⊆ vs_evicted vs;
  ao_backend : forall eng, a_backend a = Some eng ->
    1 <= em_current_epoch (cm_epochs cm) /\
    exists vs, cs_validator_set (a_sync a) = Some vs /\ silenced vs eng
}.

Definition crash_all (e : LocalDagBftEngine) (indices : list Z) : LocalDagBftEngine :=
  fold_left (fun e i => inject_fault e (crash_fault i)) indices e.

Lemma crash_all_faults indices : forall e, eng_current_round (crash_all e indices) = eng_current_round e /\
  forall j, eng_faults (crash_all e indices) !! j =
    if decide (j ∈ indices) then Some (crash_fault j) else eng_faults e !! j.
Proof.
  induction indices as [|i indices IH]; intros e; [split; [done|]; intros j; by rewrite decide_False by (by apply not_elem_of_nil)|].
  cbn [crash_all fold_left]. fold (crash_all (inject_fault e (crash_fault i)) indices).
  destruct (IH (inject_fault e (crash_fault i))) as [Hr Hf]. split; [done|]. intros j. rewrite Hf.
  destruct (decide (j ∈ indices)) as [Hj|Hj]; [by rewrite decide_True by (by right)|]. cbn [inject_fault eng_faults crash_fault fc_validator].
  destruct (decide (j = i)) as [->|Hne].
  - rewrite decide_True by (by left). by rewrite lookup_insert_eq.
  - rewrite decide_False by (intros [->|?]%elem_of_cons; done). by rewrite lookup_insert_ne.
Qed.

Lemma crash_all_empty n f indices : let e := crash_all (new_engine n f) indices in
  eng_mempool e = [] /\ eng_commit_queue e = [] /\ eng_current_round e = -1.
Proof.
  apply (fold_left_inv _ (fun e => eng_mempool e = [] /\ eng_commit_queue e = [] /\ eng_current_round e = -1)); [done|].
  by intros e i _ [? [? ?]].
Qed.

(** Handling eviction events only crashes validators. *)
Lemma handle_evictions cm out : forall a indices, map evicted_index out = map Some indices ->
  a_sync (fold_left (handle_event cm) out a) = a_sync a /\
  a_backend (fold_left (handle_event cm) out a) = (fun e => crash_all e indices) <$> a_backend a.
Proof.
  induction out as [|e out IH]; intros a [|i indices] Hm; try done.
  - cbn. split; [done|]. by destruct (a_backend a).
  - cbn in Hm. injection Hm as He Hm. cbn [fold_left].
    destruct (IH (handle_event cm a e) indices Hm) as [-> ->]. unfold handle_event, evicted_index in *.
    destruct (payload e) as [|fp i' rs ra| | | |]; try done. injection He as ->. unfold handle_eviction.
    cbn [record_event a_backend]. destruct (a_backend a) eqn:Eb; split; cbn; by rewrite ?Eb.
Qed.

Lemma roster_some policy em : em_ok policy em -> 1 <= em_current_epoch em ->
  exists ro, current_roster em = Some ro /\ roster_ok policy ro.
Proof.
  intros [E1 E2 E3 E4 E5] Hep. unfold current_roster. rewrite E3.
  destruct (length (em_history em)) as [|i] eqn:El; [lia|]. cbn.
  destruct (lookup_lt_is_Some_2 (em_rosters em) i) as [ro Hro]; [lia|]. exists ro. split; [done|].
  rewrite Forall_lookup in E5. by eapply E5.
Qed.

Lemma roster_is policy em ro : em_ok policy em -> current_roster em = Some ro -> 1 <= em_current_epoch em /\ roster_ok policy ro.
Proof.
  intros Hem Ero. assert (1 <= em_current_epoch em) as Hep.
  { unfold current_roster in Ero. rewrite (eo_current _ _ Hem) in Ero. rewrite (eo_epoch _ _ Hem).
    destruct (length _); [done|lia]. }
  destruct (roster_some _ _ Hem Hep) as (ro' & Ero' & Hok). split; [done|]. congruence.
Qed.

(** The eviction scan of a tick, on an adapter whose sync is up to date. *)
Lemma tick_evictions policy cm cs vs ro round ts : current_roster (cm_epochs cm) = Some ro -> roster_ok policy ro ->
  cs_validator_set cs = Some vs -> vs_good vs -> known_evicted cs ⊆ vs_evicted vs ->
  exists out cs' vs', sync_evictions cm cs vs round ts = Ok (out, cs') /\
    map evicted_index out = map Some (map validator_index (missing (list_to_set (fps (active_members ro))) (vs_evicted vs) (vs_members vs))) /\
    cs_validator_set cs' = Some vs' /\ cs_current_epoch cs' = cs_current_epoch cs /\
    vs' = set_evicted vs (list_to_set (vfps (missing (list_to_set (fps (active_members ro))) (vs_evicted vs) (vs_members vs))) ∪ vs_evicted vs) /\
    known_evicted cs' ⊆ vs_evicted vs'.
Proof.
  intros Hro Hok Hvs [Hnd Hkeys] Hkn. unfold sync_evictions. rewrite Hro.
  destruct (sync_fold (list_to_set (fps (active_members ro))) (cs_current_epoch cs) round ts (vs_members vs) vs (known_evicted cs) [])
    as (out & Hf & Hout); [done|by intros m Hm; apply Hkeys|done|].
  change (map writer_fp (active_members ro)) with (fps (active_members ro)). rewrite Hf. cbn [mbind result_bind].
  eexists out, _, _. split; [reflexivity|]. rewrite map_map. cbn [cs_validator_set cs_current_epoch known_evicted].
  split_and!; [done|reflexivity|done|done|]. cbn. by apply union_mono_l.
Qed.

(** Crashing the newly missing silences every evicted member. *)
Lemma silenced_after active vs eng : silenced vs eng ->
  let new := missing active (vs_evicted vs) (vs_members vs) in
  silenced (set_evicted vs (list_to_set (vfps new) ∪ vs_evicted vs)) (crash_all eng (map validator_index new)).
Proof.
  intros [Hr Hs] new. destruct (crash_all_faults (map validator_index new) eng) as [Er Ef]. split; [by rewrite Er|].
  cbn. intros m Hm He. rewrite Ef. destruct (decide _) as [Hin|Hin]; [done|]. apply Hs; [done|].
  apply elem_of_union in He as [He|He]; [|done]. exfalso.
  destruct (decide (vi_writer_fp m ∈ active \/ vi_writer_fp m ∈ vs_evicted vs)) as [D|D].
  - apply elem_of_list_to_set, elem_of_map in He as (m' & E & Hm'). apply list_elem_of_filter in Hm' as [[N1 N2] _].
    rewrite <- E in N1, N2. tauto.
  - apply Hin, elem_of_map. exists m. split; [done|]. apply list_elem_of_filter. split; [tauto|done].
Qed.

(** After the eviction events of a tick are handled. *)
Lemma finish_tick cm ro b vs out : let new := missing (list_to_set (fps (active_members ro))) (vs_evicted vs) (vs_members vs) in
  let vs' := set_evicted vs (list_to_set (vfps new) ∪ vs_evicted vs) in
  vs_good vs -> cs_validator_set (a_sync b) = Some vs' -> known_evicted (a_sync b) ⊆ vs_evicted vs' ->
  0 <= cs_current_epoch (a_sync b) -> 1 <= em_current_epoch (cm_epochs cm) ->
  (forall eng, a_backend b = Some eng -> silenced vs eng) ->
  map evicted_index out = map Some (map validator_index new) ->
  let a' := fold_left (handle_event cm) out b in
  adapter_ok cm a' /\ cs_validator_set (a_sync a') = Some vs' /\
  forall m, m ∈ vs_members vs' -> vi_writer_fp m ∉ fps (active_members ro) -> vi_writer_fp m ∈ vs_evicted vs'.
Proof.
  intros new vs' Hg Hvs Hkn Hep Hcm Hsil Hout a'. destruct (handle_evictions cm out b _ Hout) as [Es Eb]. fold a' in Es, Eb.
  split_and!; [constructor|by rewrite Es|].
  - by rewrite Es.
  - rewrite Es, Hvs. intros ? [= <-]. done.
  - rewrite Eb, Es. intros eng He. split; [done|]. exists vs'. split; [done|].
    destruct (a_backend b) as [eng0|]; [|done]. injection He as <-. by apply silenced_after, Hsil.
  - cbn. intros m Hm Hn. apply elem_of_union. destruct (decide (vi_writer_fp m ∈ vs_evicted vs)) as [D|D]; [by right|left].
    apply elem_of_list_to_set, elem_of_map. exists m. split; [done|]. apply list_elem_of_filter.
    split; [|done]. split; [|done]. by rewrite elem_of_list_to_set.
Qed.

Lemma new_engine_silenced n f vs : vs_evicted vs = ∅ -> silenced vs (new_engine n f).
Proof. intros E. split; [done|]. intros m _. rewrite E. by intros ?%not_elem_of_empty. Qed.

Lemma epoch_handled cm b ev old new_epoch cnt dkg vs : payload ev = EPOCH_TRANSITION old new_epoch cnt dkg ->
  cs_validator_set (a_sync b) = Some vs ->
  a_sync (handle_event cm b ev) = a_sync b /\
  (forall eng, a_backend (handle_event cm b ev) = Some eng -> eng = new_engine (vs_size vs) None).
Proof.
  intros Hp Hvs. unfold handle_event. rewrite Hp. unfold handle_epoch_transition. cbn [record_event a_sync].
  rewrite Hvs. cbv zeta. unfold install_keys.
  destruct (has_signing_keys cm new_epoch), (get_signing_keys cm new_epoch); cbn; destruct (a_backend b); naive_solver.
Qed.

Lemma tick_ok vm policy cm a round ts : cm_ok vm policy cm -> adapter_ok cm a ->
  exists evs a', adapter_tick cm a round ts = Ok (evs, a') /\ adapter_ok cm a' /\
  forall vs ro, cs_validator_set (a_sync a') = Some vs -> current_roster (cm_epochs cm) = Some ro ->
    forall m, m ∈ vs_members vs -> vi_writer_fp m ∉ fps (active_members ro) -> vi_writer_fp m ∈ vs_evicted vs.
Proof.
  intros [_ _ Hem _ _ _] Ha. pose proof Ha as [Ha1 Ha2 Ha3]. unfold adapter_tick, on_tick, sync_epoch.
  destruct (em_current_epoch (cm_epochs cm) <=? cs_current_epoch (a_sync a)) eqn:Ele.
  - destruct (cs_validator_set (a_sync a)) as [vs|] eqn:Evs.
    2: { eexists [], _. split; [reflexivity|]. cbn. rewrite Evs. split; [|done]. by destruct a. }
    destruct (Ha2 vs eq_refl) as [Hg Hk].
    destruct (current_roster (cm_epochs cm)) as [ro|] eqn:Ero.
    + destruct (roster_is _ _ _ Hem Ero) as [Hep Hok].
      destruct (tick_evictions policy cm (a_sync a) vs ro round ts Ero Hok Evs Hg Hk) as (out & cs' & vs' & Hs & Hout & Hvs & Hce & -> & Hkn).
      rewrite Hs. cbn [mbind result_bind]. change (option_list None ++ out) with out. eexists _, _. split; [reflexivity|].
      destruct (finish_tick cm ro (with_sync a cs') vs out) as (F1 & F2 & F3); cbn [with_sync a_sync a_backend]; try done; [lia| |].
      { intros eng He. destruct (Ha3 eng He) as (_ & vs2 & E2 & Hsil). congruence. }
      split; [done|]. rewrite F2. intros ? ? [= <-] [= <-]. done.
    + unfold sync_evictions. rewrite Ero. cbn [mbind result_bind option_list app].
      eexists _, _. split; [reflexivity|]. cbn. split; [by destruct a|done].
  - apply Z.leb_gt in Ele. destruct (roster_some _ _ Hem) as (ro & Ero & Hok); [lia|]. rewrite Ero. cbn [cs_validator_set].
    destruct (from_roster_good _ _ Hok) as (Hg & Hev & _).
    set (cs1 := {| cs_current_epoch := _; cs_validator_set := Some (from_roster ro); known_evicted := ∅ |}).
    destruct (tick_evictions policy cm cs1 (from_roster ro) ro round ts Ero Hok eq_refl Hg)
      as (out & cs' & vs' & Hs & Hout & Hvs & Hce & -> & Hkn); [apply empty_subseteq|].
    rewrite Hs. cbn [mbind result_bind]. match goal with |- context [option_list (Some ?e) ++ out] => change (option_list (Some e) ++ out) with (e :: out) end.
    cbn [fold_left]. eexists _, _. split; [reflexivity|].
    match goal with |- context [handle_event cm (with_sync a cs') ?e] => set (ev := e) end.
    destruct (epoch_handled cm (with_sync a cs') ev _ _ _ _ _ eq_refl Hvs) as [Es Eb].
    destruct (finish_tick cm ro (handle_event cm (with_sync a cs') ev) (from_roster ro) out) as (F1 & F2 & F3);
      rewrite ?Es; cbn [with_sync a_sync]; try done; [rewrite Hce; cbn; lia|lia| |].
    { intros eng ->%Eb. by apply new_engine_silenced. }
    split; [done|]. rewrite F2. intros ? ? [= <-] [= <-]. done.
Qed.

Section Runs.
Context `{CanonicalHash}.
Context {G1 G2 : Type} `{CurveGroup G1} `{CurveGroup G2} (GP HP : G1) (hash_to_G2 : bytes -> G2).

(** A committee manager and an adapter, as they develop together. *)
Inductive adapter_run (vm : Z) (policy : CommitteePolicy) : CommitteeManager -> DagBftAdapter -> Prop :=
| run_new cm : cm_reachable GP HP vm policy cm -> adapter_run vm policy cm (new_adapter cm)
| run_committee cm cm' a : adapter_run vm policy cm a -> cm_step GP HP cm cm' -> adapter_run vm policy cm' a
| run_start cm a a' : adapter_run vm policy cm a -> start cm a = Ok a' -> adapter_run vm policy cm a'
| run_stop cm a : adapter_run vm policy cm a -> adapter_run vm policy cm (stop a)
| run_tick cm a round ts evs a' : adapter_run vm policy cm a -> adapter_tick cm a round ts = Ok (evs, a') -> adapter_run vm policy cm a'
| run_submit cm a tx h a' : adapter_run vm policy cm a -> submit_transaction a tx = Ok (h, a') -> adapter_run vm policy cm a'
| run_drive cm a clock n bs a' : adapter_run vm policy cm a -> drive_rounds hash_to_G2 clock a n = Ok (bs, a') -> adapter_run vm policy cm a'.

Lemma sign_keeps a keys vs d batch a' : sign_decision hash_to_G2 a keys vs d batch = Ok a' ->
  a_sync a' = a_sync a /\ a_backend a' = a_backend a.
Proof.
  unfold sign_decision. destruct (ack_partials _ _ _); [|done]. cbn [mbind result_bind].
  match goal with |- context [if ?c then ?x else Ok tt] => destruct (if c then x else Ok tt) end; [|done]. cbn [mbind result_bind].
  destruct (serialize_batch batch); [|done]. cbn [mbind result_bind].
  destruct (_ <=? _); [|by intros [= <-]]. destruct (combine_partial_signatures _ _); [|done]. by intros [= <-].
Qed.

Lemma process_keeps ds a bs a' : process_all hash_to_G2 a ds = Ok (bs, a') ->
  a_sync a' = a_sync a /\ a_backend a' = a_backend a.
Proof.
  intros Hp. refine (foldM_inv _ (fun _ st => a_sync st.2 = a_sync a /\ a_backend st.2 = a_backend a) _ _ _ _ _ Hp); [done|].
  intros _ d [bs1 a1] [bs2 a2] [E1 E2] Hd. cbn [fst snd] in *. unfold process_decision in Hd.
  destruct (a_signing_keys a1) as [[|k ks]|]; [by injection Hd as <- <-| |by injection Hd as <- <-].
  destruct (cs_validator_set (a_sync a1)) as [vs|]; [|by injection Hd as <- <-].
  destruct (sign_decision _ _ _ _ _ _) as [a3|] eqn:Es; [|done]. injection Hd as <- <-.
  apply sign_keeps in Es as [-> ->]. done.
Qed.

Lemma drive_keeps clock a n bs a' : drive_rounds hash_to_G2 clock a n = Ok (bs, a') ->
  exists eng e' eng', a_backend a = Some eng /\ advance_many clock eng n = Ok e' /\ a_backend a' = Some eng' /\
    a_sync a' = a_sync a /\ eng_validators eng' = eng_validators e' /\ eng_faults eng' = eng_faults e' /\
    eng_current_round eng' = eng_current_round e'.
Proof.
  unfold drive_rounds. destruct (a_backend a) as [eng|] eqn:Eb; [|done]. unfold run_rounds.
  destruct (advance_many clock eng n) as [e'|] eqn:Ea; [|done]. cbn [mbind result_bind]. intros [Es Ebk]%process_keeps.
  exists eng, e'. eexists. split_and!; [done|done|exact Ebk|done..].
Qed.

Lemma start_ok vm policy cm a a' : cm_ok vm policy cm -> adapter_ok cm a -> start cm a = Ok a' -> adapter_ok cm a'.
Proof.
  intros Hcm [Ha1 _ _]. unfold start. destruct (current_roster (cm_epochs cm)) as [ro|] eqn:Ero; [|done]. intros [= <-].
  pose proof (co_epochs _ _ _ Hcm) as Hem.
  destruct (roster_is _ _ _ Hem Ero) as [Hep Hok].
  destruct (from_roster_good _ _ Hok) as (Hg & Hev & _).
  unfold install_keys. set (epoch := em_current_epoch (cm_epochs cm)) in *.
  destruct (has_signing_keys cm epoch), (get_signing_keys cm epoch); constructor; cbn; try done;
    try (by intros ? [= <-]); intros eng [= <-]; (split; [done|]); eexists; (split; [done|]); by apply new_engine_silenced.
Qed.

Lemma run_dkg_epochs cm sp bp cm' : run_dkg_ceremony GP HP cm sp bp = Ok cm' -> cm_epochs cm' = cm_epochs cm.
Proof.
  unfold run_dkg_ceremony. destruct (current_roster _); [|by intros [= <-]]. destruct (_ <? _); [by intros [= <-]|].
  destruct (mapR _ _); [|done]. cbn [mbind result_bind].
  match goal with |- context [match ?x with Ok _ => _ | Err _ => _ end] => destruct x as [[kr keys]|e] end; [by intros [= <-]|].
  destruct (caught e); [by intros [= <-]|done].
Qed.

Lemma cm_step_epoch vm policy cm cm' : cm_ok vm policy cm -> cm_step GP HP cm cm' ->
  em_current_epoch (cm_epochs cm) <= em_current_epoch (cm_epochs cm').
Proof.
  intros Hok Hs. destruct Hs as [cands sp bp round ts adv cm' Hd Ht|fp st|cands ts Hd|cands ts Hd]; [| |cbn; lia|cbn; lia].
  - unfold tick in Ht. destruct Hok as [_ H2 H3 _ _ _]. rewrite H2 in Ht.
    destruct (check_advance policy cands (cm_epochs cm) round ts) as [b em] eqn:Ec.
    destruct (check_advance_ok _ _ _ _ _ _ _ Hd H3 Ec) as (_ & Hle & _).
    destruct (b && _); [|by injection Ht as _ <-].
    destruct (run_dkg_ceremony GP HP _ sp bp) as [cm1|] eqn:Er; [|done]. injection Ht as _ <-. by rewrite (run_dkg_epochs _ _ _ _ Er).
  - unfold on_writer_state_change. destruct (em_roster _); [|done]. destruct (em_rosters _ !! _); [|done].
    by destruct (handle_state_change _ _ _ _ _ _) as [[? ?] ?].
Qed.

Lemma adapter_run_ok vm policy cm a : adapter_run vm policy cm a -> cm_ok vm policy cm /\ adapter_ok cm a.
Proof.
  induction 1 as [cm Hc|cm cm' a _ [IH1 IH2] Hs|cm a a' _ [IH1 IH2] Hs|cm a _ [IH1 IH2]|
    cm a round ts evs a' _ [IH1 IH2] Ht|cm a tx h a' _ [IH1 IH2] Hs|cm a clock n bs a' _ [IH1 IH2] Hd].
  - apply cm_reachable_ok in Hc. split; [done|]. constructor; try done. cbn. rewrite (eo_epoch _ _ (co_epochs _ _ _ Hc)). lia.
  - pose proof (cm_step_epoch _ _ _ _ IH1 Hs). split; [exact (cm_step_ok GP HP vm policy cm cm' IH1 Hs)|]. destruct IH2 as [H3 H4 H5]. constructor; [done|done|].
    intros eng He. destruct (H5 eng He) as [? ?]. split; [lia|done].
  - split; [done|]. by eapply start_ok.
  - split; [done|]. by destruct IH2.
  - split; [done|]. destruct (tick_ok _ _ _ _ round ts IH1 IH2) as (evs' & a'' & E & Hok & _). congruence.
  - split; [done|]. unfold submit_transaction in Hs. destruct (negb _); [done|].
    destruct (a_backend a) as [eng|] eqn:Eb; [|done]. injection Hs as _ <-. destruct IH2 as [H3 H4 H5]. constructor; [done|done|].
    cbn. intros ? [= <-]. destruct (H5 eng Eb) as (? & vs & ? & ?). eauto.
  - split; [done|]. destruct (drive_keeps _ _ _ _ _ Hd) as (eng & e' & eng' & E1 & E2 & E3 & E4 & E5 & E6 & E7).
    destruct IH2 as [H3 H4 H5]. rewrite <- E4 in H3, H4. constructor; [done|done|]. rewrite E3. intros ? [= <-].
    destruct (H5 eng E1) as (Hep & vs & Hvs & Hr & Hs). split; [done|]. exists vs. rewrite E4. split; [done|].
    destruct (advance_many_crashed _ _ _ _ 0%nat E2 Hr) as (F1 & F2 & _). split; [by rewrite E7|].
    rewrite E6, F1. done.
Qed.

(** C26: Evicted validators are silenced.  However the committee and the adapter
    have developed, a tick never raises, and after it every validator of a
    running adapter whose writer is no longer in the roster is inactive, and
    no later round the adapter drives touches that validator's protocol
    state. *)
Theorem evicted_silenced vm policy cm a round ts : adapter_run vm policy cm a ->
  exists evs a', adapter_tick cm a round ts = Ok (evs, a') /\
  forall eng, a_backend a' = Some eng ->
  exists vs ro, cs_validator_set (a_sync a') = Some vs /\ current_roster (cm_epochs cm) = Some ro /\
    forall m, m ∈ vs_members vs -> vi_writer_fp m ∉ fps (active_members ro) ->
      is_active vs (vi_writer_fp m) = false /\
      forall clock n bs a'', drive_rounds hash_to_G2 clock a' n = Ok (bs, a'') ->
        exists eng'', a_backend a'' = Some eng'' /\
          eng_validators eng'' !! Z.to_nat (validator_index m) = eng_validators eng !! Z.to_nat (validator_index m).
Proof.
  intros [Hcm Ha]%adapter_run_ok. destruct (tick_ok _ _ _ _ round ts Hcm Ha) as (evs & a' & Ht & [Ha1 Ha2 Ha3] & Hev).
  exists evs, a'. split; [done|]. intros eng He. destruct (Ha3 eng He) as (Hep & vs & Hvs & Hr & Hs).
  destruct (roster_some _ _ (co_epochs _ _ _ Hcm) Hep) as (ro & Hro & _). exists vs, ro. split_and!; [done|done|].
  intros m Hm Hn. pose proof (Hev vs ro Hvs Hro m Hm Hn) as Hmev. split.
  - unfold is_active. rewrite (bool_decide_false (vi_writer_fp m ∉ _)) by tauto. apply andb_false_r.
  - intros clock n bs a'' Hd. destruct (drive_keeps _ _ _ _ _ Hd) as (eng0 & e' & eng' & E1 & E2 & E3 & _ & E5 & _ & _).
    assert (eng0 = eng) as -> by congruence. exists eng'. split; [done|]. rewrite E5.
    destruct (advance_many_crashed _ _ _ _ (Z.to_nat (validator_index m)) E2 Hr) as (_ & _ & ->); [done|].
    intros r Hr0. destruct (Ha2 vs Hvs) as [[_ Hg] _]. destruct (Hg m Hm) as [_ Hi]. rewrite Z2Nat.id by done.
    unfold is_faulty. rewrite (Hs m Hm Hmev). cbn. rewrite (proj2 (Z.ltb_ge r 0)) by done. done.
Qed.

(** A new epoch drops what the engine holds.  When a tick sees a new
    epoch, the engine is replaced: transactions submitted but not yet proposed
    and decisions not yet delivered are gone. *)
Theorem epoch_drops_pending vm policy cm a eng round ts : adapter_run vm policy cm a ->
  cs_current_epoch (a_sync a) < em_current_epoch (cm_epochs cm) -> a_backend a = Some eng ->
  exists evs a' eng', adapter_tick cm a round ts = Ok (evs, a') /\ a_backend a' = Some eng' /\
    eng_mempool eng' = [] /\ eng_commit_queue eng' = [] /\ eng_current_round eng' = -1.
Proof.
  intros [Hcm Ha]%adapter_run_ok Hlt Hb. pose proof (co_epochs _ _ _ Hcm) as Hem. destruct Ha as [Ha1 _ _].
  destruct (roster_some _ _ Hem) as (ro & Ero & Hok); [lia|]. destruct (from_roster_good _ _ Hok) as (Hg & _).
  unfold adapter_tick, on_tick, sync_epoch. rewrite (proj2 (Z.leb_gt _ _)) by done. rewrite Ero. cbn [cs_validator_set].
  set (cs1 := {| cs_current_epoch := _; cs_validator_set := Some (from_roster ro); known_evicted := ∅ |}).
  destruct (tick_evictions policy cm cs1 (from_roster ro) ro round ts Ero Hok eq_refl Hg)
    as (out & cs' & vs' & Hs & Hout & Hvs & _); [apply empty_subseteq|].
  rewrite Hs. cbn [mbind result_bind]. match goal with |- context [option_list (Some ?e) ++ out] => change (option_list (Some e) ++ out) with (e :: out) end.
  cbn [fold_left]. eexists _, _. match goal with |- context [handle_event cm (with_sync a cs') ?e] => set (ev := e) end.
  assert (exists n, a_backend (handle_event cm (with_sync a cs') ev) = Some (new_engine n None)) as [n En].
  { unfold handle_event. cbn [payload ev]. unfold handle_epoch_transition. cbn [record_event a_sync with_sync]. rewrite Hvs.
    cbv zeta. unfold install_keys. set (epoch := em_current_epoch (cm_epochs cm)).
    destruct (has_signing_keys cm epoch), (get_signing_keys cm epoch); cbn; rewrite Hb; eauto. }
  destruct (handle_evictions cm out (handle_event cm (with_sync a cs') ev) _ Hout) as [_ Eb]. rewrite En in Eb.
  eexists. split_and!; [reflexivity|exact Eb|..]; apply crash_all_empty.
Qed.
End Runs.

(** The digest that is attested determines round, epoch and transactions. *)
Lemma batch_digest_binds `{CanonicalHash} b1 b2 x1 x2 : batch_preimage b1 = Ok x1 -> batch_preimage b2 = Ok x2 ->
  serialize_batch b1 = serialize_batch b2 ->
  (Router.b_round b1 = Router.b_round b2 /\ b_epoch b1 = b_epoch b2 /\ transactions b1 = transactions b2) \/
  (x1 <> x2 /\ chash x1 = chash x2).
Proof.
  intros E1 E2. unfold serialize_batch. rewrite E1, E2. intros Ec%Ok_inj.
  destruct (decide (x1 = x2)) as [<-|Hne]; [left|by right]. revert E1 E2. unfold batch_preimage, mbind, result_bind.
  destruct (int_to_bytes 8 (Router.b_round b1)) as [r1|] eqn:R1; [|done].
  destruct (int_to_bytes 8 (b_epoch b1)) as [e1|] eqn:P1; [|done].
  destruct (int_to_bytes 4 (Z.of_nat (length (transactions b1)))) as [l1|] eqn:L1; [|done].
  destruct (mapR lp4 (transactions b1)) as [t1|] eqn:T1; [|done].
  destruct (int_to_bytes 8 (Router.b_round b2)) as [r2|] eqn:R2; [|done].
  destruct (int_to_bytes 8 (b_epoch b2)) as [e2|] eqn:P2; [|done].
  destruct (int_to_bytes 4 (Z.of_nat (length (transactions b2)))) as [l2|] eqn:L2; [|done].
  destruct (mapR lp4 (transactions b2)) as [t2|] eqn:T2; [|done].
  apply int_to_bytes_Ok in R1 as [? ->], P1 as [? ->], L1 as [? ->], R2 as [? ->], P2 as [? ->], L2 as [? ->].
  apply mapR_Ok in T1, T2. intros <-%Ok_inj E%Ok_inj.
  apply app_inj_len in E as [Er E]; [|by rewrite !be_encode_length].
  apply app_inj_len in E as [Ee E]; [|by rewrite !be_encode_length].
  apply app_inj_len in E as [El E]; [|by rewrite !be_encode_length].
  apply be_encode_inj in Er; [|done..]. apply be_encode_inj in Ee; [|done..].
  destruct (lp4s_inj _ _ _ _ [] [] T2 T1) as [Et _]; [by right|by rewrite !app_nil_r|done].
Qed.

(** * Concrete runs *)
Module Attested.
Definition gen : Fr := Zmod.one.
(** All four writers, quorum three, a two-of-four key. *)
Definition policy : CommitteePolicy :=
  {| cp_vm_tag := 1; epoch_strategy := ROUND_COUNT; epoch_length := 10; epoch_duration_ms := 0;
     max_committee_size := 0; min_committee_size := 2; floor_mode := HARD; standby_strategy := FIFO;
     max_standby_size := 0; admin_standby_list := []; required_tiers := None; min_epochs_active := 0;
     require_bls_key := false; security_eviction := IMMEDIATE; operational_eviction := IMMEDIATE;
     require_committee_for_dispatch := false; force_include := ∅; force_exclude := ∅;
     dkg_threshold := 2; dkg_timeout_rounds := 10; dkg_eager_start_rounds := 0 |}.
Definition block : Block :=
  {| b_author := 0; b_round := 4; b_payload := [lit "pay"]; b_parents := ∅; b_timestamp_ms := 77; b_digest := lit "digest" |}.
Definition decision : CommitDecision :=
  {| leader_certificate := {| c_block := block; c_signers := {[0; 1; 2]} |}; committed_blocks := [block]; d_round := 4 |}.
Definition bb : bytes := match serialize_batch (to_ordered_batch decision 1) with Ok b => b | Err _ => [] end.

(** The committee of epoch 1, formed by an administrator; then one member is
    revoked. *)
Definition cm0 : CommitteeManager := new_manager 1 policy.
Definition cm1 : CommitteeManager := with_epochs cm0 (admin_advance policy Quartet.writers (cm_epochs cm0) 0).
Definition cm2 : CommitteeManager := on_writer_state_change cm1 (lit "ben") REVOKED.
Definition cm3 : CommitteeManager := with_epochs cm2 (admin_advance policy Quartet.writers (cm_epochs cm2) 0).

Lemma reach1 : cm_reachable gen (fr 3) 1 policy cm1.
Proof. eapply cm_next; [apply cm_init|]. apply (step_admin _ _ cm0), Quartet.writers_distinct. Qed.
Definition a1 : DagBftAdapter := match start cm1 (new_adapter cm1) with Ok a => a | Err _ => new_adapter cm1 end.
Lemma start1 : start cm1 (new_adapter cm1) = Ok a1.
Proof. reflexivity. Qed.
Lemma run1 : adapter_run gen (fr 3) Trio.hash_to_G2 1 policy cm1 a1.
Proof. eapply run_start; [apply run_new, reach1|apply start1]. Qed.
Lemma run2 : adapter_run gen (fr 3) Trio.hash_to_G2 1 policy cm2 a1.
Proof. eapply run_committee; [apply run1|apply step_writer]. Qed.
Lemma run3 : adapter_run gen (fr 3) Trio.hash_to_G2 1 policy cm3 a1.
Proof. eapply run_committee; [apply run2|]. apply (step_admin _ _ cm2), Quartet.writers_distinct. Qed.
End Attested.


(** With three validators the attestation does not verify under a two-of-three key. *)
Module Single.
Definition cfg : DKGSessionConfig := epoch_config 1 Quartet.policy 1 (fps (active_members Quartet.roster)).
Definition key (i : nat) : ThresholdSigningKey :=
  key_of Attested.gen cfg Trio.sp (default [] (fps (active_members Quartet.roster) !! i)).
Definition adapter : DagBftAdapter :=
  {| a_sync := set_validator_set (new_sync Attested.cm1) (from_roster Quartet.roster); a_group_pk := None; a_backend := None;
     a_signing_keys := Some [key 0; key 1; key 2]; a_events := []; a_running := true; a_current_epoch := 1 |}.
End Single.

Lemma single_signer_attests_witness :
  process_decision (G2 := Fr) Trio.hash_to_G2 Single.adapter Attested.decision =
    Ok (to_ordered_batch Attested.decision 1, record_event Single.adapter
      (attestation Single.adapter (to_ordered_batch Attested.decision 1) Attested.bb
        (ps_signature (partial_sign Trio.hash_to_G2 (Single.key 0) Attested.bb DOMAIN_ATTESTATION)))) /\
  verify_batch_attestation (G1 := Fr) Trio.compress (Some Trio.lib)
    (ps_signature (partial_sign Trio.hash_to_G2 (Single.key 0) Attested.bb DOMAIN_ATTESTATION)) Attested.bb
    (group_pk (Single.key 0)) DOMAIN_ATTESTATION = false.
Proof.
  split; [|vm_compute; reflexivity].
  apply (single_signer_attests Trio.hash_to_G2 Quartet.roster Single.adapter (Single.key 0) [Single.key 1; Single.key 2] Attested.decision).
  - vm_compute. repeat constructor.
  - vm_compute. reflexivity.
  - reflexivity.
  - reflexivity.
  - intros i Hi. apply elem_of_union in Hi as [Hi|Hi%elem_of_singleton].
    + apply elem_of_union in Hi as [Hi%elem_of_singleton|Hi%elem_of_singleton]; subst i; vm_compute; split; discriminate || reflexivity.
    + subst i. vm_compute. split; discriminate || reflexivity.
  - vm_compute. reflexivity.
Defined.

Lemma evicted_silenced_witness :
  exists evs a', adapter_tick Attested.cm2 Attested.a1 11 0 = Ok (evs, a') /\ a_backend a' <> None /\
    map evicted_index evs = [Some 0].
Proof.
  destruct (evicted_silenced (G2 := Fr) Attested.gen (fr 3) Trio.hash_to_G2 1 Attested.policy Attested.cm2 Attested.a1 11 0 Attested.run2)
    as (evs & a' & Ht & _).
  exists evs, a'. split; [exact Ht|]. apply Ok_inj in Ht. rewrite <- (f_equal fst Ht : _ = evs), <- (f_equal snd Ht : _ = a').
  split; [vm_compute; discriminate|vm_compute; reflexivity].
Defined.

Lemma epoch_drops_pending_witness :
  exists h a evs a' eng', submit_transaction Attested.a1 (lit "pay") = Ok (h, a) /\
    adapter_tick Attested.cm3 a 12 0 = Ok (evs, a') /\ a_backend a' = Some eng' /\ eng_mempool eng' = [].
Proof.
  assert (exists h a eng, submit_transaction Attested.a1 (lit "pay") = Ok (h, a) /\ a_backend a = Some eng /\
    cs_current_epoch (a_sync a) = 1) as (h & a & eng & Hs & Hb & He).
  { eexists _, _, _. split; [reflexivity|]. split; reflexivity. }
  destruct (epoch_drops_pending (G2 := Fr) Attested.gen (fr 3) Trio.hash_to_G2 1 Attested.policy Attested.cm3 a eng 12 0)
    as (evs & a' & eng' & H1 & H2 & H3 & _).
  - eapply run_submit; [exact Attested.run3|exact Hs].
  - rewrite He. vm_compute. reflexivity.
  - exact Hb.
  - exists h, a, evs, a', eng'. split; [exact Hs|]. split; [exact H1|]. split; [exact H2|exact H3].
Defined.
