(* ===== verification/Receipt.v ===== *)
(** Approval receipts (src/src/ltp/receipt.py): the signed, content-addressed
    attestation of a protocol action that is anchored on chain.  [time.time()]
    is an argument of the two factories. *)

From S2P Require Import Prelude Float64 Sha3 Hashing Primitives Encoding MerkleTree MerkleLog Commitment.
Import CanonicalEncoder.

Inductive ReceiptType : Type :=
| COMMIT | MATERIALIZE | SHARD_AUDIT_PASS | KEY_ROTATION | DELETION | GOVERNANCE.
#[export] Instance ReceiptType_eq_dec : EqDecision ReceiptType.
Proof. solve_decision. Defined.

(** [ReceiptType.value] *)
Definition receipt_type_value (t : ReceiptType) : pystr :=
  match t with
  | COMMIT => lit "COMMIT" | MATERIALIZE => lit "MATERIALIZE" | SHARD_AUDIT_PASS => lit "SHARD_AUDIT_PASS"
  | KEY_ROTATION => lit "KEY_ROTATION" | DELETION => lit "DELETION" | GOVERNANCE => lit "GOVERNANCE"
  end.

Record ApprovalReceipt : Type := {
  ar_receipt_id : pystr;
  ar_receipt_type : ReceiptType;
  ar_entity_id : pystr;
  ar_action_summary : pystr;
  ar_timestamp : Float64.float64;
  ar_epoch : Z;
  ar_sequence : Z;
  ar_commitment_ref : pystr;
  ar_sth_ref : pystr;
  ar_merkle_root : bytes;
  ar_signer_vk : bytes;
  ar_signer_role : pystr;
  ar_target_chain_id : pystr;
  ar_valid_until : Float64.float64;
  ar_policy_hash : pystr;
  ar_signature : bytes
}.

(** The assignments [self.receipt_id = ...; self.signature = ...]. *)
Definition ar_signed (r : ApprovalReceipt) (id : pystr) (sig : bytes) : ApprovalReceipt := {|
  ar_receipt_id := id; ar_receipt_type := ar_receipt_type r; ar_entity_id := ar_entity_id r;
  ar_action_summary := ar_action_summary r; ar_timestamp := ar_timestamp r; ar_epoch := ar_epoch r;
  ar_sequence := ar_sequence r; ar_commitment_ref := ar_commitment_ref r; ar_sth_ref := ar_sth_ref r;
  ar_merkle_root := ar_merkle_root r; ar_signer_vk := ar_signer_vk r; ar_signer_role := ar_signer_role r;
  ar_target_chain_id := ar_target_chain_id r; ar_valid_until := ar_valid_until r;
  ar_policy_hash := ar_policy_hash r; ar_signature := sig |}.

Definition receipt_fields (r : ApprovalReceipt) : list fval := [
  Str (receipt_type_value (ar_receipt_type r)); Str (ar_entity_id r); Str (ar_action_summary r);
  F64 (ar_timestamp r); U64 (ar_epoch r); U64 (ar_sequence r); Str (ar_commitment_ref r); Str (ar_sth_ref r);
  Raw (ar_merkle_root r); LP (ar_signer_vk r); Str (ar_signer_role r); Str (ar_target_chain_id r);
  F64 (ar_valid_until r); Str (ar_policy_hash r)].

Definition canonical_bytes_unsigned (r : ApprovalReceipt) : result bytes :=
  encode Domain.DOMAIN_APPROVAL_RECEIPT (receipt_fields r).

Section Receipts.
Context `{CanonicalHash} (pq : pq_backend) (profile : SecurityProfile).

Definition compute_receipt_id (r : ApprovalReceipt) : result pystr :=
  content ← canonical_bytes_unsigned r; Ok (chash_str content).

Definition receipt_sign (r : ApprovalReceipt) (s : signer) : result ApprovalReceipt :=
  id ← compute_receipt_id r;
  content ← canonical_bytes_unsigned r;
  sig ← Domain.domain_sign pq profile Domain.DOMAIN_APPROVAL_RECEIPT s content;
  Ok (ar_signed r id sig).

Definition receipt_verify (r : ApprovalReceipt) (signer_vk : bytes) : result bool :=
  if bool_decide (ar_signature r = []) then Ok false
  else
    id ← compute_receipt_id r;
    if negb (bool_decide (ar_receipt_id r = id)) then Ok false
    else
      content ← canonical_bytes_unsigned r;
      Domain.domain_verify pq profile Domain.DOMAIN_APPROVAL_RECEIPT signer_vk content (ar_signature r).

Definition anchor_digest (r : ApprovalReceipt) : result bytes :=
  content ← canonical_bytes_unsigned r;
  Ok (Domain.domain_hash_bytes Domain.DOMAIN_ANCHOR_DIGEST (content ++ ar_signature r)).

(** The body shared word for word by [for_commit] and [for_materialize]. *)
Definition build_receipt (type : ReceiptType) (entity_id : pystr) (record : CommitmentRecord) (sth : SignedTreeHead)
  (signer_kp : KeyPair) (signer_role : pystr) (sequence : Z) (target_chain_id : pystr) (epoch : Z)
  (valid_seconds : Float64.float64) (policy_hash : pystr) (now : Float64.float64) : result ApprovalReceipt :=
  rb ← to_bytes record;
  sp ← MerkleLog.signable_payload sth;
  receipt_sign {|
    ar_receipt_id := []; ar_receipt_type := type; ar_entity_id := entity_id;
    ar_action_summary := receipt_type_value type ++ lit " entity " ++ take 16 entity_id ++ lit "...";
    ar_timestamp := now; ar_epoch := epoch; ar_sequence := sequence;
    ar_commitment_ref := chash_str rb; ar_sth_ref := chash_str sp; ar_merkle_root := sth_root_hash sth;
    ar_signer_vk := kp_vk signer_kp; ar_signer_role := signer_role; ar_target_chain_id := target_chain_id;
    ar_valid_until := f64_add now valid_seconds; ar_policy_hash := policy_hash; ar_signature := [] |}
    (FromKeyPair signer_kp).

Definition for_commit := build_receipt COMMIT.
Definition for_materialize := build_receipt MATERIALIZE.

(** ** Receipts bind what they attest *)
Lemma receipt_type_value_inj s t : receipt_type_value s = receipt_type_value t -> s = t.
Proof. by destruct s, t. Qed.

(** The content of a receipt: everything but the id and the signature. *)
Definition receipt_content (r : ApprovalReceipt) : ApprovalReceipt := ar_signed r [] [].

Lemma receipt_content_inj r1 r2 a b x y : length (ar_merkle_root r1) = length (ar_merkle_root r2) ->
  canonical_bytes_unsigned r1 = Ok a -> canonical_bytes_unsigned r2 = Ok b -> a ++ x = b ++ y ->
  receipt_content r1 = receipt_content r2 /\ x = y.
Proof.
  intros Hl Ha Hb E.
  assert (Forall2 same_shape (receipt_fields r1) (receipt_fields r2)) as Hs by (repeat constructor; done).
  destruct (encode_prefix _ _ _ _ _ _ _ Hs Ha Hb E) as [Hv ->]. split; [|done].
  unfold receipt_fields in Hv.
  repeat match goal with H : Forall2 _ (_ :: _) (_ :: _) |- _ => apply Forall2_cons in H as [? H] end.
  clear Ha Hb E Hs Hl. destruct r1, r2. cbn [same_value ar_receipt_type ar_entity_id ar_action_summary ar_timestamp ar_epoch
    ar_sequence ar_commitment_ref ar_sth_ref ar_merkle_root ar_signer_vk ar_signer_role ar_target_chain_id
    ar_valid_until ar_policy_hash] in *.
  match goal with H : Str (receipt_type_value _) = _ |- _ => injection H as H%receipt_type_value_inj end.
  unfold receipt_content, ar_signed. cbn. by simplify_eq.
Qed.

Lemma verified_nonempty vk m sig : 0 < dsa_sig_size profile ->
  MLDSA_verify pq profile vk m sig = Ok true -> sig <> [].
Proof.
  unfold MLDSA_verify. intros Hp. destruct (negb _); [done|]. destruct (negb _) eqn:E; [done|]. intros _ ->.
  apply negb_false_iff, Z.eqb_eq in E. change (len []) with 0 in E. lia.
Qed.

Lemma signs_for_verifies s vk m sig : signs_for pq profile s vk -> sign_with pq profile s m = Ok sig ->
  MLDSA_verify pq profile vk m sig = Ok true.
Proof. intros Hs E. destruct (Hs m) as (sig' & E' & Hv). congruence. Qed.

(** What [sign] returns: the same content, the content-addressed id, a
    signature that verifies. *)
Lemma receipt_sign_spec r s vk r' : 0 < dsa_sig_size profile -> signs_for pq profile s vk ->
  receipt_sign r s = Ok r' ->
  receipt_content r' = receipt_content r /\ compute_receipt_id r' = Ok (ar_receipt_id r') /\
  receipt_verify r' vk = Ok true.
Proof.
  intros Hp Hs. unfold receipt_sign, receipt_verify, compute_receipt_id, mbind, result_bind.
  destruct (canonical_bytes_unsigned r) as [content|] eqn:Ec; [|done].
  destruct (Domain.domain_sign _ _ _ _ _) as [sig|] eqn:Es; [|done]. intros <-%Ok_inj.
  assert (canonical_bytes_unsigned (ar_signed r (chash_str content) sig) = Ok content) as Ec' by exact Ec.
  rewrite Ec'. pose proof (signs_for_verifies _ _ _ _ Hs Es) as Hv. split; [done|]. split; [done|].
  cbn [ar_signature ar_receipt_id ar_signed]. rewrite bool_decide_eq_false_2 by (by eapply verified_nonempty).
  by rewrite bool_decide_eq_true_2.
Qed.

(** Arguments a receipt can be built from. *)
Record receiptable (record : CommitmentRecord) (sth : SignedTreeHead) (kp : KeyPair)
  (strs : list pystr) (sequence epoch : Z) (now until : Float64.float64) : Prop := {
  rb_record : is_ok (to_bytes record) = true;
  rb_sth : is_ok (MerkleLog.signable_payload sth) = true;
  rb_hash : Z.of_nat (length chash_prefix) + 1 + 2 * Z.of_nat digest_size < 2 ^ 32;
  rb_strs : Forall SignedEnvelope.u32_sized (kp_vk kp :: strs);
  rb_counters : 0 <= sequence < 2 ^ 64 /\ 0 <= epoch < 2 ^ 64;
  rb_times : Forall (fun t => wf_float t /\ f64_not_finite t = false) [now; until];
  rb_signer : signs_for pq profile (FromKeyPair kp) (kp_vk kp)
}.

Lemma emit_U64_ok v : 0 <= v < 2 ^ 64 -> is_ok (emit (U64 v)) = true.
Proof.
  intros Hv. simpl. unfold ranged, struct_pack. change (256 ^ Z.of_nat 8) with (2 ^ 64).
  destruct (Z.leb_spec 0 v), (Z.leb_spec v 18446744073709551615), (Z.ltb_spec v (2 ^ 64)); done || lia.
Qed.

Lemma receipt_sign_total r s vk : signs_for pq profile s vk ->
  (forall f, f ∈ receipt_fields r -> is_ok (emit f) = true) -> exists r', receipt_sign r s = Ok r'.
Proof.
  intros Hs Hf. destruct (encode_fields_total Domain.DOMAIN_APPROVAL_RECEIPT (receipt_fields r)) as [c Hc]; [done..|].
  unfold receipt_sign, compute_receipt_id, canonical_bytes_unsigned. rewrite Hc. unfold mbind, result_bind.
  destruct (Hs (Domain.DOMAIN_APPROVAL_RECEIPT ++ c)) as (sig & E & _). unfold Domain.domain_sign. rewrite E. by eexists.
Qed.

Lemma summary_u32 type eid :
  SignedEnvelope.u32_sized (receipt_type_value type ++ lit " entity " ++ take 16 eid ++ lit "...").
Proof.
  unfold SignedEnvelope.u32_sized. rewrite !length_app, length_take.
  assert (length (receipt_type_value type) <= 16)%nat by (destruct type; cbn; lia).
  change (length (lit " entity ")) with 8%nat. change (length (lit "...")) with 3%nat. lia.
Qed.

Lemma build_receipt_total type eid record sth kp role seq chain epoch secs ph now :
  receiptable record sth kp [eid; role; chain; ph] seq epoch now (f64_add now secs) ->
  exists r, build_receipt type eid record sth kp role seq chain epoch secs ph now = Ok r.
Proof.
  intros [Hr Hst Hh Hs [Hq He] Ht Hk]. unfold build_receipt, mbind, result_bind.
  rewrite (get_ok_eq [] _ Hr), (get_ok_eq [] _ Hst).
  repeat match goal with H : Forall _ (_ :: _) |- _ => inversion H; clear H; subst end. destruct_and?.
  eapply receipt_sign_total; [exact Hk|]. intros f Hin. unfold receipt_fields in Hin.
  cbn [ar_receipt_type ar_entity_id ar_action_summary ar_timestamp ar_epoch ar_sequence ar_commitment_ref ar_sth_ref
    ar_merkle_root ar_signer_vk ar_signer_role ar_target_chain_id ar_valid_until ar_policy_hash] in Hin.
  repeat (apply elem_of_cons in Hin as [->|Hin];
    [first [by apply emit_U64_ok | by apply SignedEnvelope.f64_is_ok | by apply SignedEnvelope.lp_is_ok | done
      | apply SignedEnvelope.lp_is_ok; by apply SignedEnvelope.chash_str_u32
      | apply SignedEnvelope.lp_is_ok, summary_u32 | by destruct type]|]).
  by apply not_elem_of_nil in Hin.
Qed.

Lemma ids_bind r1 r2 i : length (ar_merkle_root r1) = length (ar_merkle_root r2) ->
  (forall a b, canonical_bytes_unsigned r1 = Ok a -> canonical_bytes_unsigned r2 = Ok b -> collision_free [a; b]) ->
  compute_receipt_id r1 = Ok i -> compute_receipt_id r2 = Ok i -> receipt_content r1 = receipt_content r2.
Proof.
  unfold compute_receipt_id, mbind, result_bind. intros Hl Hc.
  destruct (canonical_bytes_unsigned r1) as [a|] eqn:Ea; [|done].
  destruct (canonical_bytes_unsigned r2) as [b|] eqn:Eb; [|done]. intros <-%Ok_inj E%Ok_inj.
  apply chash_str_inj in E. specialize (Hc a b eq_refl eq_refl b a). 
  assert (b = a) as -> by (apply Hc; [by right; left|by left|done]).
  by destruct (receipt_content_inj r1 r2 a a [] [] Hl Ea Eb eq_refl).
Qed.

Lemma verified_id r vk : receipt_verify r vk = Ok true -> compute_receipt_id r = Ok (ar_receipt_id r).
Proof.
  unfold receipt_verify. case_bool_decide; [done|]. destruct (compute_receipt_id r) as [i|]; [|done].
  cbn. case_bool_decide as E; [by rewrite E|done].
Qed.
Lemma anchor_bind r1 r2 : length (ar_merkle_root r1) = length (ar_merkle_root r2) ->
  (forall a b, canonical_bytes_unsigned r1 = Ok a -> canonical_bytes_unsigned r2 = Ok b ->
     collision_free [Domain.DOMAIN_ANCHOR_DIGEST ++ a ++ ar_signature r1;
                     Domain.DOMAIN_ANCHOR_DIGEST ++ b ++ ar_signature r2]) ->
  is_ok (anchor_digest r1) = true -> anchor_digest r2 = anchor_digest r1 ->
  receipt_content r2 = receipt_content r1 /\ ar_signature r2 = ar_signature r1.
Proof.
  unfold anchor_digest, mbind, result_bind. intros Hl Hc.
  destruct (canonical_bytes_unsigned r1) as [a|] eqn:Ea; [|done].
  destruct (canonical_bytes_unsigned r2) as [b|] eqn:Eb; [|done]. intros _ E%Ok_inj.
  specialize (Hc a b eq_refl eq_refl). apply Hc in E; [|by right; left|by left]. apply app_inv_head in E.
  by destruct (receipt_content_inj r2 r1 b a _ _ (eq_sym Hl) Eb Ea E).
Qed.
End Receipts.

(** Receipts are built, verify and bind.  From a record and a tree head that
    encode and a signer whose key works, both factories return a receipt; it
    verifies under the signer's key, refers to the record and the head it was
    built from, and every receipt with the same id that verifies under any
    key, or has the same anchor digest, has the same content, barring a
    collision among the strings hashed. *)
Theorem receipt_attests `{CanonicalHash} pq profile type eid record sth kp role seq chain epoch secs ph now :
  0 < dsa_sig_size profile ->
  receiptable pq profile record sth kp [eid; role; chain; ph] seq epoch now (f64_add now secs) ->
  exists r, build_receipt pq profile type eid record sth kp role seq chain epoch secs ph now = Ok r /\
    receipt_verify pq profile r (kp_vk kp) = Ok true /\
    (exists rb, to_bytes record = Ok rb /\ ar_commitment_ref r = chash_str rb) /\
    (exists sp, MerkleLog.signable_payload sth = Ok sp /\ ar_sth_ref r = chash_str sp) /\
    ar_merkle_root r = sth_root_hash sth /\ ar_entity_id r = eid /\ ar_receipt_type r = type /\
    forall r', length (ar_merkle_root r) = length (ar_merkle_root r') ->
      (forall a b, canonical_bytes_unsigned r = Ok a -> canonical_bytes_unsigned r' = Ok b ->
         collision_free [a; b; Domain.DOMAIN_ANCHOR_DIGEST ++ a ++ ar_signature r;
           Domain.DOMAIN_ANCHOR_DIGEST ++ b ++ ar_signature r']) ->
      (forall vk, receipt_verify pq profile r' vk = Ok true -> ar_receipt_id r' = ar_receipt_id r ->
         receipt_content r' = receipt_content r) /\
      (anchor_digest r' = anchor_digest r ->
         receipt_content r' = receipt_content r /\ ar_signature r' = ar_signature r).
Proof.
  intros Hsz Hok. destruct (build_receipt_total _ _ _ _ _ _ _ _ _ _ _ _ _ _ Hok : exists r, build_receipt pq profile type _ _ _ _ _ _ _ _ _ _ _ = _) as [r Er].
  exists r. split; [done|]. unfold build_receipt, mbind, result_bind in Er.
  destruct (to_bytes record) as [rb|] eqn:Erb; [|done].
  destruct (MerkleLog.signable_payload sth) as [sp|] eqn:Esp; [|done].
  destruct (receipt_sign_spec _ _ _ _ _ _ Hsz (rb_signer _ _ _ _ _ _ _ _ _ _ Hok) Er) as (Hc & Hi & Hv).
  pose proof (f_equal ar_commitment_ref Hc) as E1. pose proof (f_equal ar_sth_ref Hc) as E2.
  pose proof (f_equal ar_merkle_root Hc) as E3. pose proof (f_equal ar_entity_id Hc) as E4.
  pose proof (f_equal ar_receipt_type Hc) as E5. cbn in E1, E2, E3, E4, E5.
  split_and!; try done; [by eexists|by eexists|].
  intros r' Hl Hcf. split.
  - intros vk Hv' E. symmetry. apply (ids_bind r r' (ar_receipt_id r)); try done.
    + intros a b Ha Hb. eapply collision_free_sub; [|by apply (Hcf a b)]. set_solver.
    + rewrite <- E. by eapply verified_id.
  - intros E. apply anchor_bind; [done| | |done].
    2: { unfold compute_receipt_id in Hi. unfold anchor_digest. by destruct (canonical_bytes_unsigned r). }
    intros a b Ha Hb. eapply collision_free_sub; [|by apply (Hcf a b)]. set_solver.
Qed.

(** An operator, and the receipt of a commitment under the head of a small log. *)
Definition demo_signer : KeyPair := demo_keypair (lit "operator") 5.
Definition demo_sth : SignedTreeHead := MerkleLog.Demo.sth_at MerkleLog.Demo.log_fresh 0.
Definition demo_receipt : result ApprovalReceipt :=
  for_commit toy_pq demo_profile (lit "entity") demo_record demo_sth demo_signer (lit "operator") 1 (lit "ethereum") 0
    f64_hour (lit "policy") f64_epoch.

Lemma demo_receiptable : receiptable toy_pq demo_profile demo_record demo_sth demo_signer
  [lit "entity"; lit "operator"; lit "ethereum"; lit "policy"] 1 0 f64_epoch (f64_add f64_epoch f64_hour).
Proof.
  split.
  - by vm_compute.
  - by vm_compute.
  - by vm_compute.
  - repeat constructor; unfold SignedEnvelope.u32_sized; by vm_compute.
  - lia.
  - repeat constructor; try (by vm_compute); unfold wf_float; vm_compute; congruence.
  - apply dsa_pair_signs_keypair; [done|apply demo_dsa_pair].
Qed.

Lemma receipt_attests_witness :
  (r ← demo_receipt; receipt_verify toy_pq demo_profile r (demo_vk 5)) = Ok true /\
  exists r, demo_receipt = Ok r /\ receipt_verify toy_pq demo_profile r (demo_vk 5) = Ok true /\
    ar_merkle_root r = sth_root_hash demo_sth.
Proof.
  split; [by vm_compute|].
  destruct (receipt_attests toy_pq demo_profile COMMIT (lit "entity") demo_record demo_sth demo_signer (lit "operator") 1
    (lit "ethereum") 0 f64_hour (lit "policy") f64_epoch) as (r & Hr & Hv & _ & _ & Hm & _).
  - by vm_compute.
  - apply demo_receiptable.
  - exists r. split; [exact Hr|]. split; [exact Hv|exact Hm].
Defined.
