(* ===== verification/Governance.v ===== *)
(** Signer governance (src/src/ltp/governance.py): signer policies over approval
    receipts and operator votes on phase transitions, with the phase machine
    of enforcement.py ([GovernanceTransition]) the votes drive.  [time.time()]
    is an argument.  The optional on-chain client is absent: its calls are
    wrapped so that neither their result nor their failure reaches the
    manager. *)

From S2P Require Import Prelude Float64 Sha3 Hashing Primitives Encoding MerkleTree MerkleLog Commitment Receipt.
Import CanonicalEncoder.

(** * Signer policies *)
Record SignerEntry : Type := {
  se_signer_id : pystr;
  se_vk : bytes;
  se_roles : gset pystr;
  se_valid_from : Z;
  se_valid_until : Z;
  se_predecessor_vk : option bytes
}.

Record ApprovalRule : Type := {
  ru_action_type : pystr;
  ru_required_roles : gset pystr;
  ru_min_signers : Z;
  ru_max_age_seconds : Z
}.

Record SignerPolicy : Type := {
  sp_policy_id : pystr;
  sp_policy_version : Z;
  sp_signers : list SignerEntry;
  sp_approval_rules : list ApprovalRule;
  sp_policy_signature : bytes
}.

(** [sorted(roles)] *)
Definition sorted_roles (roles : gset pystr) : list pystr := sort_by str_leb (elements roles).

(** The encoder calls for a role set, a signer and a rule. *)
Definition roles_fields (roles : gset pystr) : list fval :=
  U32 (Z.of_nat (length (sorted_roles roles))) :: map Str (sorted_roles roles).
Definition signer_fields (s : SignerEntry) : list fval :=
  [Str (se_signer_id s); LP (se_vk s)] ++ roles_fields (se_roles s) ++
  [U64 (se_valid_from s); U64 (se_valid_until s); OptB (se_predecessor_vk s)].
Definition rule_fields (r : ApprovalRule) : list fval :=
  [Str (ru_action_type r)] ++ roles_fields (ru_required_roles r) ++
  [U32 (ru_min_signers r); U32 (ru_max_age_seconds r)].
Definition policy_fields (p : SignerPolicy) : list fval :=
  [U32 (sp_policy_version p); U32 (Z.of_nat (length (sp_signers p)))] ++
  concat (map signer_fields (sp_signers p)) ++
  [U32 (Z.of_nat (length (sp_approval_rules p)))] ++ concat (map rule_fields (sp_approval_rules p)).

Definition policy_canonical_bytes (p : SignerPolicy) : result bytes :=
  encode Domain.DOMAIN_SIGNER_POLICY (policy_fields p).

(** The first entry of a list with a property: the [for ... break] loops. *)
Definition first_signer (p : SignerPolicy) (vk : bytes) : option SignerEntry :=
  List.find (fun s => bool_decide (se_vk s = vk)) (sp_signers p).
Definition first_rule (p : SignerPolicy) (action : pystr) : option ApprovalRule :=
  List.find (fun r => bool_decide (ru_action_type r = action)) (sp_approval_rules p).

Definition is_signer_authorized (p : SignerPolicy) (vk : bytes) (action : pystr) (epoch : Z) : bool :=
  match first_signer p vk with
  | None => false
  | Some entry =>
      if negb ((se_valid_from entry <=? epoch) && (epoch <? se_valid_until entry)) then false
      else match first_rule p action with
           | None => false
           | Some rule => negb (bool_decide (se_roles entry ∩ ru_required_roles rule = ∅))
           end
  end.

Section Policies.
Context `{CanonicalHash} (pq : pq_backend) (profile : SecurityProfile).

Definition policy_hash (p : SignerPolicy) : result pystr :=
  content ← policy_canonical_bytes p; Ok (chash_str content).

Definition sign_policy (p : SignerPolicy) (authority : signer) : result SignerPolicy :=
  id ← policy_hash p;
  content ← policy_canonical_bytes p;
  sig ← Domain.domain_sign pq profile Domain.DOMAIN_SIGNER_POLICY authority content;
  Ok {| sp_policy_id := id; sp_policy_version := sp_policy_version p; sp_signers := sp_signers p;
        sp_approval_rules := sp_approval_rules p; sp_policy_signature := sig |}.

Definition verify_policy (p : SignerPolicy) (authority_vk : bytes) : result bool :=
  if bool_decide (sp_policy_signature p = []) then Ok false
  else
    content ← policy_canonical_bytes p;
    Domain.domain_verify pq profile Domain.DOMAIN_SIGNER_POLICY authority_vk content (sp_policy_signature p).

(** [verify_receipt] at time [now]. *)
Definition verify_receipt (p : SignerPolicy) (r : ApprovalReceipt) (now : Float64.float64) : result (bool * pystr) :=
  let action := receipt_type_value (ar_receipt_type r) in
  if negb (is_signer_authorized p (ar_signer_vk r) action (ar_epoch r))
  then Ok (false, lit "signer not authorized for " ++ action ++ lit " at epoch " ++ str_int (ar_epoch r))
  else
    let age := f64_sub now (ar_timestamp r) in
    let too_old := match first_rule p action with
                   | Some rule => if f64_gt_int age (ru_max_age_seconds rule) then Some rule else None
                   | None => None
                   end in
    match too_old with
    | Some rule => Ok (false, lit "receipt too old: " ++ fmt_fixed 0 age ++ lit "s > " ++
                                str_int (ru_max_age_seconds rule) ++ lit "s")
    | None =>
        ok ← receipt_verify pq profile r (ar_signer_vk r);
        if negb ok then Ok (false, lit "invalid signature") else Ok (true, [])
    end.
End Policies.

(** * The phase machine of enforcement.py *)
Record DecentralizationMetrics : Type := {
  active_operators : Z;
  hhi : Float64.float64;
  gini_coefficient : Float64.float64;
  governance_participation : Float64.float64;
  foundation_veto_active : bool
}.

Record PhaseTransitionRequirements : Type := {
  min_operators : Z;
  max_hhi : Float64.float64;
  max_gini : Float64.float64;
  min_governance_participation : Float64.float64
}.

(** 10000.0, 1.0, 0.0 and 2500.0, 0.65, 0.15. *)
Definition BOOTSTRAP_TO_GROWTH : PhaseTransitionRequirements := {|
  min_operators := 5; max_hhi := 0x40C3880000000000; max_gini := 0x3FF0000000000000;
  min_governance_participation := 0 |}.
Definition GROWTH_TO_MATURITY : PhaseTransitionRequirements := {|
  min_operators := 100; max_hhi := 0x40A3880000000000; max_gini := 0x3FE4CCCCCCCCCCCD;
  min_governance_participation := 0x3FC3333333333333 |}.

(** [GovernanceTransition]: the list [_transitions_completed]. *)
Definition transition_name (from_phase to_phase : pystr) : pystr := from_phase ++ lit "_to_" ++ to_phase.

Definition can_transition (completed : list pystr) (from_phase to_phase : pystr) (m : DecentralizationMetrics)
  : bool * list pystr :=
  let key := transition_name from_phase to_phase in
  if bool_decide (key ∈ completed) then (false, [lit "Transition already completed (irreversible)"])
  else
    let reqs := if bool_decide (key = lit "bootstrap_to_growth") then Some BOOTSTRAP_TO_GROWTH
                else if bool_decide (key = lit "growth_to_maturity") then Some GROWTH_TO_MATURITY else None in
    match reqs with
    | None => (false, [lit "Unknown transition: " ++ key])
    | Some q =>
        let unmet :=
          (if active_operators m <? min_operators q
           then [lit "Operators: " ++ str_int (active_operators m) ++ lit " < " ++ str_int (min_operators q)] else []) ++
          (if f64_gt (hhi m) (max_hhi q)
           then [lit "HHI: " ++ fmt_fixed 0 (hhi m) ++ lit " > " ++ fmt_fixed 0 (max_hhi q)] else []) ++
          (if f64_gt (gini_coefficient m) (max_gini q)
           then [lit "Gini: " ++ fmt_fixed 2 (gini_coefficient m) ++ lit " > " ++ fmt_fixed 2 (max_gini q)] else []) ++
          (if f64_lt (governance_participation m) (min_governance_participation q)
           then [lit "Governance participation: " ++ fmt_percent 1 (governance_participation m) ++ lit " < " ++
                 fmt_percent 1 (min_governance_participation q)] else []) in
        (bool_decide (unmet = []), unmet)
    end.

(** The completed transitions and the metrics object are mutated. *)
Definition execute_transition (completed : list pystr) (from_phase to_phase : pystr) (m : DecentralizationMetrics)
  : bool * list pystr * DecentralizationMetrics :=
  let '(can, _) := can_transition completed from_phase to_phase m in
  if negb can then (false, completed, m)
  else
    let m' := if bool_decide (to_phase = lit "maturity")
              then {| active_operators := active_operators m; hhi := hhi m; gini_coefficient := gini_coefficient m;
                      governance_participation := governance_participation m; foundation_veto_active := false |}
              else m in
    (true, completed ++ [transition_name from_phase to_phase], m').

(** * Operator votes *)
Record TransitionVote : Type := {
  tv_voter_vk_hash : pystr;
  tv_from_phase : pystr;
  tv_to_phase : pystr;
  tv_signature : bytes;
  tv_timestamp : Float64.float64;
  tv_voter_label : pystr
}.

(** [_operators] maps operator ids to key hashes, [_votes] transition keys to
    the votes in the order of arrival. *)
Record TransitionVoteManager : Type := {
  vm_required_ratio : Float64.float64;
  vm_operators : gmap pystr pystr;
  vm_votes : gmap pystr (list TransitionVote)
}.

Record tally : Type := {
  t_transition_key : pystr;
  t_votes : Z;
  t_total_operators : Z;
  t_required : Z;
  t_has_supermajority : bool
}.

Definition new_vote_manager (required_ratio : Float64.float64) : result TransitionVoteManager :=
  if negb (f64_gt required_ratio f64_zero && f64_ge f64_one required_ratio)
  then Err (ValueError "required_ratio must be in (0, 1]")
  else Ok {| vm_required_ratio := required_ratio; vm_operators := ∅; vm_votes := ∅ |}.

Definition register_operator (m : TransitionVoteManager) (operator_id vk_hash : pystr) : TransitionVoteManager :=
  {| vm_required_ratio := vm_required_ratio m; vm_operators := <[operator_id := vk_hash]> (vm_operators m);
     vm_votes := vm_votes m |}.

Definition operator_count (m : TransitionVoteManager) : Z := Z.of_nat (base.size (vm_operators m)).

Definition registered_hash (m : TransitionVoteManager) (h : pystr) : bool :=
  existsb (fun kv => bool_decide (kv.2 = h)) (map_to_list (vm_operators m)).

Definition votes_of (m : TransitionVoteManager) (key : pystr) : list TransitionVote := default [] (vm_votes m !! key).

(** [math.ceil(total_operators * required_ratio)] *)
Definition required_votes (total : Z) (ratio : Float64.float64) : result Z :=
  n ← f64_of_int total; f64_ceil (f64_mul n ratio).

Definition tally_unlocked (m : TransitionVoteManager) (key : pystr) : result tally :=
  let total := operator_count m in
  let vote_count := Z.of_nat (length (votes_of m key)) in
  required ← required_votes total (vm_required_ratio m);
  Ok {| t_transition_key := key; t_votes := vote_count; t_total_operators := total; t_required := required;
        t_has_supermajority := (required <=? vote_count) && (0 <? total) |}.

Definition get_tally := tally_unlocked.
Definition has_supermajority (m : TransitionVoteManager) (key : pystr) : result bool :=
  t ← tally_unlocked m key; Ok (t_has_supermajority t).

Section Votes.
Context `{CanonicalHash} (pq : pq_backend) (profile : SecurityProfile).

Definition vote_payload (from_phase to_phase : pystr) (vk : bytes) : bytes :=
  Domain.DOMAIN_GOVERNANCE_VOTE ++ from_phase ++ to_phase ++ vk.

Definition create_transition_vote (kp : KeyPair) (from_phase to_phase : pystr) (now : Float64.float64)
  : result TransitionVote :=
  sig ← KeyPair_sign pq profile kp (vote_payload from_phase to_phase (kp_vk kp));
  Ok {| tv_voter_vk_hash := chash_str (kp_vk kp); tv_from_phase := from_phase; tv_to_phase := to_phase;
        tv_signature := sig; tv_timestamp := now; tv_voter_label := kp_label kp |}.

Definition verify_transition_vote (vote : TransitionVote) (voter_vk : bytes) : result bool :=
  MLDSA_verify pq profile voter_vk (vote_payload (tv_from_phase vote) (tv_to_phase vote) voter_vk) (tv_signature vote).

(** [cast_vote].  The state is returned beside the result: the vote is
    recorded before the tally is computed. *)
Definition cast_vote (m : TransitionVoteManager) (key : pystr) (vote : TransitionVote) (voter_vk : option bytes)
  : result tally * TransitionVoteManager :=
  let verified := match voter_vk with
                  | None => Ok tt
                  | Some vk => ok ← verify_transition_vote vote vk;
                               if negb ok then Err (ValueError "Vote signature verification failed") else Ok tt
                  end in
  match verified with
  | Err e => (Err e, m)
  | Ok _ =>
      if negb (registered_hash m (tv_voter_vk_hash vote)) then (Err (ValueError "Voter is not a registered operator"), m)
      else
        let votes := votes_of m key in
        if bool_decide (tv_voter_vk_hash vote ∈ map tv_voter_vk_hash votes)
        then (Err (ValueError "Operator already voted"),
              {| vm_required_ratio := vm_required_ratio m; vm_operators := vm_operators m;
                 vm_votes := <[key := votes]> (vm_votes m) |})
        else
          let m' := {| vm_required_ratio := vm_required_ratio m; vm_operators := vm_operators m;
                       vm_votes := <[key := votes ++ [vote]]> (vm_votes m) |} in
          (tally_unlocked m' key, m')
  end.

(** [transition_key.split("->")] *)
Fixpoint split_arrow (acc : pystr) (s : pystr) : list pystr :=
  match s with
  | [] => [rev acc]
  | c :: s =>
      match s with
      | d :: s' => if (c =? 45) && (d =? 62) then rev acc :: split_arrow [] s' else split_arrow (c :: acc) s
      | [] => [rev (c :: acc)]
      end
  end.

(** [execute_if_ready] with a [GovernanceTransition]; [None] while the
    supermajority is missing. *)
Definition execute_if_ready (m : TransitionVoteManager) (key : pystr) (completed : list pystr)
  (metrics : DecentralizationMetrics) : result (option bool * list pystr * DecentralizationMetrics) :=
  ready ← has_supermajority m key;
  if negb ready then Ok (None, completed, metrics)
  else match split_arrow [] key with
       | [from_phase; to_phase] =>
           let '(can, _) := can_transition completed from_phase to_phase metrics in
           if negb can then Ok (Some false, completed, metrics)
           else
             let '(done, completed', metrics') := execute_transition completed from_phase to_phase metrics in
             Ok (Some done, completed', metrics')
       | _ => Err (ValueError "Invalid transition_key format")
       end.
End Votes.

(** ** The threshold *)
(** [2 / 3], the default ratio. *)
Definition two_thirds : Float64.float64 := 0x3FE5555555555555.

(** For up to 500 operators the floating-point threshold is the exact ceiling
    of two thirds. *)
Lemma required_exact n : 0 <= n <= 500 -> required_votes n two_thirds = Ok (- ((- (2 * n)) / 3)).
Proof.
  intros Hn.
  assert (forallb (fun i => bool_decide (required_votes (Z.of_nat i) two_thirds =
            Ok (- ((- (2 * Z.of_nat i)) / 3)))) (seq 0 501) = true) as Hall by (by vm_compute).
  rewrite forallb_forall in Hall. specialize (Hall (Z.to_nat n)). rewrite Z2Nat.id in Hall by lia.
  eapply bool_decide_eq_true, Hall. apply in_seq. lia.
Qed.

(** ** Unique decoding of policies *)
(** [out] is what the calls [fs] append. *)
Definition emits (fs : list fval) (out : bytes) : Prop :=
  exists bs, Forall2 (fun f b => emit f = Ok b) fs bs /\ out = concat bs.
(** A family of call sequences whose output determines the value it is for. *)
Definition prefix_free {A} (enc : A -> list fval) : Prop := forall x y a b r s,
  emits (enc x) a -> emits (enc y) b -> a ++ r = b ++ s -> x = y /\ r = s.

Lemma emits_app fs gs out : emits (fs ++ gs) out -> exists a b, emits fs a /\ emits gs b /\ out = a ++ b.
Proof.
  intros (bs & Hb & ->). apply Forall2_app_inv_l in Hb as (b1 & b2 & H1 & H2 & ->).
  exists (concat b1), (concat b2). rewrite concat_app. by split_and!; [eexists|eexists|].
Qed.

Lemma emits_shape fs gs a b r s : Forall2 same_shape fs gs -> emits fs a -> emits gs b -> a ++ r = b ++ s ->
  Forall2 same_value fs gs /\ r = s.
Proof. intros Hs (bs & Hb & ->) (cs & Hc & ->) E. by eapply concat_emit_prefix. Qed.

(** A concatenation decodes part by part. *)
Lemma prefix_free_app {A B C} (enc : A -> list fval) (f : A -> B) (g : A -> C) (ef : B -> list fval) (eg : C -> list fval) :
  (forall x, enc x = ef (f x) ++ eg (g x)) -> (forall x y, f x = f y -> g x = g y -> x = y) ->
  prefix_free ef -> prefix_free eg -> prefix_free enc.
Proof.
  intros He Hi Hf Hg x y a b r s. rewrite !He.
  intros (a1 & a2 & Ha1 & Ha2 & ->)%emits_app (b1 & b2 & Hb1 & Hb2 & ->)%emits_app E. rewrite <- !app_assoc in E.
  destruct (Hf _ _ _ _ _ _ Ha1 Hb1 E) as [E1 E2]. destruct (Hg _ _ _ _ _ _ Ha2 Hb2 E2) as [E3 ->]. auto.
Qed.

Lemma emits_list {A} (enc : A -> list fval) xs ys a b r s : prefix_free enc -> length xs = length ys ->
  emits (concat (map enc xs)) a -> emits (concat (map enc ys)) b -> a ++ r = b ++ s -> xs = ys /\ r = s.
Proof.
  intros He. revert ys a b. induction xs as [|x xs IH]; intros [|y ys] a b Hl; simpl; try done.
  { intros (bs & Hb & ->) (cs & Hc & ->). inversion Hb; inversion Hc. done. }
  intros (a1 & a2 & Ha1 & Ha2 & ->)%emits_app (b1 & b2 & Hb1 & Hb2 & ->)%emits_app E. rewrite <- !app_assoc in E.
  destruct (He _ _ _ _ _ _ Ha1 Hb1 E) as [-> E2]. simpl in Hl.
  destruct (IH ys a2 b2 ltac:(lia) Ha2 Hb2 E2) as [-> ->]. done.
Qed.

(** A list preceded by its length. *)
Definition counted {A} (enc : A -> list fval) (xs : list A) : list fval :=
  [U32 (Z.of_nat (length xs))] ++ concat (map enc xs).
Lemma prefix_free_counted {A} (enc : A -> list fval) : prefix_free enc -> prefix_free (counted enc).
Proof.
  intros He xs ys a b r s. unfold counted.
  intros (a1 & a2 & Ha1 & Ha2 & ->)%emits_app (b1 & b2 & Hb1 & Hb2 & ->)%emits_app E. rewrite <- !app_assoc in E.
  destruct (emits_shape [U32 _] [U32 _] _ _ _ _ ltac:(by repeat constructor) Ha1 Hb1 E) as [Hv E2].
  apply Forall2_cons in Hv as [Hv _]. cbn in Hv. injection Hv as Hv. eapply emits_list; [done| |done..]. lia.
Qed.

(** Fixed shapes decode. *)
Lemma prefix_free_fixed {A} (enc : A -> list fval) : (forall x y, Forall2 same_shape (enc x) (enc y)) ->
  (forall x y, Forall2 same_value (enc x) (enc y) -> x = y) -> prefix_free enc.
Proof. intros Hs Hv x y a b r s Ha Hb E. destruct (emits_shape _ _ _ _ _ _ (Hs x y) Ha Hb E). eauto. Qed.

Ltac fixed_fields := apply prefix_free_fixed; intros;
  [by repeat constructor
  |repeat match goal with H : Forall2 _ (_ :: _) (_ :: _) |- _ => apply Forall2_cons in H as [? H] end;
   cbn [same_value] in *; by destruct_and?; simplify_eq].

Lemma sorted_roles_inj a b : sorted_roles a = sorted_roles b -> a = b.
Proof.
  intros E. apply set_eq. intros x. rewrite <- !elem_of_elements.
  rewrite <- (elem_of_sort_by str_leb x (elements a)), <- (elem_of_sort_by str_leb x (elements b)).
  unfold sorted_roles in E. by rewrite E.
Qed.

Lemma roles_prefix_free : prefix_free roles_fields.
Proof.
  assert (prefix_free (counted (fun s : pystr => [Str s]))) as Hc by (apply prefix_free_counted; fixed_fields).
  assert (forall x, roles_fields x = counted (fun s => [Str s]) (sorted_roles x)) as Hr.
  { intros x. unfold roles_fields, counted. simpl. f_equal. generalize (sorted_roles x) as l.
    induction l as [|y l IH]; simpl; [done|by rewrite IH]. }
  intros x y a b r s. rewrite !Hr. intros Ha Hb E. destruct (Hc _ _ _ _ _ _ Ha Hb E) as [E' ->].
  by apply sorted_roles_inj in E'.
Qed.

Lemma signer_prefix_free : prefix_free signer_fields.
Proof.
  apply (prefix_free_app _ (fun s => (se_signer_id s, se_vk s))
    (fun s => (se_roles s, (se_valid_from s, se_valid_until s, se_predecessor_vk s)))
    (fun x => [Str x.1; LP x.2]) (fun x => roles_fields x.1 ++ [U64 x.2.1.1; U64 x.2.1.2; OptB x.2.2])).
  - done.
  - intros [] []; cbn. congruence.
  - apply prefix_free_fixed; [by repeat constructor|]. intros [x1 x2] [y1 y2] Hv.
    apply Forall2_cons in Hv as [E1 Hv]. apply Forall2_cons in Hv as [E2 _]. cbn in E1, E2. congruence.
  - apply (prefix_free_app _ fst snd roles_fields (fun x => [U64 x.1.1; U64 x.1.2; OptB x.2])); [done| |apply roles_prefix_free|].
    + intros [??] [??]; cbn; congruence.
    + apply prefix_free_fixed; [by repeat constructor|]. intros [[x1 x2] x3] [[y1 y2] y3] Hv.
      apply Forall2_cons in Hv as [E1 Hv]. apply Forall2_cons in Hv as [E2 Hv]. apply Forall2_cons in Hv as [E3 _].
      cbn in E1, E2, E3. congruence.
Qed.

Lemma rule_prefix_free : prefix_free rule_fields.
Proof.
  apply (prefix_free_app _ ru_action_type (fun s => (ru_required_roles s, (ru_min_signers s, ru_max_age_seconds s)))
    (fun x => [Str x]) (fun x => roles_fields x.1 ++ [U32 x.2.1; U32 x.2.2])).
  - done.
  - intros [] []; cbn. congruence.
  - fixed_fields.
  - apply (prefix_free_app _ fst snd roles_fields (fun x => [U32 x.1; U32 x.2])); [done| |apply roles_prefix_free|].
    + intros [??] [??]; cbn; congruence.
    + apply prefix_free_fixed; [by repeat constructor|]. intros [x1 x2] [y1 y2] Hv.
      apply Forall2_cons in Hv as [E1 Hv]. apply Forall2_cons in Hv as [E2 _]. cbn in E1, E2. congruence.
Qed.

(** What a policy says: everything but its id and signature. *)
Definition policy_content (p : SignerPolicy) : Z * list SignerEntry * list ApprovalRule :=
  (sp_policy_version p, sp_signers p, sp_approval_rules p).

Lemma policy_bytes_inj p q out : policy_canonical_bytes p = Ok out -> policy_canonical_bytes q = Ok out ->
  policy_content p = policy_content q.
Proof.
  intros (_ & bs & Hb & ->)%encode_fields_Ok (_ & cs & Hc & E%app_inv_head)%encode_fields_Ok.
  assert (prefix_free (fun x : Z * (list SignerEntry * list ApprovalRule) =>
    [U32 x.1] ++ counted signer_fields x.2.1 ++ counted rule_fields x.2.2)) as Hpf.
  { apply (prefix_free_app _ fst snd (fun v => [U32 v]) (fun x => counted signer_fields x.1 ++ counted rule_fields x.2));
      [done|intros [??] [??]; cbn; congruence|fixed_fields|].
    apply (prefix_free_app _ fst snd (counted signer_fields) (counted rule_fields));
      [done|intros [??] [??]; cbn; congruence|apply prefix_free_counted, signer_prefix_free
      |apply prefix_free_counted, rule_prefix_free]. }
  destruct (Hpf (sp_policy_version p, (sp_signers p, sp_approval_rules p))
    (sp_policy_version q, (sp_signers q, sp_approval_rules q)) (concat bs) (concat cs) [] []) as [Ep _].
  - exists bs. done.
  - exists cs. done.
  - by rewrite E.
  - unfold policy_content. congruence.
Qed.

(** A policy its authority signed verifies, carries its hash as id, and the
    hash binds the whole policy: version, every signer with its key, roles,
    window and predecessor, every rule; role sets count as sets. *)
Theorem policy_authentic `{CanonicalHash} pq profile p authority vk p' :
  0 < dsa_sig_size profile -> signs_for pq profile authority vk -> sign_policy pq profile p authority = Ok p' ->
  verify_policy pq profile p' vk = Ok true /\ policy_content p' = policy_content p /\
  policy_hash p' = Ok (sp_policy_id p') /\
  forall q, (forall a b, policy_canonical_bytes p' = Ok a -> policy_canonical_bytes q = Ok b -> collision_free [a; b]) ->
    policy_hash q = policy_hash p' -> policy_content q = policy_content p'.
Proof.
  intros Hsz Hs. unfold sign_policy, verify_policy, policy_hash, mbind, result_bind.
  destruct (policy_canonical_bytes p) as [content|] eqn:Ec; [|done].
  destruct (Domain.domain_sign _ _ _ _ _) as [sig|] eqn:Es; [|done]. intros <-%Ok_inj.
  match goal with |- context [policy_canonical_bytes ?x] =>
    assert (policy_canonical_bytes x = Ok content) as Ec' by exact Ec end.
  rewrite Ec'. cbn [sp_policy_signature sp_policy_id].
  pose proof (signs_for_verifies _ _ _ _ _ _ Hs Es) as Hv.
  rewrite bool_decide_eq_false_2 by (by eapply verified_nonempty). split_and!; try done.
  intros q Hc E. destruct (policy_canonical_bytes q) as [b|] eqn:Eb; [|done]. apply Ok_inj, chash_str_inj in E.
  assert (b = content) as -> by (apply (Hc content b eq_refl eq_refl); [by right; left|by left|done]).
  by eapply policy_bytes_inj.
Qed.

Lemma authorized_spec p vk action epoch : is_signer_authorized p vk action epoch = true <->
  exists entry rule role, first_signer p vk = Some entry /\ first_rule p action = Some rule /\
    se_valid_from entry <= epoch < se_valid_until entry /\
    role ∈ se_roles entry /\ role ∈ ru_required_roles rule.
Proof.
  unfold is_signer_authorized. destruct (first_signer p vk) as [entry|]; [|naive_solver].
  destruct (negb _) eqn:Ew; breflect.
  { split; [done|]. intros (e & ? & ? & [= <-] & _ & Hw & _). apply andb_false_iff in Ew as [?|?]; breflect; lia. }
  destruct (first_rule p action) as [rule|]; [|naive_solver]. rewrite negb_true_iff, bool_decide_eq_false. split.
  - intros Hne. apply set_choose_L in Hne as [role [? ?]%elem_of_intersection]. exists entry, rule, role. split_and!; done || lia.
  - intros (e & ru & role & [= <-] & [= <-] & _ & H1 & H2) E.
    apply (not_elem_of_empty (C := gset pystr) role). rewrite <- E. by apply elem_of_intersection.
Qed.

(** The policy check is exact: a receipt is accepted if and only if the first
    entry for its key is active at the receipt's epoch and shares a role with
    the first rule for its type, it is not older than that rule allows, and
    its id and signature verify under that key. *)
Theorem receipt_policy_exact `{CanonicalHash} pq profile p r now :
  let action := receipt_type_value (ar_receipt_type r) in
  verify_receipt pq profile p r now = Ok (true, []) <->
  exists entry rule role, first_signer p (ar_signer_vk r) = Some entry /\ first_rule p action = Some rule /\
    se_valid_from entry <= ar_epoch r < se_valid_until entry /\
    role ∈ se_roles entry /\ role ∈ ru_required_roles rule /\
    f64_gt_int (f64_sub now (ar_timestamp r)) (ru_max_age_seconds rule) = false /\
    receipt_verify pq profile r (ar_signer_vk r) = Ok true.
Proof.
  intros action. unfold verify_receipt. fold action.
  destruct (is_signer_authorized p (ar_signer_vk r) action (ar_epoch r)) eqn:Ea; simpl; cycle 1.
  { split; [done|]. intros (e & ru & role & ? & ? & ? & ? & ? & _). apply not_true_iff_false in Ea. destruct Ea.
    apply authorized_spec. naive_solver. }
  apply authorized_spec in Ea as (entry & rule & role & H1 & H2 & H3 & H4 & H5). rewrite H2.
  destruct (f64_gt_int _ _) eqn:Eg.
  { split; [by intros E%Ok_inj|]. intros (e & ru & role' & _ & Eru & _ & _ & _ & Hg & _). simplify_eq. congruence. }
  unfold mbind, result_bind. destruct (receipt_verify _ _ _ _) as [ok|] eqn:Ev; cycle 1.
  { split; [done|]. intros (? & ? & ? & ?). destruct_and?. congruence. }
  split.
  - destruct ok; [|by intros E%Ok_inj]. intros _. by exists entry, rule, role.
  - intros (e & ru & role' & _ & _ & _ & _ & _ & _ & E). by apply Ok_inj in E as ->.
Qed.

(** ** Votes *)
(** Managers whose operators register once, each with a key of its own. *)
Inductive vote_step `{CanonicalHash} (pq : pq_backend) (profile : SecurityProfile)
  : TransitionVoteManager -> TransitionVoteManager -> Prop :=
| step_register m id h : vm_operators m !! id = None -> registered_hash m h = false ->
    vote_step pq profile m (register_operator m id h)
| step_cast m key vote vk : vote_step pq profile m (cast_vote pq profile m key vote vk).2.

(** The operators who voted for a transition. *)
Definition voters (m : TransitionVoteManager) (key : pystr) : list pystr :=
  map fst (filter (fun kv => kv.2 ∈ map tv_voter_vk_hash (votes_of m key)) (map_to_list (vm_operators m))).

Record vote_inv (ratio : Float64.float64) (m : TransitionVoteManager) : Prop := {
  vi_ratio : vm_required_ratio m = ratio;
  vi_hashes : NoDup (map snd (map_to_list (vm_operators m)));
  vi_once : forall key, NoDup (map tv_voter_vk_hash (votes_of m key));
  vi_known : forall key v, v ∈ votes_of m key -> registered_hash m (tv_voter_vk_hash v) = true
}.

Lemma registered_hash_spec m h : registered_hash m h = true <-> h ∈ map snd (map_to_list (vm_operators m)).
Proof.
  unfold registered_hash. rewrite existsb_exists, elem_of_map. split.
  - intros (kv & Hin & E). apply bool_decide_eq_true in E. exists kv. split; [done|by apply list_elem_of_In].
  - intros (kv & -> & Hin). exists kv. split; [by apply list_elem_of_In|by apply bool_decide_eq_true].
Qed.

Lemma register_hashes m id h : vm_operators m !! id = None ->
  map snd (map_to_list (vm_operators (register_operator m id h))) ≡ₚ h :: map snd (map_to_list (vm_operators m)).
Proof. intros Hn. unfold register_operator. cbn. by rewrite map_to_list_insert. Qed.

Lemma votes_of_insert m key key' vs r ops :
  votes_of {| vm_required_ratio := r; vm_operators := ops; vm_votes := <[key := vs]> (vm_votes m) |} key' =
  if decide (key = key') then vs else votes_of m key'.
Proof. unfold votes_of. cbn. destruct (decide (key = key')) as [->|]; [by rewrite lookup_insert_eq|by rewrite lookup_insert_ne]. Qed.

Lemma vote_step_inv `{CanonicalHash} pq profile ratio m m' :
  vote_step pq profile m m' -> vote_inv ratio m -> vote_inv ratio m'.
Proof.
  intros Hst [Hr Hh Ho Hk]. destruct Hst as [m id h Hnew Hfresh|m key vote vk].
  - split; [done| |done|].
    + rewrite register_hashes by done. constructor; [|done]. by rewrite <- registered_hash_spec, Hfresh.
    + intros key v Hv. apply registered_hash_spec. rewrite register_hashes by done. right.
      apply registered_hash_spec. by eapply Hk.
  - unfold cast_vote. destruct (match vk with None => _ | _ => _ end); [|done].
    destruct (registered_hash m (tv_voter_vk_hash vote)) eqn:Er; [|done]. cbn [negb].
    case_bool_decide as Hd; split; cbn [snd vm_required_ratio vm_operators]; try done.
    + intros key'. rewrite votes_of_insert. destruct (decide _); [apply Ho|apply Ho].
    + intros key' v. rewrite votes_of_insert. destruct (decide _); apply Hk.
    + intros key'. rewrite votes_of_insert. destruct (decide _) as [->|]; [|apply Ho].
      rewrite map_app. apply NoDup_app. split_and!; [apply Ho| |apply NoDup_singleton].
      intros x Hx ->%list_elem_of_singleton. done.
    + intros key' v. rewrite votes_of_insert. destruct (decide _) as [->|]; [|apply Hk].
      intros [Hv| ->%list_elem_of_singleton]%elem_of_app; [by eapply Hk|exact Er].
Qed.

(** One voter per vote. *)
Lemma voters_length ratio m key : vote_inv ratio m -> length (voters m key) = length (votes_of m key).
Proof.
  intros [_ Hh Ho Hk]. unfold voters. rewrite length_map. rewrite <- (length_map tv_voter_vk_hash (votes_of m key)).
  set (hs := map tv_voter_vk_hash (votes_of m key)) in *. set (kvs := map_to_list (vm_operators m)) in *.
  rewrite <- (length_map snd (filter _ kvs)). apply Permutation_length, NoDup_Permutation.
  - clearbody kvs. clear -Hh. induction kvs as [|kv kvs IH]; [constructor|]. simpl in Hh. apply NoDup_cons in Hh as [Hn Hh].
    rewrite filter_cons. destruct (decide _); [|by apply IH]. simpl. constructor; [|by apply IH].
    intros (kv' & E & [_ Hin]%list_elem_of_filter)%elem_of_map. apply Hn. rewrite E. apply elem_of_map. by exists kv'.
  - apply Ho.
  - intros h. rewrite elem_of_map. split.
    + intros (kv & -> & [Hin _]%list_elem_of_filter). done.
    + intros Hin. pose proof Hin as (v & -> & Hv)%elem_of_map. apply Hk, registered_hash_spec, elem_of_map in Hv as (kv & E & Hkv).
      exists kv. split; [done|]. apply list_elem_of_filter. by rewrite <- E.
Qed.

(** Supermajority means two thirds of the operators.  As long as operators
    register once and under distinct keys, and whatever votes are cast, a
    transition has its supermajority if and only if at least two thirds of
    the registered operators voted for it, each counted once; the threshold
    computed in floating point is exact up to 500 operators. *)
Theorem supermajority_exact `{CanonicalHash} pq profile m0 m key :
  new_vote_manager two_thirds = Ok m0 -> rtc (vote_step pq profile) m0 m ->
  0 < operator_count m <= 500 ->
  NoDup (voters m key) /\ (forall id, id ∈ voters m key -> is_Some (vm_operators m !! id)) /\
  exists b, has_supermajority m key = Ok b /\
    (b = true <-> 2 * operator_count m <= 3 * Z.of_nat (length (voters m key))).
Proof.
  intros E0 Hrun Hn. assert (vote_inv two_thirds m) as Hi.
  { assert (vote_inv two_thirds m0) as Hi0.
    { vm_compute in E0. apply Ok_inj in E0 as <-. split; try done; try constructor. intros key' v Hv. by apply not_elem_of_nil in Hv. }
    clear E0 Hn. induction Hrun as [|m1 m2 m3 Hst _ IH]; [done|]. apply IH. by eapply vote_step_inv. }
  split_and!.
  - unfold voters. eapply NoDup_fmap_fst; [|apply NoDup_filter, NoDup_map_to_list].
    intros x y1 y2 [_ H1]%list_elem_of_filter [_ H2]%list_elem_of_filter.
    apply elem_of_map_to_list in H1, H2. congruence.
  - intros id (kv & -> & [_ Hin]%list_elem_of_filter)%elem_of_map. exists kv.2. apply elem_of_map_to_list. by destruct kv.
  - unfold has_supermajority, tally_unlocked. rewrite (vi_ratio _ _ Hi), required_exact by lia. cbn.
    eexists. split; [done|]. rewrite (voters_length two_thirds) by done.
    rewrite andb_true_iff, Z.leb_le, Z.ltb_lt.
    pose proof (Z.div_mod (- (2 * operator_count m)) 3). pose proof (Z.mod_pos_bound (- (2 * operator_count m)) 3). lia.
Qed.

(** A verified vote does not show who voted: whoever holds any key pair can
    cast, with signature verification on, a vote in the name of every
    registered operator that has not voted yet, for phases of its own choice
    on any transition key; the vote is recorded. *)
Theorem vote_forgeable `{CanonicalHash} pq profile m key victim kp from_phase to_phase :
  signs_for pq profile (FromKeyPair kp) (kp_vk kp) ->
  registered_hash m victim = true -> victim ∉ map tv_voter_vk_hash (votes_of m key) ->
  exists vote, tv_voter_vk_hash vote = victim /\ tv_from_phase vote = from_phase /\ tv_to_phase vote = to_phase /\
    verify_transition_vote pq profile vote (kp_vk kp) = Ok true /\
    votes_of (cast_vote pq profile m key vote (Some (kp_vk kp))).2 key = votes_of m key ++ [vote].
Proof.
  intros Hs Hreg Hnew. destruct (Hs (vote_payload from_phase to_phase (kp_vk kp))) as (sig & _ & Hv).
  set (vote := {| tv_voter_vk_hash := victim; tv_from_phase := from_phase; tv_to_phase := to_phase;
    tv_signature := sig; tv_timestamp := f64_zero; tv_voter_label := [] |}).
  assert (verify_transition_vote pq profile vote (kp_vk kp) = Ok true) as Hvote by exact Hv.
  exists vote. split_and!; try done. unfold cast_vote. rewrite Hvote. unfold mbind, result_bind. cbn [negb].
  change (tv_voter_vk_hash vote) with victim. rewrite Hreg. cbn [negb].
  rewrite bool_decide_eq_false_2 by done. cbn [snd]. rewrite votes_of_insert. by rewrite decide_True.
Qed.

(** ** Phases *)
(** The states the phase machine goes through. *)
Inductive phase_step : list pystr -> list pystr -> Prop :=
| step_phase completed from_phase to_phase m :
    phase_step completed (execute_transition completed from_phase to_phase m).1.2.

Lemma execute_transition_spec completed from_phase to_phase m :
  let '(ok, completed', m') := execute_transition completed from_phase to_phase m in
  let key := transition_name from_phase to_phase in
  (ok = false -> completed' = completed /\ m' = m) /\
  (ok = true -> completed' = completed ++ [key] /\ key ∉ completed /\
     exists q, (key = lit "bootstrap_to_growth" /\ q = BOOTSTRAP_TO_GROWTH \/
                key = lit "growth_to_maturity" /\ q = GROWTH_TO_MATURITY) /\
       min_operators q <= active_operators m /\ f64_gt (hhi m) (max_hhi q) = false /\
       f64_gt (gini_coefficient m) (max_gini q) = false /\
       f64_lt (governance_participation m) (min_governance_participation q) = false).
Proof.
  unfold execute_transition, can_transition. set (key := transition_name from_phase to_phase).
  destruct (bool_decide (key ∈ completed)) eqn:Ek; [done|]. apply bool_decide_eq_false in Ek.
  destruct (if bool_decide (key = lit "bootstrap_to_growth") then _ else _) as [q|] eqn:Eq; [|done].
  assert (key = lit "bootstrap_to_growth" /\ q = BOOTSTRAP_TO_GROWTH \/
          key = lit "growth_to_maturity" /\ q = GROWTH_TO_MATURITY) as Hq.
  { revert Eq. destruct (bool_decide (key = lit "bootstrap_to_growth")) eqn:E1; [|destruct (bool_decide (key = lit "growth_to_maturity")) eqn:E2; [|done]];
      intros [= <-]; breflect; auto. }
  clear Eq. destruct (active_operators m <? min_operators q) eqn:E1; [done|].
  destruct (f64_gt (hhi m) (max_hhi q)) eqn:E2; [done|].
  destruct (f64_gt (gini_coefficient m) (max_gini q)) eqn:E3; [done|].
  destruct (f64_lt (governance_participation m) (min_governance_participation q)) eqn:E4; [done|].
  cbn [app bool_decide]. rewrite bool_decide_eq_true_2 by done. cbn [negb]. split; [done|].
  intros _. split; [done|]. split; [done|]. exists q. breflect. auto.
Qed.

Definition phases_wf (completed : list pystr) : Prop :=
  NoDup completed /\ completed ⊆ [lit "bootstrap_to_growth"; lit "growth_to_maturity"].

Lemma phases_ok c1 c2 : rtc phase_step c1 c2 -> phases_wf c1 -> phases_wf c2.
Proof.
  induction 1 as [|c1 c2 c3 Hst _ IH]; [done|]. intros [Hnd Hsub]. apply IH. clear IH.
  destruct Hst as [c from_phase to_phase m]. pose proof (execute_transition_spec c from_phase to_phase m) as Hx.
  destruct (execute_transition _ _ _ _) as [[[] c'] m']; cbn; [|by destruct Hx as [[-> _] _]].
  destruct Hx as [_ (-> & Hk & q & Hq & _)]; [done|]. split.
  - apply NoDup_app. split_and!; [done| |apply NoDup_singleton]. by intros x Hx ->%list_elem_of_singleton.
  - intros x [Hx| ->%list_elem_of_singleton]%elem_of_app; [by apply Hsub|].
    destruct Hq as [[-> _]|[-> _]]; [by left|by right; left].
Qed.

(** Phase transitions are one-way: in every run of the machine each of the
    two known transitions is completed at most once, nothing else is, and a
    completed transition stays completed.  *)
Theorem phases_irreversible completed completed' : rtc phase_step [] completed -> rtc phase_step completed completed' ->
  NoDup completed /\ completed ⊆ [lit "bootstrap_to_growth"; lit "growth_to_maturity"] /\
  (length completed <= 2)%nat /\ completed `prefix_of` completed'.
Proof.
  intros Hrun Hmore.
  destruct (phases_ok [] completed Hrun) as [Hnd Hsub]; [split; [constructor|set_solver]|].
  split_and!; [done|done| |].
  - by apply (submseteq_length completed [lit "bootstrap_to_growth"; lit "growth_to_maturity"]), NoDup_submseteq.
  - clear Hrun Hnd Hsub. induction Hmore as [|c1 c2 c3 Hst _ IH]; [done|]. etrans; [|exact IH].
    destruct Hst as [c from_phase to_phase m]. pose proof (execute_transition_spec c from_phase to_phase m) as Hx.
    destruct (execute_transition _ _ _ _) as [[[] c'] m']; cbn; [|by destruct Hx as [[-> _] _]].
    destruct Hx as [_ (-> & _)]; [done|]. by apply prefix_app_r.
Qed.

(** * Running it *)
Module GovDemo.
Definition authority : KeyPair := demo_keypair (lit "authority") 2.
Definition entry : SignerEntry := {| se_signer_id := lit "operator"; se_vk := demo_vk 5;
  se_roles := {[lit "operator"; lit "auditor"]}; se_valid_from := 0; se_valid_until := 10; se_predecessor_vk := None |}.
Definition rule : ApprovalRule := {| ru_action_type := lit "COMMIT"; ru_required_roles := {[lit "operator"]};
  ru_min_signers := 2; ru_max_age_seconds := 7200 |}.
Definition policy : SignerPolicy := {| sp_policy_id := []; sp_policy_version := 1; sp_signers := [entry];
  sp_approval_rules := [rule]; sp_policy_signature := [] |}.
Definition signed_policy : SignerPolicy :=
  get_ok policy (sign_policy toy_pq demo_profile policy (FromKeyPair authority)).
Definition receipt : ApprovalReceipt :=
  get_ok {| ar_receipt_id := []; ar_receipt_type := COMMIT; ar_entity_id := []; ar_action_summary := [];
     ar_timestamp := 0; ar_epoch := 0; ar_sequence := 0; ar_commitment_ref := []; ar_sth_ref := [];
     ar_merkle_root := []; ar_signer_vk := []; ar_signer_role := []; ar_target_chain_id := [];
     ar_valid_until := 0; ar_policy_hash := []; ar_signature := [] |} demo_receipt.

Definition hash_of (n : Z) : pystr := chash_str (demo_vk n).
Definition voter (n : Z) : KeyPair := demo_keypair (lit "op") n.
Definition vote_by (n : Z) : TransitionVote :=
  get_ok {| tv_voter_vk_hash := []; tv_from_phase := []; tv_to_phase := []; tv_signature := [];
            tv_timestamp := 0; tv_voter_label := [] |}
    (create_transition_vote toy_pq demo_profile (voter n) (lit "bootstrap") (lit "growth") f64_epoch).
Definition KEY : pystr := lit "bootstrap->growth".
Definition m0 : TransitionVoteManager := {| vm_required_ratio := two_thirds; vm_operators := ∅; vm_votes := ∅ |}.
Definition registered : TransitionVoteManager :=
  register_operator (register_operator (register_operator m0 (lit "a") (hash_of 1)) (lit "b") (hash_of 2)) (lit "c") (hash_of 3).
Definition cast (m : TransitionVoteManager) (n : Z) : TransitionVoteManager :=
  (cast_vote toy_pq demo_profile m KEY (vote_by n) (Some (demo_vk n))).2.
Definition metrics (ops : Z) : DecentralizationMetrics := {| active_operators := ops; hhi := f64_one; gini_coefficient := f64_zero;
  governance_participation := f64_one; foundation_veto_active := true |}.
End GovDemo.
Import GovDemo.

Lemma policy_authentic_witness :
  verify_policy toy_pq demo_profile signed_policy (demo_vk 2) = Ok true /\
  policy_hash signed_policy = Ok (sp_policy_id signed_policy).
Proof.
  destruct (policy_authentic toy_pq demo_profile policy (FromKeyPair authority) (demo_vk 2) signed_policy) as (Hv & _ & Hi & _).
  - by vm_compute.
  - apply (dsa_pair_signs_keypair toy_pq demo_profile authority); [done|apply demo_dsa_pair].
  - by vm_compute.
  - split; [exact Hv|exact Hi].
Defined.

(** The policy accepts an hour after the receipt expired, although its rule
    asks for two signers. *)
Example expired_receipt_accepted :
  f64_ge (f64_add f64_epoch f64_hour) (ar_valid_until receipt) = true /\ ru_min_signers rule = 2 /\
  verify_receipt toy_pq demo_profile policy receipt (f64_add f64_epoch f64_hour) = Ok (true, []) /\
  verify_receipt toy_pq demo_profile policy receipt (f64_add (f64_add f64_epoch f64_hour) (f64_add f64_hour f64_one)) =
    Ok (false, lit "receipt too old: 7201s > 7200s").
Proof. by vm_compute. Qed.

Lemma registered_reach : rtc (vote_step toy_pq demo_profile) m0 registered.
Proof.
  eapply rtc_l; [by apply (step_register _ _ m0 (lit "a") (hash_of 1)); vm_compute|].
  eapply rtc_l; [by apply (step_register _ _ _ (lit "b") (hash_of 2)); vm_compute|].
  eapply rtc_l; [by apply (step_register _ _ _ (lit "c") (hash_of 3)); vm_compute|]. apply rtc_refl.
Qed.

Lemma demo_reach : rtc (vote_step toy_pq demo_profile) m0 (cast (cast registered 1) 2).
Proof.
  etrans; [exact registered_reach|]. apply (rtc_l _ _ (cast registered 1)); [apply step_cast|].
  apply (rtc_l _ _ (cast (cast registered 1) 2)); [apply step_cast|]. apply rtc_refl.
Qed.

Lemma supermajority_exact_witness :
  has_supermajority (cast (cast registered 1) 2) KEY = Ok true /\ has_supermajority (cast registered 1) KEY = Ok false /\
  NoDup (voters (cast (cast registered 1) 2) KEY) /\
  exists b, has_supermajority (cast (cast registered 1) 2) KEY = Ok b /\
    (b = true <-> 2 * operator_count (cast (cast registered 1) 2) <=
                  3 * Z.of_nat (length (voters (cast (cast registered 1) 2) KEY))).
Proof.
  split; [by vm_compute|]. split; [by vm_compute|].
  destruct (supermajority_exact toy_pq demo_profile m0 (cast (cast registered 1) 2) KEY) as (Hn & _ & Hb).
  - by vm_compute.
  - exact demo_reach.
  - split; vm_compute; congruence.
  - split; [exact Hn|exact Hb].
Defined.

(** One of three operators reaches the supermajority alone by voting,
    registering a new key and voting again. *)
Example rekeyed_operator_votes_twice :
  has_supermajority (cast (register_operator (cast registered 1) (lit "a") (hash_of 4)) 4) KEY = Ok true.
Proof. by vm_compute. Qed.

Lemma vote_forgeable_witness : exists vote, tv_voter_vk_hash vote = hash_of 2 /\ tv_from_phase vote = lit "x" /\
  tv_to_phase vote = lit "y" /\ verify_transition_vote toy_pq demo_profile vote (demo_vk 77) = Ok true /\
  votes_of (cast_vote toy_pq demo_profile registered KEY vote (Some (demo_vk 77))).2 KEY = votes_of registered KEY ++ [vote].
Proof.
  apply (vote_forgeable toy_pq demo_profile registered KEY (hash_of 2) (voter 77) (lit "x") (lit "y")).
  - apply (dsa_pair_signs_keypair toy_pq demo_profile (voter 77)); [done|apply demo_dsa_pair].
  - by vm_compute.
  - apply (bool_decide_unpack _). by vm_compute.
Defined.

(** The phase machine never compares the origin with the current phase. *)
Example maturity_before_growth :
  execute_if_ready {| vm_required_ratio := two_thirds; vm_operators := {[lit "a" := hash_of 1]};
      vm_votes := {[lit "growth->maturity" := [vote_by 1]]} |} (lit "growth->maturity") [] (metrics 100) =
    Ok (Some true, [lit "growth_to_maturity"],
        {| active_operators := 100; hhi := f64_one; gini_coefficient := f64_zero;
           governance_participation := f64_one; foundation_veto_active := false |}).
Proof. by vm_compute. Qed.

Lemma phases_irreversible_witness :
  let c := [lit "bootstrap_to_growth"] in
  NoDup c /\ c ⊆ [lit "bootstrap_to_growth"; lit "growth_to_maturity"] /\ (length c <= 2)%nat /\ c `prefix_of` c.
Proof.
  apply phases_irreversible; [|apply rtc_refl].
  eapply rtc_l; [apply (step_phase [] (lit "bootstrap") (lit "growth") (metrics 5))|]. apply rtc_refl.
Defined.
