(* ===== verification/Bridge.v ===== *)
(** The message bridge (src/src/ltp/bridge/): message.py, the source-chain
    anchor (anchor.py), the untrusted relayer (relayer.py) and the
    destination-chain materializer (materializer.py), over the transfer
    protocol, receipts, envelopes, signer policies and sequence trackers.

    The three parties share one [LTPProtocol] object, which is passed through
    their operations.  An operation that raises leaves its own party's state
    as the code does; of the protocol state it returns nothing then.  Clock
    readings are arguments, in the order in which the code takes them. *)

From S2P Require Import Prelude Erasure Float64 Sha3 Hashing Primitives Encoding MerkleTree MerkleLog Commitment Network Protocol Sequencing Receipt Governance.

(** * message.py *)
Record BridgeMessage (payload : Type) : Type := {
  bm_msg_type : pystr;
  bm_source_chain : pystr;
  bm_dest_chain : pystr;
  bm_sender : pystr;
  bm_recipient : pystr;
  bm_payload : payload;
  bm_nonce : Z;
  bm_timestamp : Float64.float64
}.
Arguments bm_msg_type {payload}.
Arguments bm_source_chain {payload}.
Arguments bm_dest_chain {payload}.
Arguments bm_sender {payload}.
Arguments bm_recipient {payload}.
Arguments bm_payload {payload}.
Arguments bm_nonce {payload}.
Arguments bm_timestamp {payload}.

(** [json.dumps(..., sort_keys=True, separators=(",", ":")).encode()] of the
    eight-field object, and [cls] applied to [json.loads].  [json_object] are
    the dictionaries JSON can write; reading what was written gives it back. *)
Class MessageJson : Type := {
  json_object : Type;
  to_canonical_bytes : BridgeMessage json_object -> bytes;
  from_bytes : bytes -> result (BridgeMessage json_object);
  message_roundtrip : forall m, from_bytes (to_canonical_bytes m) = Ok m;
  message_wf : forall m, wf_bytes (to_canonical_bytes m)
}.

Section Bridge.
Context `{CanonicalHash} `{KeyJson} `{MessageJson}.
Context (pq : pq_backend) (profile : SecurityProfile) (ihash : bytes -> bytes) (str_float : Float64.float64 -> pystr).

Record BridgeCommitment : Type := {
  bc_message : BridgeMessage json_object;
  bc_entity_id : pystr;
  bc_commitment_ref : pystr;
  bc_merkle_proof : InclusionProof;
  bc_source_block : Z
}.

Record RelayPacket : Type := {
  rp_sealed_key : bytes;
  rp_source_chain : pystr;
  rp_dest_chain : pystr;
  rp_nonce : Z;
  rp_source_block : Z;
  rp_entity_id : pystr;
  rp_relay_envelope : option SignedEnvelope.envelope
}.

(** * anchor.py *)
Record L1Anchor : Type := {
  an_operator_keypair : KeyPair;
  an_chain_id : pystr;
  an_policy_hash : pystr;
  an_sequence_tracker : SequenceTracker;
  an_block_counter : Z;
  an_sequence_counter : Z;
  an_nonce_hwm : gmap (pystr * pystr) Z
}.

(** 3600.0, the tracker's default and the window of a commit. *)
Definition new_anchor (operator : KeyPair) (chain policy_hash : pystr) : L1Anchor :=
  {| an_operator_keypair := operator; an_chain_id := chain; an_policy_hash := policy_hash;
     an_sequence_tracker := new_tracker chain f64_hour; an_block_counter := 0; an_sequence_counter := 0;
     an_nonce_hwm := ∅ |}.

(** The clock readings and the randomness of one [commit_message]: the expiry,
    the tracker, [commit] with its key and log, the receipt, the envelope. *)
Record anchor_env : Type := {
  ae_expiry : Float64.float64;
  ae_tracker : Float64.float64;
  ae_commit : Float64.float64;
  ae_cek : bytes;
  ae_log : Float64.float64;
  ae_receipt : Float64.float64;
  ae_envelope : Float64.float64
}.

Definition with_clog (st : LTPProtocol) (c : CommitmentLog.clog) : LTPProtocol :=
  {| network := network st; clog := c; default_n := default_n st; default_k := default_k st;
     entity_sizes := entity_sizes st; key_registry := key_registry st; issued_ceks := issued_ceks st |}.

Definition BRIDGE_SHAPE : pystr := lit "application/vnd.etp.bridge-message+json".
Definition bridge_entity (m : BridgeMessage json_object) : Entity :=
  {| content := to_canonical_bytes m; e_shape := BRIDGE_SHAPE |}.

(** The guards of [commit_message]: chain, nonce, sequence.  They change the
    anchor as they go. *)
Definition admit_message (an : L1Anchor) (m : BridgeMessage json_object) (env : anchor_env) : result () * L1Anchor :=
  if negb (bool_decide (bm_source_chain m = an_chain_id an))
  then (Err (ValueError "Message source_chain does not match anchor chain"), an)
  else
    let nonce_key := (bm_source_chain m, bm_sender m) in
    let current_nonce := default (-1) (an_nonce_hwm an !! nonce_key) in
    if bm_nonce m <=? current_nonce
    then (Err (ValueError "Nonce is not strictly increasing (replay detected)"), an)
    else
      let seq := an_sequence_counter an + 1 in
      let '((ok, _), tr) := validate_and_advance str_float (an_sequence_tracker an)
        {| signer_vk := kp_vk (an_operator_keypair an); sequence := seq; target_chain_id := an_chain_id an;
           valid_until := f64_add (ae_expiry env) f64_hour; now := ae_tracker env |} in
      let an' := {| an_operator_keypair := an_operator_keypair an; an_chain_id := an_chain_id an;
                    an_policy_hash := an_policy_hash an; an_sequence_tracker := tr;
                    an_block_counter := an_block_counter an; an_sequence_counter := seq;
                    an_nonce_hwm := <[nonce_key := bm_nonce m]> (an_nonce_hwm an) |} in
      (if ok then Ok tt else Err (ValueError "Sequence validation failed"), an').

Definition next_block (an : L1Anchor) : L1Anchor :=
  {| an_operator_keypair := an_operator_keypair an; an_chain_id := an_chain_id an;
     an_policy_hash := an_policy_hash an; an_sequence_tracker := an_sequence_tracker an;
     an_block_counter := an_block_counter an + 1; an_sequence_counter := an_sequence_counter an;
     an_nonce_hwm := an_nonce_hwm an |}.

(** The rest of [commit_message]: commit, receipt, envelope, inclusion proof. *)
Definition anchor_message (an : L1Anchor) (st : LTPProtocol) (m : BridgeMessage json_object) (n k : nat) (env : anchor_env)
  : result (BridgeCommitment * bytes * LTPProtocol) :=
  let content := to_canonical_bytes m in
  let operator := an_operator_keypair an in
  '(entity_id, record, cek, st) ←
    commit pq profile ihash st (bridge_entity m) operator (Some n) (Some k) (ae_commit env) (ae_cek env) (ae_log env);
  _ ← match latest_sth (CommitmentLog.merkle_log (clog st)) with
      | None => Ok None
      | Some sth =>
          r ← for_commit pq profile entity_id record sth operator (lit "operator") (an_sequence_counter an)
                (an_chain_id an) 0 f64_hour (an_policy_hash an) (ae_receipt env);
          Ok (Some r)
      end;
  _ ← SignedEnvelope.create_at pq profile Domain.DOMAIN_BRIDGE_MSG (kp_vk operator) (FromKeyPair operator) (kp_label operator)
        (lit "bridge-commit") content (ae_envelope env);
  proof ← CommitmentLog.get_inclusion_proof (clog st) entity_id;
  match proof with
  | None => Err RuntimeError
  | Some (proof, c) =>
      rb ← to_bytes record;
      Ok ({| bc_message := m; bc_entity_id := entity_id; bc_commitment_ref := take 64 (hex rb);
             bc_merkle_proof := proof; bc_source_block := an_block_counter an + 1 |}, cek, with_clog st c)
  end.

Definition commit_message (an : L1Anchor) (st : LTPProtocol) (m : BridgeMessage json_object) (n k : nat) (env : anchor_env)
  : result (BridgeCommitment * bytes * LTPProtocol) * L1Anchor :=
  let '(adm, an) := admit_message an m env in
  match adm with
  | Err e => (Err e, an)
  | Ok _ =>
      match anchor_message an st m n k env with
      | Err e => (Err e, an)
      | Ok out => (Ok out, next_block an)
      end
  end.

Definition last_receipt_sequence (an : L1Anchor) : Z := an_sequence_counter an.

(** * relayer.py *)
Record Relayer : Type := {
  re_policy : option SignerPolicy;
  re_relay_keypair : option KeyPair
}.

(** [relay]; [rnd] and [nonce] seal the key, [t_policy] and [t_env] are clock
    readings. *)
Definition relay (re : Relayer) (st : LTPProtocol) (c : BridgeCommitment) (cek : bytes) (l2_verifier : KeyPair)
  (rnd nonce : bytes) (t_policy t_env : Float64.float64) : result RelayPacket :=
  _ ← match re_policy re, re_relay_keypair re with
      | Some pol, Some kp =>
          epoch ← f64_int t_policy;
          if negb (is_signer_authorized pol (kp_vk kp) (lit "RELAY") epoch) then Err PermissionError else Ok tt
      | _, _ => Ok tt
      end;
  record ← or_raise (ValueError "Commitment record not found") (CommitmentLog.fetch (clog st) (bc_entity_id c));
  sealed_key ← lattice pq profile (bc_entity_id c) record cek l2_verifier None rnd nonce;
  envelope ← match re_relay_keypair re with
             | None => Ok None
             | Some kp =>
                 e ← SignedEnvelope.create_at pq profile Domain.DOMAIN_BRIDGE_MSG (kp_vk kp) (FromKeyPair kp) (kp_label kp)
                       (lit "bridge-relay") sealed_key t_env;
                 Ok (Some e)
             end;
  Ok {| rp_sealed_key := sealed_key; rp_source_chain := bm_source_chain (bc_message c);
        rp_dest_chain := bm_dest_chain (bc_message c); rp_nonce := bm_nonce (bc_message c);
        rp_source_block := bc_source_block c; rp_entity_id := bc_entity_id c; rp_relay_envelope := envelope |}.

(** * materializer.py *)
Record L2Materializer : Type := {
  mz_verifier_keypair : KeyPair;
  mz_chain_id : pystr;
  mz_required_confirmations : Z;
  mz_sequence_tracker : SequenceTracker;
  mz_current_l1_block : Z;
  mz_sequence_counter : Z;
  mz_seen_packets : gset (pystr * Z)
}.

Definition new_materializer (verifier : KeyPair) (chain : pystr) (confirmations : Z) : L2Materializer :=
  {| mz_verifier_keypair := verifier; mz_chain_id := chain; mz_required_confirmations := confirmations;
     mz_sequence_tracker := new_tracker chain f64_hour; mz_current_l1_block := 0; mz_sequence_counter := 0;
     mz_seen_packets := ∅ |}.

Definition set_l1_block_height (mz : L2Materializer) (height : Z) : L2Materializer :=
  {| mz_verifier_keypair := mz_verifier_keypair mz; mz_chain_id := mz_chain_id mz;
     mz_required_confirmations := mz_required_confirmations mz; mz_sequence_tracker := mz_sequence_tracker mz;
     mz_current_l1_block := height; mz_sequence_counter := mz_sequence_counter mz; mz_seen_packets := mz_seen_packets mz |}.

(** 86400.0 *)
Definition f64_day : Float64.float64 := 0x40F5180000000000.

(** Step 4: the materializer's own sequence number. *)
Definition advance_sequence (mz : L2Materializer) (t_until t_now : Float64.float64) : bool * L2Materializer :=
  let seq := mz_sequence_counter mz + 1 in
  let '((ok, _), tr) := validate_and_advance str_float (mz_sequence_tracker mz)
    {| signer_vk := kp_vk (mz_verifier_keypair mz); sequence := seq; target_chain_id := mz_chain_id mz;
       valid_until := f64_add t_until f64_day; now := t_now |} in
  (ok, {| mz_verifier_keypair := mz_verifier_keypair mz; mz_chain_id := mz_chain_id mz;
          mz_required_confirmations := mz_required_confirmations mz; mz_sequence_tracker := tr;
          mz_current_l1_block := mz_current_l1_block mz; mz_sequence_counter := seq;
          mz_seen_packets := mz_seen_packets mz |}).

Definition mark_seen (mz : L2Materializer) (key : pystr * Z) : L2Materializer :=
  {| mz_verifier_keypair := mz_verifier_keypair mz; mz_chain_id := mz_chain_id mz;
     mz_required_confirmations := mz_required_confirmations mz; mz_sequence_tracker := mz_sequence_tracker mz;
     mz_current_l1_block := mz_current_l1_block mz; mz_sequence_counter := mz_sequence_counter mz;
     mz_seen_packets := {[key]} ∪ mz_seen_packets mz |}.

(** Step 6: deserialize and compare with the packet. *)
Definition check_message (p : RelayPacket) (content : bytes) : result (option (BridgeMessage json_object)) :=
  match from_bytes content with
  | Err (ValueError _) | Err KeyError => Ok None
  | Err e => Err e
  | Ok m =>
      if negb (bool_decide (bm_source_chain m = rp_source_chain p)) then Ok None
      else if negb (bool_decide (bm_dest_chain m = rp_dest_chain p)) then Ok None
      else if negb (bm_nonce m =? rp_nonce p) then Ok None
      else Ok (Some m)
  end.

(** [materialize].  The envelope is verified without a drift bound, which reads
    no clock. *)
Definition bridge_materialize (mz : L2Materializer) (st : LTPProtocol) (p : RelayPacket)
  (t_until t_now : Float64.float64) : result (option (BridgeMessage json_object) * LTPProtocol) * L2Materializer :=
  if negb (bool_decide (rp_dest_chain p = mz_chain_id mz)) then (Ok (None, st), mz)
  else
    let packet_key := (rp_entity_id p, rp_nonce p) in
    if bool_decide (packet_key ∈ mz_seen_packets mz) then (Ok (None, st), mz)
    else
      match (match rp_relay_envelope p with
             | None => Ok true
             | Some env => SignedEnvelope.verify pq profile env None f64_zero
             end) with
      | Err e => (Err e, mz)
      | Ok false => (Ok (None, st), mz)
      | Ok true =>
          if mz_current_l1_block mz - rp_source_block p <? mz_required_confirmations mz then (Ok (None, st), mz)
          else
            let '(ok, mz) := advance_sequence mz t_until t_now in
            if negb ok then (Ok (None, st), mz)
            else
              match materialize pq profile ihash st (rp_sealed_key p) (mz_verifier_keypair mz) None with
              | Err e => (Err e, mz)
              | Ok (None, st) => (Ok (None, st), mz)
              | Ok (Some content, st) =>
                  match check_message p content with
                  | Err e => (Err e, mz)
                  | Ok None => (Ok (None, st), mz)
                  | Ok (Some m) => (Ok (Some m, st), mark_seen mz packet_key)
                  end
              end
      end.

(** ** What a commit leaves in the log *)
Lemma commit_appends st e sender n k ts random t eid record cek st1 :
  commit pq profile ihash st e sender n k ts random t = Ok (eid, record, cek, st1) ->
  exists r0 ref, CommitmentLog.append pq profile (clog st) r0 t = Ok (ref, record, clog st1).
Proof.
  unfold commit, mbind, result_bind. destruct (registry_register _ _); [|done]. destruct (compute_id _ _ _); [|done].
  destruct (ErasureCoder.encode _ _ _ _); [|done]. destruct (ShardEncryptor.generate_cek _ _) as [[cek' iss]|]; [|done].
  destruct (encrypt_shards _ _ _ _); [|done]. destruct (distribute_encrypted_shards _ _ _ _ _) as [[root net]|]; [|done].
  destruct (sign_record _ _ _ _) as [r0|]; [|done].
  destruct (CommitmentLog.append _ _ _ _ _) as [[[ref r'] c']|] eqn:Ea; [|done].
  intros E%Ok_inj. simplify_eq. exists r0, ref. exact Ea.
Qed.

Lemma append_latest c r t ref r' c' : CommitmentLog.append pq profile c r t = Ok (ref, r', c') ->
  exists sth sp, latest_sth (CommitmentLog.merkle_log c') = Some sth /\ MerkleLog.signable_payload sth = Ok sp.
Proof.
  unfold CommitmentLog.append. destruct (_ !! _); [done|]. unfold mbind, result_bind.
  destruct (to_bytes _); [|done]. destruct (log_append _ _) as [[idx ml]|]; [|done].
  unfold publish_sth. destruct (tree_root _) as [root tr]. unfold sth_sign, mbind, result_bind.
  destruct (sth_payload _ _ _ _) as [sp|] eqn:Ep; [|done]. destruct (sign_with _ _ _ _); [|done].
  intros E%Ok_inj. simplify_eq. eexists _, sp. unfold latest_sth. cbn [CommitmentLog.merkle_log log_sths].
  rewrite last_snoc. split; [done|exact Ep].
Qed.

(** ** Invariants of the two ends *)
Record anchor_inv (an : L1Anchor) : Prop := {
  ai_chain : Sequencing.chain_id (an_sequence_tracker an) = an_chain_id an;
  ai_seq : current_sequence (an_sequence_tracker an) (kp_vk (an_operator_keypair an)) <= an_sequence_counter an;
  ai_pos : 0 <= an_sequence_counter an
}.
Record mz_inv (mz : L2Materializer) : Prop := {
  zi_chain : Sequencing.chain_id (mz_sequence_tracker mz) = mz_chain_id mz;
  zi_seq : current_sequence (mz_sequence_tracker mz) (kp_vk (mz_verifier_keypair mz)) <= mz_sequence_counter mz
}.

Lemma anchor_inv_new op chain ph : anchor_inv (new_anchor op chain ph).
Proof. split; cbn; [done| |lia]. unfold current_sequence. cbn. rewrite lookup_empty. cbn. lia. Qed.

Lemma mz_inv_new v chain c : mz_inv (new_materializer v chain c).
Proof. split; cbn; [done|]. unfold current_sequence. cbn. rewrite lookup_empty. cbn. lia. Qed.

(** A tracker driven by a counter accepts every number in time. *)
Lemma tracker_counts tr vk seq chain until t : Sequencing.chain_id tr = chain -> current_sequence tr vk < seq ->
  let '(r, tr') := validate_and_advance str_float tr {| signer_vk := vk; sequence := seq; target_chain_id := chain;
    valid_until := until; now := t |} in
  (r.1 = negb (f64_ge t until)) /\ Sequencing.chain_id tr' = chain /\ current_sequence tr' vk <= seq.
Proof.
  intros Hc Hs. unfold validate_and_advance. cbn. rewrite bool_decide_eq_true_2 by done. cbn.
  destruct (f64_ge t until); cbn; [repeat split; done || lia|].
  unfold current_sequence in *. destruct (Z.leb_spec seq (default (-1) (hwm tr !! Domain.signer_fingerprint vk))); [lia|].
  cbn. rewrite lookup_insert_eq. cbn. repeat split; done || lia.
Qed.

Lemma admit_spec an m env : anchor_inv an ->
  let '(r, an') := admit_message an m env in
  anchor_inv an' /\ an_operator_keypair an' = an_operator_keypair an /\ an_chain_id an' = an_chain_id an /\
  an_policy_hash an' = an_policy_hash an /\ an_block_counter an' = an_block_counter an /\
  (r = Ok tt <-> bm_source_chain m = an_chain_id an /\
     default (-1) (an_nonce_hwm an !! (bm_source_chain m, bm_sender m)) < bm_nonce m /\
     f64_ge (ae_tracker env) (f64_add (ae_expiry env) f64_hour) = false) /\
  (r = Ok tt -> an_sequence_counter an' = an_sequence_counter an + 1) /\
  (forall key, default (-1) (an_nonce_hwm an !! key) <= default (-1) (an_nonce_hwm an' !! key)) /\
  (r = Ok tt -> default (-1) (an_nonce_hwm an' !! (bm_source_chain m, bm_sender m)) = bm_nonce m).
Proof.
  intros Hi. unfold admit_message. case_bool_decide as Hc; cbn; [|split_and!; try done; naive_solver].
  destruct (Z.leb_spec (bm_nonce m) (default (-1) (an_nonce_hwm an !! (bm_source_chain m, bm_sender m)))) as [Hle|Hlt].
  { split_and!; try done. split; [done|]. intros (_ & ? & _). lia. }
  pose proof (tracker_counts (an_sequence_tracker an) (kp_vk (an_operator_keypair an)) (an_sequence_counter an + 1)
    (an_chain_id an) (f64_add (ae_expiry env) f64_hour) (ae_tracker env) (ai_chain _ Hi)) as Ht.
  destruct (validate_and_advance _ _ _) as [[ok why] tr]. destruct Ht as (Ho & Htc & Hts); [pose proof (ai_seq _ Hi); lia|].
  cbn in Ho. cbn. assert (forall key, default (-1) (an_nonce_hwm an !! key) <=
    default (-1) (<[(bm_source_chain m, bm_sender m):=bm_nonce m]> (an_nonce_hwm an) !! key)) as Hm.
  { intros key. destruct (decide (key = (bm_source_chain m, bm_sender m))) as [->|];
      [rewrite lookup_insert_eq; cbn; lia|rewrite lookup_insert_ne by done; lia]. }
  split_and!; try done.
  - split; cbn; [done|done|]. pose proof (ai_pos _ Hi). lia.
  - destruct ok; symmetry in Ho; [apply negb_true_iff in Ho|apply negb_false_iff in Ho]; split; try done.
    intros (_ & _ & E). congruence.
  - intros _. by rewrite lookup_insert_eq.
Qed.

Lemma advance_spec mz t_until t_now : mz_inv mz ->
  let '(ok, mz') := advance_sequence mz t_until t_now in
  mz_inv mz' /\ ok = negb (f64_ge t_now (f64_add t_until f64_day)) /\
  mz_verifier_keypair mz' = mz_verifier_keypair mz /\ mz_chain_id mz' = mz_chain_id mz /\
  mz_required_confirmations mz' = mz_required_confirmations mz /\
  mz_current_l1_block mz' = mz_current_l1_block mz /\ mz_seen_packets mz' = mz_seen_packets mz.
Proof.
  intros Hi. unfold advance_sequence.
  pose proof (tracker_counts (mz_sequence_tracker mz) (kp_vk (mz_verifier_keypair mz)) (mz_sequence_counter mz + 1)
    (mz_chain_id mz) (f64_add t_until f64_day) t_now (zi_chain _ Hi)) as Ht.
  destruct (validate_and_advance _ _ _) as [[ok why] tr]. destruct Ht as (Ho & Htc & Hts); [pose proof (zi_seq _ Hi); lia|].
  split_and!; done.
Qed.

(** ** A message that can cross *)
Record bridgeable (op : KeyPair) (an : L1Anchor) (st : LTPProtocol) (m : BridgeMessage json_object) (n k : nat)
  (env : anchor_env) : Prop := {
  bg_commit : committable pq profile op st (bridge_entity m) (an_operator_keypair an) n k
                (ae_commit env) (ae_cek env) (ae_log env);
  bg_chain : bm_source_chain m = an_chain_id an;
  bg_nonce : default (-1) (an_nonce_hwm an !! (bm_source_chain m, bm_sender m)) < bm_nonce m;
  bg_clock : f64_ge (ae_tracker env) (f64_add (ae_expiry env) f64_hour) = false;
  bg_sizes : Forall SignedEnvelope.u32_sized [an_chain_id an; an_policy_hash an; to_canonical_bytes m];
  bg_count : an_sequence_counter an + 1 < 2 ^ 64;
  bg_times : Forall (fun t => wf_float t /\ f64_not_finite t = false)
               [ae_receipt env; f64_add (ae_receipt env) f64_hour; ae_envelope env]
}.

(** Everything [anchor_message] does after its guards goes through. *)
Lemma anchor_message_total op an st m n k env : aead_ok pq -> anchor_inv an -> 
  committable pq profile op st (bridge_entity m) (an_operator_keypair an) n k (ae_commit env) (ae_cek env) (ae_log env) ->
  Forall SignedEnvelope.u32_sized [an_chain_id an; an_policy_hash an; to_canonical_bytes m] ->
  an_sequence_counter an < 2 ^ 64 ->
  Forall (fun t => wf_float t /\ f64_not_finite t = false)
    [ae_receipt env; f64_add (ae_receipt env) f64_hour; ae_envelope env] ->
  exists eid record st1 encs proof c rb,
    committed pq profile ihash st (bridge_entity m) (an_operator_keypair an) n k (ae_commit env) eid record (ae_cek env) encs st1 /\
    dist_inv (network st) eid encs (network st1) /\ length encs = n /\ to_bytes record = Ok rb /\
    CommitmentLog.fetch c eid = Some record /\
    anchor_message an st m n k env =
      Ok ({| bc_message := m; bc_entity_id := eid; bc_commitment_ref := take 64 (hex rb); bc_merkle_proof := proof;
             bc_source_block := an_block_counter an + 1 |}, ae_cek env, with_clog st1 c).
Proof.
  intros Ha Hi Hc Hs Hq Ht.
  destruct (commit_total pq profile ihash op st _ _ n k _ _ _ Ha Hc) as (eid & record & st1 & encs & E & Hcm & Hdi & Hl).
  destruct (commit_appends _ _ _ _ _ _ _ _ _ _ _ _ E) as (r0 & ref & Eap).
  destruct (append_latest _ _ _ _ _ _ Eap) as (sth & sp & Esth & Esp).
  destruct (cm_bytes _ _ _ _ _ _ _ _ _ _ _ _ _ _ Hcm) as [rb Hrb].
  pose proof (cm_log _ _ _ _ _ _ _ _ _ _ _ _ _ _ Hcm) as Hlog.
  assert (CommitmentLog.clog_inv pq profile op (clog st1)) as Hci.
  { apply CommitmentLog.clog_reachable_inv; [apply Hc|]. eapply rtc_r; [apply Hc|]. by eapply CommitmentLog.clog_append. }
  destruct (list_elem_of_lookup_1 _ _ (CommitmentLog.ci_dom _ _ _ _ Hci eid (mk_is_Some _ _ Hlog))) as [i Hin].
  destruct (CommitmentLog.ci_entries _ _ _ _ Hci i eid Hin) as (r1 & b & Hr1 & _ & _ & Hb & Hx & _).
  destruct (inclusion_proof_Ok pq profile _ _ _ (Z.of_nat i) (CommitmentLog.ci_log _ _ _ _ Hci)) as (proof & ml & Ep & _).
  { rewrite (log_size_records _ _ _ _ _ (CommitmentLog.ci_log _ _ _ _ Hci)). apply lookup_lt_Some in Hb. lia. }
  rewrite !Forall_cons in Hs. rewrite !Forall_cons in Ht. destruct Hs as (Hs1 & Hs2 & Hs3 & _), Ht as ((Ht1 & Ht1') & (Ht2 & Ht2') & (Ht3 & Ht3') & _).
  pose proof (ct_sizes _ _ _ _ _ _ _ _ _ _ _ Hc) as Hsz. rewrite !Forall_cons in Hsz. destruct Hsz as (Hz1 & _ & Hz3 & _).
  destruct (build_receipt_total pq profile COMMIT eid record sth (an_operator_keypair an) (lit "operator")
    (an_sequence_counter an) (an_chain_id an) 0 f64_hour (an_policy_hash an) (ae_receipt env)) as [r Er].
  { destruct (cm_id _ _ _ _ _ _ _ _ _ _ _ _ _ _ Hcm) as (input & _ & ->). pose proof (ai_pos _ Hi).
    split; [by rewrite Hrb|by rewrite Esp|apply Hc| |lia| |apply Hc].
    - rewrite !Forall_cons. split_and!; try done. by apply SignedEnvelope.chash_str_u32, Hc.
    - rewrite !Forall_cons. by split_and!. }
  destruct (SignedEnvelope.create_at_Ok pq profile Domain.DOMAIN_BRIDGE_MSG (kp_vk (an_operator_keypair an))
    (FromKeyPair (an_operator_keypair an)) (kp_label (an_operator_keypair an)) (lit "bridge-commit")
    (to_canonical_bytes m) (ae_envelope env)) as [en Een]; [|apply Hc|].
  { split; [|done]. rewrite !Forall_cons. by split_and!. }
  exists eid, record, st1, encs, proof, {| CommitmentLog.merkle_log := ml; CommitmentLog.records := CommitmentLog.records (clog st1);
    CommitmentLog.chain := CommitmentLog.chain (clog st1); CommitmentLog.record_indices := CommitmentLog.record_indices (clog st1) |}, rb.
  split_and!; try done.
  unfold anchor_message, for_commit. rewrite E. unfold mbind, result_bind. rewrite Esth, Er, Een.
  unfold CommitmentLog.get_inclusion_proof. unfold CommitmentLog.fetch in Hlog. rewrite Hlog, Hx. cbn [or_raise].
  unfold mbind, result_bind. rewrite Ep, Hrb. reflexivity.
Qed.

(** ** Acceptance on the destination chain *)
Definition envelope_ok (p : RelayPacket) : Prop :=
  match rp_relay_envelope p with
  | None => True
  | Some env => SignedEnvelope.verify pq profile env None f64_zero = Ok true
  end.

Definition matches (p : RelayPacket) (m : BridgeMessage json_object) : Prop :=
  bm_source_chain m = rp_source_chain p /\ bm_dest_chain m = rp_dest_chain p /\ bm_nonce m = rp_nonce p.

Lemma check_message_Some p c m : check_message p c = Ok (Some m) <-> from_bytes c = Ok m /\ matches p m.
Proof.
  unfold check_message, matches. destruct (from_bytes c) as [m'|[]]; try naive_solver.
  destruct (bool_decide (bm_source_chain m' = rp_source_chain p)) eqn:E1; cbn; breflect; [|naive_solver].
  destruct (bool_decide (bm_dest_chain m' = rp_dest_chain p)) eqn:E2; cbn; breflect; [|naive_solver].
  destruct (bm_nonce m' =? rp_nonce p) eqn:E3; cbn; breflect; naive_solver.
Qed.

Lemma bridge_accepts mz st p t_until t_now m st' mz' : mz_inv mz ->
  bridge_materialize mz st p t_until t_now = (Ok (Some m, st'), mz') <->
  rp_dest_chain p = mz_chain_id mz /\ (rp_entity_id p, rp_nonce p) ∉ mz_seen_packets mz /\ envelope_ok p /\
  mz_required_confirmations mz <= mz_current_l1_block mz - rp_source_block p /\
  f64_ge t_now (f64_add t_until f64_day) = false /\
  (exists c, materialize pq profile ihash st (rp_sealed_key p) (mz_verifier_keypair mz) None = Ok (Some c, st') /\
     from_bytes c = Ok m /\ matches p m) /\
  mz' = mark_seen (advance_sequence mz t_until t_now).2 (rp_entity_id p, rp_nonce p).
Proof.
  intros Hi. unfold bridge_materialize, envelope_ok. case_bool_decide as Hd1; cbn; [|naive_solver].
  case_bool_decide as Hd2; [naive_solver|].
  set (ev := match rp_relay_envelope p with None => Ok true | _ => _ end).
  assert (match rp_relay_envelope p with
          | None => True | Some env => SignedEnvelope.verify pq profile env None f64_zero = Ok true end <-> ev = Ok true) as ->
    by (subst ev; by destruct (rp_relay_envelope p)).
  clearbody ev. destruct ev as [[]|]; [| |].
  2-3: split; [done|]; intros (_ & _ & ? & _); done.
  destruct (Z.ltb_spec (mz_current_l1_block mz - rp_source_block p) (mz_required_confirmations mz)).
  { split; [done|]. intros (_ & _ & _ & ? & _). lia. }
  pose proof (advance_spec mz t_until t_now Hi) as Ha. destruct (advance_sequence mz t_until t_now) as [ok mz1].
  destruct Ha as (_ & -> & Hk & _). destruct (f64_ge t_now (f64_add t_until f64_day)); cbn; [naive_solver|]. rewrite Hk.
  destruct (materialize _ _ _ _ _ _ _) as [[[c|] st1]|] eqn:Em.
  2-3: split; [done|]; intros (_ & _ & _ & _ & _ & (? & ? & _) & _); done.
  destruct (check_message p c) as [[m1|]|] eqn:Ec.
  - apply check_message_Some in Ec as [Ef Hm]. split.
    + intros E. simplify_eq. split_and!; try done. by exists c.
    + intros (_ & _ & _ & _ & _ & (c' & [= <- <-] & Ef' & _) & ->). congruence.
  - split; [done|]. intros (_ & _ & _ & _ & _ & (c' & [= <- _] & Hc) & _).
    assert (check_message p c = Ok (Some m)) as Hx by by apply check_message_Some. congruence.
  - split; [done|]. intros (_ & _ & _ & _ & _ & (c' & [= <- _] & Hc) & _).
    assert (check_message p c = Ok (Some m)) as Hx by by apply check_message_Some. congruence.
Qed.

(** What crosses: the anchored commitment, a sealed key that opens to the
    message, and packets that carry it with the message's own metadata. *)
Lemma bridge_crosses op an st m n k env verifier re rnd nonce t_policy t_env :
  aead_ok pq -> anchor_inv an -> bridgeable op an st m n k env ->
  kem_pair pq profile (kp_ek verifier) (kp_dk verifier) -> kp_hsm verifier = None -> len nonce = NONCE_SIZE ->
  (forall kp, re_relay_keypair re = Some kp -> signs_for pq profile (FromKeyPair kp) (kp_vk kp)) ->
  exists c cek st1 an1 sealed st2, commit_message an st m n k env = (Ok (c, cek, st1), an1) /\ bc_message c = m /\
    anchor_inv an1 /\
    materialize pq profile ihash st1 sealed verifier None = Ok (Some (to_canonical_bytes m), st2) /\
    (re_relay_keypair re = None -> exists p, relay re st1 c cek verifier rnd nonce t_policy t_env = Ok p) /\
    forall p, relay re st1 c cek verifier rnd nonce t_policy t_env = Ok p ->
      rp_sealed_key p = sealed /\ matches p m /\ rp_source_block p = an_block_counter an + 1 /\ envelope_ok p.
Proof.
  intros Ha Hai Hb Hk Hh Hn Hre.
  unfold commit_message. pose proof (admit_spec an m env Hai) as Had.
  destruct (admit_message an m env) as [r an0]. destruct Had as (Hi0 & Eop & Ech & Eph & Ebl & Hr & Hsq & _).
  assert (r = Ok tt) as -> by (apply Hr; split_and!; apply Hb).
  destruct (anchor_message_total op an0 st m n k env Ha Hi0) as (eid & record & st1 & encs & proof & c & rb & Hcm & Hdi & Hl & Hrb & Hf & E).
  { rewrite Eop. apply Hb. }
  { rewrite Ech, Eph. apply Hb. }
  { rewrite Hsq by done. apply Hb. }
  { apply Hb. }
  rewrite E, Ebl. rewrite Eop in Hcm. pose proof (bg_commit _ _ _ _ _ _ _ Hb) as Hct.
  destruct (ct_cek _ _ _ _ _ _ _ _ _ _ _ Hct) as (_ & Hwr & _). destruct (ct_params _ _ _ _ _ _ _ _ _ _ _ Hct) as ((? & ?) & _).
  assert (exists sealed, lattice pq profile eid record (ae_cek env) verifier None rnd nonce = Ok sealed) as [sealed Hs].
  { unfold lattice. rewrite Hrb. unfold mbind, result_bind.
    destruct (unseal_seal_key pq profile {| k_entity_id := eid; k_cek := ae_cek env; k_commitment_ref := chash_str rb;
      k_access_policy := default default_policy None |} verifier rnd nonce Ha Hk Hh Hn Hwr) as (sl & E1 & _). eauto. }
  destruct (transfer_ok pq profile ihash st (bridge_entity m) (an_operator_keypair an) n k (ae_commit env) eid record (ae_cek env)
    encs st1 verifier rnd nonce None sealed (with_clog st1 c)) as (net' & Hm); try done; try apply Hct.
  { unfold resolve_sender_vk. destruct (cm_record _ _ _ _ _ _ _ _ _ _ _ _ _ _ Hcm) as (root & sig & pred & -> & _).
    cbn [sender_id with_predecessor with_signature unsigned_record key_registry with_clog].
    by rewrite (cm_registry _ _ _ _ _ _ _ _ _ _ _ _ _ _ Hcm). }
  { eapply survives_fresh; [apply Hct|lia|done]. }
  eexists _, _, _, _, sealed, _. split; [done|]. split; [done|]. split; [by destruct Hi0|]. split; [exact Hm|].
  cbn [bc_message bc_entity_id bc_source_block]. split.
  { intros Enone. unfold relay, mbind, result_bind. rewrite Enone. cbn [clog with_clog bc_entity_id bc_message bc_source_block].
    rewrite Hf. cbn [or_raise]. rewrite Hs. destruct (re_policy re); by eexists. }
  intros p Ep. unfold relay in Ep. cbn [clog with_clog bc_entity_id bc_message bc_source_block] in Ep. rewrite Hf in Ep. cbn [or_raise] in Ep.
  unfold mbind, result_bind in Ep. rewrite Hs in Ep.
  destruct (match re_policy re with Some _ => _ | None => _ end); [|done].
  destruct (match re_relay_keypair re with None => Ok None | _ => _ end) as [envl|] eqn:Eenv; [|done]. apply Ok_inj in Ep as <-.
  split; [done|]. split; [done|]. split; [done|].
  unfold envelope_ok. cbn. destruct (re_relay_keypair re) as [kp|] eqn:Ekp; [|by apply Ok_inj in Eenv as <-].
  destruct (SignedEnvelope.create_at _ _ _ _ _ _ _ _ _) as [en|] eqn:Ecr; [|done]. apply Ok_inj in Eenv as <-.
  eapply (SignedEnvelope.create_at_verifies _ _ _ _ _ _ _ _ _ _ f64_zero) in Ecr as (Hv & _); [exact Hv|by apply Hre].
Qed.

(** ** What a destination does over time *)
Inductive dest_op : Type :=
| DHeight (height : Z)
| DPacket (st : LTPProtocol) (p : RelayPacket) (t_until t_now : Float64.float64).
(** One operation; a packet that raises counts with what it left behind. *)
Definition dest_step (mz : L2Materializer) (o : dest_op) : L2Materializer :=
  match o with
  | DHeight height => set_l1_block_height mz height
  | DPacket st p t_until t_now => (bridge_materialize mz st p t_until t_now).2
  end.
Lemma dest_step_seen mz o : mz_seen_packets mz ⊆ mz_seen_packets (dest_step mz o).
Proof.
  destruct o as [h|st p tu tn]; cbn [dest_step]; [done|]. unfold bridge_materialize. destruct (negb _); [done|]. destruct (bool_decide _); [done|].
  destruct (match rp_relay_envelope p with None => _ | Some _ => _ end) as [[]|]; [|done..]. destruct (_ <? _); [done|].
  assert (mz_seen_packets (advance_sequence mz tu tn).2 = mz_seen_packets mz) as E by (unfold advance_sequence; by destruct (validate_and_advance _ _ _) as [[]]).
  destruct (advance_sequence mz tu tn) as [[] mz1]; cbn [negb snd] in E |- *; [|by rewrite E].
  destruct (materialize _ _ _ _ _ _ _) as [[[c|] st']|]; cbn [snd]; [|by rewrite E..].
  destruct (check_message p c) as [[m|]|]; cbn [snd mark_seen mz_seen_packets]; rewrite <- E; [set_solver|done..].
Qed.
Lemma dest_run_seen mz ops : mz_seen_packets mz ⊆ mz_seen_packets (fold_left dest_step ops mz).
Proof. revert mz. induction ops as [|o ops IH]; intros mz; [done|]. etrans; [apply dest_step_seen|apply IH]. Qed.
Lemma seen_refused mz st p t t' : (rp_entity_id p, rp_nonce p) ∈ mz_seen_packets mz -> (bridge_materialize mz st p t t').1 = Ok (None, st).
Proof. intros Hin. unfold bridge_materialize. destruct (negb _); [done|]. by rewrite bool_decide_eq_true_2. Qed.

(** C8: End to end over the bridge.  A message that can be anchored is; the
    relayer without credentials always seals it, and whatever packet the
    relayer produces, a destination with enough confirmations that has not
    accepted a packet of this entity and nonce before delivers exactly the
    message; whatever height changes and packets follow, every later packet
    with that entity id and nonce is refused. *)
Theorem bridge_delivers op an st m n k env mz re rnd nonce t_policy t_env t_until t_now :
  aead_ok pq -> anchor_inv an -> mz_inv mz -> bridgeable op an st m n k env ->
  kem_pair pq profile (kp_ek (mz_verifier_keypair mz)) (kp_dk (mz_verifier_keypair mz)) ->
  kp_hsm (mz_verifier_keypair mz) = None -> len nonce = NONCE_SIZE ->
  (forall kp, re_relay_keypair re = Some kp -> signs_for pq profile (FromKeyPair kp) (kp_vk kp)) ->
  bm_dest_chain m = mz_chain_id mz ->
  mz_required_confirmations mz <= mz_current_l1_block mz - (an_block_counter an + 1) ->
  f64_ge t_now (f64_add t_until f64_day) = false ->
  exists c cek st1 an1, commit_message an st m n k env = (Ok (c, cek, st1), an1) /\ bc_message c = m /\ anchor_inv an1 /\
    (re_relay_keypair re = None -> exists p, relay re st1 c cek (mz_verifier_keypair mz) rnd nonce t_policy t_env = Ok p) /\
    forall p, relay re st1 c cek (mz_verifier_keypair mz) rnd nonce t_policy t_env = Ok p ->
      (rp_entity_id p, rp_nonce p) ∉ mz_seen_packets mz ->
      exists st2 mz2, bridge_materialize mz st1 p t_until t_now = (Ok (Some m, st2), mz2) /\ mz_inv mz2 /\
        forall ops p' st' t t', rp_entity_id p' = rp_entity_id p -> rp_nonce p' = rp_nonce p ->
          (bridge_materialize (fold_left dest_step ops mz2) st' p' t t').1 = Ok (None, st').
Proof.
  intros Ha Hai Hzi Hb Hk Hh Hn Hre Hdst Hfin Hclk.
  destruct (bridge_crosses op an st m n k env (mz_verifier_keypair mz) re rnd nonce t_policy t_env Ha Hai Hb Hk Hh Hn Hre)
    as (c & cek & st1 & an1 & sealed & st2 & E & Em & Hi1 & Hmat & Htot & Hrel).
  exists c, cek, st1, an1. do 4 (split; [done|]). intros p Ep Hseen. destruct (Hrel p Ep) as (Es & Hm & Eb & Hev).
  exists st2, (mark_seen (advance_sequence mz t_until t_now).2 (rp_entity_id p, rp_nonce p)). split.
  { apply bridge_accepts; [done|]. pose proof Hm as (_ & Hmd & Hmn). split; [congruence|]. split; [exact Hseen|].
    split; [done|]. split; [lia|]. split; [done|]. split; [|done]. exists (to_canonical_bytes m).
    rewrite Es. split; [exact Hmat|]. split; [apply message_roundtrip|done]. }
  pose proof (advance_spec mz t_until t_now Hzi) as Hadv.
  destruct (advance_sequence mz t_until t_now) as [ok mz1]. destruct Hadv as (Hzi1 & _ & _ & Ec1 & _). cbn [snd].
  split; [by destruct Hzi1|].
  intros ops p' st' t t' E1 E2. apply seen_refused, dest_run_seen. rewrite E1, E2. cbn [mark_seen mz_seen_packets]. set_solver.
Qed.

(** ** Replay protection on the source chain *)
(** One call of [commit_message], with the protocol state it meets. *)
Record anchor_call : Type := {
  ac_message : BridgeMessage json_object; ac_protocol : LTPProtocol; ac_n : nat; ac_k : nat; ac_env : anchor_env
}.
(** The messages anchored by a sequence of calls. *)
Fixpoint anchored (an : L1Anchor) (calls : list anchor_call) : list (BridgeMessage json_object) * L1Anchor :=
  match calls with
  | [] => ([], an)
  | c :: calls =>
      let '(r, an) := commit_message an (ac_protocol c) (ac_message c) (ac_n c) (ac_k c) (ac_env c) in
      let '(ms, an) := anchored an calls in
      (if is_ok r then ac_message c :: ms else ms, an)
  end.

Definition nonce_mark (an : L1Anchor) (m : BridgeMessage json_object) : Z :=
  default (-1) (an_nonce_hwm an !! (bm_source_chain m, bm_sender m)).
Definition later (a b : BridgeMessage json_object) : Prop :=
  bm_source_chain a = bm_source_chain b -> bm_sender a = bm_sender b -> bm_nonce a < bm_nonce b.

Lemma commit_message_spec an st m n k env : anchor_inv an ->
  let '(r, an') := commit_message an st m n k env in
  anchor_inv an' /\ an_chain_id an' = an_chain_id an /\
  (forall m', nonce_mark an m' <= nonce_mark an' m') /\
  (is_ok r = true -> bm_source_chain m = an_chain_id an /\ nonce_mark an m < bm_nonce m /\ nonce_mark an' m = bm_nonce m).
Proof.
  intros Hi. unfold commit_message. pose proof (admit_spec an m env Hi) as Ha.
  destruct (admit_message an m env) as [r an1]. destruct Ha as (Hi1 & _ & Ec & _ & _ & Hr & _ & Hm & Hn).
  destruct r as [[]|]; [|split_and!; try done; intros m'; apply Hm].
  destruct (proj1 Hr eq_refl) as (? & ? & _). specialize (Hn eq_refl).
  destruct (anchor_message an1 st m n k env) as [out|]; split_and!; try done.
  - by destruct Hi1.
  - intros m'; apply Hm.
  - intros m'; apply Hm.
Qed.

(** Nonces: whatever is submitted to an anchor, the messages it anchors come
    from its own chain, and those of one sender carry strictly increasing
    nonces, so no message is anchored twice. *)
Theorem anchored_nonces an calls : anchor_inv an ->
  let '(ms, an') := anchored an calls in
  StronglySorted later ms /\
  Forall (fun m => bm_source_chain m = an_chain_id an /\ nonce_mark an m < bm_nonce m <= nonce_mark an' m) ms.
Proof.
  intros Hi. enough (let '(ms, an') := anchored an calls in
    an_chain_id an' = an_chain_id an /\ (forall m, nonce_mark an m <= nonce_mark an' m) /\ StronglySorted later ms /\
    Forall (fun m => bm_source_chain m = an_chain_id an /\ nonce_mark an m < bm_nonce m <= nonce_mark an' m) ms) as Hx
    by (by destruct (anchored an calls) as [ms an']; destruct Hx as (_ & _ & ? & ?)).
  revert an Hi. induction calls as [|c calls IH]; intros an Hi; cbn; [split_and!; try done; constructor|].
  pose proof (commit_message_spec an (ac_protocol c) (ac_message c) (ac_n c) (ac_k c) (ac_env c) Hi) as Hc.
  destruct (commit_message _ _ _ _ _ _) as [r an1]. destruct Hc as (Hi1 & Ec & Hm & Hr).
  specialize (IH an1 Hi1). destruct (anchored an1 calls) as [ms an2]. destruct IH as (Ec2 & Hm2 & Hs & Hall).
  assert (forall m, nonce_mark an m <= nonce_mark an2 m) as Hle by (intros m; specialize (Hm m); specialize (Hm2 m); lia).
  assert (Forall (fun m => bm_source_chain m = an_chain_id an /\ nonce_mark an m < bm_nonce m <= nonce_mark an2 m) ms) as Hall'.
  { eapply Forall_impl; [exact Hall|]. intros m (? & ? & ?). specialize (Hm m). split; [congruence|lia]. }
  split_and!; [congruence|done|..]; destruct (is_ok r); try done.
  - destruct (Hr eq_refl) as (_ & _ & E). constructor; [done|]. eapply Forall_impl; [exact Hall|].
    intros m (_ & Hlt & _) E1 E2. unfold nonce_mark in *. rewrite <- E1, <- E2, E in Hlt. lia.
  - destruct (Hr eq_refl) as (? & ? & E). constructor; [|done]. specialize (Hm2 (ac_message c)). split; [done|lia].
Qed.

(** ** What the bridge does not bind *)
Definition relabel (p : RelayPacket) (eid : pystr) : RelayPacket :=
  {| rp_sealed_key := rp_sealed_key p; rp_source_chain := rp_source_chain p; rp_dest_chain := rp_dest_chain p;
     rp_nonce := rp_nonce p; rp_source_block := rp_source_block p; rp_entity_id := eid;
     rp_relay_envelope := rp_relay_envelope p |}.

(** The replay guard can be stepped over: it is keyed by the entity id the
    packet states, which nothing compares with the sealed key.  Whoever
    carries a packet that was accepted can have the same message delivered
    again by writing another entity id on it, with or without a relay
    envelope, as long as the shards are still there. *)
Theorem relabelled_replay mz st p t_until t_now m st' mz' eid st1 c st2 t t' : mz_inv mz ->
  bridge_materialize mz st p t_until t_now = (Ok (Some m, st'), mz') ->
  materialize pq profile ihash st (rp_sealed_key p) (mz_verifier_keypair mz) None = Ok (Some c, st') ->
  materialize pq profile ihash st1 (rp_sealed_key p) (mz_verifier_keypair mz) None = Ok (Some c, st2) ->
  (eid, rp_nonce p) ∉ mz_seen_packets mz' -> f64_ge t' (f64_add t f64_day) = false ->
  exists mz2, bridge_materialize mz' st1 (relabel p eid) t t' = (Ok (Some m, st2), mz2).
Proof.
  intros Hi Hacc Hc1 Hc2 Hseen Hclk. apply bridge_accepts in Hacc as (Ed & _ & Hev & Hfin & _ & (c' & Hc & Hf & Hm) & ->); [|done].
  assert (c' = c) as -> by congruence. pose proof (advance_spec mz t_until t_now Hi) as Ha.
  destruct (advance_sequence mz t_until t_now) as [ok mz1]. destruct Ha as (Hi1 & _ & Ek & Ec & Er & El & _). cbn [snd] in *.
  eexists. apply bridge_accepts; [by destruct Hi1|]. cbn [mark_seen mz_chain_id mz_required_confirmations mz_current_l1_block mz_verifier_keypair].
  rewrite Ek, Ec, Er, El. split_and!; try done. by exists c.
Qed.

Lemma hex_app a b : hex (a ++ b) = hex a ++ hex b.
Proof. unfold hex. by rewrite map_app, concat_app. Qed.

Lemma record_prefix r rb : to_bytes r = Ok rb ->
  exists rest, rb = (RECORD_TAG ++ COMMIT_TAG ++ be_encode 4 (Z.of_nat (length (entity_id r)))) ++ rest.
Proof.
  unfold to_bytes, Commitment.signable_payload, mbind, result_bind. cbn [mapR].
  unfold CanonicalEncoder.lp at 1, mbind, result_bind.
  destruct (struct_pack 4 (Z.of_nat (length (entity_id r)))) as [n|] eqn:En; [|done]. apply struct_pack_Ok in En as [_ ->].
  repeat (match goal with |- context [match CanonicalEncoder.lp ?x with _ => _ end] => destruct (CanonicalEncoder.lp x); [|done] end).
  destruct (struct_pack 8 (timestamp r)); [|done]. destruct (CanonicalEncoder.lp_items _); [|done].
  repeat (match goal with |- context [match CanonicalEncoder.lp ?x with _ => _ end] => destruct (CanonicalEncoder.lp x); [|done] end).
  intros <-%Ok_inj. cbn [concat]. rewrite <- !app_assoc. eexists. reflexivity.
Qed.

(** The commitment reference refers to nothing: the first 64 hexadecimal
    digits of a record's encoding are its two tags and the length of the
    entity id, so every commitment the bridge ever makes carries the same
    reference. *)
Theorem commitment_ref_constant an1 st1 m1 n1 k1 env1 c1 cek1 st1' an1' an2 st2 m2 n2 k2 env2 c2 cek2 st2' an2' :
  commit_message an1 st1 m1 n1 k1 env1 = (Ok (c1, cek1, st1'), an1') ->
  commit_message an2 st2 m2 n2 k2 env2 = (Ok (c2, cek2, st2'), an2') ->
  bc_commitment_ref c1 = bc_commitment_ref c2.
Proof.
  assert (forall an st m n k env c cek st' an', commit_message an st m n k env = (Ok (c, cek, st'), an') ->
    bc_commitment_ref c = hex (RECORD_TAG ++ COMMIT_TAG ++
      be_encode 4 (Z.of_nat (length chash_prefix + (1 + 2 * digest_size))))) as Hall; [|intros E1 E2; by rewrite (Hall _ _ _ _ _ _ _ _ _ _ E1), (Hall _ _ _ _ _ _ _ _ _ _ E2)].
  intros an st m n k env c cek st' an'. unfold commit_message. destruct (admit_message an m env) as [[[]|] an0]; [|done].
  unfold anchor_message, mbind, result_bind. destruct (commit _ _ _ _ _ _ _ _ _ _ _) as [[[[eid record] cek0] st0]|] eqn:Ec; [|done].
  apply commit_Ok in Ec as (encs & Hcm). destruct (match latest_sth _ with None => Ok None | _ => _ end); [|done].
  destruct (SignedEnvelope.create_at _ _ _ _ _ _ _ _ _); [|done].
  destruct (CommitmentLog.get_inclusion_proof _ _) as [[[proof cl]|]|]; [|done|done].
  destruct (to_bytes record) as [rb|] eqn:Hrb; [|done]. intros E. simplify_eq. cbn [bc_commitment_ref].
  apply record_prefix in Hrb as (rest & ->).
  destruct (cm_record _ _ _ _ _ _ _ _ _ _ _ _ _ _ Hcm) as (root & sig & pred & -> & _).
  destruct (cm_id _ _ _ _ _ _ _ _ _ _ _ _ _ _ Hcm) as (input & _ & ->).
  cbn [entity_id with_predecessor with_signature unsigned_record]. unfold chash_str at 1.
  rewrite !length_app, hex_length, chash_length. change (length (lit ":")) with 1%nat.
  rewrite hex_app. apply take_app_length'. rewrite hex_length, !length_app, be_encode_length. done.
Qed.
End Bridge.

(** * A run of the bridge *)
Module BridgeDemo.
Import Protocol.Demo.

(** A self-delimiting codec in place of JSON: small characters as they are,
    other integers in binary. *)
Fixpoint bits (p : positive) : bytes := match p with xH => [] | xO q => 0 :: bits q | xI q => 1 :: bits q end.
Fixpoint get_bits (bs : bytes) : option (positive * bytes) :=
  match bs with
  | [] => None
  | b :: bs =>
      if b =? 2 then Some (xH, bs)
      else match get_bits bs with
           | Some (p, r) => Some (if b =? 0 then xO p else xI p, r)
           | None => None
           end
  end.
Definition put_z (z : Z) : bytes :=
  if (0 <=? z) && (z <? 256) then [3; z]
  else match z with Zpos p => 4 :: bits p ++ [2] | Zneg p => 5 :: bits p ++ [2] | Z0 => [] end.
Definition get_z (bs : bytes) : option (Z * bytes) :=
  match bs with
  | t :: bs =>
      if t =? 3 then match bs with z :: r => Some (z, r) | [] => None end
      else match get_bits bs with
           | Some (p, r) => Some (if t =? 4 then Zpos p else Zneg p, r)
           | None => None
           end
  | [] => None
  end.
Fixpoint put_zs (s : list Z) : bytes := match s with [] => [9] | z :: s => put_z z ++ put_zs s end.
Fixpoint get_zs (fuel : nat) (bs : bytes) : option (list Z * bytes) :=
  match fuel with
  | O => None
  | S fuel =>
      if bool_decide (head bs = Some 9) then Some ([], tail bs)
      else match get_z bs with
           | Some (z, r) => match get_zs fuel r with Some (s, r') => Some (z :: s, r') | None => None end
           | None => None
           end
  end.

Lemma get_put_bits p r : get_bits (bits p ++ 2 :: r) = Some (p, r).
Proof. induction p as [p IH|p IH|]; simpl; [by rewrite IH|by rewrite IH|done]. Qed.
Lemma get_put_z z r : get_z (put_z z ++ r) = Some (z, r).
Proof.
  unfold put_z. destruct ((0 <=? z) && (z <? 256)) eqn:E; [done|]. destruct z as [|p|p]; [done| |];
    cbn [app get_z Z.eqb Pos.eqb]; rewrite <- app_assoc; cbn [app]; by rewrite get_put_bits.
Qed.
Lemma put_z_head z r : head (put_z z ++ r) <> Some 9.
Proof. unfold put_z. destruct ((0 <=? z) && (z <? 256)) eqn:E; [done|]. by destruct z. Qed.
Lemma put_z_pos z : (1 <= length (put_z z))%nat.
Proof. unfold put_z. destruct ((0 <=? z) && (z <? 256)) eqn:E; [cbn; lia|]. destruct z; cbn; [done|lia|lia]. Qed.
Lemma get_put_zs fuel s r : (length (put_zs s) <= fuel)%nat -> get_zs fuel (put_zs s ++ r) = Some (s, r).
Proof.
  revert fuel. induction s as [|z s IH]; intros [|fuel] Hf; cbn [put_zs] in *; cbn in Hf; try lia.
  - done.
  - exfalso. rewrite length_app in Hf. pose proof (put_z_pos z). lia.
  - cbn [get_zs]. rewrite <- app_assoc, bool_decide_eq_false_2 by apply put_z_head.
    rewrite get_put_z, IH; [done|]. rewrite length_app in Hf. pose proof (put_z_pos z). lia.
Qed.

Definition put_message (m : BridgeMessage pystr) : bytes :=
  put_zs (bm_msg_type m) ++ put_zs (bm_source_chain m) ++ put_zs (bm_dest_chain m) ++ put_zs (bm_sender m) ++
  put_zs (bm_recipient m) ++ put_zs (bm_payload m) ++ put_zs [bm_nonce m] ++ put_zs [bm_timestamp m].
Definition get_message (bs : bytes) : result (BridgeMessage pystr) :=
  let f := S (length bs) in
  match get_zs f bs with Some (a, bs) => match get_zs f bs with Some (b, bs) => match get_zs f bs with Some (c, bs) =>
  match get_zs f bs with Some (d, bs) => match get_zs f bs with Some (e, bs) => match get_zs f bs with Some (g, bs) =>
  match get_zs f bs with Some ([n], bs) => match get_zs f bs with Some ([t], _) =>
    Ok {| bm_msg_type := a; bm_source_chain := b; bm_dest_chain := c; bm_sender := d; bm_recipient := e;
          bm_payload := g; bm_nonce := n; bm_timestamp := t |}
  | _ => Err (ValueError "json") end | _ => Err (ValueError "json") end | None => Err (ValueError "json") end
  | None => Err (ValueError "json") end | None => Err (ValueError "json") end | None => Err (ValueError "json") end
  | None => Err (ValueError "json") end | None => Err (ValueError "json") end.

Lemma get_put_message m : get_message (put_message m) = Ok m.
Proof.
  unfold get_message. set (f := S (length (put_message m))).
  assert (length (put_message m) <= f)%nat as Hf by lia. clearbody f. unfold put_message in *.
  rewrite !length_app in Hf. do 7 (rewrite get_put_zs by lia). 
  rewrite <- (app_nil_r (put_zs [bm_timestamp m])), get_put_zs by lia. by destruct m.
Qed.

Lemma put_z_wf z : wf_bytes (put_z z).
Proof.
  assert (forall p, wf_bytes (bits p ++ [2])) as Hb.
  { induction p; simpl; repeat constructor; try done; unfold isb; lia. }
  unfold put_z. destruct ((0 <=? z) && (z <? 256)) eqn:E.
  - breflect. repeat constructor; unfold isb; lia.
  - destruct z; constructor; try apply Hb; unfold isb; lia.
Qed.
Lemma put_zs_wf s : wf_bytes (put_zs s).
Proof.
  induction s as [|z s IH]; simpl; [repeat constructor; unfold isb; lia|]. apply wf_bytes_app. split; [apply put_z_wf|done].
Qed.

#[export] Instance demo_message_json : MessageJson.
Proof.
  refine {| json_object := pystr; to_canonical_bytes := put_message; from_bytes := get_message |}.
  - exact get_put_message.
  - intros m. unfold put_message. repeat (apply wf_bytes_app; split; [apply put_zs_wf|]). apply put_zs_wf.
Defined.

Definition msg (nonce : Z) : BridgeMessage json_object := {| bm_msg_type := lit "tl"; bm_source_chain := lit "eth";
  bm_dest_chain := lit "op"; bm_sender := lit "a"; bm_recipient := lit "b"; bm_payload := (lit "9" : pystr); bm_nonce := nonce;
  bm_timestamp := 0 |}.
Definition fl (w : Float64.float64) : pystr := lit "t".
Definition an0 : L1Anchor := new_anchor alice (lit "eth") (lit "ph").
Definition mz0 : L2Materializer := set_l1_block_height (new_materializer bob (lit "op") 1) 10.
Definition env0 : anchor_env := {| ae_expiry := f64_epoch; ae_tracker := f64_epoch; ae_commit := f64_epoch; ae_cek := cek0;
  ae_log := f64_epoch; ae_receipt := f64_epoch; ae_envelope := f64_epoch |}.
Definition re0 : Relayer := {| re_policy := None; re_relay_keypair := Some (demo_keypair (lit "relay") 4) |}.

Lemma msg_length n : 0 <= n < 256 -> Z.of_nat (length (to_canonical_bytes (msg n))) < 100.
Proof.
  intros Hn. cbn [to_canonical_bytes demo_message_json]. unfold put_message, msg.
  cbn [bm_nonce bm_msg_type bm_source_chain bm_dest_chain bm_sender bm_recipient bm_payload bm_timestamp].
  assert (put_z n = [3; n]) as E.
  { unfold put_z. destruct (Z.leb_spec 0 n), (Z.ltb_spec n 256); done || lia. }
  cbn [put_zs]. rewrite E, !length_app. cbn [length app]. vm_compute. done.
Qed.

Lemma bridgeable_msg n : 0 <= n < 256 -> bridgeable toy_pq demo_profile demo_op an0 st0 (msg n) 3 2 env0.
Proof.
  intros Hn. split.
  - destruct committable0 as [H1 H2 H3 H4 H5 H6 H7 H8 H9 H10 H11 H12 H13 H14]. split; [exact H1| |exact H3|exact H4|exact H5|lia| |exact H8|exact H9| |exact H11|exact H12|exact H13|exact H14].
    + rewrite !Forall_cons in H2 |- *. destruct H2 as (? & _ & ? & _). by split_and!.
    + split; [apply message_wf|]. cbn [content bridge_entity]. pose proof (msg_length n Hn). lia.
    + intros eid _. split; [|done]. split; [|done]. intros p i d (nd & E & Es).
      destruct p as [|[|[|p]]]; simpl in E; simplify_eq; by rewrite lookup_empty in Es.
  - done.
  - cbn [an_nonce_hwm an0 new_anchor]. rewrite lookup_empty. cbn. lia.
  - by vm_compute.
  - rewrite !Forall_cons. split_and!; [done|done| |constructor]. unfold SignedEnvelope.u32_sized.
    pose proof (msg_length n Hn). lia.
  - by vm_compute.
  - unfold wf_float. repeat (apply Forall_cons; split; [split_and!; vm_compute; reflexivity || congruence|]). constructor.
Qed.
Lemma bridgeable0 : bridgeable toy_pq demo_profile demo_op an0 st0 (msg 1) 3 2 env0.
Proof. by apply bridgeable_msg. Qed.
End BridgeDemo.
Import Protocol.Demo BridgeDemo.

Lemma bridge_delivers_witness : exists c cek st1 an1,
  commit_message toy_pq demo_profile ihash0 fl an0 st0 (msg 1) 3 2 env0 = (Ok (c, cek, st1), an1) /\
  forall p, relay toy_pq demo_profile re0 st1 c cek bob [1; 2] nonce0 f64_epoch f64_epoch = Ok p ->
    exists st2 mz2, bridge_materialize toy_pq demo_profile ihash0 fl mz0 st1 p f64_epoch f64_epoch = (Ok (Some (msg 1), st2), mz2).
Proof.
  destruct (bridge_delivers toy_pq demo_profile ihash0 fl demo_op an0 st0 (msg 1) 3 2 env0 mz0 re0 [1; 2] nonce0
    f64_epoch f64_epoch f64_epoch f64_epoch) as (c & cek & st1 & an1 & E & _ & _ & _ & Hall).
  - exact toy_aead_ok.
  - apply anchor_inv_new.
  - split; [done|]. vm_compute. congruence.
  - exact bridgeable0.
  - exact (demo_kem_pair 7).
  - reflexivity.
  - reflexivity.
  - intros kp [= <-]. apply dsa_pair_signs_keypair; [done|apply demo_dsa_pair].
  - reflexivity.
  - vm_compute. congruence.
  - by vm_compute.
  - exists c, cek, st1, an1. split; [exact E|]. intros p Hp. destruct (Hall p Hp) as (st2 & mz2 & Hm & _); [apply not_elem_of_empty|]. by exists st2, mz2.
Defined.

Lemma relay_signs : forall kp, re_relay_keypair re0 = Some kp -> signs_for toy_pq demo_profile (FromKeyPair kp) (kp_vk kp).
Proof. intros kp [= <-]. apply dsa_pair_signs_keypair; [done|apply demo_dsa_pair]. Qed.

Lemma mz0_inv : mz_inv mz0.
Proof. split; [done|]. vm_compute. congruence. Qed.

(** A relayer without credentials, whose packet is delivered twice. *)
Definition re1 : Relayer := {| re_policy := None; re_relay_keypair := None |}.

Lemma relabelled_replay_witness : exists st1 p st2 mz1 mz2,
  bridge_materialize toy_pq demo_profile ihash0 fl mz0 st1 p f64_epoch f64_epoch = (Ok (Some (msg 1), st2), mz1) /\
  bridge_materialize toy_pq demo_profile ihash0 fl mz1 st1 (relabel p (0 :: rp_entity_id p)) f64_epoch f64_epoch
    = (Ok (Some (msg 1), st2), mz2).
Proof.
  destruct (bridge_crosses toy_pq demo_profile ihash0 fl demo_op an0 st0 (msg 1) 3 2 env0 bob re1 [1; 2] nonce0 f64_epoch f64_epoch)
    as (c & cek & st1 & an1 & sealed & st2 & _ & _ & _ & Hmat & Htot & Hrel);
    [exact toy_aead_ok|apply anchor_inv_new|exact bridgeable0|exact (demo_kem_pair 7)|reflexivity|reflexivity|done|].
  destruct (Htot eq_refl) as [p Hp]. destruct (Hrel p Hp) as (<- & Hm & Eb & Hev). clear Hrel Htot.
  set (mz1 := mark_seen (advance_sequence fl mz0 f64_epoch f64_epoch).2 (rp_entity_id p, rp_nonce p)).
  assert (bridge_materialize toy_pq demo_profile ihash0 fl mz0 st1 p f64_epoch f64_epoch = (Ok (Some (msg 1), st2), mz1)) as E1.
  { apply bridge_accepts; [exact mz0_inv|]. pose proof Hm as (_ & Hmd & Hmn). split; [by rewrite <- Hmd|].
    split; [apply not_elem_of_empty|]. split; [done|]. split; [rewrite Eb; vm_compute; congruence|]. split; [by vm_compute|].
    split; [|done]. exists (to_canonical_bytes (msg 1)). split; [exact Hmat|]. split; [apply message_roundtrip|done]. }
  destruct (relabelled_replay toy_pq demo_profile ihash0 fl mz0 st1 p f64_epoch f64_epoch (msg 1) st2 mz1
    (0 :: rp_entity_id p) st1 (to_canonical_bytes (msg 1)) st2 f64_epoch f64_epoch mz0_inv E1 Hmat Hmat) as [mz2 E2].
  - pose proof (advance_spec fl mz0 f64_epoch f64_epoch mz0_inv) as Ha. unfold mz1.
    destruct (advance_sequence fl mz0 f64_epoch f64_epoch) as [ok mz']. destruct Ha as (_ & _ & _ & _ & _ & _ & Es).
    cbn [snd mark_seen mz_seen_packets]. rewrite Es. intros [Hin|Hin]%elem_of_union; [|by apply not_elem_of_empty in Hin].
    apply elem_of_singleton, (f_equal fst), (f_equal length) in Hin. cbn in Hin. lia.
  - by vm_compute.
  - exists st1, p, st2, mz1, mz2. split; [exact E1|exact E2].
Defined.

Lemma bridgeable5 : bridgeable toy_pq demo_profile demo_op an0 st0 (msg 5) 3 2 env0.
Proof. by apply bridgeable_msg. Qed.

Lemma commitment_ref_constant_witness : exists c1 cek1 st1 an1 c2 cek2 st2 an2,
  commit_message toy_pq demo_profile ihash0 fl an0 st0 (msg 1) 3 2 env0 = (Ok (c1, cek1, st1), an1) /\
  commit_message toy_pq demo_profile ihash0 fl an0 st0 (msg 5) 3 2 env0 = (Ok (c2, cek2, st2), an2) /\
  bc_message c1 <> bc_message c2 /\ bc_commitment_ref c1 = bc_commitment_ref c2.
Proof.
  destruct (bridge_crosses toy_pq demo_profile ihash0 fl demo_op an0 st0 (msg 1) 3 2 env0 bob re1 [1; 2] nonce0 f64_epoch f64_epoch)
    as (c1 & cek1 & st1 & an1 & _ & _ & E1 & M1 & _);
    [exact toy_aead_ok|apply anchor_inv_new|exact bridgeable0|exact (demo_kem_pair 7)|reflexivity|reflexivity|done|].
  destruct (bridge_crosses toy_pq demo_profile ihash0 fl demo_op an0 st0 (msg 5) 3 2 env0 bob re1 [1; 2] nonce0 f64_epoch f64_epoch)
    as (c2 & cek2 & st2 & an2 & _ & _ & E2 & M2 & _);
    [exact toy_aead_ok|apply anchor_inv_new|exact bridgeable5|exact (demo_kem_pair 7)|reflexivity|reflexivity|done|].
  exists c1, cek1, st1, an1, c2, cek2, st2, an2. split; [exact E1|]. split; [exact E2|].
  split; [rewrite M1, M2; intros E; by apply (f_equal bm_nonce) in E|].
  exact (commitment_ref_constant toy_pq demo_profile ihash0 fl _ _ _ _ _ _ _ _ _ _ _ _ _ _ _ _ _ _ _ _ E1 E2).
Defined.

Definition calls12 : list anchor_call :=
  [{| ac_message := msg 1; ac_protocol := st0; ac_n := 3; ac_k := 2; ac_env := env0 |};
   {| ac_message := msg 1; ac_protocol := st0; ac_n := 3; ac_k := 2; ac_env := env0 |}].
Lemma anchored_nonces_witness :
  let '(ms, an') := anchored toy_pq demo_profile ihash0 fl an0 calls12 in
  StronglySorted later ms /\
  Forall (fun m => bm_source_chain m = an_chain_id an0 /\ nonce_mark an0 m < bm_nonce m <= nonce_mark an' m) ms.
Proof. apply (anchored_nonces toy_pq demo_profile ihash0 fl an0 calls12). apply anchor_inv_new. Defined.
