(* ===== verification/Challenge.v ===== *)
(** The optimistic bridge (src/src/ltp/bridge/): fraud proofs
    (fraud_proof.py), the verification side of the zero-knowledge finality
    proofs and the assembly of their STARK form (zk_bridge.py), the challenge
    windows (challenge.py) and the watcher (watcher.py).

    Clock readings are arguments.  An operation that raises may have changed
    the manager already, so operations return the state beside the result.
    The polynomial commitment inside a STARK proof only contributes its layer
    roots and the blinding it draws; they are arguments. *)

From S2P Require Import Prelude Float64 Sha3 Hashing Primitives Encoding MerkleTree MerkleLog.
Import Portable.

(** * fraud_proof.py *)
Inductive FraudProof : Type :=
| InvalidSignatureFraudProof (anchor_digest claimed_signer_vk signed_data signature : bytes)
| InconsistentSTHFraudProof (sth_a sth_b : SignedTreeHead)
| InvalidMerkleProofFraudProof (anchor_digest claimed_root : bytes) (proof : PortableMerkleProof).

(** [proof_type.value] *)
Definition fraud_type (f : FraudProof) : pystr :=
  match f with
  | InvalidSignatureFraudProof _ _ _ _ => lit "invalid_signature"
  | InconsistentSTHFraudProof _ _ => lit "inconsistent_sth"
  | InvalidMerkleProofFraudProof _ _ _ => lit "invalid_merkle_proof"
  end.

Section Fraud.
Context `{CanonicalHash} (pq : pq_backend) (profile : SecurityProfile).

(** [struct.pack(">I", len(x)) + x] *)
Definition sized (x : bytes) : result bytes := n ← struct_pack 4 (Z.of_nat (length x)); Ok (n ++ x).

(** [to_bytes] of the three classes. *)
Definition invalid_signature_bytes (d vk data sig : bytes) : result bytes :=
  d ← sized d; vk ← sized vk; data ← sized data; sig ← sized sig;
  Ok (Domain.DOMAIN_FRAUD_PROOF ++ lit "invalid_signature" ++ d ++ vk ++ data ++ sig).
Definition inconsistent_sth_bytes (a b : SignedTreeHead) : result bytes :=
  pa ← signable_payload a; pb ← signable_payload b;
  Ok (Domain.DOMAIN_FRAUD_PROOF ++ lit "inconsistent_sth" ++ pa ++ sth_signature a ++ pb ++ sth_signature b).
Definition invalid_merkle_bytes (d root : bytes) (p : PortableMerkleProof) : result bytes :=
  d ← sized d; root ← sized root; ix ← struct_pack 8 (p_leaf_index p);
  Ok (Domain.DOMAIN_FRAUD_PROOF ++ lit "invalid_merkle_proof" ++ d ++ root ++ ix ++ p_leaf_hash p ++ p_root_hash p).

Definition fraud_to_bytes (f : FraudProof) : result bytes :=
  match f with
  | InvalidSignatureFraudProof d vk data sig => invalid_signature_bytes d vk data sig
  | InconsistentSTHFraudProof a b => inconsistent_sth_bytes a b
  | InvalidMerkleProofFraudProof d root p => invalid_merkle_bytes d root p
  end.

Definition proof_hash (f : FraudProof) : result bytes := b ← fraud_to_bytes f; Ok (chash b).

(** [verify] of the three classes. *)
Definition invalid_signature_verify (vk data sig : bytes) : result bool :=
  ok ← MLDSA_verify pq profile vk data sig; Ok (negb ok).
Definition inconsistent_sth_verify (a b : SignedTreeHead) : result bool :=
  if negb (bool_decide (sth_operator_vk a = sth_operator_vk b)) then Ok false
  else if negb (sth_sequence a =? sth_sequence b) then Ok false
  else if bool_decide (sth_root_hash a = sth_root_hash b) then Ok false
  else
    pa ← signable_payload a; va ← MLDSA_verify pq profile (sth_operator_vk a) pa (sth_signature a);
    pb ← signable_payload b; vb ← MLDSA_verify pq profile (sth_operator_vk a) pb (sth_signature b);
    Ok (va && vb).
Definition invalid_merkle_verify (p : PortableMerkleProof) : result bool := Ok (negb (portable_verify p)).

Definition fraud_verify (f : FraudProof) : result bool :=
  match f with
  | InvalidSignatureFraudProof _ vk data sig => invalid_signature_verify vk data sig
  | InconsistentSTHFraudProof a b => inconsistent_sth_verify a b
  | InvalidMerkleProofFraudProof _ _ p => invalid_merkle_verify p
  end.

(** * zk_bridge.py *)
Inductive ZKBridgeBackend : Type := SIMULATED | SP1 | RISC_ZERO | STARK.

Record ZKBridgePublicInputs : Type := {
  zi_sth_root_hash : bytes;
  zi_operator_vk_hash : bytes;
  zi_tree_size : Z;
  zi_sth_sequence : Z
}.

Record ZKBridgeProof : Type := {
  zp_proof_bytes : bytes;
  zp_backend : ZKBridgeBackend;
  zp_public_inputs : ZKBridgePublicInputs;
  zp_proof_id : pystr
}.

Definition inputs_to_bytes (i : ZKBridgePublicInputs) : result bytes :=
  n ← struct_pack 8 (zi_tree_size i); s ← struct_pack 8 (zi_sth_sequence i);
  Ok (Domain.DOMAIN_ZK_BRIDGE ++ zi_sth_root_hash i ++ zi_operator_vk_hash i ++ n ++ s).

Definition from_sth (s : SignedTreeHead) : ZKBridgePublicInputs :=
  {| zi_sth_root_hash := sth_root_hash s; zi_operator_vk_hash := chash (sth_operator_vk s);
     zi_tree_size := sth_tree_size s; zi_sth_sequence := sth_sequence s |}.

(** [data[a:b]] for [0 <= a <= b]. *)
Definition slice (a b : nat) (d : bytes) : bytes := take (b - a) (drop a d).

Definition zk_tag (parts : bytes) (suffix : pystr) : bytes := chash (Domain.DOMAIN_ZK_BRIDGE ++ parts ++ suffix).

Definition verify_stark (p : ZKBridgeProof) : result bool :=
  let data := zp_proof_bytes p in
  if (length data =? 128)%nat then
    pi ← inputs_to_bytes (zp_public_inputs p);
    Ok (bool_decide (slice 96 128 data = zk_tag (pi ++ take 96 data) (lit "stark-verify")))
  else if (length data <? 8)%nat then Ok false
  else
    let version := data !!! 0%nat in
    let num_rounds := Z.to_nat (data !!! 1%nat) in
    if version =? 2 then
      if negb (length data =? 136 + num_rounds * 64)%nat then Ok false
      else
        let fri_end := (8 + num_rounds * 64)%nat in
        let pre_transcript := take (fri_end + 64) data in
        let transcript_hash := slice (fri_end + 64) (fri_end + 96) data in
        let claimed_tag := slice (fri_end + 96) (fri_end + 128) data in
        let public_inputs_hash := slice (fri_end + 32) (fri_end + 64) data in
        pi ← inputs_to_bytes (zp_public_inputs p);
        if negb (bool_decide (public_inputs_hash = zk_tag pi (lit "stark-public"))) then Ok false
        else if negb (bool_decide (transcript_hash = zk_tag pre_transcript (lit "stark-transcript"))) then Ok false
        else Ok (bool_decide (claimed_tag = zk_tag (transcript_hash ++ public_inputs_hash) (lit "stark-verify")))
    else if version =? 3 then
      if negb (length data =? 8 + 32 + 32 + num_rounds * 32 + 32)%nat then Ok false
      else
        let header := take 8 data in
        let public_inputs_hash := slice 8 40 data in
        let witness_hash := slice 40 72 data in
        let fri_roots := slice 72 (72 + num_rounds * 32) data in
        let claimed_tag := slice (72 + num_rounds * 32) (72 + num_rounds * 32 + 32) data in
        pi ← inputs_to_bytes (zp_public_inputs p);
        if negb (bool_decide (public_inputs_hash = zk_tag pi (lit "stark-public"))) then Ok false
        else Ok (bool_decide (claimed_tag = zk_tag (header ++ public_inputs_hash ++ witness_hash ++ fri_roots) (lit "stark-verify")))
    else Ok false.

(** [_verify_sp1] and [_verify_risc_zero], with the host program's verdict. *)
Definition verify_zkvm (binary : bytes -> bool) (p : ZKBridgeProof) : result bool :=
  let data := zp_proof_bytes p in
  if (8 <=? length data)%nat && (data !!! 0%nat =? 3) then verify_stark p
  else if (128 <? length data)%nat then Ok (binary data) else Ok false.

(** [ZKBridgeVerifier.verify]; [sp1] and [risc0] are the host binaries. *)
Definition zk_verify (sp1 risc0 : bytes -> bool) (p : ZKBridgeProof) : result bool :=
  match zp_backend p with
  | SIMULATED | STARK => verify_stark p
  | SP1 => verify_zkvm sp1 p
  | RISC_ZERO => verify_zkvm risc0 p
  end.

(** [STARKBridgeProver.prove_sth_signature] from the FRI layer roots on. *)
Definition prove_sth_signature (security_bits : Z) (layer_roots : list bytes) (s : SignedTreeHead) : result ZKBridgeProof :=
  ok ← sth_verify pq profile s;
  if negb ok then Err (ValueError "Cannot generate STARK proof for invalid STH signature")
  else
    let public_inputs := from_sth s in
    payload ← signable_payload s;
    let witness_bytes := payload ++ chash (sth_operator_vk s) ++ chash (sth_signature s) in
    pi ← inputs_to_bytes public_inputs;
    let public_inputs_hash := zk_tag pi (lit "stark-public") in
    let witness_hash := zk_tag witness_bytes (lit "stark-witness") in
    rounds ← struct_pack 1 (Z.of_nat (length layer_roots));
    sec ← struct_pack 1 security_bits;
    let header := [3] ++ rounds ++ sec ++ repeat 0 5 in
    let fri_roots := concat layer_roots in
    let body := header ++ public_inputs_hash ++ witness_hash ++ fri_roots in
    let proof_bytes := body ++ zk_tag body (lit "stark-verify") in
    Ok {| zp_proof_bytes := proof_bytes; zp_backend := STARK; zp_public_inputs := public_inputs;
          zp_proof_id := hex (chash proof_bytes) |}.

(** [SimulatedZKBridgeProver]: the same proof under another label. *)
Definition prove_simulated (layer_roots : list bytes) (s : SignedTreeHead) : result ZKBridgeProof :=
  p ← prove_sth_signature 128 layer_roots s;
  Ok {| zp_proof_bytes := zp_proof_bytes p; zp_backend := SIMULATED; zp_public_inputs := zp_public_inputs p;
        zp_proof_id := zp_proof_id p |}.
End Fraud.

(** * challenge.py *)
Inductive ChallengeStatus : Type := OPEN | CHALLENGED | RESOLVED | FINALIZED | EXPIRED.
#[export] Instance ChallengeStatus_eq_dec : EqDecision ChallengeStatus.
Proof. solve_decision. Defined.

Record ChallengeRecord : Type := {
  ch_entity_id : pystr;
  ch_anchor_digest : bytes;
  ch_status : ChallengeStatus;
  ch_opened_at : Float64.float64;
  ch_challenge_deadline : Float64.float64;
  ch_challenger_id : pystr;
  ch_fraud_proof_hash : bytes;
  ch_fraud_proof_type : pystr;
  ch_resolved_at : Float64.float64;
  ch_resolution : pystr
}.

(** The manager: [_records] in insertion order. *)
Record ChallengeManager : Type := {
  cm_challenge_period : Float64.float64;
  cm_records : list (pystr * ChallengeRecord)
}.

Definition valid_transition (a b : ChallengeStatus) : bool :=
  match a, b with
  | OPEN, CHALLENGED | OPEN, FINALIZED | CHALLENGED, RESOLVED | CHALLENGED, EXPIRED | CHALLENGED, FINALIZED => true
  | _, _ => false
  end.

Definition active (r : ChallengeRecord) : bool :=
  match ch_status r with OPEN | CHALLENGED => true | _ => false end.

(** The assignments to a record's fields. *)
Definition with_status (r : ChallengeRecord) (s : ChallengeStatus) : ChallengeRecord :=
  {| ch_entity_id := ch_entity_id r; ch_anchor_digest := ch_anchor_digest r; ch_status := s;
     ch_opened_at := ch_opened_at r; ch_challenge_deadline := ch_challenge_deadline r;
     ch_challenger_id := ch_challenger_id r; ch_fraud_proof_hash := ch_fraud_proof_hash r;
     ch_fraud_proof_type := ch_fraud_proof_type r; ch_resolved_at := ch_resolved_at r; ch_resolution := ch_resolution r |}.
Definition with_challenge (r : ChallengeRecord) (who : pystr) (hash : bytes) (type : pystr) : ChallengeRecord :=
  {| ch_entity_id := ch_entity_id r; ch_anchor_digest := ch_anchor_digest r; ch_status := ch_status r;
     ch_opened_at := ch_opened_at r; ch_challenge_deadline := ch_challenge_deadline r;
     ch_challenger_id := who; ch_fraud_proof_hash := hash;
     ch_fraud_proof_type := type; ch_resolved_at := ch_resolved_at r; ch_resolution := ch_resolution r |}.
Definition with_resolution (r : ChallengeRecord) (at_ : Float64.float64) (resolution : pystr) : ChallengeRecord :=
  {| ch_entity_id := ch_entity_id r; ch_anchor_digest := ch_anchor_digest r; ch_status := ch_status r;
     ch_opened_at := ch_opened_at r; ch_challenge_deadline := ch_challenge_deadline r;
     ch_challenger_id := ch_challenger_id r; ch_fraud_proof_hash := ch_fraud_proof_hash r;
     ch_fraud_proof_type := ch_fraud_proof_type r; ch_resolved_at := at_; ch_resolution := resolution |}.

Definition put_record (m : ChallengeManager) (id : pystr) (r : ChallengeRecord) : ChallengeManager :=
  {| cm_challenge_period := cm_challenge_period m; cm_records := dict_set (cm_records m) id r |}.
Definition find_record (m : ChallengeManager) (id : pystr) : option ChallengeRecord := dict_find (cm_records m) id.

Definition new_challenge_manager (period : Float64.float64) : ChallengeManager :=
  {| cm_challenge_period := period; cm_records := [] |}.

(** [_transition] *)
Definition transition (m : ChallengeManager) (id : pystr) (to : ChallengeStatus) : result (ChallengeRecord * ChallengeManager) :=
  match find_record m id with
  | None => Err KeyError
  | Some rec =>
      if negb (valid_transition (ch_status rec) to) then Err (ValueError "Invalid challenge transition")
      else let rec := with_status rec to in Ok (rec, put_record m id rec)
  end.

Definition open_challenge_window (m : ChallengeManager) (id : pystr) (digest : bytes) (now : Float64.float64)
  : result ChallengeRecord * ChallengeManager :=
  if negb (length digest =? 32)%nat then (Err (ValueError "anchor_digest must be 32 bytes"), m)
  else if match find_record m id with Some r => active r | None => false end
  then (Err (ValueError "Challenge window already active"), m)
  else
    let rec := {| ch_entity_id := id; ch_anchor_digest := digest; ch_status := OPEN; ch_opened_at := now;
                  ch_challenge_deadline := f64_add now (cm_challenge_period m); ch_challenger_id := [];
                  ch_fraud_proof_hash := []; ch_fraud_proof_type := []; ch_resolved_at := f64_zero; ch_resolution := [] |} in
    (Ok rec, put_record m id rec).

Section Manager.
Context `{CanonicalHash} (pq : pq_backend) (profile : SecurityProfile) (sp1 risc0 : bytes -> bool).

(** [submit_challenge]: the status and the challenger are written before the
    proof is hashed. *)
Definition submit_challenge (m : ChallengeManager) (id : pystr) (f : FraudProof) (challenger_id : pystr) (now : Float64.float64)
  : result ChallengeRecord * ChallengeManager :=
  match find_record m id with
  | None => (Err KeyError, m)
  | Some rec =>
      if f64_gt now (ch_challenge_deadline rec) then (Err (ValueError "Challenge window expired"), m)
      else match fraud_verify pq profile f with
           | Err e => (Err e, m)
           | Ok false => (Err (ValueError "Fraud proof verification failed"), m)
           | Ok true =>
               match transition m id CHALLENGED with
               | Err e => (Err e, m)
               | Ok (rec, m) =>
                   match proof_hash f with
                   | Err e =>
                       (Err e, put_record m id (with_challenge rec challenger_id (ch_fraud_proof_hash rec) (ch_fraud_proof_type rec)))
                   | Ok h =>
                       let rec := with_challenge rec challenger_id h (fraud_type f) in
                       (Ok rec, put_record m id rec)
                   end
               end
           end
  end.

Definition resolve_challenge (m : ChallengeManager) (id resolution : pystr) (now : Float64.float64)
  : result ChallengeRecord * ChallengeManager :=
  if negb (bool_decide (resolution = lit "valid_fraud") || bool_decide (resolution = lit "invalid_challenge"))
  then (Err (ValueError "Invalid resolution"), m)
  else match transition m id RESOLVED with
       | Err e => (Err e, m)
       | Ok (rec, m) => let rec := with_resolution rec now resolution in (Ok rec, put_record m id rec)
       end.

Definition resolve_with_proof (m : ChallengeManager) (id : pystr) (proof : ZKBridgeProof) (now : Float64.float64)
  : result ChallengeRecord * ChallengeManager :=
  match zk_verify sp1 risc0 proof with
  | Err e => (Err e, m)
  | Ok false => (Err (ValueError "ZK bridge proof verification failed"), m)
  | Ok true =>
      match find_record m id with
      | None => (Err KeyError, m)
      | Some rec =>
          if negb (active rec) then (Err (ValueError "Cannot resolve with proof from status"), m)
          else let rec := with_resolution (with_status rec FINALIZED) now (lit "zk_proof") in (Ok rec, put_record m id rec)
      end
  end.
End Manager.

(** One record in the loop of [tick]; the flag tells whether it is reported. *)
Definition tick_record (now : Float64.float64) (r : ChallengeRecord) : ChallengeRecord * bool :=
  if bool_decide (ch_status r = OPEN) && f64_gt now (ch_challenge_deadline r) then (with_status r FINALIZED, true)
  else if bool_decide (ch_status r = CHALLENGED) && f64_gt now (ch_challenge_deadline r) then (with_status r EXPIRED, true)
  else (r, false).

(** [now or self._clock()]: an absent argument and zero read the clock. *)
Definition tick_time (now : option Float64.float64) (clock : Float64.float64) : Float64.float64 :=
  match now with
  | Some t => match f64_of_bits t with SpecFloat.S754_zero _ => clock | _ => t end
  | None => clock
  end.

Definition tick (m : ChallengeManager) (now : option Float64.float64) (clock : Float64.float64)
  : list pystr * ChallengeManager :=
  let t := tick_time now clock in
  (map fst (filter (fun kv => (tick_record t kv.2).2 = true) (cm_records m)),
   {| cm_challenge_period := cm_challenge_period m;
      cm_records := map (fun kv => (kv.1, (tick_record t kv.2).1)) (cm_records m) |}).

Definition get_by_status (m : ChallengeManager) (s : ChallengeStatus) : list ChallengeRecord :=
  filter (fun r => ch_status r = s) (map snd (cm_records m)).

(** [stats]: a count per status, in the order of the enumeration. *)
Definition stats (m : ChallengeManager) : list (ChallengeStatus * nat) :=
  map (fun s => (s, length (get_by_status m s))) [OPEN; CHALLENGED; RESOLVED; FINALIZED; EXPIRED].

(** * watcher.py *)
(** [STHStore]: heads by operator key (in hex) and sequence number. *)
Abbreviation STHStore := (gmap (pystr * Z) SignedTreeHead).
Definition store_key (s : SignedTreeHead) : pystr * Z := (hex (sth_operator_vk s), sth_sequence s).

Definition store_record (st : STHStore) (s : SignedTreeHead) : option FraudProof * STHStore :=
  match st !! store_key s with
  | Some existing =>
      if negb (bool_decide (sth_root_hash existing = sth_root_hash s))
      then (Some (InconsistentSTHFraudProof existing s), st) else (None, st)
  | None => (None, <[store_key s := s]> st)
  end.

(** [WatcherTickResult]; the error text is never set. *)
Record WatcherTickResult : Type := {
  wr_anchors_checked : nat;
  wr_signatures_verified : nat;
  wr_signatures_invalid : nat;
  wr_fraud_proofs_submitted : nat;
  wr_forks_detected : nat
}.

(** A queued anchor, with the time its challenge would be submitted at. *)
Record pending_item : Type := {
  pi_anchor_digest : bytes;
  pi_sth : SignedTreeHead;
  pi_entity_id : pystr;
  pi_now : Float64.float64
}.

(** The service: the shared manager, the store, the identity and the queue. *)
Record WatcherService : Type := {
  w_manager : ChallengeManager;
  w_store : STHStore;
  w_id : pystr;
  w_pending : list pending_item
}.

Definition submit_for_verification (w : WatcherService) (it : pending_item) : WatcherService :=
  {| w_manager := w_manager w; w_store := w_store w; w_id := w_id w; w_pending := w_pending w ++ [it] |}.

Definition with_manager (w : WatcherService) (m : ChallengeManager) (st : STHStore) : WatcherService :=
  {| w_manager := m; w_store := st; w_id := w_id w; w_pending := w_pending w |}.
Definition count (c : WatcherTickResult) (verified invalid submitted forks : nat) : WatcherTickResult :=
  {| wr_anchors_checked := wr_anchors_checked c; wr_signatures_verified := wr_signatures_verified c + verified;
     wr_signatures_invalid := wr_signatures_invalid c + invalid;
     wr_fraud_proofs_submitted := wr_fraud_proofs_submitted c + submitted;
     wr_forks_detected := wr_forks_detected c + forks |}.
Definition checked (c : WatcherTickResult) : WatcherTickResult :=
  {| wr_anchors_checked := S (wr_anchors_checked c); wr_signatures_verified := wr_signatures_verified c;
     wr_signatures_invalid := wr_signatures_invalid c; wr_fraud_proofs_submitted := wr_fraud_proofs_submitted c;
     wr_forks_detected := wr_forks_detected c |}.

Section Watcher.
Context `{CanonicalHash} (pq : pq_backend) (profile : SecurityProfile).

(** The guarded [submit_challenge]: [KeyError] and [ValueError] are logged. *)
Definition try_submit (w : WatcherService) (it : pending_item) (f : FraudProof) : result bool * ChallengeManager :=
  let '(r, m) := submit_challenge pq profile (w_manager w) (pi_entity_id it) f (w_id w) (pi_now it) in
  (match r with
   | Ok _ => Ok true
   | Err KeyError | Err (ValueError _) => Ok false
   | Err e => Err e
   end, m).

(** The loop body.  An exception leaves the loop with the state so far. *)
Definition watch_item (w : WatcherService) (c : WatcherTickResult) (it : pending_item)
  : result WatcherTickResult * WatcherService :=
  let s := pi_sth it in
  let c := checked c in
  match (payload ← signable_payload s; MLDSA_verify pq profile (sth_operator_vk s) payload (sth_signature s)) with
  | Err e => (Err e, w)
  | Ok false =>
      let c := count c 1 1 0 0 in
      match signable_payload s with
      | Err e => (Err e, w)
      | Ok payload =>
          let f := InvalidSignatureFraudProof (pi_anchor_digest it) (sth_operator_vk s) payload (sth_signature s) in
          let '(r, m) := try_submit w it f in
          (match r with Ok sub => Ok (count c 0 0 (if sub then 1 else 0)%nat 0) | Err e => Err e end,
           with_manager w m (w_store w))
      end
  | Ok true =>
      let c := count c 1 0 0 0 in
      let '(fork, st) := store_record (w_store w) s in
      match fork with
      | None => (Ok c, with_manager w (w_manager w) st)
      | Some f =>
          let '(r, m) := try_submit w it f in
          (match r with Ok sub => Ok (count c 0 0 (if sub then 1 else 0)%nat 1) | Err e => Err e end, with_manager w m st)
      end
  end.

Fixpoint watch (w : WatcherService) (c : WatcherTickResult) (items : list pending_item)
  : result WatcherTickResult * WatcherService :=
  match items with
  | [] => (Ok c, w)
  | it :: items =>
      match watch_item w c it with
      | (Err e, w) => (Err e, w)
      | (Ok c, w) => watch w c items
      end
  end.

(** [tick]: the queue is emptied first. *)
Definition watcher_tick (w : WatcherService) : result WatcherTickResult * WatcherService :=
  watch {| w_manager := w_manager w; w_store := w_store w; w_id := w_id w; w_pending := [] |}
    {| wr_anchors_checked := 0; wr_signatures_verified := 0; wr_signatures_invalid := 0;
       wr_fraud_proofs_submitted := 0; wr_forks_detected := 0 |} (w_pending w).

(** ** Fraud proofs convict exactly the guilty *)
Lemma sth_verify_eq (s : SignedTreeHead) : sth_verify pq profile s =
  (payload ← signable_payload s; MLDSA_verify pq profile (sth_operator_vk s) payload (sth_signature s)).
Proof. done. Qed.

Lemma fork_convicts a b : sth_operator_vk a = sth_operator_vk b -> sth_sequence a = sth_sequence b ->
  sth_root_hash a <> sth_root_hash b -> sth_verify pq profile a = Ok true -> sth_verify pq profile b = Ok true ->
  fraud_verify pq profile (InconsistentSTHFraudProof a b) = Ok true.
Proof.
  rewrite !sth_verify_eq. intros E1 E2 E3 Ha Hb. unfold fraud_verify, inconsistent_sth_verify.
  rewrite bool_decide_eq_true_2 by done. rewrite E2, Z.eqb_refl, bool_decide_eq_false_2 by done. cbn [negb].
  unfold mbind, result_bind in *. destruct (signable_payload a); [|done]. rewrite Ha.
  destruct (signable_payload b); [|done]. by rewrite E1, Hb.
Qed.

Lemma fork_guilty a b : fraud_verify pq profile (InconsistentSTHFraudProof a b) = Ok true ->
  sth_operator_vk a = sth_operator_vk b /\ sth_sequence a = sth_sequence b /\ sth_root_hash a <> sth_root_hash b /\
  sth_verify pq profile a = Ok true /\ sth_verify pq profile b = Ok true.
Proof.
  rewrite !sth_verify_eq. unfold fraud_verify, inconsistent_sth_verify.
  destruct (bool_decide (sth_operator_vk a = sth_operator_vk b)) eqn:E1; [|done].
  destruct (sth_sequence a =? sth_sequence b) eqn:E2; [|done].
  destruct (bool_decide (sth_root_hash a = sth_root_hash b)) eqn:E3; [done|]. cbn [negb]. breflect.
  unfold mbind, result_bind. destruct (signable_payload a); [|done]. destruct (MLDSA_verify _ _ _ _ _) as [va|] eqn:Ea; [|done].
  destruct (signable_payload b); [|done]. rewrite <- E1. destruct (MLDSA_verify pq profile (sth_operator_vk a) a1 _) as [vb|]; [|done].
  intros [= Hv]. apply andb_true_iff in Hv as [-> ->]. done.
Qed.
End Watcher.

(** Fraud proofs convict the guilty only.  A fork proof is accepted if and
    only if its two heads are by one operator, at one sequence number, with
    different roots and both signed; so two heads published by one log,
    however it is driven, never convict its operator, nor does any of them as
    an alleged invalid signature. *)
Theorem fork_proof_exact `{CanonicalHash} pq profile :
  (forall a b, fraud_verify pq profile (InconsistentSTHFraudProof a b) = Ok true <->
     sth_operator_vk a = sth_operator_vk b /\ sth_sequence a = sth_sequence b /\ sth_root_hash a <> sth_root_hash b /\
     sth_verify pq profile a = Ok true /\ sth_verify pq profile b = Ok true) /\
  forall vk sk l s s', signs_for pq profile sk vk -> reachable pq profile vk sk l -> s ∈ log_sths l -> s' ∈ log_sths l ->
    fraud_verify pq profile (InconsistentSTHFraudProof s s') <> Ok true /\
    forall d payload, signable_payload s = Ok payload ->
      fraud_verify pq profile (InvalidSignatureFraudProof d (sth_operator_vk s) payload (sth_signature s)) = Ok false.
Proof.
  split; [split; [apply fork_guilty|intros (?&?&?&?&?); by apply fork_convicts]|].
  intros vk sk l s s' Hs Hr [i Hi]%list_elem_of_lookup_1 [j Hj]%list_elem_of_lookup_1.
  apply reachable_inv in Hr; [|done].
  destruct (inv_sths _ _ _ _ _ Hr i s Hi) as (Hseq & _ & _ & Hv). destruct (inv_sths _ _ _ _ _ Hr j s' Hj) as (Hseq' & _).
  split.
  - intros (_ & E & Hne & _)%fork_guilty. assert (i = j) as <- by lia. congruence.
  - intros d payload Ep. rewrite sth_verify_eq, Ep in Hv. unfold mbind, result_bind in Hv. unfold fraud_verify, invalid_signature_verify, mbind, result_bind. by rewrite Hv.
Qed.

(** * The life of a challenge window *)
(** One operation on the manager, by whoever calls it. *)
Inductive challenge_op : Type :=
| OpOpen (id : pystr) (digest : bytes) (now : Float64.float64)
| OpSubmit (id : pystr) (f : FraudProof) (who : pystr) (now : Float64.float64)
| OpResolve (id resolution : pystr) (now : Float64.float64)
| OpProof (id : pystr) (p : ZKBridgeProof) (now : Float64.float64)
| OpTick (now : option Float64.float64) (clock : Float64.float64).

Section Life.
Context `{CanonicalHash} (pq : pq_backend) (profile : SecurityProfile) (sp1 risc0 : bytes -> bool).

Definition run_op (m : ChallengeManager) (o : challenge_op) : ChallengeManager :=
  match o with
  | OpOpen id d now => (open_challenge_window m id d now).2
  | OpSubmit id f who now => (submit_challenge pq profile m id f who now).2
  | OpResolve id r now => (resolve_challenge m id r now).2
  | OpProof id p now => (resolve_with_proof sp1 risc0 m id p now).2
  | OpTick now clock => (tick m now clock).2
  end.

(** The abstract machine a window goes through. *)
Inductive life : option ChallengeStatus -> option ChallengeStatus -> Prop :=
| life_stay s : life s s
| life_open : life None (Some OPEN)
| life_reopen s : s <> OPEN -> s <> CHALLENGED -> life (Some s) (Some OPEN)
| life_step s s' : valid_transition s s' = true -> life (Some s) (Some s').

Definition status_of (m : ChallengeManager) (id : pystr) : option ChallengeStatus := ch_status <$> find_record m id.

Lemma find_put m id r id' : find_record (put_record m id r) id' = if decide (id = id') then Some r else find_record m id'.
Proof. apply dict_find_set. Qed.

Lemma put_put m id r r' : put_record (put_record m id r) id r' = put_record m id r'.
Proof.
  unfold put_record. f_equal. cbn. generalize (cm_records m) as d. induction d as [|[k v] d IH]; simpl.
  - by rewrite decide_True.
  - destruct (decide (k = id)) as [->|]; simpl; [by rewrite decide_True|by rewrite decide_False, IH].
Qed.

Lemma transition_moves m id to rec m' : transition m id to = Ok (rec, m') -> exists r, find_record m id = Some r /\
  valid_transition (ch_status r) to = true /\ rec = with_status r to /\ m' = put_record m id rec.
Proof.
  unfold transition. destruct (find_record m id) as [r|]; [|done]. destruct (valid_transition (ch_status r) to) eqn:E; [|done].
  intros [= <- <-]. by exists r.
Qed.

(** What an operation does: nothing, a tick, or new contents for one record. *)
Inductive effect (m : ChallengeManager) : challenge_op -> ChallengeManager -> Prop :=
| eff_none o : effect m o m
| eff_tick t clock : effect m (OpTick t clock) (tick m t clock).2
| eff_open id d now : (forall r, find_record m id = Some r -> active r = false) -> length d = 32%nat ->
    effect m (OpOpen id d now) (put_record m id {| ch_entity_id := id; ch_anchor_digest := d; ch_status := OPEN; ch_opened_at := now;
      ch_challenge_deadline := f64_add now (cm_challenge_period m); ch_challenger_id := [];
      ch_fraud_proof_hash := []; ch_fraud_proof_type := []; ch_resolved_at := f64_zero; ch_resolution := [] |})
| eff_challenge id r f who now h ty : find_record m id = Some r -> ch_status r = OPEN ->
    f64_gt now (ch_challenge_deadline r) = false -> fraud_verify pq profile f = Ok true ->
    match proof_hash f with Ok x => h = x /\ ty = fraud_type f | Err _ => h = ch_fraud_proof_hash r /\ ty = ch_fraud_proof_type r end ->
    effect m (OpSubmit id f who now) (put_record m id (with_challenge (with_status r CHALLENGED) who h ty))
| eff_resolve id r now res : find_record m id = Some r -> ch_status r = CHALLENGED ->
    res = lit "valid_fraud" \/ res = lit "invalid_challenge" ->
    effect m (OpResolve id res now) (put_record m id (with_resolution (with_status r RESOLVED) now res))
| eff_proof id r now p : find_record m id = Some r -> active r = true -> zk_verify sp1 risc0 p = Ok true ->
    effect m (OpProof id p now) (put_record m id (with_resolution (with_status r FINALIZED) now (lit "zk_proof"))).

Lemma run_op_effect m o : effect m o (run_op m o).
Proof.
  destruct o as [id d now|id f who now|id res now|id p now|now clock]; cbn [run_op].
  - unfold open_challenge_window. destruct (length d =? 32)%nat eqn:Ed; [|constructor]. cbn [negb]. breflect.
    destruct (find_record m id) as [r|] eqn:Er; [destruct (active r) eqn:Ea; [constructor|]|];
      apply eff_open; try done; rewrite Er; [by intros ? [= <-]|done].
  - unfold submit_challenge. destruct (find_record m id) as [r|] eqn:Er; [|constructor].
    destruct (f64_gt now (ch_challenge_deadline r)) eqn:Et; [constructor|].
    destruct (fraud_verify pq profile f) as [[]|] eqn:Ef; [|constructor|constructor].
    destruct (transition m id CHALLENGED) as [[rec m']|] eqn:Etr; [|constructor].
    apply transition_moves in Etr as (r' & Er' & Hv & -> & ->). assert (r' = r) as -> by congruence.
    assert (ch_status r = OPEN) as Ho by by destruct (ch_status r).
    destruct (proof_hash f) eqn:Eh; cbn [snd]; rewrite put_put; eapply eff_challenge; try done; by rewrite Eh.
  - unfold resolve_challenge. destruct (bool_decide (res = lit "valid_fraud")) eqn:E1;
      [|destruct (bool_decide (res = lit "invalid_challenge")) eqn:E2; [|constructor]]; cbn [negb orb]; breflect;
      (destruct (transition m id RESOLVED) as [[rec m']|] eqn:Etr; [|constructor];
       apply transition_moves in Etr as (r & Er & Hv & -> & ->); cbn [snd]; rewrite put_put; apply eff_resolve;
       [done|by destruct (ch_status r)|auto]).
  - unfold resolve_with_proof. destruct (zk_verify sp1 risc0 p) as [[]|] eqn:Ez; [|constructor|constructor].
    destruct (find_record m id) as [r|] eqn:Er; [|constructor]. destruct (active r) eqn:Ea; [|constructor].
    by eapply eff_proof.
  - apply eff_tick.
Qed.

Lemma find_tick m t clock id :
  find_record (tick m t clock).2 id = (fun r => (tick_record (tick_time t clock) r).1) <$> find_record m id.
Proof.
  unfold find_record, tick. cbn. generalize (cm_records m) as d. induction d as [|[k r] d IH]; simpl; [done|].
  by destruct (decide (k = id)).
Qed.

Lemma tick_keys m t clock : (cm_records (tick m t clock).2).*1 = (cm_records m).*1.
Proof. cbn. induction (cm_records m) as [|[k r] d IH]; [done|]. cbn. by f_equal. Qed.

Lemma tick_record_spec t r :
  (tick_record t r = (r, false) /\ (active r = false \/ f64_gt t (ch_challenge_deadline r) = false)) \/
  (exists s', tick_record t r = (with_status r s', true) /\ f64_gt t (ch_challenge_deadline r) = true /\
     (ch_status r = OPEN /\ s' = FINALIZED \/ ch_status r = CHALLENGED /\ s' = EXPIRED)).
Proof.
  unfold tick_record, active. destruct (f64_gt t (ch_challenge_deadline r)) eqn:E.
  - destruct (ch_status r) eqn:Es; try (by left; split; [|left]); right; eexists; split_and!; eauto.
  - rewrite !andb_false_r. left. auto.
Qed.

(** Why a record is in its state: the operations since its window was opened
    hold the call that brought it there. *)
Definition challenged_by (r : ChallengeRecord) (id : pystr) (calls : list challenge_op) : Prop :=
  exists before f now after, calls = before ++ OpSubmit id f (ch_challenger_id r) now :: after /\
    fraud_verify pq profile f = Ok true /\ f64_gt now (ch_challenge_deadline r) = false /\
    match proof_hash f with
    | Ok h => ch_fraud_proof_hash r = h /\ ch_fraud_proof_type r = fraud_type f
    | Err _ => ch_fraud_proof_hash r = [] /\ ch_fraud_proof_type r = []
    end.
Definition timed_out (r : ChallengeRecord) (o : challenge_op) : Prop :=
  match o with OpTick t clock => f64_gt (tick_time t clock) (ch_challenge_deadline r) = true | _ => False end.
Definition explained (r : ChallengeRecord) (id : pystr) (calls : list challenge_op) : Prop :=
  match ch_status r with
  | OPEN => ch_challenger_id r = [] /\ ch_fraud_proof_hash r = [] /\ ch_fraud_proof_type r = [] /\ ch_resolution r = []
  | CHALLENGED => challenged_by r id calls /\ ch_resolution r = []
  | RESOLVED => exists before after, calls = before ++ OpResolve id (ch_resolution r) (ch_resolved_at r) :: after /\
      challenged_by r id before /\ (ch_resolution r = lit "valid_fraud" \/ ch_resolution r = lit "invalid_challenge")
  | FINALIZED => exists before o after, calls = before ++ o :: after /\
      (timed_out r o /\ ch_resolution r = [] /\ ch_fraud_proof_hash r = [] \/
       exists p, o = OpProof id p (ch_resolved_at r) /\ zk_verify sp1 risc0 p = Ok true /\ ch_resolution r = lit "zk_proof")
  | EXPIRED => exists before o after, calls = before ++ o :: after /\ timed_out r o /\ challenged_by r id before /\ ch_resolution r = []
  end.
Definition record_sound (period : Float64.float64) (ops : list challenge_op) (id : pystr) (r : ChallengeRecord) : Prop :=
  ch_entity_id r = id /\ length (ch_anchor_digest r) = 32%nat /\
  ch_challenge_deadline r = f64_add (ch_opened_at r) period /\
  exists before calls, ops = before ++ OpOpen id (ch_anchor_digest r) (ch_opened_at r) :: calls /\ explained r id calls.

Record manager_inv (period : Float64.float64) (ops : list challenge_op) (m : ChallengeManager) : Prop := {
  mi_period : cm_challenge_period m = period;
  mi_ids : NoDup (cm_records m).*1;
  mi_records : forall id r, find_record m id = Some r -> record_sound period ops id r
}.

Lemma challenged_by_snoc r id calls o : challenged_by r id calls -> challenged_by r id (calls ++ [o]).
Proof. intros (b & f & now & a & -> & H1 & H2 & H3). exists b, f, now, (a ++ [o]). split_and!; try done. by rewrite <- app_assoc. Qed.
Lemma explained_snoc r id calls o : explained r id calls -> explained r id (calls ++ [o]).
Proof.
  unfold explained. destruct (ch_status r).
  - done.
  - intros [? ?]. split; [by apply challenged_by_snoc|done].
  - intros (b & a & -> & Hx). exists b, (a ++ [o]). by rewrite <- app_assoc.
  - intros (b & o' & a & -> & Hx). exists b, o', (a ++ [o]). by rewrite <- app_assoc.
  - intros (b & o' & a & -> & Hx). exists b, o', (a ++ [o]). by rewrite <- app_assoc.
Qed.
Lemma record_sound_snoc period ops id r o : record_sound period ops id r -> record_sound period (ops ++ [o]) id r.
Proof.
  intros (? & ? & ? & b & calls & -> & Hx). split_and!; try done. exists b, (calls ++ [o]). split; [by rewrite <- app_assoc|by apply explained_snoc].
Qed.
(** A record that keeps its identity moves when its new state is explained by
    the next call. *)
Lemma record_sound_move period ops id r r' o : record_sound period ops id r ->
  ch_entity_id r' = ch_entity_id r -> ch_anchor_digest r' = ch_anchor_digest r -> ch_opened_at r' = ch_opened_at r ->
  ch_challenge_deadline r' = ch_challenge_deadline r -> (forall calls, explained r id calls -> explained r' id (calls ++ [o])) ->
  record_sound period (ops ++ [o]) id r'.
Proof.
  intros (? & ? & ? & b & calls & -> & Hx) E1 E2 E3 E4 Hm. unfold record_sound. rewrite E1, E2, E3, E4. split_and!; try done.
  exists b, (calls ++ [o]). split; [by rewrite <- app_assoc|by apply Hm].
Qed.

Lemma put_record_inv period ops o m id r : manager_inv period ops m -> record_sound period (ops ++ [o]) id r ->
  manager_inv period (ops ++ [o]) (put_record m id r).
Proof.
  intros [Hp Hd Hr] Hs. split; [done|by apply dict_set_NoDup|]. intros id' r'. rewrite find_put.
  destruct (decide (id = id')) as [<-|]; [by intros [= <-]|intros E; by apply record_sound_snoc, Hr].
Qed.

Lemma effect_inv period ops m o m' : effect m o m' -> manager_inv period ops m -> manager_inv period (ops ++ [o]) m'.
Proof.
  intros He Hi. destruct He as [o|t clock|id d now Hin Hd|id r f who now h ty Er Eo Et Ef Eh|id r now res Er Es Hres|id r now p Er Ea Ez].
  - destruct Hi as [Hp Hd Hr]. split; [done|done|]. intros id r Er. by apply record_sound_snoc, Hr.
  - destruct Hi as [Hp Hd Hr]. split; [done|by rewrite tick_keys|].
    intros id r'. rewrite find_tick. intros (r & Er & ->)%fmap_Some. specialize (Hr id r Er).
    destruct (tick_record_spec (tick_time t clock) r) as [[-> _]|(s' & -> & Et & Hs)]; [by apply record_sound_snoc|].
    cbn [fst]. eapply record_sound_move; [exact Hr|done..|]. intros calls Hx. unfold explained in *.
    destruct Hs as [[E ->]|[E ->]]; rewrite E in Hx; cbn [ch_status with_status]; exists calls, (OpTick t clock), []; (split; [done|]).
    + destruct Hx as (_ & Hh & _ & Hres). left. split_and!; done.
    + destruct Hx as [Hc Hres]. split_and!; done.
  - apply put_record_inv; [done|]. split_and!; try done; [cbn; by rewrite (mi_period _ _ _ Hi)|]. by exists ops, [].
  - apply put_record_inv; [done|]. eapply record_sound_move; [by apply (mi_records _ _ _ Hi)|done..|]. intros calls Hx. unfold explained in *.
    rewrite Eo in Hx. destruct Hx as (_ & Hh & Hty & Hres). cbn [ch_status with_challenge with_status]. split; [|done].
    exists calls, f, now, []. split_and!; try done. cbn. destruct (proof_hash f); destruct Eh as [-> ->]; by split.
  - apply put_record_inv; [done|]. eapply record_sound_move; [by apply (mi_records _ _ _ Hi)|done..|]. intros calls Hx. unfold explained in *.
    rewrite Es in Hx. destruct Hx as [Hc _]. cbn [ch_status with_resolution with_status ch_resolution ch_resolved_at]. exists calls, []. by split_and!.
  - apply put_record_inv; [done|]. eapply record_sound_move; [by apply (mi_records _ _ _ Hi)|done..|]. intros calls Hx. unfold explained.
    cbn [ch_status with_resolution with_status ch_resolution ch_resolved_at]. exists calls, (OpProof id p now), []. split; [done|]. right. by exists p.
Qed.

Lemma run_ops_inv period ops : manager_inv period ops (fold_left run_op ops (new_challenge_manager period)).
Proof.
  induction ops as [|o ops IH] using rev_ind; [split; [done|constructor|done]|].
  rewrite fold_left_app. cbn [fold_left]. eapply effect_inv; [apply run_op_effect|exact IH].
Qed.
End Life.


(** What the opening of a window fixes. *)
Definition same_window (r r' : ChallengeRecord) : Prop :=
  ch_entity_id r' = ch_entity_id r /\ ch_anchor_digest r' = ch_anchor_digest r /\
  ch_opened_at r' = ch_opened_at r /\ ch_challenge_deadline r' = ch_challenge_deadline r.
Lemma effect_refines `{CanonicalHash} pq profile sp1 risc0 m o m' id : effect pq profile sp1 risc0 m o m' ->
  life (status_of m id) (status_of m' id) /\
  forall r, find_record m id = Some r -> exists r', find_record m' id = Some r' /\
    (same_window r r' \/ exists d now, o = OpOpen id d now /\ active r = false /\ ch_status r' = OPEN /\ ch_anchor_digest r' = d /\ ch_opened_at r' = now).
Proof.
  assert (forall id' r r1 m, find_record m id' = Some r -> same_window r r1 -> life (Some (ch_status r)) (Some (ch_status r1)) ->
    life (status_of m id) (status_of (put_record m id' r1) id) /\
    forall r, find_record m id = Some r -> exists r', find_record (put_record m id' r1) id = Some r' /\
      (same_window r r' \/ exists d now, o = OpOpen id d now /\ active r = false /\ ch_status r' = OPEN /\ ch_anchor_digest r' = d /\ ch_opened_at r' = now)) as Hput.
  { intros id' r r1 m0 Er Hsame Hl. unfold status_of. rewrite find_put. destruct (decide (id' = id)) as [->|].
    - rewrite Er. split; [exact Hl|]. intros ? [= <-]. exists r1. auto.
    - split; [constructor|]. intros r0 Er0. exists r0. split; [done|by left]. }
  intros He. destruct He as [o|t clock|id' d now Hin Hd|id' r f who now h ty Er Eo Et Ef Eh|id' r now res Er Es Hres|id' r now p Er Ea Ez].
  - split; [constructor|]. intros r Er. exists r. split; [done|by left].
  - unfold status_of. rewrite find_tick. destruct (find_record m id) as [r|]; cbn; [|split; [constructor|done]].
    destruct (tick_record_spec (tick_time t clock) r) as [[-> _]|(s' & -> & _ & Hs)]; cbn.
    + split; [constructor|]. intros ? [= <-]. exists r. split; [done|by left].
    + split; [constructor; by destruct Hs as [[-> ->]|[-> ->]]|]. intros ? [= <-]. eexists. split; [done|by left].
  - unfold status_of. rewrite find_put. destruct (decide (id' = id)) as [->|]; [|split; [constructor|]; intros r Er; exists r; split; [done|by left]]. cbn. split.
    + destruct (find_record m id) as [r|] eqn:Er; cbn; [|constructor]. specialize (Hin r eq_refl). unfold active in Hin.
      constructor; intros E; by rewrite E in Hin.
    + intros r Er. eexists. split; [done|]. right. exists d, now. split_and!; try done. by apply Hin.
  - eapply Hput; [exact Er|done|]. constructor. by rewrite Eo.
  - eapply Hput; [exact Er|done|]. constructor. by rewrite Es.
  - eapply Hput; [exact Er|done|]. cbn. unfold active in Ea. destruct (ch_status r); [by constructor|by constructor|done..].
Qed.

(** C16: Refinement of the life cycle.  Every operation, failing ones included,
    moves every window along the table of valid transitions, opens it, or
    leaves it alone; it never drops one; and the entity, the digest, the
    opening time and the deadline of any window, closed ones included, are
    what they were unless the operation opens that very window anew, which it
    does only when the window is closed. *)
Theorem window_refines `{CanonicalHash} pq profile sp1 risc0 m o id :
  let m' := run_op pq profile sp1 risc0 m o in
  life (status_of m id) (status_of m' id) /\
  forall r, find_record m id = Some r -> exists r', find_record m' id = Some r' /\
    (same_window r r' \/ exists d now, o = OpOpen id d now /\ active r = false /\ ch_status r' = OPEN /\ ch_anchor_digest r' = d /\ ch_opened_at r' = now).
Proof. intros m'. eapply effect_refines, run_op_effect. Qed.

(** Ticks are exact and make progress.  A tick reports, in insertion order,
    precisely the active windows whose deadline has passed; those end as
    finalized or expired, no other window changes, and none that is due
    stays active. *)
Theorem tick_exact m t clock :
  let now := tick_time t clock in
  let '(ids, m') := tick m t clock in
  ids = map fst (filter (fun kv => active kv.2 = true /\ f64_gt now (ch_challenge_deadline kv.2) = true) (cm_records m)) /\
  (forall id r, find_record m id = Some r ->
     find_record m' id = Some (if active r && f64_gt now (ch_challenge_deadline r)
                               then with_status r (if bool_decide (ch_status r = OPEN) then FINALIZED else EXPIRED) else r)) /\
  forall id r, find_record m' id = Some r -> active r = true -> f64_gt now (ch_challenge_deadline r) = false.
Proof.
  intros now. destruct (tick m t clock) as [ids m'] eqn:E.
  assert (ids = (tick m t clock).1 /\ m' = (tick m t clock).2) as [-> ->] by by rewrite E. clear E.
  assert (forall r, tick_record now r = (if active r && f64_gt now (ch_challenge_deadline r)
    then (with_status r (if bool_decide (ch_status r = OPEN) then FINALIZED else EXPIRED), true) else (r, false))) as Hr.
  { intros r. destruct (tick_record_spec now r) as [[-> [->| ->]]|(s' & -> & -> & [[Es ->]|[Es ->]])];
      [done|by rewrite andb_false_r|..]; unfold active; by rewrite Es. }
  split_and!.
  - unfold tick. cbn [fst]. fold now. f_equal. apply list_filter_iff. intros [k r]. cbn. rewrite Hr.
    destruct (active r), (f64_gt now (ch_challenge_deadline r)); naive_solver.
  - intros id r Er. rewrite find_tick, Er. cbn. fold now. rewrite Hr. by destruct (_ && _).
  - intros id r'. rewrite find_tick. intros (r & _ & ->)%fmap_Some. fold now. rewrite Hr.
    destruct (active r) eqn:Ea, (f64_gt now (ch_challenge_deadline r)) eqn:Et; cbn; try done.
    all: first [by rewrite Ea | by destruct (bool_decide (ch_status r = OPEN))].
Qed.

(** * Finality proofs *)
Lemma slice_app a b (x y z : bytes) : length x = a -> (a + length y)%nat = b -> slice a b (x ++ y ++ z) = y.
Proof. intros <- <-. unfold slice. rewrite drop_app_length. apply take_app_length'. lia. Qed.

Lemma byte_encode v : 0 <= v < 256 -> be_encode 1 v = [v].
Proof. intros Hv. unfold be_encode. cbn [app]. by rewrite Z.mod_small. Qed.

Section Stark.
Context `{CanonicalHash} (pq : pq_backend) (profile : SecurityProfile) (sp1 risc0 : bytes -> bool).

Lemma inputs_encode i : 0 <= zi_tree_size i < 2 ^ 64 -> 0 <= zi_sth_sequence i < 2 ^ 64 ->
  exists b, inputs_to_bytes i = Ok b.
Proof.
  intros Hn Hs. unfold inputs_to_bytes. 
  rewrite (proj2 (struct_pack_Ok 8 (zi_tree_size i) _) (conj Hn eq_refl)).
  rewrite (proj2 (struct_pack_Ok 8 (zi_sth_sequence i) _) (conj Hs eq_refl)). cbn. by eexists.
Qed.

(** A proof assembled from the public statement alone. *)
Definition forged_proof (i : ZKBridgePublicInputs) (pi : bytes) : ZKBridgeProof :=
  {| zp_proof_bytes := repeat 0 96 ++ zk_tag (pi ++ repeat 0 96) (lit "stark-verify"); zp_backend := STARK;
     zp_public_inputs := i; zp_proof_id := [] |}.

Lemma zk_tag_length parts suffix : length (zk_tag parts suffix) = digest_size.
Proof. apply chash_length. Qed.

Lemma forged_verifies i pi : digest_size = 32%nat -> inputs_to_bytes i = Ok pi ->
  zk_verify sp1 risc0 (forged_proof i pi) = Ok true.
Proof.
  intros Hd Hi. unfold zk_verify, forged_proof. cbn [zp_backend]. unfold verify_stark. cbn [zp_proof_bytes zp_public_inputs].
  set (tag := zk_tag (pi ++ repeat 0 96) (lit "stark-verify")).
  assert (length tag = 32%nat) as Ht by (unfold tag; by rewrite zk_tag_length).
  rewrite length_app, repeat_length, Ht. cbn [Nat.add Nat.eqb]. rewrite Hi. unfold mbind, result_bind. f_equal.
  rewrite take_app_length' by (by rewrite repeat_length). apply bool_decide_eq_true.
  rewrite <- (app_nil_r tag), (slice_app 96 128); [done|apply repeat_length|by rewrite Ht].
Qed.

(** The proof the prover assembles, taken apart. *)
Lemma prove_Ok sec roots s p : prove_sth_signature pq profile sec roots s = Ok p ->
  exists pi w, sth_verify pq profile s = Ok true /\ inputs_to_bytes (from_sth s) = Ok pi /\
    0 <= Z.of_nat (length roots) < 256 /\ 0 <= sec < 256 /\ zp_backend p = STARK /\ zp_public_inputs p = from_sth s /\
    let body := ([3; Z.of_nat (length roots); sec] ++ repeat 0 5) ++ zk_tag pi (lit "stark-public") ++
                zk_tag w (lit "stark-witness") ++ concat roots in
    zp_proof_bytes p = body ++ zk_tag body (lit "stark-verify").
Proof.
  unfold prove_sth_signature, mbind, result_bind. destruct (sth_verify pq profile s) as [[]|]; [|done|done]. cbn [negb].
  destruct (signable_payload s) as [payload|]; [|done]. destruct (inputs_to_bytes (from_sth s)) as [pi|]; [|done].
  destruct (struct_pack 1 (Z.of_nat (length roots))) as [r1|] eqn:E1; [|done]. apply struct_pack_Ok in E1 as [H1 ->].
  destruct (struct_pack 1 sec) as [r2|] eqn:E2; [|done]. apply struct_pack_Ok in E2 as [H2 ->].
  change (256 ^ Z.of_nat 1) with 256 in *. rewrite (byte_encode _ H1), (byte_encode _ H2).
  intros <-%Ok_inj. exists pi, (payload ++ chash (sth_operator_vk s) ++ chash (sth_signature s)). split_and!; done || lia.
Qed.

Lemma concat_roots (roots : list bytes) : Forall (fun r => length r = 32%nat) roots -> length (concat roots) = (length roots * 32)%nat.
Proof. induction 1 as [|r roots Hr _ IH]; [done|]. cbn. rewrite length_app, Hr, IH. lia. Qed.
End Stark.

(** Honest finality proofs verify where the canonical hash has 32 bytes, and
    never where it has 48: the parser reads hash fields of 32 bytes whatever
    the profile, so under the SHA-384 profiles every proof the prover makes
    is rejected. *)
Theorem stark_proofs_verify `{CanonicalHash} pq profile sp1 risc0 sec roots s p :
  prove_sth_signature pq profile sec roots s = Ok p -> Forall (fun r => length r = 32%nat) roots ->
  (digest_size = 32%nat -> zk_verify sp1 risc0 p = Ok true) /\ (digest_size = 48%nat -> zk_verify sp1 risc0 p = Ok false).
Proof.
  intros Hp Hr. apply prove_Ok in Hp as (pi & w & _ & Hpi & Hn & Hsec & Hb & Hin & E). apply concat_roots in Hr.
  unfold zk_verify. rewrite Hb. unfold verify_stark. rewrite Hin. set (h := [3; Z.of_nat (length roots); sec] ++ repeat 0 5) in E.
  set (t1 := zk_tag pi _) in E. set (t2 := zk_tag w _) in E. set (body := h ++ t1 ++ t2 ++ concat roots) in E. cbv zeta in E.
  assert (length t1 = digest_size /\ length t2 = digest_size) as [H1 H2] by (split; apply zk_tag_length).
  assert (length (zp_proof_bytes p) = (8 + 3 * digest_size + length roots * 32)%nat) as Hlen.
  { rewrite E. unfold body. rewrite !length_app, zk_tag_length, H1, H2, Hr. change (length h) with 8%nat. lia. }
  assert (zp_proof_bytes p !!! 0%nat = 3 /\ zp_proof_bytes p !!! 1%nat = Z.of_nat (length roots)) as [Ev En] by by rewrite E.
  rewrite Hlen, Ev, En, Nat2Z.id, Hpi. split; intros Hd; rewrite Hd.
  - destruct (Nat.eqb_spec (8 + 3 * 32 + length roots * 32) 128); [lia|].
    destruct (Nat.ltb_spec (8 + 3 * 32 + length roots * 32) 8); [lia|]. cbn [Z.eqb Pos.eqb].
    destruct (Nat.eqb_spec (8 + 3 * 32 + length roots * 32) (8 + 32 + 32 + length roots * 32 + 32)); [|lia]. cbn [negb].
    unfold mbind, result_bind. rewrite E.
    assert (slice 8 40 (body ++ zk_tag body (lit "stark-verify")) = t1) as ->.
    { unfold body. rewrite <- !app_assoc. apply slice_app; [done|]. by rewrite H1, Hd. }
    rewrite bool_decide_eq_true_2 by done. cbn [negb]. f_equal. apply bool_decide_eq_true.
    assert (forall x, take 8 (body ++ x) = h) as Hs1.
    { intros x. unfold body. rewrite <- app_assoc. by apply take_app_length'. }
    assert (forall x, slice 40 72 (body ++ x) = t2) as Hs2.
    { intros x. unfold body. rewrite <- !app_assoc, (app_assoc h). apply slice_app; [rewrite length_app, H1, Hd; done|by rewrite H2, Hd]. }
    assert (forall x, slice 72 (72 + length roots * 32) (body ++ x) = concat roots) as Hs3.
    { intros x. unfold body. rewrite <- !app_assoc, (app_assoc t1), (app_assoc h).
      apply slice_app; [rewrite !length_app, H1, H2, Hd; done|by rewrite Hr]. }
    assert (forall x, length x = 32%nat -> slice (72 + length roots * 32) (72 + length roots * 32 + 32) (body ++ x) = x) as Hs4.
    { intros x Hx. rewrite <- (app_nil_r x) at 1. apply slice_app; [|by rewrite Hx].
      unfold body. rewrite !length_app, H1, H2, Hr, Hd. change (length h) with 8%nat. lia. }
    by rewrite Hs4, Hs1, Hs2, Hs3 by by rewrite zk_tag_length.
  - destruct (Nat.eqb_spec (8 + 3 * 48 + length roots * 32) 128); [lia|].
    destruct (Nat.ltb_spec (8 + 3 * 48 + length roots * 32) 8); [lia|]. cbn [Z.eqb Pos.eqb].
    destruct (Nat.eqb_spec (8 + 3 * 48 + length roots * 32) (8 + 32 + 32 + length roots * 32 + 32)); [lia|]. done.
Qed.

(** Finality proofs can be made up.  Their checks are hashes of public data:
    from any statement (root, operator, size, sequence), with no tree head,
    key or signature, anyone computes a proof that verifies, and with it
    finalizes at once any window that is open or under challenge. *)
Theorem finality_forgeable `{CanonicalHash} sp1 risc0 m id r i now : digest_size = 32%nat ->
  0 <= zi_tree_size i < 2 ^ 64 -> 0 <= zi_sth_sequence i < 2 ^ 64 ->
  find_record m id = Some r -> active r = true ->
  exists p r' m', zp_public_inputs p = i /\ resolve_with_proof sp1 risc0 m id p now = (Ok r', m') /\
    find_record m' id = Some r' /\ ch_status r' = FINALIZED /\ ch_anchor_digest r' = ch_anchor_digest r.
Proof.
  intros Hd Hn Hs Hr Ha. destruct (inputs_encode i Hn Hs) as [pi Hi].
  exists (forged_proof i pi), (with_resolution (with_status r FINALIZED) now (lit "zk_proof")). eexists. split; [done|].
  unfold resolve_with_proof. rewrite forged_verifies, Hr, Ha by done. cbn [negb]. split; [done|].
  split; [|done]. rewrite find_put. by rewrite decide_True.
Qed.

(** Challenges are not bound to what they dispute.  Any open window can be
    challenged by anyone before its deadline with a signature that is merely
    malformed, for a key, data and an anchor digest of the challenger's
    choice. *)
Theorem anyone_challenges `{CanonicalHash} pq profile m id r vk digest data who now :
  find_record m id = Some r -> ch_status r = OPEN -> f64_gt now (ch_challenge_deadline r) = false ->
  len vk = dsa_vk_size profile -> 0 < dsa_sig_size profile ->
  is_ok (proof_hash (InvalidSignatureFraudProof digest vk data [])) = true ->
  exists r' m', submit_challenge pq profile m id (InvalidSignatureFraudProof digest vk data []) who now = (Ok r', m') /\
    find_record m' id = Some r' /\ ch_status r' = CHALLENGED /\ ch_challenger_id r' = who.
Proof.
  intros Hr Ho Ht Hvk Hsz Hh. unfold submit_challenge. rewrite Hr, Ht.
  assert (fraud_verify pq profile (InvalidSignatureFraudProof digest vk data []) = Ok true) as ->.
  { unfold fraud_verify, invalid_signature_verify, MLDSA_verify. rewrite Hvk, Z.eqb_refl. cbn [negb]. change (len []) with 0.
    destruct (Z.eqb_spec 0 (dsa_sig_size profile)); [lia|]. done. }
  unfold transition. rewrite Hr, Ho. cbn [valid_transition negb]. rewrite (get_ok_eq [] _ Hh).
  do 2 eexists. split; [done|]. rewrite find_put, decide_True by done. done.
Qed.

(** * What a watcher sees *)
Lemma store_key_inj a b : wf_bytes (sth_operator_vk a) -> wf_bytes (sth_operator_vk b) -> store_key a = store_key b ->
  sth_operator_vk a = sth_operator_vk b /\ sth_sequence a = sth_sequence b.
Proof. unfold store_key. intros Ha Hb [= E1 E2]. apply hex_inj in E1; auto. Qed.

Section Detect.
Context `{CanonicalHash} (pq : pq_backend) (profile : SecurityProfile).

(** The store holds verified heads under their own keys. *)
Definition store_ok (st : STHStore) : Prop := forall k s, st !! k = Some s ->
  store_key s = k /\ wf_bytes (sth_operator_vk s) /\ sth_verify pq profile s = Ok true.

(** An anchor whose checks do not raise. *)
Definition clean (it : pending_item) : Prop := wf_bytes (sth_operator_vk (pi_sth it)) /\
  exists payload v, signable_payload (pi_sth it) = Ok payload /\ sth_verify pq profile (pi_sth it) = Ok v /\
    is_ok (proof_hash (InvalidSignatureFraudProof (pi_anchor_digest it) (sth_operator_vk (pi_sth it)) payload
      (sth_signature (pi_sth it)))) = true.

(** A window that is open and in time at [now], or challenged by [who]; and one
    that is challenged by [who]. *)
Definition caught (who : pystr) (m : ChallengeManager) (id : pystr) : Prop :=
  exists r, find_record m id = Some r /\ ch_status r = CHALLENGED /\ ch_challenger_id r = who.
Definition open_at (m : ChallengeManager) (id : pystr) (now : Float64.float64) : Prop :=
  exists r, find_record m id = Some r /\ ch_status r = OPEN /\ f64_gt now (ch_challenge_deadline r) = false.
Definition exposed (who : pystr) (m : ChallengeManager) (id : pystr) (now : Float64.float64) : Prop := open_at m id now \/ caught who m id.

(** Submitting a challenge leaves a window as it is, or moves it from open to
    challenged by the caller. *)
Lemma submit_keeps m eid f who now : let m' := (submit_challenge pq profile m eid f who now).2 in forall id t,
  (caught who m id -> caught who m' id) /\ (exposed who m id t -> exposed who m' id t).
Proof.
  cbn zeta. intros id t. pose proof (run_op_effect pq profile (fun _ => false) (fun _ => false) m (OpSubmit eid f who now)) as He. cbn [run_op] in He.
  set (m' := (submit_challenge pq profile m eid f who now).2) in *. clearbody m'.
  assert (m' = m \/ exists r h ty, find_record m eid = Some r /\ ch_status r = OPEN /\ m' = put_record m eid (with_challenge (with_status r CHALLENGED) who h ty)) as [->|(r & h & ty & Er & Eo & ->)];
    [inversion He as [| | |id1 r1 f1 who1 now1 h1 ty1 F1 F2| |]; subst; [by left|right; by exists r1, h1, ty1]|done|].
  unfold exposed, open_at, caught. rewrite find_put. destruct (decide (eid = id)) as [->|]; [|done].
  assert (exists r', Some (with_challenge (with_status r CHALLENGED) who h ty) = Some r' /\ ch_status r' = CHALLENGED /\ ch_challenger_id r' = who) by by eexists.
  by split; [|right].
Qed.
Lemma try_submit_keeps w it f : let m' := (try_submit pq profile w it f).2 in forall id t,
  (caught (w_id w) (w_manager w) id -> caught (w_id w) m' id) /\ (exposed (w_id w) (w_manager w) id t -> exposed (w_id w) m' id t).
Proof.
  intros m' id t. pose proof (submit_keeps (w_manager w) (pi_entity_id it) f (w_id w) (pi_now it) id t) as Hk. subst m'. unfold try_submit.
  by destruct (submit_challenge _ _ _ _ _ _ _) as [r m1].
Qed.

Lemma try_submit_ok w it f v : fraud_verify pq profile f = Ok v -> is_ok (proof_hash f) = true ->
  exists b m, try_submit pq profile w it f = (Ok b, m) /\
    (v = true -> exposed (w_id w) (w_manager w) (pi_entity_id it) (pi_now it) -> caught (w_id w) m (pi_entity_id it)).
Proof.
  intros Hv Hh. pose proof (try_submit_keeps w it f) as Hk. unfold try_submit in *.
  destruct (submit_challenge pq profile (w_manager w) (pi_entity_id it) f (w_id w) (pi_now it)) as [r m] eqn:Es. cbn [snd] in Hk.
  assert (exists b, (match r with Ok _ => Ok true | Err KeyError | Err (ValueError _) => Ok false | Err e => Err e end) = Ok b) as [b ->].
  { unfold submit_challenge in Es. destruct (find_record (w_manager w) (pi_entity_id it)) as [r0|] eqn:Er; [|injection Es as <- <-; by eexists].
    destruct (f64_gt (pi_now it) (ch_challenge_deadline r0)); [injection Es as <- <-; by eexists|]. rewrite Hv in Es.
    destruct v; [|injection Es as <- <-; by eexists]. unfold transition in Es. rewrite Er in Es.
    destruct (valid_transition _ _); cbn [negb] in Es; [|injection Es as <- <-; by eexists]. rewrite (get_ok_eq [] _ Hh) in Es. injection Es as <- <-. by eexists. }
  exists b, m. split; [done|]. intros -> [(r0 & Er & Eo & Et)|Hc]; [|by apply (Hk _ (pi_now it))].
  unfold submit_challenge in Es. rewrite Er, Et, Hv in Es. unfold transition in Es. rewrite Er, Eo in Es. cbn [valid_transition negb] in Es.
  rewrite (get_ok_eq [] _ Hh) in Es. injection Es as <- <-. eexists. rewrite find_put, decide_True by done. done.
Qed.

Lemma fork_hashes a b : sth_verify pq profile a = Ok true -> sth_verify pq profile b = Ok true ->
  is_ok (proof_hash (InconsistentSTHFraudProof a b)) = true.
Proof.
  rewrite !sth_verify_eq. unfold proof_hash, fraud_to_bytes, inconsistent_sth_bytes, mbind, result_bind.
  destruct (signable_payload a); [|done]. by destruct (signable_payload b).
Qed.

(** One anchor: no exception, the store only grows, windows stay exposed, and a
    verified head is either stored, agrees with the stored one, or is counted
    as a fork and has its window challenged. *)
Lemma watch_item_ok w c it : clean it -> store_ok (w_store w) ->
  exists c' w', watch_item pq profile w c it = (Ok c', w') /\ store_ok (w_store w') /\ w_store w ⊆ w_store w' /\
    w_pending w' = w_pending w /\ w_id w' = w_id w /\ (wr_forks_detected c <= wr_forks_detected c')%nat /\
    (forall id t, (caught (w_id w) (w_manager w) id -> caught (w_id w) (w_manager w') id) /\
                  (exposed (w_id w) (w_manager w) id t -> exposed (w_id w) (w_manager w') id t)) /\
    (forall k, k <> store_key (pi_sth it) -> w_store w' !! k = w_store w !! k) /\
    (sth_verify pq profile (pi_sth it) = Ok true -> exists e, w_store w' !! store_key (pi_sth it) = Some e /\
       (e = pi_sth it \/ w_store w !! store_key (pi_sth it) = Some e) /\
       (sth_root_hash e = sth_root_hash (pi_sth it) \/ wr_forks_detected c' = S (wr_forks_detected c) /\
          (exposed (w_id w) (w_manager w) (pi_entity_id it) (pi_now it) -> caught (w_id w) (w_manager w') (pi_entity_id it)))).
Proof.
  intros (Hwf & payload & v & Hp & Hv & Hh) Hst. unfold watch_item. rewrite <- sth_verify_eq, Hv. destruct v; cycle 1.
  - rewrite Hp. set (f := InvalidSignatureFraudProof _ _ _ _). pose proof (try_submit_keeps w it f) as Hk.
    destruct (try_submit_ok w it f true) as (b & m & E & _); [|done|].
    { rewrite sth_verify_eq, Hp in Hv. unfold f, fraud_verify, invalid_signature_verify, mbind, result_bind in *. by rewrite Hv. }
    rewrite E in Hk |- *. eexists _, _. split; [done|]. cbn. split_and!; try done. lia.
  - unfold store_record. destruct (w_store w !! store_key (pi_sth it)) as [e|] eqn:Ee.
    + destruct (Hst _ _ Ee) as (Hk & Hwe & Hve). destruct (store_key_inj _ _ Hwe Hwf Hk) as [E1 E2].
      destruct (bool_decide (sth_root_hash e = sth_root_hash (pi_sth it))) eqn:Er; cbn [negb]; breflect.
      * eexists _, _. split; [done|]. cbn. split_and!; try done; [lia|]. intros _. exists e. auto.
      * pose proof (try_submit_keeps w it (InconsistentSTHFraudProof e (pi_sth it))) as Hkeep.
        destruct (try_submit_ok w it (InconsistentSTHFraudProof e (pi_sth it)) true) as (b & m & E & Hm);
          [by apply fork_convicts|by apply fork_hashes|].
        rewrite E in Hkeep |- *. eexists _, _. split; [done|]. cbn. split_and!; try done; [lia|]. intros _. exists e. split; [done|].
        split; [by right|]. right. split; [lia|]. by apply Hm.
    + eexists _, _. split; [done|]. cbn [w_store w_manager w_pending w_id with_manager wr_forks_detected count checked].
      split_and!; try done; [| |lia| |].
      * intros k s. destruct (decide (k = store_key (pi_sth it))) as [->|Hne];
          [rewrite lookup_insert_eq; by intros [= <-]|rewrite lookup_insert_ne by done; apply Hst].
      * by apply insert_subseteq.
      * intros k Hne. by rewrite lookup_insert_ne.
      * intros _. exists (pi_sth it). rewrite lookup_insert_eq. auto.
Qed.

Lemma watch_ok items : forall w c, (forall it, it ∈ items -> clean it) -> store_ok (w_store w) ->
  exists c' w', watch pq profile w c items = (Ok c', w') /\ store_ok (w_store w') /\ w_store w ⊆ w_store w' /\
    w_pending w' = w_pending w /\ w_id w' = w_id w /\ (wr_forks_detected c <= wr_forks_detected c')%nat /\
    (forall id t, (caught (w_id w) (w_manager w) id -> caught (w_id w) (w_manager w') id) /\
                  (exposed (w_id w) (w_manager w) id t -> exposed (w_id w) (w_manager w') id t)) /\
    (forall k, (forall it, it ∈ items -> store_key (pi_sth it) <> k) -> w_store w' !! k = w_store w !! k).
Proof.
  induction items as [|it items IH]; intros w c Hc Hst; cbn; [exists c, w; by split_and!|].
  destruct (watch_item_ok w c it) as (c1 & w1 & -> & Hst1 & Hsub & Hp & Hid & Hf & Hk & Ho & _); [apply Hc; by left|done|].
  destruct (IH w1 c1) as (c2 & w2 & -> & Hst2 & Hsub2 & Hp2 & Hid2 & Hf2 & Hk2 & Ho2); [intros x Hx; apply Hc; by right|done|].
  exists c2, w2. rewrite Hid in *. split_and!; try done; [by etrans|congruence|lia| |].
  - intros id t. destruct (Hk id t), (Hk2 id t). auto.
  - intros k Hne. rewrite Ho2, Ho; [done|intros E; apply (Hne it); [left|done]|]. intros x Hx. apply Hne. by right.
Qed.

Lemma watch_app xs ys w c : watch pq profile w c (xs ++ ys) =
  match watch pq profile w c xs with (Ok c, w) => watch pq profile w c ys | (Err e, w) => (Err e, w) end.
Proof.
  revert w c. induction xs as [|x xs IH]; intros w c; cbn; [done|].
  destruct (watch_item pq profile w c x) as [[c1|] w1]; [apply IH|done].
Qed.
End Detect.

(** C21: One honest watcher suffices for forks.  If the queue of a tick holds, in
    any order and among any other anchors whose checks do not raise, two
    verified heads of one operator with the same sequence number and
    different roots, the tick completes, empties the queue, counts a fork,
    and keeps its store sound.  If the windows of both anchors are open and
    in time, the tick leaves one of them challenged by the watcher, and when
    no other head of that operator and number was seen before the first of
    the two, it is the window of the later one. *)
Theorem watcher_detects_forks `{CanonicalHash} pq profile w xs a ys b zs :
  store_ok pq profile (w_store w) -> w_pending w = xs ++ a :: ys ++ b :: zs ->
  (forall it, it ∈ w_pending w -> clean pq profile it) ->
  sth_operator_vk (pi_sth a) = sth_operator_vk (pi_sth b) -> sth_sequence (pi_sth a) = sth_sequence (pi_sth b) ->
  sth_root_hash (pi_sth a) <> sth_root_hash (pi_sth b) ->
  sth_verify pq profile (pi_sth a) = Ok true -> sth_verify pq profile (pi_sth b) = Ok true ->
  exists c w', watcher_tick pq profile w = (Ok c, w') /\ (1 <= wr_forks_detected c)%nat /\ w_pending w' = [] /\
    store_ok pq profile (w_store w') /\
    (open_at (w_manager w) (pi_entity_id a) (pi_now a) -> open_at (w_manager w) (pi_entity_id b) (pi_now b) ->
       caught (w_id w) (w_manager w') (pi_entity_id a) \/ caught (w_id w) (w_manager w') (pi_entity_id b)) /\
    (open_at (w_manager w) (pi_entity_id b) (pi_now b) -> w_store w !! store_key (pi_sth a) = None ->
       (forall it, it ∈ xs -> store_key (pi_sth it) <> store_key (pi_sth a)) -> caught (w_id w) (w_manager w') (pi_entity_id b)).
Proof.
  intros Hst Hq Hc Evk Eseq Hne Ha Hb. unfold watcher_tick. rewrite Hq, watch_app.
  edestruct (watch_ok pq profile xs) as (c1 & w1 & -> & Hs1 & _ & Hp1 & Hid1 & _ & Hk1 & Ho1);
    [intros it Hin; apply Hc; rewrite Hq; apply elem_of_app; by left|exact Hst|]. cbn [watch]. cbn [w_id w_manager w_store w_pending] in Hp1, Hid1, Hk1, Ho1.
  destruct (watch_item_ok pq profile w1 c1 a) as (c2 & w2 & -> & Hs2 & _ & Hp2 & Hid2 & _ & Hk2 & _ & He);
    [apply Hc; rewrite Hq; apply elem_of_app; right; by left|done|].
  rewrite watch_app. destruct (watch_ok pq profile ys w2 c2) as (c3 & w3 & -> & Hs3 & Hsub & Hp3 & Hid3 & Hf3 & Hk3 & _);
    [intros it Hin; apply Hc; rewrite Hq; apply elem_of_app; right; right; apply elem_of_app; by left|done|]. cbn [watch].
  destruct (watch_item_ok pq profile w3 c3 b) as (c4 & w4 & -> & Hs4 & Hsub4 & Hp4 & Hid4 & Hf4 & Hk4 & _ & He4);
    [apply Hc; rewrite Hq; apply elem_of_app; right; right; apply elem_of_app; right; by left|done|].
  destruct (watch_ok pq profile zs w4 c4) as (c5 & w5 & -> & Hs5 & _ & Hp5 & Hid5 & Hf5 & Hk5 & _);
    [intros it Hin; apply Hc; rewrite Hq; apply elem_of_app; right; right; apply elem_of_app; right; by right|done|].
  exists c5, w5. split; [done|]. rewrite Hid4, Hid3, Hid2, Hid1 in *.
  destruct (He Ha) as (e & Ee & Hfrom & Hor). destruct (He4 Hb) as (e' & Ee' & _ & Hor').
  assert (store_key (pi_sth a) = store_key (pi_sth b)) as Ek by (unfold store_key; congruence).
  assert (e' = e) as ->.
  { rewrite <- Ek in Ee'. eapply lookup_weaken in Ee; [|exact Hsub]. eapply lookup_weaken in Ee; [|exact Hsub4]. congruence. }
  assert (open_at (w_manager w) (pi_entity_id b) (pi_now b) -> sth_root_hash e <> sth_root_hash (pi_sth b) -> caught (w_id w) (w_manager w5) (pi_entity_id b)) as Hcb.
  { intros Hob Hr. destruct Hor' as [?|[_ Hx]]; [done|]. apply (Hk5 _ (pi_now b)), Hx, Hk3, Hk2, Hk1. by left. }
  assert (open_at (w_manager w) (pi_entity_id a) (pi_now a) -> sth_root_hash e <> sth_root_hash (pi_sth a) -> caught (w_id w) (w_manager w5) (pi_entity_id a)) as Hca.
  { intros Hoa Hr. destruct Hor as [?|[_ Hx]]; [done|]. apply (Hk5 _ (pi_now a)), (Hk4 _ (pi_now a)), (Hk3 _ (pi_now a)), Hx, Hk1. by left. }
  assert (w_store w !! store_key (pi_sth a) = None -> (forall it, it ∈ xs -> store_key (pi_sth it) <> store_key (pi_sth a)) -> e = pi_sth a) as Hfirst.
  { intros Hn Hxs. destruct Hfrom as [?|Hx]; [done|]. rewrite Ho1 in Hx by done. congruence. }
  split_and!; [|congruence|done| |].
  - destruct Hor as [Hr|[]], Hor' as [Hr'|[]]; try lia. congruence.
  - intros Hoa Hob. destruct (decide (sth_root_hash e = sth_root_hash (pi_sth b))) as [E|E]; [left|right; by apply Hcb].
    apply Hca; [done|]. congruence.
  - intros Hob Hn Hxs. apply Hcb; [done|]. by rewrite (Hfirst Hn Hxs).
Qed.

(** A head whose check raises ends the tick: whatever was queued behind it is
    gone unchecked. *)
Lemma malformed_head_drops_queue `{CanonicalHash} pq profile w it rest e :
  w_pending w = it :: rest -> sth_verify pq profile (pi_sth it) = Err e ->
  watcher_tick pq profile w =
    (Err e, {| w_manager := w_manager w; w_store := w_store w; w_id := w_id w; w_pending := [] |}).
Proof. intros Hq Hv. unfold watcher_tick. rewrite Hq. cbn [watch]. unfold watch_item. by rewrite <- sth_verify_eq, Hv. Qed.

(** * Examples *)
Module ChallengeDemo.
Definition null_sth : SignedTreeHead := {| sth_sequence := 0; sth_tree_size := 0; sth_timestamp := 0; sth_root_hash := [];
  sth_operator_vk := []; sth_signature := [] |}.
Definition head_with (root : bytes) : SignedTreeHead :=
  get_ok null_sth (sth_sign toy_pq demo_profile 4 9 root (demo_vk 1) (RawKey (demo_sk 1)) f64_epoch).
Definition root_a : bytes := repeat 1 32.
Definition root_b : bytes := repeat 2 32.
Definition inputs0 : ZKBridgePublicInputs := {| zi_sth_root_hash := root_a; zi_operator_vk_hash := root_b;
  zi_tree_size := 9; zi_sth_sequence := 4 |}.
Definition week : Float64.float64 := get_ok 0 (f64_of_int 604800).
Definition opened : ChallengeManager := (open_challenge_window (new_challenge_manager week) (lit "e") root_a f64_epoch).2.
Definition challenged : ChallengeManager :=
  (submit_challenge toy_pq demo_profile opened (lit "e") (InconsistentSTHFraudProof (head_with root_a) (head_with root_b))
     (lit "w") f64_epoch).2.
Definition item (root : bytes) : pending_item :=
  {| pi_anchor_digest := root_a; pi_sth := head_with root; pi_entity_id := lit "e"; pi_now := f64_epoch |}.
Definition watcher : WatcherService :=
  {| w_manager := opened; w_store := ∅; w_id := lit "w"; w_pending := [item root_a; item root_a; item root_b] |}.
Definition no_binary (_ : bytes) : bool := false.
End ChallengeDemo.
Import ChallengeDemo.

(** The default period, a week after the opening, and the two ways it ends. *)
Example window_runs :
  status_of opened (lit "e") = Some OPEN /\ status_of challenged (lit "e") = Some CHALLENGED /\
  tick opened None f64_epoch = ([], opened) /\
  tick opened (Some f64_zero) (f64_add f64_epoch (f64_add week f64_one)) =
    ([lit "e"], (tick opened (Some (f64_add f64_epoch (f64_add week f64_one))) f64_zero).2) /\
  status_of (tick challenged None (f64_add f64_epoch (f64_add week f64_one))).2 (lit "e") = Some EXPIRED.
Proof. by vm_compute. Qed.

Lemma fork_proof_exact_witness :
  fraud_verify toy_pq demo_profile (InconsistentSTHFraudProof (head_with root_a) (head_with root_b)) = Ok true.
Proof.
  destruct (fork_proof_exact toy_pq demo_profile) as [Hx _]. apply Hx. split_and!; [done..|by vm_compute|by vm_compute|by vm_compute].
Defined.

Lemma stark_proofs_verify_witness : exists p,
  prove_sth_signature toy_pq demo_profile 128 [root_a; root_b] (head_with root_a) = Ok p /\
  zk_verify no_binary no_binary p = Ok true.
Proof.
  assert (is_ok (prove_sth_signature toy_pq demo_profile 128 [root_a; root_b] (head_with root_a)) = true) as Hok by (by vm_compute).
  destruct (prove_sth_signature _ _ _ _ _) as [p|] eqn:E; [|done]. exists p. split; [done|].
  apply (stark_proofs_verify toy_pq demo_profile no_binary no_binary 128 [root_a; root_b] (head_with root_a) p E);
    [by repeat constructor|done].
Defined.

Lemma finality_forgeable_witness : exists p r' m', zp_public_inputs p = inputs0 /\
  resolve_with_proof no_binary no_binary challenged (lit "e") p f64_epoch = (Ok r', m') /\
  find_record m' (lit "e") = Some r' /\ ch_status r' = FINALIZED.
Proof.
  assert (bool_decide (ch_status <$> find_record challenged (lit "e") = Some CHALLENGED) = true) as Hst by (by vm_compute).
  apply bool_decide_eq_true in Hst. destruct (find_record challenged (lit "e")) as [r|] eqn:Er; [|done].
  destruct (finality_forgeable no_binary no_binary challenged (lit "e") r inputs0 f64_epoch) as (p & r' & m' & H1 & H2 & H3 & H4 & _).
  - reflexivity.
  - cbn. lia.
  - cbn. lia.
  - exact Er.
  - unfold active. injection Hst as Hst. by rewrite Hst.
  - exists p, r', m'. exact (conj H1 (conj H2 (conj H3 H4))).
Defined.

Lemma anyone_challenges_witness : exists r' m',
  submit_challenge toy_pq demo_profile opened (lit "e") (InvalidSignatureFraudProof [] (demo_vk 5) (lit "any") []) (lit "x") f64_epoch
    = (Ok r', m') /\ find_record m' (lit "e") = Some r' /\ ch_status r' = CHALLENGED /\ ch_challenger_id r' = lit "x".
Proof.
  destruct (find_record opened (lit "e")) as [r|] eqn:Er; [|by vm_compute in Er].
  apply (anyone_challenges toy_pq demo_profile opened (lit "e") r (demo_vk 5) [] (lit "any") (lit "x") f64_epoch).
  - exact Er.
  - vm_compute in Er. by injection Er as <-.
  - vm_compute in Er. by injection Er as <-.
  - by vm_compute.
  - by vm_compute.
  - by vm_compute.
Defined.

Lemma item_clean root : sth_verify toy_pq demo_profile (head_with root) = Ok true ->
  sth_operator_vk (head_with root) = demo_vk 1 ->
  is_ok (payload ← signable_payload (head_with root);
    proof_hash (InvalidSignatureFraudProof root_a (demo_vk 1) payload (sth_signature (head_with root)))) = true ->
  clean toy_pq demo_profile (item root).
Proof.
  intros Hv Hk Hh. split; cbn [pi_sth item pi_anchor_digest]; rewrite Hk.
  - unfold demo_vk, pad_to. apply wf_bytes_app. split; [apply be_encode_wf|]. apply Forall_forall. intros x Hx.
    apply list_elem_of_In, repeat_spec in Hx as ->. unfold isb. lia.
  - unfold mbind, result_bind in Hh. destruct (signable_payload (head_with root)) as [payload|]; [|done].
    exists payload, true. split; [reflexivity|split; [exact Hv|exact Hh]].
Qed.

Lemma watcher_detects_forks_witness : exists c w',
  watcher_tick toy_pq demo_profile watcher = (Ok c, w') /\ (1 <= wr_forks_detected c)%nat /\ w_pending w' = [].
Proof.
  assert (clean toy_pq demo_profile (item root_a) /\ clean toy_pq demo_profile (item root_b)) as [Ha Hb].
  { split; apply item_clean; by vm_compute. }
  destruct (watcher_detects_forks toy_pq demo_profile watcher [item root_a] (item root_a) [] (item root_b) []) as (c & w' & E & Hf & Hp & _).
  - intros k s. cbn. by rewrite lookup_empty.
  - done.
  - intros it Hin. cbn in Hin. repeat (apply elem_of_cons in Hin as [->|Hin]; [done|]). by apply not_elem_of_nil in Hin.
  - by vm_compute.
  - by vm_compute.
  - intros E. assert (bool_decide (sth_root_hash (head_with root_a) = sth_root_hash (head_with root_b)) = false) as Hd by (by vm_compute).
    by apply bool_decide_eq_false in Hd.
  - by vm_compute.
  - by vm_compute.
  - exists c, w'. exact (conj E (conj Hf Hp)).
Defined.

(** Reopening a finalized window starts its life over. *)
Example finalized_reopens :
  let m := (tick opened None (f64_add f64_epoch (f64_add week f64_one))).2 in
  status_of m (lit "e") = Some FINALIZED /\
  status_of (open_challenge_window m (lit "e") root_b f64_epoch).2 (lit "e") = Some OPEN.
Proof. by vm_compute. Qed.
