(* ===== verification/Attestation.v ===== *)
(** Attestations of multi-VM state roots: src/src/ltp/execution/attestation.py,
    with the theory of what a state root (execution/state_root.py) commits to.
    The clock reading [int(time.time() * 1000)] is an argument. *)

From S2P Require Import Prelude Float64 Sha3 Hashing Primitives Encoding Writer WriterGate Router Bls Receipt.

(** * attestation.py *)
Record MultiVMAttestation : Type := {
  ma_state_root : MultiVMStateRoot;
  ma_consensus_round : Z;
  ma_epoch : Z;
  ma_active_vm_tags : list Z;
  ma_mldsa_signature : option bytes;
  ma_bls_aggregate : option bytes;
  ma_operator_vk_hash : bytes;
  ma_timestamp_ms : Z;
  ma_chain_id : Z
}.

(** [bytes(xs)] of a list of integers *)
Definition bytes_of_ints (xs : list Z) : result bytes :=
  if forallb (fun x => (0 <=? x) && (x <? 256)) xs then Ok xs else Err (ValueError "bytes must be in range(0, 256)").

(** [BLSIdentity], with what its [sk_accessor()] returns or raises *)
Record BLSIdentity : Type := { bi_pk : bytes; bi_sk_accessor : result bytes }.

Record AttestationEngine : Type := {
  ae_keypair : KeyPair;
  ae_chain_id : Z;
  ae_vk_hash : bytes;
  ae_bls_identity : option BLSIdentity
}.

Section Attestation.
Context `{CanonicalHash} (pq : pq_backend) (profile : SecurityProfile) (bls : option bls_library).

(** [_build_payload], and the payload of [digest] and [verify_mldsa] *)
Definition build_payload (state_root : MultiVMStateRoot) (consensus_round epoch : Z) (active_vm_tags : list Z)
    (chain_id : Z) : result bytes :=
  r ← root state_root;
  n ← int_to_bytes 8 consensus_round;
  e ← int_to_bytes 8 epoch;
  t ← bytes_of_ints active_vm_tags;
  c ← int_to_bytes 8 chain_id;
  Ok (r ++ n ++ e ++ t ++ c).

Definition att_payload (a : MultiVMAttestation) : result bytes :=
  build_payload (ma_state_root a) (ma_consensus_round a) (ma_epoch a) (ma_active_vm_tags a) (ma_chain_id a).

Definition digest (a : MultiVMAttestation) : result bytes :=
  payload ← att_payload a; Ok (Domain.domain_hash_bytes Domain.DOMAIN_MULTI_VM_ATTEST payload).

Definition verify_mldsa (a : MultiVMAttestation) (vk : bytes) : result bool :=
  match ma_mldsa_signature a with
  | None => Ok false
  | Some sig =>
      payload ← att_payload a; Domain.domain_verify pq profile Domain.DOMAIN_MULTI_VM_ATTEST vk payload sig
  end.

Definition verify_bls (a : MultiVMAttestation) (bls_pks : list bytes) : result bool :=
  match ma_bls_aggregate a with
  | None => Ok false
  | Some agg => d ← digest a; bls_aggregate_verify bls Domain.DOMAIN_BLS_ATTEST bls_pks d agg
  end.

Definition attestation_verify (a : MultiVMAttestation) (vk : option bytes) (bls_pks : option (list bytes)) : result bool :=
  r1 ← (match vk, ma_mldsa_signature a with
        | Some vk, Some _ => b ← verify_mldsa a vk; Ok [b]
        | _, _ => Ok []
        end);
  r2 ← (match bls_pks, ma_bls_aggregate a with
        | Some pks, Some _ => b ← verify_bls a pks; Ok [b]
        | _, _ => Ok []
        end);
  let results : list bool := r1 ++ r2 in
  Ok (match results with [] => false | _ => forallb id results end).

(** [AttestationEngine.__init__] *)
Definition new_attestation_engine (operator_keypair : option KeyPair) (chain_id : Z) (bls_identity : option BLSIdentity) :
  result AttestationEngine :=
  match operator_keypair with
  | None => Err TypeError
  | Some kp => Ok {| ae_keypair := kp; ae_chain_id := chain_id; ae_vk_hash := Domain.signer_fingerprint (kp_vk kp);
                     ae_bls_identity := bls_identity |}
  end.

Section Signing.
Context (e : AttestationEngine) (state_root : MultiVMStateRoot) (consensus_round epoch : Z) (active_vm_tags : list Z).
Context (now_ms : Z).

Definition attest_with (mldsa bls_aggregate : option bytes) : MultiVMAttestation :=
  {| ma_state_root := state_root; ma_consensus_round := consensus_round; ma_epoch := epoch;
     ma_active_vm_tags := active_vm_tags; ma_mldsa_signature := mldsa; ma_bls_aggregate := bls_aggregate;
     ma_operator_vk_hash := ae_vk_hash e; ma_timestamp_ms := now_ms; ma_chain_id := ae_chain_id e |}.

Definition mldsa_part : result bytes :=
  payload ← build_payload state_root consensus_round epoch active_vm_tags (ae_chain_id e);
  Domain.domain_sign pq profile Domain.DOMAIN_MULTI_VM_ATTEST (FromKeyPair (ae_keypair e)) payload.

Definition bls_part (identity : BLSIdentity) (unsigned : MultiVMAttestation) : result bytes :=
  sk ← bi_sk_accessor identity; d ← digest unsigned; bls_domain_sign bls Domain.DOMAIN_BLS_ATTEST sk d.

Definition attestation_sign : result MultiVMAttestation :=
  signature ← mldsa_part; Ok (attest_with (Some signature) None).

Definition sign_bls : result MultiVMAttestation :=
  match ae_bls_identity e with
  | None => Err (ValueError "No BLS identity configured")
  | Some identity => bls_sig ← bls_part identity (attest_with None None); Ok (attest_with None (Some bls_sig))
  end.

Definition sign_dual : result MultiVMAttestation :=
  match ae_bls_identity e with
  | None => Err (ValueError "No BLS identity configured")
  | Some identity =>
      mldsa_sig ← mldsa_part;
      bls_sig ← bls_part identity (attest_with (Some mldsa_sig) None);
      Ok (attest_with (Some mldsa_sig) (Some bls_sig))
  end.
End Signing.
End Attestation.

(** [AttestationAggregator] *)
Record AttestationAggregator : Type := { ag_signatures : list bytes; ag_pks : list bytes }.
Definition new_aggregator : AttestationAggregator := {| ag_signatures := []; ag_pks := [] |}.
Definition add_signature (g : AttestationAggregator) (operator_bls_pk sig : bytes) : AttestationAggregator :=
  {| ag_signatures := ag_signatures g ++ [sig]; ag_pks := ag_pks g ++ [operator_bls_pk] |}.
Definition aggregator_finalize (bls : option bls_library) (g : AttestationAggregator) : result bytes :=
  match ag_signatures g with
  | [] => Err (ValueError "No signatures to aggregate")
  | sigs => bls_aggregate_sigs bls sigs
  end.
Definition signer_count (g : AttestationAggregator) : nat := length (ag_signatures g).
Definition signer_pks (g : AttestationAggregator) : list bytes := ag_pks g.

(** * What a state root commits to

    The hash tree a state root is computed from.  Where a level is odd its
    last node is its own sibling. *)
Inductive htree : Type :=
| HLeaf (tag : Z) (vm_root : bytes)
| HNode (l r : htree).

Section Trees.
Context `{CanonicalHash}.

Fixpoint t_hash (t : htree) : bytes :=
  match t with
  | HLeaf tag vm_root => chash (be_encode 1 tag ++ vm_root)
  | HNode l r => chash (t_hash l ++ t_hash r)
  end.

(** The strings that are hashed. *)
Fixpoint t_inputs (t : htree) : list bytes :=
  match t with
  | HLeaf tag vm_root => [be_encode 1 tag ++ vm_root]
  | HNode l r => (t_hash l ++ t_hash r) :: t_inputs l ++ t_inputs r
  end.

Fixpoint t_leaves (t : htree) : list (Z * bytes) :=
  match t with HLeaf tag vm_root => [(tag, vm_root)] | HNode l r => t_leaves l ++ t_leaves r end.

(** Leaves that cannot be taken for inner nodes. *)
Definition leaf_ok (p : Z * bytes) : Prop := 0 <= p.1 < 256 /\ S (length p.2) <> (digest_size + digest_size)%nat.

Lemma t_hash_length t : length (t_hash t) = digest_size.
Proof. destruct t; apply chash_length. Qed.

Lemma t_hash_inj t1 t2 : Forall leaf_ok (t_leaves t1) -> Forall leaf_ok (t_leaves t2) ->
  collision_free (t_inputs t1 ++ t_inputs t2) -> t_hash t1 = t_hash t2 -> t1 = t2.
Proof.
  assert (forall tag vr l r, leaf_ok (tag, vr) -> be_encode 1 tag ++ vr <> t_hash l ++ t_hash r) as Hmix.
  { intros tag vr l r [_ Hl] E. apply (f_equal length) in E. cbn [snd] in Hl.
    rewrite !length_app, be_encode_length, !t_hash_length in E. lia. }
  revert t2. induction t1 as [tag vr|l IHl r IHr]; intros t2 H1 H2 Hc E; destruct t2 as [tag2 vr2|l2 r2]; cbn in *.
  - apply Hc in E; [|by left|by right; left]. apply app_inj_len in E as [E ->]; [|by rewrite !be_encode_length].
    rewrite Forall_singleton in H1, H2. destruct H1 as [H1 _], H2 as [H2 _]. cbn [fst] in *. f_equal. eapply (be_encode_inj 1); [..|exact E]; lia.
  - rewrite Forall_singleton in H1. apply Hc in E; [by destruct (Hmix _ _ _ _ H1 E)|by left|by right; left].
  - rewrite Forall_singleton in H2. apply Hc in E; [symmetry in E; by destruct (Hmix _ _ _ _ H2 E)|by left|].
    apply elem_of_cons. right. apply elem_of_app. right. by left.
  - apply Forall_app in H1 as [Hl Hr], H2 as [Hl2 Hr2].
    apply Hc in E; [|by left|apply elem_of_cons; right; apply elem_of_app; right; by left].
    apply app_inj_len in E as [El Er]; [|by rewrite !t_hash_length].
    rewrite (IHl l2), (IHr r2); try done; (eapply collision_free_sub; [|exact Hc]); intros x; rewrite !elem_of_app, elem_of_cons, !elem_of_app, ?elem_of_cons, ?elem_of_app; tauto.
Qed.

(** The loops of [_merkle_root], on trees. *)
Fixpoint pair_trees (ts : list htree) : list htree :=
  match ts with
  | a :: b :: rest => HNode a b :: pair_trees rest
  | [a] => [HNode a a]
  | [] => []
  end.

Fixpoint tree_levels (fuel : nat) (ts : list htree) : list htree :=
  match fuel with
  | O => ts
  | S fuel => if (1 <? length ts)%nat then tree_levels fuel (pair_trees ts) else ts
  end.

Definition merkle_tree (ts : list htree) : htree := hd (HLeaf 0 []) (tree_levels (length ts) ts).

Definition in_leaves (ts : list htree) (p : Z * bytes) : Prop := exists t, t ∈ ts /\ p ∈ t_leaves t.

Lemma pair_hash ts : map t_hash (pair_trees ts) = pair_level (map t_hash ts).
Proof. induction ts as [| |a b l IH] using list_pair_ind; [done..|]. cbn [pair_trees map pair_level]. by rewrite IH. Qed.

Lemma pair_length ts : length (pair_trees ts) = length (pair_level (map t_hash ts)).
Proof. by rewrite <- pair_hash, length_map. Qed.

Lemma in_leaves_cons t ts p : in_leaves (t :: ts) p <-> p ∈ t_leaves t \/ in_leaves ts p.
Proof.
  split.
  - intros (x & [->|Hx]%elem_of_cons & Hp); [by left|right; by exists x].
  - intros [Hp|(x & Hx & Hp)]; [exists t|exists x]; (split; [|done]); [by left|by right].
Qed.

Lemma pair_in_leaves ts p : in_leaves (pair_trees ts) p <-> in_leaves ts p.
Proof.
  induction ts as [|a|a b l IH] using list_pair_ind; [done| |]; cbn [pair_trees]; rewrite !in_leaves_cons; cbn [t_leaves];
    rewrite !elem_of_app; [|rewrite IH]; tauto.
Qed.

Lemma levels_hash fuel ts : map t_hash (tree_levels fuel ts) = merkle_levels fuel (map t_hash ts).
Proof.
  revert ts. induction fuel as [|fuel IH]; intros ts; cbn [tree_levels merkle_levels]; [done|]. rewrite length_map.
  destruct (1 <? length ts)%nat; [|done]. by rewrite IH, pair_hash.
Qed.

Lemma levels_in_leaves fuel ts p : in_leaves (tree_levels fuel ts) p <-> in_leaves ts p.
Proof.
  revert ts. induction fuel as [|fuel IH]; intros ts; cbn [tree_levels]; [done|].
  destruct (1 <? length ts)%nat; [|done]. by rewrite IH, pair_in_leaves.
Qed.

(** The loops compute the root of the tree over the given subtrees. *)
Lemma merkle_tree_spec ts : ts <> [] ->
  merkle_root (map t_hash ts) = t_hash (merkle_tree ts) /\ forall p, p ∈ t_leaves (merkle_tree ts) <-> in_leaves ts p.
Proof.
  intros Hne. unfold merkle_tree.
  assert (length (tree_levels (length ts) ts) = 1%nat) as H1.
  { rewrite <- (length_map t_hash), levels_hash. apply merkle_levels_single. rewrite length_map. destruct ts; [done|cbn; lia]. }
  assert (merkle_root (map t_hash ts) = hd [] (map t_hash (tree_levels (length ts) ts))) as ->
    by (rewrite levels_hash; destruct ts; [done|]; unfold merkle_root; cbn [map]; by rewrite <- (length_map t_hash)).
  destruct (tree_levels (length ts) ts) as [|t [|]] eqn:E; try done. split; [done|]. intros p.
  rewrite <- (levels_in_leaves (length ts) ts), E, in_leaves_cons. cbn. split; [tauto|]. by intros [?|(x & ?%not_elem_of_nil & _)].
Qed.
End Trees.

Section StateTree.
Context `{CanonicalHash}.

Definition add_tree (m : gmap Z bytes) (acc : gmap Z (list htree)) (tag : Z) : gmap Z (list htree) :=
  <[family_from_tag tag := default [] (acc !! family_from_tag tag) ++ [HLeaf tag (m !!! tag)]]> acc.
Definition family_trees (m : gmap Z bytes) : gmap Z (list htree) := fold_left (add_tree m) (sorted_tags m) ∅.
Definition subtrees (m : gmap Z bytes) : list htree :=
  map (fun f => merkle_tree (family_trees m !!! f)) (merge_sort Z.le (elements (dom (family_trees m)))).
(** The tree over all virtual machines, and all that is hashed for a root. *)
Definition state_tree (r : MultiVMStateRoot) : htree := merkle_tree (subtrees (vm_roots r)).
Definition root_inputs (r : MultiVMStateRoot) : list bytes :=
  (Domain.DOMAIN_MULTI_VM_STATE_ROOT ++ t_hash (state_tree r) ++ be_encode 8 (batch_round r)) :: t_inputs (state_tree r).

(** The leaves stored in a family map. *)
Definition stored (acc : gmap Z (list htree)) (p : Z * bytes) : Prop := exists f ts, acc !! f = Some ts /\ in_leaves ts p.

Lemma in_leaves_snoc ts t p : in_leaves (ts ++ [t]) p <-> in_leaves ts p \/ p ∈ t_leaves t.
Proof.
  unfold in_leaves. split.
  - intros (x & [Hx|Hx%list_elem_of_singleton]%elem_of_app & Hp); [left; by exists x|right; by subst].
  - intros [(x & Hx & Hp)|Hp]; [exists x|exists t]; (split; [apply elem_of_app|done]); [by left|right; by apply list_elem_of_singleton].
Qed.

Lemma add_tree_stored m acc tag p : stored (add_tree m acc tag) p <-> stored acc p \/ p = (tag, m !!! tag).
Proof.
  unfold stored, add_tree. set (f0 := family_from_tag tag). split.
  - intros (f & ts & Hf & Hp). destruct (decide (f0 = f)) as [<-|Hne].
    + rewrite lookup_insert_eq in Hf. injection Hf as <-. apply in_leaves_snoc in Hp as [Hp|Hp%list_elem_of_singleton]; [|by right].
      left. destruct (acc !! f0) as [ts|] eqn:E; [by exists f0, ts|]. by destruct Hp as (x & ?%not_elem_of_nil & _).
    + rewrite lookup_insert_ne in Hf by done. left. by exists f, ts.
  - intros [(f & ts & Hf & Hp)|Hp].
    + destruct (decide (f0 = f)) as [<-|Hne].
      * exists f0, (ts ++ [HLeaf tag (m !!! tag)]). rewrite lookup_insert_eq, Hf. split; [done|]. apply in_leaves_snoc. by left.
      * exists f, ts. by rewrite lookup_insert_ne.
    + exists f0. eexists. rewrite lookup_insert_eq. split; [done|]. apply in_leaves_snoc. right. by apply list_elem_of_singleton.
Qed.

Lemma add_trees_spec m tags acc : (forall f ts, acc !! f = Some ts -> ts <> []) ->
  (forall f ts, fold_left (add_tree m) tags acc !! f = Some ts -> ts <> []) /\
  forall p, stored (fold_left (add_tree m) tags acc) p <-> stored acc p \/ p ∈ map (fun t => (t, m !!! t)) tags.
Proof.
  revert acc. induction tags as [|tag tags IH]; intros acc Hne; cbn [fold_left map].
  { split; [done|]. intros p. rewrite elem_of_nil. tauto. }
  destruct (IH (add_tree m acc tag)) as [IH1 IH2].
  { intros f ts. unfold add_tree. destruct (decide (family_from_tag tag = f)) as [<-|]; [|rewrite lookup_insert_ne by done; apply Hne].
    rewrite lookup_insert_eq. intros [= <-]. by destruct (default [] _). }
  split; [done|]. intros p. rewrite IH2, add_tree_stored, elem_of_cons. tauto.
Qed.

(** The leaf lists of the code are the hashes of these trees. *)
Lemma add_leaves_trees m tags tacc leaves : foldM (add_leaf m) (map t_hash <$> tacc) tags = Ok leaves ->
  leaves = map t_hash <$> fold_left (add_tree m) tags tacc /\ Forall (fun t => 0 <= t < 256) tags.
Proof.
  revert tacc leaves. induction tags as [|tag tags IH]; intros tacc leaves; cbn [foldM fold_left]; [by intros [= <-]|].
  unfold add_leaf at 1, vm_leaf, mbind, result_bind. destruct (int_to_bytes 1 tag) as [t|] eqn:Et; [|done].
  apply int_to_bytes_Ok in Et as [Ht ->]. change (256 ^ Z.of_nat 1) with 256 in Ht.
  assert ((map t_hash <$> add_tree m tacc tag) =
    <[family_from_tag tag := default [] ((map t_hash <$> tacc) !! family_from_tag tag) ++
       [chash (be_encode 1 tag ++ m !!! tag)]]> (map t_hash <$> tacc)) as <-.
  { unfold add_tree. rewrite fmap_insert, map_app, lookup_fmap. f_equal. f_equal. by destruct (tacc !! _). }
  intros [-> Hts]%IH. split; [done|]. by constructor.
Qed.

Lemma elem_of_sorted_tags (m : gmap Z bytes) t : t ∈ sorted_tags m <-> is_Some (m !! t).
Proof. unfold sorted_tags. rewrite (merge_sort_Permutation Z.le), elem_of_elements. apply elem_of_dom. Qed.

(** A root is the hash of its tree and round, and the leaves of the tree are
    the state roots of the virtual machines. *)
Lemma root_tree r x : root r = Ok x -> vm_roots r <> ∅ ->
  x = chash (Domain.DOMAIN_MULTI_VM_STATE_ROOT ++ t_hash (state_tree r) ++ be_encode 8 (batch_round r)) /\
  0 <= batch_round r < 256 ^ 8 /\ (forall p, p ∈ t_leaves (state_tree r) <-> vm_roots r !! p.1 = Some p.2) /\
  forall t, is_Some (vm_roots r !! t) -> 0 <= t < 256.
Proof.
  unfold root, compute_family_subtrees, mbind, result_bind. set (m := vm_roots r). intros E Hm.
  destruct (foldM _ _ _) as [leaves|] eqn:El; [|done].
  change (∅ : gmap Z (list bytes)) with (map t_hash <$> (∅ : gmap Z (list htree))) in El.
  apply add_leaves_trees in El as [-> Htags]. fold (family_trees m) in *. set (ft := family_trees m) in *.
  destruct (int_to_bytes 8 (batch_round r)) as [rnd|] eqn:Ern; [|done]. apply int_to_bytes_Ok in Ern as [Hr ->]. apply Ok_inj in E.
  destruct (add_trees_spec m (sorted_tags m) ∅) as [Hne Hst]; [by intros ???%lookup_empty_Some|]. fold (family_trees m) in Hne, Hst. fold ft in Hne, Hst.
  assert (forall p, stored ft p <-> m !! p.1 = Some p.2) as Hp.
  { intros [t v]. cbn [fst snd]. rewrite Hst, elem_of_map. split.
    - intros [(f & ts & []%lookup_empty_Some & _)|(t' & [= -> ->] & [v' Hv]%elem_of_sorted_tags)].
      by rewrite Hv, (lookup_total_correct _ _ _ Hv).
    - intros Hv. right. exists t. by rewrite (lookup_total_correct _ _ _ Hv), elem_of_sorted_tags. }
  assert (sorted_tags (merkle_root <$> (map t_hash <$> ft)) = merge_sort Z.le (elements (dom ft))) as Hk
    by (unfold sorted_tags; by rewrite !dom_fmap_L).
  assert (map (fun f => (merkle_root <$> (map t_hash <$> ft)) !!! f) (merge_sort Z.le (elements (dom ft))) = map t_hash (subtrees m)) as Hs.
  { unfold subtrees. fold ft. rewrite map_map. apply map_ext_in. intros f Hf%list_elem_of_In.
    rewrite (merge_sort_Permutation Z.le), elem_of_elements, elem_of_dom in Hf. destruct Hf as [ts Hts].
    rewrite (lookup_total_correct ft f ts Hts). erewrite lookup_total_correct; [|by rewrite !lookup_fmap, Hts].
    by apply merkle_tree_spec, (Hne f). }
  rewrite Hk, Hs in E.
  assert (subtrees m <> []) as Hsub.
  { destruct (map_choose m Hm) as (t & v & Hv). apply (Hp (t, v)) in Hv as (f & ts & Hf & _).
    assert (f ∈ merge_sort Z.le (elements (dom ft))) as Hin by (rewrite (merge_sort_Permutation Z.le), elem_of_elements, elem_of_dom; eauto).
    unfold subtrees. fold ft. by destruct (merge_sort Z.le (elements (dom ft))); [apply not_elem_of_nil in Hin|]. }
  destruct (merkle_tree_spec _ Hsub) as [Hroot Hlv]. rewrite Hroot in E. split; [done|]. split; [done|]. split.
  - intros p. unfold state_tree. fold m. rewrite Hlv, <- Hp. unfold in_leaves, stored, subtrees. fold ft. split.
    + intros (t & (f & -> & Hf)%elem_of_map & Hpt).
      rewrite (merge_sort_Permutation Z.le), elem_of_elements, elem_of_dom in Hf. destruct Hf as [ts Hts].
      rewrite (lookup_total_correct ft f ts Hts) in Hpt. exists f, ts. split; [done|]. by apply merkle_tree_spec in Hpt; [|apply (Hne f)].
    + intros (f & ts & Hts & Hpt). exists (merkle_tree ts). split.
      * apply elem_of_map. exists f. rewrite (lookup_total_correct ft f ts Hts). split; [done|].
        rewrite (merge_sort_Permutation Z.le), elem_of_elements, elem_of_dom. eauto.
      * apply merkle_tree_spec; [by apply (Hne f)|done].
  - intros t Ht%elem_of_sorted_tags. by eapply Forall_forall in Htags.
Qed.
End StateTree.

(** A root exists whenever tags and round fit their fields. *)
Lemma root_total `{CanonicalHash} r : (forall t, is_Some (vm_roots r !! t) -> 0 <= t < 256) -> 0 <= batch_round r < 256 ^ 8 ->
  exists x, root r = Ok x.
Proof.
  intros Ht Hr. unfold root, compute_family_subtrees.
  assert (forall tags acc, (forall t, t ∈ tags -> 0 <= t < 256) -> exists leaves, foldM (add_leaf (vm_roots r)) acc tags = Ok leaves) as Hf.
  { induction tags as [|t tags IH]; intros acc Htags; cbn [foldM]; [by exists acc|].
    unfold add_leaf at 1, vm_leaf.
    assert (int_to_bytes 1 t = Ok (be_encode 1 t)) as -> by (apply int_to_bytes_Ok; split; [apply Htags; by left|done]).
    cbn [mbind result_bind]. apply IH. intros t' Ht'. apply Htags. by right. }
  destruct (Hf (sorted_tags (vm_roots r)) ∅) as [leaves ->]; [intros t Hin%elem_of_sorted_tags; by apply Ht|].
  assert (int_to_bytes 8 (batch_round r) = Ok (be_encode 8 (batch_round r))) as Hb by (by apply int_to_bytes_Ok).
  cbn [mbind result_bind]. rewrite Hb. cbn [mbind result_bind]. by eexists.
Qed.

Lemma build_payload_total `{CanonicalHash} r n e tags c x : root r = Ok x -> 0 <= n < 256 ^ 8 -> 0 <= e < 256 ^ 8 ->
  0 <= c < 256 ^ 8 -> (forall t, t ∈ tags -> 0 <= t < 256) -> is_ok (build_payload r n e tags c) = true.
Proof.
  intros Hx Hn He Hc Ht. unfold build_payload. rewrite Hx. cbn [mbind result_bind].
  assert (forall v, 0 <= v < 256 ^ 8 -> int_to_bytes 8 v = Ok (be_encode 8 v)) as Hi by (intros v Hv; by apply int_to_bytes_Ok).
  rewrite !Hi by done. cbn [mbind result_bind]. unfold bytes_of_ints.
  replace (forallb _ tags) with true; [done|]. symmetry. apply forallb_forall. intros t Hin%list_elem_of_In.
  apply Ht in Hin. apply andb_true_intro. split; [apply Z.leb_le|apply Z.ltb_lt]; lia.
Qed.

(** * Theorems *)
Section Binding.
Context `{CanonicalHash} (pq : pq_backend) (profile : SecurityProfile) (bls : option bls_library).

(** Executors' roots whose leaves cannot be taken for inner nodes, as with
    roots and digests of 32 bytes. *)
Definition roots_sized (r : MultiVMStateRoot) : Prop :=
  vm_roots r <> ∅ /\ forall t v, vm_roots r !! t = Some v -> S (length v) <> (digest_size + digest_size)%nat.

Lemma root_binding r1 r2 x : root r1 = Ok x -> root r2 = Ok x -> roots_sized r1 -> roots_sized r2 ->
  collision_free (root_inputs r1 ++ root_inputs r2) -> r1 = r2.
Proof.
  intros H1 H2 [Hne1 Hs1] [Hne2 Hs2] Hc.
  apply root_tree in H1 as (E1 & Hb1 & Hl1 & Ht1), H2 as (E2 & Hb2 & Hl2 & Ht2); [|done..]. rewrite E1 in E2.
  apply Hc in E2; [|by left|apply elem_of_app; right; by left]. apply app_inv_head in E2.
  apply app_inj_len in E2 as [Et Er]; [|by rewrite !t_hash_length].
  apply be_encode_inj in Er; [|done..].
  assert (forall r, (forall p, p ∈ t_leaves (state_tree r) <-> vm_roots r !! p.1 = Some p.2) ->
    (forall t v, vm_roots r !! t = Some v -> S (length v) <> (digest_size + digest_size)%nat) ->
    (forall t, is_Some (vm_roots r !! t) -> 0 <= t < 256) -> Forall leaf_ok (t_leaves (state_tree r))) as Hok.
  { intros r Hl Hs Ht. apply Forall_forall. intros p Hp%Hl. split; [by apply Ht|by eapply Hs]. }
  apply t_hash_inj in Et; [|by apply Hok..|eapply collision_free_sub; [|exact Hc]; unfold root_inputs; intros y;
    rewrite !elem_of_app, !elem_of_cons; tauto].
  destruct r1 as [m1 b1], r2 as [m2 b2]. cbn in *. f_equal; [|done]. apply map_eq. intros t.
  apply option_eq. intros v. specialize (Hl1 (t, v)). specialize (Hl2 (t, v)). cbn in Hl1, Hl2. rewrite <- Hl1, <- Hl2. by rewrite Et.
Qed.

Definition att_inputs (a : MultiVMAttestation) : list bytes :=
  match att_payload a with Ok p => [Domain.DOMAIN_MULTI_VM_ATTEST ++ p] | Err _ => [] end ++ root_inputs (ma_state_root a).

Lemma root_length r x : root r = Ok x -> length x = digest_size.
Proof.
  unfold root, mbind, result_bind. destruct (compute_family_subtrees r); [|done].
  destruct (int_to_bytes _ _); [|done]. intros <-%Ok_inj. apply chash_length.
Qed.

Lemma payload_Ok r n e tags c p : build_payload r n e tags c = Ok p -> exists x, root r = Ok x /\
  0 <= n < 256 ^ 8 /\ 0 <= e < 256 ^ 8 /\ 0 <= c < 256 ^ 8 /\ p = x ++ be_encode 8 n ++ be_encode 8 e ++ tags ++ be_encode 8 c.
Proof.
  unfold build_payload, mbind, result_bind. destruct (root r) as [x|]; [|done].
  destruct (int_to_bytes 8 n) eqn:En; [|done]. destruct (int_to_bytes 8 e) eqn:Ee; [|done].
  unfold bytes_of_ints. destruct (forallb _ tags); [|done]. destruct (int_to_bytes 8 c) eqn:Ec; [|done].
  apply int_to_bytes_Ok in En as [? ->], Ee as [? ->], Ec as [? ->]. intros <-%Ok_inj. by exists x.
Qed.

(** What two attestations with one digest agree on. *)
Definition same_statement (a b : MultiVMAttestation) : Prop :=
  ma_state_root a = ma_state_root b /\ ma_consensus_round a = ma_consensus_round b /\ ma_epoch a = ma_epoch b /\
  ma_active_vm_tags a = ma_active_vm_tags b /\ ma_chain_id a = ma_chain_id b.

Lemma attestation_digest_binds a b d : digest a = Ok d -> digest b = Ok d ->
  roots_sized (ma_state_root a) -> roots_sized (ma_state_root b) -> collision_free (att_inputs a ++ att_inputs b) ->
  same_statement a b.
Proof.
  unfold digest, att_inputs. destruct (att_payload a) as [pa|] eqn:Ea; [|done]. destruct (att_payload b) as [pb|] eqn:Eb; [|done].
  cbn [mbind result_bind]. intros Ha%Ok_inj Hb%Ok_inj Hsa Hsb Hc. unfold Domain.domain_hash_bytes in *.
  assert (pa = pb) as <-.
  { rewrite <- Hb in Ha. apply Hc in Ha; [by apply app_inv_head in Ha|by left|]. apply elem_of_app. right. by left. }
  apply payload_Ok in Ea as (x & Hx & ? & ? & ? & E1), Eb as (y & Hy & ? & ? & ? & E2). rewrite E1 in E2.
  apply app_inj_len in E2 as [<- E2]; [|by rewrite (root_length _ _ Hx), (root_length _ _ Hy)].
  apply app_inj_len in E2 as [En E2]; [|by rewrite !be_encode_length].
  apply app_inj_len in E2 as [Ee E2]; [|by rewrite !be_encode_length].
  apply app_inj_2 in E2 as [Et Ec]; [|by rewrite !be_encode_length].
  apply be_encode_inj in En, Ee, Ec; [|done..]. split; [|done].
  eapply root_binding; [exact Hx|exact Hy|done..|]. eapply collision_free_sub; [|exact Hc].
  intros z. cbn. rewrite !elem_of_cons, !elem_of_app, !elem_of_cons. tauto.
Qed.
End Binding.

Lemma attestation_sign_ok `{CanonicalHash} pq profile e r n ep tags now :
  signs_for pq profile (FromKeyPair (ae_keypair e)) (kp_vk (ae_keypair e)) ->
  is_ok (build_payload r n ep tags (ae_chain_id e)) = true ->
  exists a, attestation_sign pq profile e r n ep tags now = Ok a /\
    ma_state_root a = r /\ ma_consensus_round a = n /\ ma_epoch a = ep /\
    verify_mldsa pq profile a (kp_vk (ae_keypair e)) = Ok true.
Proof.
  intros Hs Hp. destruct (build_payload r n ep tags (ae_chain_id e)) as [p|] eqn:Ep; [|done].
  destruct (Hs (Domain.DOMAIN_MULTI_VM_ATTEST ++ p)) as (sig & Esig & Hv).
  exists (attest_with e r n ep tags now (Some sig) None). unfold attestation_sign, mldsa_part, verify_mldsa, att_payload.
  cbn [attest_with ma_mldsa_signature ma_state_root ma_consensus_round ma_epoch ma_active_vm_tags ma_chain_id]. rewrite Ep.
  cbn [mbind result_bind]. unfold Domain.domain_sign, Domain.domain_verify. rewrite Esig. by cbn [mbind result_bind].
Qed.

(** An attestation attests.  Signing succeeds whenever the payload encodes,
    keeps the statement it was given, and the signature verifies under the
    operator's key; and the signed digest commits to everything it is about:
    every attestation with that digest has the state roots of the same
    virtual machines, the same rounds, epoch, tags and chain. *)
Theorem attestation_attests `{CanonicalHash} pq profile e r n ep tags now :
  signs_for pq profile (FromKeyPair (ae_keypair e)) (kp_vk (ae_keypair e)) ->
  is_ok (build_payload r n ep tags (ae_chain_id e)) = true -> roots_sized r ->
  exists a d, attestation_sign pq profile e r n ep tags now = Ok a /\ digest a = Ok d /\
    ma_state_root a = r /\ ma_consensus_round a = n /\ ma_epoch a = ep /\ ma_chain_id a = ae_chain_id e /\
    verify_mldsa pq profile a (kp_vk (ae_keypair e)) = Ok true /\
    forall b, digest b = Ok d -> roots_sized (ma_state_root b) -> collision_free (att_inputs a ++ att_inputs b) ->
      same_statement a b.
Proof.
  intros Hs Hp Hr. destruct (attestation_sign_ok pq profile e r n ep tags now Hs Hp) as (a & Ea & H1 & H2 & H3 & Hv).
  assert (ma_active_vm_tags a = tags /\ ma_chain_id a = ae_chain_id e) as [H4 H5].
  { unfold attestation_sign, mbind, result_bind in Ea. destruct (mldsa_part _ _ _ _ _ _ _) in Ea; [|done]. by apply Ok_inj in Ea as <-. }
  destruct (build_payload r n ep tags (ae_chain_id e)) as [p|] eqn:Ep; [|done].
  assert (digest a = Ok (Domain.domain_hash_bytes Domain.DOMAIN_MULTI_VM_ATTEST p)) as Ed
    by (unfold digest, att_payload; by rewrite H1, H2, H3, H4, H5, Ep).
  exists a. eexists. split; [done|]. split; [exact Ed|]. split_and!; try done. intros b Hb Hrb.
  apply (attestation_digest_binds a b _ Ed Hb); [by rewrite H1|done].
Qed.

(** What the program relies on in the pairing library: signatures have the
    fixed size, aggregate, and the aggregate verifies on the common message
    for the keys of the signers. *)
Definition bls_ok (lib : bls_library) (bls_pair : bytes -> bytes -> Prop) : Prop :=
  (forall pk sk m, bls_pair pk sk -> len sk = SK_SIZE /\ exists s, lib_sign lib sk m = Ok s /\ len s = SIG_SIZE) /\
  forall m keys sigs, keys <> [] -> Forall2 (fun k s => bls_pair k.1 k.2 /\ lib_sign lib k.2 m = Ok s) keys sigs ->
    exists agg, lib_aggregate lib sigs = Ok agg /\ len agg = SIG_SIZE /\
      lib_fast_aggregate_verify lib (map fst keys) m agg = true.

(** The signatures operators contribute, collected. *)
Definition collect_signatures `{CanonicalHash} (bls : option bls_library) (r : MultiVMStateRoot) (n ep : Z) (tags : list Z) (now : Z)
    (engines : list AttestationEngine) : result AttestationAggregator :=
  foldM (fun g e =>
      a ← sign_bls bls e r n ep tags now;
      Ok (match ae_bls_identity e, ma_bls_aggregate a with
          | Some i, Some sig => add_signature g (bi_pk i) sig
          | _, _ => g
          end)) new_aggregator engines.

Section Aggregate.
Context `{CanonicalHash} (lib : bls_library) (bls_pair : bytes -> bytes -> Prop) (Hlib : bls_ok lib bls_pair).
Context (r : MultiVMStateRoot) (n ep : Z) (tags : list Z) (now chain : Z).

(** Operators of one chain with BLS keys. *)
Definition operator_ok (e : AttestationEngine) : Prop :=
  ae_chain_id e = chain /\ exists i sk, ae_bls_identity e = Some i /\ bi_sk_accessor i = Ok sk /\ bls_pair (bi_pk i) sk.

Lemma collected p engines g : build_payload r n ep tags chain = Ok p -> Forall operator_ok engines ->
  let m := Domain.DOMAIN_BLS_ATTEST ++ Domain.domain_hash_bytes Domain.DOMAIN_MULTI_VM_ATTEST p in
  forall keys, map fst keys = ag_pks g ->
    Forall2 (fun k s => bls_pair k.1 k.2 /\ lib_sign lib k.2 m = Ok s) keys (ag_signatures g) ->
  exists keys' g', foldM (fun g e =>
      a ← sign_bls (Some lib) e r n ep tags now;
      Ok (match ae_bls_identity e, ma_bls_aggregate a with
          | Some i, Some sig => add_signature g (bi_pk i) sig
          | _, _ => g
          end)) g engines = Ok g' /\ map fst keys' = ag_pks g' /\
    Forall2 (fun k s => bls_pair k.1 k.2 /\ lib_sign lib k.2 m = Ok s) keys' (ag_signatures g') /\
    length keys' = (length keys + length engines)%nat.
Proof.
  intros Hp Hops m. revert g. induction Hops as [|e engines [Hc (i & sk & Hi & Hsk & Hpair)] Hops IH]; intros g keys Hk Hf.
  { by exists keys, g. }
  destruct (proj1 Hlib (bi_pk i) sk m Hpair) as (Hlen & s & Hs & _).
  cbn [foldM]. unfold sign_bls at 1, bls_part. rewrite Hi, Hsk. cbn [mbind result_bind].
  unfold digest, att_payload. cbn [attest_with ma_state_root ma_consensus_round ma_epoch ma_active_vm_tags ma_chain_id].
  rewrite Hc, Hp. cbn [mbind result_bind]. unfold bls_domain_sign, BLS_sign, backend.
  rewrite Hlen, Z.eqb_refl. cbn [negb or_raise mbind result_bind]. fold m. rewrite Hs. cbn [result_bind attest_with ma_bls_aggregate].
  destruct (IH (add_signature g (bi_pk i) s) (keys ++ [(bi_pk i, sk)])) as (keys' & g' & Hx & Hk' & Hf' & Hl).
  - cbn. by rewrite map_app, Hk.
  - apply Forall2_app; [done|]. by constructor.
  - exists keys', g'. split_and!; try done. rewrite Hl, length_app. cbn [length]. lia.
Qed.

(** Aggregates attest.  Operators of one chain that sign the same round
    independently yield, through the aggregator, one signature of fixed size
    that makes an attestation verify under the list of their keys. *)
Theorem aggregate_attests engines : engines <> [] -> Forall operator_ok engines ->
  is_ok (build_payload r n ep tags chain) = true ->
  exists g agg, collect_signatures (Some lib) r n ep tags now engines = Ok g /\ signer_count g = length engines /\
    aggregator_finalize (Some lib) g = Ok agg /\ len agg = SIG_SIZE /\
    forall a, att_payload a = build_payload r n ep tags chain -> ma_bls_aggregate a = Some agg ->
      verify_bls (Some lib) a (signer_pks g) = Ok true.
Proof.
  intros Hne Hops Hok. destruct (build_payload r n ep tags chain) as [p|] eqn:Hp; [|done].
  set (m := Domain.DOMAIN_BLS_ATTEST ++ Domain.domain_hash_bytes Domain.DOMAIN_MULTI_VM_ATTEST p).
  destruct (collected p engines new_aggregator Hp Hops [] eq_refl (List.Forall2_nil _)) as (keys & g & Eg & Hk & Hf & Hl).
  fold m in Hf. cbn in Hl. assert (keys <> []) as Hkne by (destruct keys; [by destruct engines|done]).
  destruct (proj2 Hlib m keys (ag_signatures g) Hkne Hf) as (agg & Hagg & Hsize & Hv).
  assert (length (ag_signatures g) = length engines) as Hcount by (rewrite <- Hl; symmetry; eapply Forall2_length, Hf).
  assert (forallb (fun s => len s =? SIG_SIZE) (ag_signatures g) = true) as Hsizes.
  { apply forallb_forall. intros s Hs%list_elem_of_In. apply list_elem_of_lookup in Hs as [j Hj].
    destruct (Forall2_lookup_r _ _ _ _ _ Hf Hj) as ([pk sk] & _ & Hpair & Hsg). cbn in Hpair, Hsg.
    destruct (proj1 Hlib pk sk m Hpair) as (_ & s' & Hs' & Hlen). apply Z.eqb_eq. assert (Ok s' = Ok s) as <-%Ok_inj by (by rewrite <- Hs', <- Hsg). done. }
  exists g, agg. split; [exact Eg|]. split; [done|]. split.
  - unfold aggregator_finalize, bls_aggregate_sigs, aggregate_signatures.
    destruct (ag_signatures g) as [|s sigs] eqn:Es; [by destruct engines|]. by rewrite Hsizes.
  - split; [done|]. intros a Ha Hagga. unfold verify_bls, digest. rewrite Hagga, Ha. cbn [mbind result_bind].
    unfold bls_aggregate_verify, aggregate_verify_same_message, backend. rewrite Hsize, Z.eqb_refl. cbn.
    unfold signer_pks. rewrite <- Hk. exact (f_equal Ok Hv).
Qed.
End Aggregate.

(** The two parts of a dual attestation are not tied together: with one part
    removed, [verify] with both keys accepts what is left. *)
Definition without_bls (a : MultiVMAttestation) : MultiVMAttestation :=
  {| ma_state_root := ma_state_root a; ma_consensus_round := ma_consensus_round a; ma_epoch := ma_epoch a;
     ma_active_vm_tags := ma_active_vm_tags a; ma_mldsa_signature := ma_mldsa_signature a; ma_bls_aggregate := None;
     ma_operator_vk_hash := ma_operator_vk_hash a; ma_timestamp_ms := ma_timestamp_ms a; ma_chain_id := ma_chain_id a |}.

Theorem stripped_attestation_verifies `{CanonicalHash} pq profile bls a vk pks :
  verify_mldsa pq profile a vk = Ok true -> attestation_verify pq profile bls (without_bls a) (Some vk) (Some pks) = Ok true.
Proof.
  intros Hv. unfold attestation_verify. cbn [without_bls ma_mldsa_signature ma_bls_aggregate].
  assert (verify_mldsa pq profile (without_bls a) vk = verify_mldsa pq profile a vk) as -> by done. rewrite Hv.
  unfold verify_mldsa in Hv. by destruct (ma_mldsa_signature a).
Qed.

(** * An operator attests two virtual machines *)
Definition two_vms : MultiVMStateRoot := {| vm_roots := <[17 := repeat 5 32]> {[1 := repeat 4 32]}; batch_round := 9 |}.
Definition demo_engine (bls : option BLSIdentity) : AttestationEngine :=
  {| ae_keypair := demo_signer; ae_chain_id := 1; ae_vk_hash := Domain.signer_fingerprint (kp_vk demo_signer);
     ae_bls_identity := bls |}.

(** A library whose signatures are constant. *)
Definition toy_bls : bls_library := {|
  lib_sign _ _ := Ok (repeat 1 96);
  lib_verify _ _ s := bool_decide (s = repeat 1 96);
  lib_aggregate _ := Ok (repeat 1 96);
  lib_aggregate_verify _ _ s := bool_decide (s = repeat 1 96);
  lib_fast_aggregate_verify _ _ s := bool_decide (s = repeat 1 96)
|}.
Definition toy_pair (pk sk : bytes) : Prop := len sk = SK_SIZE.

Lemma toy_bls_ok : bls_ok toy_bls toy_pair.
Proof.
  split; [intros pk sk m Hl; split; [exact Hl|]; by exists (repeat 1 96)|].
  intros m keys sigs _ _. exists (repeat 1 96). split; [done|]. by split; [|apply bool_decide_eq_true].
Qed.

Lemma two_vms_sized : roots_sized two_vms.
Proof.
  split; [apply insert_non_empty|]. intros t v. unfold two_vms. cbn [vm_roots].
  destruct (decide (17 = t)) as [<-|]; [rewrite lookup_insert_eq|rewrite lookup_insert_ne by done]; [by intros [= <-]|].
  by intros [_ <-]%lookup_singleton_Some.
Qed.

Lemma attestation_attests_witness : exists a d,
  attestation_sign toy_pq demo_profile (demo_engine None) two_vms 9 3 [1; 17] 0 = Ok a /\ digest a = Ok d /\
  verify_mldsa toy_pq demo_profile a (demo_vk 5) = Ok true /\ ma_state_root a = two_vms.
Proof.
  destruct (attestation_attests toy_pq demo_profile (demo_engine None) two_vms 9 3 [1; 17] 0) as (a & d & E & Hd & H1 & _ & _ & _ & Hv & _).
  - apply dsa_pair_signs_keypair; [exact eq_refl|exact (demo_dsa_pair 5)].
  - by vm_compute.
  - exact two_vms_sized.
  - exact (ex_intro _ a (ex_intro _ d (conj E (conj Hd (conj Hv H1))))).
Defined.

Lemma aggregate_attests_witness :
  let e := demo_engine (Some {| bi_pk := repeat 2 48; bi_sk_accessor := Ok (repeat 3 32) |}) in
  exists g agg, signer_count g = 2%nat /\ len agg = SIG_SIZE /\
    verify_bls (Some toy_bls) (attest_with e two_vms 9 3 [1; 17] 0 None (Some agg)) (signer_pks g) = Ok true.
Proof.
  intros e.
  assert (operator_ok toy_pair 1 e) as He by
    (split; [exact eq_refl|]; exists {| bi_pk := repeat 2 48; bi_sk_accessor := Ok (repeat 3 32) |}, (repeat 3 32); repeat split).
  destruct (aggregate_attests toy_bls toy_pair toy_bls_ok two_vms 9 3 [1; 17] 0 1 [e; e]) as (g & agg & _ & Hc & _ & Hl & Hv);
    [discriminate|by apply Forall_cons; split; [|apply Forall_cons]|by vm_compute|].
  exact (ex_intro _ g (ex_intro _ agg (conj Hc (conj Hl
    (Hv (attest_with e two_vms 9 3 [1; 17] 0 None (Some agg)) eq_refl eq_refl))))).
Defined.

Lemma stripped_attestation_verifies_witness :
  (a ← attestation_sign toy_pq demo_profile (demo_engine None) two_vms 9 3 [1; 17] 0;
   attestation_verify toy_pq demo_profile (Some toy_bls) (without_bls a) (Some (demo_vk 5)) (Some [repeat 2 48])) = Ok true.
Proof.
  destruct attestation_attests_witness as (a & d & E & _ & Hv & _). rewrite E. cbn [mbind result_bind].
  exact (stripped_attestation_verifies toy_pq demo_profile (Some toy_bls) a (demo_vk 5) [repeat 2 48] Hv).
Defined.
