(* ===== verification/Node.v ===== *)
(** The execution node (src/src/ltp/execution/): the failure monitor
    (execution_monitor.py, execution_config.py, execution_events.py), the
    attestation of state roots (state_attestor.py), the adapter interface and
    its deterministic implementation (consensus.py), the round pipeline
    (node_executor.py) and the bridge to the node software
    (consensus_node.py).

    The committee manager is an object the node only reads; where the
    consensus adapter reads one too, the adapter's value carries it.  An
    operation that raises may have changed the node already, so operations
    return the node beside the result.  [run_loop], the same loop in a
    background thread, is left out. *)

From Stdlib Require Import Zmod.
From S2P Require Import Prelude Float64 Sha3 Hashing Primitives Encoding Writer WriterGate Router Engine Bls ScalarField Shamir Dkg Committee Adapter Receipt Attestation.

(** * execution_config.py, execution_events.py *)
Record ExecutionConfig : Type := {
  failure_threshold_pct : Float64.float64;
  halt_on_catastrophic : bool;
  failure_window : Z;
  attestation_mode : pystr
}.
Definition default_execution_config : ExecutionConfig :=
  {| failure_threshold_pct := 0x4049000000000000; halt_on_catastrophic := true; failure_window := 100;
     attestation_mode := lit "dual" |}.

Inductive ExecutionPayload : Type :=
| EXECUTION_HALTED (round epoch : Z) (reason error : pystr)
| FAILURE_THRESHOLD_WARNING (failure_rate threshold : Float64.float64) (window round : Z)
| EPOCH_METRICS_RESET (old_epoch new_epoch total_batches_prev : Z).

Record ExecutionEvent : Type := { ee_round : Z; ee_epoch : Z; ee_timestamp_ms : Z; ee_payload : ExecutionPayload }.

(** * execution_monitor.py *)
Record ExecutionMonitor : Type := {
  em_config : ExecutionConfig;
  em_window : list (Z * Z);
  total_batches : Z;
  total_tx_success : Z;
  total_tx_failure : Z;
  em_halt : bool
}.

(** [deque(maxlen=...)] refuses a negative length. *)
Definition new_monitor (config : ExecutionConfig) : result ExecutionMonitor :=
  if failure_window config <? 0 then Err (ValueError "maxlen must be non-negative")
  else Ok {| em_config := config; em_window := []; total_batches := 0; total_tx_success := 0; total_tx_failure := 0;
             em_halt := false |}.

(** [append] on a [deque] with [maxlen]: what does not fit leaves on the left. *)
Definition deque_append {A} (maxlen : Z) (xs : list A) (x : A) : list A :=
  let ys := xs ++ [x] in drop (length ys - Z.to_nat maxlen) ys.

(** [total_f / total]; the counts are far below 2^53, where the quotient of
    integers is the quotient of floats. *)
Definition failure_rate (m : ExecutionMonitor) : result Float64.float64 :=
  let total_s := sumZ (map fst (em_window m)) in
  let total_f := sumZ (map snd (em_window m)) in
  let total := total_s + total_f in
  if total =? 0 then Ok f64_zero
  else a ← f64_of_int total_f; b ← f64_of_int total; f64_div a b.

Definition f64_hundred : Float64.float64 := 0x4059000000000000.

Definition count_success (rs : list TxResult) : Z := Z.of_nat (length (List.filter success rs)).
Definition count_failure (rs : list TxResult) : Z := Z.of_nat (length (List.filter (fun r => negb (success r)) rs)).

Definition monitor_record (m : ExecutionMonitor) (batch_result : BatchResult) (catastrophic : bool) :
  result (list ExecutionEvent) * ExecutionMonitor :=
  let config := em_config m in
  let successes := count_success (tx_results batch_result) in
  let failures := count_failure (tx_results batch_result) in
  let halts := catastrophic && halt_on_catastrophic config in
  let m := {| em_config := config; em_window := deque_append (failure_window config) (em_window m) (successes, failures);
              total_batches := total_batches m + 1; total_tx_success := total_tx_success m + successes;
              total_tx_failure := total_tx_failure m + failures; em_halt := em_halt m || halts |} in
  let event p := {| ee_round := br_round batch_result; ee_epoch := 0; ee_timestamp_ms := 0; ee_payload := p |} in
  (rate ← failure_rate m;
   limit ← f64_div (failure_threshold_pct config) f64_hundred;
   Ok ((if halts then [event (EXECUTION_HALTED (br_round batch_result) 0 (lit "catastrophic_error")
                                (lit "batch execution raised exception"))] else []) ++
       (if f64_gt rate limit
        then [event (FAILURE_THRESHOLD_WARNING rate (failure_threshold_pct config) (failure_window config) (br_round batch_result))]
        else [])),
   m).

Definition should_halt (m : ExecutionMonitor) : bool := em_halt m.

Definition monitor_reset (m : ExecutionMonitor) (old_epoch new_epoch : Z) : list ExecutionEvent * ExecutionMonitor :=
  ([{| ee_round := 0; ee_epoch := new_epoch; ee_timestamp_ms := 0;
       ee_payload := EPOCH_METRICS_RESET old_epoch new_epoch (total_batches m) |}],
   {| em_config := em_config m; em_window := []; total_batches := 0; total_tx_success := 0; total_tx_failure := 0;
      em_halt := false |}).

(** * state_attestor.py *)
Record AttestationResult : Type := {
  ares_state_root : option bytes;
  ares_round : Z;
  ares_epoch : Z;
  mldsa_attestation : option MultiVMAttestation;
  bls_signature : option bytes;
  ares_mode : pystr
}.

Section Attestor.
Context `{CanonicalHash} (pq : pq_backend) (profile : SecurityProfile).
Context {G2 : Type} `{CurveGroup G2} (hash_to_G2 : bytes -> G2).

(** [StateAttestor.attest], for an attestor with an engine or none and a
    committee manager or none; [now_ms] is the clock reading of the engine. *)
Definition attest (engine : option AttestationEngine) (cm : option CommitteeManager) (batch_result : BatchResult)
    (epoch now_ms : Z) : result AttestationResult :=
  match br_state_root batch_result with
  | None => Ok {| ares_state_root := None; ares_round := br_round batch_result; ares_epoch := epoch;
                  mldsa_attestation := None; bls_signature := None; ares_mode := lit "none" |}
  | Some state_root =>
      root_bytes ← root state_root;
      let active_tags := sorted_tags (vm_roots state_root) in
      mldsa_att ← (match engine with
                   | Some e => a ← attestation_sign pq profile e state_root (br_round batch_result) epoch active_tags now_ms; Ok (Some a)
                   | None => Ok None
                   end);
      bls_sig ← (match cm with
                 | Some cm => if has_signing_keys cm epoch then sign_as_committee hash_to_G2 cm root_bytes DOMAIN_STATE_ROOT
                              else Ok None
                 | None => Ok None
                 end);
      let mode := match mldsa_att, bls_sig with
                  | Some _, Some _ => lit "dual"
                  | Some _, None => lit "mldsa_only"
                  | None, _ => lit "none"
                  end in
      Ok {| ares_state_root := Some root_bytes; ares_round := br_round batch_result; ares_epoch := epoch;
            mldsa_attestation := mldsa_att; bls_signature := bls_sig; ares_mode := mode |}
  end.

(** [attestation_mode()] *)
Definition current_mode (engine : option AttestationEngine) (cm : option CommitteeManager) : pystr :=
  match engine, cm with
  | Some _, Some _ => lit "dual"
  | Some _, None => lit "mldsa_only"
  | None, _ => lit "none"
  end.
End Attestor.

(** * consensus.py: what the node asks of a consensus adapter *)
(** [tick], for adapters that have it. *)
Class ConsensusTick (A : Type) : Type :=
  ca_tick : A -> Z -> Z -> option (result (list ConsensusEvent) * A).

(** Start and stop, and the generator [stream_batches()]: its [i]-th [next]. *)
Class BatchStream (A : Type) : Type := {
  ca_start : A -> A;
  ca_stop : A -> A;
  ca_next : A -> nat -> option (OrderedBatch * A);
  ca_submit_transaction : A -> bytes -> result bytes * A;
  ca_current_round : A -> Z
}.

Record FakeConsensusAdapter : Type := {
  fa_batches : list OrderedBatch;
  fa_consensus_type : pystr;
  fa_current_round : Z;
  fa_running : bool
}.
Definition new_fake (batches : list OrderedBatch) (consensus_type : pystr) : FakeConsensusAdapter :=
  {| fa_batches := batches; fa_consensus_type := consensus_type; fa_current_round := 0; fa_running := false |}.
Definition fake_set (a : FakeConsensusAdapter) (round : Z) (running : bool) : FakeConsensusAdapter :=
  {| fa_batches := fa_batches a; fa_consensus_type := fa_consensus_type a; fa_current_round := round; fa_running := running |}.
Definition fake_next (a : FakeConsensusAdapter) (i : nat) : option (OrderedBatch * FakeConsensusAdapter) :=
  batch ← fa_batches a !! i; Some (batch, fake_set a (b_round batch) (fa_running a)).

#[export] Instance fake_tick : ConsensusTick FakeConsensusAdapter := fun _ _ _ => None.
#[export] Instance fake_stream : BatchStream FakeConsensusAdapter := {|
  ca_start a := fake_set a (fa_current_round a) true;
  ca_stop a := fake_set a (fa_current_round a) false;
  ca_next := fake_next;
  ca_submit_transaction a _ := (Ok [], a);
  ca_current_round := fa_current_round
|}.

(** [DagBftAdapter] with the committee manager it reads.  Its stream is a
    threaded generator; of it the node uses [tick] here.  Where [tick] raises
    the adapter is left as it was. *)
#[export] Instance dag_tick : ConsensusTick (CommitteeManager * DagBftAdapter) := fun ca round timestamp_ms =>
  Some (match adapter_tick ca.1 ca.2 round timestamp_ms with
        | Ok (events, a) => (Ok events, (ca.1, a))
        | Err e => (Err e, ca)
        end).

(** * node_executor.py *)
Record RoundResult : Type := {
  rr_batch_result : BatchResult;
  rr_attestation : option AttestationResult;
  rr_consensus_events : list ConsensusEvent;
  rr_execution_events : list ExecutionEvent;
  rr_round : Z;
  rr_epoch : Z;
  rr_halted : bool
}.

Section Executor.
Context `{CanonicalHash} (pq : pq_backend) (profile : SecurityProfile).
Context {G2 : Type} `{CurveGroup G2} (hash_to_G2 : bytes -> G2).
Context {A Obj : Type} `{ConsensusTick A} `{ExecutionModel Obj}.

Record NodeExecutor : Type := {
  ne_consensus : A;
  ne_batch_executor : BatchExecutor Obj;
  ne_engine : option AttestationEngine;
  ne_monitor : ExecutionMonitor;
  ne_results : list RoundResult;
  ne_consensus_events : list ConsensusEvent;
  ne_execution_events : list ExecutionEvent;
  ne_running : bool;
  ne_halted : bool
}.

Definition new_node (consensus : A) (router : TransactionRouter Obj) (engine : option AttestationEngine)
    (config : option ExecutionConfig) : result NodeExecutor :=
  monitor ← new_monitor (default default_execution_config config);
  Ok {| ne_consensus := consensus;
        ne_batch_executor := {| be_router := router; catastrophic := false; last_error := None |};
        ne_engine := engine; ne_monitor := monitor; ne_results := []; ne_consensus_events := [];
        ne_execution_events := []; ne_running := false; ne_halted := false |}.

Definition set_executor (n : NodeExecutor) (be : BatchExecutor Obj) : NodeExecutor :=
  {| ne_consensus := ne_consensus n; ne_batch_executor := be; ne_engine := ne_engine n; ne_monitor := ne_monitor n;
     ne_results := ne_results n; ne_consensus_events := ne_consensus_events n;
     ne_execution_events := ne_execution_events n; ne_running := ne_running n; ne_halted := ne_halted n |}.
Definition set_monitor (n : NodeExecutor) (m : ExecutionMonitor) : NodeExecutor :=
  {| ne_consensus := ne_consensus n; ne_batch_executor := ne_batch_executor n; ne_engine := ne_engine n; ne_monitor := m;
     ne_results := ne_results n; ne_consensus_events := ne_consensus_events n;
     ne_execution_events := ne_execution_events n; ne_running := ne_running n; ne_halted := ne_halted n |}.
Definition set_consensus (n : NodeExecutor) (a : A) : NodeExecutor :=
  {| ne_consensus := a; ne_batch_executor := ne_batch_executor n; ne_engine := ne_engine n; ne_monitor := ne_monitor n;
     ne_results := ne_results n; ne_consensus_events := ne_consensus_events n;
     ne_execution_events := ne_execution_events n; ne_running := ne_running n; ne_halted := ne_halted n |}.

(** Step 4: the epoch transitions among the events of a tick. *)
Definition reset_on (st : list ExecutionEvent * ExecutionMonitor) (evt : ConsensusEvent) : list ExecutionEvent * ExecutionMonitor :=
  match payload evt with
  | EPOCH_TRANSITION old_epoch new_epoch _ _ =>
      let '(reset_events, m) := monitor_reset st.2 old_epoch new_epoch in (st.1 ++ reset_events, m)
  | _ => st
  end.

(** Steps 5 and 6. *)
Definition batch_executed (batch : OrderedBatch) (r : BatchResult) (root_bytes : option bytes) : ConsensusEvent :=
  {| ce_epoch := b_epoch batch; ce_round := b_round batch; ce_timestamp_ms := timestamp_ms batch;
     payload := BATCH_EXECUTED (b_round batch) (b_epoch batch) (Z.of_nat (length (tx_results r)))
       (count_success (tx_results r)) (count_failure (tx_results r)) root_bytes |}.
Definition root_attested (batch : OrderedBatch) (attestation : option AttestationResult) : list ConsensusEvent :=
  match attestation with
  | Some att =>
      if bool_decide (ares_mode att = lit "none") then []
      else [{| ce_epoch := b_epoch batch; ce_round := b_round batch; ce_timestamp_ms := timestamp_ms batch;
               payload := STATE_ROOT_ATTESTED (b_round batch) (b_epoch batch) (ares_state_root att) (ares_mode att)
                 (bool_decide (is_Some (bls_signature att))) |}]
  | None => []
  end.

(** Steps 7 and 8. *)
Definition finish_round (n : NodeExecutor) (batch : OrderedBatch) (r : BatchResult) (attestation : option AttestationResult)
    (consensus_events : list ConsensusEvent) (execution_events : list ExecutionEvent) : RoundResult * NodeExecutor :=
  let halted := should_halt (ne_monitor n) in
  let result := {| rr_batch_result := r; rr_attestation := attestation; rr_consensus_events := consensus_events;
                   rr_execution_events := execution_events; rr_round := b_round batch; rr_epoch := b_epoch batch;
                   rr_halted := halted |} in
  (result,
   {| ne_consensus := ne_consensus n; ne_batch_executor := ne_batch_executor n; ne_engine := ne_engine n;
      ne_monitor := ne_monitor n; ne_results := ne_results n ++ [result];
      ne_consensus_events := ne_consensus_events n ++ consensus_events;
      ne_execution_events := ne_execution_events n ++ execution_events; ne_running := ne_running n;
      ne_halted := ne_halted n || halted |}).

Definition execute_round (cm : option CommitteeManager) (now_ms : Z) (n : NodeExecutor) (batch : OrderedBatch) :
  result RoundResult * NodeExecutor :=
  let '(r, be) := be_execute (ne_batch_executor n) batch in
  let n := set_executor n be in
  match (if negb (catastrophic be) && bool_decide (is_Some (br_state_root r))
         then att ← attest pq profile hash_to_G2 (ne_engine n) cm r (b_epoch batch) now_ms; Ok (Some att)
         else Ok None) with
  | Err e => (Err e, n)
  | Ok attestation =>
      let '(recorded, m) := monitor_record (ne_monitor n) r (catastrophic be) in
      let n := set_monitor n m in
      match recorded with
      | Err e => (Err e, n)
      | Ok monitor_events =>
          let '(ticked, n) := match ca_tick (ne_consensus n) (b_round batch) (timestamp_ms batch) with
                              | None => (Ok [], n)
                              | Some (events, a) => (events, set_consensus n a)
                              end in
          match ticked with
          | Err e => (Err e, n)
          | Ok adapter_events =>
              let '(reset_events, m) := fold_left reset_on adapter_events ([], ne_monitor n) in
              let n := set_monitor n m in
              match (match br_state_root r with None => Ok None | Some sr => x ← root sr; Ok (Some x) end) with
              | Err e => (Err e, n)
              | Ok root_bytes =>
                  let '(result, n) := finish_round n batch r attestation
                    (adapter_events ++ [batch_executed batch r root_bytes] ++ root_attested batch attestation)
                    (monitor_events ++ reset_events) in
                  (Ok result, n)
              end
          end
      end
  end.

Context `{BatchStream A}.

(** The loop of [run_rounds]: the generator is asked before the count and the
    halt flag are looked at.  [clock] gives the clock reading of each round. *)
Fixpoint run_stream (cm : option CommitteeManager) (clock : nat -> Z) (budget i : nat) (n : NodeExecutor) :
  result (list RoundResult) * NodeExecutor :=
  match ca_next (ne_consensus n) i with
  | None => (Ok [], n)
  | Some (batch, a) =>
      let n := set_consensus n a in
      match budget with
      | O => (Ok [], n)
      | S budget =>
          if ne_halted n then (Ok [], n)
          else
            match execute_round cm (clock i) n batch with
            | (Err e, n) => (Err e, n)
            | (Ok r, n) => let '(rs, n) := run_stream cm clock budget (S i) n in (rs ← rs; Ok (r :: rs), n)
            end
      end
  end.

Definition node_run_rounds (cm : option CommitteeManager) (clock : nat -> Z) (n : NodeExecutor) (count : Z) :
  result (list RoundResult) * NodeExecutor :=
  match run_stream cm clock (Z.to_nat count) 0 (set_consensus n (ca_start (ne_consensus n))) with
  | (Ok rs, n) => (Ok rs, set_consensus n (ca_stop (ne_consensus n)))
  | (Err e, n) => (Err e, n)
  end.

Definition node_submit_transaction (n : NodeExecutor) (tx_bytes : bytes) : result bytes * NodeExecutor :=
  let '(x, a) := ca_submit_transaction (ne_consensus n) tx_bytes in (x, set_consensus n a).

(** [event_history()]: all consensus events, then all execution events. *)
Definition event_history (n : NodeExecutor) : list (ConsensusEvent + ExecutionEvent) :=
  map inl (ne_consensus_events n) ++ map inr (ne_execution_events n).
End Executor.
Arguments NodeExecutor : clear implicits.

(** * consensus_node.py: what [on_round_complete] anchors, if the node software
    has [anchor_state_root] *)
Definition on_round_complete (result : RoundResult) (can_anchor : bool) : option (option bytes * option bytes) :=
  match rr_attestation result with
  | None => None
  | Some att =>
      if bool_decide (ares_mode att = lit "none") then None
      else if can_anchor then Some (ares_state_root att, bls_signature att) else None
  end.

(** * Theorems *)
(** ** The monitor *)
Section Monitor.
Context (config : ExecutionConfig).

(** The monitor after a list of rounds: results with the catastrophe flag. *)
Definition record_all (m : ExecutionMonitor) (rounds : list (BatchResult * bool)) : ExecutionMonitor :=
  fold_left (fun m r => (monitor_record m r.1 r.2).2) rounds m.

Definition outcome (r : BatchResult * bool) : Z * Z :=
  (count_success (tx_results r.1), count_failure (tx_results r.1)).

Definition last_n {A} (n : Z) (xs : list A) : list A := drop (length xs - Z.to_nat n) xs.

Lemma deque_append_last {A} n (xs : list A) x : deque_append n (last_n n xs) x = last_n n (xs ++ [x]).
Proof.
  unfold deque_append, last_n. rewrite !length_app, length_drop. cbn [length].
  destruct (decide (length xs <= Z.to_nat n)%nat).
  - replace (length xs - Z.to_nat n)%nat with 0%nat by lia. rewrite drop_0. f_equal. lia.
  - rewrite <- (drop_app_le xs [x] (length xs - Z.to_nat n)) by lia. rewrite drop_drop. f_equal. lia.
Qed.

Lemma record_all_spec m rounds :
  em_config m = config -> forall before, em_window m = last_n (failure_window config) before ->
  let m' := record_all m rounds in
  em_config m' = config /\ em_window m' = last_n (failure_window config) (before ++ map outcome rounds) /\
  total_batches m' = total_batches m + Z.of_nat (length rounds) /\
  total_tx_success m' = total_tx_success m + sumZ (map fst (map outcome rounds)) /\
  total_tx_failure m' = total_tx_failure m + sumZ (map snd (map outcome rounds)) /\
  em_halt m' = em_halt m || (halt_on_catastrophic config && existsb snd rounds).
Proof.
  revert m. induction rounds as [|[r c] rounds IH]; intros m Hc before Hw m'.
  { unfold m', record_all. cbn. rewrite app_nil_r, andb_false_r, orb_false_r. split_and!; try done; lia. }
  destruct (IH (monitor_record m r c).2 Hc (before ++ [outcome (r, c)])) as (H1 & H2 & H3 & H4 & H5 & H6).
  { cbn. by rewrite Hc, Hw, deque_append_last. }
  unfold m', record_all. cbn [fold_left fst snd]. fold (record_all (monitor_record m r c).2 rounds).
  rewrite H1, H2, H3, H4, H5, H6. cbn -[sumZ count_success count_failure]. rewrite <- app_assoc. split_and!; try done; try (cbn; lia).
  rewrite Hc. by destruct (em_halt m), c, (halt_on_catastrophic config), (existsb snd rounds).
Qed.
End Monitor.

(** The monitor counts exactly.  After any rounds since a reset, however they
    ended, the totals are the sums over these rounds, the window holds the
    outcomes of the last [failure_window] of them, and the node is to halt if
    and only if one was catastrophic and the configuration says so; another
    reset forgets all of it. *)
Theorem monitor_exact config m rounds : new_monitor config = Ok m ->
  let m' := record_all m rounds in
  let outcomes := map outcome rounds in
  em_window m' = last_n (failure_window config) outcomes /\
  total_batches m' = Z.of_nat (length rounds) /\
  total_tx_success m' = sumZ (map fst outcomes) /\ total_tx_failure m' = sumZ (map snd outcomes) /\
  total_tx_success m' + total_tx_failure m' = sumZ (map (fun r => Z.of_nat (length (tx_results r.1))) rounds) /\
  should_halt m' = halt_on_catastrophic config && existsb snd rounds /\
  forall a b, (monitor_reset m' a b).2 = m.
Proof.
  unfold new_monitor. destruct (_ <? 0) eqn:E; [done|]. intros Hm%Ok_inj. rewrite <- Hm.
  match goal with |- context [record_all ?m0 _] =>
    destruct (record_all_spec config m0 rounds eq_refl []) as (H1 & H2 & H3 & H4 & H5 & H6); [unfold last_n; by rewrite drop_nil|];
    set (m' := record_all m0 rounds) in * end.
  set (outcomes := map outcome rounds) in *. cbn -[sumZ] in *. split_and!; try done.
  - rewrite H4, H5. unfold outcomes. clear. induction rounds as [|[r c] rounds IH]; [done|]. cbn -[Z.add] in *.
    assert (count_success (tx_results r) + count_failure (tx_results r) = Z.of_nat (length (tx_results r))) as <-; [|lia].
    unfold count_success, count_failure. clear. induction (tx_results r) as [|x l IH]; [done|]. cbn. destruct (success x); cbn; lia.
  - unfold monitor_reset. cbn. by rewrite H1.
Qed.

(** ** Rates always exist *)
Definition small_window (m : ExecutionMonitor) (k : Z) : Prop :=
  Forall (fun p => 0 <= p.1 /\ 0 <= p.2) (em_window m) /\ sumZ (map fst (em_window m)) + sumZ (map snd (em_window m)) + k < 2 ^ 53.

Lemma sumZ_drop k xs : Forall (fun x => 0 <= x) xs -> 0 <= sumZ (drop k xs) <= sumZ xs.
Proof.
  intros Hx. rewrite <- (take_drop k xs) at 3. rewrite sumZ_app.
  pose proof (sumZ_nonneg _ (Forall_take _ k _ Hx)). pose proof (sumZ_nonneg _ (Forall_drop _ k _ Hx)). lia.
Qed.

Lemma failure_rate_total m : small_window m 0 -> exists w, failure_rate m = Ok w.
Proof.
  intros [Hn Hs]. unfold failure_rate. set (s := sumZ (map fst (em_window m))) in *. set (f := sumZ (map snd (em_window m))) in *.
  assert (0 <= s) by (apply sumZ_nonneg, Forall_fmap; eapply Forall_impl; [exact Hn|]; by intros ? []).
  assert (0 <= f) by (apply sumZ_nonneg, Forall_fmap; eapply Forall_impl; [exact Hn|]; by intros ? []).
  destruct (Z.eqb_spec (s + f) 0); [by eexists|].
  assert (exists a, f64_of_int f = Ok a) as [a ->].
  { destruct (decide (f = 0)) as [->|]; [by eexists|]. destruct (f64_of_int_exact f) as (w & ? & ? & -> & _); [lia|]. by eexists. }
  destruct (f64_of_int_exact (s + f)) as (w & mm & ee & -> & Hw & _); [lia|]. cbn [mbind result_bind].
  unfold f64_div. rewrite Hw. by eexists.
Qed.

Lemma monitor_record_total m r c : small_window m (Z.of_nat (length (tx_results r))) ->
  exists events, (monitor_record m r c).1 = Ok events.
Proof.
  intros [Hn Hs]. unfold monitor_record. cbn [fst].
  match goal with |- context [failure_rate ?m1] => destruct (failure_rate_total m1) as [w ->] end.
  { assert (count_success (tx_results r) + count_failure (tx_results r) = Z.of_nat (length (tx_results r))) as Hc.
    { unfold count_success, count_failure. clear. induction (tx_results r) as [|x l IH]; [done|]. cbn. destruct (success x); cbn; lia. }
    assert (0 <= count_success (tx_results r) /\ 0 <= count_failure (tx_results r)) as Hp by (unfold count_success, count_failure; lia).
    unfold small_window. cbn [em_window]. unfold deque_append. set (k := (_ - _)%nat).
    set (ys := em_window m ++ [_]). assert (Forall (fun p => 0 <= p.1 /\ 0 <= p.2) ys) as Hy
      by (apply Forall_app; split; [done|]; by apply Forall_singleton).
    split; [by apply Forall_drop|]. change (map fst (drop k ys)) with (fst <$> drop k ys). change (map snd (drop k ys)) with (snd <$> drop k ys).
    rewrite !fmap_drop.
    assert (Forall (fun x => 0 <= x) (fst <$> ys)) as H1 by (apply Forall_fmap; eapply Forall_impl; [exact Hy|]; by intros ? []).
    assert (Forall (fun x => 0 <= x) (snd <$> ys)) as H2 by (apply Forall_fmap; eapply Forall_impl; [exact Hy|]; by intros ? []).
    pose proof (sumZ_drop k _ H1). pose proof (sumZ_drop k _ H2).
    assert (sumZ (fst <$> ys) = sumZ (map fst (em_window m)) + count_success (tx_results r)) as E1
      by (unfold ys; rewrite fmap_app; apply sumZ_snoc).
    assert (sumZ (snd <$> ys) = sumZ (map snd (em_window m)) + count_failure (tx_results r)) as E2
      by (unfold ys; rewrite fmap_app; apply sumZ_snoc).
    rewrite E1, E2 in *. lia. }
  cbn [mbind result_bind]. unfold f64_div. change (f64_of_bits f64_hundred) with (SpecFloat.S754_finite false 7036874417766400 (-46)).
  cbn [result_bind]. by eexists.
Qed.

(** ** Rounds *)
Definition is_transition (e : ConsensusEvent) : bool := match payload e with EPOCH_TRANSITION _ _ _ _ => true | _ => false end.

Lemma reset_fold events st :
  em_halt (fold_left reset_on events st).2 = (if existsb is_transition events then false else em_halt st.2) /\
  em_config (fold_left reset_on events st).2 = em_config st.2.
Proof.
  revert st. induction events as [|e events IH]; intros st; [done|]. cbn [fold_left existsb].
  destruct (IH (reset_on st e)) as [-> ->]. unfold reset_on, is_transition. destruct (payload e); cbn; try done.
  by destruct (existsb _ events).
Qed.

Section Rounds.
Context `{CanonicalHash} (pq : pq_backend) (profile : SecurityProfile).
Context {G2 : Type} `{CurveGroup G2} (hash_to_G2 : bytes -> G2).
Context {A Obj : Type} `{ConsensusTick A} `{ExecutionModel Obj}.
Implicit Types (n : NodeExecutor A Obj) (batch : OrderedBatch).
Local Abbreviation round := (execute_round pq profile hash_to_G2).

Definition tick_of n batch : result (list ConsensusEvent) * A :=
  match ca_tick (ne_consensus n) (b_round batch) (timestamp_ms batch) with
  | None => (Ok [], ne_consensus n)
  | Some x => x
  end.

(** What attestation a round asks for. *)
Definition attested (cm : option CommitteeManager) now n (br : BatchResult) (be : BatchExecutor Obj) batch : result (option AttestationResult) :=
  if negb (catastrophic be) && bool_decide (is_Some (br_state_root br))
  then att ← attest pq profile hash_to_G2 (ne_engine n) cm br (b_epoch batch) now; Ok (Some att) else Ok None.

(** A round that returns, field by field. *)
Record round_done (cm : option CommitteeManager) (now : Z) n batch (r : RoundResult) n' : Prop := {
  rd_result : rr_batch_result r = (be_execute (ne_batch_executor n) batch).1;
  rd_executor : ne_batch_executor n' = (be_execute (ne_batch_executor n) batch).2;
  rd_attested : attested cm now n (rr_batch_result r) (ne_batch_executor n') batch = Ok (rr_attestation r);
  rd_events : exists events, tick_of n batch = (Ok events, ne_consensus n') /\
    rr_halted r = (if existsb is_transition events then false
                   else em_halt (ne_monitor n) || catastrophic (ne_batch_executor n') && halt_on_catastrophic (em_config (ne_monitor n)));
  rd_monitor : em_halt (ne_monitor n') = rr_halted r;
  rd_config : em_config (ne_monitor n') = em_config (ne_monitor n);
  rd_halted : ne_halted n' = ne_halted n || rr_halted r;
  rd_results : ne_results n' = ne_results n ++ [r];
  rd_round : rr_round r = b_round batch /\ rr_epoch r = b_epoch batch
}.

Lemma execute_round_done cm now n batch r n' : round cm now n batch = (Ok r, n') -> round_done cm now n batch r n'.
Proof.
  unfold execute_round. destruct (be_execute (ne_batch_executor n) batch) as [br be] eqn:Eb.
  change (ne_engine (set_executor n be)) with (ne_engine n). fold (attested cm now n br be batch).
  destruct (attested cm now n br be batch) as [att|] eqn:Ea; [|done].
  unfold monitor_record. cbv zeta beta. change (ne_monitor (set_executor n be)) with (ne_monitor n).
  match goal with |- context [set_monitor _ ?m] => set (m1 := m) end. destruct (mbind _ _) as [evs|] eqn:Er; [|done].
  change (ne_consensus (set_monitor (set_executor n be) m1)) with (ne_consensus n).
  assert (exists events a, tick_of n batch = (events, a)) as (events & a & Et) by (destruct (tick_of n batch); eauto).
  assert (match ca_tick (ne_consensus n) (b_round batch) (timestamp_ms batch) with
    | Some (events, a) => (events, set_consensus (set_monitor (set_executor n be) m1) a)
    | None => (Ok [], set_monitor (set_executor n be) m1) end = (events, set_consensus (set_monitor (set_executor n be) m1) a)) as ->.
  { unfold tick_of in Et. destruct (ca_tick _ _ _) as [[]|]; injection Et as <- <-; done. }
  destruct events as [events|]; [|done]. destruct (fold_left reset_on events _) as [resets m2] eqn:Ef.
  destruct (match br_state_root br with None => _ | _ => _ end) as [rb|] eqn:Eroot; [|done]. unfold finish_round. intros [= <- <-].
  pose proof (reset_fold events ([], m1)) as [Hh Hc]. cbn [ne_monitor set_consensus set_monitor] in Ef. rewrite Ef in Hh, Hc. cbn [snd] in Hh, Hc.
  split; cbn; rewrite ?Eb; try done. exists events. split; [done|]. unfold should_halt. by rewrite Hh.
Qed.

(** A round that raises has executed its batch, and nothing else is kept. *)
Lemma execute_round_raised cm now n batch e n' : round cm now n batch = (Err e, n') ->
  ne_batch_executor n' = (be_execute (ne_batch_executor n) batch).2 /\ ne_results n' = ne_results n /\ ne_halted n' = ne_halted n.
Proof.
  unfold execute_round. destruct (be_execute (ne_batch_executor n) batch) as [br be]. cbn zeta.
  destruct (if negb _ && _ then _ else _) as [att|]; [|by intros [= <- <-]]. destruct (monitor_record _ _ _) as [[evs|] m]; [|by intros [= <- <-]].
  destruct (ca_tick _ _ _) as [[[events|] a]|]; [..|]; try by intros [= <- <-].
  all: destruct (fold_left reset_on _ _) as [resets m2]; destruct (match br_state_root br with None => _ | _ => _ end); try done; by intros [= <- <-].
Qed.

(** ** Runs
    The reference: the batches an adapter hands out are executed in order,
    with a tick of the adapter after each; when [stop] is set, the first
    catastrophic one whose tick reports no epoch transition is the last.  A
    line has the batch, its result and whether it halts. *)
Context `{BatchStream A}.
Definition tick_adapter (a : A) batch : result (list ConsensusEvent) * A :=
  match ca_tick a (b_round batch) (timestamp_ms batch) with None => (Ok [], a) | Some x => x end.
Definition changes_epoch (events : result (list ConsensusEvent)) : bool :=
  match events with Ok events => existsb is_transition events | Err _ => false end.
Fixpoint execute_stream (stop : bool) (budget i : nat) (a : A) (be : BatchExecutor Obj) :
  list (OrderedBatch * BatchResult * bool) * BatchExecutor Obj :=
  match budget, ca_next a i with
  | S budget, Some (b, a) =>
      let '(r, be) := be_execute be b in
      let '(events, a) := tick_adapter a b in
      let halts := stop && catastrophic be && negb (changes_epoch events) in
      if halts then ([(b, r, true)], be)
      else let '(rs, be) := execute_stream stop budget (S i) a be in ((b, r, false) :: rs, be)
  | _, _ => ([], be)
  end.

(** A node that has not been halted. *)
Definition unhalted n : Prop := em_halt (ne_monitor n) = false /\ ne_halted n = false.
Local Abbreviation run := (run_stream pq profile hash_to_G2).

Lemma unhalted_round cm now n batch r n' : round cm now n batch = (Ok r, n') -> unhalted n ->
  let stop := halt_on_catastrophic (em_config (ne_monitor n)) in
  (rr_batch_result r, ne_batch_executor n') = be_execute (ne_batch_executor n) batch /\
  ne_consensus n' = (tick_adapter (ne_consensus n) batch).2 /\ em_config (ne_monitor n') = em_config (ne_monitor n) /\
  rr_round r = b_round batch /\ rr_epoch r = b_epoch batch /\
  rr_halted r = stop && catastrophic (ne_batch_executor n') && negb (changes_epoch (tick_adapter (ne_consensus n) batch).1) /\
  ne_halted n' = rr_halted r /\ (rr_halted r = false -> unhalted n') /\ ne_results n' = ne_results n ++ [r].
Proof.
  intros E%execute_round_done [Hh Hn] stop. destruct E as [E1 E2 _ (events & Ht & Eh) Em Ecf En Ers [Er Ee]].
  change (tick_of n batch) with (tick_adapter (ne_consensus n) batch) in Ht. rewrite Ht. cbn [fst snd changes_epoch].
  split; [rewrite E1, E2; by destruct (be_execute _ _)|]. rewrite Hn in En. cbn in En. rewrite Hh in Eh. cbn [orb] in Eh.
  split_and!; try done.
  - rewrite Eh. fold stop. rewrite (andb_comm stop). by destruct (existsb _ _); rewrite ?andb_true_r, ?andb_false_r.
  - intros Hf. split; congruence.
Qed.

Lemma run_halted cm clock budget i n : ne_halted n = true -> exists n', run cm clock budget i n = (Ok [], n') /\
  ne_batch_executor n' = ne_batch_executor n /\ ne_halted n' = true /\ ne_results n' = ne_results n.
Proof.
  intros Hh. destruct budget; cbn [run_stream]; destruct (ca_next _ _) as [[b a]|]; eauto.
  cbn [set_consensus ne_halted]. rewrite Hh. eauto.
Qed.

(** What a round result says of the batch, and what the reference says. *)
Definition round_outcome (r : RoundResult) : Z * Z * BatchResult * bool := (rr_round r, rr_epoch r, rr_batch_result r, rr_halted r).
Definition expected (x : OrderedBatch * BatchResult * bool) : Z * Z * BatchResult * bool := (b_round x.1.1, b_epoch x.1.1, x.1.2, x.2).

(** A run that completes [rs] and ends with [out], against the reference over
    [count] batches.  One that raises has executed one batch more. *)
Definition follows (stop : bool) (count i : nat) (a : A) (be : BatchExecutor Obj) (rs : list RoundResult) (out : result (list RoundResult)) n' : Prop :=
  match out with
  | Ok rs' => rs' = rs /\ let '(reference, be') := execute_stream stop count i a be in
      map round_outcome rs = map expected reference /\ ne_batch_executor n' = be' /\ ne_halted n' = existsb snd reference
  | Err _ => (length rs < count)%nat /\ let '(reference, be') := execute_stream stop (S (length rs)) i a be in
      length reference = S (length rs) /\ map round_outcome rs = map expected (take (length rs) reference) /\
      ne_batch_executor n' = be' /\ ne_halted n' = false
  end.

Lemma run_unhalted cm clock budget i n out n' : unhalted n -> run cm clock budget i n = (out, n') ->
  exists rs, ne_results n' = ne_results n ++ rs /\
    follows (halt_on_catastrophic (em_config (ne_monitor n))) budget i (ne_consensus n) (ne_batch_executor n) rs out n'.
Proof.
  revert i n out n'. induction budget as [|budget IH]; intros i n out n' Hf.
  { cbn [run_stream]. destruct (ca_next _ _) as [[b a]|]; intros [= <- <-]; destruct Hf as [_ Hh]; exists []; rewrite app_nil_r; cbn; by rewrite Hh. }
  cbn [run_stream]. destruct (ca_next (ne_consensus n) i) as [[b a]|] eqn:Ec; cycle 1.
  { intros [= <- <-]. destruct Hf as [_ Hh]. exists []. rewrite app_nil_r. cbn [follows execute_stream]. rewrite Ec. cbn. by rewrite Hh. }
  set (n0 := set_consensus n a). assert (unhalted n0) as Hf0 by exact Hf. rewrite (proj2 Hf0).
  destruct (execute_round _ _ _ cm (clock i) n0 b) as [[r|e] n1] eqn:Er; cycle 1.
  { intros [= <- <-]. apply execute_round_raised in Er as (E1 & E2 & E3). change (ne_batch_executor n0) with (ne_batch_executor n) in E1. exists []. rewrite app_nil_r. split; [done|].
    cbn [follows execute_stream length]. rewrite Ec. split; [lia|]. destruct (be_execute _ b) as [r be1]. destruct (tick_adapter a b) as [events a2]. rewrite E1, E3, (proj2 Hf0).
    by destruct (_ && _). }
  destruct (unhalted_round _ _ _ _ _ _ Er Hf0) as (E1 & Ea & Ecf & Ero & Eep & Eh & En & Hok & Ers).
  change (ne_batch_executor n0) with (ne_batch_executor n) in E1. change (ne_consensus n0) with a in Ea, Eh. change (ne_results n0) with (ne_results n) in Ers.
  change (em_config (ne_monitor n0)) with (em_config (ne_monitor n)) in Ecf, Eh.
  assert (forall k, execute_stream (halt_on_catastrophic (em_config (ne_monitor n))) (S k) i (ne_consensus n) (ne_batch_executor n) =
    if rr_halted r then ([(b, rr_batch_result r, true)], ne_batch_executor n1)
    else let '(rs, be) := execute_stream (halt_on_catastrophic (em_config (ne_monitor n))) k (S i) (ne_consensus n1) (ne_batch_executor n1) in
      ((b, rr_batch_result r, false) :: rs, be)) as Hs.
  { intros k. cbn [execute_stream]. rewrite Ec, <- E1, Ea, Eh. by destruct (tick_adapter a b). }
  assert (round_outcome r = expected (b, rr_batch_result r, rr_halted r)) as Eo by (unfold round_outcome, expected; cbn; by rewrite Ero, Eep).
  destruct (rr_halted r) eqn:Ehr.
  - destruct (run_halted cm clock budget (S i) n1 En) as (n2 & -> & Hb2 & Hn2 & Hr2). cbn. intros [= <- <-]. exists [r]. rewrite Hr2, Ers. split; [done|].
    cbn [follows]. rewrite Hs. cbn. by rewrite Eo, Hb2, Hn2.
  - specialize (Hok eq_refl). destruct (run cm clock budget (S i) n1) as [out' n2] eqn:Erun. intros E.
    destruct (IH _ _ _ _ Hok Erun) as (rs & Hr & Hw). assert (n2 = n') as -> by (by destruct out'; injection E).
    exists (r :: rs). rewrite Hr, Ers, <- app_assoc. split; [done|]. rewrite Ecf in Hw.
    destruct out' as [rs'|e]; injection E as <-; cbn [follows length] in *; rewrite Hs.
    + destruct Hw as [-> Hw]. destruct (execute_stream _ budget _ _ _) as [reference be]. destruct Hw as (I1 & I2 & I3). split; [done|]. cbn [map existsb snd orb]. by rewrite Eo, I1.
    + destruct Hw as [Hl Hw]. destruct (execute_stream _ (S (length rs)) _ _ _) as [reference be]. destruct Hw as (I0 & I1 & I2 & I3).
      split; [lia|]. cbn [length take map]. rewrite Eo, I0, I1. done.
Qed.

(** The reference stops at the first round that halts. *)
Lemma execute_stream_stops stop budget : forall i a be x, x ∈ (execute_stream stop budget i a be).1 -> x.2 = true ->
  last (execute_stream stop budget i a be).1 = Some x.
Proof.
  induction budget as [|budget IH]; intros i a be x; cbn [execute_stream]; [by intros ?%elem_of_nil|].
  destruct (ca_next a i) as [[b a1]|]; [|by intros ?%elem_of_nil]. destruct (be_execute be b) as [r be1]. destruct (tick_adapter a1 b) as [events a2].
  destruct (stop && _ && _); [by intros ->%list_elem_of_singleton|]. specialize (IH (S i) a2 be1 x).
  destruct (execute_stream stop budget (S i) a2 be1) as [rs be2]. cbn [fst] in *. intros [->|Hin]%elem_of_cons Hx; [done|].
  specialize (IH Hin Hx). destruct rs; [done|]. exact IH.
Qed.
Lemma execute_stream_stop stop budget : forall i a be x, x ∈ (execute_stream stop budget i a be).1 -> x.2 = true -> stop = true.
Proof.
  induction budget as [|budget IH]; intros i a be x; cbn [execute_stream]; [by intros ?%elem_of_nil|].
  destruct (ca_next a i) as [[b a1]|]; [|by intros ?%elem_of_nil]. destruct (be_execute be b) as [r be1]. destruct (tick_adapter a1 b) as [events a2].
  destruct stop; [done|]. cbn [andb]. specialize (IH (S i) a2 be1 x). destruct (execute_stream false budget (S i) a2 be1) as [rs be2].
  intros [->|Hin]%elem_of_cons Hx; [done|by apply IH].
Qed.
End Rounds.

(** Over [FakeConsensusAdapter] the reference is plain sequential execution of
    the first batches of its list, up to the first catastrophic one if the
    node is to stop there. *)
Fixpoint execute_until `{ExecutionModel Obj} (stop : bool) (be : BatchExecutor Obj) (batches : list OrderedBatch) : list BatchResult * BatchExecutor Obj :=
  match batches with
  | [] => ([], be)
  | b :: batches =>
      let '(r, be) := be_execute be b in
      if stop && catastrophic be then ([r], be) else let '(rs, be) := execute_until stop be batches in (r :: rs, be)
  end.
Lemma execute_stream_fake `{ExecutionModel Obj} stop budget : forall i (a : FakeConsensusAdapter) be,
  let '(reference, be') := execute_stream stop budget i a be in
  (map (fun x => x.1.2) reference, be') = execute_until stop be (take budget (drop i (fa_batches a))) /\
  map (fun x => x.1.1) reference `prefix_of` take budget (drop i (fa_batches a)).
Proof.
  induction budget as [|budget IH]; intros i a be; cbn [execute_stream]; [done|]. cbn [ca_next fake_stream]. unfold fake_next.
  destruct (fa_batches a !! i) as [b|] eqn:Eb; cbn [mbind option_bind]; cycle 1.
  { rewrite drop_ge by (by apply lookup_ge_None). done. }
  rewrite (drop_S _ b i Eb). cbn [take execute_until]. destruct (be_execute be b) as [r be1]. cbn [tick_adapter ca_tick fake_tick changes_epoch existsb negb].
  rewrite andb_true_r. destruct (stop && catastrophic be1); [split; [done|apply prefix_cons, prefix_nil]|].
  specialize (IH (S i) (fake_set a (b_round b) (fa_running a)) be1). destruct (execute_stream stop budget (S i) _ be1) as [rs be2].
  cbn [fake_set fa_batches] in IH. destruct IH as [I1 I2]. rewrite <- I1. split; [done|]. by apply prefix_cons.
Qed.

(** C32: The node executes what consensus orders.  Over any adapter, with or
    without [tick], every run refines the sequential reference: the rounds it
    completes and the state of every virtual machine are those of executing
    the batches the adapter hands out, in order and at most as many as asked,
    with the adapter ticked after each; a run that raises, as attesting or
    the adapter may, has completed the rounds before and executed the batch
    it raises on.  A node configured to halt
    on catastrophes stops with the first catastrophic round, unless its tick
    reports an epoch transition; one that is not goes on; and a halted node
    executes nothing, however often it is run. *)
Theorem node_refines_execution `{CanonicalHash} pq profile `{CurveGroup G2} (hash_to_G2 : bytes -> G2) {A Obj : Type} `{ConsensusTick A}
    `{ExecutionModel Obj} `{BatchStream A} cm clock (n : NodeExecutor A Obj) count :
  let stop := halt_on_catastrophic (em_config (ne_monitor n)) in
  let '(out, n') := node_run_rounds pq profile hash_to_G2 cm clock n count in
  (unhalted n -> exists rs, ne_results n' = ne_results n ++ rs /\
     follows stop (Z.to_nat count) 0 (ca_start (ne_consensus n)) (ne_batch_executor n) rs out n' /\
     forall x, x ∈ (execute_stream stop (Z.to_nat count) 0 (ca_start (ne_consensus n)) (ne_batch_executor n)).1 -> x.2 = true ->
       stop = true /\ last (execute_stream stop (Z.to_nat count) 0 (ca_start (ne_consensus n)) (ne_batch_executor n)).1 = Some x) /\
  (ne_halted n = true -> out = Ok [] /\ ne_batch_executor n' = ne_batch_executor n /\ ne_halted n' = true).
Proof.
  cbn zeta. unfold node_run_rounds. set (n0 := set_consensus n _). destruct (run_stream _ _ _ _ _ _ _ n0) as [out n1] eqn:Er.
  assert (forall a, ne_results (set_consensus n1 a) = ne_results n1 /\ ne_batch_executor (set_consensus n1 a) = ne_batch_executor n1 /\
    ne_halted (set_consensus n1 a) = ne_halted n1) as Hset by done.
  assert (unhalted n -> exists rs, ne_results n1 = ne_results n ++ rs /\ follows (halt_on_catastrophic (em_config (ne_monitor n))) (Z.to_nat count) 0
    (ca_start (ne_consensus n)) (ne_batch_executor n) rs out n1) as Hu by (intros Hf; by apply (run_unhalted _ _ _ _ _ _ _ n0) in Er).
  assert (ne_halted n = true -> out = Ok [] /\ ne_batch_executor n1 = ne_batch_executor n /\ ne_halted n1 = true) as Hh.
  { intros Hh. destruct (run_halted pq profile hash_to_G2 cm clock (Z.to_nat count) 0 n0 Hh) as (n2 & E & Hb & Hn & _). rewrite Er in E. by injection E as -> ->. }
  destruct out as [rs'|e]; (split; [|exact Hh]; intros Hf; destruct (Hu Hf) as (rs & Hr & Hw); exists rs; split; [exact Hr|]; split; [exact Hw|]);
    intros x Hx Ht; (split; [by eapply execute_stream_stop; [exact Hx|]|by apply execute_stream_stops]).
Qed.

(** ** From a batch to a doubly signed state root *)
(** A registry as [register] builds it, with tags of one byte. *)
Definition registry_good `{ExecutionModel Obj} (reg : list (Z * Obj)) : Prop :=
  registry_ok reg /\ NoDup (map fst reg) /\ Forall (fun t => 0 <= t < 256) (map fst reg).

Lemma batch_roots `{ExecutionModel Obj} (st : TransactionRouter Obj) batch br st' : execute_batch st batch = (inl br, st') ->
  registry_good (vms st) -> exists sr, br_state_root br = Some sr /\ batch_round sr = b_round batch /\ br_round br = b_round batch /\
    (forall t v, vm_roots sr !! t = Some v <-> exists o, (t, o) ∈ vms st' /\ state_root o = Ok v) /\
    forall t, is_Some (vm_roots sr !! t) -> 0 <= t < 256.
Proof.
  unfold execute_batch. intros E (Hok & Hnd & Ht). pose proof (run_txs_same st (b_epoch batch) (transactions batch)) as [Hok' Hk].
  destruct (run_txs st _ _) as [[rs|e] st1]; [|done]. destruct (collect_roots ∅ (vms st1)) as [roots|] eqn:Ec; [|done].
  injection E as <- <-. cbn in Hok', Hk. specialize (Hok' Hok). rewrite <- Hk in Hnd, Ht.
  assert (forall t v, roots !! t = Some v <-> exists o, (t, o) ∈ vms st1 /\ state_root o = Ok v) as Hs.
  { intros t v. rewrite (collect_roots_spec _ _ _ Hok' Hnd Ec). split; [intros [?|[[]%lookup_empty_Some _]]; done|by left]. }
  eexists. split; [done|]. split; [done|]. split; [done|]. split; [exact Hs|]. intros t [v (o & Ho & _)%Hs].
  eapply Forall_forall in Ht; [exact Ht|]. apply elem_of_map. by exists (t, o).
Qed.

(** Key ceremonies register a key for their epoch. *)
Lemma keyed_has_keys {G1} `{CurveGroup G1} GP vm policy sp ro epoch cm : keyed GP vm policy sp ro epoch cm -> has_signing_keys cm epoch = true.
Proof.
  intros [_ _ _ _ K]. unfold has_signing_keys, kr_has_epoch. apply bool_decide_eq_true.
  unfold kr_group_pk, kr_get in K. by destruct (kr_epochs (cm_dkg cm) !! epoch).
Qed.

Section Attested.
Context `{CanonicalHash} (pq : pq_backend) (profile : SecurityProfile).
Context {G1 G2 : Type} `{CurveGroup G1} `{CurveGroup G2} (GP HP : G1).
Context (hash_to_G2 : bytes -> G2) (g1_compress : G1 -> bytes) (lib : bls_library).
Context {A Obj : Type} `{ConsensusTick A} `{ExecutionModel Obj}.

(** A node that can run the batch: an operator key that signs, one-byte tags,
    numbers that fit their fields, room in the monitor's counters, and an
    adapter whose tick does not raise. *)
Record ready (n : NodeExecutor A Obj) (e : AttestationEngine) (batch : OrderedBatch) : Prop := {
  rdy_engine : ne_engine n = Some e;
  rdy_signs : signs_for pq profile (FromKeyPair (ae_keypair e)) (kp_vk (ae_keypair e));
  rdy_registry : registry_good (vms (be_router (ne_batch_executor n)));
  rdy_round : 0 <= b_round batch < 256 ^ 8;
  rdy_epoch : 0 <= b_epoch batch < 256 ^ 8;
  rdy_chain : 0 <= ae_chain_id e < 256 ^ 8;
  rdy_window : small_window (ne_monitor n) (Z.of_nat (length (transactions batch)));
  rdy_tick : is_ok (tick_of n batch).1 = true
}.

Lemma execute_batch_length (st : TransactionRouter Obj) batch br st' : execute_batch st batch = (inl br, st') ->
  length (tx_results br) = length (transactions batch).
Proof.
  unfold execute_batch. destruct (run_txs st _ _) as [[rs|e] st1] eqn:E; [|done]. destruct (collect_roots _ _); [|done].
  intros [= <- <-]. cbn. revert st rs st1 E. induction (transactions batch) as [|tx txs IH]; intros st rs st1; cbn; [by intros [= <- <-]|].
  destruct (execute_tx st (b_epoch batch) tx) as [[r|e] st2]; [|done]. destruct (run_txs st2 _ txs) as [[rs'|e] st3] eqn:E3; [|done].
  intros [= <- <-]. cbn. by rewrite (IH _ _ _ E3).
Qed.

(** A round over a completed batch returns as soon as its attestation does. *)
Lemma round_returns cm now n e batch br st' att : ready n e batch ->
  execute_batch (be_router (ne_batch_executor n)) batch = (inl br, st') ->
  attest pq profile hash_to_G2 (Some e) cm br (b_epoch batch) now = Ok att ->
  exists r n', execute_round pq profile hash_to_G2 cm now n batch = (Ok r, n') /\ rr_batch_result r = br /\
    rr_attestation r = Some att /\ be_router (ne_batch_executor n') = st' /\
    root_attested batch (Some att) ⊆ rr_consensus_events r.
Proof.
  intros Hr Eb Ea. destruct (batch_roots _ _ _ _ Eb (rdy_registry _ _ _ Hr)) as (sr & Esr & Esrr & _ & _ & Htags).
  assert (be_execute (ne_batch_executor n) batch = (br, {| be_router := st'; catastrophic := false; last_error := None |})) as Ebe
    by (unfold be_execute; by rewrite Eb).
  unfold execute_round. rewrite Ebe. change (ne_engine (set_executor n _)) with (ne_engine n). rewrite (rdy_engine _ _ _ Hr), Esr.
  cbn [catastrophic negb andb]. rewrite bool_decide_eq_true_2 by eauto. rewrite Ea. cbn [mbind result_bind].
  change (ne_monitor (set_executor n _)) with (ne_monitor n).
  destruct (monitor_record_total (ne_monitor n) br false) as [evs Hevs].
  { rewrite (execute_batch_length _ _ _ _ Eb). apply (rdy_window _ _ _ Hr). }
  destruct (monitor_record (ne_monitor n) br false) as [rec m]. cbn in Hevs. subst rec.
  pose proof (rdy_tick _ _ _ Hr) as Ht. unfold tick_of in Ht.
  change (ne_consensus (set_monitor (set_executor n _) m)) with (ne_consensus n).
  assert (exists x, root sr = Ok x) as [x Hx] by (apply root_total; [done|rewrite Esrr; apply (rdy_round _ _ _ Hr)]).
  destruct (ca_tick (ne_consensus n) _ _) as [[[events|] a]|]; try done.
  all: destruct (fold_left reset_on _ _) as [resets m2]; rewrite Hx; unfold finish_round; do 2 eexists; (split; [reflexivity|]); cbn; split_and!; try done.
  all: intros ev Hev; repeat (apply elem_of_app; right; try by apply elem_of_cons; right).
  all: try (apply elem_of_cons; right; done). all: done.
Qed.

End Attested.

(** ** Deviations *)
Section Deviations.
Context `{CanonicalHash} (pq : pq_backend) (profile : SecurityProfile).
Context {G2 : Type} `{CurveGroup G2} (hash_to_G2 : bytes -> G2).
Context {A Obj : Type} `{ConsensusTick A} `{ExecutionModel Obj}.

(** An epoch transition undoes a halt.  If the tick of the very round in which
    execution failed catastrophically reports an epoch transition, the reset
    of the monitor wipes the halt flag before the node looks at it. *)
Theorem halt_lost cm now (n : NodeExecutor A Obj) batch r n' events :
  execute_round pq profile hash_to_G2 cm now n batch = (Ok r, n') ->
  catastrophic (ne_batch_executor n') = true -> (tick_of n batch).1 = Ok events -> existsb is_transition events = true ->
  rr_halted r = false /\ ne_halted n' = ne_halted n /\ em_halt (ne_monitor n') = false.
Proof.
  intros E%execute_round_done _ Ht Htr. destruct E as [_ _ _ (events' & Ht' & Eh) Em _ En _ _].
  rewrite Ht' in Ht. cbn in Ht. injection Ht as ->. rewrite Htr in Eh. rewrite En, Em, Eh. by rewrite orb_false_r.
Qed.

(** A threshold signature alone does not count: without an ML-DSA key the mode
    is "none" although the committee has signed, no event is emitted, and
    nothing is anchored. *)
Theorem bls_only_dropped cm br epoch now att : attest pq profile hash_to_G2 None (Some cm) br epoch now = Ok att ->
  ares_mode att = lit "none" /\ forall batch, root_attested batch (Some att) = [] /\
    forall r can_anchor, rr_attestation r = Some att -> on_round_complete r can_anchor = None.
Proof.
  intros E. assert (ares_mode att = lit "none") as Hm.
  { unfold attest in E. destruct (br_state_root br) as [sr|]; [|by apply Ok_inj in E as <-].
    destruct (root sr) as [x|]; [|done]. cbn [mbind result_bind] in E.
    destruct (if has_signing_keys cm epoch then _ else _); [|done]. by apply Ok_inj in E as <-. }
  split; [done|]. intros batch. unfold root_attested. rewrite Hm, bool_decide_eq_true_2 by done. split; [done|].
  intros r c Hr. unfold on_round_complete. by rewrite Hr, Hm, bool_decide_eq_true_2.
Qed.
End Deviations.

(** * Two nodes *)
(** A machine whose state root cannot be read after the payload [255]. *)
Record brittle_vm : Type := { bv_log : list bytes }.
#[export] Instance brittle_model : ExecutionModel brittle_vm.
Proof.
  refine {| vm_tag := fun _ => 1; vm_name := fun _ => lit "brittle";
    execute := fun o p => (Ok (accepted 1 p), {| bv_log := bv_log o ++ [p] |});
    state_root := fun o => if bool_decide ([255] ∈ bv_log o) then Err RuntimeError else Ok (quick_digest (concat (bv_log o)));
    query_state := fun _ _ => Err KeyError; authorize_writer := fun _ => None; str_exn := fun _ => lit "error" |}.
  done.
Defined.

Definition demo_router : TransactionRouter brittle_vm := {| vms := [(1, {| bv_log := [] |})]; gate := None |}.
Definition demo_batch (round : Z) (byte : Z) : OrderedBatch := {| b_round := round; b_epoch := 1; transactions := [[1; byte]];
  leader_authority := 0; timestamp_ms := 0; consensus_type := lit "dag" |}.
Definition demo_node (e : option AttestationEngine) : result (NodeExecutor FakeConsensusAdapter brittle_vm) :=
  new_node (new_fake [demo_batch 1 7; demo_batch 2 255; demo_batch 3 8] (lit "dag")) demo_router e None.
Definition node0 (e : option AttestationEngine) : NodeExecutor FakeConsensusAdapter brittle_vm :=
  {| ne_consensus := new_fake [demo_batch 1 7; demo_batch 2 255; demo_batch 3 8] (lit "dag");
     ne_batch_executor := {| be_router := demo_router; catastrophic := false; last_error := None |}; ne_engine := e;
     ne_monitor := {| em_config := default_execution_config; em_window := []; total_batches := 0; total_tx_success := 0;
       total_tx_failure := 0; em_halt := false |};
     ne_results := []; ne_consensus_events := []; ne_execution_events := []; ne_running := false; ne_halted := false |}.

Definition halting_reference : list (OrderedBatch * BatchResult * bool) :=
  (execute_stream true 5 0 (ca_start (ne_consensus (node0 None))) (ne_batch_executor (node0 None))).1.
Lemma node_refines_execution_witness : demo_node None = Ok (node0 None) /\
  exists rs n', node_run_rounds toy_pq demo_profile Trio.hash_to_G2 None (fun _ => 0) (node0 None) 5 = (Ok rs, n') /\
    map rr_round rs = [1; 2] /\ map rr_halted rs = [false; true] /\ ne_halted n' = true /\
    map round_outcome rs = map expected halting_reference.
Proof.
  split; [reflexivity|].
  assert (exists rs n', node_run_rounds toy_pq demo_profile Trio.hash_to_G2 None (fun _ => 0) (node0 None) 5 = (Ok rs, n') /\
    map rr_round rs = [1; 2] /\ map rr_halted rs = [false; true] /\ ne_halted n' = true) as (rs & n' & E & H1 & H2 & H3)
    by (do 2 eexists; split; [vm_compute; reflexivity|repeat split]).
  exists rs, n'. split; [exact E|]. split; [exact H1|]. split; [exact H2|]. split; [exact H3|].
  pose proof (node_refines_execution toy_pq demo_profile Trio.hash_to_G2 None (fun _ => 0) (node0 None) 5) as Hr. cbn zeta in Hr. rewrite E in Hr.
  destruct (proj1 Hr (conj eq_refl eq_refl)) as (rs' & _ & Hw & _). cbn [follows] in Hw. destruct Hw as [-> Hw].
  unfold halting_reference. change (halt_on_catastrophic (em_config (ne_monitor (node0 None)))) with true in Hw. change (Z.to_nat 5) with 5%nat in Hw.
  destruct (execute_stream true 5 0 _ _) as [reference be]. exact (proj1 Hw).
Defined.

Lemma demo_ready : ready toy_pq demo_profile (node0 (Some (demo_engine None))) (demo_engine None) (demo_batch 1 7).
Proof.
  split; try done.
  - apply dsa_pair_signs_keypair; [exact eq_refl|exact (demo_dsa_pair 5)].
  - split; [by constructor|]. split; [apply NoDup_singleton|]. by constructor.
Qed.


Lemma monitor_exact_witness : exists m, new_monitor default_execution_config = Ok m /\
  total_batches (record_all m [({| br_round := 1; tx_results := [accepted 1 []; rejected []]; br_state_root := None |}, true)]) = 1 /\
  should_halt (record_all m [({| br_round := 1; tx_results := [accepted 1 []; rejected []]; br_state_root := None |}, true)]) = true.
Proof.
  eexists. split; [reflexivity|].
  destruct (monitor_exact default_execution_config _
    [({| br_round := 1; tx_results := [accepted 1 []; rejected []]; br_state_root := None |}, true)] eq_refl) as (_ & H1 & _ & _ & _ & H2 & _).
  exact (conj H1 H2).
Defined.
