(* ===== verification/Economics.v ===== *)
(** Token economics (src/src/ltp/economics.py): phases, fees and their split,
    rewards with vesting, progressive slashing with grace periods, offense
    decay and the epoch step.

    Amounts are integers; multipliers are floats, computed as the code does:
    an integer meets a float after conversion, a quotient of integers is
    rounded once, [int()] truncates.  [math.exp] is the platform's and an
    argument.  Where an operation raises, the exception alone is returned. *)

From S2P Require Import Prelude Float64.

Definition WEI_PER_LTP : Z := 10 ^ 18.

Inductive NetworkPhase : Type := BOOTSTRAP | GROWTH | MATURITY.
#[export] Instance NetworkPhase_eq_dec : EqDecision NetworkPhase.
Proof. solve_decision. Defined.

Inductive SlashingTier : Type := WARNING | MINOR | MAJOR | CRITICAL.
#[export] Instance SlashingTier_eq_dec : EqDecision SlashingTier.
Proof. solve_decision. Defined.

Definition SLASHING_RATES (t : SlashingTier) : Z :=
  match t with WARNING => 100 | MINOR => 500 | MAJOR => 1500 | CRITICAL => 3000 end.

Definition SLASHING_OFFENSE_THRESHOLDS : list (Z * SlashingTier) := [(1, WARNING); (2, MINOR); (4, MAJOR); (6, CRITICAL)].

Definition tier_for_offense_count (count : Z) : SlashingTier :=
  fold_left (fun tier p => if p.1 <=? count then p.2 else tier) SLASHING_OFFENSE_THRESHOLDS WARNING.

(** * Vesting and pending slashes *)
Record VestingEntry : Type := { v_amount : Z; v_start_epoch : Z; v_duration_epochs : Z; v_claimed : Z }.

Definition remaining (v : VestingEntry) : Z := v_amount v - v_claimed v.

Definition claimable_at (v : VestingEntry) (current_epoch : Z) : Z :=
  if current_epoch <? v_start_epoch v then 0
  else
    let elapsed := current_epoch - v_start_epoch v in
    if v_duration_epochs v <=? elapsed then remaining v
    else Z.max 0 (v_amount v * elapsed / v_duration_epochs v - v_claimed v).

Record PendingSlash : Type := {
  ps_node_id : pystr;
  ps_amount : Z;
  ps_tier : SlashingTier;
  ps_epoch_created : Z;
  ps_grace_epochs : Z;
  ps_reversed : bool
}.

Definition finalization_epoch (p : PendingSlash) : Z := ps_epoch_created p + ps_grace_epochs p.
Definition is_finalized (p : PendingSlash) (current_epoch : Z) : bool :=
  negb (ps_reversed p) && (finalization_epoch p <=? current_epoch).

(** * Configuration *)
Record EconomicsConfig : Type := {
  bootstrap_end_epoch : Z;
  growth_end_epoch : Z;
  epoch_seconds : Z;
  bootstrap_subsidy_per_epoch : Z;
  bootstrap_multiplier_start : Float64.float64;
  bootstrap_multiplier_end : Float64.float64;
  growth_subsidy_multiplier_start : Float64.float64;
  growth_subsidy_multiplier_end : Float64.float64;
  growth_subsidy_duration_epochs : Z;
  base_storage_reward_per_shard : Z;
  base_availability_reward : Z;
  audit_bonus_multiplier : Float64.float64;
  min_stake_bootstrap : Z;
  min_stake_growth : Z;
  min_stake_maturity : Z;
  max_stake_cap : Z;
  base_commit_fee : Z;
  fee_utilization_target : Float64.float64;
  fee_elasticity : Float64.float64;
  max_fee_multiplier : Float64.float64;
  min_fee_multiplier : Float64.float64;
  fee_operator_share_bps : Z;
  fee_burn_share_bps : Z;
  fee_endowment_share_bps : Z;
  fee_insurance_share_bps : Z;
  vesting_immediate_pct : Z;
  vesting_duration_epochs : Z;
  eviction_offense_threshold : Z;
  cooldown_epochs_per_offense : Z;
  correlation_scaling : Float64.float64;
  max_correlation_multiplier : Float64.float64;
  offense_decay_clean_epochs : Z;
  slash_grace_epochs : Z;
  allocation_change_delay_epochs : Z;
  target_shards_per_node : Z;
  overload_threshold : Float64.float64
}.

(** [__post_init__] *)
Definition check_config (cfg : EconomicsConfig) : result unit :=
  if fee_operator_share_bps cfg + fee_burn_share_bps cfg + fee_endowment_share_bps cfg + fee_insurance_share_bps cfg =? 10000
  then Ok tt else Err (ValueError "Fee split must sum to 10000 bps").

(** Some doubles: 0.1, 0.5, 1.5, 2.0, 3.0 and 10.0. *)
Definition f64_tenth : Float64.float64 := 0x3FB999999999999A.
Definition f64_half : Float64.float64 := 0x3FE0000000000000.
Definition f64_3_2 : Float64.float64 := 0x3FF8000000000000.
Definition f64_two : Float64.float64 := 0x4000000000000000.
Definition f64_three : Float64.float64 := 0x4008000000000000.
Definition f64_ten : Float64.float64 := 0x4024000000000000.

(** [EconomicsConfig()] *)
Definition default_economics : EconomicsConfig := {|
  bootstrap_end_epoch := 4320; growth_end_epoch := 17520; epoch_seconds := 3600;
  bootstrap_subsidy_per_epoch := 500 * WEI_PER_LTP;
  bootstrap_multiplier_start := f64_three; bootstrap_multiplier_end := f64_one;
  growth_subsidy_multiplier_start := f64_3_2; growth_subsidy_multiplier_end := f64_one;
  growth_subsidy_duration_epochs := 8760;
  base_storage_reward_per_shard := 10 ^ 14; base_availability_reward := 10 ^ 15; audit_bonus_multiplier := f64_3_2;
  min_stake_bootstrap := 100 * WEI_PER_LTP; min_stake_growth := 1000 * WEI_PER_LTP;
  min_stake_maturity := 10000 * WEI_PER_LTP; max_stake_cap := 1000000 * WEI_PER_LTP;
  base_commit_fee := 10 ^ 15; fee_utilization_target := f64_half; fee_elasticity := f64_two;
  max_fee_multiplier := f64_ten; min_fee_multiplier := f64_tenth;
  fee_operator_share_bps := 6000; fee_burn_share_bps := 1500; fee_endowment_share_bps := 1000; fee_insurance_share_bps := 1500;
  vesting_immediate_pct := 50; vesting_duration_epochs := 720;
  eviction_offense_threshold := 6; cooldown_epochs_per_offense := 24;
  correlation_scaling := f64_two; max_correlation_multiplier := f64_three;
  offense_decay_clean_epochs := 720; slash_grace_epochs := 168; allocation_change_delay_epochs := 336;
  target_shards_per_node := 10000; overload_threshold := f64_3_2
|}.

(** * Nodes

    The statistics fields, which nothing in the module reads or writes, are
    left out. *)
Record NodeEconomics : Type := {
  ne_node_id : pystr;
  ne_stake : Z;
  ne_shards_stored : Z;
  ne_audit_score : Z;
  ne_offense_count : Z;
  ne_cooldown_until_epoch : Z;
  ne_evicted : bool;
  ne_clean_epochs_since_offense : Z;
  ne_vesting_entries : list VestingEntry;
  ne_pending_slashes : list PendingSlash
}.

(** [effective_stake] *)
Definition effective_stake (n : NodeEconomics) : result Z := s ← int_truediv (ne_audit_score n) 100; int_scale (ne_stake n) s.
Definition slashing_tier (n : NodeEconomics) : SlashingTier := tier_for_offense_count (ne_offense_count n).
Definition total_vesting (n : NodeEconomics) : Z := sumZ (map remaining (ne_vesting_entries n)).

Definition with_vesting (n : NodeEconomics) (vs : list VestingEntry) : NodeEconomics :=
  {| ne_node_id := ne_node_id n; ne_stake := ne_stake n; ne_shards_stored := ne_shards_stored n;
     ne_audit_score := ne_audit_score n; ne_offense_count := ne_offense_count n;
     ne_cooldown_until_epoch := ne_cooldown_until_epoch n; ne_evicted := ne_evicted n;
     ne_clean_epochs_since_offense := ne_clean_epochs_since_offense n; ne_vesting_entries := vs;
     ne_pending_slashes := ne_pending_slashes n |}.
Definition with_pending (n : NodeEconomics) (ps : list PendingSlash) : NodeEconomics :=
  {| ne_node_id := ne_node_id n; ne_stake := ne_stake n; ne_shards_stored := ne_shards_stored n;
     ne_audit_score := ne_audit_score n; ne_offense_count := ne_offense_count n;
     ne_cooldown_until_epoch := ne_cooldown_until_epoch n; ne_evicted := ne_evicted n;
     ne_clean_epochs_since_offense := ne_clean_epochs_since_offense n; ne_vesting_entries := ne_vesting_entries n;
     ne_pending_slashes := ps |}.
Definition with_offenses (n : NodeEconomics) (offenses clean : Z) : NodeEconomics :=
  {| ne_node_id := ne_node_id n; ne_stake := ne_stake n; ne_shards_stored := ne_shards_stored n;
     ne_audit_score := ne_audit_score n; ne_offense_count := offenses;
     ne_cooldown_until_epoch := ne_cooldown_until_epoch n; ne_evicted := ne_evicted n;
     ne_clean_epochs_since_offense := clean; ne_vesting_entries := ne_vesting_entries n;
     ne_pending_slashes := ne_pending_slashes n |}.

(** One entry of the loop of [claim_vested]. *)
Definition claim_entry (current_epoch : Z) (v : VestingEntry) : VestingEntry :=
  let claimable := claimable_at v current_epoch in
  if 0 <? claimable
  then {| v_amount := v_amount v; v_start_epoch := v_start_epoch v; v_duration_epochs := v_duration_epochs v;
          v_claimed := v_claimed v + claimable |}
  else v.

Definition claim_vested (n : NodeEconomics) (current_epoch : Z) : Z * NodeEconomics :=
  let claims := List.filter (fun c => 0 <? c) (map (fun v => claimable_at v current_epoch) (ne_vesting_entries n)) in
  (sumZ claims,
   with_vesting n (List.filter (fun v => 0 <? remaining v) (map (claim_entry current_epoch) (ne_vesting_entries n)))).

Record RewardBreakdown : Type := {
  rb_node_id : pystr;
  rb_epoch : Z;
  storage_reward : Z;
  availability_reward : Z;
  audit_bonus : Z;
  bootstrap_subsidy : Z;
  growth_subsidy : Z;
  fee_share : Z;
  rb_total : Z;
  immediate_payout : Z;
  vested_amount : Z;
  rb_phase : NetworkPhase
}.

Record EpochSnapshot : Type := {
  es_epoch : Z;
  es_phase : NetworkPhase;
  es_active_nodes : Z;
  es_total_shards : Z;
  es_total_staked : Z;
  es_total_rewards_distributed : Z;
  es_total_fees_collected : Z;
  es_total_fees_burned : Z;
  es_total_fees_to_endowment : Z;
  es_total_fees_to_insurance : Z;
  es_fee_multiplier : Float64.float64;
  es_utilization : Float64.float64;
  es_min_stake_required : Z;
  es_rewards : list RewardBreakdown
}.

(** * The engine *)
Record EconomicsEngine : Type := { ee_config : EconomicsConfig; ee_total_burned : Z; ee_total_insurance : Z; ee_total_endowment : Z }.
Definition new_engine_economics (cfg : EconomicsConfig) : EconomicsEngine :=
  {| ee_config := cfg; ee_total_burned := 0; ee_total_insurance := 0; ee_total_endowment := 0 |}.

Section Engine.
Context (math_exp : Float64.float64 -> result Float64.float64) (cfg : EconomicsConfig).

Definition network_phase (epoch : Z) : NetworkPhase :=
  if epoch <? bootstrap_end_epoch cfg then BOOTSTRAP
  else if epoch <? growth_end_epoch cfg then GROWTH else MATURITY.

Definition min_stake_for_epoch (epoch : Z) : result Z :=
  match network_phase epoch with
  | BOOTSTRAP => Ok (min_stake_bootstrap cfg)
  | GROWTH =>
      progress ← int_truediv (epoch - bootstrap_end_epoch cfg) (Z.max 1 (growth_end_epoch cfg - bootstrap_end_epoch cfg));
      rise ← f64_scale (min_stake_growth cfg - min_stake_bootstrap cfg) progress;
      low ← f64_of_int (min_stake_bootstrap cfg);
      f64_int (f64_add low rise)
  | MATURITY => Ok (min_stake_maturity cfg)
  end.

(** [start + (end - start) * progress] *)
Definition taper (a b progress : Float64.float64) : Float64.float64 := f64_add a (f64_mul (f64_sub b a) progress).

Definition bootstrap_multiplier (epoch : Z) : result Float64.float64 :=
  if bootstrap_end_epoch cfg <=? epoch then Ok f64_one
  else
    progress ← int_truediv epoch (Z.max 1 (bootstrap_end_epoch cfg));
    Ok (taper (bootstrap_multiplier_start cfg) (bootstrap_multiplier_end cfg) progress).

Definition growth_subsidy_multiplier (epoch : Z) : result Float64.float64 :=
  if epoch <? bootstrap_end_epoch cfg then Ok f64_one
  else if bootstrap_end_epoch cfg + growth_subsidy_duration_epochs cfg <=? epoch then Ok f64_one
  else
    progress ← int_truediv (epoch - bootstrap_end_epoch cfg) (Z.max 1 (growth_subsidy_duration_epochs cfg));
    Ok (taper (growth_subsidy_multiplier_start cfg) (growth_subsidy_multiplier_end cfg) progress).

Definition compute_commit_fee (utilization : Float64.float64) : result Z :=
  if f64_le utilization f64_zero then int_scale (base_commit_fee cfg) (min_fee_multiplier cfg)
  else
    multiplier ← math_exp (f64_mul (fee_elasticity cfg) (f64_sub utilization (fee_utilization_target cfg)));
    int_scale (base_commit_fee cfg) (f64_max (min_fee_multiplier cfg) (f64_min (max_fee_multiplier cfg) multiplier)).

Definition split_fee (fee : Z) : Z * Z * Z * Z :=
  let operator := fee * fee_operator_share_bps cfg / 10000 in
  let burn := fee * fee_burn_share_bps cfg / 10000 in
  let endowment := fee * fee_endowment_share_bps cfg / 10000 in
  (operator, burn, endowment, fee - operator - burn - endowment).

Definition apply_offense_decay (n : NodeEconomics) : result (Z * NodeEconomics) :=
  let d := offense_decay_clean_epochs cfg in
  if ne_offense_count n <=? 0 then Ok (0, n)
  else if ne_clean_epochs_since_offense n <? d then Ok (0, n)
  else if d =? 0 then Err ZeroDivisionError
  else
    let decayed := Z.min (ne_clean_epochs_since_offense n / d) (ne_offense_count n) in
    Ok (decayed, with_offenses n (ne_offense_count n - decayed) (ne_clean_epochs_since_offense n - decayed * d)).

Definition no_reward (n : NodeEconomics) (epoch : Z) : RewardBreakdown :=
  {| rb_node_id := ne_node_id n; rb_epoch := epoch; storage_reward := 0; availability_reward := 0; audit_bonus := 0;
     bootstrap_subsidy := 0; growth_subsidy := 0; fee_share := 0; rb_total := 0; immediate_payout := 0; vested_amount := 0;
     rb_phase := network_phase epoch |}.

(** [int(base * (multiplier - 1.0))] *)
Definition extra (base : Z) (multiplier : Float64.float64) : result Z := int_scale base (f64_sub multiplier f64_one).

Definition compute_node_reward (n : NodeEconomics) (epoch fee_pool_share : Z) : result RewardBreakdown :=
  if (epoch <? ne_cooldown_until_epoch n) || ne_evicted n then Ok (no_reward n epoch)
  else
    let phase := network_phase epoch in
    let storage := ne_shards_stored n * base_storage_reward_per_shard cfg in
    let availability := base_availability_reward cfg in
    bonus ← (if ne_audit_score n =? 100 then extra (storage + availability) (audit_bonus_multiplier cfg) else Ok 0);
    subsidy ← (if bool_decide (phase = BOOTSTRAP)
               then m ← bootstrap_multiplier epoch; extra (storage + availability) m else Ok 0);
    growth ← (if bool_decide (phase = GROWTH)
              then m ← growth_subsidy_multiplier epoch;
                   if f64_gt m f64_one then extra (storage + availability) m else Ok 0
              else Ok 0);
    let total := storage + availability + bonus + subsidy + growth + fee_pool_share in
    let immediate := total * vesting_immediate_pct cfg / 100 in
    Ok {| rb_node_id := ne_node_id n; rb_epoch := epoch; storage_reward := storage; availability_reward := availability;
          audit_bonus := bonus; bootstrap_subsidy := subsidy; growth_subsidy := growth; fee_share := fee_pool_share;
          rb_total := total; immediate_payout := immediate; vested_amount := total - immediate; rb_phase := phase |}.

(** [int(base_slash * correlation_multiplier)] where there is a context. *)
Definition correlated (base_slash concurrent_slashed_stake total_network_stake : Z) : result (option Z) :=
  if (0 <? total_network_stake) && (0 <? concurrent_slashed_stake) then
    ratio ← int_truediv concurrent_slashed_stake total_network_stake;
    x ← int_scale base_slash (f64_min (max_correlation_multiplier cfg) (f64_add f64_one (f64_mul (correlation_scaling cfg) ratio)));
    Ok (Some x)
  else Ok None.

Definition compute_slash (n : NodeEconomics) (concurrent_slashed_stake total_network_stake : Z) : result (Z * SlashingTier) :=
  let tier := tier_for_offense_count (ne_offense_count n) in
  let base_slash := ne_stake n * SLASHING_RATES tier / 10000 in
  c ← correlated base_slash concurrent_slashed_stake total_network_stake;
  Ok (match c with Some x => Z.min x (ne_stake n) | None => base_slash end, tier).

Definition severity_map (severity : pystr) : SlashingTier :=
  if bool_decide (severity = lit "warning") then WARNING
  else if bool_decide (severity = lit "minor") then MINOR
  else if bool_decide (severity = lit "major") then MAJOR
  else if bool_decide (severity = lit "critical") then CRITICAL
  else WARNING.

Definition compute_slash_for_condition (n : NodeEconomics) (condition_allocation_bps : Z) (severity : pystr)
    (concurrent_slashed_stake total_network_stake : Z) : result (Z * SlashingTier) :=
  let tier := severity_map severity in
  let at_risk_stake := ne_stake n * condition_allocation_bps / 10000 in
  let base_slash := at_risk_stake * SLASHING_RATES tier / 10000 in
  c ← correlated base_slash concurrent_slashed_stake total_network_stake;
  Ok (Z.min (default base_slash c) at_risk_stake, tier).

Definition create_pending_slash (n : NodeEconomics) (slash_amount : Z) (tier : SlashingTier) (current_epoch : Z) :
  PendingSlash * NodeEconomics :=
  let pending := {| ps_node_id := ne_node_id n; ps_amount := slash_amount; ps_tier := tier; ps_epoch_created := current_epoch;
                    ps_grace_epochs := slash_grace_epochs cfg; ps_reversed := false |} in
  (pending, with_pending n (ne_pending_slashes n ++ [pending])).

Definition finalize_pending_slashes (n : NodeEconomics) (current_epoch : Z) : list PendingSlash * NodeEconomics :=
  let live := List.filter (fun p => negb (ps_reversed p)) (ne_pending_slashes n) in
  (List.filter (fun p => is_finalized p current_epoch) live,
   with_pending n (List.filter (fun p => negb (is_finalized p current_epoch)) live)).

(** On the object; [ps] is its value before. *)
Definition reverse_pending_slash (ps : PendingSlash) : bool * PendingSlash :=
  if ps_reversed ps then (false, ps)
  else (true, {| ps_node_id := ps_node_id ps; ps_amount := ps_amount ps; ps_tier := ps_tier ps;
                 ps_epoch_created := ps_epoch_created ps; ps_grace_epochs := ps_grace_epochs ps; ps_reversed := true |}).

Definition should_evict (n : NodeEconomics) : bool := eviction_offense_threshold cfg <=? ne_offense_count n.

Definition is_node_overloaded (n : NodeEconomics) : result bool :=
  threshold ← int_scale (target_shards_per_node cfg) (overload_threshold cfg); Ok (threshold <? ne_shards_stored n).

Definition recommended_node_count (total_shards : Z) : result Z :=
  x ← int_truediv total_shards (target_shards_per_node cfg); c ← f64_ceil x; Ok (Z.max 1 c).

(** Step 1 of [process_epoch], on a node that is not evicted. *)
Definition age_node (n : NodeEconomics) : result NodeEconomics :=
  if ne_evicted n then Ok n
  else '(_, n) ← apply_offense_decay (with_offenses n (ne_offense_count n) (ne_clean_epochs_since_offense n + 1)); Ok n.

(** Step 5: the dict of fee shares. *)
Definition fee_shares (operator_pool : Z) (active : list NodeEconomics) : result (list (pystr * Z)) :=
  stakes ← mapR effective_stake active;
  let total := sumZ stakes in
  Ok (if 0 <? total
      then fold_left (fun d p => dict_set d (ne_node_id p.1) (operator_pool * p.2 / total)) (zip active stakes) []
      else let per_node := operator_pool / Z.max 1 (Z.of_nat (length active)) in
           fold_left (fun d n => dict_set d (ne_node_id n) per_node) active []).

(** [process_epoch]: the snapshot, the engine's totals and the nodes. *)
Definition process_epoch (e : EconomicsEngine) (epoch : Z) (nodes : list NodeEconomics)
    (total_commitments network_capacity : Z) : result (EpochSnapshot * EconomicsEngine * list NodeEconomics) :=
  let phase := network_phase epoch in
  match List.filter (fun n => negb (ne_evicted n)) nodes with
  | [] =>
      min_stake ← min_stake_for_epoch epoch;
      Ok ({| es_epoch := epoch; es_phase := phase; es_active_nodes := 0; es_total_shards := 0; es_total_staked := 0;
             es_total_rewards_distributed := 0; es_total_fees_collected := 0; es_total_fees_burned := 0;
             es_total_fees_to_endowment := 0; es_total_fees_to_insurance := 0; es_fee_multiplier := f64_one;
             es_utilization := f64_zero; es_min_stake_required := min_stake; es_rewards := [] |}, e, nodes)
  | _ =>
      nodes ← mapR age_node nodes;
      let active := List.filter (fun n => negb (ne_evicted n)) nodes in
      utilization ← int_truediv total_commitments (Z.max 1 network_capacity);
      commit_fee ← compute_commit_fee utilization;
      fee_multiplier ← int_truediv commit_fee (Z.max 1 (base_commit_fee cfg));
      let total_fees := commit_fee * total_commitments in
      let '(operator_pool, burn, endowment, insurance) := split_fee total_fees in
      shares ← fee_shares operator_pool active;
      rewards ← mapR (fun n => compute_node_reward n epoch (default 0 (dict_find shares (ne_node_id n)))) active;
      min_stake ← min_stake_for_epoch epoch;
      Ok ({| es_epoch := epoch; es_phase := phase; es_active_nodes := Z.of_nat (length active);
             es_total_shards := sumZ (map ne_shards_stored active); es_total_staked := sumZ (map ne_stake active);
             es_total_rewards_distributed := sumZ (map rb_total rewards); es_total_fees_collected := total_fees;
             es_total_fees_burned := burn; es_total_fees_to_endowment := endowment; es_total_fees_to_insurance := insurance;
             es_fee_multiplier := fee_multiplier; es_utilization := utilization; es_min_stake_required := min_stake;
             es_rewards := rewards |},
          {| ee_config := ee_config e; ee_total_burned := ee_total_burned e + burn;
             ee_total_insurance := ee_total_insurance e + insurance; ee_total_endowment := ee_total_endowment e + endowment |},
          nodes)
  end.
End Engine.

(** * Vesting pays the schedule *)
(** What has vested at an epoch: nothing before the start, everything after
    the duration, the rounded-down share in between. *)
Definition vested (v : VestingEntry) (epoch : Z) : Z :=
  if epoch <? v_start_epoch v then 0
  else if v_duration_epochs v <=? epoch - v_start_epoch v then v_amount v
  else v_amount v * (epoch - v_start_epoch v) / v_duration_epochs v.

Definition vesting_ok (v : VestingEntry) : Prop := 0 <= v_claimed v <= v_amount v.

Lemma vested_bounds v epoch : 0 <= v_amount v -> 0 <= vested v epoch <= v_amount v.
Proof.
  intros Ha. unfold vested. destruct (Z.ltb_spec epoch (v_start_epoch v)); [lia|].
  destruct (Z.leb_spec (v_duration_epochs v) (epoch - v_start_epoch v)); [lia|]. split.
  - apply Z.div_pos; nia.
  - apply Z.div_le_upper_bound; nia.
Qed.

Lemma vested_mono v e e' : 0 <= v_amount v -> e <= e' -> vested v e <= vested v e'.
Proof.
  intros Ha He. pose proof (vested_bounds v e Ha). pose proof (vested_bounds v e' Ha). unfold vested in *.
  destruct (Z.ltb_spec e (v_start_epoch v)); [lia|]. destruct (Z.ltb_spec e' (v_start_epoch v)); [lia|].
  destruct (Z.leb_spec (v_duration_epochs v) (e' - v_start_epoch v)); [lia|].
  destruct (Z.leb_spec (v_duration_epochs v) (e - v_start_epoch v)); [lia|]. apply Z.div_le_mono; nia.
Qed.

Lemma claimable_spec v epoch : vesting_ok v -> claimable_at v epoch = Z.max 0 (vested v epoch - v_claimed v).
Proof.
  intros Hv. unfold claimable_at, vested, remaining, vesting_ok in *. destruct (_ <? _); [lia|]. destruct (_ <=? _); lia.
Qed.

Lemma claim_entry_spec v epoch : vesting_ok v ->
  vesting_ok (claim_entry epoch v) /\ v_claimed (claim_entry epoch v) = Z.max (v_claimed v) (vested v epoch) /\
  v_amount (claim_entry epoch v) = v_amount v /\ (forall e, vested (claim_entry epoch v) e = vested v e) /\
  remaining v = Z.max 0 (claimable_at v epoch) + remaining (claim_entry epoch v).
Proof.
  intros Hv. pose proof (vested_bounds v epoch) as Hb. unfold vesting_ok in *. unfold claim_entry.
  rewrite (claimable_spec v epoch Hv). unfold remaining. destruct (Z.ltb_spec 0 (Z.max 0 (vested v epoch - v_claimed v))); cbn; split_and!; try done; lia.
Qed.

(** What is claimed over a list of claim epochs, in any order. *)
Definition claim_all (v : VestingEntry) (epochs : list Z) : VestingEntry := fold_left (fun v e => claim_entry e v) epochs v.

(** Vesting pays the schedule.  Whenever and however often an entry is
    claimed, what was paid in total is what the schedule had released at the
    latest of these epochs: never more than the amount, everything once the
    duration has passed, and nothing twice.  At the level of a node, claiming
    moves value from vesting to payout without loss. *)
Theorem vesting_exact : (forall v epochs, 0 <= v_amount v -> v_claimed v = 0 ->
    v_claimed (claim_all v epochs) = fold_right Z.max 0 (map (vested v) epochs) /\
    0 <= v_claimed (claim_all v epochs) <= v_amount v /\
    forall e, e ∈ epochs -> v_start_epoch v <= e -> v_duration_epochs v <= e - v_start_epoch v -> v_claimed (claim_all v epochs) = v_amount v) /\
  forall n epoch, Forall vesting_ok (ne_vesting_entries n) -> let '(released, n') := claim_vested n epoch in
    0 <= released /\ total_vesting n = released + total_vesting n' /\ Forall vesting_ok (ne_vesting_entries n').
Proof.
  split.
  - intros v epochs Ha Hc. assert (vesting_ok v) as Hok by (unfold vesting_ok; lia).
    assert (v_claimed (claim_all v epochs) = Z.max (v_claimed v) (fold_right Z.max 0 (map (vested v) epochs)) /\
      vesting_ok (claim_all v epochs) /\ v_amount (claim_all v epochs) = v_amount v) as (E & Hok' & Hamt).
    { clear Hc Ha. revert v Hok. induction epochs as [|e epochs IH]; intros v Hok; cbn [claim_all fold_left map fold_right].
      - unfold vesting_ok in Hok. split; [lia|done].
      - destruct (claim_entry_spec v e Hok) as (H1 & H2 & H3 & H4 & _). destruct (IH _ H1) as (I1 & I2 & I3).
        unfold claim_all in *. rewrite I1, H2, I3, H3. rewrite (map_ext _ _ H4). split; [lia|done]. }
    assert (forall e, e ∈ epochs -> vested v e <= fold_right Z.max 0 (map (vested v) epochs)) as Hle.
    { clear. induction epochs as [|e0 epochs IH]; intros e; [by intros ?%not_elem_of_nil|]. cbn. intros [->|He]%elem_of_cons; [lia|].
      specialize (IH e He). lia. }
    unfold vesting_ok in Hok'. rewrite Hamt in Hok'. split; [|split; [lia|]].
    + rewrite E, Hc. assert (0 <= fold_right Z.max 0 (map (vested v) epochs)); [|lia]. clear. induction epochs; cbn; lia.
    + intros e He H1 H2. specialize (Hle e He). unfold vested in Hle at 1. rewrite (proj2 (Z.ltb_ge _ _)), (proj2 (Z.leb_le _ _)) in Hle by lia. lia.
  - intros n epoch Hall. unfold claim_vested, total_vesting. cbn [with_vesting ne_vesting_entries].
    induction Hall as [|v vs Hv _ IH]; cbn -[Z.add sumZ]; [by split_and!|].
    destruct (claim_entry_spec v epoch Hv) as (H1 & _ & _ & _ & Hr). rewrite (claimable_spec v epoch Hv) in *.
    destruct IH as (I1 & I2 & I3). rewrite sumZ_cons, I2.
    assert (0 <= remaining (claim_entry epoch v)) by (unfold remaining, vesting_ok in *; lia).
    destruct (Z.ltb_spec 0 (Z.max 0 (vested v epoch - v_claimed v))), (Z.ltb_spec 0 (remaining (claim_entry epoch v)));
      cbn [map]; rewrite ?sumZ_cons; split_and!; try done; try lia; by constructor.
Qed.

(** * Fees *)
Definition shares_ok (cfg : EconomicsConfig) : Prop :=
  0 <= fee_operator_share_bps cfg /\ 0 <= fee_burn_share_bps cfg /\ 0 <= fee_endowment_share_bps cfg /\
  0 <= fee_insurance_share_bps cfg /\ check_config cfg = Ok tt.

Lemma floor_share fee bps : 0 <= fee -> 0 <= bps -> 0 <= fee * bps / 10000 /\ 10000 * (fee * bps / 10000) <= fee * bps.
Proof. intros. split; [apply Z.div_pos; nia|]. apply Z.mul_div_le. lia. Qed.

Lemma split_fee_conserves cfg fee : let '(operator, burn, endowment, insurance) := split_fee cfg fee in
  operator + burn + endowment + insurance = fee /\
  (shares_ok cfg -> 0 <= fee -> 0 <= operator /\ 0 <= burn /\ 0 <= endowment /\ 0 <= insurance).
Proof.
  unfold split_fee. split; [lia|]. intros (H1 & H2 & H3 & H4 & H5) Hf. unfold check_config in H5.
  destruct (Z.eqb_spec (fee_operator_share_bps cfg + fee_burn_share_bps cfg + fee_endowment_share_bps cfg + fee_insurance_share_bps cfg) 10000); [|done].
  pose proof (floor_share fee _ Hf H1). pose proof (floor_share fee _ Hf H2). pose proof (floor_share fee _ Hf H3). nia.
Qed.

(** Proportional shares rounded down never exceed what is shared. *)
Lemma floor_shares_le pool total ws : 0 <= pool -> 0 < total -> Forall (fun w => 0 <= w) ws ->
  0 <= sumZ (map (fun w => pool * w / total) ws) /\ sumZ (map (fun w => pool * w / total) ws) * total <= pool * sumZ ws.
Proof.
  intros Hp Ht. induction 1 as [|w ws Hw _ IH]; cbn [map]; [cbn; lia|]. rewrite !sumZ_cons.
  pose proof (Z.mul_div_le (pool * w) total Ht). pose proof (Z.div_pos (pool * w) total). nia.
Qed.

Lemma floor_shares_ge pool total ws : 0 < total ->
  pool * sumZ ws <= sumZ (map (fun w => pool * w / total) ws) * total + Z.of_nat (length ws) * total.
Proof.
  intros Ht. induction ws as [|w ws IH]; cbn [map length]; [cbn; lia|]. rewrite !sumZ_cons.
  pose proof (Z.mul_succ_div_gt (pool * w) total Ht). lia.
Qed.

Lemma dict_fill_val {A B} (key : A -> pystr) (val : A -> B) cs : forall d, NoDup (d.*1 ++ map key cs) ->
  fold_left (fun d c => dict_set d (key c) (val c)) cs d = d ++ map (fun c => (key c, val c)) cs.
Proof.
  induction cs as [|c cs IH]; intros d Hnd; cbn; [by rewrite app_nil_r|].
  rewrite dict_set_new, IH.
  - by rewrite <- app_assoc.
  - rewrite fmap_app, <- app_assoc. exact Hnd.
  - cbn in Hnd. apply NoDup_app in Hnd as (_ & Hn & _). intros Hin. apply (Hn _ Hin). by left.
Qed.

Lemma shares_total cfg (pool : Z) active shares : fee_shares pool active = Ok shares -> 0 <= pool ->
  NoDup (map ne_node_id active) -> (forall n s, n ∈ active -> effective_stake n = Ok s -> 0 <= s) -> shares_ok cfg ->
  Forall (fun n => 0 <= default 0 (dict_find shares (ne_node_id n))) active /\
  sumZ (map (fun n => default 0 (dict_find shares (ne_node_id n))) active) <= pool.
Proof.
  unfold fee_shares. intros E Hp Hnd Hs _. destruct (mapR effective_stake active) as [stakes|] eqn:Em; [|done].
  cbn [mbind result_bind] in E. apply Ok_inj in E. apply mapR_Ok in Em.
  assert (Forall (fun w => 0 <= w) stakes) as Hw.
  { apply Forall_forall. intros w Hw. apply list_elem_of_lookup in Hw as [i Hi].
    destruct (Forall2_lookup_r _ _ _ _ _ Em Hi) as (n & Hn & En). eapply Hs; [|exact En]. by eapply list_elem_of_lookup_2. }
  set (w n := default 0 (dict_find shares (ne_node_id n))).
  enough (exists ws, map w active = ws /\ Forall (fun x => 0 <= x) ws /\ sumZ ws <= pool) as (ws & Hws & H1 & H2).
  { rewrite Hws. split; [|done]. apply Forall_forall. intros n Hn. eapply (Forall_forall (fun x => 0 <= x) ws); [done|].
    rewrite <- Hws. apply elem_of_map. by exists n. }
  destruct (Z.ltb_spec 0 (sumZ stakes)) as [Ht|Ht].
  - rewrite (dict_fill_val (fun p => ne_node_id p.1) (fun p => pool * p.2 / sumZ stakes)) in E.
    2: { cbn. rewrite <- (map_map fst ne_node_id). change (map fst) with (fmap (M := list) (fst (A := NodeEconomics) (B := Z))).
         by rewrite fst_zip by (rewrite (Forall2_length _ _ _ Em); done). }
    exists (map (fun x => pool * x / sumZ stakes) stakes). split.
    + assert (forall n s, (n, s) ∈ zip active stakes -> w n = pool * s / sumZ stakes) as Hf.
      { intros n s Hin. unfold w. erewrite dict_find_elem; [done| |].
        - rewrite <- E. cbn [app]. rewrite <- list_fmap_compose. cbn. change (NoDup (map (fun p => ne_node_id p.1) (zip active stakes))).
          rewrite <- (map_map fst ne_node_id). change (map fst) with (fmap (M := list) (fst (A := NodeEconomics) (B := Z))).
          by rewrite fst_zip by (rewrite (Forall2_length _ _ _ Em); done).
        - rewrite <- E. cbn [app]. apply elem_of_map. by exists (n, s). }
      clear E Hnd Hs Hw Ht. generalize dependent (sumZ stakes). intros total Hf. revert Hf. induction Em as [|n s ns ss _ _ IH]; intros Hf; [done|]. cbn. f_equal.
      * apply Hf. by left.
      * apply IH. intros n' s' Hin. apply Hf. by right.
    + destruct (floor_shares_le pool (sumZ stakes) stakes Hp Ht Hw) as [_ H2]. split; [|by apply (Z.mul_le_mono_pos_r _ _ (sumZ stakes))].
      apply Forall_forall. intros y (x & -> & Hx)%elem_of_map. eapply Forall_forall in Hx; [|exact Hw]. cbn in Hx. apply Z.div_pos; nia.
  - rewrite (dict_fill_val ne_node_id (fun _ => pool / Z.max 1 (Z.of_nat (length active)))) in E by done.
    set (q := pool / Z.max 1 (Z.of_nat (length active))) in *. assert (0 <= q) by (apply Z.div_pos; lia).
    exists (map (fun _ => q) active). split.
    + apply map_ext_in. intros n Hn%list_elem_of_In. unfold w. erewrite dict_find_elem; [done| |].
      * rewrite <- E. cbn. rewrite <- list_fmap_compose. exact Hnd.
      * rewrite <- E. cbn. apply elem_of_map. by exists n.
    + split; [apply Forall_forall; by intros y (x & -> & _)%elem_of_map|].
      assert (sumZ (map (fun _ => q) active) = q * Z.of_nat (length active)) as ->.
      { clear -q. generalize dependent q. intros q. clear. induction active as [|x l IH]; cbn [map length]; [cbn; lia|]. rewrite sumZ_cons. lia. }
      pose proof (Z.mul_div_le pool (Z.max 1 (Z.of_nat (length active))) ltac:(lia)) as Hq. fold q in Hq.
      etransitivity; [|exact Hq]. rewrite Z.mul_comm. apply Z.mul_le_mono_nonneg_r; lia.
Qed.

(** C35: An epoch creates no fee income.  Every fee collected is split without
    loss; the fee shares paid out stay within the operators' part; what is
    burned, endowed and insured is what the engine's totals grow by; each
    reward is the sum of its parts and is split without loss into payout and
    vesting; and nodes in cooldown earn nothing. *)
Theorem epoch_conserves math_exp cfg e epoch nodes commits capacity snap e' nodes' :
  process_epoch math_exp cfg e epoch nodes commits capacity = Ok (snap, e', nodes') ->
  shares_ok cfg -> 0 <= es_total_fees_collected snap -> NoDup (map ne_node_id nodes) ->
  (forall n s, n ∈ nodes' -> effective_stake n = Ok s -> 0 <= s) ->
  sumZ (map fee_share (es_rewards snap)) + es_total_fees_burned snap + es_total_fees_to_endowment snap + es_total_fees_to_insurance snap
    <= es_total_fees_collected snap /\
  ee_total_burned e' = ee_total_burned e + es_total_fees_burned snap /\
  ee_total_endowment e' = ee_total_endowment e + es_total_fees_to_endowment snap /\
  ee_total_insurance e' = ee_total_insurance e + es_total_fees_to_insurance snap /\
  es_total_rewards_distributed snap = sumZ (map rb_total (es_rewards snap)) /\
  Forall (fun r => rb_total r = storage_reward r + availability_reward r + audit_bonus r + bootstrap_subsidy r + growth_subsidy r + fee_share r /\
    immediate_payout r + vested_amount r = rb_total r) (es_rewards snap) /\
  forall n, n ∈ nodes' -> ne_evicted n = false -> epoch < ne_cooldown_until_epoch n -> no_reward cfg n epoch ∈ es_rewards snap.
Proof.
  intros E Hcfg Hfees Hnd Hst. unfold process_epoch in E. destruct (List.filter _ nodes) as [|n0 act0] eqn:Ef.
  { destruct (min_stake_for_epoch cfg epoch); [|done]. cbn [mbind result_bind] in E. apply Ok_inj in E. simplify_eq. cbn. split_and!; try done; try lia.
    intros n Hn He _. assert (n ∈ List.filter (fun n => negb (ne_evicted n)) nodes') as Hin.
    { apply list_elem_of_In, filter_In. split; [by apply list_elem_of_In|]. by rewrite He. }
    rewrite Ef in Hin. by apply not_elem_of_nil in Hin. }
  clear n0 act0 Ef. unfold mbind, result_bind in E.
  destruct (mapR (age_node cfg) nodes) as [nds|] eqn:En; [|done]. set (active := List.filter _ nds) in E.
  destruct (int_truediv commits _) as [util|]; [|done]. destruct (compute_commit_fee _ _ _) as [fee|]; [|done].
  destruct (int_truediv fee _) as [mult|]; [|done].
  pose proof (split_fee_conserves cfg (fee * commits)) as Hsplit. destruct (split_fee cfg (fee * commits)) as [[[op burn] endow] ins].
  destruct Hsplit as [Hsum Hpos].
  destruct (fee_shares op active) as [shares|] eqn:Es; [|done].
  destruct (mapR (fun n => compute_node_reward _ _ _ _) active) as [rewards|] eqn:Er; [|done].
  destruct (min_stake_for_epoch cfg epoch) as [ms|]; [|done]. apply Ok_inj in E. simplify_eq. cbn in *.
  specialize (Hpos Hcfg Hfees) as (Hop & _). apply mapR_Ok in Er, En.
  assert (map ne_node_id nodes' = map ne_node_id nodes) as Hids.
  { clear -En. induction En as [|x y xs ys Hxy _ IH]; [done|]. cbn. f_equal; [|done]. unfold age_node in Hxy.
    destruct (ne_evicted x); [by apply Ok_inj in Hxy as <-|]. unfold apply_offense_decay in Hxy. cbn [mbind result_bind] in Hxy.
    repeat (destruct (_ <=? _) in Hxy || destruct (_ <? _) in Hxy || destruct (_ =? _) in Hxy); cbn in Hxy; try done; by apply Ok_inj in Hxy as <-. }
  assert (NoDup (map ne_node_id active)) as Hna.
  { rewrite <- Hids in Hnd. revert Hnd. unfold active. clear. induction nodes' as [|n ns IH]; [done|]. cbn. intros [Hn Hnd]%NoDup_cons.
    destruct (ne_evicted n); cbn; [by apply IH|]. apply NoDup_cons. split; [|by apply IH].
    intros (x & Ex & Hx)%elem_of_map. apply Hn, elem_of_map. exists x. split; [done|]. apply list_elem_of_In, filter_In in Hx as [Hx _]. by apply list_elem_of_In. }
  destruct (shares_total cfg op active shares Es Hop Hna) as [Hs1 Hs2].
  { intros n s Hn. apply Hst. apply list_elem_of_In, filter_In in Hn as [Hn _]. by apply list_elem_of_In. }
  { done. }
  split_and!; try done; try lia.
  - assert (sumZ (map fee_share rewards) <= sumZ (map (fun n => default 0 (dict_find shares (ne_node_id n))) active)) as Hle; [|lia].
    clear -Er Hs1. induction Er as [|n r ns rs Hr _ IH]; [done|]. apply Forall_cons in Hs1 as [H1 Hs1]. cbn [map]. rewrite !sumZ_cons.
    specialize (IH Hs1). enough (fee_share r <= default 0 (dict_find shares (ne_node_id n))) by lia.
    unfold compute_node_reward in Hr. destruct (_ || _); [apply Ok_inj in Hr as <-; cbn; lia|].
    unfold mbind, result_bind in Hr. repeat case_match; try done; by apply Ok_inj in Hr as <-.
  - clear -Er. induction Er as [|n r ns rs Hr _ IH]; [done|]. constructor; [|done].
    unfold compute_node_reward in Hr. destruct (_ || _); [by apply Ok_inj in Hr as <-|].
    unfold mbind, result_bind in Hr. repeat case_match; try done; apply Ok_inj in Hr as <-; cbn; split; lia.
  - intros n Hn He Hc. assert (n ∈ active) as Hin by (apply list_elem_of_In, filter_In; split; [by apply list_elem_of_In|by rewrite He]).
    apply list_elem_of_lookup in Hin as [i Hi]. destruct (Forall2_lookup_l _ _ _ _ _ Er Hi) as (r & Hr & Er').
    unfold compute_node_reward in Er'. rewrite (proj2 (Z.ltb_lt _ _) Hc) in Er'. apply Ok_inj in Er' as ->. by eapply list_elem_of_lookup_2.
Qed.

(** * Slashing *)
Lemma rate_bounds t : 0 <= SLASHING_RATES t <= 3000.
Proof. destruct t; cbn; lia. Qed.

Lemma bps_le x bps : 0 <= x -> 0 <= bps <= 10000 -> 0 <= x * bps / 10000 <= x.
Proof. intros Hx Hb. split; [apply Z.div_pos; nia|]. apply Z.div_le_upper_bound; nia. Qed.

(** Slashes are bounded.  A slash never exceeds the stake, and one for a
    condition never the part of the stake allocated to it, whatever the
    correlation; without concurrent slashes it is exactly the rate of the
    tier, at most thirty percent, and grows with the offenses. *)
Theorem slash_bounded cfg n concurrent total : 0 <= ne_stake n ->
  (forall amount tier, compute_slash cfg n concurrent total = Ok (amount, tier) ->
    amount <= ne_stake n /\ tier = slashing_tier n /\
    (total <= 0 \/ concurrent <= 0 -> amount = ne_stake n * SLASHING_RATES tier / 10000 /\ 0 <= 10 * amount <= 3 * ne_stake n)) /\
  (forall bps severity amount tier, 0 <= bps <= 10000 -> compute_slash_for_condition cfg n bps severity concurrent total = Ok (amount, tier) ->
    amount <= ne_stake n * bps / 10000 <= ne_stake n) /\
  forall a b, a <= b -> SLASHING_RATES (tier_for_offense_count a) <= SLASHING_RATES (tier_for_offense_count b).
Proof.
  intros Hs. split_and!.
  - intros amount tier. unfold compute_slash, slashing_tier. set (t := tier_for_offense_count _).
    pose proof (rate_bounds t) as Hr. pose proof (bps_le (ne_stake n) (SLASHING_RATES t) Hs ltac:(lia)) as Hb.
    destruct (correlated _ _ _ _) as [[x|]|] eqn:Ec; [| |done]; cbn [mbind result_bind]; intros E%Ok_inj; injection E as <- <-.
    + split; [lia|]. split; [done|]. intros Hno. unfold correlated in Ec.
      destruct (Z.ltb_spec 0 total), (Z.ltb_spec 0 concurrent); cbn in Ec; try done. lia.
    + split; [lia|]. split; [done|]. intros _. split; [done|].
      pose proof (Z.mul_div_le (ne_stake n * SLASHING_RATES t) 10000). nia.
  - intros bps sev amount tier Hb. unfold compute_slash_for_condition. pose proof (bps_le (ne_stake n) bps Hs Hb) as Ha.
    destruct (correlated _ _ _ _) as [c|]; [|done]. cbn [mbind result_bind]. intros E%Ok_inj. injection E as <- <-. lia.
  - intros a b Hab. unfold tier_for_offense_count. cbn.
    repeat match goal with |- context [?x <=? ?y] => destruct (Z.leb_spec x y) end; cbn; lia.
Qed.

(** The grace period is exact.  Finalization takes the slashes whose grace
    period has ended, in order, keeps the others, drops the reversed ones and
    loses none; a slash is finalized at no earlier epoch, and a reversed one
    never. *)
Theorem grace_exact n epoch : let '(finalized, n') := finalize_pending_slashes n epoch in
  ne_pending_slashes n ≡ₚ finalized ++ ne_pending_slashes n' ++ List.filter ps_reversed (ne_pending_slashes n) /\
  (forall p, p ∈ finalized -> ps_reversed p = false /\ finalization_epoch p <= epoch) /\
  (forall p, p ∈ ne_pending_slashes n' -> ps_reversed p = false /\ epoch < finalization_epoch p) /\
  (forall p, p ∈ ne_pending_slashes n -> p ∈ finalized <-> ps_reversed p = false /\ finalization_epoch p <= epoch).
Proof.
  unfold finalize_pending_slashes. cbn [with_pending ne_pending_slashes].
  assert (forall (f : PendingSlash -> bool) l p, p ∈ List.filter f l <-> p ∈ l /\ f p = true) as Hf
    by (intros f l p; by rewrite !list_elem_of_In, filter_In).
  assert (forall p, is_finalized p epoch = true <-> ps_reversed p = false /\ finalization_epoch p <= epoch) as Hfin
    by (intros p; unfold is_finalized; rewrite andb_true_iff, negb_true_iff, Z.leb_le; done).
  split_and!.
  - induction (ne_pending_slashes n) as [|p ps IH]; [done|]. cbn. destruct (ps_reversed p) eqn:Er; cbn.
    + rewrite IH at 1. rewrite !app_assoc. by apply Permutation_middle.
    + destruct (is_finalized p epoch); cbn; [by rewrite <- IH|]. rewrite IH at 1. by apply Permutation_middle.
  - intros p [_ Hp]%Hf. by apply Hfin.
  - intros p [[_ Hr%negb_true_iff]%Hf Hp%negb_true_iff]%Hf. split; [done|]. apply Z.nle_gt. intros Hle.
    assert (is_finalized p epoch = true) by (by apply Hfin). congruence.
  - intros p Hp. rewrite !Hf, Hfin, negb_true_iff. tauto.
Qed.

(** A slash can be "reversed" after it took effect: [reverse_pending_slash]
    answers True for a slash that was finalized. *)
Theorem late_reversal n epoch p : let '(finalized, _) := finalize_pending_slashes n epoch in
  p ∈ finalized -> (reverse_pending_slash p).1 = true.
Proof.
  unfold finalize_pending_slashes. intros Hp%list_elem_of_In. apply filter_In in Hp as [Hp _]. apply filter_In in Hp as [_ Hr].
  unfold reverse_pending_slash. by destruct (ps_reversed p).
Qed.

(** Decay is exact: it takes one offense per full clean period, never more
    than there are, and spends exactly the clean epochs it used. *)
Lemma decay_exact cfg n d n' : 0 < offense_decay_clean_epochs cfg -> 0 <= ne_offense_count n -> 0 <= ne_clean_epochs_since_offense n ->
  apply_offense_decay cfg n = Ok (d, n') ->
  d = Z.min (ne_clean_epochs_since_offense n / offense_decay_clean_epochs cfg) (ne_offense_count n) /\
  ne_offense_count n' = ne_offense_count n - d /\
  ne_clean_epochs_since_offense n' = ne_clean_epochs_since_offense n - d * offense_decay_clean_epochs cfg /\
  0 <= ne_offense_count n' /\ 0 <= ne_clean_epochs_since_offense n'.
Proof.
  intros Hd Ho Hc. unfold apply_offense_decay. set (k := offense_decay_clean_epochs cfg) in *.
  assert (0 <= ne_clean_epochs_since_offense n / k) by (apply Z.div_pos; lia).
  pose proof (Z.mul_div_le (ne_clean_epochs_since_offense n) k Hd).
  destruct (Z.leb_spec (ne_offense_count n) 0); [intros E%Ok_inj; injection E as <- <-; split_and!; lia|].
  destruct (Z.ltb_spec (ne_clean_epochs_since_offense n) k).
  { intros E%Ok_inj. injection E as <- <-. rewrite (Z.div_small _ k) by lia. split_and!; lia. }
  destruct (Z.eqb_spec k 0); [lia|]. intros E%Ok_inj. injection E as <- <-. cbn. split_and!; try done; try lia. nia.
Qed.

(** * A small network *)
Definition demo_economics_node (id : pystr) (stake offenses cooldown : Z) : NodeEconomics :=
  {| ne_node_id := id; ne_stake := stake; ne_shards_stored := 10; ne_audit_score := 100; ne_offense_count := offenses;
     ne_cooldown_until_epoch := cooldown; ne_evicted := false; ne_clean_epochs_since_offense := 5;
     ne_vesting_entries := []; ne_pending_slashes := [] |}.
Definition demo_network : list NodeEconomics :=
  [demo_economics_node (lit "a") (100 * WEI_PER_LTP) 0 0; demo_economics_node (lit "b") (300 * WEI_PER_LTP) 2 50].
Definition constant_exp (_ : Float64.float64) : result Float64.float64 := Ok f64_one.

Lemma vesting_exact_witness :
  let v := {| v_amount := 100; v_start_epoch := 10; v_duration_epochs := 3; v_claimed := 0 |} in
  v_claimed (claim_all v [11; 11; 12; 9; 40]) = 100 /\ v_claimed (claim_all v [11; 12; 11]) = 66.
Proof.
  intros v. pose proof (proj1 vesting_exact v [11; 11; 12; 9; 40] ltac:(vm_compute; discriminate) eq_refl) as [H1 _].
  pose proof (proj1 vesting_exact v [11; 12; 11] ltac:(vm_compute; discriminate) eq_refl) as [H2 _]. split; [exact H1|exact H2].
Defined.

Lemma slash_bounded_witness :
  let n := demo_economics_node (lit "a") (100 * WEI_PER_LTP) 6 0 in
  compute_slash default_economics n (50 * WEI_PER_LTP) (100 * WEI_PER_LTP) = Ok (60 * WEI_PER_LTP, CRITICAL) /\
  60 * WEI_PER_LTP <= ne_stake n.
Proof.
  intros n. assert (compute_slash default_economics n (50 * WEI_PER_LTP) (100 * WEI_PER_LTP) = Ok (60 * WEI_PER_LTP, CRITICAL)) as E
    by (vm_compute; reflexivity).
  split; [exact E|].
  exact (proj1 (proj1 (slash_bounded default_economics n (50 * WEI_PER_LTP) (100 * WEI_PER_LTP) ltac:(vm_compute; discriminate)) _ _ E)).
Defined.

Lemma epoch_conserves_witness : exists snap e' nodes',
  process_epoch constant_exp default_economics (new_engine_economics default_economics) 7 demo_network 100 1000 = Ok (snap, e', nodes') /\
  es_total_fees_collected snap = 10 ^ 17 /\
  sumZ (map fee_share (es_rewards snap)) + es_total_fees_burned snap + es_total_fees_to_endowment snap + es_total_fees_to_insurance snap
    <= es_total_fees_collected snap.
Proof.
  destruct (process_epoch constant_exp default_economics (new_engine_economics default_economics) 7 demo_network 100 1000)
    as [[[snap e'] nodes']|] eqn:E; [|vm_compute in E; discriminate].
  assert (es_total_fees_collected snap = 10 ^ 17 /\ map effective_stake nodes' = [Ok (100 * WEI_PER_LTP); Ok (300 * WEI_PER_LTP)]) as [Hf Hs]
    by (vm_compute in E; injection E as <- <- <-; vm_compute; split; reflexivity).
  exists snap, e', nodes'. split; [reflexivity|]. split; [exact Hf|].
  apply (epoch_conserves _ _ _ _ _ _ _ _ _ _ E).
  - repeat split; vm_compute; discriminate.
  - rewrite Hf. lia.
  - apply (bool_decide_eq_true_1 (NoDup (map ne_node_id demo_network))). vm_compute. reflexivity.
  - intros n s Hn Hs'. assert (Ok s ∈ map effective_stake nodes') as Hin by (apply elem_of_map; eauto).
    rewrite Hs in Hin. apply elem_of_cons in Hin as [Hin|Hin]; [apply Ok_inj in Hin as ->; unfold WEI_PER_LTP; lia|].
    apply list_elem_of_singleton in Hin. apply Ok_inj in Hin as ->. unfold WEI_PER_LTP. lia.
Defined.
