(* ===== verification/Incentives.v ===== *)
(** Stablecoin incentives (src/src/ltp/incentives.py): the ledger and its
    movements, metered work, settlement, commitment pricing, admission.

    Amounts are integers (micro units).  The ledger's accounts are shared
    objects: a reference to an account is its key, and what the code writes
    through the reference is written at that key.  Every ledger method runs
    under one lock, so an interleaving of callers is a sequence of
    operations.  An operation that raises does so before it changes a
    balance, and only its exception is returned. *)

From S2P Require Import Prelude Float64 Economics.

Definition MICRO_PER_STABLE : Z := 10 ^ 6.
Definition GIB : Z := 2 ^ 30.
Definition SECONDS_PER_MONTH : Z := 30 * 24 * 3600.

(** * Configuration *)
Record IncentiveConfig : Type := {
  ic_price_per_gib_month_micro : Z;
  ic_price_per_gib_served_micro : Z;
  ic_base_commit_fee_micro : Z;
  ic_fee_operator_share_bps : Z;
  ic_fee_insurance_share_bps : Z;
  ic_fee_treasury_share_bps : Z;
  ic_min_bond_micro : Z;
  ic_slash_failure_threshold : Z
}.

Definition default_incentives : IncentiveConfig :=
  {| ic_price_per_gib_month_micro := 20000; ic_price_per_gib_served_micro := 10000; ic_base_commit_fee_micro := 1000;
     ic_fee_operator_share_bps := 8000; ic_fee_insurance_share_bps := 1000; ic_fee_treasury_share_bps := 1000;
     ic_min_bond_micro := 1000 * MICRO_PER_STABLE; ic_slash_failure_threshold := 2 |}.

(** [__post_init__] *)
Definition check_incentives (c : IncentiveConfig) : result () :=
  if negb (ic_fee_operator_share_bps c + ic_fee_insurance_share_bps c + ic_fee_treasury_share_bps c =? 10000)
  then Err (ValueError "Fee split must sum to 10000 bps")
  else if ic_min_bond_micro c <? 0 then Err (ValueError "min_bond_micro must be non-negative")
  else Ok ().

Definition storage_rate_micro (c : IncentiveConfig) (byte_seconds : Z) : Z :=
  byte_seconds * ic_price_per_gib_month_micro c / (GIB * SECONDS_PER_MONTH).
Definition serving_rate_micro (c : IncentiveConfig) (bytes_served : Z) : Z :=
  bytes_served * ic_price_per_gib_served_micro c / GIB.

(** * The ledger *)
Record NodeIncentiveAccount : Type := {
  ia_node_id : pystr;
  ia_bond_micro : Z;
  ia_earned_claim_micro : Z;
  ia_paid_total_micro : Z;
  ia_slashed_total_micro : Z;
  ia_audit_offense_count : Z;
  ia_evicted : bool
}.

Definition new_account (node_id : pystr) : NodeIncentiveAccount :=
  {| ia_node_id := node_id; ia_bond_micro := 0; ia_earned_claim_micro := 0; ia_paid_total_micro := 0;
     ia_slashed_total_micro := 0; ia_audit_offense_count := 0; ia_evicted := false |}.

Record StablecoinLedger : Type := {
  sl_config : IncentiveConfig;
  sl_operator_pool_micro : Z;
  sl_insurance_pool_micro : Z;
  sl_treasury_micro : Z;
  sl_accounts : list (pystr * NodeIncentiveAccount);
  sl_customer_balances : list (pystr * Z);
  sl_total_deposited : Z;
  sl_total_withdrawn : Z
}.

Definition new_ledger (c : IncentiveConfig) : StablecoinLedger :=
  {| sl_config := c; sl_operator_pool_micro := 0; sl_insurance_pool_micro := 0; sl_treasury_micro := 0;
     sl_accounts := []; sl_customer_balances := []; sl_total_deposited := 0; sl_total_withdrawn := 0 |}.

(** The [+=] and [-=] of one operation on the three pools and the two totals. *)
Definition sl_add (l : StablecoinLedger) (operator insurance treasury deposited withdrawn : Z) : StablecoinLedger :=
  {| sl_config := sl_config l;
     sl_operator_pool_micro := sl_operator_pool_micro l + operator;
     sl_insurance_pool_micro := sl_insurance_pool_micro l + insurance;
     sl_treasury_micro := sl_treasury_micro l + treasury;
     sl_accounts := sl_accounts l; sl_customer_balances := sl_customer_balances l;
     sl_total_deposited := sl_total_deposited l + deposited;
     sl_total_withdrawn := sl_total_withdrawn l + withdrawn |}.

Definition sl_with_accounts (l : StablecoinLedger) (accounts : list (pystr * NodeIncentiveAccount)) : StablecoinLedger :=
  {| sl_config := sl_config l; sl_operator_pool_micro := sl_operator_pool_micro l;
     sl_insurance_pool_micro := sl_insurance_pool_micro l; sl_treasury_micro := sl_treasury_micro l;
     sl_accounts := accounts; sl_customer_balances := sl_customer_balances l;
     sl_total_deposited := sl_total_deposited l; sl_total_withdrawn := sl_total_withdrawn l |}.

Definition sl_with_balances (l : StablecoinLedger) (balances : list (pystr * Z)) : StablecoinLedger :=
  {| sl_config := sl_config l; sl_operator_pool_micro := sl_operator_pool_micro l;
     sl_insurance_pool_micro := sl_insurance_pool_micro l; sl_treasury_micro := sl_treasury_micro l;
     sl_accounts := sl_accounts l; sl_customer_balances := balances;
     sl_total_deposited := sl_total_deposited l; sl_total_withdrawn := sl_total_withdrawn l |}.

(** [account] fetches or lazily creates; [put_account] writes the object at
    the key. *)
Definition lookup_account (l : StablecoinLedger) (node_id : pystr) : NodeIncentiveAccount :=
  default (new_account node_id) (dict_find (sl_accounts l) node_id).
Definition put_account (l : StablecoinLedger) (node_id : pystr) (a : NodeIncentiveAccount) : StablecoinLedger :=
  sl_with_accounts l (dict_set (sl_accounts l) node_id a).
Definition account (l : StablecoinLedger) (node_id : pystr) : NodeIncentiveAccount * StablecoinLedger :=
  match dict_find (sl_accounts l) node_id with
  | Some a => (a, l)
  | None => (new_account node_id, put_account l node_id (new_account node_id))
  end.
Definition accounts (l : StablecoinLedger) : list NodeIncentiveAccount := (sl_accounts l).*2.

Definition ia_add_bond (a : NodeIncentiveAccount) (d : Z) : NodeIncentiveAccount :=
  {| ia_node_id := ia_node_id a; ia_bond_micro := ia_bond_micro a + d; ia_earned_claim_micro := ia_earned_claim_micro a;
     ia_paid_total_micro := ia_paid_total_micro a; ia_slashed_total_micro := ia_slashed_total_micro a;
     ia_audit_offense_count := ia_audit_offense_count a; ia_evicted := ia_evicted a |}.
Definition ia_add_claim (a : NodeIncentiveAccount) (d : Z) : NodeIncentiveAccount :=
  {| ia_node_id := ia_node_id a; ia_bond_micro := ia_bond_micro a; ia_earned_claim_micro := ia_earned_claim_micro a + d;
     ia_paid_total_micro := ia_paid_total_micro a; ia_slashed_total_micro := ia_slashed_total_micro a;
     ia_audit_offense_count := ia_audit_offense_count a; ia_evicted := ia_evicted a |}.
Definition ia_add_paid (a : NodeIncentiveAccount) (d : Z) : NodeIncentiveAccount :=
  {| ia_node_id := ia_node_id a; ia_bond_micro := ia_bond_micro a; ia_earned_claim_micro := ia_earned_claim_micro a;
     ia_paid_total_micro := ia_paid_total_micro a + d; ia_slashed_total_micro := ia_slashed_total_micro a;
     ia_audit_offense_count := ia_audit_offense_count a; ia_evicted := ia_evicted a |}.
Definition ia_slash (a : NodeIncentiveAccount) (d : Z) : NodeIncentiveAccount :=
  {| ia_node_id := ia_node_id a; ia_bond_micro := ia_bond_micro a - d; ia_earned_claim_micro := ia_earned_claim_micro a;
     ia_paid_total_micro := ia_paid_total_micro a; ia_slashed_total_micro := ia_slashed_total_micro a + d;
     ia_audit_offense_count := ia_audit_offense_count a; ia_evicted := ia_evicted a |}.
Definition ia_add_offenses (a : NodeIncentiveAccount) (d : Z) : NodeIncentiveAccount :=
  {| ia_node_id := ia_node_id a; ia_bond_micro := ia_bond_micro a; ia_earned_claim_micro := ia_earned_claim_micro a;
     ia_paid_total_micro := ia_paid_total_micro a; ia_slashed_total_micro := ia_slashed_total_micro a;
     ia_audit_offense_count := ia_audit_offense_count a + d; ia_evicted := ia_evicted a |}.
Definition ia_evict (a : NodeIncentiveAccount) : NodeIncentiveAccount :=
  {| ia_node_id := ia_node_id a; ia_bond_micro := ia_bond_micro a; ia_earned_claim_micro := ia_earned_claim_micro a;
     ia_paid_total_micro := ia_paid_total_micro a; ia_slashed_total_micro := ia_slashed_total_micro a;
     ia_audit_offense_count := ia_audit_offense_count a; ia_evicted := true |}.

(** ** Inflows *)
Definition micro_split (c : IncentiveConfig) (amount_micro : Z) : Z * Z * Z :=
  let insurance := amount_micro * ic_fee_insurance_share_bps c / 10000 in
  let treasury := amount_micro * ic_fee_treasury_share_bps c / 10000 in
  (amount_micro - insurance - treasury, insurance, treasury).

Definition deposit_fee (l : StablecoinLedger) (amount_micro : Z) : result ((Z * Z * Z) * StablecoinLedger) :=
  if amount_micro <? 0 then Err LedgerError
  else
    let '(operator, insurance, treasury) := micro_split (sl_config l) amount_micro in
    Ok ((operator, insurance, treasury), sl_add l operator insurance treasury amount_micro 0).

Definition fund_incentive_budget (l : StablecoinLedger) (amount_micro : Z) : result StablecoinLedger :=
  if amount_micro <? 0 then Err LedgerError else Ok (sl_add l amount_micro 0 0 amount_micro 0).

Definition post_bond (l : StablecoinLedger) (node_id : pystr) (amount_micro : Z) : result StablecoinLedger :=
  if amount_micro <? 0 then Err LedgerError
  else
    let '(a, l) := account l node_id in
    Ok (sl_add (put_account l node_id (ia_add_bond a amount_micro)) 0 0 0 amount_micro 0).

(** ** Customer balances *)
Definition customer_balance (l : StablecoinLedger) (customer_id : pystr) : Z :=
  default 0 (dict_find (sl_customer_balances l) customer_id).

Definition customer_deposit (l : StablecoinLedger) (customer_id : pystr) (amount_micro : Z) : result (Z * StablecoinLedger) :=
  if bool_decide (customer_id = []) then Err LedgerError
  else if amount_micro <? 0 then Err LedgerError
  else
    let balance := customer_balance l customer_id + amount_micro in
    Ok (balance, sl_add (sl_with_balances l (dict_set (sl_customer_balances l) customer_id balance)) 0 0 0 amount_micro 0).

Definition customer_debit_to_fees (l : StablecoinLedger) (customer_id : pystr) (amount_micro : Z)
    : result ((Z * Z * Z) * StablecoinLedger) :=
  if amount_micro <? 0 then Err LedgerError
  else
    let balance := customer_balance l customer_id in
    if balance <? amount_micro then Err LedgerError
    else
      let '(operator, insurance, treasury) := micro_split (sl_config l) amount_micro in
      let l := sl_with_balances l (dict_set (sl_customer_balances l) customer_id (balance - amount_micro)) in
      Ok ((operator, insurance, treasury), sl_add l operator insurance treasury 0 0).

Definition customer_refund (l : StablecoinLedger) (customer_id : pystr) : Z * StablecoinLedger :=
  let refund := customer_balance l customer_id in
  (refund, sl_add (sl_with_balances l (dict_del (sl_customer_balances l) customer_id)) 0 0 0 0 refund).

(** ** Internal movements *)
Definition pay_from_pool (l : StablecoinLedger) (node_id : pystr) (amount_micro : Z) : result (Z * StablecoinLedger) :=
  if amount_micro <? 0 then Err LedgerError
  else
    let paid := Z.min amount_micro (sl_operator_pool_micro l) in
    let '(a, l) := account l node_id in
    Ok (paid, sl_add (put_account l node_id (ia_add_paid a paid)) (- paid) 0 0 0 paid).

Definition slash_bond (l : StablecoinLedger) (node_id : pystr) (amount_micro : Z) : result (Z * StablecoinLedger) :=
  if amount_micro <? 0 then Err LedgerError
  else
    let '(a, l) := account l node_id in
    let slashed := Z.min amount_micro (ia_bond_micro a) in
    Ok (slashed, sl_add (put_account l node_id (ia_slash a slashed)) 0 slashed 0 0 0).

Definition refund_bond (l : StablecoinLedger) (node_id : pystr) : Z * StablecoinLedger :=
  let '(a, l) := account l node_id in
  let refund := ia_bond_micro a in
  (refund, sl_add (put_account l node_id (ia_add_bond a (- refund))) 0 0 0 0 refund).

Definition forfeit_bond_to_insurance (l : StablecoinLedger) (node_id : pystr) : Z * StablecoinLedger :=
  let '(a, l) := account l node_id in
  let forfeited := ia_bond_micro a in
  (forfeited, sl_add (put_account l node_id (ia_slash a forfeited)) 0 forfeited 0 0 0).

Definition total_held_micro (l : StablecoinLedger) : Z :=
  sl_operator_pool_micro l + sl_insurance_pool_micro l + sl_treasury_micro l +
  sumZ (map ia_bond_micro (accounts l)) + sumZ (sl_customer_balances l).*2.
Definition check_solvency (l : StablecoinLedger) : bool :=
  total_held_micro l =? sl_total_deposited l - sl_total_withdrawn l.

(** * Metered work and settlement *)
Record MeteredWorkReport : Type := {
  mw_node_id : pystr;
  mw_epoch : Z;
  mw_bytes_stored : Z;
  mw_seconds_stored : Z;
  mw_bytes_served : Z;
  mw_audits_passed : Z;
  mw_audits_total : Z
}.

(** [__post_init__] *)
Definition check_report (r : MeteredWorkReport) : result () :=
  if Z.min (Z.min (Z.min (Z.min (mw_bytes_stored r) (mw_seconds_stored r)) (mw_bytes_served r)) (mw_audits_passed r))
       (mw_audits_total r) <? 0
  then Err (ValueError "work report fields must be non-negative")
  else if mw_audits_total r <? mw_audits_passed r then Err (ValueError "audits_passed cannot exceed audits_total")
  else Ok ().

Definition audit_failures (r : MeteredWorkReport) : Z := mw_audits_total r - mw_audits_passed r.

Record EpochPayoutSnapshot : Type := {
  ep_epoch : Z;
  ep_total_claims_micro : Z;
  ep_total_paid_micro : Z;
  ep_pool_before_micro : Z;
  ep_pool_after_micro : Z;
  ep_payouts : list (pystr * Z);
  ep_carried_claims : list (pystr * Z)
}.

Definition fully_funded (s : EpochPayoutSnapshot) : bool := ep_total_paid_micro s =? ep_total_claims_micro s.

Definition metered_reward (c : IncentiveConfig) (bytes_stored seconds_stored bytes_served : Z) : Z :=
  storage_rate_micro c (bytes_stored * seconds_stored) + serving_rate_micro c bytes_served.

Definition compensate (l : StablecoinLedger) (node_id : pystr) (bytes_stored seconds_stored bytes_served : Z)
    : result (Z * StablecoinLedger) :=
  if Z.min (Z.min bytes_stored seconds_stored) bytes_served <? 0 then Err (ValueError "metering inputs must be non-negative")
  else
    let reward := metered_reward (sl_config l) bytes_stored seconds_stored bytes_served in
    let '(a, l) := account l node_id in
    if ia_evicted a then Ok (0, l) else Ok (reward, put_account l node_id (ia_add_claim a reward)).

(** [StableNodeIncentive.slash] *)
Definition slash_failures (l : StablecoinLedger) (node_id : pystr) (audit_failure_count : Z) : result (Z * StablecoinLedger) :=
  if audit_failure_count <=? 0 then Ok (0, l)
  else
    let '(a, l) := account l node_id in
    let a := ia_add_offenses a audit_failure_count in
    let tier := tier_for_offense_count (ia_audit_offense_count a) in
    let penalty := ia_bond_micro a * SLASHING_RATES tier / 10000 in
    slash_bond (put_account l node_id a) node_id penalty.

Definition accrue_report (l : StablecoinLedger) (r : MeteredWorkReport) : result (Z * StablecoinLedger) :=
  let c := sl_config l in
  let '(a, l) := account l (mw_node_id r) in
  let '(accrued, l) :=
    if ia_evicted a || (mw_audits_total r =? 0) then (0, l)
    else
      let metered := metered_reward c (mw_bytes_stored r) (mw_seconds_stored r) (mw_bytes_served r) in
      let accrued := metered * mw_audits_passed r / mw_audits_total r in
      (accrued, put_account l (mw_node_id r) (ia_add_claim a accrued)) in
  if ic_slash_failure_threshold c <=? audit_failures r then
    '(_, l) ← slash_failures l (mw_node_id r) (audit_failures r);
    Ok (accrued, l)
  else Ok (accrued, l).

(** One iteration of the payment loop, for a reference to an account. *)
Definition settle_one (total_claims budget : Z) (st : EpochPayoutSnapshot * StablecoinLedger) (node_id : pystr)
    : result (EpochPayoutSnapshot * StablecoinLedger) :=
  let '(snapshot, l) := st in
  let share := ia_earned_claim_micro (lookup_account l node_id) * budget / total_claims in
  '(paid, l) ← pay_from_pool l node_id share;
  let a := ia_add_claim (lookup_account l node_id) (- paid) in
  let l := put_account l node_id a in
  Ok ({| ep_epoch := ep_epoch snapshot; ep_total_claims_micro := ep_total_claims_micro snapshot;
         ep_total_paid_micro := ep_total_paid_micro snapshot + paid;
         ep_pool_before_micro := ep_pool_before_micro snapshot; ep_pool_after_micro := ep_pool_after_micro snapshot;
         ep_payouts := dict_set (ep_payouts snapshot) node_id paid;
         ep_carried_claims :=
           if 0 <? ia_earned_claim_micro a then dict_set (ep_carried_claims snapshot) node_id (ia_earned_claim_micro a)
           else ep_carried_claims snapshot |}, l).

Definition claimants (l : StablecoinLedger) : list NodeIncentiveAccount :=
  List.filter (fun a => 0 <? ia_earned_claim_micro a) (accounts l).

Definition settle_epoch (l : StablecoinLedger) (epoch : Z) : result (EpochPayoutSnapshot * StablecoinLedger) :=
  let total_claims := sumZ (map ia_earned_claim_micro (claimants l)) in
  let pool_before := sl_operator_pool_micro l in
  let snapshot :=
    {| ep_epoch := epoch; ep_total_claims_micro := total_claims; ep_total_paid_micro := 0;
       ep_pool_before_micro := pool_before; ep_pool_after_micro := pool_before; ep_payouts := []; ep_carried_claims := [] |} in
  if total_claims =? 0 then Ok (snapshot, l)
  else
    let budget := Z.min total_claims pool_before in
    '(snapshot, l) ← foldM (settle_one total_claims budget) (snapshot, l) (map ia_node_id (claimants l));
    Ok ({| ep_epoch := ep_epoch snapshot; ep_total_claims_micro := ep_total_claims_micro snapshot;
           ep_total_paid_micro := ep_total_paid_micro snapshot; ep_pool_before_micro := ep_pool_before_micro snapshot;
           ep_pool_after_micro := sl_operator_pool_micro l; ep_payouts := ep_payouts snapshot;
           ep_carried_claims := ep_carried_claims snapshot |}, l).

(** * Pricing *)
Record StableCommitmentPricing : Type := { cp_config : IncentiveConfig; cp_commitments : list (pystr * (Z * Z)) }.

Definition new_pricing (c : IncentiveConfig) : StableCommitmentPricing := {| cp_config := c; cp_commitments := [] |}.

Definition price (p : StableCommitmentPricing) (entity_size replication_factor ttl_seconds : Z) : result Z :=
  if (entity_size <? 0) || (replication_factor <? 1) || (ttl_seconds <? 0) then Err (ValueError "invalid pricing inputs")
  else Ok (ic_base_commit_fee_micro (cp_config p) + storage_rate_micro (cp_config p) (entity_size * replication_factor * ttl_seconds)).

Definition record_commitment (p : StableCommitmentPricing) (entity_id : pystr) (entity_size replication_factor : Z)
    : result StableCommitmentPricing :=
  if (entity_size <? 0) || (replication_factor <? 1) then Err (ValueError "invalid commitment parameters")
  else Ok {| cp_config := cp_config p; cp_commitments := dict_set (cp_commitments p) entity_id (entity_size, replication_factor) |}.

Definition renew (p : StableCommitmentPricing) (entity_id : pystr) (additional_ttl : Z) : result Z :=
  match dict_find (cp_commitments p) entity_id with
  | None => Err KeyError
  | Some (size, repl) =>
      if additional_ttl <? 0 then Err (ValueError "additional_ttl must be non-negative")
      else Ok (storage_rate_micro (cp_config p) (size * repl * additional_ttl))
  end.

(** [collect], on the ledger the pricing object holds *)
Definition collect (l : StablecoinLedger) (amount_micro : Z) : result ((Z * Z * Z) * StablecoinLedger) := deposit_fee l amount_micro.

(** * Admission *)
Inductive AdmissionDecision : Type := ACCEPTED | REJECTED_BOND | REJECTED_PROOF | REJECTED_EVICTED.
#[export] Instance AdmissionDecision_eq_dec : EqDecision AdmissionDecision.
Proof. solve_decision. Defined.

Record EvictionConfirmation : Type := {
  ec_node_id : pystr;
  ec_reason : pystr;
  ec_bond_refunded_micro : Z;
  ec_bond_forfeited_micro : Z
}.

Definition FORFEITING_REASONS : list pystr := [lit "audit_failure"; lit "fraud"; lit "equivocation"; lit "withholding"].

Section Admission.
Context {Proof_ Evidence : Type} (verify_proof : Proof_ -> bool).

(** The ledger an admission controller shares, and its set of admitted nodes. *)
Record StableAdmissionControl : Type := { ac_ledger : StablecoinLedger; ac_admitted : gset pystr }.

Definition is_admitted (s : StableAdmissionControl) (node_id : pystr) : bool := bool_decide (node_id ∈ ac_admitted s).

Definition apply_detailed (s : StableAdmissionControl) (node_identity : pystr) (storage_proof : Proof_) (bond : Z)
    : result (AdmissionDecision * StableAdmissionControl) :=
  let '(a, l) := account (ac_ledger s) node_identity in
  let s := {| ac_ledger := l; ac_admitted := ac_admitted s |} in
  if ia_evicted a then Ok (REJECTED_EVICTED, s)
  else if bond + ia_bond_micro a <? ic_min_bond_micro (sl_config l) then Ok (REJECTED_BOND, s)
  else if negb (verify_proof storage_proof) then Ok (REJECTED_PROOF, s)
  else
    l ← (if 0 <? bond then post_bond l node_identity bond else Ok l);
    Ok (ACCEPTED, {| ac_ledger := l; ac_admitted := {[node_identity]} ∪ ac_admitted s |}).

Definition admission_apply (s : StableAdmissionControl) (node_identity : pystr) (storage_proof : Proof_) (bond : Z)
    : result (bool * StableAdmissionControl) :=
  '(decision, s) ← apply_detailed s node_identity storage_proof bond;
  Ok (bool_decide (decision = ACCEPTED), s).

Definition evict (s : StableAdmissionControl) (node_id reason : pystr) (audit_evidence : option Evidence)
    : EvictionConfirmation * StableAdmissionControl :=
  let '(a, l) := account (ac_ledger s) node_id in
  let l := put_account l node_id (ia_evict a) in
  let admitted := ac_admitted s ∖ {[node_id]} in
  if bool_decide (reason ∈ FORFEITING_REASONS) && bool_decide (is_Some audit_evidence) then
    let '(forfeited, l) := forfeit_bond_to_insurance l node_id in
    ({| ec_node_id := node_id; ec_reason := reason; ec_bond_refunded_micro := 0; ec_bond_forfeited_micro := forfeited |},
     {| ac_ledger := l; ac_admitted := admitted |})
  else
    let '(refunded, l) := refund_bond l node_id in
    ({| ec_node_id := node_id; ec_reason := reason; ec_bond_refunded_micro := refunded; ec_bond_forfeited_micro := 0 |},
     {| ac_ledger := l; ac_admitted := admitted |}).
End Admission.

(** * The operations as steps *)
Inductive incentive_op {Proof_ Evidence : Type} : Type :=
| DepositFee (amount : Z)
| FundBudget (amount : Z)
| PostBond (node : pystr) (amount : Z)
| CustomerDeposit (customer : pystr) (amount : Z)
| CustomerDebit (customer : pystr) (amount : Z)
| CustomerRefund (customer : pystr)
| PayFromPool (node : pystr) (amount : Z)
| SlashBond (node : pystr) (amount : Z)
| RefundBond (node : pystr)
| ForfeitBond (node : pystr)
| Compensate (node : pystr) (bytes_stored seconds_stored bytes_served : Z)
| SlashFailures (node : pystr) (count : Z)
| AccrueReport (r : MeteredWorkReport)
| SettleEpoch (epoch : Z)
| Apply (node : pystr) (proof : Proof_) (bond : Z)
| Evict (node reason : pystr) (evidence : option Evidence).
Arguments incentive_op : clear implicits.

Section Steps.
Context {Proof_ Evidence : Type} (verify_proof : Proof_ -> bool).

Definition on_ledger {R} (s : StableAdmissionControl) (r : result (R * StablecoinLedger)) : result StableAdmissionControl :=
  '(_, l) ← r; Ok {| ac_ledger := l; ac_admitted := ac_admitted s |}.

Definition incentive_step (s : StableAdmissionControl) (op : incentive_op Proof_ Evidence) : result StableAdmissionControl :=
  let l := ac_ledger s in
  match op with
  | DepositFee amount => on_ledger s (deposit_fee l amount)
  | FundBudget amount => on_ledger s (l ← fund_incentive_budget l amount; Ok ((), l))
  | PostBond node amount => on_ledger s (l ← post_bond l node amount; Ok ((), l))
  | CustomerDeposit customer amount => on_ledger s (customer_deposit l customer amount)
  | CustomerDebit customer amount => on_ledger s (customer_debit_to_fees l customer amount)
  | CustomerRefund customer => on_ledger s (Ok (customer_refund l customer))
  | PayFromPool node amount => on_ledger s (pay_from_pool l node amount)
  | SlashBond node amount => on_ledger s (slash_bond l node amount)
  | RefundBond node => on_ledger s (Ok (refund_bond l node))
  | ForfeitBond node => on_ledger s (Ok (forfeit_bond_to_insurance l node))
  | Compensate node b t v => on_ledger s (compensate l node b t v)
  | SlashFailures node count => on_ledger s (slash_failures l node count)
  | AccrueReport r => on_ledger s (_ ← check_report r; accrue_report l r)
  | SettleEpoch epoch => on_ledger s (settle_epoch l epoch)
  | Apply node proof bond => '(_, s) ← apply_detailed verify_proof s node proof bond; Ok s
  | Evict node reason evidence => Ok (evict s node reason evidence).2
  end.

(** A sequence of calls; one that raises changes nothing. *)
Definition incentive_run (s : StableAdmissionControl) (ops : list (incentive_op Proof_ Evidence)) : StableAdmissionControl :=
  fold_left (fun s op => match incentive_step s op with Ok s => s | Err _ => s end) ops s.
End Steps.

(** * The ledger's invariant *)
(** What the split and the rates must satisfy for pools and claims to stay
    non-negative; the code checks the sum alone. *)
Definition incentives_sound (c : IncentiveConfig) : Prop :=
  0 <= ic_price_per_gib_month_micro c /\ 0 <= ic_price_per_gib_served_micro c /\
  0 <= ic_fee_operator_share_bps c /\ 0 <= ic_fee_insurance_share_bps c /\ 0 <= ic_fee_treasury_share_bps c /\
  check_incentives c = Ok ().

Record account_ok (id : pystr) (a : NodeIncentiveAccount) : Prop := {
  ao_id : ia_node_id a = id;
  ao_bond : 0 <= ia_bond_micro a;
  ao_claim : 0 <= ia_earned_claim_micro a;
  ao_paid : 0 <= ia_paid_total_micro a;
  ao_slashed : 0 <= ia_slashed_total_micro a;
  ao_offenses : 0 <= ia_audit_offense_count a
}.

Record ledger_inv (l : StablecoinLedger) : Prop := {
  li_config : incentives_sound (sl_config l);
  li_pools : 0 <= sl_operator_pool_micro l /\ 0 <= sl_insurance_pool_micro l /\ 0 <= sl_treasury_micro l;
  li_accounts : Forall (fun p => account_ok p.1 p.2) (sl_accounts l);
  li_keys : NoDup (sl_accounts l).*1;
  li_balances : Forall (fun p => 0 <= p.2) (sl_customer_balances l);
  li_held : total_held_micro l = sl_total_deposited l - sl_total_withdrawn l;
  li_paid : sumZ (map ia_paid_total_micro (accounts l)) <= sl_total_withdrawn l
}.

(** What no operation undoes: an eviction, and what was paid, slashed or
    counted; an evicted account's claim never grows. *)
Definition account_le (a a' : NodeIncentiveAccount) : Prop :=
  (ia_evicted a = true -> ia_evicted a' = true /\ ia_earned_claim_micro a' <= ia_earned_claim_micro a) /\
  ia_paid_total_micro a <= ia_paid_total_micro a' /\ ia_slashed_total_micro a <= ia_slashed_total_micro a' /\
  ia_audit_offense_count a <= ia_audit_offense_count a'.

Definition ledger_good (l l' : StablecoinLedger) : Prop :=
  ledger_inv l' /\ sl_config l' = sl_config l /\ forall j, account_le (lookup_account l j) (lookup_account l' j).

Lemma account_le_refl a : account_le a a.
Proof. unfold account_le. intuition lia. Qed.
Lemma account_le_trans a b c : account_le a b -> account_le b c -> account_le a c.
Proof. unfold account_le. intros (H1 & H2 & H3 & H4) (K1 & K2 & K3 & K4). split_and!; try lia. intros [E1 E2]%H1. apply K1 in E1. split; [tauto|lia]. Qed.
Lemma ledger_good_refl l : ledger_inv l -> ledger_good l l.
Proof. intros H. split_and!; [done|done|]. intros j. apply account_le_refl. Qed.
Lemma ledger_good_trans l l' l'' : ledger_good l l' -> ledger_good l' l'' -> ledger_good l l''.
Proof.
  intros (_ & E1 & H1) (H & E2 & H2). split_and!; [done|congruence|]. intros j. eapply account_le_trans; auto.
Qed.

(** Sums over a dictionary, through an update or a removal. *)
Lemma dict_set_sum {A} (f : A -> Z) (d : list (pystr * A)) k v :
  sumZ (map f (dict_set d k v).*2) = sumZ (map f d.*2) + f v - default 0 (f <$> dict_find d k).
Proof.
  induction d as [|[k' v'] d IH]; cbn [dict_set dict_find fmap list_fmap map snd]; [cbn; lia|].
  destruct (decide (k' = k)); cbn [fmap list_fmap map snd]; rewrite !sumZ_cons; [cbn; lia|]. fold (fmap (M:=list) (@snd pystr A)). 
  rewrite IH. lia.
Qed.
Lemma dict_del_sum (d : list (pystr * Z)) k : sumZ (dict_del d k).*2 = sumZ d.*2 - default 0 (dict_find d k).
Proof.
  induction d as [|[k' v'] d IH]; cbn [dict_del dict_find]; [cbn; lia|].
  destruct (decide (k' = k)); rewrite ?fmap_cons, ?sumZ_cons; cbn [snd default]; [cbn; lia|]. rewrite IH. lia.
Qed.
Lemma new_account_ok id : account_ok id (new_account id).
Proof. split; cbn; lia || done. Qed.
Lemma lookup_ok l id : ledger_inv l -> account_ok id (lookup_account l id).
Proof.
  intros H. unfold lookup_account. destruct (dict_find _ _) as [a|] eqn:E; [|apply new_account_ok]. cbn.
  apply dict_find_Some in E. exact (proj1 (Forall_forall _ _) (li_accounts _ H) _ E).
Qed.
Lemma lookup_put l id a j : lookup_account (put_account l id a) j = if decide (id = j) then a else lookup_account l j.
Proof. unfold lookup_account. cbn. rewrite dict_find_set. by destruct (decide (id = j)) as [->|]. Qed.

(** One write to an account with its movements between buckets. *)
Lemma put_good l id a' op ins tre dep wd : ledger_inv l -> account_ok id a' -> account_le (lookup_account l id) a' ->
  0 <= sl_operator_pool_micro l + op -> 0 <= sl_insurance_pool_micro l + ins -> 0 <= sl_treasury_micro l + tre ->
  op + ins + tre + (ia_bond_micro a' - ia_bond_micro (lookup_account l id)) = dep - wd ->
  ia_paid_total_micro a' - ia_paid_total_micro (lookup_account l id) <= wd ->
  ledger_good l (sl_add (put_account l id a') op ins tre dep wd).
Proof.
  intros H Ha Hle Hop Hins Htre Hbal Hpaid. split_and!; [|done|].
  - destruct H as [H1 H2 H3 H4 H5 H6 H7]. unfold lookup_account in Hbal, Hpaid.
    assert (forall f : NodeIncentiveAccount -> Z, f (new_account id) = 0 ->
      sumZ (map f (dict_set (sl_accounts l) id a').*2) = sumZ (map f (accounts l)) + f a' - f (default (new_account id) (dict_find (sl_accounts l) id))) as Hsum.
    { intros f Hf. rewrite dict_set_sum. destruct (dict_find _ _); cbn; unfold accounts; lia. }
    unfold accounts in *. split; cbn; try done.
    + by apply dict_set_Forall.
    + by apply dict_set_NoDup.
    + unfold total_held_micro, accounts in *. cbn in *. rewrite Hsum by done. lia.
    + unfold accounts in *. cbn in *. rewrite Hsum by done. lia.
  - intros j. change (lookup_account (sl_add ?x _ _ _ _ _) j) with (lookup_account x j). rewrite lookup_put.
    destruct (decide (id = j)) as [<-|]; [done|apply account_le_refl].
Qed.

Lemma sl_add_0 l : sl_add l 0 0 0 0 0 = l.
Proof. destruct l. unfold sl_add. cbn. f_equal; lia. Qed.

(** A write that moves nothing. *)
Lemma put_good_0 l id a' : ledger_inv l -> account_ok id a' -> account_le (lookup_account l id) a' ->
  ia_bond_micro a' = ia_bond_micro (lookup_account l id) -> ia_paid_total_micro a' = ia_paid_total_micro (lookup_account l id) ->
  ledger_good l (put_account l id a').
Proof.
  intros H Ha Hle Hb Hp. rewrite <- (sl_add_0 (put_account l id a')).
  pose proof (li_pools _ H). apply put_good; try done; lia.
Qed.

Definition same_buckets (l l' : StablecoinLedger) : Prop :=
  sl_operator_pool_micro l' = sl_operator_pool_micro l /\ sl_insurance_pool_micro l' = sl_insurance_pool_micro l /\
  sl_treasury_micro l' = sl_treasury_micro l /\ sl_customer_balances l' = sl_customer_balances l /\
  sl_total_deposited l' = sl_total_deposited l /\ sl_total_withdrawn l' = sl_total_withdrawn l.

(** [account] returns the account and changes nothing one can read. *)
Lemma account_spec l id : ledger_inv l -> exists l', account l id = (lookup_account l id, l') /\
  ledger_good l l' /\ (forall j, lookup_account l' j = lookup_account l j) /\ same_buckets l l'.
Proof.
  intros H. unfold account. destruct (dict_find _ _) as [a|] eqn:E.
  - exists l. split; [unfold lookup_account; by rewrite E|]. split; [by apply ledger_good_refl|]. done.
  - assert (lookup_account l id = new_account id) as Hn by (unfold lookup_account; by rewrite E).
    exists (put_account l id (new_account id)). split; [by rewrite Hn|]. split; [|split; [|done]].
    + apply put_good_0; rewrite ?Hn; auto using new_account_ok, account_le_refl.
    + intros j. rewrite lookup_put. destruct (decide (id = j)) as [<-|]; [by rewrite Hn|done].
Qed.

(** ** Every operation is good *)
Lemma split_good c amount : incentives_sound c -> 0 <= amount ->
  let '(o, i, t) := micro_split c amount in o + i + t = amount /\ 0 <= o /\ 0 <= i /\ 0 <= t.
Proof.
  intros (_ & _ & H1 & H2 & H3 & H) Ha. unfold check_incentives in H. unfold micro_split.
  destruct (Z.eqb_spec (ic_fee_operator_share_bps c + ic_fee_insurance_share_bps c + ic_fee_treasury_share_bps c) 10000); [|done].
  pose proof (floor_share amount (ic_fee_insurance_share_bps c)). pose proof (floor_share amount (ic_fee_treasury_share_bps c)).
  split; [lia|]. nia.
Qed.

Lemma add_good l l' op ins tre dep wd : ledger_good l l' ->
  0 <= sl_operator_pool_micro l' + op -> 0 <= sl_insurance_pool_micro l' + ins -> 0 <= sl_treasury_micro l' + tre ->
  op + ins + tre = dep - wd -> 0 <= wd -> ledger_good l (sl_add l' op ins tre dep wd).
Proof.
  intros (H & Hc & Hj) Hop Hins Htre Hbal Hwd. split_and!; [|done|done].
  destruct H as [H1 H2 H3 H4 H5 H6 H7]. unfold total_held_micro, accounts in *. split; cbn; try done; unfold total_held_micro, accounts in *; cbn; lia.
Qed.

(** A write to a customer's balance, with the difference moved elsewhere. *)
Lemma balances_good l d op ins tre dep wd : ledger_inv l -> Forall (fun p => 0 <= p.2) d ->
  0 <= sl_operator_pool_micro l + op -> 0 <= sl_insurance_pool_micro l + ins -> 0 <= sl_treasury_micro l + tre ->
  op + ins + tre + (sumZ d.*2 - sumZ (sl_customer_balances l).*2) = dep - wd -> 0 <= wd ->
  ledger_good l (sl_add (sl_with_balances l d) op ins tre dep wd).
Proof.
  intros H Hd Hop Hins Htre Hbal Hwd. split_and!; [|done|intros j; apply account_le_refl].
  destruct H as [H1 H2 H3 H4 H5 H6 H7]. unfold total_held_micro, accounts in *. split; cbn; try done; unfold total_held_micro, accounts in *; cbn; lia.
Qed.

Lemma balance_pos l c : ledger_inv l -> 0 <= customer_balance l c.
Proof.
  intros H. unfold customer_balance. destruct (dict_find _ _) as [b|] eqn:E; [|cbn; lia].
  apply dict_find_Some in E. exact (proj1 (Forall_forall _ _) (li_balances _ H) _ E).
Qed.

Lemma balance_set_sum l c v : sumZ (dict_set (sl_customer_balances l) c v).*2 = sumZ (sl_customer_balances l).*2 + v - customer_balance l c.
Proof.
  pose proof (dict_set_sum (fun x => x) (sl_customer_balances l) c v) as H. rewrite !map_id in H. rewrite H.
  unfold customer_balance. by destruct (dict_find _ _).
Qed.

Section Good.
Context (l : StablecoinLedger) (H : ledger_inv l).

Lemma deposit_fee_good amount r l' : deposit_fee l amount = Ok (r, l') -> ledger_good l l'.
Proof.
  unfold deposit_fee. destruct (Z.ltb_spec amount 0); [done|]. pose proof (split_good (sl_config l) amount (li_config _ H) ltac:(lia)).
  destruct (micro_split _ _) as [[o i] t]. intros [= <- <-]. pose proof (li_pools _ H).
  apply add_good; [by apply ledger_good_refl|lia..].
Qed.
Lemma fund_good amount l' : fund_incentive_budget l amount = Ok l' -> ledger_good l l'.
Proof.
  unfold fund_incentive_budget. destruct (Z.ltb_spec amount 0); [done|]. intros [= <-]. pose proof (li_pools _ H).
  apply add_good; [by apply ledger_good_refl|lia..].
Qed.
Lemma customer_deposit_good c amount r l' : customer_deposit l c amount = Ok (r, l') -> ledger_good l l'.
Proof.
  unfold customer_deposit. destruct (bool_decide _); [done|]. destruct (Z.ltb_spec amount 0); [done|]. intros [= <- <-].
  pose proof (li_pools _ H). pose proof (balance_pos l c H). apply balances_good; rewrite ?balance_set_sum; try lia; [done|].
  apply dict_set_Forall; [apply H|cbn; lia].
Qed.
Lemma customer_debit_good c amount r l' : customer_debit_to_fees l c amount = Ok (r, l') -> ledger_good l l'.
Proof.
  unfold customer_debit_to_fees. destruct (Z.ltb_spec amount 0); [done|]. destruct (Z.ltb_spec (customer_balance l c) amount); [done|].
  pose proof (split_good (sl_config l) amount (li_config _ H) ltac:(lia)).
  destruct (micro_split _ _) as [[o i] t]. intros [= <- <-]. pose proof (li_pools _ H). 
  apply balances_good; rewrite ?balance_set_sum; try lia; [done|]. apply dict_set_Forall; [apply H|cbn; lia].
Qed.
Lemma customer_refund_good c r l' : customer_refund l c = (r, l') -> ledger_good l l'.
Proof.
  unfold customer_refund. intros [= <- <-]. pose proof (li_pools _ H). pose proof (balance_pos l c H).
  apply balances_good; rewrite ?dict_del_sum; try lia; try done; [apply dict_del_Forall, H|].
  unfold customer_balance in *. lia.
Qed.
End Good.

(** The side conditions of [put_good] on a literal update. *)
Ltac close_account := first [done | lia | split; cbn; done || lia | unfold account_le; cbn; intuition lia].

Ltac with_account id :=
  match goal with H : ledger_inv ?l |- context [account ?l id] =>
    let l1 := fresh "l1" in let E := fresh "Ea" in let G := fresh "G" in let Hl := fresh "Hl" in let Hb := fresh "Hb" in let I := fresh "I" in
    destruct (account_spec l id H) as (l1 & E & G & Hl & Hb); rewrite E; pose proof (proj1 G) as I
  end.

Lemma post_bond_good l node amount l' : ledger_inv l -> post_bond l node amount = Ok l' ->
  ledger_good l l' /\ (forall j, ia_earned_claim_micro (lookup_account l' j) = ia_earned_claim_micro (lookup_account l j)).
Proof.
  intros H. unfold post_bond. destruct (Z.ltb_spec amount 0); [done|]. with_account node. intros [= <-].
  pose proof (li_pools l1 I). pose proof (lookup_ok l node H) as [? ? ? ? ? ?]. split.
  - eapply ledger_good_trans; [exact G|]. apply put_good; rewrite ?Hl; cbn; close_account.
  - intros j. change (lookup_account (sl_add ?x _ _ _ _ _) j) with (lookup_account x j). rewrite lookup_put, Hl. by destruct (decide (node = j)) as [<-|].
Qed.

(** What a payment is: it is clamped to the pool, moves that amount out, and
    touches one account's total. *)
Lemma pay_spec l node amount : ledger_inv l -> 0 <= amount -> exists l',
  pay_from_pool l node amount = Ok (Z.min amount (sl_operator_pool_micro l), l') /\ ledger_good l l' /\
  sl_operator_pool_micro l' = sl_operator_pool_micro l - Z.min amount (sl_operator_pool_micro l) /\
  forall j, lookup_account l' j =
    if decide (node = j) then ia_add_paid (lookup_account l j) (Z.min amount (sl_operator_pool_micro l)) else lookup_account l j.
Proof.
  intros H Ha. unfold pay_from_pool. destruct (Z.ltb_spec amount 0); [lia|]. with_account node.
  pose proof (lookup_ok l node H) as [? ? ? ? ? ?]. pose proof (li_pools l H). pose proof Hb as (Hb1 & Hb2 & Hb3 & _).
  eexists. split; [reflexivity|]. split; [|split].
  - eapply ledger_good_trans; [exact G|]. apply put_good; rewrite ?Hl, ?Hb1, ?Hb2, ?Hb3; cbn; close_account.
  - cbn. lia.
  - intros j. change (lookup_account (sl_add ?x _ _ _ _ _) j) with (lookup_account x j). rewrite lookup_put, Hl. by destruct (decide (node = j)) as [<-|].
Qed.
Lemma pay_good l node amount r l' : ledger_inv l -> pay_from_pool l node amount = Ok (r, l') -> ledger_good l l'.
Proof.
  intros H E. destruct (Z.ltb_spec amount 0) as [Hn|Hn].
  - unfold pay_from_pool in E. by rewrite (proj2 (Z.ltb_lt _ _) Hn) in E.
  - destruct (pay_spec l node amount H Hn) as (l1 & E1 & G & _). congruence.
Qed.

(** A slash is clamped to the bond, and goes to insurance. *)
Lemma slash_spec l node amount : ledger_inv l -> 0 <= amount -> exists l',
  let slashed := Z.min amount (ia_bond_micro (lookup_account l node)) in
  slash_bond l node amount = Ok (slashed, l') /\ ledger_good l l' /\
  sl_insurance_pool_micro l' = sl_insurance_pool_micro l + slashed /\
  forall j, lookup_account l' j = if decide (node = j) then ia_slash (lookup_account l j) slashed else lookup_account l j.
Proof.
  intros H Ha. unfold slash_bond. destruct (Z.ltb_spec amount 0); [lia|]. with_account node.
  pose proof (lookup_ok l node H) as [? ? ? ? ? ?]. pose proof (li_pools l1 I).
  eexists. cbv zeta. split; [reflexivity|]. split; [|split].
  - eapply ledger_good_trans; [exact G|]. apply put_good; rewrite ?Hl; cbn; close_account.
  - cbn. destruct Hb as (_ & -> & _). lia.
  - intros j. change (lookup_account (sl_add ?x _ _ _ _ _) j) with (lookup_account x j). rewrite lookup_put, Hl. by destruct (decide (node = j)) as [<-|].
Qed.
Lemma slash_good l node amount r l' : ledger_inv l -> slash_bond l node amount = Ok (r, l') -> ledger_good l l'.
Proof.
  intros H E. destruct (Z.ltb_spec amount 0) as [Hn|Hn].
  - unfold slash_bond in E. by rewrite (proj2 (Z.ltb_lt _ _) Hn) in E.
  - destruct (slash_spec l node amount H Hn) as (l1 & E1 & G & _). congruence.
Qed.

Lemma refund_bond_good l node r l' : ledger_inv l -> refund_bond l node = (r, l') ->
  ledger_good l l' /\ r = ia_bond_micro (lookup_account l node) /\ ia_bond_micro (lookup_account l' node) = 0.
Proof.
  intros H. unfold refund_bond. with_account node. intros [= <- <-]. pose proof (lookup_ok l node H) as [? ? ? ? ? ?]. pose proof (li_pools l1 I).
  split; [|split; [done|]].
  - eapply ledger_good_trans; [exact G|]. apply put_good; rewrite ?Hl; cbn; close_account.
  - change (lookup_account (sl_add ?x _ _ _ _ _) node) with (lookup_account x node). rewrite lookup_put, decide_True by done. cbn. lia.
Qed.
Lemma forfeit_good l node r l' : ledger_inv l -> forfeit_bond_to_insurance l node = (r, l') ->
  ledger_good l l' /\ r = ia_bond_micro (lookup_account l node) /\ ia_bond_micro (lookup_account l' node) = 0.
Proof.
  intros H. unfold forfeit_bond_to_insurance. with_account node. intros [= <- <-]. pose proof (lookup_ok l node H) as [? ? ? ? ? ?]. pose proof (li_pools l1 I).
  split; [|split; [done|]].
  - eapply ledger_good_trans; [exact G|]. apply put_good; rewrite ?Hl; cbn; close_account.
  - change (lookup_account (sl_add ?x _ _ _ _ _) node) with (lookup_account x node). rewrite lookup_put, decide_True by done. cbn. lia.
Qed.

(** Accruing a claim to an account that is not evicted. *)
Lemma claim_good l node d : ledger_inv l -> 0 <= d -> ia_evicted (lookup_account l node) = false ->
  ledger_good l (put_account l node (ia_add_claim (lookup_account l node) d)).
Proof.
  intros H Hd He. pose proof (lookup_ok l node H) as [? ? ? ? ? ?]. apply put_good_0; try close_account.
  unfold account_le. cbn. rewrite He. split_and!; lia || done.
Qed.

Lemma metered_pos c b t v : incentives_sound c -> 0 <= b -> 0 <= t -> 0 <= v -> 0 <= metered_reward c b t v.
Proof.
  intros (H1 & H2 & _) Hb Ht Hv. unfold metered_reward, storage_rate_micro, serving_rate_micro.
  assert (0 <= b * t) by nia. assert (0 < GIB * SECONDS_PER_MONTH /\ 0 < GIB) as [? ?] by (split; reflexivity).
  apply Z.add_nonneg_nonneg; apply Z.div_pos; nia.
Qed.

Lemma compensate_good l node b t v r l' : ledger_inv l -> compensate l node b t v = Ok (r, l') -> ledger_good l l'.
Proof.
  intros H. unfold compensate. destruct (Z.ltb_spec (Z.min (Z.min b t) v) 0); [done|]. with_account node.
  pose proof (metered_pos (sl_config l) b t v (li_config _ H) ltac:(lia) ltac:(lia) ltac:(lia)).
  destruct (ia_evicted _) eqn:He; intros [= <- <-]; [done|]. eapply ledger_good_trans; [exact G|]. rewrite <- (Hl node) in *.
  by apply claim_good.
Qed.

(** Slashing for audit failures: the tier comes from the failures counted so
    far with these, the amount is the tier's share of the bond. *)
Lemma slash_failures_spec l node count : ledger_inv l -> exists r l', slash_failures l node count = Ok (r, l') /\ ledger_good l l' /\
  r = (if 0 <? count
       then ia_bond_micro (lookup_account l node) * SLASHING_RATES (tier_for_offense_count (ia_audit_offense_count (lookup_account l node) + count)) / 10000
       else 0) /\
  forall j, ia_earned_claim_micro (lookup_account l' j) = ia_earned_claim_micro (lookup_account l j) /\
    ia_bond_micro (lookup_account l' j) = ia_bond_micro (lookup_account l j) - if decide (node = j) then r else 0.
Proof.
  intros H. unfold slash_failures. destruct (Z.leb_spec count 0) as [Hn|Hp].
  { exists 0, l. destruct (Z.ltb_spec 0 count); [lia|]. split; [done|]. split; [by apply ledger_good_refl|]. split; [done|].
    intros j. destruct (decide _); split; lia. }
  destruct (Z.ltb_spec 0 count); [|lia]. with_account node. cbv zeta. pose proof (lookup_ok l node H) as [? ? ? ? ? ?].
  set (a := ia_add_offenses _ _).
  assert (ledger_good l1 (put_account l1 node a)) as G2.
  { apply put_good_0; rewrite ?Hl; close_account. }
  set (t := tier_for_offense_count _). pose proof (rate_bounds t) as Hr.
  pose proof (bps_le (ia_bond_micro a) (SLASHING_RATES t) ltac:(cbn; lia) ltac:(lia)) as Hb'.
  destruct (slash_spec (put_account l1 node a) node (ia_bond_micro a * SLASHING_RATES t / 10000)) as (l2 & E & G3 & _ & Hj); [apply G2|lia|].
  cbv zeta in E, Hj.
  assert (Z.min (ia_bond_micro a * SLASHING_RATES t / 10000) (ia_bond_micro (lookup_account (put_account l1 node a) node)) = ia_bond_micro a * SLASHING_RATES t / 10000) as Hmin
    by (rewrite lookup_put, decide_True by done; apply Z.min_l, Hb').
  rewrite Hmin in E. rewrite Hmin in Hj. exists (ia_bond_micro a * SLASHING_RATES t / 10000), l2.
  split; [exact E|]. split; [|split; [done|]].
  - eapply ledger_good_trans; [exact G|]. eapply ledger_good_trans; eassumption.
  - intros j. rewrite Hj, lookup_put, Hl. destruct (decide (node = j)) as [<-|]; cbn; split; lia.
Qed.

Lemma accrue_good l r x l' : check_report r = Ok () -> ledger_inv l -> accrue_report l r = Ok (x, l') -> ledger_good l l'.
Proof.
  unfold check_report. intros Hr H. destruct (Z.ltb_spec (Z.min (Z.min (Z.min (Z.min (mw_bytes_stored r) (mw_seconds_stored r))
    (mw_bytes_served r)) (mw_audits_passed r)) (mw_audits_total r)) 0); [done|]. clear Hr.
  unfold accrue_report. with_account (mw_node_id r). cbv zeta.
  set (m := metered_reward _ _ _ _). assert (0 <= m) as Hm by (apply metered_pos; [apply H|lia..]).
  set (p := if _ || _ then _ else _). assert (ledger_good l p.2) as Gp.
  { subst p. destruct (ia_evicted _ || _) eqn:He; [done|]. apply orb_false_iff in He as [He Ht]. apply Z.eqb_neq in Ht.
    eapply ledger_good_trans; [exact G|]. rewrite <- (Hl (mw_node_id r)) in *. apply claim_good; [done| |done]. apply Z.div_pos; nia. }
  destruct p as [accrued l2]. cbn [snd] in Gp. destruct (_ <=? _); [|by intros [= <- <-]].
  destruct (slash_failures_spec l2 (mw_node_id r) (audit_failures r) (proj1 Gp)) as (y & l3 & -> & G3 & _). cbn.
  intros [= <- <-]. eapply ledger_good_trans; eassumption.
Qed.

(** One payment of a settlement: the share is paid in full when the pool
    covers it, and leaves the claim. *)
Lemma settle_one_spec total budget snap l node : ledger_inv l -> 0 < total -> 0 <= budget <= total ->
  let share := ia_earned_claim_micro (lookup_account l node) * budget / total in
  share <= sl_operator_pool_micro l -> exists l',
  settle_one total budget (snap, l) node = Ok
    ({| ep_epoch := ep_epoch snap; ep_total_claims_micro := ep_total_claims_micro snap;
        ep_total_paid_micro := ep_total_paid_micro snap + share; ep_pool_before_micro := ep_pool_before_micro snap;
        ep_pool_after_micro := ep_pool_after_micro snap; ep_payouts := dict_set (ep_payouts snap) node share;
        ep_carried_claims := if 0 <? ia_earned_claim_micro (lookup_account l node) - share
          then dict_set (ep_carried_claims snap) node (ia_earned_claim_micro (lookup_account l node) - share)
          else ep_carried_claims snap |}, l') /\
  ledger_good l l' /\ sl_operator_pool_micro l' = sl_operator_pool_micro l - share /\
  forall j, lookup_account l' j =
    if decide (node = j) then ia_add_claim (ia_add_paid (lookup_account l j) share) (- share) else lookup_account l j.
Proof.
  intros H Ht Hb share Hs. pose proof (lookup_ok l node H) as [? ? ? ? ? ?].
  assert (0 <= share <= ia_earned_claim_micro (lookup_account l node)) as Hsh.
  { split; [apply Z.div_pos; nia|]. apply Z.div_le_upper_bound; nia. }
  destruct (pay_spec l node share H ltac:(lia)) as (l1 & E1 & G1 & Hp & Hj). rewrite Z.min_l in E1, Hp, Hj by lia.
  unfold settle_one. fold share. rewrite E1. cbn [mbind result_bind]. pose proof (Hj node) as Hn. rewrite decide_True in Hn by done.
  eexists. split; [|split; [|split]].
  - rewrite Hn. reflexivity.
  - eapply ledger_good_trans; [exact G1|]. apply put_good_0; rewrite ?Hn; [apply G1|..]; cbn; close_account.
  - cbn. exact Hp.
  - intros j. rewrite lookup_put, Hj. by destruct (decide (node = j)) as [<-|].
Qed.

Definition share_of (l : StablecoinLedger) (total budget : Z) (node : pystr) : Z :=
  ia_earned_claim_micro (lookup_account l node) * budget / total.

Definition settled (a : NodeIncentiveAccount) (share : Z) : NodeIncentiveAccount := ia_add_claim (ia_add_paid a share) (- share).

Definition carry_of (l : StablecoinLedger) (total budget : Z) (nodes : list pystr) : list (pystr * Z) :=
  List.filter (fun p => 0 <? p.2) (map (fun n => (n, ia_earned_claim_micro (lookup_account l n) - share_of l total budget n)) nodes).

Lemma settle_loop total budget nodes : 0 < total -> 0 <= budget <= total -> forall snap l, ledger_inv l ->
  NoDup ((ep_payouts snap).*1 ++ nodes) -> NoDup ((ep_carried_claims snap).*1 ++ nodes) ->
  sumZ (map (share_of l total budget) nodes) <= sl_operator_pool_micro l -> exists l',
  foldM (settle_one total budget) (snap, l) nodes = Ok
    ({| ep_epoch := ep_epoch snap; ep_total_claims_micro := ep_total_claims_micro snap;
        ep_total_paid_micro := ep_total_paid_micro snap + sumZ (map (share_of l total budget) nodes);
        ep_pool_before_micro := ep_pool_before_micro snap; ep_pool_after_micro := ep_pool_after_micro snap;
        ep_payouts := ep_payouts snap ++ map (fun n => (n, share_of l total budget n)) nodes;
        ep_carried_claims := ep_carried_claims snap ++ carry_of l total budget nodes |}, l') /\
  ledger_good l l' /\ sl_operator_pool_micro l' = sl_operator_pool_micro l - sumZ (map (share_of l total budget) nodes) /\
  forall j, lookup_account l' j = if decide (j ∈ nodes) then settled (lookup_account l j) (share_of l total budget j) else lookup_account l j.
Proof.
  intros Ht Hb. induction nodes as [|n nodes IH]; intros snap l H Hp Hc Hs.
  { exists l. cbn. rewrite !app_nil_r, Z.add_0_r, Z.sub_0_r. split; [by destruct snap|]. split; [by apply ledger_good_refl|].
    split; [done|]. intros j. by rewrite decide_False by apply not_elem_of_nil. }
  cbn [map] in Hs. rewrite sumZ_cons in Hs.
  assert (forall k, 0 <= share_of l total budget k) as Hpos by (intros k; pose proof (lookup_ok l k H) as [? ? ? ? ? ?]; apply Z.div_pos; nia).
  assert (0 <= sumZ (map (share_of l total budget) nodes)) by (apply sumZ_nonneg, Forall_map, Forall_true; exact Hpos).
  pose proof Hp as (_ & Hnp & [Hnn Hnd]%NoDup_cons)%NoDup_app. pose proof Hc as (_ & Hnc & _)%NoDup_app.
  assert (n ∉ (ep_payouts snap).*1 /\ n ∉ (ep_carried_claims snap).*1) as [Hnp' Hnc'] by (split; intros Hin; [eapply Hnp|eapply Hnc]; first [exact Hin|by left]).
  destruct (settle_one_spec total budget snap l n H Ht Hb ltac:(unfold share_of in *; lia)) as (l1 & E & G & Hpool & Hj).
  cbn [foldM]. rewrite E. fold (share_of l total budget n) in *. clear E.
  assert (forall k, k ∈ nodes -> lookup_account l1 k = lookup_account l k) as Hk by (intros k Hin; rewrite Hj, decide_False; congruence).
  assert (forall k, k ∈ nodes -> share_of l1 total budget k = share_of l total budget k) as Hsh by (intros k Hin; unfold share_of; by rewrite Hk).
  assert (map (share_of l1 total budget) nodes = map (share_of l total budget) nodes) as Hm1 by (apply map_ext_in; intros k Hin; by apply Hsh, list_elem_of_In).
  assert (map (fun k => (k, share_of l1 total budget k)) nodes = map (fun k => (k, share_of l total budget k)) nodes) as Hm2
    by (apply map_ext_in; intros k Hin; rewrite Hsh; [done|by apply list_elem_of_In]).
  assert (carry_of l1 total budget nodes = carry_of l total budget nodes) as Hm3.
  { unfold carry_of. f_equal. apply map_ext_in. intros k Hin%list_elem_of_In. by rewrite Hsh, Hk. }
  match goal with |- context [foldM _ (?s, l1) nodes] => destruct (IH s l1 (proj1 G)) as (l2 & -> & G2 & Hp2 & Hj2) end; cbn [ep_payouts ep_carried_claims].
  - rewrite dict_set_new, fmap_app, <- app_assoc by done. exact Hp.
  - destruct (0 <? _); [by rewrite dict_set_new, fmap_app, <- app_assoc by done|].
    apply NoDup_app in Hc as (? & _ & ?). apply NoDup_app. split_and!; [done| |done]. intros x Hx Hin. apply (Hnc _ Hx). by right.
  - rewrite Hm1. lia.
  - exists l2. rewrite Hm1 in *. split; [|split; [eapply ledger_good_trans; eassumption|split]].
    + cbn [ep_epoch ep_total_claims_micro ep_total_paid_micro ep_pool_before_micro ep_pool_after_micro ep_payouts ep_carried_claims map].
      rewrite sumZ_cons, Hm2, Hm3, dict_set_new by done. do 3 f_equal; [lia|by rewrite <- app_assoc|].
      unfold carry_of at 2. cbn [map List.filter snd]. fold (carry_of l total budget nodes).
      destruct (0 <? _); [by rewrite dict_set_new, <- app_assoc by done|done].
    + cbn [map]. rewrite sumZ_cons. lia.
    + intros j. rewrite Hj2. destruct (decide (j ∈ nodes)) as [Hin|Hin].
      * rewrite Hk, Hsh by done. rewrite decide_True; [done|by right].
      * rewrite Hj. destruct (decide (n = j)) as [<-|Hne]; [rewrite decide_True; [done|by left]|].
        rewrite decide_False; [done|]. by intros [->|]%elem_of_cons.
Qed.

Lemma settle_total_pos l : ledger_inv l -> 0 <= sumZ (map ia_earned_claim_micro (claimants l)) /\
  (sumZ (map ia_earned_claim_micro (claimants l)) = 0 -> claimants l = []).
Proof.
  intros _. unfold claimants. induction (accounts l) as [|a accs IH]; [done|]. cbn [List.filter].
  destruct (Z.ltb_spec 0 (ia_earned_claim_micro a)); [|exact IH]. cbn [map]. destruct IH as [IH1 _]. rewrite sumZ_cons. split; [lia|]. intros E. lia.
Qed.

Lemma NoDup_map_filter {A B} (f : A -> B) (p : A -> bool) xs : NoDup (map f xs) -> NoDup (map f (List.filter p xs)).
Proof.
  induction xs as [|x xs IH]; [done|]. cbn. intros [Hx Hn]%NoDup_cons. destruct (p x); [|auto]. cbn. apply NoDup_cons.
  split; [|auto]. rewrite !elem_of_map in *. intros (y & Ey & [Hin _]%list_elem_of_In%filter_In). apply Hx. exists y. split; [done|by apply list_elem_of_In].
Qed.

Lemma accounts_ids l : ledger_inv l -> map ia_node_id (accounts l) = (sl_accounts l).*1.
Proof.
  intros H. unfold accounts. induction (li_accounts _ H) as [|[k a] d [Hk _ _ _ _ _] _ IH]; [done|]. cbn in *. by f_equal.
Qed.

Lemma filter_nil {A} (p : A -> bool) xs : (forall x, x ∈ xs -> p x = false) -> List.filter p xs = [].
Proof.
  induction xs as [|x xs IH]; intros H; [done|]. cbn. rewrite (H x (list_elem_of_here _ _)). apply IH. intros y Hy. apply H. by right.
Qed.

Lemma claimants_NoDup l : ledger_inv l -> NoDup (map ia_node_id (claimants l)).
Proof. intros H. apply NoDup_map_filter. rewrite accounts_ids by done. apply H. Qed.

Lemma claimant_lookup l a : ledger_inv l -> a ∈ claimants l -> lookup_account l (ia_node_id a) = a /\ 0 < ia_earned_claim_micro a.
Proof.
  intros H [Hin Hp]%list_elem_of_In%filter_In. apply Z.ltb_lt in Hp. split; [|done].
  apply list_elem_of_In in Hin. unfold accounts in Hin. apply list_elem_of_fmap in Hin as ([k a'] & -> & Hin).
  pose proof (proj1 (Forall_forall _ _) (li_accounts _ H) _ Hin) as [Hk _ _ _ _ _]. cbn in *. subst k.
  unfold lookup_account. by rewrite (dict_find_elem _ _ a' (li_keys _ H) Hin).
Qed.

Lemma claims_map {B} (f : Z -> B) l : ledger_inv l ->
  map (fun n => f (ia_earned_claim_micro (lookup_account l n))) (map ia_node_id (claimants l)) = map (fun a => f (ia_earned_claim_micro a)) (claimants l).
Proof.
  intros H. rewrite map_map. apply map_ext_in. intros a Hin%list_elem_of_In. by rewrite (proj1 (claimant_lookup l a H Hin)).
Qed.

(** A settlement, in full. *)
Lemma settle_spec l epoch : ledger_inv l ->
  let total := sumZ (map ia_earned_claim_micro (claimants l)) in
  let budget := Z.min total (sl_operator_pool_micro l) in
  let nodes := map ia_node_id (claimants l) in
  let paid := sumZ (map (share_of l total budget) nodes) in
  paid <= budget <= paid + Z.of_nat (length nodes) /\ 0 <= paid /\ exists l',
  settle_epoch l epoch = Ok
    ({| ep_epoch := epoch; ep_total_claims_micro := total; ep_total_paid_micro := paid;
        ep_pool_before_micro := sl_operator_pool_micro l; ep_pool_after_micro := sl_operator_pool_micro l - paid;
        ep_payouts := map (fun n => (n, share_of l total budget n)) nodes;
        ep_carried_claims := carry_of l total budget nodes |}, l') /\
  ledger_good l l' /\ sl_operator_pool_micro l' = sl_operator_pool_micro l - paid /\
  forall j, lookup_account l' j = if decide (j ∈ nodes) then settled (lookup_account l j) (share_of l total budget j) else lookup_account l j.
Proof.
  intros H total budget nodes paid. pose proof (settle_total_pos l H) as [Hp Hz]. pose proof (li_pools _ H) as (Hop & _).
  unfold settle_epoch. fold total in Hp, Hz. fold total nodes budget. destruct (Z.eqb_spec total 0) as [E0|E0].
  { subst paid nodes budget. rewrite Hz, E0 by done. cbn [map length]. change (sumZ []) with 0. split; [lia|]. split; [lia|].
    exists l. rewrite Z.sub_0_r. split; [done|]. split; [by apply ledger_good_refl|]. split; [done|]. intros j.
    by rewrite decide_False by apply not_elem_of_nil. }
  assert (0 < total) as Ht by lia. assert (0 <= budget <= total) as Hb by (unfold budget; lia).
  assert (paid = sumZ (map (fun c => budget * c / total) (map ia_earned_claim_micro (claimants l)))) as Hpd.
  { unfold paid, nodes, share_of. rewrite (claims_map (fun c => c * budget / total) l H), map_map.
    f_equal. apply map_ext. intros a. by rewrite Z.mul_comm. }
  assert (Forall (fun w => 0 <= w) (map ia_earned_claim_micro (claimants l))) as Hw.
  { apply Forall_forall. intros x (a & -> & Hin)%elem_of_map. pose proof (claimant_lookup l a H Hin). lia. }
  pose proof (floor_shares_le budget total _ (proj1 Hb) Ht Hw) as [Hpos Hle]. rewrite <- Hpd in Hpos, Hle. fold total in Hle.
  pose proof (floor_shares_ge budget total (map ia_earned_claim_micro (claimants l)) Ht) as Hge. rewrite <- Hpd, length_map in Hge. fold total in Hge.
  assert (paid <= budget) as Hpb by nia. split.
  { unfold nodes. rewrite length_map. nia. } split; [done|].
  destruct (settle_loop total budget nodes Ht Hb
    {| ep_epoch := epoch; ep_total_claims_micro := total; ep_total_paid_micro := 0; ep_pool_before_micro := sl_operator_pool_micro l;
       ep_pool_after_micro := sl_operator_pool_micro l; ep_payouts := []; ep_carried_claims := [] |} l H) as (l' & E & G & Hpool & Hj);
    [apply (claimants_NoDup l H)|apply (claimants_NoDup l H)|fold paid; unfold budget in *; lia|].
  rewrite E. cbn. fold paid in Hpool. exists l'. rewrite Hpool. done.
Qed.

(** ** The steps *)
Section StepsGood.
Context {Proof_ Evidence : Type} (verify_proof : Proof_ -> bool).
Notation op := (incentive_op Proof_ Evidence).

Lemma apply_spec s node proof bond : ledger_inv (ac_ledger s) -> exists d s',
  apply_detailed verify_proof s node proof bond = Ok (d, s') /\ ledger_good (ac_ledger s) (ac_ledger s') /\
  d = (let a := lookup_account (ac_ledger s) node in
       if ia_evicted a then REJECTED_EVICTED
       else if bond + ia_bond_micro a <? ic_min_bond_micro (sl_config (ac_ledger s)) then REJECTED_BOND
       else if negb (verify_proof proof) then REJECTED_PROOF else ACCEPTED) /\
  ac_admitted s' = (if decide (d = ACCEPTED) then {[node]} ∪ ac_admitted s else ac_admitted s).
Proof.
  intros H. unfold apply_detailed. destruct (account_spec (ac_ledger s) node H) as (l1 & -> & G & Hl & Hb). cbv zeta.
  rewrite <- (proj1 (proj2 G)).
  destruct (ia_evicted _); [by eexists _, _|]. destruct (_ <? _); [by eexists _, _|]. destruct (verify_proof proof); [|by eexists _, _].
  destruct (Z.ltb_spec 0 bond) as [Hp|Hp]; cbn; [|by eexists _, _].
  destruct (post_bond l1 node bond) as [l2|e] eqn:E; cbn.
  - eexists _, _. split; [reflexivity|]. split; [|done]. eapply ledger_good_trans; [exact G|]. apply (post_bond_good _ _ _ _ (proj1 G) E).
  - exfalso. unfold post_bond in E. destruct (Z.ltb_spec bond 0); [lia|]. by destruct (account l1 node).
Qed.

Lemma evict_spec s node reason (evidence : option Evidence) : ledger_inv (ac_ledger s) ->
  let '(c, s') := evict s node reason evidence in
  ledger_good (ac_ledger s) (ac_ledger s') /\ ia_evicted (lookup_account (ac_ledger s') node) = true /\
  ac_admitted s' = ac_admitted s ∖ {[node]} /\ ia_bond_micro (lookup_account (ac_ledger s') node) = 0 /\
  (ec_bond_refunded_micro c, ec_bond_forfeited_micro c) =
    if bool_decide (reason ∈ FORFEITING_REASONS) && bool_decide (is_Some evidence)
    then (0, ia_bond_micro (lookup_account (ac_ledger s) node)) else (ia_bond_micro (lookup_account (ac_ledger s) node), 0).
Proof.
  intros H. unfold evict. destruct (account_spec (ac_ledger s) node H) as (l1 & -> & G & Hl & Hb). cbv zeta.
  pose proof (lookup_ok (ac_ledger s) node H) as [? ? ? ? ? ?]. set (a := ia_evict _).
  assert (ledger_good l1 (put_account l1 node a)) as G2 by (apply put_good_0; rewrite ?Hl; try apply G; close_account).
  assert (lookup_account (put_account l1 node a) node = a) as La by (by rewrite lookup_put, decide_True).
  destruct (bool_decide _ && _).
  - destruct (forfeit_bond_to_insurance _ _) as [r l3] eqn:E. destruct (forfeit_good _ _ _ _ (proj1 G2) E) as (G3 & -> & Hz).
    cbn [ac_ledger ac_admitted]. split; [eapply ledger_good_trans; [exact G|]; eapply ledger_good_trans; eassumption|].
    pose proof (proj1 (proj2 (proj2 G3) node)) as He. rewrite La in *. split; [by apply He|done].
  - destruct (refund_bond _ _) as [r l3] eqn:E. destruct (refund_bond_good _ _ _ _ (proj1 G2) E) as (G3 & -> & Hz).
    cbn [ac_ledger ac_admitted]. split; [eapply ledger_good_trans; [exact G|]; eapply ledger_good_trans; eassumption|].
    pose proof (proj1 (proj2 (proj2 G3) node)) as He. rewrite La in *. split; [by apply He|done].
Qed.

Lemma step_good s (o : op) s' : ledger_inv (ac_ledger s) -> incentive_step verify_proof s o = Ok s' ->
  ledger_good (ac_ledger s) (ac_ledger s') /\
  forall node, ia_evicted (lookup_account (ac_ledger s) node) = true -> node ∉ ac_admitted s -> node ∉ ac_admitted s'.
Proof.
  intros H. assert (forall R (r : result (R * StablecoinLedger)), on_ledger s r = Ok s' ->
    (forall x l', r = Ok (x, l') -> ledger_good (ac_ledger s) l') -> ledger_good (ac_ledger s) (ac_ledger s') /\
    forall node, ia_evicted (lookup_account (ac_ledger s) node) = true -> node ∉ ac_admitted s -> node ∉ ac_admitted s') as Hon.
  { intros R [[x l']|e] E Hr; cbn in E; [|done]. injection E as <-. split; [by eapply Hr|done]. }
  destruct o; cbn [incentive_step]; intros E;
    try (apply (Hon _ _ E); intros x l'; clear E Hon; cbn [mbind result_bind]).
  - by apply deposit_fee_good.
  - destruct (fund_incentive_budget _ _) eqn:E; [|done]. intros [= _ <-]. by eapply fund_good.
  - destruct (post_bond _ _ _) eqn:E; [|done]. intros [= _ <-]. by eapply post_bond_good.
  - by apply customer_deposit_good.
  - by apply customer_debit_good.
  - intros E%Ok_inj. by eapply customer_refund_good.
  - by apply pay_good.
  - by apply slash_good.
  - intros E%Ok_inj. by eapply refund_bond_good.
  - intros E%Ok_inj. by eapply forfeit_good.
  - by apply compensate_good.
  - intros E. destruct (slash_failures_spec (ac_ledger s) node count H) as (r & l2 & E2 & G & _). congruence.
  - destruct (check_report r) as [[]|] eqn:Ec; [|done]. cbn. by apply accrue_good.
  - intros E. destruct (settle_spec (ac_ledger s) epoch H) as (_ & _ & l2 & E2 & G & _). cbv zeta in E2. congruence.
  - destruct (apply_spec s node proof bond H) as (d & s2 & E2 & G & Hd & Ha). rewrite E2 in E. injection E as <-. split; [exact G|].
    intros n He Hn. rewrite Ha. destruct (decide (d = ACCEPTED)) as [Hacc|]; [|done]. intros [->%elem_of_singleton|?]%elem_of_union; [|done].
    cbv zeta in Hd. rewrite He in Hd. congruence.
  - injection E as <-. pose proof (evict_spec s node reason evidence H) as Hs. destruct (evict _ _ _ _) as [c s2].
    destruct Hs as (G & _ & Ha & _). split; [exact G|]. cbn. intros n _ Hn. rewrite Ha. by intros [? _]%elem_of_difference.
Qed.

Lemma run_good (ops : list op) : forall s, ledger_inv (ac_ledger s) -> ledger_good (ac_ledger s) (ac_ledger (incentive_run verify_proof s ops)) /\
  forall node, ia_evicted (lookup_account (ac_ledger s) node) = true -> node ∉ ac_admitted s ->
    node ∉ ac_admitted (incentive_run verify_proof s ops).
Proof.
  induction ops as [|o ops IH]; intros s H; [split; [by apply ledger_good_refl|done]|].
  cbn [incentive_run fold_left]. destruct (incentive_step verify_proof s o) as [s1|e] eqn:E; [|by apply IH].
  destruct (step_good s o s1 H E) as [G Hn]. destruct (IH s1 (proj1 G)) as [G2 Hn2].
  split; [eapply ledger_good_trans; eassumption|]. intros node He Ha.
  apply Hn2; [by apply (proj2 (proj2 G) node)|by apply Hn].
Qed.
End StepsGood.

Lemma new_ledger_inv c : incentives_sound c -> ledger_inv (new_ledger c).
Proof. intros Hc. split; cbn; try done; constructor. Qed.

(** * Theorems *)
(** C29: The ledger is solvent after every sequence of operations (deposits,
    refunds, slashes, accruals, settlements, admissions, evictions), failed
    ones included, from the empty ledger of a configuration with non-negative
    shares and rates: what it holds is exactly what was deposited less what
    was withdrawn, no pool, bond, claim or customer balance is negative, and
    the operators have been paid no more than was withdrawn, hence no more
    than was ever deposited; and no settlement is refused.  Nothing mints. *)
Theorem ledger_solvent {Proof_ Evidence} (verify_proof : Proof_ -> bool) c (ops : list (incentive_op Proof_ Evidence)) :
  incentives_sound c ->
  let l := ac_ledger (incentive_run verify_proof {| ac_ledger := new_ledger c; ac_admitted := ∅ |} ops) in
  check_solvency l = true /\
  (0 <= sl_operator_pool_micro l /\ 0 <= sl_insurance_pool_micro l /\ 0 <= sl_treasury_micro l) /\
  (forall a, a ∈ accounts l -> 0 <= ia_bond_micro a /\ 0 <= ia_earned_claim_micro a) /\
  (forall customer, 0 <= customer_balance l customer) /\
  sumZ (map ia_paid_total_micro (accounts l)) <= sl_total_withdrawn l <= sl_total_deposited l /\
  forall epoch, is_ok (settle_epoch l epoch) = true.
Proof.
  intros Hc l. assert (ledger_inv l) as H by (apply run_good; cbn; by apply new_ledger_inv).
  pose proof H as [H1 H2 H3 H4 H5 H6 H7]. unfold check_solvency.
  assert (forall a, a ∈ accounts l -> 0 <= ia_bond_micro a /\ 0 <= ia_earned_claim_micro a) as Ha.
  { intros a (p & -> & Hp)%list_elem_of_fmap. by destruct (proj1 (Forall_forall _ _) H3 _ Hp). }
  assert (0 <= sumZ (map ia_bond_micro (accounts l))) by (apply sumZ_nonneg, Forall_forall; intros x (a & -> & Hx)%elem_of_map; by apply Ha).
  assert (0 <= sumZ (sl_customer_balances l).*2).
  { apply sumZ_nonneg, Forall_forall. intros x (p & -> & Hp)%list_elem_of_fmap. exact (proj1 (Forall_forall _ _) H5 _ Hp). }
  split; [by apply Z.eqb_eq|]. split; [done|]. split; [done|]. split; [intros cu; by apply balance_pos|].
  split; [unfold total_held_micro in H6; lia|]. intros epoch. by destruct (settle_spec l epoch H) as (_ & _ & l' & -> & _).
Qed.

(** A settlement is exact.  On a solvent ledger it succeeds, and with
    [budget] the smaller of the claims and the pool, it pays the claimants in
    their order [claim * budget / claims] each, which sums to at most the
    budget and misses it by less than one unit a claimant; the pool loses what
    was paid and nothing else, each claimant's claim becomes what was not
    paid and their paid total grows by the rest, no other account changes;
    when the pool covers the claims each is paid in full, nothing is carried
    and the snapshot is fully funded. *)
Theorem settle_exact l epoch : ledger_inv l ->
  let total := sumZ (map ia_earned_claim_micro (claimants l)) in
  let budget := Z.min total (sl_operator_pool_micro l) in
  exists snap l', settle_epoch l epoch = Ok (snap, l') /\
  ep_payouts snap = map (fun a => (ia_node_id a, ia_earned_claim_micro a * budget / total)) (claimants l) /\
  ep_total_paid_micro snap = sumZ (ep_payouts snap).*2 /\
  ep_total_paid_micro snap <= budget <= ep_total_paid_micro snap + Z.of_nat (length (claimants l)) /\
  ep_pool_after_micro snap = sl_operator_pool_micro l' /\
  sl_operator_pool_micro l' = sl_operator_pool_micro l - ep_total_paid_micro snap /\
  (total <= sl_operator_pool_micro l ->
     fully_funded snap = true /\ ep_carried_claims snap = [] /\
     ep_payouts snap = map (fun a => (ia_node_id a, ia_earned_claim_micro a)) (claimants l)) /\
  forall node, let a := lookup_account l node in let a' := lookup_account l' node in
    let paid := default 0 (dict_find (ep_payouts snap) node) in
    0 <= ia_earned_claim_micro a' /\ ia_earned_claim_micro a' = ia_earned_claim_micro a - paid /\
    ia_paid_total_micro a' = ia_paid_total_micro a + paid /\ ia_bond_micro a' = ia_bond_micro a.
Proof.
  intros H total budget. pose proof (settle_spec l epoch H) as Hs. cbv zeta in Hs. fold total in Hs. fold budget in Hs.
  destruct Hs as (Hpd & Hp0 & l' & E & G & Hpool & Hj). set (nodes := map ia_node_id (claimants l)) in *.
  assert (map (fun n => (n, share_of l total budget n)) nodes = map (fun a => (ia_node_id a, ia_earned_claim_micro a * budget / total)) (claimants l)) as Hpay.
  { unfold nodes. rewrite map_map. apply map_ext_in. intros a Hin%list_elem_of_In. unfold share_of. by rewrite (proj1 (claimant_lookup l a H Hin)). }
  eexists _, l'. split; [exact E|]. cbn [ep_payouts ep_total_paid_micro ep_pool_after_micro ep_carried_claims]. rewrite Hpay.
  split; [done|]. split.
  { rewrite <- Hpay. f_equal. symmetry. exact (map_map _ snd nodes). }
  split; [unfold nodes in Hpd; by rewrite length_map in Hpd|]. split; [done|]. split; [done|].
  assert (forall a, a ∈ claimants l -> lookup_account l (ia_node_id a) = a) as Hla by (intros a Hin; by apply claimant_lookup).
  split; [|intros n].
  - intros Hfull. assert (budget = total) as Eb by (unfold budget; lia). rewrite Eb in *.
    assert (forall a, a ∈ claimants l -> ia_earned_claim_micro a * total / total = ia_earned_claim_micro a) as Hd.
    { intros a Hin. apply Z.div_mul. intros E0. pose proof (proj2 (settle_total_pos l H) E0) as Hn. rewrite Hn in Hin. by apply not_elem_of_nil in Hin. }
    split; [|split].
    + unfold fully_funded. cbn. apply Z.eqb_eq. unfold nodes, share_of. rewrite (claims_map (fun c => c * total / total) l H).
      unfold total at 3. f_equal. apply map_ext_in. intros a Hin%list_elem_of_In. by apply Hd.
    + apply filter_nil. intros p (a & -> & Hin)%elem_of_map. cbn. unfold nodes in Hin. apply elem_of_map in Hin as (b & -> & Hin).
      unfold share_of. rewrite Hla, Hd, Z.sub_diag by done. done.
    + apply map_ext_in. intros a Hin%list_elem_of_In. by rewrite Hd.
  - cbv zeta. split; [apply (lookup_ok l' n (proj1 G))|]. rewrite <- Hpay, Hj.
    destruct (decide (n ∈ nodes)) as [Hin|Hin].
    + rewrite (dict_find_elem _ n (share_of l total budget n)); [cbn; split_and!; lia|change (NoDup (map fst (map (fun m => (m, share_of l total budget m)) nodes))); rewrite map_map, map_id; apply (claimants_NoDup l H)|].
      apply elem_of_map. by exists n.
    + destruct (dict_find _ _) eqn:Ef; [|cbn; split_and!; lia]. apply dict_find_Some in Ef.
      apply elem_of_map in Ef as (m & [= -> _] & Hm). done.
Qed.

Lemma add_claim_0 a : ia_add_claim a 0 = a.
Proof. destruct a. unfold ia_add_claim. cbn. by rewrite Z.add_0_r. Qed.

(** Pay is gated by proof.  On a solvent ledger a well-formed report is
    accrued without an exception: an evicted node or a report without audits
    earns 0, otherwise the claim grows by the metered work scaled by the pass
    ratio, rounded down, which is 0 when no audit passed, all of it when every
    audit did, and never more; no other claim moves.  Failures from the
    threshold on slash the bond by the tier of the failures counted so far,
    at most 30 %; below it the bond is untouched. *)
Theorem accrual_exact l r : ledger_inv l -> check_report r = Ok () ->
  let a := lookup_account l (mw_node_id r) in
  let metered := metered_reward (sl_config l) (mw_bytes_stored r) (mw_seconds_stored r) (mw_bytes_served r) in
  exists x slashed l', accrue_report l r = Ok (x, l') /\
  x = (if ia_evicted a || (mw_audits_total r =? 0) then 0 else metered * mw_audits_passed r / mw_audits_total r) /\
  0 <= x <= metered /\ (mw_audits_passed r = 0 -> x = 0) /\
  (ia_evicted a = false -> 0 < mw_audits_passed r -> mw_audits_passed r = mw_audits_total r -> x = metered) /\
  0 <= 10 * slashed <= 3 * ia_bond_micro a /\
  slashed = (if (ic_slash_failure_threshold (sl_config l) <=? audit_failures r) && (0 <? audit_failures r)
    then ia_bond_micro a * SLASHING_RATES (tier_for_offense_count (ia_audit_offense_count a + audit_failures r)) / 10000 else 0) /\
  forall node, let b := lookup_account l node in let b' := lookup_account l' node in
    ia_earned_claim_micro b' = ia_earned_claim_micro b + (if decide (mw_node_id r = node) then x else 0) /\
    ia_bond_micro b' = ia_bond_micro b - (if decide (mw_node_id r = node) then slashed else 0).
Proof.
  intros H Hr a metered. unfold check_report in Hr.
  destruct (Z.ltb_spec (Z.min (Z.min (Z.min (Z.min (mw_bytes_stored r) (mw_seconds_stored r))
    (mw_bytes_served r)) (mw_audits_passed r)) (mw_audits_total r)) 0); [done|].
  destruct (Z.ltb_spec (mw_audits_total r) (mw_audits_passed r)); [done|]. clear Hr.
  assert (0 <= metered) as Hm by (apply metered_pos; [apply H|lia..]). assert (account_ok (mw_node_id r) a) as [? ? ? ? ? ?] by (by apply lookup_ok).
  unfold accrue_report. with_account (mw_node_id r). fold a metered. cbv zeta. set (x := if ia_evicted a || (mw_audits_total r =? 0) then 0 else _).
  assert (0 <= x <= metered /\ (mw_audits_passed r = 0 -> x = 0) /\
    (ia_evicted a = false -> 0 < mw_audits_passed r -> mw_audits_passed r = mw_audits_total r -> x = metered)) as (Hx & Hx0 & Hx1).
  { subst x. destruct (ia_evicted a), (Z.eqb_spec (mw_audits_total r) 0); cbn [orb]; try (split_and!; lia || done).
    split; [split; [apply Z.div_pos; nia|apply Z.div_le_upper_bound; nia]|]. split; [by intros ->; rewrite Z.mul_0_r|].
    intros _ _ ->. by apply Z.div_mul. }
  assert (exists l2, (if ia_evicted a || (mw_audits_total r =? 0) then (0, l1)
      else (metered * mw_audits_passed r / mw_audits_total r, put_account l1 (mw_node_id r) (ia_add_claim a (metered * mw_audits_passed r / mw_audits_total r))))
      = (x, l2) /\ ledger_good l1 l2 /\ forall node, lookup_account l2 node =
        if decide (mw_node_id r = node) then ia_add_claim (lookup_account l node) x else lookup_account l node) as (l2 & -> & G2 & Hl2).
  { subst x. destruct (ia_evicted a) eqn:He; [|destruct (Z.eqb_spec (mw_audits_total r) 0)]; cbn [orb] in *; eexists; (split; [reflexivity|]).
    1, 2: split; [by apply ledger_good_refl|intros node; rewrite Hl; destruct (decide _); [by rewrite add_claim_0|done]].
    split.
    { generalize (claim_good l1 (mw_node_id r) (metered * mw_audits_passed r / mw_audits_total r) I). rewrite Hl. fold a.
      intros Hcg. apply Hcg; [apply Z.div_pos; nia|done]. }
    intros node. rewrite lookup_put, Hl. by destruct (decide _) as [<-|]. }
  destruct (Z.leb_spec (ic_slash_failure_threshold (sl_config l)) (audit_failures r)); cbn [andb].
  - destruct (slash_failures_spec l2 (mw_node_id r) (audit_failures r) (proj1 G2)) as (y & l3 & -> & G3 & Hy & Hj). cbn [mbind result_bind].
    rewrite Hl2, decide_True in Hy by done. cbn [ia_bond_micro ia_audit_offense_count ia_add_claim] in Hy. fold a in Hy.
    exists x, y, l3. split; [done|]. do 4 (split; [done|]). split; [|split; [done|]].
    + destruct (0 <? audit_failures r); [|lia]. pose proof (rate_bounds (tier_for_offense_count (ia_audit_offense_count a + audit_failures r))).
      split; [|pose proof (Z.mul_div_le (ia_bond_micro a * SLASHING_RATES (tier_for_offense_count (ia_audit_offense_count a + audit_failures r))) 10000); nia].
      rewrite Hy. apply Z.mul_nonneg_nonneg; [lia|]. apply Z.div_pos; nia.
    + intros node. cbv zeta. destruct (Hj node) as [-> ->]. rewrite Hl2. destruct (decide _); cbn; split; lia.
  - exists x, 0, l2. split; [done|]. do 4 (split; [done|]). split; [lia|]. split; [done|]. intros node. cbv zeta. rewrite Hl2.
    destruct (decide _); cbn; split; lia.
Qed.

(** An eviction is final.  It empties the bond (to insurance for a
    forfeiting reason with evidence, back to the operator otherwise, exactly
    one of the two); and after any operations that follow the node is still
    evicted and not admitted, every application of it is rejected as
    evicted, its work is metered at 0 and its outstanding claim has not grown. *)
Theorem eviction_final {Proof_ Evidence} (verify_proof : Proof_ -> bool) s node reason (evidence : option Evidence)
    (ops : list (incentive_op Proof_ Evidence)) : ledger_inv (ac_ledger s) ->
  let '(c, s1) := evict s node reason evidence in
  let s2 := incentive_run verify_proof s1 ops in
  let bond := ia_bond_micro (lookup_account (ac_ledger s) node) in
  (ec_bond_refunded_micro c, ec_bond_forfeited_micro c) =
    (if bool_decide (reason ∈ FORFEITING_REASONS) && bool_decide (is_Some evidence) then (0, bond) else (bond, 0)) /\
  ia_bond_micro (lookup_account (ac_ledger s1) node) = 0 /\
  is_admitted s2 node = false /\
  ia_earned_claim_micro (lookup_account (ac_ledger s2) node) <= ia_earned_claim_micro (lookup_account (ac_ledger s1) node) /\
  (forall proof amount, exists s3, apply_detailed verify_proof s2 node proof amount = Ok (REJECTED_EVICTED, s3) /\ is_admitted s3 node = false) /\
  (forall b t v x l', compensate (ac_ledger s2) node b t v = Ok (x, l') -> x = 0).
Proof.
  intros H. pose proof (evict_spec s node reason evidence H) as Hs. destruct (evict _ _ _ _) as [c s1].
  destruct Hs as (G1 & He1 & Ha1 & Hb1 & Hc). cbv zeta.
  destruct (run_good verify_proof ops s1 (proj1 G1)) as [G2 Hna]. set (s2 := incentive_run _ _ _) in *.
  destruct (proj1 (proj2 (proj2 G2) node) He1) as [He2 Hcl]. specialize (Hna node He1 ltac:(rewrite Ha1; set_solver)).
  split; [done|]. split; [done|]. split; [by apply bool_decide_eq_false|]. split; [done|]. split.
  - intros proof amount. destruct (apply_spec verify_proof s2 node proof amount (proj1 G2)) as (d & s3 & -> & _ & Hd & Ha).
    cbv zeta in Hd. rewrite He2 in Hd. subst d. rewrite decide_False in Ha by done. exists s3. split; [done|].
    apply bool_decide_eq_false. by rewrite Ha.
  - intros b t v x l'. unfold compensate. destruct (_ <? 0); [done|].
    destruct (account_spec (ac_ledger s2) node (proj1 G2)) as (l1 & -> & _). rewrite He2. by intros [= <- _].
Qed.

(** Renewing is never dearer than committing for longer, and cheaper by less
    than one unit: the base fee is charged once. *)
Theorem renewal_consistent p p' entity_id size repl ttl more q1 q2 q3 :
  record_commitment p entity_id size repl = Ok p' ->
  price p size repl ttl = Ok q1 -> renew p' entity_id more = Ok q2 -> price p size repl (ttl + more) = Ok q3 ->
  q1 + q2 <= q3 <= q1 + q2 + 1.
Proof.
  unfold record_commitment, price, renew. intros E1 E2 E3 E4.
  destruct ((size <? 0) || (repl <? 1)) eqn:Eg; [done|]. injection E1 as <-. cbn [cp_commitments cp_config] in E3. cbn [orb] in *.
  rewrite dict_find_set, decide_True in E3 by done. destruct (more <? 0); [done|]. injection E3 as <-.
  destruct (ttl <? 0); [done|]. injection E2 as <-.
  destruct (ttl + more <? 0); [done|]. injection E4 as <-.
  unfold storage_rate_micro. set (d := GIB * SECONDS_PER_MONTH). assert (0 < d) as Hd by reflexivity.
  set (u := ic_price_per_gib_month_micro (cp_config p)). replace (size * repl * (ttl + more) * u) with (size * repl * ttl * u + size * repl * more * u) by ring.
  pose proof (Z.div_mod (size * repl * ttl * u) d ltac:(lia)). pose proof (Z.mod_pos_bound (size * repl * ttl * u) d Hd).
  pose proof (Z.div_mod (size * repl * more * u) d ltac:(lia)). pose proof (Z.mod_pos_bound (size * repl * more * u) d Hd).
  pose proof (Z.div_mod (size * repl * ttl * u + size * repl * more * u) d ltac:(lia)). pose proof (Z.mod_pos_bound (size * repl * ttl * u + size * repl * more * u) d Hd).
  nia.
Qed.

(** * Deviations *)
Definition demo_report (node : pystr) (passed total : Z) : MeteredWorkReport :=
  {| mw_node_id := node; mw_epoch := 7; mw_bytes_stored := 10 * GIB; mw_seconds_stored := SECONDS_PER_MONTH; mw_bytes_served := 5 * GIB;
     mw_audits_passed := passed; mw_audits_total := total |}.

(** The epoch of a report is never looked at, so the same report can be
    accrued again; and [compensate] accrues the same work with no audit at
    all, which the module's second design rule excludes. *)
Example report_replayed : exists l1 l2 l3,
  accrue_report (new_ledger default_incentives) (demo_report (lit "n") 4 4) = Ok (250000, l1) /\
  accrue_report l1 (demo_report (lit "n") 4 4) = Ok (250000, l2) /\
  ia_earned_claim_micro (lookup_account l2 (lit "n")) = 500000 /\
  compensate l2 (lit "n") (10 * GIB) SECONDS_PER_MONTH (5 * GIB) = Ok (250000, l3).
Proof. eexists _, _, _. by split_and!. Qed.

(** The configuration check bounds the sum of the shares and not each: with
    a negative share a deposit leaves a pool negative, while the solvency
    check still answers that all is well. *)
Example negative_share_accepted :
  let c := {| ic_price_per_gib_month_micro := 20000; ic_price_per_gib_served_micro := 10000; ic_base_commit_fee_micro := 1000;
              ic_fee_operator_share_bps := 12000; ic_fee_insurance_share_bps := -3000; ic_fee_treasury_share_bps := 1000;
              ic_min_bond_micro := 0; ic_slash_failure_threshold := 2 |} in
  check_incentives c = Ok () /\
  exists r l, deposit_fee (new_ledger c) 10000 = Ok (r, l) /\ sl_insurance_pool_micro l = -3000 /\ check_solvency l = true.
Proof. split; [done|]. eexists _, _. by split_and!. Qed.

(** * A small ledger *)
Notation demo_op := (incentive_op () ()).
Definition demo_ops : list demo_op :=
  [Apply (lit "a") () (2000 * MICRO_PER_STABLE); Apply (lit "b") () (1500 * MICRO_PER_STABLE); PostBond (lit "x") (-1);
   CustomerDeposit (lit "alice") 100000; CustomerDebit (lit "alice") 90001; CustomerDebit (lit "alice") 90001;
   AccrueReport (demo_report (lit "a") 4 4); AccrueReport (demo_report (lit "b") 1 3)].
Definition demo_state : StableAdmissionControl :=
  incentive_run (fun _ => true) {| ac_ledger := new_ledger default_incentives; ac_admitted := ∅ |} demo_ops.

Lemma default_incentives_sound : incentives_sound default_incentives.
Proof. unfold incentives_sound. cbn. split_and!; try lia. done. Qed.

Lemma demo_state_inv : ledger_inv (ac_ledger demo_state).
Proof. apply run_good. cbn. apply new_ledger_inv, default_incentives_sound. Qed.

Lemma ledger_solvent_witness : check_solvency (ac_ledger demo_state) = true /\ sl_operator_pool_micro (ac_ledger demo_state) = 72001.
Proof.
  split; [|vm_compute; reflexivity].
  exact (proj1 (ledger_solvent (Evidence := ()) (fun _ : () => true) default_incentives demo_ops default_incentives_sound)).
Defined.

Lemma settle_exact_witness : exists snap l', settle_epoch (ac_ledger demo_state) 7 = Ok (snap, l') /\
  ep_payouts snap = [(lit "a", 54000); (lit "b", 18000)] /\ sl_operator_pool_micro l' = 1.
Proof.
  destruct (settle_exact (ac_ledger demo_state) 7 demo_state_inv) as (snap & l' & E & Hp & Ht & _ & _ & Hpool & _).
  exists snap, l'. split; [exact E|]. rewrite Hpool, Ht, Hp. vm_compute. split; reflexivity.
Defined.

Lemma accrual_exact_witness : exists slashed l',
  accrue_report (ac_ledger demo_state) (demo_report (lit "a") 1 3) = Ok (83333, l') /\ slashed = 100 * MICRO_PER_STABLE /\
  ia_bond_micro (lookup_account l' (lit "a")) = 1900 * MICRO_PER_STABLE.
Proof.
  destruct (accrual_exact (ac_ledger demo_state) (demo_report (lit "a") 1 3) demo_state_inv eq_refl) as (x & slashed & l' & E & Hx & _ & _ & _ & _ & Hs & Hj).
  assert (x = 83333) as -> by (rewrite Hx; vm_compute; reflexivity).
  assert (slashed = 100 * MICRO_PER_STABLE) as Hs' by (rewrite Hs; vm_compute; reflexivity).
  exists slashed, l'. split; [exact E|]. split; [exact Hs'|]. rewrite (proj2 (Hj (lit "a"))), Hs'. vm_compute. reflexivity.
Defined.

Lemma eviction_final_witness :
  is_admitted demo_state (lit "b") = true /\
  let s1 := (evict demo_state (lit "b") (lit "fraud") (Some ())).2 in
  is_admitted (incentive_run (fun _ => true) s1 [Apply (lit "b") () (5000 * MICRO_PER_STABLE)] (Evidence := ())) (lit "b") = false.
Proof.
  split; [vm_compute; reflexivity|].
  pose proof (eviction_final (fun _ : () => true) demo_state (lit "b") (lit "fraud") (Some ()) [Apply (lit "b") () (5000 * MICRO_PER_STABLE)] demo_state_inv) as H.
  destruct (evict _ _ _ _) as [c s1]. apply H.
Defined.

Lemma renewal_consistent_witness :
  let p := new_pricing default_incentives in
  exists q1 q2 q3, price p (3 * GIB) 3 1000 = Ok q1 /\ price p (3 * GIB) 3 3000 = Ok q3 /\ q1 + q2 <= q3 <= q1 + q2 + 1 /\ q2 = 138.
Proof.
  intros p. exists 1069, 138, 1208. split; [vm_compute; reflexivity|]. split; [vm_compute; reflexivity|]. split; [|reflexivity].
  destruct (record_commitment p (lit "e") (3 * GIB) 3) as [p'|] eqn:E; [|vm_compute in E; discriminate].
  apply (renewal_consistent p p' (lit "e") (3 * GIB) 3 1000 2000); [exact E|vm_compute; reflexivity| |vm_compute; reflexivity].
  vm_compute in E. injection E as <-. vm_compute. reflexivity.
Defined.
