(* ===== verification/Vdf.v ===== *)
(** Verifiable delay functions for audits (src/src/ltp/enforcement.py,
    [VDFVerifier] and the number theory below it): the hash chain, the
    Wesolowski construction over a derived modulus, Miller-Rabin and the
    search for the next probable prime.

    The search is the one loop without a bound; it takes fuel here, [None]
    meaning that it ran out, and [next_prime_found] gives enough of it for
    every input.  Clocks and the audit nonce are arguments. *)

From S2P Require Import Prelude Float64 Sha3 Hashing ScalarField.
From Stdlib Require Import Znumtheory Zmod.

(** * Probable primes *)
(** [while d % 2 == 0: r += 1; d //= 2] *)
Fixpoint split_twos (d : positive) : Z * Z :=
  match d with
  | xO d => let '(r, d) := split_twos d in (r + 1, d)
  | _ => (0, Zpos d)
  end.

(** [for _ in range(r - 1): ... break / else: return False] *)
Fixpoint mr_squarings (k : nat) (x n : Z) : bool :=
  match k with
  | O => false
  | S k => let x := py_pow x 2 n in if x =? n - 1 then true else mr_squarings k x n
  end.

Definition mr_round (n r d a : Z) : bool :=
  if n <=? a then true
  else
    let x := py_pow a d n in
    if (x =? 1) || (x =? n - 1) then true else mr_squarings (Z.to_nat (r - 1)) x n.

(** [for a in witnesses], returning [False] at the first that fails *)
Fixpoint mr_rounds (n r d : Z) (witnesses : list Z) : bool :=
  match witnesses with
  | [] => true
  | a :: witnesses => if mr_round n r d a then mr_rounds n r d witnesses else false
  end.

Definition MR_WITNESSES : list Z := take 40 [2; 3; 5; 7; 11; 13; 17; 19; 23; 29].

Definition is_probable_prime (n : Z) : bool :=
  if n <? 2 then false
  else if n <? 4 then true
  else if n mod 2 =? 0 then false
  else let '(r, d) := split_twos (Z.to_pos (n - 1)) in mr_rounds n r d MR_WITNESSES.

(** [while not _is_probable_prime(n): n += 2] *)
Fixpoint search_prime (fuel : nat) (n : Z) : option Z :=
  if is_probable_prime n then Some n
  else match fuel with O => None | S fuel => search_prime fuel (n + 2) end.

Definition next_probable_prime (fuel : nat) (n : Z) : option Z :=
  if n <? 2 then Some 2
  else search_prime fuel (if n mod 2 =? 0 then n + 1 else n).

(** * Configuration, challenges, results *)
Inductive VDFConstruction : Type := PIETRZAK | WESOLOWSKI | HASH_CHAIN | CLASS_GROUP.
#[export] Instance VDFConstruction_eq_dec : EqDecision VDFConstruction.
Proof. solve_decision. Defined.

Record VDFConfig : Type := {
  vdf_enabled : bool;
  vdf_construction : VDFConstruction;
  vdf_difficulty : Z;
  vdf_group_bits : Z
}.
Definition default_vdf : VDFConfig :=
  {| vdf_enabled := false; vdf_construction := HASH_CHAIN; vdf_difficulty := 1000; vdf_group_bits := 2048 |}.

Record VDFChallenge : Type := {
  vc_challenge_id : pystr;
  vc_input_seed : bytes;
  vc_difficulty : Z;
  vc_shard_entity_id : pystr;
  vc_shard_index : Z;
  vc_nonce : bytes
}.

Record VDFResult : Type := {
  vr_challenge_id : pystr;
  vr_vdf_output : bytes;
  vr_vdf_proof : bytes;
  vr_shard_proof : pystr;
  vr_computation_time_ms : float64
}.

(** * The proof *)
(** One step of the long division of [2^T] by [l], the quotient's bits driving
    the exponentiation. *)
Definition wesolowski_step (x l N : Z) (st : Z * Z) : Z * Z :=
  let '(pi, remainder) := st in
  let pi := py_pow pi 2 N in
  let new_remainder := remainder * 2 in
  if l <=? new_remainder then ((pi * x) mod N, new_remainder - l) else (pi, new_remainder).

Definition compute_wesolowski_proof (x T l N : Z) : Z :=
  (Nat.iter (Z.to_nat T) (wesolowski_step x l N) (1, 1)).1.

Section VDF.
Context (env : hash_env) (cfg : VDFConfig).
Notation sha := (spec_hash_bytes (env_lib env)).

(** ** The modulus *)
Definition prime_candidate (half_bits : Z) (h : bytes) : Z :=
  Z.lor (be_decode (concat (replicate (Z.to_nat (half_bits / 256 + 1)) h)) mod 2 ^ half_bits)
        (Z.lor 1 (Z.shiftl 1 (half_bits - 1))).

(** [1 << (half_bits - 1)] raises for a negative shift. *)
Definition derive_factors (fuel : nat) (seed : bytes) (bits : Z) : option (result (Z * Z)) :=
  let h1 := sha (seed ++ lit "vdf-prime-p") in
  let h2 := sha (seed ++ lit "vdf-prime-q") in
  let half_bits := bits / 2 in
  if half_bits <? 1 then Some (Err (ValueError "negative shift count"))
  else
    match next_probable_prime fuel (prime_candidate half_bits h1), next_probable_prime fuel (prime_candidate half_bits h2) with
    | Some p, Some q => Some (Ok (p, q))
    | _, _ => None
    end.

Definition derive_modulus (fuel : nat) (seed : bytes) (bits : Z) : option (result Z) :=
  match derive_factors fuel seed bits with
  | Some (Ok (p, q)) => Some (Ok (p * q))
  | Some (Err e) => Some (Err e)
  | None => None
  end.

Definition fiat_shamir_input (x y N : Z) : result bytes :=
  bx ← int_to_bytes 256 x; by_ ← int_to_bytes 256 y; bn ← int_to_bytes 256 N;
  Ok (bx ++ by_ ++ bn).

Definition fiat_shamir_prime (fuel : nat) (x y N : Z) : option (result Z) :=
  match fiat_shamir_input x y N with
  | Err e => Some (Err e)
  | Ok input =>
      let h := sha input in
      match next_probable_prime fuel (Z.lor (be_decode (take 16 h)) 1) with
      | Some l => Some (Ok l)
      | None => None
      end
  end.

(** ** Challenges *)
Definition vdf_generate_challenge (nonce : bytes) (entity_id : pystr) (shard_index epoch : Z) : result VDFChallenge :=
  let input_seed := internal_hash_bytes env (entity_id ++ lit ":" ++ str_int shard_index ++ lit ":" ++ str_int epoch ++ lit ":vdf" ++ nonce) in
  d ← struct_pack 4 (vdf_difficulty cfg);
  challenge_id ← canonical_hash env (input_seed ++ d);
  Ok {| vc_challenge_id := challenge_id; vc_input_seed := input_seed; vc_difficulty := vdf_difficulty cfg;
        vc_shard_entity_id := entity_id; vc_shard_index := shard_index; vc_nonce := nonce |}.

(** ** Hash chain *)
(** [for i in range(T)], from [i] on, with [k] iterations left. *)
Fixpoint hash_chain (k : nat) (i : Z) (current : bytes) (checkpoints : list bytes) : bytes * list bytes :=
  match k with
  | O => (current, checkpoints)
  | S k =>
      let current := sha current in
      hash_chain k (i + 1) current (if Z.land (i + 1) i =? 0 then checkpoints ++ [current] else checkpoints)
  end.

Definition evaluate_hash_chain (challenge : VDFChallenge) (computation_time_ms : float64) : VDFResult :=
  let '(current, checkpoints) := hash_chain (Z.to_nat (vc_difficulty challenge)) 0 (vc_input_seed challenge) [vc_input_seed challenge] in
  let checkpoints := checkpoints ++ [current] in
  {| vr_challenge_id := vc_challenge_id challenge; vr_vdf_output := current;
     vr_vdf_proof := sha (lit "vdf-hash-chain-proof" ++ concat checkpoints);
     vr_shard_proof := []; vr_computation_time_ms := computation_time_ms |}.

Definition verify_hash_chain (challenge : VDFChallenge) (r : VDFResult) : bool :=
  bool_decide (vr_vdf_output r = Nat.iter (Z.to_nat (vc_difficulty challenge)) sha (vc_input_seed challenge)).

(** ** Wesolowski *)
Definition group_element (seed : bytes) (N : Z) : Z :=
  let x := be_decode seed mod N in if x <? 2 then 2 else x.

Definition evaluate_wesolowski (fuel : nat) (challenge : VDFChallenge) (computation_time_ms : float64) : option (result VDFResult) :=
  let T := vc_difficulty challenge in
  match derive_modulus fuel (vc_input_seed challenge) (vdf_group_bits cfg) with
  | None => None
  | Some (Err e) => Some (Err e)
  | Some (Ok N) =>
      let x := group_element (vc_input_seed challenge) N in
      let y := Nat.iter (Z.to_nat T) (fun y => py_pow y 2 N) x in
      match fiat_shamir_prime fuel x y N with
      | None => None
      | Some (Err e) => Some (Err e)
      | Some (Ok l) =>
          let pi := compute_wesolowski_proof x T l N in
          Some (out ← int_to_bytes 256 y;
                prf ← int_to_bytes 256 pi;
                Ok {| vr_challenge_id := vc_challenge_id challenge; vr_vdf_output := out; vr_vdf_proof := prf;
                      vr_shard_proof := []; vr_computation_time_ms := computation_time_ms |})
      end
  end.

Definition verify_wesolowski (fuel : nat) (challenge : VDFChallenge) (r : VDFResult) : option (result bool) :=
  let T := vc_difficulty challenge in
  match derive_modulus fuel (vc_input_seed challenge) (vdf_group_bits cfg) with
  | None => None
  | Some (Err e) => Some (Err e)
  | Some (Ok N) =>
      let x := group_element (vc_input_seed challenge) N in
      let y := be_decode (vr_vdf_output r) in
      let pi := be_decode (vr_vdf_proof r) in
      match fiat_shamir_prime fuel x y N with
      | None => None
      | Some (Err e) => Some (Err e)
      | Some (Ok l) =>
          let rem := py_pow 2 T l in
          Some (Ok ((py_pow pi l N * py_pow x rem N) mod N =? y mod N))
      end
  end.

(** ** [VDFVerifier.evaluate] and [verify] *)
Definition vdf_evaluate (fuel : nat) (challenge : VDFChallenge) (computation_time_ms : float64) : option (result VDFResult) :=
  if bool_decide (vdf_construction cfg = HASH_CHAIN) then Some (Ok (evaluate_hash_chain challenge computation_time_ms))
  else evaluate_wesolowski fuel challenge computation_time_ms.

Definition vdf_verify (fuel : nat) (challenge : VDFChallenge) (r : VDFResult) : option (result bool) :=
  if negb (bool_decide (vr_challenge_id r = vc_challenge_id challenge)) then Some (Ok false)
  else if bool_decide (vdf_construction cfg = HASH_CHAIN) then Some (Ok (verify_hash_chain challenge r))
  else verify_wesolowski fuel challenge r.
End VDF.

(** * Miller-Rabin accepts every prime *)
Lemma split_twos_spec d : let '(r, m) := split_twos d in 0 <= r /\ 0 < m /\ Zpos d = 2 ^ r * m /\ m mod 2 = 1 /\ (Z.even (Zpos d) = true -> 1 <= r).
Proof.
  induction d as [d IH|d IH|]; cbn [split_twos].
  - rewrite Pos2Z.inj_xI. split_and!; try done; try lia. rewrite Z.add_comm, Z.mul_comm, Z_mod_plus_full. done.
  - destruct (split_twos d) as [r m]. destruct IH as (H1 & H2 & H3 & H4 & _).
    rewrite Pos2Z.inj_xO, H3, Z.pow_add_r by lia. split_and!; try done; lia.
  - split_and!; done.
Qed.

(** The square roots of one modulo a prime. *)
Lemma sqrt_one n x : Z.prime n -> (x * x) mod n = 1 -> 0 <= x < n -> x = 1 \/ x = n - 1.
Proof.
  intros Hn Hx Hr. pose proof (Z.prime_ge_2 n Hn).
  assert (n | (x - 1) * (x + 1)) as Hd.
  { replace ((x - 1) * (x + 1)) with (x * x - 1) by ring. apply Z.mod_divide; [lia|].
    rewrite Zminus_mod, Hx, Z.mod_1_l by lia. by rewrite Z.sub_diag, Z.mod_0_l by lia. }
  apply prime_alt in Hn. apply (prime_mult n Hn) in Hd as [[k Hk]|[k Hk]].
  - left. assert (k = 0) by nia. lia.
  - right. assert (k = 1) by nia. lia.
Qed.

Lemma py_pow_2 x n : 0 < n -> py_pow x 2 n = (x * x) mod n.
Proof. intros Hn. rewrite py_pow_spec by lia. by rewrite Z.pow_2_r. Qed.

(** If squaring [k] times reaches one, it passes through minus one. *)
Lemma squarings_reach n k : Z.prime n -> forall x, 0 <= x < n -> x <> 1 -> x <> n - 1 ->
  Nat.iter (S k) (fun x => (x * x) mod n) x = 1 -> mr_squarings k x n = true.
Proof.
  intros Hn. pose proof (Z.prime_ge_2 n Hn). induction k as [|k IH]; intros x Hr H1 H2 Hk.
  - cbn in Hk. apply (sqrt_one n x Hn) in Hk; [|done]. lia.
  - cbn [mr_squarings]. rewrite py_pow_2 by lia. destruct (Z.eqb_spec ((x * x) mod n) (n - 1)) as [|Hne]; [done|].
    apply IH; [apply Z.mod_pos_bound; lia| |done|by rewrite Nat.iter_succ_r in Hk].
    intros E. apply (sqrt_one n x Hn) in E; [|done]. lia.
Qed.

Lemma iter_square n k x : 0 < n -> 0 <= x < n -> Nat.iter k (fun x => (x * x) mod n) x = x ^ (2 ^ Z.of_nat k) mod n.
Proof.
  intros Hn Hx. induction k as [|k IH]; [cbn; rewrite Z.pow_1_r; by rewrite Z.mod_small|].
  rewrite Nat.iter_succ, IH, <- Zmult_mod, <- Z.pow_add_r, Nat2Z.inj_succ, Z.pow_succ_r, Z.add_diag by lia. done.
Qed.

Lemma mr_round_prime n r d a : Z.prime n -> 1 <= r -> 0 < d -> n - 1 = 2 ^ r * d -> 0 < a -> mr_round n r d a = true.
Proof.
  intros Hn Hr Hd E Ha. pose proof (Z.prime_ge_2 n Hn). unfold mr_round. destruct (Z.leb_spec n a); [done|].
  destruct (Z.eqb_spec (py_pow a d n) 1); [done|]. destruct (Z.eqb_spec (py_pow a d n) (n - 1)); [done|]. cbn [orb].
  rewrite py_pow_spec in * by lia. assert (0 <= a ^ d mod n < n) as Hx by (apply Z.mod_pos_bound; lia).
  apply squarings_reach; [done..|]. rewrite iter_square by lia.
  replace (Z.of_nat (S (Z.to_nat (r - 1)))) with r by lia.
  rewrite Z.mod_pow_l, <- Z.pow_mul_r, Z.mul_comm, <- E by lia.
  apply ZmodInv.Z.fermat_nz; [done|]. rewrite Z.mod_small; lia.
Qed.

Lemma prime_accepted n : Z.prime n -> is_probable_prime n = true.
Proof.
  intros Hn. pose proof (Z.prime_ge_2 n Hn). unfold is_probable_prime. destruct (Z.ltb_spec n 2); [lia|]. destruct (Z.ltb_spec n 4); [done|].
  destruct (Z.eqb_spec (n mod 2) 0) as [E|Hodd].
  { apply Z.mod_divide in E; [|lia]. apply prime_alt in Hn. apply prime_divisors in E; [lia|done]. }
  pose proof (split_twos_spec (Z.to_pos (n - 1))) as Hs. destruct (split_twos _) as [r d]. rewrite Z2Pos.id in Hs by lia.
  destruct Hs as (_ & Hd & E & _ & Hr).
  assert (1 <= r) as Hr1.
  { apply Hr. rewrite Z.even_sub, Zeven_mod. change (Z.even 1) with false. pose proof (Z.mod_pos_bound n 2). unfold Zeq_bool.
    replace (n mod 2) with 1 by lia. done. }
  assert (Forall (fun a => 0 < a) MR_WITNESSES) as Hw by (repeat constructor).
  induction Hw as [|a ws Ha _ IH]; [done|]. cbn [mr_rounds]. by rewrite mr_round_prime.
Qed.

(** * The search finds *)
Definition product_to (n : nat) : Z := fold_right Z.mul 1 (map Z.of_nat (seq 1 n)).

Lemma product_to_divides n p : 1 <= p <= Z.of_nat n -> (p | product_to n) /\ 0 < product_to n.
Proof.
  intros Hp. unfold product_to. assert (In (Z.to_nat p) (seq 1 n)) as Hin by (apply in_seq; lia).
  split.
  - induction (seq 1 n) as [|k ks IH]; [done|]. cbn. destruct Hin as [->|Hin].
    + rewrite Z2Nat.id by lia. apply Z.divide_factor_l.
    + apply Z.divide_mul_r. by apply IH.
  - assert (forall ks, Forall (fun k => (0 < k)%nat) ks -> 0 < fold_right Z.mul 1 (map Z.of_nat ks)) as H
      by (induction 1; cbn; lia).
    apply H, Forall_forall. intros k Hk%list_elem_of_In%in_seq. lia.
Qed.

(** Euclid: above every bound there is a prime. *)
Lemma prime_above n : exists p, Z.prime p /\ n < p.
Proof.
  destruct (decide (n < 2)) as [Hn|Hn]; [exists 2; split; [apply prime_alt, prime_2|lia]|].
  pose proof (product_to_divides (Z.to_nat n) 1 ltac:(lia)) as [_ Hpos].
  destruct (prime_divisor (product_to (Z.to_nat n) + 1) ltac:(lia)) as (p & Hp & Hd).
  exists p. split; [done|]. pose proof (Z.prime_ge_2 p Hp). destruct (decide (n < p)) as [?|Hle]; [done|]. exfalso.
  pose proof (product_to_divides (Z.to_nat n) p ltac:(lia)) as [Hd' _].
  assert (p | 1) as H1 by (replace 1 with (product_to (Z.to_nat n) + 1 - product_to (Z.to_nat n)) by ring; by apply Z.divide_sub_r).
  apply Z.divide_1_r_nonneg in H1; lia.
Qed.

(** What a search that stops has found: the first odd number that passes. *)
Lemma search_prime_spec fuel n p : search_prime fuel n = Some p ->
  is_probable_prime p = true /\ exists k, 0 <= k <= Z.of_nat fuel /\ p = n + 2 * k /\ forall j, 0 <= j < k -> is_probable_prime (n + 2 * j) = false.
Proof.
  revert n; induction fuel as [|fuel IH]; intros n; cbn [search_prime]; destruct (is_probable_prime n) eqn:E; try done.
  1, 2: intros [= <-]; split; [done|]; exists 0; split_and!; lia.
  intros (Hp & k & Hk & -> & Hmin)%IH. split; [done|]. exists (k + 1). split; [lia|]. split; [lia|]. intros j Hj.
  destruct (decide (j = 0)) as [->|]; [by rewrite Z.mul_0_r, Z.add_0_r|]. replace (n + 2 * j) with (n + 2 + 2 * (j - 1)) by lia. apply Hmin. lia.
Qed.

Lemma search_prime_fuel fuel fuel' n p : (fuel <= fuel')%nat -> search_prime fuel n = Some p -> search_prime fuel' n = Some p.
Proof.
  revert fuel' n; induction fuel as [|fuel IH]; intros fuel' n Hf; destruct fuel' as [|fuel']; cbn [search_prime];
    destruct (is_probable_prime n); try done; try lia. apply IH. lia.
Qed.

Lemma search_prime_stops n k : is_probable_prime (n + 2 * Z.of_nat k) = true -> exists p, search_prime k n = Some p.
Proof.
  revert n; induction k as [|k IH]; intros n H; cbn [search_prime].
  - rewrite Z.add_0_r in H. rewrite H. by eexists.
  - destruct (is_probable_prime n); [by eexists|]. apply IH. by replace (n + 2 + 2 * Z.of_nat k) with (n + 2 * Z.of_nat (S k)) by lia.
Qed.

(** The search for a probable prime ends.  For every integer some amount
    of iterations is enough, and then any larger amount gives the same answer:
    a number at or above the input that passes the test, 2 for inputs below
    2, and no prime lies between the input and the answer (Miller-Rabin with
    the ten fixed witnesses never rejects a prime). *)
Theorem next_prime_found n : exists fuel p, 
  (forall fuel', (fuel <= fuel')%nat -> next_probable_prime fuel' n = Some p) /\
  is_probable_prime p = true /\ n <= p /\ 2 <= p /\ (n < 2 -> p = 2) /\
  forall q, Z.prime q -> n <= q -> q < p -> q = 2.
Proof.
  unfold next_probable_prime. destruct (Z.ltb_spec n 2) as [Hn|Hn].
  { exists 0%nat, 2. split_and!; try done; try lia. intros q Hq. pose proof (Z.prime_ge_2 q Hq). lia. }
  set (m := if n mod 2 =? 0 then n + 1 else n).
  assert (n <= m /\ m mod 2 = 1 /\ (forall q, n <= q -> q < m -> q mod 2 = 0)) as (Hm & Hodd & Hskip).
  { subst m. pose proof (Z.mod_pos_bound n 2 ltac:(lia)). destruct (Z.eqb_spec (n mod 2) 0) as [E|E].
    - split_and!; [lia| |]. { by rewrite Zplus_mod, E. } intros q ??. by replace q with n by lia.
    - split_and!; lia. }
  destruct (prime_above m) as (q & Hq & Hmq).
  assert (forall q, Z.prime q -> n <= q -> q <> 2 -> exists k, 0 <= k /\ q = m + 2 * k) as Hk.
  { intros r Hr Hnr Hr2. assert (r mod 2 = 1) as Hro.
    { pose proof (Z.mod_pos_bound r 2 ltac:(lia)). destruct (decide (r mod 2 = 0)) as [E|]; [|lia].
      apply Z.mod_divide in E; [|lia]. apply prime_alt in Hr. apply prime_divisors in E; [|done]. lia. }
    assert (m <= r) by (destruct (decide (r < m)); [|lia]; rewrite Hskip in Hro by lia; lia).
    exists ((r - m) / 2). split; [apply Z.div_pos; lia|].
    assert ((r - m) mod 2 = 0) by (rewrite Zminus_mod, Hro, Hodd; done). pose proof (Z.div_mod (r - m) 2). lia. }
  destruct (Hk q Hq ltac:(lia) ltac:(lia)) as (k & Hk0 & ->).
  destruct (search_prime_stops m (Z.to_nat k)) as [p Hp].
  { rewrite Z2Nat.id by lia. by apply prime_accepted. }
  pose proof (search_prime_spec _ _ _ Hp) as (Hpp & j & Hj & -> & Hmin).
  exists (Z.to_nat k), (m + 2 * j). split; [intros fuel' Hf; by eapply search_prime_fuel|]. split; [done|]. split_and!; try lia.
  intros r Hr Hnr Hrp. destruct (decide (r = 2)) as [|Hr2]; [done|]. exfalso.
  destruct (Hk r Hr Hnr Hr2) as (i & Hi & ->).
  specialize (Hmin i ltac:(lia)). rewrite prime_accepted in Hmin; done.
Qed.

(** * The Wesolowski proof *)
(** [k] steps of the long division: quotient and remainder of [2^k] by [l]. *)
Lemma wesolowski_steps x l N k : 1 < l -> 1 < N ->
  Nat.iter k (wesolowski_step x l N) (1, 1) = (x ^ (2 ^ Z.of_nat k / l) mod N, 2 ^ Z.of_nat k mod l).
Proof.
  intros Hl HN. induction k as [|k IH].
  { cbn. by rewrite Z.div_1_l, Z.pow_0_r, !Z.mod_1_l by lia. }
  rewrite Nat.iter_succ, IH, Nat2Z.inj_succ. unfold wesolowski_step. set (u := 2 ^ Z.of_nat k).
  assert (2 ^ Z.succ (Z.of_nat k) = 2 * u) as -> by (rewrite Z.pow_succ_r; lia). assert (0 < u) as Hu by (apply Z.pow_pos_nonneg; lia).
  pose proof (Z.div_mod u l ltac:(lia)) as Hd. pose proof (Z.mod_pos_bound u l ltac:(lia)) as Hb.
  assert (0 <= u / l) as Hq by (apply Z.div_pos; lia). set (q := u / l) in *. set (r := u mod l) in *.
  rewrite py_pow_spec, Z.mod_pow_l, <- Z.pow_mul_r by lia. destruct (Z.leb_spec l (r * 2)) as [Hge|Hlt].
  - rewrite <- (Z.div_unique_pos (2 * u) l (2 * q + 1) (2 * r - l)), <- (Z.mod_unique_pos (2 * u) l (2 * q + 1) (2 * r - l)) by lia.
    rewrite Zmult_mod_idemp_l. f_equal; [|lia]. by rewrite Z.pow_add_r, Z.pow_1_r, (Z.mul_comm q 2) by lia.
  - rewrite <- (Z.div_unique_pos (2 * u) l (2 * q) (2 * r)), <- (Z.mod_unique_pos (2 * u) l (2 * q) (2 * r)) by lia.
    f_equal; [|lia]. by rewrite (Z.mul_comm q 2).
Qed.

Lemma compute_wesolowski_proof_spec x T l N : 0 <= T -> 1 < l -> 1 < N ->
  compute_wesolowski_proof x T l N = x ^ (2 ^ T / l) mod N.
Proof. intros HT Hl HN. unfold compute_wesolowski_proof. by rewrite wesolowski_steps, Z2Nat.id. Qed.

Lemma squarings_spec x T N : 0 <= T -> 0 < N -> 0 <= x < N -> Nat.iter (Z.to_nat T) (fun y => py_pow y 2 N) x = x ^ (2 ^ T) mod N.
Proof.
  intros HT HN Hx. rewrite <- (Z2Nat.id T) at 2 by done. rewrite <- iter_square by done.
  induction (Z.to_nat T) as [|k IH]; [done|]. cbn [Nat.iter nat_rect]. unfold Nat.iter in IH. rewrite IH. by apply py_pow_2.
Qed.

(** The verification equation for any exponent: [pi^l * x^(E mod l) = x^E]. *)
Lemma wesolowski_equation x l N E : 0 <= E -> 1 < l -> 1 < N ->
  (py_pow (x ^ (E / l) mod N) l N * py_pow x (E mod l) N) mod N = x ^ E mod N.
Proof.
  intros HE Hl HN. pose proof (Z.mod_pos_bound E l ltac:(lia)). assert (0 <= E / l) by (apply Z.div_pos; lia).
  rewrite !py_pow_spec, Z.mod_pow_l, <- Zmult_mod, <- Z.pow_mul_r, <- Z.pow_add_r by lia.
  do 2 f_equal. rewrite (Z.div_mod E l) at 3 by lia. lia.
Qed.

Lemma prime_candidate_ge half_bits h : 1 <= half_bits -> 0 <= prime_candidate half_bits h.
Proof.
  intros Hb. unfold prime_candidate. apply Z.lor_nonneg. split; [apply Z.mod_pos_bound; lia|].
  apply Z.lor_nonneg. split; [lia|]. apply Z.shiftl_nonneg. lia.
Qed.

Lemma next_prime_fuel fuel fuel' n p : (fuel <= fuel')%nat -> next_probable_prime fuel n = Some p -> next_probable_prime fuel' n = Some p.
Proof. unfold next_probable_prime. destruct (_ <? _); [done|]. apply search_prime_fuel. Qed.

Lemma next_prime_ge2 fuel n p : next_probable_prime fuel n = Some p -> 2 <= p.
Proof.
  intros H. destruct (next_prime_found n) as (f & p' & Hf & _ & _ & H2 & _).
  pose proof (Hf (Nat.max f fuel) ltac:(lia)). pose proof (next_prime_fuel fuel (Nat.max f fuel) n p ltac:(lia) H). by simplify_eq.
Qed.

Section Theorems.
Context (env : hash_env) (cfg : VDFConfig).
Notation sha := (spec_hash_bytes (env_lib env)).

Lemma derive_factors_found seed bits : 2 <= bits -> exists fuel p q, 2 <= p /\ 2 <= q /\
  forall fuel', (fuel <= fuel')%nat -> derive_factors env fuel' seed bits = Some (Ok (p, q)).
Proof.
  intros Hb. assert (1 <= bits / 2) as Hh by (apply Z.div_le_lower_bound; lia). unfold derive_factors.
  set (c h := prime_candidate (bits / 2) h).
  destruct (next_prime_found (c (sha (seed ++ lit "vdf-prime-p")))) as (f1 & p & Hp & _ & _ & Hp2 & _).
  destruct (next_prime_found (c (sha (seed ++ lit "vdf-prime-q")))) as (f2 & q & Hq & _ & _ & Hq2 & _).
  exists (Nat.max f1 f2), p, q. split; [done|]. split; [done|]. intros f Hf. destruct (Z.ltb_spec (bits / 2) 1); [lia|].
  fold (c (sha (seed ++ lit "vdf-prime-p"))) (c (sha (seed ++ lit "vdf-prime-q"))). by rewrite Hp, Hq by lia.
Qed.

Lemma group_element_range seed N : 4 <= N -> 2 <= group_element seed N < N.
Proof.
  intros HN. unfold group_element. pose proof (Z.mod_pos_bound (be_decode seed) N ltac:(lia)). destruct (Z.ltb_spec (be_decode seed mod N) 2); lia.
Qed.

Lemma int_to_bytes_fits n v : 0 <= v < 256 ^ Z.of_nat n -> int_to_bytes n v = Ok (be_encode n v).
Proof. intros H. by apply int_to_bytes_Ok. Qed.

Lemma int_to_bytes_cases n v : int_to_bytes n v = Ok (be_encode n v) \/ int_to_bytes n v = Err OverflowError.
Proof. unfold int_to_bytes. destruct (_ && _); auto. Qed.

Lemma fiat_shamir_found x y N : 0 <= x < 256 ^ 256 -> 0 <= y < 256 ^ 256 -> 0 <= N < 256 ^ 256 -> exists fuel l, 2 <= l /\
  forall fuel', (fuel <= fuel')%nat -> fiat_shamir_prime env fuel' x y N = Some (Ok l).
Proof.
  intros Hx Hy HN. unfold fiat_shamir_prime, fiat_shamir_input. rewrite !int_to_bytes_fits by done. cbn [mbind result_bind].
  set (c := Z.lor _ 1). destruct (next_prime_found c) as (f & p & Hp & _ & _ & Hp2 & _).
  exists f, p. split; [done|]. intros f' Hf. by rewrite Hp.
Qed.

Lemma fiat_shamir_overflow fuel x y N : 256 ^ 256 <= N -> fiat_shamir_prime env fuel x y N = Some (Err OverflowError).
Proof.
  intros HN. unfold fiat_shamir_prime, fiat_shamir_input.
  assert (int_to_bytes 256 N = Err OverflowError) as EN.
  { destruct (int_to_bytes_cases 256 N) as [E|E]; [|done]. apply int_to_bytes_Ok in E as [[_ E] _]. change (Z.of_nat 256) with 256 in E. lia. }
  destruct (int_to_bytes_cases 256 x) as [->| ->]; [|done]. destruct (int_to_bytes_cases 256 y) as [->| ->]; [|done].
  cbn [mbind result_bind]. by rewrite EN.
Qed.

(** C33: Wesolowski evaluation and verification agree.  For every challenge of
    a non-negative difficulty and at least 2 group bits, with enough fuel,
    the modulus [N] is found; when it fits 256 bytes the evaluation returns a
    result, the output encodes [x^(2^T) mod N] and the proof
    [x^(2^T / l) mod N] for the Fiat-Shamir prime [l] of the output, and the
    verifier accepts it with one exponentiation by [l] and one by
    [2^T mod l]; when it does not fit, the evaluation raises OverflowError. *)
Theorem vdf_complete challenge ms : vdf_construction cfg <> HASH_CHAIN -> 0 <= vc_difficulty challenge -> 2 <= vdf_group_bits cfg ->
  exists fuel N, 4 <= N /\ forall fuel', (fuel <= fuel')%nat ->
  derive_modulus env fuel' (vc_input_seed challenge) (vdf_group_bits cfg) = Some (Ok N) /\
  let x := group_element (vc_input_seed challenge) N in
  let T := vc_difficulty challenge in
  if N <? 256 ^ 256 then
    exists r l, vdf_evaluate env cfg fuel' challenge ms = Some (Ok r) /\ vdf_verify env cfg fuel' challenge r = Some (Ok true) /\
      fiat_shamir_prime env fuel' x (be_decode (vr_vdf_output r)) N = Some (Ok l) /\
      be_decode (vr_vdf_output r) = x ^ (2 ^ T) mod N /\ be_decode (vr_vdf_proof r) = x ^ (2 ^ T / l) mod N
  else vdf_evaluate env cfg fuel' challenge ms = Some (Err OverflowError).
Proof.
  intros Hc HT Hbits. destruct (derive_factors_found (vc_input_seed challenge) _ Hbits) as (f1 & p & q & Hp & Hq & Hf1).
  set (N := p * q) in *. assert (4 <= N) as HN by (unfold N; nia). pose proof (group_element_range (vc_input_seed challenge) N HN) as Hx.
  set (x := group_element (vc_input_seed challenge) N) in *. set (T := vc_difficulty challenge) in *.
  set (y := x ^ (2 ^ T) mod N). assert (0 <= y < N) as Hy by (apply Z.mod_pos_bound; lia).
  assert (forall f, (f1 <= f)%nat -> derive_modulus env f (vc_input_seed challenge) (vdf_group_bits cfg) = Some (Ok N)) as Hmod
    by (intros f Hf; unfold derive_modulus; by rewrite Hf1).
  unfold vdf_evaluate, vdf_verify, evaluate_wesolowski, verify_wesolowski. rewrite (bool_decide_eq_false_2 _ Hc).
  destruct (Z.ltb_spec N (256 ^ 256)) as [Hfit|Hbig].
  - destruct (fiat_shamir_found x y N) as (f2 & l & Hl & Hf2); [lia..|].
    exists (Nat.max f1 f2), N. split; [done|]. intros f Hf. rewrite Hmod by lia. split; [done|]. cbv zeta. fold x T. rewrite (proj2 (Z.ltb_lt _ _) Hfit).
    rewrite squarings_spec by lia. fold y. rewrite Hf2 by lia. rewrite compute_wesolowski_proof_spec by lia.
    set (pi := x ^ (2 ^ T / l) mod N). assert (0 <= pi < N) as Hpi by (apply Z.mod_pos_bound; lia).
    assert (forall v, 0 <= v < N -> 0 <= v < 256 ^ Z.of_nat 256) as Hfits by (intros v Hv; change (Z.of_nat 256) with 256; lia).
    rewrite (int_to_bytes_fits 256 y), (int_to_bytes_fits 256 pi) by auto. cbn [mbind result_bind].
    eexists _, l. split; [reflexivity|]. cbn [vr_challenge_id vr_vdf_output vr_vdf_proof].
    rewrite !be_decode_encode by auto. rewrite bool_decide_eq_true_2 by done. cbn [negb]. rewrite Hf2 by lia.
    split; [|done]. do 2 f_equal. apply Z.eqb_eq. rewrite (py_pow_spec 2 T l) by lia. unfold pi. rewrite wesolowski_equation by lia.
    unfold y. by rewrite Z.mod_mod by lia.
  - exists f1, N. split; [done|]. intros f Hf. rewrite Hmod by lia. split; [done|]. cbv zeta. fold x T. rewrite (proj2 (Z.ltb_ge _ _) Hbig). by rewrite fiat_shamir_overflow.
Qed.

(** The hash chain.  Evaluation hashes the seed [T] times; verification
    hashes it again and accepts a result of the challenge if and only if its
    output is that hash: the honest result is accepted, no other output is,
    and the proof field is never looked at. *)
Theorem hash_chain_exact fuel challenge ms r : vdf_construction cfg = HASH_CHAIN ->
  let y := Nat.iter (Z.to_nat (vc_difficulty challenge)) sha (vc_input_seed challenge) in
  (exists h, vdf_evaluate env cfg fuel challenge ms = Some (Ok h) /\ vr_vdf_output h = y /\ vdf_verify env cfg fuel challenge h = Some (Ok true)) /\
  (vdf_verify env cfg fuel challenge r = Some (Ok true) <-> vr_challenge_id r = vc_challenge_id challenge /\ vr_vdf_output r = y) /\
  forall prf, vdf_verify env cfg fuel challenge r =
    vdf_verify env cfg fuel challenge {| vr_challenge_id := vr_challenge_id r; vr_vdf_output := vr_vdf_output r; vr_vdf_proof := prf;
      vr_shard_proof := vr_shard_proof r; vr_computation_time_ms := vr_computation_time_ms r |}.
Proof.
  intros Hc y. assert (forall k i cur cps, (hash_chain env k i cur cps).1 = Nat.iter k sha cur) as Hchain.
  { induction k as [|k IH]; intros i cur cps; cbn [hash_chain]; [done|]. by rewrite IH, Nat.iter_succ_r. }
  unfold vdf_evaluate, vdf_verify. rewrite (bool_decide_eq_true_2 _ Hc). unfold evaluate_hash_chain, verify_hash_chain. fold y. split; [|split; [|done]].
  - pose proof (Hchain (Z.to_nat (vc_difficulty challenge)) 0 (vc_input_seed challenge) [vc_input_seed challenge]) as Hy. fold y in Hy.
    destruct (hash_chain _ _ _ _ _) as [cur cps]. cbn in Hy. subst cur. eexists. split; [reflexivity|]. cbn. by rewrite !bool_decide_eq_true_2.
  - destruct (bool_decide_reflect (vr_challenge_id r = vc_challenge_id challenge)) as [?|?]; cbn [negb]; [|intuition congruence].
    split; [intros [= ->%bool_decide_eq_true_1]; done|]. intros [_ ->]. by rewrite bool_decide_eq_true_2.
Qed.
End Theorems.

(** * The delay can be skipped *)
Section Shortcut.
Context (env : hash_env) (cfg : VDFConfig).

(** An evaluator with no loop over the difficulty: the factors of the modulus
    come from the same public derivation as the modulus, so exponents are
    reduced by [(p - 1) * (q - 1)]. *)
Definition shortcut (fuel : nat) (challenge : VDFChallenge) (ms : float64) : option (result VDFResult) :=
  let T := vc_difficulty challenge in
  match derive_factors env fuel (vc_input_seed challenge) (vdf_group_bits cfg) with
  | None => None
  | Some (Err e) => Some (Err e)
  | Some (Ok (p, q)) =>
      let N := p * q in
      let phi := (p - 1) * (q - 1) in
      let x := group_element (vc_input_seed challenge) N in
      let y := py_pow x (py_pow 2 T phi) N in
      match fiat_shamir_prime env fuel x y N with
      | None => None
      | Some (Err e) => Some (Err e)
      | Some (Ok l) =>
          let u := py_pow 2 T (l * phi) in
          let pi := py_pow x (u / l) N in
          Some (out ← int_to_bytes 256 y;
                prf ← int_to_bytes 256 pi;
                Ok {| vr_challenge_id := vc_challenge_id challenge; vr_vdf_output := out; vr_vdf_proof := prf;
                      vr_shard_proof := []; vr_computation_time_ms := ms |})
      end
  end.

(** Euler's theorem for a product of two primes. *)
Lemma euler_two_primes x p q : Z.prime p -> Z.prime q -> p <> q -> Z.gcd x (p * q) = 1 ->
  x ^ ((p - 1) * (q - 1)) mod (p * q) = 1.
Proof.
  intros Hp Hq Hne Hg. pose proof (Z.prime_ge_2 p Hp). pose proof (Z.prime_ge_2 q Hq).
  assert (forall r s m, Z.prime r -> r * s = p * q -> 0 <= m -> (r | x ^ ((r - 1) * m) - 1)) as Hone.
  { intros r s m Hr E Hm. pose proof (Z.prime_ge_2 r Hr). apply Z.mod_divide; [lia|].
    rewrite Zminus_mod, pow_1_mod by (lia || (apply ZmodInv.Z.fermat_nz; [done|]; intros Hz;
      apply Z.mod_divide in Hz; [|lia]; pose proof (Z.gcd_greatest x (p * q) r Hz ltac:(exists s; lia)) as Hd;
      rewrite Hg in Hd; apply Z.divide_1_r_nonneg in Hd; lia)).
    by rewrite Z.mod_1_l, Z.sub_diag, Z.mod_0_l by lia. }
  pose proof (Hone p q (q - 1) Hp eq_refl ltac:(lia)) as Dp.
  pose proof (Hone q p (p - 1) Hq (Z.mul_comm _ _) ltac:(lia)) as Dq. rewrite (Z.mul_comm (q - 1)) in Dq.
  assert (p * q | x ^ ((p - 1) * (q - 1)) - 1) as D.
  { apply coprime_mul_divide; [done..|]. apply Zgcd_1_rel_prime, rel_prime_sym, prime_rel_prime; [by apply prime_alt|].
    intros Hd. apply prime_divisors in Hd; [lia|by apply prime_alt]. }
  apply Z.mod_divide in D; [|nia]. rewrite <- (Z.sub_add 1 (x ^ _)) , Zplus_mod, D, Z.mod_1_l by nia. cbn. apply Z.mod_1_l. nia.
Qed.

(** Exponents may be reduced by any exponent of one. *)
Lemma reduce_exponent x N phi E k : 1 < N -> 0 < phi -> 0 <= k -> 0 <= E - k * phi -> x ^ phi mod N = 1 -> x ^ (E - k * phi) mod N = x ^ E mod N.
Proof.
  intros HN Hphi Hk HE H1. replace E with ((E - k * phi) + phi * k) at 2 by lia.
  rewrite Z.pow_add_r, (Z.pow_mul_r x phi k), Zmult_mod, <- (Z.mod_pow_l (x ^ phi)), H1, Z.pow_1_l, (Z.mod_1_l N) by lia.
  by rewrite Z.mul_1_r, Z.mod_mod by lia.
Qed.

(** C38: The Wesolowski delay protects nothing.  When the two numbers the
    modulus is derived from are distinct primes (what their search is for)
    and the group element is prime to it, an evaluator that makes only
    exponentiations with exponents below [l * (p - 1) * (q - 1)], and no loop
    over the difficulty, returns exactly the result of the sequential
    evaluation, output and proof. *)
Theorem vdf_shortcut fuel challenge ms p q : 0 <= vc_difficulty challenge -> vdf_construction cfg <> HASH_CHAIN ->
  derive_factors env fuel (vc_input_seed challenge) (vdf_group_bits cfg) = Some (Ok (p, q)) ->
  Z.prime p -> Z.prime q -> p <> q -> Z.gcd (group_element (vc_input_seed challenge) (p * q)) (p * q) = 1 ->
  shortcut fuel challenge ms = vdf_evaluate env cfg fuel challenge ms.
Proof.
  intros HT Hc Hd Hp Hq Hne Hg. pose proof (Z.prime_ge_2 p Hp). pose proof (Z.prime_ge_2 q Hq).
  unfold vdf_evaluate, shortcut, evaluate_wesolowski, derive_modulus. rewrite (bool_decide_eq_false_2 _ Hc), Hd.
  set (N := p * q) in *. set (phi := (p - 1) * (q - 1)). assert (4 <= N) as HN by (unfold N; nia). assert (0 < phi) as Hphi.
  { unfold phi. nia. }
  pose proof (group_element_range (vc_input_seed challenge) N HN) as Hx. set (x := group_element _ N) in *. set (T := vc_difficulty challenge) in *.
  assert (x ^ phi mod N = 1) as H1 by (by apply euler_two_primes). assert (0 < 2 ^ T) as H2 by (apply Z.pow_pos_nonneg; lia).
  rewrite (py_pow_spec 2 T phi), squarings_spec, py_pow_spec by (lia || apply Z.mod_pos_bound; lia).
  assert (x ^ (2 ^ T mod phi) mod N = x ^ (2 ^ T) mod N) as ->.
  { pose proof (Z.div_mod (2 ^ T) phi ltac:(lia)). pose proof (Z.mod_pos_bound (2 ^ T) phi Hphi).
    replace (2 ^ T mod phi) with (2 ^ T - 2 ^ T / phi * phi) by lia. apply reduce_exponent; try done; try lia. apply Z.div_pos; lia. }
  destruct (fiat_shamir_prime env fuel x (x ^ 2 ^ T mod N) N) as [[l|e]|] eqn:El; [|done..].
  assert (2 <= l) as Hl.
  { unfold fiat_shamir_prime in El. destruct (fiat_shamir_input _ _ _); [|done]. destruct (next_probable_prime _ _) eqn:En; [|done].
    injection El as <-. by eapply next_prime_ge2. }
  assert (py_pow x (py_pow 2 T (l * phi) / l) N = x ^ (2 ^ T / l) mod N) as ->.
  { rewrite (py_pow_spec 2 T (l * phi)) by nia.
    pose proof (Z.div_mod (2 ^ T) (l * phi) ltac:(nia)) as Hu. pose proof (Z.mod_pos_bound (2 ^ T) (l * phi) ltac:(nia)) as Hub.
    set (u := 2 ^ T mod (l * phi)) in *. set (k := 2 ^ T / (l * phi)) in *. assert (0 <= k) by (apply Z.div_pos; nia).
    assert (u / l = 2 ^ T / l - k * phi) as E.
    { replace (2 ^ T) with (u + (k * phi) * l) by lia. rewrite Z.div_add by lia. lia. }
    assert (0 <= u / l) by (apply Z.div_pos; lia). rewrite py_pow_spec by lia. rewrite E in *. apply reduce_exponent; lia. }
  by rewrite compute_wesolowski_proof_spec by lia.
Qed.
End Shortcut.

(** * A small group *)
Definition quick_env : hash_env :=
  {| env_lib := {| lib_sha3_256 := quick_digest; lib_blake2b := quick_digest; lib_sha384 := quick_digest; lib_sha512 := quick_digest;
                   lib_blake3 := None |};
     env_profile := demo_profile; env_provider := None |}.
Definition demo_vdf (c : VDFConstruction) : VDFConfig :=
  {| vdf_enabled := true; vdf_construction := c; vdf_difficulty := 50; vdf_group_bits := 16 |}.
Definition demo_vdf_challenge : VDFChallenge :=
  {| vc_challenge_id := lit "c"; vc_input_seed := lit "d"; vc_difficulty := 50; vc_shard_entity_id := lit "e"; vc_shard_index := 0; vc_nonce := [] |}.

Lemma hash_chain_exact_witness : exists h,
  vdf_evaluate quick_env (demo_vdf HASH_CHAIN) 0 demo_vdf_challenge 0 = Some (Ok h) /\
  vdf_verify quick_env (demo_vdf HASH_CHAIN) 0 demo_vdf_challenge h = Some (Ok true).
Proof.
  destruct (proj1 (hash_chain_exact quick_env (demo_vdf HASH_CHAIN) 0 demo_vdf_challenge 0 (evaluate_hash_chain quick_env demo_vdf_challenge 0) eq_refl))
    as (h & H1 & _ & H2). exists h. split; [exact H1|exact H2].
Defined.

Lemma vdf_complete_witness : exists fuel N, 4 <= N /\
  derive_modulus quick_env fuel (lit "d") 16 = Some (Ok N).
Proof.
  destruct (vdf_complete quick_env (demo_vdf WESOLOWSKI) demo_vdf_challenge 0 ltac:(discriminate) ltac:(cbn; lia) ltac:(cbn; lia)) as (f & N & HN & H).
  exists f, N. split; [exact HN|]. exact (proj1 (H f (Nat.le_refl f))).
Defined.

Lemma vdf_shortcut_witness :
  shortcut quick_env (demo_vdf WESOLOWSKI) 30 demo_vdf_challenge 0 = vdf_evaluate quick_env (demo_vdf WESOLOWSKI) 30 demo_vdf_challenge 0 /\
  exists r, shortcut quick_env (demo_vdf WESOLOWSKI) 30 demo_vdf_challenge 0 = Some (Ok r) /\ be_decode (vr_vdf_output r) = 11881.
Proof.
  split.
  - apply (vdf_shortcut quick_env (demo_vdf WESOLOWSKI) 30 demo_vdf_challenge 0 151 157); [cbn; lia|discriminate|vm_compute; reflexivity|
      apply (trial_prime _ 20); vm_compute; reflexivity|apply (trial_prime _ 20); vm_compute; reflexivity|lia|vm_compute; reflexivity].
  - eexists. split; [vm_compute; reflexivity|]. vm_compute. reflexivity.
Defined.

(** The output is not unique: the verifier reduces it modulo [N] on one side
    of the equation only, so [y + N] with a proof for its own Fiat-Shamir
    prime is accepted as well as [y]. *)
Example vdf_output_not_unique :
  let N := 151 * 157 in
  let x := group_element (lit "d") N in
  exists y l, 0 <= y < N /\ (forall out, out = y \/ out = y + N ->
    exists r, be_decode (vr_vdf_output r) = out /\ be_decode (vr_vdf_proof r) = compute_wesolowski_proof x 50 l N /\
      vdf_verify quick_env (demo_vdf WESOLOWSKI) 30 demo_vdf_challenge r = Some (Ok true)).
Proof.
  set (r v := {| vr_challenge_id := lit "c"; vr_vdf_output := be_encode 256 v; vr_vdf_proof := be_encode 256 (compute_wesolowski_proof (group_element (lit "d") (151 * 157)) 50 2 (151 * 157));
            vr_shard_proof := []; vr_computation_time_ms := 0 |}).
  exists 11881, 2. split; [lia|]. intros out [-> | ->]; [exists (r 11881)|exists (r (11881 + 151 * 157))]; split_and!; vm_compute; reflexivity.
Qed.
