(* ===== verification/Enforcement.v ===== *)
(** Enforcement (src/src/ltp/enforcement.py): proofs of data possession,
    programmable slashing conditions and their registry, disputes by vote,
    commit-reveal, batches of slashes, and the runtime invariants, which are
    proved of the economics engine.  The delay functions are in Vdf.v, the
    governance transitions in Governance.v.

    [json.loads] and [str] of a JSON value are the platform's and arguments;
    what the conditions do with the values (comparisons, division, formats)
    is defined here.  Clocks and random salts are arguments. *)

From S2P Require Import Prelude Float64 Sha3 Hashing Json Economics.

(** * Proof of data possession *)
Record PDPChallenge : Type := {
  pc_challenge_id : pystr;
  pc_epoch : Z;
  pc_shard_indices : list Z;
  pc_coefficients : list bytes;
  pc_deadline_epoch : Z
}.
Record PDPProof : Type := {
  pp_challenge_id : pystr;
  pp_aggregate_tag : bytes;
  pp_response_time_ms : float64;
  pp_indices_proven : Z
}.
Definition proof_size_bytes (p : PDPProof) : Z := Z.of_nat (length (pp_aggregate_tag p)).

(** [while idx in seen: idx = (idx + 1) % total_shards]: at most one
    iteration per member of [seen] is needed. *)
Fixpoint probe (fuel : nat) (total_shards idx : Z) (seen : list Z) : Z :=
  if bool_decide (idx ∈ seen)
  then match fuel with O => idx | S fuel => probe fuel total_shards ((idx + 1) mod total_shards) seen end
  else idx.

(** The index loop: [seen] and [indices] grow together. *)
Definition challenge_indices (rng total_shards sample_size : Z) : list Z :=
  fold_left (fun indices i =>
      indices ++ [probe (length indices) total_shards ((rng + Z.of_nat i * 31) mod total_shards) indices])
    (seq 0 (Z.to_nat sample_size)) [].

(** [str] of a list of integers *)
Definition str_ints (xs : list Z) : pystr :=
  lit "[" ++ match xs with [] => [] | x :: xs => str_int x ++ concat (map (fun y => lit ", " ++ str_int y) xs) end ++ lit "]".

(** [aggregate[i] ^= part[i]]: an [IndexError] when the part is shorter. *)
Fixpoint xor_into (aggregate part : bytes) : result bytes :=
  match aggregate, part with
  | [], _ => Ok []
  | _ :: _, [] => Err IndexError
  | a :: aggregate, b :: part => rest ← xor_into aggregate part; Ok (Z.lxor a b :: rest)
  end.
Definition xor_parts (size : nat) (parts : list bytes) : result bytes := foldM xor_into (replicate size 0) parts.

Section PDP.
Context (env : hash_env).

Definition generate_challenge (entity_id : pystr) (total_shards sample_size epoch deadline_epochs : Z) : result PDPChallenge :=
  let sample_size := Z.min sample_size total_shards in
  let seed := internal_hash_bytes env (entity_id ++ lit ":" ++ str_int epoch ++ lit ":pdp") in
  let rng := be_decode (take 8 seed) in
  let indices := challenge_indices rng total_shards sample_size in
  coefficients ← mapR (fun idx => i ← struct_pack 4 idx; Ok (take 16 (internal_hash_bytes env (seed ++ i)))) indices;
  challenge_id ← canonical_hash env (entity_id ++ lit ":" ++ str_int epoch ++ lit ":" ++ str_ints (sort_by Z.leb indices));
  Ok {| pc_challenge_id := challenge_id; pc_epoch := epoch; pc_shard_indices := indices; pc_coefficients := coefficients;
        pc_deadline_epoch := epoch + deadline_epochs |}.

(** [PDPVerifier]: entity to shard index to shard hash *)
Abbreviation PDPVerifier := (list (pystr * list (Z * pystr))).

Definition register_commitment (v : PDPVerifier) (entity_id : pystr) (shard_hashes : list (Z * pystr)) : PDPVerifier :=
  dict_set v entity_id shard_hashes.

Definition shard_tag (shard_hash : pystr) (coeff : bytes) : bytes := internal_hash_bytes env (shard_hash ++ coeff).

Fixpoint expected_parts (shard_hashes : list (Z * pystr)) (challenged : list (Z * bytes)) : option (list bytes) :=
  match challenged with
  | [] => Some []
  | (idx, coeff) :: challenged =>
      match dict_find shard_hashes idx with
      | None => None
      | Some sh => match expected_parts shard_hashes challenged with
                   | None => None
                   | Some parts => Some (shard_tag sh coeff :: parts)
                   end
      end
  end.

Definition generate_expected_tag (v : PDPVerifier) (entity_id : pystr) (indices : list Z) (coefficients : list bytes)
    : result (option bytes) :=
  match dict_find v entity_id with
  | None => Ok None
  | Some shard_hashes =>
      match expected_parts shard_hashes (zip indices coefficients) with
      | None | Some [] => Ok None
      | Some (p :: parts) => agg ← xor_parts (length p) (p :: parts); Ok (Some agg)
      end
  end.

Definition verify_proof (v : PDPVerifier) (entity_id : pystr) (challenge : PDPChallenge) (proof : PDPProof) : result bool :=
  if negb (bool_decide (pp_challenge_id proof = pc_challenge_id challenge)) then Ok false
  else
    expected ← generate_expected_tag v entity_id (pc_shard_indices challenge) (pc_coefficients challenge);
    match expected with
    | None => Ok false
    | Some tag => Ok (bool_decide (pp_aggregate_tag proof = tag))
    end.

(** The node's side *)
Definition shard_part (shard_data : list (Z * bytes)) (ic : Z * bytes) : result bytes :=
  match dict_find shard_data ic.1 with
  | None => Ok (replicate 32 0)
  | Some data => sh ← canonical_hash env data; Ok (shard_tag sh ic.2)
  end.
Definition compute_proof_from_shards (shard_data : list (Z * bytes)) (indices : list Z) (coefficients : list bytes)
    (challenge_id : pystr) (response_time_ms : float64) : result PDPProof :=
  parts ← mapR (shard_part shard_data) (zip indices coefficients);
  agg ← xor_parts (match parts with [] => 32%nat | p :: _ => length p end) parts;
  Ok {| pp_challenge_id := challenge_id; pp_aggregate_tag := agg; pp_response_time_ms := response_time_ms;
        pp_indices_proven := Z.of_nat (length indices) |}.
End PDP.

(** * JSON evidence *)
(** [data.get(key, default)]: only a dict has it. *)
Definition json_get (data : json) (key : pystr) (dflt : json) : result json :=
  match data with JObj d => Ok (default dflt (dict_find d key)) | _ => Err AttributeError end.

(** A number as Python compares it: an integer or a float. *)
Definition json_number (j : json) : result (Z + float64) :=
  match j with
  | JInt z => Ok (inl z)
  | JBool b => Ok (inl (if b then 1 else 0))
  | JFloat w => Ok (inr w)
  | _ => Err TypeError
  end.

(** [x >= z], [x > z] and [x > w]; an integer and a float compare exactly. *)
Definition f64_ge_int (w : float64) (z : Z) : bool :=
  match f64_of_bits w with
  | SpecFloat.S754_nan => false
  | SpecFloat.S754_infinity s => negb s
  | f => match sf_fraction f with Some (n, d) => z * d <=? n | None => false end
  end.
Definition int_gt_f64 (z : Z) (w : float64) : bool :=
  match f64_of_bits w with
  | SpecFloat.S754_nan => false
  | SpecFloat.S754_infinity s => s
  | f => match sf_fraction f with Some (n, d) => n <? z * d | None => false end
  end.
Definition json_ge (j : json) (z : Z) : result bool :=
  x ← json_number j; Ok (match x with inl n => z <=? n | inr w => f64_ge_int w z end).
Definition json_gt (j : json) (z : Z) : result bool :=
  x ← json_number j; Ok (match x with inl n => z <? n | inr w => f64_gt_int w z end).
Definition json_gt_float (j : json) (w : float64) : result bool :=
  x ← json_number j; Ok (match x with inl n => int_gt_f64 n w | inr v => f64_gt v w end).

(** [a / b] *)
Definition json_truediv (a b : json) : result float64 :=
  x ← json_number a; y ← json_number b;
  match x, y with
  | inl m, inl n => int_truediv m n
  | inl m, inr w => v ← f64_of_int m; f64_div v w
  | inr v, inl n => w ← f64_of_int n; f64_div v w
  | inr v, inr w => f64_div v w
  end.

(** [f"{x:.1f}"] *)
Definition json_fixed1 (j : json) : result pystr :=
  match j with
  | JInt z => w ← f64_of_int z; Ok (fmt_fixed 1 w)
  | JBool b => Ok (lit (if b then "1.0" else "0.0"))
  | JFloat w => Ok (fmt_fixed 1 w)
  | JStr _ => Err (ValueError "Unknown format code 'f' for object of type 'str'")
  | _ => Err TypeError
  end.

(** * Slashing conditions *)
Record SlashResult : Type := {
  sr_violated : bool;
  sr_severity : pystr;
  sr_evidence_hash : pystr;
  sr_explanation : pystr;
  sr_condition_id : pystr
}.
Record SlashingCondition : Type := {
  sc_condition_id : pystr;
  sc_description : pystr;
  sc_stake_allocation_bps : Z;
  sc_evaluate : bytes -> result SlashResult
}.

Section Conditions.
Context (env : hash_env) (json_loads : bytes -> option json) (json_str : json -> pystr).

Definition slash_result (violated : bool) (severity : pystr) (evidence explanation condition_id : pystr) : result SlashResult :=
  h ← canonical_hash env evidence;
  Ok {| sr_violated := violated; sr_severity := severity; sr_evidence_hash := h; sr_explanation := explanation; sr_condition_id := condition_id |}.

(** The common head of the four [evaluate] methods. *)
Definition with_evidence (condition_id : pystr) (evidence : bytes) (k : json -> result SlashResult) : result SlashResult :=
  match json_loads evidence with
  | None => slash_result false (lit "none") evidence (lit "Invalid evidence format") condition_id
  | Some data => k data
  end.

Definition AUDIT_FAILURE_THRESHOLD : Z := 3.
Definition evaluate_audit_failure (evidence : bytes) : result SlashResult :=
  with_evidence (lit "audit_failure") evidence (fun data =>
    consecutive_failures ← json_get data (lit "consecutive_failures") (JInt 0);
    violated ← json_ge consecutive_failures AUDIT_FAILURE_THRESHOLD;
    critical ← json_ge consecutive_failures 6;
    major ← json_ge consecutive_failures 4;
    minor ← json_ge consecutive_failures 2;
    let severity :=
      if violated : bool then
        if critical : bool then lit "critical" else if major : bool then lit "major" else if minor : bool then lit "minor" else lit "warning"
      else lit "none" in
    slash_result violated severity evidence
      (json_str consecutive_failures ++ lit " consecutive audit failures" ++
       (if violated : bool then lit " (threshold: " ++ str_int AUDIT_FAILURE_THRESHOLD ++ lit ")" else []))
      (lit "audit_failure")).
Definition AuditFailureCondition (stake_allocation_bps : Z) : SlashingCondition :=
  {| sc_condition_id := lit "audit_failure";
     sc_description := lit "Storage proof audit failure (3 consecutive failures → eviction)";
     sc_stake_allocation_bps := stake_allocation_bps; sc_evaluate := evaluate_audit_failure |}.

Definition MIN_CORROBORATIONS : Z := 2.
Definition evaluate_data_withholding (evidence : bytes) : result SlashResult :=
  with_evidence (lit "data_withholding") evidence (fun data =>
    refused_fetches ← json_get data (lit "refused_fetches") (JInt 0);
    corroborating_nodes ← json_get data (lit "corroborating_nodes") (JInt 0);
    refused ← json_ge refused_fetches 3;
    violated ← (if refused : bool then json_ge corroborating_nodes MIN_CORROBORATIONS else Ok false);
    slash_result violated (if violated : bool then lit "major" else lit "none") evidence
      (json_str refused_fetches ++ lit " refused fetches, " ++ json_str corroborating_nodes ++ lit " corroborating nodes")
      (lit "data_withholding")).
Definition DataWithholdingCondition (stake_allocation_bps : Z) : SlashingCondition :=
  {| sc_condition_id := lit "data_withholding"; sc_description := lit "Selective data withholding (refuses valid fetches)";
     sc_stake_allocation_bps := stake_allocation_bps; sc_evaluate := evaluate_data_withholding |}.

Definition evaluate_latency (max_avg_latency_ms : float64) (min_samples : Z) (evidence : bytes) : result SlashResult :=
  with_evidence (lit "latency_degradation") evidence (fun data =>
    avg_latency_ms ← json_get data (lit "avg_latency_ms") (JFloat f64_zero);
    sample_count ← json_get data (lit "sample_count") (JInt 0);
    slow ← json_gt_float avg_latency_ms max_avg_latency_ms;
    violated ← (if slow : bool then json_ge sample_count min_samples else Ok false);
    avg ← json_fixed1 avg_latency_ms;
    slash_result violated (if violated : bool then lit "minor" else lit "none") evidence
      (lit "avg latency " ++ avg ++ lit "ms over " ++ json_str sample_count ++ lit " samples (threshold: " ++
       json_str (JFloat max_avg_latency_ms) ++ lit "ms)")
      (lit "latency_degradation")).
Definition LatencyDegradationCondition (stake_allocation_bps : Z) (max_avg_latency_ms : float64) (min_samples : Z) : SlashingCondition :=
  {| sc_condition_id := lit "latency_degradation"; sc_description := lit "Sustained latency above acceptable threshold";
     sc_stake_allocation_bps := stake_allocation_bps; sc_evaluate := evaluate_latency max_avg_latency_ms min_samples |}.

Definition f64_fifth : float64 := 0x3FC999999999999A.
Definition evaluate_proof_failure (evidence : bytes) : result SlashResult :=
  with_evidence (lit "proof_failure") evidence (fun data =>
    proof_failures ← json_get data (lit "proof_failures") (JInt 0);
    total_challenges ← json_get data (lit "total_challenges") (JInt 0);
    failed ← json_gt proof_failures 0;
    violated ← (if failed : bool then json_gt total_challenges 0 else Ok false);
    severity ← (if violated : bool then
                  failure_rate ← json_truediv proof_failures total_challenges;
                  Ok (if f64_gt failure_rate f64_half then lit "critical" else if f64_gt failure_rate f64_fifth then lit "major" else lit "minor")
                else Ok (lit "none"));
    slash_result violated severity evidence
      (json_str proof_failures ++ lit "/" ++ json_str total_challenges ++ lit " PDP proofs failed")
      (lit "proof_failure")).
Definition ProofFailureCondition (stake_allocation_bps : Z) : SlashingCondition :=
  {| sc_condition_id := lit "proof_failure"; sc_description := lit "PDP proof verification failure (cryptographic)";
     sc_stake_allocation_bps := stake_allocation_bps; sc_evaluate := evaluate_proof_failure |}.

(** ** The registry *)
Record SlashingConditionRegistry : Type := { reg_conditions : list (pystr * SlashingCondition); reg_max_total_bps : Z }.
Definition new_condition_registry (max_total_allocation_bps : Z) : SlashingConditionRegistry :=
  {| reg_conditions := []; reg_max_total_bps := max_total_allocation_bps |}.
Definition total_allocation_bps (r : SlashingConditionRegistry) : Z := sumZ (map sc_stake_allocation_bps (reg_conditions r).*2).

Definition register_condition (r : SlashingConditionRegistry) (c : SlashingCondition) : result SlashingConditionRegistry :=
  if bool_decide (is_Some (dict_find (reg_conditions r) (sc_condition_id c))) then Err (ValueError "Condition already registered")
  else if reg_max_total_bps r <? total_allocation_bps r + sc_stake_allocation_bps c
  then Err (ValueError "Total stake allocation would exceed the maximum")
  else Ok {| reg_conditions := dict_set (reg_conditions r) (sc_condition_id c) c; reg_max_total_bps := reg_max_total_bps r |}.

Definition unregister_condition (r : SlashingConditionRegistry) (condition_id : pystr) : bool * SlashingConditionRegistry :=
  (bool_decide (is_Some (dict_find (reg_conditions r) condition_id)),
   {| reg_conditions := dict_del (reg_conditions r) condition_id; reg_max_total_bps := reg_max_total_bps r |}).

Definition registry_evaluate (r : SlashingConditionRegistry) (condition_id : pystr) (evidence : bytes) : result SlashResult :=
  match dict_find (reg_conditions r) condition_id with
  | None => slash_result false (lit "none") evidence (lit "Unknown condition: " ++ condition_id) condition_id
  | Some c => sc_evaluate c evidence
  end.
Definition registry_evaluate_all (r : SlashingConditionRegistry) (evidence : bytes) : result (list SlashResult) :=
  mapR (fun c => sc_evaluate c evidence) (reg_conditions r).*2.
End Conditions.

(** * Disputes *)
Inductive DisputeResolution : Type := DISPUTE_PENDING | UPHELD | REJECTED.
#[export] Instance DisputeResolution_eq_dec : EqDecision DisputeResolution.
Proof. solve_decision. Defined.

Record IntersubjectiveDispute : Type := {
  dp_dispute_id : pystr;
  dp_challenger : pystr;
  dp_target : pystr;
  dp_evidence_uri : pystr;
  dp_evidence_hash : pystr;
  dp_dispute_bond : Z;
  dp_slash_amount : Z;
  dp_resolution : DisputeResolution;
  dp_votes_for : Z;
  dp_votes_against : Z;
  dp_created_epoch : Z;
  dp_voting_deadline_epoch : Z;
  dp_resolved_epoch : Z
}.

Definition total_votes (d : IntersubjectiveDispute) : Z := dp_votes_for d + dp_votes_against d.
Definition approval_ratio (d : IntersubjectiveDispute) : result float64 :=
  if total_votes d =? 0 then Ok f64_zero else int_truediv (dp_votes_for d) (total_votes d).
Definition is_voting_open (d : IntersubjectiveDispute) (current_epoch : Z) : bool :=
  bool_decide (dp_resolution d = DISPUTE_PENDING) && (current_epoch <=? dp_voting_deadline_epoch d).
Definition can_resolve (d : IntersubjectiveDispute) (current_epoch : Z) : bool :=
  bool_decide (dp_resolution d = DISPUTE_PENDING) && (dp_voting_deadline_epoch d <? current_epoch).

Definition dp_vote (d : IntersubjectiveDispute) (for_ against : Z) : IntersubjectiveDispute :=
  {| dp_dispute_id := dp_dispute_id d; dp_challenger := dp_challenger d; dp_target := dp_target d; dp_evidence_uri := dp_evidence_uri d;
     dp_evidence_hash := dp_evidence_hash d; dp_dispute_bond := dp_dispute_bond d; dp_slash_amount := dp_slash_amount d;
     dp_resolution := dp_resolution d; dp_votes_for := dp_votes_for d + for_; dp_votes_against := dp_votes_against d + against;
     dp_created_epoch := dp_created_epoch d; dp_voting_deadline_epoch := dp_voting_deadline_epoch d; dp_resolved_epoch := dp_resolved_epoch d |}.
Definition dp_resolve (d : IntersubjectiveDispute) (r : DisputeResolution) (epoch : Z) : IntersubjectiveDispute :=
  {| dp_dispute_id := dp_dispute_id d; dp_challenger := dp_challenger d; dp_target := dp_target d; dp_evidence_uri := dp_evidence_uri d;
     dp_evidence_hash := dp_evidence_hash d; dp_dispute_bond := dp_dispute_bond d; dp_slash_amount := dp_slash_amount d;
     dp_resolution := r; dp_votes_for := dp_votes_for d; dp_votes_against := dp_votes_against d;
     dp_created_epoch := dp_created_epoch d; dp_voting_deadline_epoch := dp_voting_deadline_epoch d; dp_resolved_epoch := epoch |}.

Definition SUPERMAJORITY_THRESHOLD : float64 := 0x3FE51EB851EB851F.  (* 0.66 *)
Definition VOTING_PERIOD_EPOCHS : Z := 168.
Definition MIN_BOND_RATIO : float64 := 0x3F847AE147AE147B.  (* 0.01 *)

Record DisputeRegistry : Type := { dr_disputes : list (pystr * IntersubjectiveDispute); dr_next_id : Z }.
Definition new_dispute_registry : DisputeRegistry := {| dr_disputes := []; dr_next_id := 0 |}.

Definition create_dispute (r : DisputeRegistry) (challenger target : pystr) (target_stake : Z) (evidence_uri evidence_hash : pystr)
    (dispute_bond slash_amount current_epoch : Z) : result (IntersubjectiveDispute * DisputeRegistry) :=
  min_bond ← int_scale target_stake MIN_BOND_RATIO;
  if dispute_bond <? min_bond then Err (ValueError "Dispute bond below minimum")
  else
    let next_id := dr_next_id r + 1 in
    let dispute_id := lit "dispute-" ++ str_int next_id in
    let d := {| dp_dispute_id := dispute_id; dp_challenger := challenger; dp_target := target; dp_evidence_uri := evidence_uri;
                dp_evidence_hash := evidence_hash; dp_dispute_bond := dispute_bond; dp_slash_amount := slash_amount;
                dp_resolution := DISPUTE_PENDING; dp_votes_for := 0; dp_votes_against := 0; dp_created_epoch := current_epoch;
                dp_voting_deadline_epoch := current_epoch + VOTING_PERIOD_EPOCHS; dp_resolved_epoch := -1 |} in
    Ok (d, {| dr_disputes := dict_set (dr_disputes r) dispute_id d; dr_next_id := next_id |}).

Definition cast_vote (r : DisputeRegistry) (dispute_id : pystr) (voter_stake : Z) (vote_for : bool) (current_epoch : Z)
    : bool * DisputeRegistry :=
  match dict_find (dr_disputes r) dispute_id with
  | None => (false, r)
  | Some d =>
      if negb (is_voting_open d current_epoch) then (false, r)
      else
        let d := if vote_for then dp_vote d voter_stake 0 else dp_vote d 0 voter_stake in
        (true, {| dr_disputes := dict_set (dr_disputes r) dispute_id d; dr_next_id := dr_next_id r |})
  end.

Definition resolve_dispute (r : DisputeRegistry) (dispute_id : pystr) (current_epoch : Z)
    : result (option DisputeResolution * DisputeRegistry) :=
  match dict_find (dr_disputes r) dispute_id with
  | None => Ok (None, r)
  | Some d =>
      if negb (can_resolve d current_epoch) then Ok (None, r)
      else
        ratio ← approval_ratio d;
        let res := if f64_ge ratio SUPERMAJORITY_THRESHOLD then UPHELD else REJECTED in
        Ok (Some res, {| dr_disputes := dict_set (dr_disputes r) dispute_id (dp_resolve d res current_epoch); dr_next_id := dr_next_id r |})
  end.

Definition pending_disputes (r : DisputeRegistry) : list IntersubjectiveDispute :=
  List.filter (fun d => bool_decide (dp_resolution d = DISPUTE_PENDING)) (dr_disputes r).*2.

(** * Commit-reveal *)
Record CommitRevealEntry : Type := {
  cr_commitment_hash : pystr;
  cr_submitter : pystr;
  cr_commit_epoch : Z;
  cr_revealed : bool;
  cr_evidence : option bytes;
  cr_salt : option bytes
}.
Definition REVEAL_WINDOW_EPOCHS : Z := 24.

Section CommitReveal.
Context (env : hash_env).
Abbreviation CommitRevealEnforcement := (list (pystr * CommitRevealEntry)).

Definition cr_commit (c : CommitRevealEnforcement) (salt evidence : bytes) (submitter : pystr) (current_epoch : Z)
    : result (pystr * CommitRevealEnforcement) :=
  commitment_hash ← canonical_hash env (evidence ++ salt);
  Ok (commitment_hash, dict_set c commitment_hash
    {| cr_commitment_hash := commitment_hash; cr_submitter := submitter; cr_commit_epoch := current_epoch; cr_revealed := false;
       cr_evidence := Some evidence; cr_salt := Some salt |}).

Definition cr_reveal (c : CommitRevealEnforcement) (commitment_hash : pystr) (evidence salt : bytes) (current_epoch : Z)
    : result (option bytes * CommitRevealEnforcement) :=
  match dict_find c commitment_hash with
  | None => Ok (None, c)
  | Some entry =>
      if cr_revealed entry then Ok (None, c)
      else
        h ← canonical_hash env (evidence ++ salt);
        if negb (bool_decide (h = commitment_hash)) then Ok (None, c)
        else if current_epoch <? cr_commit_epoch entry + 1 then Ok (None, c)
        else if cr_commit_epoch entry + REVEAL_WINDOW_EPOCHS <? current_epoch then Ok (None, c)
        else Ok (Some evidence, dict_set c commitment_hash
               {| cr_commitment_hash := cr_commitment_hash entry; cr_submitter := cr_submitter entry; cr_commit_epoch := cr_commit_epoch entry;
                  cr_revealed := true; cr_evidence := Some evidence; cr_salt := Some salt |})
  end.

Definition cr_expired (current_epoch : Z) (e : CommitRevealEntry) : bool :=
  negb (cr_revealed e) && (cr_commit_epoch e + REVEAL_WINDOW_EPOCHS <? current_epoch).
Definition cleanup_expired (c : CommitRevealEnforcement) (current_epoch : Z) : Z * CommitRevealEnforcement :=
  let expired := (List.filter (fun p => cr_expired current_epoch p.2) c).*1 in
  (Z.of_nat (length expired), fold_left (fun c h => dict_del c h) expired c).
End CommitReveal.

(** * Batches *)
Record BatchSlashEntry : Type := {
  be_node_id : pystr;
  be_condition_id : pystr;
  be_evidence_hash : pystr;
  be_slash_amount : Z;
  be_severity : pystr
}.
Abbreviation BatchSlashingAccumulator := (list (Z * list BatchSlashEntry)).

Definition pending_for_epoch (b : BatchSlashingAccumulator) (epoch : Z) : list BatchSlashEntry := default [] (dict_find b epoch).
Definition batch_add (b : BatchSlashingAccumulator) (epoch : Z) (e : BatchSlashEntry) : BatchSlashingAccumulator :=
  dict_set b epoch (pending_for_epoch b epoch ++ [e]).
Definition finalize_epoch (b : BatchSlashingAccumulator) (epoch : Z) : list BatchSlashEntry * BatchSlashingAccumulator :=
  (pending_for_epoch b epoch, dict_del b epoch).
Definition pending_epochs (b : BatchSlashingAccumulator) : list Z := sort_by Z.leb b.*1.

(** * The runtime invariants *)
Definition check_safety_s1 (r : SlashResult) (node_was_slashed : bool) : bool := if node_was_slashed then sr_violated r else true.
Definition check_safety_s2 (all_audits_passed all_pdp_passed offense_incremented : bool) : bool :=
  if all_audits_passed && all_pdp_passed then negb offense_incremented else true.
Definition check_safety_s3 (pending_slash_reversed stake_deducted : bool) : bool := if pending_slash_reversed then negb stake_deducted else true.
Definition check_safety_s4 (total_slashed stake : Z) : bool := total_slashed <=? stake.
Definition check_liveness_l1 (consecutive_failures eviction_threshold : Z) (is_evicted : bool) : bool :=
  if eviction_threshold <=? consecutive_failures then is_evicted else true.
Definition check_liveness_l3 (offense_count : Z) : bool := 0 <=? offense_count.
(** [getattr(p, "_offense_event_id", None)]: a pending slash has no such
    attribute. *)
Definition offense_event_id (p : PendingSlash) : option pystr := None.
Definition check_uniqueness_u1 (pending_slashes_this_epoch : list PendingSlash) (node_id offense_event : pystr) : bool :=
  Z.of_nat (length (List.filter (fun p => bool_decide (ps_node_id p = node_id) && bool_decide (offense_event_id p = Some offense_event))
    pending_slashes_this_epoch)) <=? 1.
Definition check_correlation_c1 (correlation_multiplier max_multiplier : float64) : bool :=
  f64_le f64_one correlation_multiplier && f64_le correlation_multiplier max_multiplier.
Definition check_correlation_c2 (concurrent_slashed_stake : Z) (correlation_multiplier : float64) : bool :=
  if concurrent_slashed_stake =? 0 then bool_decide (f64_compare correlation_multiplier f64_one = Some Eq) else true.
Definition check_economic_e1 (fee operator_share burn endowment insurance : Z) : bool :=
  Z.abs (operator_share + burn + endowment + insurance - fee) <=? 1.
Definition check_economic_e2 (claimable_t claimable_t_plus_1 : Z) : bool := claimable_t <=? claimable_t_plus_1.

(** * Challenges sample distinct shards *)
Lemma probe_stuck fuel total idx seen : 0 < total -> 0 <= idx < total -> probe fuel total idx seen ∈ seen ->
  forall j, 0 <= j <= Z.of_nat fuel -> (idx + j) mod total ∈ seen.
Proof.
  intros Ht. revert idx. induction fuel as [|fuel IH]; intros idx Hi Hin j Hj; cbn [probe] in Hin; destruct (bool_decide_reflect (idx ∈ seen)) as [Hs|Hs]; try done.
  - replace (idx + j) with idx by lia. by rewrite Z.mod_small.
  - destruct (decide (j = 0)) as [->|Hj0]; [by rewrite Z.add_0_r, Z.mod_small|].
    replace (idx + j) with (idx + 1 + (j - 1)) by lia. rewrite <- Zplus_mod_idemp_l. apply IH; [by apply Z.mod_pos_bound|done|lia].
Qed.

Lemma probe_range fuel total idx seen : 0 < total -> 0 <= idx < total -> 0 <= probe fuel total idx seen < total.
Proof.
  intros Ht. revert idx. induction fuel as [|fuel IH]; intros idx Hi; cbn [probe]; destruct (bool_decide _); try done.
  apply IH. by apply Z.mod_pos_bound.
Qed.

Lemma probe_fresh total idx seen : 0 <= idx < total -> (length seen < Z.to_nat total)%nat -> probe (length seen) total idx seen ∉ seen.
Proof.
  intros Hi Hlen Hin. assert (0 < total) as Ht by lia. pose proof (probe_stuck _ _ _ _ Ht Hi Hin) as Hall.
  set (vis := map (fun j => (idx + Z.of_nat j) mod total) (seq 0 (S (length seen)))).
  assert (NoDup vis) as Hnd.
  { unfold vis. apply NoDup_fmap_2_strong; [|apply NoDup_ListNoDup, seq_NoDup]. intros i j Hi' Hj' E.
    apply list_elem_of_In, in_seq in Hi', Hj'.
    assert ((Z.of_nat i - Z.of_nat j) mod total = 0) as E0.
    { replace (Z.of_nat i - Z.of_nat j) with ((idx + Z.of_nat i) - (idx + Z.of_nat j)) by lia. rewrite Zminus_mod, E, Z.sub_diag. apply Z.mod_0_l. lia. }
    apply Z.mod_divide in E0 as [k Hk]; [|lia]. assert (k = 0) by nia. lia. }
  assert (vis ⊆ seen) as Hsub.
  { intros x (j & -> & Hj)%elem_of_map. apply list_elem_of_In, in_seq in Hj. apply Hall. lia. }
  apply (NoDup_submseteq _ _ Hnd), submseteq_length in Hsub. unfold vis in Hsub. rewrite length_map, length_seq in Hsub. lia.
Qed.

Lemma challenge_indices_spec rng total n : n <= total ->
  NoDup (challenge_indices rng total n) /\ length (challenge_indices rng total n) = Z.to_nat n /\
  Forall (fun i => 0 <= i < total) (challenge_indices rng total n).
Proof.
  intros Hn. unfold challenge_indices.
  assert (forall k, (k <= Z.to_nat n)%nat -> let l := fold_left (fun indices i =>
      indices ++ [probe (length indices) total ((rng + Z.of_nat i * 31) mod total) indices]) (seq 0 k) [] in
    NoDup l /\ length l = k /\ Forall (fun i => 0 <= i < total) l) as H; [|by apply H].
  induction k as [|k IH]; intros Hk; [by repeat constructor|]. rewrite seq_S, fold_left_app. cbn [fold_left Nat.add].
  destruct (IH ltac:(lia)) as (H1 & H2 & H3). set (l := fold_left _ (seq 0 k) []) in *. cbv zeta.
  assert (0 <= (rng + Z.of_nat k * 31) mod total < total) as Hm by (apply Z.mod_pos_bound; lia). split_and!.
  - apply NoDup_app. split; [done|]. split; [|apply NoDup_singleton]. intros x Hx ->%list_elem_of_singleton.
    revert Hx. apply probe_fresh; [done|lia].
  - rewrite length_app, H2. cbn. lia.
  - apply Forall_app. split; [done|]. apply Forall_singleton, probe_range; [lia|done].
Qed.

Lemma mapR_length {A B} (f : A -> result B) xs ys : mapR f xs = Ok ys -> length ys = length xs.
Proof. intros H. apply mapR_Ok in H. symmetry. by eapply Forall2_length. Qed.

Lemma mapR_total {A B} (f : A -> result B) xs : (forall x, x ∈ xs -> exists y, f x = Ok y) -> exists ys, mapR f xs = Ok ys.
Proof.
  induction xs as [|x xs IH]; intros H; [by eexists|]. cbn. destruct (H x ltac:(by left)) as [y ->].
  destruct IH as [ys ->]; [intros z Hz; apply H; by right|]. by eexists.
Qed.

(** A challenge samples distinct shards.  Whatever the seed, the index
    loop ends (its linear probing finds a free index within as many steps as
    indices are taken) with [min(sample_size, total_shards)] distinct indices
    in range, none for a non-positive size; and with an approved canonical
    hash and at most 2^32 shards the challenge is built, with one coefficient
    an index and the deadline after the epoch. *)
Theorem challenge_samples env entity_id total sample epoch deadline : 
  let indices := challenge_indices (be_decode (take 8 (internal_hash_bytes env (entity_id ++ lit ":" ++ str_int epoch ++ lit ":pdp")))) total (Z.min sample total) in
  NoDup indices /\ length indices = Z.to_nat (Z.min sample total) /\ Forall (fun i => 0 <= i < total) indices /\
  (is_ok (canonical_hash env []) = true -> total <= 2 ^ 32 -> exists c,
    generate_challenge env entity_id total sample epoch deadline = Ok c /\ pc_shard_indices c = indices /\
    length (pc_coefficients c) = length indices /\ pc_deadline_epoch c = epoch + deadline).
Proof.
  intros indices. destruct (challenge_indices_spec (be_decode (take 8 (internal_hash_bytes env (entity_id ++ lit ":" ++ str_int epoch ++ lit ":pdp")))) total (Z.min sample total)) as (H1 & H2 & H3).
  { lia. }
  split; [done|]. split; [done|]. split; [done|]. intros Hc Ht. unfold generate_challenge. cbv zeta. fold indices.
  set (seed := internal_hash_bytes _ _).
  destruct (mapR_total (fun idx => i ← struct_pack 4 idx; Ok (take 16 (internal_hash_bytes env (seed ++ i)))) indices) as [coeffs Hco].
  { intros i Hi. eapply Forall_forall in H3; [|exact Hi]. cbn in H3. assert (struct_pack 4 i = Ok (be_encode 4 i)) as ->.
    { apply struct_pack_Ok. change (256 ^ Z.of_nat 4) with (2 ^ 32). split; [lia|done]. } by eexists. }
  rewrite Hco. cbn [mbind result_bind].
  assert (exists h, canonical_hash env (entity_id ++ lit ":" ++ str_int epoch ++ lit ":" ++ str_ints (sort_by Z.leb indices)) = Ok h) as [h ->].
  { revert Hc. unfold canonical_hash. destruct (fips_provider env); [by eexists|]. destruct (COMPLIANCE_APPROVED _); [by eexists|done]. }
  eexists. split; [reflexivity|]. cbn. split; [done|]. split; [by apply mapR_length in Hco|done].
Qed.

(** * What a proof proves *)
Lemma xor_into_length a b c : xor_into a b = Ok c -> length c = length a.
Proof.
  revert b c; induction a as [|x a IH]; intros b c; cbn; [by intros [= <-]|]. destruct b as [|y b]; [done|].
  destruct (xor_into a b) eqn:E; [|done]. cbn. intros [= <-]. cbn. f_equal. by eapply IH.
Qed.
Lemma xor_into_ok a b : (length a <= length b)%nat -> exists c, xor_into a b = Ok c /\ length c = length a.
Proof.
  revert b; induction a as [|x a IH]; intros b Hl; cbn in *; [by eexists|]. destruct b as [|y b]; cbn in *; [lia|].
  destruct (IH b ltac:(lia)) as (c & -> & Hc). eexists. split; [reflexivity|]. cbn. by rewrite Hc.
Qed.
Lemma xor_parts_ok n parts : Forall (fun p => length p = n) parts -> exists agg, xor_parts n parts = Ok agg.
Proof.
  unfold xor_parts. intros H. assert (length (replicate n 0) = n) as Hz by apply length_replicate. revert Hz.
  generalize (replicate n 0). induction H as [|p parts Hp _ IH]; intros acc Hacc; cbn; [by eexists|].
  destruct (xor_into_ok acc p ltac:(lia)) as (c & -> & Hc). apply IH. lia.
Qed.

Lemma shard_tag_length env sh coeff : hash_library_ok (env_lib env) ->
  length (shard_tag env sh coeff) = digest_bytes_of (internal_hash_fn (env_profile env)).
Proof. intros H. by apply hash_digest_raw_ok. Qed.

Lemma expected_parts_honest env shard_hashes shard_data challenged :
  (forall idx c, (idx, c) ∈ challenged -> exists data sh, dict_find shard_data idx = Some data /\ canonical_hash env data = Ok sh /\ dict_find shard_hashes idx = Some sh) ->
  exists parts, expected_parts env shard_hashes challenged = Some parts /\ mapR (shard_part env shard_data) challenged = Ok parts /\ length parts = length challenged.
Proof.
  induction challenged as [|[idx c] ch IH]; intros H; [by exists []|]. cbn [expected_parts mapR].
  destruct (H idx c ltac:(by left)) as (data & sh & Hd & Hsh & ->). destruct IH as (parts & -> & -> & Hl); [intros i c' Hin; apply (H i c'); by right|].
  unfold shard_part. cbn [fst snd]. rewrite Hd, Hsh. cbn [mbind result_bind]. eexists. split; [reflexivity|]. split; [done|]. cbn. by rewrite Hl.
Qed.

Lemma expected_parts_lengths env hashes ch parts : hash_library_ok (env_lib env) -> expected_parts env hashes ch = Some parts ->
  Forall (fun p => length p = digest_bytes_of (internal_hash_fn (env_profile env))) parts.
Proof.
  intros Hl. revert parts. induction ch as [|[idx c] ch IH]; intros parts; cbn; [by intros [= <-]|].
  destruct (dict_find hashes idx); [|done]. destruct (expected_parts env hashes ch); [|done]. intros [= <-]. constructor; [by apply shard_tag_length|auto].
Qed.

(** Possession proofs are complete and check hashes, not data.  A node
    that holds every challenged shard of a registered entity, under the
    registered hashes, computes a proof the verifier accepts; and the verifier
    accepts a proof if and only if its tag is the aggregate of the tags of the
    registered hashes, which are public: a node that holds no shard at all
    and knows the commitment record alone is accepted just the same, at any
    epoch, the deadline being nowhere checked. *)
Theorem pdp_exact env v entity_id shard_hashes challenge : hash_library_ok (env_lib env) ->
  dict_find v entity_id = Some shard_hashes -> zip (pc_shard_indices challenge) (pc_coefficients challenge) <> [] ->
  (forall idx, idx ∈ pc_shard_indices challenge -> is_Some (dict_find shard_hashes idx)) ->
  exists agg, generate_expected_tag env v entity_id (pc_shard_indices challenge) (pc_coefficients challenge) = Ok (Some agg) /\
  (forall proof, verify_proof env v entity_id challenge proof = Ok true <->
     pp_challenge_id proof = pc_challenge_id challenge /\ pp_aggregate_tag proof = agg) /\
  (forall shard_data ms,
     (forall idx, idx ∈ pc_shard_indices challenge -> exists data, dict_find shard_data idx = Some data /\
        option_map Ok (dict_find shard_hashes idx) = Some (canonical_hash env data)) ->
     exists proof, compute_proof_from_shards env shard_data (pc_shard_indices challenge) (pc_coefficients challenge) (pc_challenge_id challenge) ms = Ok proof /\
       verify_proof env v entity_id challenge proof = Ok true).
Proof.
  intros Hl Hv Hne Hreg. set (ch := zip (pc_shard_indices challenge) (pc_coefficients challenge)) in *.
  assert (exists parts, expected_parts env shard_hashes ch = Some parts /\ parts <> []) as (parts & Hp & Hpne).
  { assert (forall i c, (i, c) ∈ ch -> is_Some (dict_find shard_hashes i)) as Hin by (intros i c Hin; apply Hreg; by eapply elem_of_zip_l).
    clear -Hne Hin. induction ch as [|[i c] ch IH]; [done|]. cbn. destruct (Hin i c ltac:(by left)) as [sh ->].
    destruct ch as [|x ch]; [by eexists|]. destruct IH as (ps & -> & _); [done|intros i' c' H; apply (Hin i' c'); by right|]. by eexists. }
  destruct parts as [|p parts]; [done|]. pose proof (expected_parts_lengths env _ _ _ Hl Hp) as Hlen.
  assert (length p = digest_bytes_of (internal_hash_fn (env_profile env))) as Hlp by (by inversion Hlen).
  destruct (xor_parts_ok (length p) (p :: parts)) as [agg Hagg]; [by rewrite Hlp|].
  assert (generate_expected_tag env v entity_id (pc_shard_indices challenge) (pc_coefficients challenge) = Ok (Some agg)) as Hexp.
  { unfold generate_expected_tag. rewrite Hv. fold ch. by rewrite Hp, Hagg. }
  assert (forall proof, verify_proof env v entity_id challenge proof = Ok true <->
     pp_challenge_id proof = pc_challenge_id challenge /\ pp_aggregate_tag proof = agg) as Hver.
  { intros proof. unfold verify_proof. rewrite Hexp. cbn [mbind result_bind].
    destruct (bool_decide_reflect (pp_challenge_id proof = pc_challenge_id challenge)); cbn [negb]; [|intuition congruence].
    split; [by intros [= ->%bool_decide_eq_true_1]|]. intros [_ ->]. by rewrite bool_decide_eq_true_2. }
  exists agg. split; [done|]. split; [done|]. intros shard_data ms Hd.
  destruct (expected_parts_honest env shard_hashes shard_data ch) as (ps & Hps & Hm & _).
  { intros i c Hin. destruct (Hd i) as (data & Hdata & Hh); [by eapply elem_of_zip_l|].
    destruct (dict_find shard_hashes i) as [sh|]; [|done]. injection Hh as Hh. exists data, sh. by rewrite <- Hh. }
  rewrite Hp in Hps. injection Hps as <-. unfold compute_proof_from_shards. fold ch. rewrite Hm. cbn [mbind result_bind]. rewrite Hagg. cbn.
  eexists. split; [reflexivity|]. by apply Hver.
Qed.

(** * Conditions and their registry *)
Inductive registry_op : Type := OpRegister (c : SlashingCondition) | OpUnregister (id : pystr).

Definition registry_step (r : SlashingConditionRegistry) (o : registry_op) : SlashingConditionRegistry :=
  match o with
  | OpRegister c => match register_condition r c with Ok r => r | Err _ => r end
  | OpUnregister id => (unregister_condition r id).2
  end.

Definition registry_ok (r : SlashingConditionRegistry) : Prop :=
  NoDup (reg_conditions r).*1 /\ Forall (fun p => sc_condition_id p.2 = p.1 /\ 0 <= sc_stake_allocation_bps p.2) (reg_conditions r) /\
  total_allocation_bps r <= Z.max 0 (reg_max_total_bps r).

Lemma dict_set_new_sum {K A} `{EqDecision K} (f : A -> Z) (d : list (K * A)) k v : k ∉ d.*1 ->
  sumZ (map f (dict_set d k v).*2) = sumZ (map f d.*2) + f v.
Proof. intros Hk. rewrite dict_set_new, fmap_app, map_app, sumZ_app by done. cbn. lia. Qed.

Lemma dict_del_sum_le {K A} `{EqDecision K} (f : A -> Z) (d : list (K * A)) k : Forall (fun p => 0 <= f p.2) d ->
  sumZ (map f (dict_del d k).*2) <= sumZ (map f d.*2).
Proof.
  induction 1 as [|[k' v] d Hv _ IH]; [done|]. cbn [dict_del]. cbn [snd] in Hv.
  destruct (decide (k' = k)); rewrite !fmap_cons; cbn [map snd]; rewrite !sumZ_cons. all: change (fmap (M := list) f) with (map f); lia.
Qed.

Lemma registry_step_ok r o : (match o with OpRegister c => 0 <= sc_stake_allocation_bps c | _ => True end) ->
  registry_ok r -> registry_ok (registry_step r o).
Proof.
  intros Hc (Hnd & Hall & Hsum). unfold registry_ok. destruct o as [c|id]; cbn [registry_step].
  - unfold register_condition. destruct (bool_decide_reflect (is_Some (dict_find (reg_conditions r) (sc_condition_id c)))) as [|Hn]; [done|].
    apply eq_None_not_Some, dict_find_None in Hn.
    destruct (Z.ltb_spec (reg_max_total_bps r) (total_allocation_bps r + sc_stake_allocation_bps c)); [done|]. cbn [reg_conditions reg_max_total_bps]. split_and!.
    + by apply dict_set_NoDup.
    + by apply dict_set_Forall.
    + unfold total_allocation_bps in *. cbn [reg_conditions]. rewrite dict_set_new_sum by done. lia.
  - cbn. split_and!; [by apply dict_del_NoDup|by apply dict_del_Forall|].
    unfold total_allocation_bps in *. cbn [reg_conditions]. etransitivity; [|exact Hsum]. apply dict_del_sum_le.
    eapply Forall_impl; [exact Hall|]. by intros p [_ ?].
Qed.

(** The stake at risk is bounded.  After any registrations and removals of
    conditions with non-negative allocations, names are unique and the
    allocations sum to at most the registry's maximum; a registered condition
    is the one evaluated under its name, and an unknown name is never a
    violation. *)
Theorem allocation_bounded env max ops : 0 <= max ->
  Forall (fun o => match o with OpRegister c => 0 <= sc_stake_allocation_bps c | _ => True end) ops ->
  let r := fold_left registry_step ops (new_condition_registry max) in
  0 <= total_allocation_bps r <= max /\ NoDup (reg_conditions r).*1 /\
  (forall c ev, (sc_condition_id c, c) ∈ reg_conditions r -> registry_evaluate env r (sc_condition_id c) ev = sc_evaluate c ev) /\
  (forall id ev res, dict_find (reg_conditions r) id = None -> registry_evaluate env r id ev = Ok res -> sr_violated res = false) /\
  (forall c r', register_condition r c = Ok r' -> 0 <= sc_stake_allocation_bps c -> total_allocation_bps r' = total_allocation_bps r + sc_stake_allocation_bps c).
Proof.
  intros Hmax Hops r. assert (registry_ok r /\ reg_max_total_bps r = max) as [(Hnd & Hall & Hsum) Hm].
  { subst r. revert Hops. assert (registry_ok (new_condition_registry max) /\ reg_max_total_bps (new_condition_registry max) = max) as H.
    { split; [|done]. split_and!; [constructor|constructor|cbn; lia]. }
    revert H. generalize (new_condition_registry max). induction ops as [|o ops IH]; intros r [H Hr] Hops; [done|].
    apply Forall_cons in Hops as [Ho Hops]. cbn [fold_left]. apply IH; [|done]. split; [by apply registry_step_ok|].
    rewrite <- Hr. destruct o; cbn; [|done]. unfold register_condition. destruct (bool_decide _); [done|]. by destruct (_ <? _). }
  assert (0 <= total_allocation_bps r).
  { apply sumZ_nonneg, Forall_forall. intros x (c & -> & (p & -> & Hp)%list_elem_of_fmap)%elem_of_map. exact (proj2 (proj1 (Forall_forall _ _) Hall _ Hp)). }
  split; [lia|]. split; [done|]. split; [|split].
  - intros c ev Hin. unfold registry_evaluate. by rewrite (dict_find_elem _ _ c Hnd Hin).
  - intros id ev res Hn. unfold registry_evaluate. rewrite Hn. unfold slash_result. destruct (canonical_hash env ev); [|done]. cbn. by intros [= <-].
  - intros c r' E Hc. unfold register_condition in E. destruct (bool_decide_reflect (is_Some (dict_find (reg_conditions r) (sc_condition_id c)))) as [|Hn]; [done|].
    apply eq_None_not_Some, dict_find_None in Hn. destruct (_ <? _); [done|]. injection E as <-. unfold total_allocation_bps. cbn. by apply dict_set_new_sum.
Qed.

(** The bound needs the allocations to be non-negative, which registration
    does not check: after one of minus 100 % a single condition may put
    twice the stake at risk. *)
Example negative_allocation :
  let c id bps := {| sc_condition_id := lit id; sc_description := []; sc_stake_allocation_bps := bps; sc_evaluate := fun _ => Err RuntimeError |} in
  exists r1 r2, register_condition (new_condition_registry 10000) (c "refund"%string (-10000)) = Ok r1 /\
  register_condition r1 (c "x"%string 20000) = Ok r2 /\ total_allocation_bps r2 = 10000 /\
  total_allocation_bps (unregister_condition r2 (lit "refund")).2 = 20000.
Proof. eexists _, _. by split_and!. Qed.

Section ConditionTheorems.
Context (env : hash_env) (json_loads : bytes -> option json) (json_str : json -> pystr).

(** The evidence a condition was given, as integers. *)
Definition evidence_ints (ev : bytes) (fields : list (pystr * Z)) : Prop :=
  exists d, json_loads ev = Some (JObj d) /\ Forall (fun f => dict_find d f.1 = Some (JInt f.2)) fields.

(** The conditions decide as documented, on integer evidence and an
    approved canonical hash.  Audit failures are a violation from the third
    one on, minor at 3, major at 4 and 5, critical from 6 (the branch for a
    warning is never taken); withholding is one, major, from three refused
    fetches corroborated by two nodes; a failed possession proof is one
    whenever there was a challenge.  Evidence that does not parse, and an
    outcome that is no violation, have severity none. *)
Theorem conditions_exact ev : is_ok (canonical_hash env []) = true ->
  (json_loads ev = None -> forall c, c ∈ [AuditFailureCondition env json_loads json_str 5000; DataWithholdingCondition env json_loads json_str 3000;
      LatencyDegradationCondition env json_loads json_str 1000 0x4059000000000000 10; ProofFailureCondition env json_loads json_str 4000] ->
    exists r, sc_evaluate c ev = Ok r /\ sr_violated r = false /\ sr_severity r = lit "none") /\
  (forall n, evidence_ints ev [(lit "consecutive_failures", n)] -> exists r, evaluate_audit_failure env json_loads json_str ev = Ok r /\
    sr_violated r = (3 <=? n) /\
    sr_severity r = (if 6 <=? n then lit "critical" else if 4 <=? n then lit "major" else if 3 <=? n then lit "minor" else lit "none")) /\
  (forall n m, evidence_ints ev [(lit "refused_fetches", n); (lit "corroborating_nodes", m)] -> exists r,
    evaluate_data_withholding env json_loads json_str ev = Ok r /\
    sr_violated r = (3 <=? n) && (2 <=? m) /\ sr_severity r = (if sr_violated r then lit "major" else lit "none")) /\
  (forall n m r, evidence_ints ev [(lit "proof_failures", n); (lit "total_challenges", m)] ->
    evaluate_proof_failure env json_loads json_str ev = Ok r ->
    sr_violated r = (0 <? n) && (0 <? m) /\ (sr_severity r = lit "none" <-> sr_violated r = false)).
Proof.
  intros Hc. assert (exists h, canonical_hash env ev = Ok h) as [h Hh].
  { revert Hc. unfold canonical_hash. destruct (fips_provider env); [by eexists|]. destruct (COMPLIANCE_APPROVED _); [by eexists|done]. }
  split; [|split; [|split]].
  - intros Hn c Hin. set_unfold in Hin. destruct_or!; subst c; cbn [sc_evaluate AuditFailureCondition DataWithholdingCondition LatencyDegradationCondition ProofFailureCondition];
      unfold evaluate_audit_failure, evaluate_data_withholding, evaluate_latency, evaluate_proof_failure, with_evidence, slash_result; rewrite Hn, Hh; by eexists.
  - intros n (d & Hd & Hf). rewrite Forall_singleton in Hf. cbn [fst snd] in Hf. unfold evaluate_audit_failure, with_evidence, slash_result, json_get.
    rewrite Hd, Hf. cbn [default mbind result_bind json_ge json_number AUDIT_FAILURE_THRESHOLD]. unfold AUDIT_FAILURE_THRESHOLD. rewrite Hh. cbn.
    eexists. split; [reflexivity|]. cbn. split; [done|].
    destruct (Z.leb_spec 3 n), (Z.leb_spec 6 n), (Z.leb_spec 4 n), (Z.leb_spec 2 n); done || lia.
  - intros n m (d & Hd & Hf). apply Forall_cons in Hf as [H1 H2]. rewrite Forall_singleton in H2. cbn [fst snd] in *. unfold evaluate_data_withholding, with_evidence, slash_result, json_get, MIN_CORROBORATIONS.
    rewrite Hd, H1, H2. cbn. destruct (3 <=? n); cbn; rewrite Hh; by eexists.
  - intros n m r (d & Hd & Hf). apply Forall_cons in Hf as [H1 H2]. rewrite Forall_singleton in H2. cbn [fst snd] in *. unfold evaluate_proof_failure, with_evidence, slash_result, json_get.
    rewrite Hd, H1, H2. cbn. destruct (0 <? n); cbn; [destruct (0 <? m); cbn|]; rewrite Hh; cbn; try (intros [= <-]; cbn; done).
    destruct (int_truediv n m) as [w|]; cbn; [|done]. intros [= <-]. cbn. split; [done|]. destruct (f64_gt w f64_half); [done|]. by destruct (f64_gt w f64_fifth).
Qed.
End ConditionTheorems.

(** * The life of a dispute *)
Inductive dispute_op : Type :=
| OpCreate (challenger target : pystr) (target_stake : Z) (evidence_uri evidence_hash : pystr) (bond amount epoch : Z)
| OpVote (id : pystr) (stake : Z) (vote_for : bool) (epoch : Z)
| OpResolve (id : pystr) (epoch : Z).

Definition dispute_step (r : DisputeRegistry) (o : dispute_op) : DisputeRegistry :=
  match o with
  | OpCreate challenger target stake uri h bond amount epoch =>
      match create_dispute r challenger target stake uri h bond amount epoch with Ok (_, r) => r | Err _ => r end
  | OpVote id stake vote_for epoch => (cast_vote r id stake vote_for epoch).2
  | OpResolve id epoch => match resolve_dispute r id epoch with Ok (_, r) => r | Err _ => r end
  end.
Definition dispute_run (ops : list dispute_op) : DisputeRegistry := fold_left dispute_step ops new_dispute_registry.

(** Identifiers in use are numbered up to the counter, so none is reused. *)
Definition dispute_ids_ok (r : DisputeRegistry) : Prop :=
  0 <= dr_next_id r /\ forall id, id ∈ (dr_disputes r).*1 -> exists k, 1 <= k <= dr_next_id r /\ id = lit "dispute-" ++ str_int k.


Lemma dispute_step_ids r o : dispute_ids_ok r -> dispute_ids_ok (dispute_step r o).
Proof.
  intros [H0 H]. destruct o as [ch tg st uri h bond amount epoch|id stake vf epoch|id epoch]; cbn [dispute_step].
  - unfold create_dispute. destruct (int_scale st MIN_BOND_RATIO) as [mb|]; cbn [mbind result_bind]; [|done]. destruct (bond <? mb); [done|].
    split; cbn [dr_disputes dr_next_id]; [lia|]. intros id Hid. rewrite dict_set_keys in Hid.
    assert (id ∈ (dr_disputes r).*1 \/ id = lit "dispute-" ++ str_int (dr_next_id r + 1)) as [Hin| ->].
    { destruct (decide _) in Hid; [by left|]. apply elem_of_app in Hid as [?|?%list_elem_of_singleton]; auto. }
    + destruct (H id Hin) as (k & Hk & ->). exists k. split; [lia|done].
    + exists (dr_next_id r + 1). split; [lia|done].
  - unfold cast_vote. destruct (dict_find _ id) as [d|] eqn:E; [|done]. destruct (negb _); [done|]. split; [done|]. cbn [snd dr_disputes dr_next_id]. intros id' Hid.
    rewrite dict_set_keys, decide_True in Hid by (apply list_elem_of_fmap; exists (id, d); split; [done|by apply dict_find_Some]). by apply H.
  - unfold resolve_dispute. destruct (dict_find _ id) as [d|] eqn:E; [|done]. destruct (negb _); [done|]. destruct (approval_ratio d); [|done]. split; [done|]. cbn [mbind result_bind dr_disputes dr_next_id].
    intros id' Hid. rewrite dict_set_keys, decide_True in Hid by (apply list_elem_of_fmap; exists (id, d); split; [done|by apply dict_find_Some]). by apply H.
Qed.

(** What nothing ever changes about a dispute. *)
Definition dispute_identity (d : IntersubjectiveDispute) :=
  (dp_dispute_id d, dp_challenger d, dp_target d, dp_evidence_uri d, dp_evidence_hash d, dp_dispute_bond d, dp_slash_amount d,
   dp_created_epoch d, dp_voting_deadline_epoch d).
(** The stakes that calls bring for ([side = true]) or against a dispute
    while it is pending: those of its votes up to the deadline. *)
Definition vote_stake (id : pystr) (deadline : Z) (side : bool) (o : dispute_op) : Z :=
  match o with
  | OpVote id' stake vote_for epoch => if bool_decide (id' = id) && (epoch <=? deadline) && Bool.eqb vote_for side then stake else 0
  | _ => 0
  end.
Definition stakes (id : pystr) (deadline : Z) (side : bool) (ops : list dispute_op) : Z := sumZ (map (vote_stake id deadline side) ops).
Definition tallied (id : pystr) (d : IntersubjectiveDispute) (ops : list dispute_op) (d' : IntersubjectiveDispute) : Prop :=
  dp_votes_for d' = dp_votes_for d + stakes id (dp_voting_deadline_epoch d) true ops /\
  dp_votes_against d' = dp_votes_against d + stakes id (dp_voting_deadline_epoch d) false ops.
(** A dispute after calls: as it was if it was resolved; else still pending,
    with the stakes of all the calls; or resolved by one of the calls, past
    the deadline, on the stakes of the calls before it. *)
Definition dispute_after (id : pystr) (d : IntersubjectiveDispute) (ops : list dispute_op) (d' : IntersubjectiveDispute) : Prop :=
  dispute_identity d' = dispute_identity d /\
  (dp_resolution d <> DISPUTE_PENDING /\ d' = d \/
   dp_resolution d = DISPUTE_PENDING /\ dp_resolution d' = DISPUTE_PENDING /\ dp_resolved_epoch d' = dp_resolved_epoch d /\ tallied id d ops d' \/
   dp_resolution d = DISPUTE_PENDING /\ exists before epoch after ratio, ops = before ++ OpResolve id epoch :: after /\
     dp_voting_deadline_epoch d < epoch /\ tallied id d before d' /\ dp_resolved_epoch d' = epoch /\ approval_ratio d' = Ok ratio /\
     dp_resolution d' = if f64_ge ratio SUPERMAJORITY_THRESHOLD then UPHELD else REJECTED).

Lemma stakes_app id deadline side a b : stakes id deadline side (a ++ b) = stakes id deadline side a + stakes id deadline side b.
Proof. unfold stakes. by rewrite map_app, sumZ_app. Qed.
Lemma dispute_after_nil id d : dispute_after id d [] d.
Proof.
  split; [done|]. destruct (decide (dp_resolution d = DISPUTE_PENDING)) as [E|]; [right; left|by left].
  split_and!; try done; unfold tallied, stakes; cbn; lia.
Qed.
(** One more call. *)
Lemma dispute_step_after r o id d0 ops d : dispute_ids_ok r -> dict_find (dr_disputes r) id = Some d -> dispute_after id d0 ops d ->
  exists d', dict_find (dr_disputes (dispute_step r o)) id = Some d' /\ dispute_after id d0 (ops ++ [o]) d'.
Proof.
  intros [H0 H] Hd Ha. assert (id ∈ (dr_disputes r).*1) as Hin by (apply list_elem_of_fmap; exists (id, d); split; [done|by apply dict_find_Some]).
  assert ((forall side, vote_stake id (dp_voting_deadline_epoch d0) side o = 0) \/ dp_resolution d <> DISPUTE_PENDING -> dispute_after id d0 (ops ++ [o]) d) as Hsame.
  { intros Hv. destruct Ha as [Hi [Hr|[(Hp & Hp' & He & Hf & Hg)|(Hp & b & e & a & ratio & -> & Hr)]]]; (split; [done|]).
    - by left.
    - right. left. destruct Hv as [Hv|Hv]; [|done]. split_and!; try done; split; rewrite stakes_app; [rewrite Hf|rewrite Hg]; unfold stakes at 3; cbn [map]; rewrite Hv; cbn; lia.
    - right. right. split; [done|]. exists b, e, (a ++ [o]), ratio. split; [by rewrite <- app_assoc|done]. }
  assert (dp_voting_deadline_epoch d = dp_voting_deadline_epoch d0) as Edl by (destruct Ha as [Hi _]; unfold dispute_identity in Hi; congruence).
  assert (dp_resolution d = DISPUTE_PENDING -> dp_resolution d0 = DISPUTE_PENDING /\ dp_resolved_epoch d = dp_resolved_epoch d0 /\ tallied id d0 ops d) as Hpend.
  { intros Hp. destruct Ha as [Hi [[Hr ->]|[(Hp0 & _ & He & Ht)|(Hp0 & b & e & a & ratio & _ & _ & _ & _ & _ & Hr)]]]; [done|done|]. rewrite Hp in Hr. by destruct (f64_ge _ _). }
  destruct o as [ch tg st uri h bond amount epoch|id' stake vf epoch|id' epoch]; cbn [dispute_step].
  - exists d. split; [|apply Hsame; by left]. unfold create_dispute. destruct (int_scale st MIN_BOND_RATIO) as [mb|]; cbn [mbind result_bind]; [|done].
    destruct (bond <? mb); [done|]. cbn [dr_disputes]. rewrite dict_find_set, decide_False; [done|]. intros <-. destruct (H _ Hin) as (k & Hk & E).
    apply app_inv_head, str_int_inj in E. lia.
  - unfold cast_vote. destruct (decide (id' = id)) as [->|Hne].
    2: { exists d. split; [|apply Hsame; left; intros side; cbn; by rewrite bool_decide_eq_false_2].
         destruct (dict_find _ id') as [x|]; [|done]. destruct (negb _); [done|]. cbn [snd dr_disputes]. by rewrite dict_find_set, decide_False. }
    rewrite Hd. destruct (is_voting_open d epoch) eqn:Eo; cbn [negb].
    + apply andb_true_iff in Eo as [Hp%bool_decide_eq_true_1 Hle]. destruct (Hpend Hp) as (Hp0 & He & Hf & Hg). eexists. cbn [snd dr_disputes].
      rewrite dict_find_set, decide_True by done. split; [reflexivity|]. destruct Ha as [Hi _].
      split; [destruct vf; exact Hi|]. right. left. rewrite Edl in Hle. unfold tallied. rewrite !stakes_app.
      unfold stakes at 2 4. cbn [map vote_stake]. rewrite bool_decide_eq_true_2, Hle by done. cbn [andb].
      destruct vf; cbn [Bool.eqb dp_vote dp_votes_for dp_votes_against dp_resolution dp_resolved_epoch]; rewrite ?Hf, ?Hg; cbn [sumZ fold_right]; split_and!; try done; lia.
    + exists d. split; [done|]. apply Hsame. apply andb_false_iff in Eo as [Hr%bool_decide_eq_false_1|Hle]; [by right|left].
      intros side. cbn. rewrite <- Edl, Hle. by rewrite andb_false_r.
  - unfold resolve_dispute. destruct (decide (id' = id)) as [->|Hne].
    2: { exists d. split; [|apply Hsame; by left]. destruct (dict_find _ id') as [x|]; [|done]. destruct (negb _); [done|].
         destruct (approval_ratio x); [|done]. cbn [mbind result_bind dr_disputes]. by rewrite dict_find_set, decide_False. }
    rewrite Hd. destruct (can_resolve d epoch) eqn:Eo; cbn [negb]; [|exists d; split; [done|apply Hsame; by left]].
    destruct (approval_ratio d) as [ratio|] eqn:Er; cbn [mbind result_bind]; [|exists d; split; [done|apply Hsame; by left]].
    apply andb_true_iff in Eo as [Hp%bool_decide_eq_true_1 Hlt%Z.ltb_lt]. destruct (Hpend Hp) as (Hp0 & He & Ht). eexists. cbn [dr_disputes].
    rewrite dict_find_set, decide_True by done. split; [reflexivity|]. destruct Ha as [Hi _]. split; [exact Hi|]. right. right. split; [done|].
    exists ops, epoch, [], ratio. split_and!; try done. by rewrite <- Edl.
Qed.
Lemma dispute_run_ids ops : dispute_ids_ok (dispute_run ops).
Proof.
  unfold dispute_run. assert (dispute_ids_ok new_dispute_registry) as H by (split; [done|]; intros id Hid; by apply not_elem_of_nil in Hid).
  revert H. generalize new_dispute_registry. induction ops as [|o ops IH]; intros r Hr; [done|]. cbn. by apply IH, dispute_step_ids.
Qed.


(** Two things the voting does not do: it does not know who votes, so one
    holder may vote twice; and 66 of 100 is enough, where the documentation
    of [resolve] asks for more than 66 %. *)
Example vote_twice :
  let ops := [OpCreate (lit "a") (lit "b") 1000 [] [] 10 500 0; OpVote (lit "dispute-1") 33 true 1; OpVote (lit "dispute-1") 33 true 1;
              OpVote (lit "dispute-1") 34 false 2; OpResolve (lit "dispute-1") 169] in
  option_map dp_resolution (dict_find (dr_disputes (dispute_run ops)) (lit "dispute-1")) = Some UPHELD.
Proof. vm_compute. reflexivity. Qed.

(** * Commit and reveal *)
Lemma dict_del_all {K A} `{EqDecision K} ks : forall (d : list (K * A)) k, NoDup d.*1 ->
  dict_find (fold_left (fun d k => dict_del d k) ks d) k = if decide (k ∈ ks) then None else dict_find d k.
Proof.
  induction ks as [|k0 ks IH]; intros d k Hd; cbn [fold_left]; [by rewrite decide_False by apply not_elem_of_nil|].
  rewrite IH, dict_find_del by (by try apply dict_del_NoDup). destruct (decide (k ∈ ks)) as [Hin|Hin].
  - rewrite decide_True; [done|by right].
  - destruct (decide (k0 = k)) as [<-|Hne]; [rewrite decide_True; [done|by left]|]. rewrite decide_False; [done|].
    by intros [->|?]%elem_of_cons.
Qed.

Lemma cleanup_find c now h : NoDup c.*1 ->
  dict_find (cleanup_expired c now).2 h = match dict_find c h with Some e => if cr_expired now e then None else Some e | None => None end.
Proof.
  intros Hnd. unfold cleanup_expired. cbn [snd]. rewrite dict_del_all by done.
  assert (h ∈ (List.filter (fun p => cr_expired now p.2) c).*1 <-> exists e, dict_find c h = Some e /\ cr_expired now e = true) as Hiff.
  { rewrite list_elem_of_fmap. split.
    - intros ([k e] & -> & [Hin He]%list_elem_of_In%filter_In). exists e. split; [|done]. apply dict_find_elem; [done|by apply list_elem_of_In].
    - intros (e & He%dict_find_Some & Hx). exists (h, e). split; [done|]. apply list_elem_of_In, filter_In. split; [by apply list_elem_of_In|done]. }
  destruct (decide _) as [Hin|Hin].
  - apply Hiff in Hin as (e & -> & ->). done.
  - destruct (dict_find c h) as [e|] eqn:E; [|done]. destruct (cr_expired now e) eqn:Ex; [|done]. exfalso. apply Hin, Hiff. by exists e.
Qed.

(** A commitment binds the concatenation of evidence and salt, and is
    revealed once.  Within the window (from the epoch after the commitment,
    for 24 epochs) every split of the committed string is accepted and its
    first part returned as the evidence, so the committer may lengthen or
    shorten the evidence after seeing the other submissions; outside the
    window, or with a string that hashes to something else, nothing is; and
    after one reveal every other one is refused, at any epoch, also after a
    cleanup, which removes exactly the unrevealed entries past the window. *)
Theorem reveal_rebinds env c salt evidence submitter epoch h c1 :
  cr_commit env c salt evidence submitter epoch = Ok (h, c1) -> NoDup c.*1 ->
  (forall now ev' salt', epoch < now <= epoch + 24 -> ev' ++ salt' = evidence ++ salt -> exists c2,
     cr_reveal env c1 h ev' salt' now = Ok (Some ev', c2) /\
     forall later ev'' salt'' now', 
       cr_reveal env (cleanup_expired c2 later).2 h ev'' salt'' now' = Ok (None, (cleanup_expired c2 later).2)) /\
  (forall now ev' salt' x c2, cr_reveal env c1 h ev' salt' now = Ok (Some x, c2) ->
     x = ev' /\ epoch < now <= epoch + 24 /\ canonical_hash env (ev' ++ salt') = canonical_hash env (evidence ++ salt)) /\
  (forall now, dict_find (cleanup_expired c1 now).2 h = None <-> epoch + 24 < now).
Proof.
  intros E Hnd. unfold cr_commit in E. destruct (canonical_hash env (evidence ++ salt)) as [h0|] eqn:Eh; [|done]. cbn [mbind result_bind] in E. injection E as -> <-.
  set (entry := {| cr_commitment_hash := h |}). pose proof (dict_set_NoDup c h entry Hnd) as Hnd1.
  assert (dict_find (dict_set c h entry) h = Some entry) as Hf by (by rewrite dict_find_set, decide_True).
  split; [|split].
  - intros now ev' salt' Hw Hsplit. unfold cr_reveal at 1. rewrite Hf. cbn [cr_revealed entry]. rewrite Hsplit, Eh. cbn [mbind result_bind].
    rewrite bool_decide_eq_true_2 by done. cbn [negb cr_commit_epoch entry]. unfold REVEAL_WINDOW_EPOCHS.
    destruct (Z.ltb_spec now (epoch + 1)); [lia|]. destruct (Z.ltb_spec (epoch + 24) now); [lia|].
    eexists. split; [reflexivity|]. intros later ev'' salt'' now'. set (e2 := {| cr_commitment_hash := _ |}). set (c2 := dict_set (dict_set c h entry) h e2).
    assert (NoDup c2.*1) as Hnd2 by (by apply dict_set_NoDup).
    assert (dict_find (cleanup_expired c2 later).2 h = Some e2) as Hf2; [|by unfold cr_reveal; rewrite Hf2].
    rewrite cleanup_find by done. unfold c2. by rewrite dict_find_set, decide_True.
  - intros now ev' salt' x c2. unfold cr_reveal. rewrite Hf. cbn [cr_revealed entry].
    destruct (canonical_hash env (ev' ++ salt')) as [h'|] eqn:Eh'; [|done]. cbn [mbind result_bind].
    destruct (bool_decide_reflect (h' = h)) as [->|]; cbn [negb]; [|done]. cbn [cr_commit_epoch entry]. unfold REVEAL_WINDOW_EPOCHS.
    destruct (Z.ltb_spec now (epoch + 1)); [done|]. destruct (Z.ltb_spec (epoch + 24) now); [done|]. intros [= <- _]. split_and!; [done|lia|lia|congruence].
  - intros now. rewrite cleanup_find, Hf by done. unfold cr_expired, REVEAL_WINDOW_EPOCHS. cbn. destruct (Z.ltb_spec (epoch + 24) now); split; intros; done || lia.
Qed.

(** * Batches *)
(** A batch is processed once.  Finalizing an epoch returns exactly the
    entries added for it, in the order they were added, whatever was added for
    other epochs in between; a second finalization returns nothing, and other
    epochs keep their entries. *)
Theorem batch_once adds epoch : 
  let b := fold_left (fun b p => batch_add b p.1 p.2) adds [] in
  let '(entries, b') := finalize_epoch b epoch in
  entries = map snd (List.filter (fun p => p.1 =? epoch) adds) /\
  (finalize_epoch b' epoch).1 = [] /\
  forall e, e <> epoch -> pending_for_epoch b' e = map snd (List.filter (fun p => p.1 =? e) adds).
Proof.
  intros b. assert (NoDup b.*1 /\ forall e, pending_for_epoch b e = map snd (List.filter (fun p => p.1 =? e) adds)) as [Hnd Hb].
  { subst b. induction adds as [|[e x] adds IH] using rev_ind; [split; [constructor|done]|]. rewrite fold_left_app. cbn [fold_left fst snd].
    destruct IH as [Hnd IH]. split; [by apply dict_set_NoDup|]. intros e'. unfold batch_add, pending_for_epoch at 1. rewrite dict_find_set, List.filter_app, map_app, <- IH.
    cbn. destruct (decide (e = e')) as [->|Hne]; [by rewrite Z.eqb_refl|]. rewrite (proj2 (Z.eqb_neq _ _) Hne). cbn. by rewrite app_nil_r. }
  unfold finalize_epoch. split; [apply Hb|]. cbn [fst]. unfold pending_for_epoch. split; [|intros e He]; rewrite dict_find_del by done.
  - by rewrite decide_True.
  - rewrite decide_False by congruence. apply Hb.
Qed.

(** * The invariants hold of the economics engine *)
(** The runtime invariants, proved of the definitions they watch.  The
    fee split meets E1 exactly; vested rewards are monotone (E2); no finalized
    slash was reversed (S3); a slash is at most the stake (S4); decay leaves a
    non-negative count (L3); nodes at the threshold are to be evicted (L1).
    Uniqueness (U1) as the code checks it can never fail: it looks for an
    attribute that pending slashes do not have. *)
Theorem economics_invariants cfg :
  (forall fee, let '(operator, burn, endowment, insurance) := split_fee cfg fee in check_economic_e1 fee operator burn endowment insurance = true) /\
  (forall v t, 0 <= v_claimed v <= v_amount v -> check_economic_e2 (claimable_at v t) (claimable_at v (t + 1)) = true) /\
  (forall n epoch p, p ∈ (finalize_pending_slashes n epoch).1 -> check_safety_s3 (ps_reversed p) true = true) /\
  (forall n concurrent total amount tier, 0 <= ne_stake n -> compute_slash cfg n concurrent total = Ok (amount, tier) -> check_safety_s4 amount (ne_stake n) = true) /\
  (forall n d n', 0 < offense_decay_clean_epochs cfg -> 0 <= ne_offense_count n -> 0 <= ne_clean_epochs_since_offense n ->
     apply_offense_decay cfg n = Ok (d, n') -> check_liveness_l3 (ne_offense_count n') = true) /\
  (forall n, check_liveness_l1 (ne_offense_count n) (eviction_offense_threshold cfg) (should_evict cfg n) = true) /\
  (forall ps node ev, check_uniqueness_u1 ps node ev = true).
Proof.
  split_and!.
  - intros fee. pose proof (split_fee_conserves cfg fee) as H. destruct (split_fee cfg fee) as [[[op burn] endow] ins]. destruct H as [H _].
    unfold check_economic_e1. apply Z.leb_le. lia.
  - intros v t Hv. unfold check_economic_e2. apply Z.leb_le. rewrite !claimable_spec by done. pose proof (vested_mono v t (t + 1) ltac:(lia) ltac:(lia)). lia.
  - intros n epoch p Hp. apply list_elem_of_In, filter_In in Hp as [Hp _]. apply filter_In in Hp as [_ Hr]. unfold check_safety_s3. by destruct (ps_reversed p).
  - intros n concurrent total amount tier Hs E. apply Z.leb_le. unfold compute_slash in E. set (t := tier_for_offense_count _) in *.
    pose proof (rate_bounds t). pose proof (bps_le (ne_stake n) (SLASHING_RATES t) Hs ltac:(lia)).
    destruct (correlated _ _ _ _) as [[x|]|]; [| |done]; cbn [mbind result_bind] in E; apply Ok_inj in E; injection E as <- _; lia.
  - intros n d n' H1 H2 H3 E. apply Z.leb_le. pose proof (decay_exact cfg n d n' H1 H2 H3 E) as H. tauto.
  - intros n. unfold check_liveness_l1, should_evict. by destruct (_ <=? _).
  - intros ps node ev. unfold check_uniqueness_u1. apply Z.leb_le. induction ps as [|p ps IH]; [done|]. cbn [List.filter].
    by rewrite (bool_decide_eq_false_2 (offense_event_id p = Some ev)), andb_false_r.
Qed.

(** * Small instances *)
Definition demo_shards : list (Z * bytes) := [(0, lit "zero"); (1, lit "one"); (2, lit "two")].
Definition demo_hashes : list (Z * pystr) :=
  map (fun p => (p.1, match canonical_hash demo_env p.2 with Ok h => h | Err _ => [] end)) demo_shards.
Definition demo_pdp_challenge : PDPChallenge :=
  {| pc_challenge_id := lit "c"; pc_epoch := 3; pc_shard_indices := [2; 0]; pc_coefficients := [lit "k2"; lit "k0"]; pc_deadline_epoch := 4 |}.

Lemma challenge_samples_witness : exists c, generate_challenge demo_env (lit "e") 6 4 3 1 = Ok c /\ pc_deadline_epoch c = 4 /\ length (pc_coefficients c) = 4%nat.
Proof.
  destruct (challenge_samples demo_env (lit "e") 6 4 3 1) as (_ & Hlen & _ & H).
  destruct (H eq_refl ltac:(lia)) as (c & E & _ & Hc & Hd). exists c. split; [exact E|]. split; [exact Hd|]. rewrite Hc. exact Hlen.
Defined.

Lemma pdp_exact_witness : exists proof,
  compute_proof_from_shards demo_env demo_shards [2; 0] [lit "k2"; lit "k0"] (lit "c") 0 = Ok proof /\
  verify_proof demo_env [(lit "e", demo_hashes)] (lit "e") demo_pdp_challenge proof = Ok true.
Proof.
  destruct (pdp_exact demo_env [(lit "e", demo_hashes)] (lit "e") demo_hashes demo_pdp_challenge demo_lib_ok eq_refl ltac:(discriminate)) as (agg & _ & _ & H).
  - intros idx Hin. apply elem_of_cons in Hin as [->|Hin]; [|apply elem_of_cons in Hin as [->|Hin]; [|apply not_elem_of_nil in Hin; destruct Hin]];
      eexists; reflexivity.
  - apply (H demo_shards 0). intros idx Hin. apply elem_of_cons in Hin as [->|Hin]; [|apply elem_of_cons in Hin as [->|Hin]; [|apply not_elem_of_nil in Hin; destruct Hin]];
      eexists; (split; [reflexivity|]); reflexivity.
Defined.

Lemma allocation_bounded_witness :
  let c id bps := {| sc_condition_id := lit id; sc_description := []; sc_stake_allocation_bps := bps; sc_evaluate := fun _ => Err RuntimeError |} in
  total_allocation_bps (fold_left registry_step [OpRegister (c "a"%string 6000); OpRegister (c "b"%string 5000); OpRegister (c "c"%string 4000)]
    (new_condition_registry 10000)) <= 10000.
Proof.
  intros c. apply (allocation_bounded demo_env 10000); [lia|]. repeat constructor; cbn; lia.
Defined.

Definition demo_json (ev : bytes) : option json := Some (JObj [(lit "consecutive_failures", JInt 5)]).
Lemma conditions_exact_witness : exists r, evaluate_audit_failure demo_env demo_json (fun _ => []) (lit "{}") = Ok r /\ sr_violated r = true /\ sr_severity r = lit "major".
Proof.
  destruct (conditions_exact demo_env demo_json (fun _ => []) (lit "{}") eq_refl) as (_ & H & _).
  destruct (H 5) as (r & E & Hv & Hs); [eexists; split; [reflexivity|repeat constructor]|]. exists r. split; [exact E|]. split; [exact Hv|exact Hs].
Defined.

Definition demo_dispute_ops : list dispute_op :=
  [OpCreate (lit "a") (lit "b") 1000 [] [] 10 500 0; OpVote (lit "dispute-1") 70 true 1; OpVote (lit "dispute-1") 30 false 168; OpResolve (lit "dispute-1") 169].

Lemma reveal_rebinds_witness : exists h c1 c2,
  cr_commit demo_env [] (lit "salt") (lit "node 7 failed") (lit "s") 5 = Ok (h, c1) /\
  cr_reveal demo_env c1 h (lit "node 7") (lit " failedsalt") 6 = Ok (Some (lit "node 7"), c2).
Proof.
  destruct (cr_commit demo_env [] (lit "salt") (lit "node 7 failed") (lit "s") 5) as [[h c1]|e] eqn:E; [|discriminate E].
  destruct (proj1 (reveal_rebinds demo_env [] (lit "salt") (lit "node 7 failed") (lit "s") 5 h c1 E (NoDup_nil_2)) 6 (lit "node 7") (lit " failedsalt") ltac:(lia) eq_refl)
    as (c2 & E2 & _). exists h, c1, c2. split; [reflexivity|exact E2].
Defined.
