(* ===== verification/AuditLog.v ===== *)
(** The compliance audit log of src/src/ltp/compliance.py: [AuditEvent],
    [ComplianceAuditLogger] and [SIEMExporter].  The entry signature the code
    computes in [log] is dropped by the code and therefore absent here. *)

From S2P Require Import Prelude Float64 Hashing Encoding Json.

(** * Events *)
Inductive AuditEventType : Type :=
| ENTITY_COMMITTED | ENTITY_MATERIALIZED | ENTITY_DELETED | SHARD_STORED | SHARD_FETCHED | SHARD_EXPIRED
| ACCESS_CONTROL | ACCESS_DENIED | ACCESS_GRANTED | AUTHN_DECISION | AUTHZ_DECISION | LATTICE_KEY_ISSUED
| LATTICE_KEY_MATERIALIZED | ANCHOR_SUBMITTED | ANCHOR_VERIFIED | KEY_GENERATED | KEY_ROTATED | KEY_REVOKED
| KMS_OPERATION | HSM_OPERATION | DKG_EVENT | THRESHOLD_SIGNING_QUORUM | NODE_REGISTERED | NODE_EVICTED
| NODE_AUDITED | NODE_SLASHED | GOVERNANCE_TRANSITION | GOVERNANCE_ACTION | DISPUTE_CREATED
| DISPUTE_RESOLVED | COMPLIANCE_CHECK | GDPR_DELETION_REQUEST | GDPR_DELETION_COMPLETE | AUDIT_EXPORT
| SECURITY_VIOLATION | INVARIANT_CHECK | CONFIG_CHANGED | PREFLIGHT_FAILURE | CROSS_REPO_SYNC_FAILURE.
Definition event_type_value (t : AuditEventType) : pystr :=
  lit match t with
  | ENTITY_COMMITTED => "entity.committed" | ENTITY_MATERIALIZED => "entity.materialized"
  | ENTITY_DELETED => "entity.deleted" | SHARD_STORED => "shard.stored" | SHARD_FETCHED => "shard.fetched"
  | SHARD_EXPIRED => "shard.expired" | ACCESS_CONTROL => "access.control" | ACCESS_DENIED => "access.denied"
  | ACCESS_GRANTED => "access.granted" | AUTHN_DECISION => "authn.decision" | AUTHZ_DECISION => "authz.decision"
  | LATTICE_KEY_ISSUED => "lattice_key.issued" | LATTICE_KEY_MATERIALIZED => "lattice_key.materialized"
  | ANCHOR_SUBMITTED => "anchor.submitted" | ANCHOR_VERIFIED => "anchor.verified" | KEY_GENERATED => "key.generated"
  | KEY_ROTATED => "key.rotated" | KEY_REVOKED => "key.revoked" | KMS_OPERATION => "kms.operation"
  | HSM_OPERATION => "hsm.operation" | DKG_EVENT => "dkg.event" | THRESHOLD_SIGNING_QUORUM => "threshold_signing.quorum"
  | NODE_REGISTERED => "node.registered" | NODE_EVICTED => "node.evicted" | NODE_AUDITED => "node.audited"
  | NODE_SLASHED => "node.slashed" | GOVERNANCE_TRANSITION => "governance.transition"
  | GOVERNANCE_ACTION => "governance.action" | DISPUTE_CREATED => "dispute.created"
  | DISPUTE_RESOLVED => "dispute.resolved" | COMPLIANCE_CHECK => "compliance.check"
  | GDPR_DELETION_REQUEST => "gdpr.deletion.request" | GDPR_DELETION_COMPLETE => "gdpr.deletion.complete"
  | AUDIT_EXPORT => "audit.export" | SECURITY_VIOLATION => "security.violation" | INVARIANT_CHECK => "invariant.check"
  | CONFIG_CHANGED => "config.changed" | PREFLIGHT_FAILURE => "preflight.failure"
  | CROSS_REPO_SYNC_FAILURE => "cross_repo.sync_failure"
  end.
#[export] Instance AuditEventType_eq_dec : EqDecision AuditEventType.
Proof. solve_decision. Defined.

Record AuditEvent : Type := {
  ae_event_type : AuditEventType;
  ae_actor_id : pystr;
  ae_action : pystr;
  ae_timestamp : float64;
  ae_epoch : Z;
  ae_target_id : option pystr;
  ae_details : option (list (pystr * json));
  ae_outcome : pystr;
  ae_event_id : pystr;
  ae_schema_version : pystr;
  ae_component : pystr;
  ae_source : pystr;
  ae_correlation_id : option pystr;
  ae_control_ids : list pystr
}.

(** [AuditEvent(event_type, actor_id, action, timestamp, epoch, target_id,
    details)] with the defaults of the other fields; [__post_init__] fills in
    the event id. *)
Definition post_init `{CanonicalHash} (e : AuditEvent) : AuditEvent :=
  match ae_event_id e with
  | [] =>
      let content := ae_schema_version e ++ lit ":" ++ event_type_value (ae_event_type e) ++ lit ":" ++
        ae_actor_id e ++ lit ":" ++ ae_action e ++ lit ":" ++ float_repr (ae_timestamp e) in
      {| ae_event_type := ae_event_type e; ae_actor_id := ae_actor_id e; ae_action := ae_action e;
         ae_timestamp := ae_timestamp e; ae_epoch := ae_epoch e; ae_target_id := ae_target_id e;
         ae_details := ae_details e; ae_outcome := ae_outcome e; ae_event_id := chash_str content;
         ae_schema_version := ae_schema_version e; ae_component := ae_component e; ae_source := ae_source e;
         ae_correlation_id := ae_correlation_id e; ae_control_ids := ae_control_ids e |}
  | _ => e
  end.
Definition new_event `{CanonicalHash} (event_type : AuditEventType) (actor_id action : pystr) (timestamp : float64) (epoch : Z)
    (target_id : option pystr) (details : option (list (pystr * json))) : AuditEvent :=
  post_init {| ae_event_type := event_type; ae_actor_id := actor_id; ae_action := action; ae_timestamp := timestamp;
    ae_epoch := epoch; ae_target_id := target_id; ae_details := details; ae_outcome := lit "success"; ae_event_id := [];
    ae_schema_version := lit "ltp.audit.v1"; ae_component := lit "ltp"; ae_source := lit "application";
    ae_correlation_id := None; ae_control_ids := [] |}.

Definition json_opt {A} (f : A -> json) (o : option A) : json := match o with Some x => f x | None => JNull end.
Definition to_dict (e : AuditEvent) : json := JObj [
  (lit "event_id", JStr (ae_event_id e));
  (lit "schema_version", JStr (ae_schema_version e));
  (lit "event_type", JStr (event_type_value (ae_event_type e)));
  (lit "actor_id", JStr (ae_actor_id e));
  (lit "target_id", json_opt JStr (ae_target_id e));
  (lit "action", JStr (ae_action e));
  (lit "timestamp", JFloat (ae_timestamp e));
  (lit "epoch", JInt (ae_epoch e));
  (lit "details", json_opt JObj (ae_details e));
  (lit "outcome", JStr (ae_outcome e));
  (lit "component", JStr (ae_component e));
  (lit "source", JStr (ae_source e));
  (lit "correlation_id", json_opt JStr (ae_correlation_id e));
  (lit "control_ids", JList (map JStr (ae_control_ids e)))].

(** [json.dumps(event.to_dict(), sort_keys=True)] *)
Definition event_text (e : AuditEvent) : bytes := json_dumps default_style true (to_dict e).

(** * The logger *)
Record ComplianceAuditLogger : Type := {
  al_operator_id : pystr;
  al_retention_epochs : Z;
  al_signing_key : bytes;
  al_events : list AuditEvent;
  al_chain_hashes : list pystr;
  al_head_hash : pystr
}.
Definition with_log (l : ComplianceAuditLogger) (events : list AuditEvent) (hashes : list pystr) (head : pystr) : ComplianceAuditLogger :=
  {| al_operator_id := al_operator_id l; al_retention_epochs := al_retention_epochs l; al_signing_key := al_signing_key l;
     al_events := events; al_chain_hashes := hashes; al_head_hash := head |}.

Section Logger.
Context `{CanonicalHash}.

Definition genesis_hash : pystr := chash_str (lit "audit-log-genesis").

(** [random] stands for [secure_random_bytes(32)]; an empty key is falsy. *)
Definition new_logger (operator_id : pystr) (retention_epochs : Z) (signing_key : option bytes) (random : bytes) : ComplianceAuditLogger :=
  {| al_operator_id := operator_id; al_retention_epochs := retention_epochs;
     al_signing_key := match signing_key with Some [] | None => random | Some k => k end;
     al_events := []; al_chain_hashes := []; al_head_hash := genesis_hash |}.

Definition log_length (l : ComplianceAuditLogger) : nat := length (al_events l).

Definition log_event (l : ComplianceAuditLogger) (event : AuditEvent) : pystr * ComplianceAuditLogger :=
  let chain_hash := chash_str (event_text event ++ al_head_hash l) in
  (chain_hash, with_log l (al_events l ++ [event]) (al_chain_hashes l ++ [chain_hash]) chain_hash).

Fixpoint verify_from (prev_hash : pystr) (i : Z) (events : list AuditEvent) (hashes : list pystr) : result (bool * Z) :=
  match events with
  | [] => Ok (true, i)
  | event :: events =>
      let expected_hash := chash_str (event_text event ++ prev_hash) in
      match hashes with
      | [] => Err IndexError
      | h :: hashes => if bool_decide (expected_hash = h) then verify_from expected_hash (i + 1) events hashes else Ok (false, i)
      end
  end.
Definition verify_chain_integrity (l : ComplianceAuditLogger) : result (bool * Z) :=
  verify_from genesis_hash 0 (al_events l) (al_chain_hashes l).
End Logger.

(** A filter that is absent, or an empty string, matches everything. *)
Definition filter_ok {A} `{EqDecision A} (truthy : A -> bool) (want : option A) (have : option A) : bool :=
  match want with Some w => negb (truthy w) || bool_decide (have = Some w) | None => true end.
Definition nonempty_str (s : pystr) : bool := match s with [] => false | _ => true end.
Definition query_matches (event_type : option AuditEventType) (actor_id target_id : option pystr) (since_epoch : Z) (e : AuditEvent) : bool :=
  filter_ok (fun _ => true) event_type (Some (ae_event_type e)) && filter_ok nonempty_str actor_id (Some (ae_actor_id e)) &&
  filter_ok nonempty_str target_id (ae_target_id e) && (since_epoch <=? ae_epoch e).

(** The loop of [query]: the limit is looked at after each hit. *)
Fixpoint query_loop (matches : AuditEvent -> bool) (limit : Z) (results events : list AuditEvent) : list AuditEvent :=
  match events with
  | [] => results
  | e :: events =>
      if matches e then
        let results := results ++ [e] in
        if limit <=? Z.of_nat (length results) then results else query_loop matches limit results events
      else query_loop matches limit results events
  end.
Definition query (l : ComplianceAuditLogger) (event_type : option AuditEventType) (actor_id target_id : option pystr)
    (since_epoch limit : Z) : list AuditEvent :=
  query_loop (query_matches event_type actor_id target_id since_epoch) limit [] (rev (al_events l)).

(** The index of the first event that is not expired, or the length. *)
Fixpoint keep_from (cutoff : Z) (events : list AuditEvent) : nat :=
  match events with
  | [] => 0
  | e :: events => if cutoff <=? ae_epoch e then 0 else S (keep_from cutoff events)
  end.
Definition evict_expired (l : ComplianceAuditLogger) (current_epoch : Z) : Z * ComplianceAuditLogger :=
  let cutoff := current_epoch - al_retention_epochs l in
  let k := keep_from cutoff (al_events l) in
  let l' := if (0 <? k)%nat then with_log l (drop k (al_events l)) (drop k (al_chain_hashes l)) (al_head_hash l) else l in
  (Z.of_nat (length (al_events l)) - Z.of_nat (length (al_events l')), l').

Definition export_json (l : ComplianceAuditLogger) (since_epoch : Z) : list json :=
  map to_dict (List.filter (fun e => since_epoch <=? ae_epoch e) (al_events l)).

(** * Export to SIEM systems *)
Inductive SIEMFormat : Type := SIEM_JSON | SIEM_CEF | SIEM_JSON_LD.

(** The severities, with the default of the lookup. *)
Definition SEVERITY_MAP (t : AuditEventType) : Z :=
  match t with
  | SECURITY_VIOLATION => 9
  | PREFLIGHT_FAILURE => 8
  | ACCESS_DENIED | AUTHN_DECISION | AUTHZ_DECISION => 7
  | NODE_EVICTED | NODE_SLASHED | CROSS_REPO_SYNC_FAILURE => 6
  | GDPR_DELETION_REQUEST | KEY_REVOKED | KMS_OPERATION | HSM_OPERATION | CONFIG_CHANGED => 5
  | GOVERNANCE_TRANSITION | GOVERNANCE_ACTION | DKG_EVENT | THRESHOLD_SIGNING_QUORUM | ANCHOR_SUBMITTED | ANCHOR_VERIFIED => 4
  | ENTITY_COMMITTED | ENTITY_MATERIALIZED | KEY_ROTATED => 2
  | SHARD_STORED => 1
  | _ => 3
  end.

Section Siem.
(** [str(v)] of a details value *)
Context (json_str : json -> pystr).
Definition f64_thousand : float64 := 0x408F400000000000.
Definition to_cef (e : AuditEvent) : result pystr :=
  rt ← f64_int (f64_mul (ae_timestamp e) f64_thousand);
  let dst := match ae_target_id e with Some [] | None => lit "none" | Some t => t end in
  let extensions := lit "act=" ++ ae_action e ++ lit " src=" ++ ae_actor_id e ++ lit " dst=" ++ dst ++
    lit " rt=" ++ str_int rt ++ lit " outcome=" ++ ae_outcome e in
  let extensions := fold_left (fun x kv => x ++ lit " cs1Label=" ++ kv.1 ++ lit " cs1=" ++ json_str kv.2) (default [] (ae_details e)) extensions in
  Ok (lit "CEF:0|LTP|Lattice-Transfer-Protocol|1.0|" ++ event_type_value (ae_event_type e) ++ lit "|" ++ ae_action e ++ lit "|" ++
      str_int (SEVERITY_MAP (ae_event_type e)) ++ lit "|" ++ extensions).

Definition to_json_ld (e : AuditEvent) : pystr :=
  let opt (key : string) (o : option json) := match o with Some v => [(lit key, v)] | None => [] end in
  let truthy (o : option pystr) := match o with Some [] | None => None | Some s => Some s end in
  json_dumps default_style true (JObj ([
    (lit "@context", JStr (lit "https://ltp.network/compliance/v1")); (lit "@type", JStr (lit "AuditEvent"));
    (lit "eventId", JStr (ae_event_id e)); (lit "schemaVersion", JStr (ae_schema_version e));
    (lit "eventType", JStr (event_type_value (ae_event_type e)));
    (lit "actor", JObj [(lit "@type", JStr (lit "Identity")); (lit "id", JStr (ae_actor_id e))]);
    (lit "action", JStr (ae_action e)); (lit "timestamp", JFloat (ae_timestamp e)); (lit "epoch", JInt (ae_epoch e));
    (lit "outcome", JStr (ae_outcome e)); (lit "component", JStr (ae_component e)); (lit "source", JStr (ae_source e));
    (lit "controlIds", JList (map JStr (ae_control_ids e)))] ++
    opt "correlationId" (JStr <$> truthy (ae_correlation_id e)) ++
    opt "target" ((fun t => JObj [(lit "@type", JStr (lit "Entity")); (lit "id", JStr t)]) <$> truthy (ae_target_id e)) ++
    opt "details" (match ae_details e with Some [] | None => None | Some d => Some (JObj d) end))).

Definition export_event (e : AuditEvent) (fmt : SIEMFormat) : result pystr :=
  match fmt with
  | SIEM_CEF => to_cef e
  | SIEM_JSON_LD => Ok (to_json_ld e)
  | SIEM_JSON => Ok (event_text e)
  end.
Definition export_events (events : list AuditEvent) (fmt : SIEMFormat) : result pystr :=
  match fmt with
  | SIEM_JSON => Ok (json_dumps (indent_style 2) false (JList (map to_dict events)))
  | _ => lines ← mapR (fun e => export_event e fmt) events; Ok (join [10] lines)
  end.
End Siem.

(** * What the text of an event binds *)
(** Same event, up to floats that print alike and the order of details. *)
Definition same_event (a b : AuditEvent) : Prop :=
  ae_event_id a = ae_event_id b /\ ae_schema_version a = ae_schema_version b /\ ae_event_type a = ae_event_type b /\
  ae_actor_id a = ae_actor_id b /\ ae_target_id a = ae_target_id b /\ ae_action a = ae_action b /\
  json_float (ae_timestamp a) = json_float (ae_timestamp b) /\ ae_epoch a = ae_epoch b /\
  json_tree true (json_opt JObj (ae_details a)) = json_tree true (json_opt JObj (ae_details b)) /\
  ae_outcome a = ae_outcome b /\ ae_component a = ae_component b /\ ae_source a = ae_source b /\
  ae_correlation_id a = ae_correlation_id b /\ ae_control_ids a = ae_control_ids b.

Lemma event_type_inj a b : event_type_value a = event_type_value b -> a = b.
Proof. destruct a, b; try done; intros E; vm_compute in E; discriminate. Qed.
Lemma opt_str_inj (a b : option pystr) : json_tree true (json_opt JStr a) = json_tree true (json_opt JStr b) -> a = b.
Proof. destruct a, b; cbn; congruence. Qed.

Lemma event_tree_inj a b : json_tree true (to_dict a) = json_tree true (to_dict b) -> same_event a b.
Proof.
  intros E. assert (NoDup (match to_dict b with JObj d => d | _ => [] end).*1) as Hd.
  { apply (bool_decide_unpack (NoDup _)). vm_compute. done. }
  assert (forall k v v', dict_find (match to_dict a with JObj d => d | _ => [] end) (lit k) = Some v ->
    dict_find (match to_dict b with JObj d => d | _ => [] end) (lit k) = Some v' -> json_tree true v = json_tree true v') as Hf.
  { intros k v v' Hv Hv'. exact (sorted_field _ _ _ _ _ E Hd Hv Hv'). }
  clear E Hd. unfold same_event. split_and!.
  - by injection (Hf "event_id" _ _ eq_refl eq_refl).
  - by injection (Hf "schema_version" _ _ eq_refl eq_refl).
  - apply event_type_inj. injection (Hf "event_type" _ _ eq_refl eq_refl). auto.
  - by injection (Hf "actor_id" _ _ eq_refl eq_refl).
  - apply opt_str_inj, (Hf "target_id" _ _ eq_refl eq_refl).
  - by injection (Hf "action" _ _ eq_refl eq_refl).
  - injection (Hf "timestamp" _ _ eq_refl eq_refl). auto.
  - apply str_int_inj. injection (Hf "epoch" _ _ eq_refl eq_refl). auto.
  - apply (Hf "details" _ _ eq_refl eq_refl).
  - by injection (Hf "outcome" _ _ eq_refl eq_refl).
  - by injection (Hf "component" _ _ eq_refl eq_refl).
  - by injection (Hf "source" _ _ eq_refl eq_refl).
  - apply opt_str_inj, (Hf "correlation_id" _ _ eq_refl eq_refl).
  - injection (Hf "control_ids" _ _ eq_refl eq_refl). intros E. rewrite !map_map in E. cbn in E.
    assert (Inj (=) (=) TStr) by (by intros ?? [=]). by apply (inj (fmap (M:=list) TStr)) in E.
Qed.

Lemma event_type_ascii t : Forall (fun c => 0 <= c < 128) (event_type_value t).
Proof. apply Forall_forall. intros c Hc. destruct t; repeat (apply elem_of_cons in Hc as [->|Hc]; [cbn; lia|]); by apply not_elem_of_nil in Hc. Qed.
Lemma ascii_valid s : forallb (fun c => (0 <=? c) && (c <? 128)) s = true -> valid_str s.
Proof. intros E. apply valid_ascii. apply Forall_forall. intros c Hc. rewrite forallb_forall in E. specialize (E c). rewrite <- list_elem_of_In in E. specialize (E Hc). lia. Qed.

(** An event whose strings are Unicode. *)
Definition event_ok (e : AuditEvent) : Prop :=
  Forall valid_str ([ae_event_id e; ae_schema_version e; ae_actor_id e; ae_action e; ae_outcome e; ae_component e; ae_source e] ++ ae_control_ids e) /\
  (forall t, ae_target_id e = Some t -> valid_str t) /\ (forall t, ae_correlation_id e = Some t -> valid_str t) /\
  (forall d, ae_details e = Some d -> json_ok (JObj d)).
Lemma to_dict_ok e : event_ok e -> json_ok (to_dict e).
Proof.
  intros (Hs & Ht & Hc & Hd). apply Forall_app in Hs as [Hs Hl]. rewrite !Forall_cons in Hs. destruct_and!.
  assert (forall o : option pystr, (forall t, o = Some t -> valid_str t) -> json_ok (json_opt JStr o)) as Ho by (intros [x|] Hx; constructor; auto).
  unfold to_dict. constructor. repeat (constructor; [split; [apply ascii_valid; reflexivity|cbn [snd]; try (by constructor); auto]|]); [..|constructor].
  - constructor. apply valid_ascii, event_type_ascii.
  - destruct (ae_details e) as [d|]; [by apply Hd|constructor].
  - constructor. apply Forall_fmap. eapply Forall_impl; [exact Hl|]. intros s Hx. by constructor.
Qed.
Lemma event_text_binds a b : event_ok a -> event_ok b -> event_text a = event_text b -> same_event a b.
Proof. intros Ha Hb E. apply event_tree_inj. by apply (json_text_inj default_style true _ _ (lit " ")) in E; [|done..|apply to_dict_ok|apply to_dict_ok]. Qed.

(** * Theorems *)
Section Chain.
Context `{CanonicalHash}.

(** The chain of a list of texts, its last link, and what hashing it reads. *)
Fixpoint chain_of (prev : pystr) (texts : list bytes) : list pystr :=
  match texts with [] => [] | t :: ts => let h := chash_str (t ++ prev) in h :: chain_of h ts end.
Definition chain_end (prev : pystr) (texts : list bytes) : pystr := fold_left (fun p t => chash_str (t ++ p)) texts prev.
Fixpoint chain_inputs (prev : pystr) (texts : list bytes) : list bytes :=
  match texts with [] => [] | t :: ts => (t ++ prev) :: chain_inputs (chash_str (t ++ prev)) ts end.
Definition audit_inputs (es : list AuditEvent) : list bytes := lit "audit-log-genesis" :: chain_inputs genesis_hash (map event_text es).

(** A logger whose hashes are the chain of its events; logging keeps it. *)
Definition log_all (l : ComplianceAuditLogger) (es : list AuditEvent) : ComplianceAuditLogger := fold_left (fun l e => (log_event l e).2) es l.
Definition chained (l : ComplianceAuditLogger) : Prop :=
  al_chain_hashes l = chain_of genesis_hash (map event_text (al_events l)) /\ al_head_hash l = chain_end genesis_hash (map event_text (al_events l)).

Lemma chain_snoc prev a t : chain_of prev (a ++ [t]) = chain_of prev a ++ [chash_str (t ++ chain_end prev a)].
Proof. revert prev. induction a as [|u a IH]; intros prev; [done|]. cbn. by rewrite IH. Qed.
Lemma chain_length prev a : length (chain_of prev a) = length a.
Proof. revert prev. induction a as [|u a IH]; intros prev; cbn; auto. Qed.
Lemma log_chained l e : chained l -> chained (log_event l e).2.
Proof.
  intros [Hc Hh]. unfold log_event, chained. cbn. rewrite map_app. cbn [map]. rewrite chain_snoc, <- Hc, <- Hh. split; [done|].
  unfold chain_end in *. by rewrite fold_left_app, <- Hh.
Qed.
Lemma log_all_chained es : forall l, chained l -> chained (log_all l es) /\ al_events (log_all l es) = al_events l ++ es.
Proof.
  induction es as [|e es IH]; intros l Hl; [by rewrite app_nil_r|].
  change (log_all l (e :: es)) with (log_all (log_event l e).2 es). destruct (IH _ (log_chained l e Hl)) as [Hc He].
  split; [done|]. rewrite He. cbn. by rewrite <- app_assoc.
Qed.

(** Verification recomputes the chain. *)
Lemma verify_exact es : forall prev i hashes r, verify_from prev i es hashes = Ok (true, r) <->
  r = i + Z.of_nat (length es) /\ take (length es) hashes = chain_of prev (map event_text es).
Proof.
  induction es as [|e es IH]; intros prev i hashes r; cbn [verify_from length map chain_of firstn].
  - rewrite Z.add_0_r. split; [by intros [= <-]|by intros [-> _]].
  - destruct hashes as [|h hashes]; [split; [done|by intros [_ [=]]]|]. case_bool_decide as Eh.
    + subst h. rewrite IH. cbn [length firstn]. split; intros [-> E]; (split; [lia|]); [by f_equal|by injection E].
    + split; [done|]. intros [_ [= E _]]. by destruct Eh.
Qed.
Lemma verify_mismatch pre e post : forall prev i hashes h, take (length pre) hashes = chain_of prev (map event_text pre) ->
  hashes !! length pre = Some h -> chash_str (event_text e ++ chain_end prev (map event_text pre)) <> h ->
  verify_from prev i (pre ++ e :: post) hashes = Ok (false, i + Z.of_nat (length pre)).
Proof.
  induction pre as [|p pre IH]; intros prev i hashes h Ht Hh Hn; cbn [app verify_from length map chain_of firstn] in *.
  - destruct hashes as [|h' hashes]; [done|]. injection Hh as ->. rewrite bool_decide_eq_false_2 by done. by rewrite Z.add_0_r.
  - destruct hashes as [|h' hashes]; [done|]. injection Ht as -> Ht. rewrite bool_decide_eq_true_2 by done.
    rewrite (IH _ _ _ _ Ht Hh Hn). do 2 f_equal. lia.
Qed.

Lemma chain_end_snoc prev ts t : chain_end prev (ts ++ [t]) = chash_str (t ++ chain_end prev ts).
Proof. unfold chain_end. by rewrite fold_left_app. Qed.

(** Chains with one end have the same texts. *)
Lemma text_opens e : exists r, event_text e = 123 :: r.
Proof. eexists. reflexivity. Qed.
Lemma chash_str_length x y : length (chash_str x) = length (chash_str y).
Proof. unfold chash_str. rewrite !length_app, !hex_length. cbn. by rewrite !chash_length. Qed.
Lemma chain_end_length prev ts : (exists x, prev = chash_str x) -> exists x, chain_end prev ts = chash_str x.
Proof. revert prev. induction ts as [|t ts IH]; intros prev Hp; [done|]. cbn. apply IH. by eexists. Qed.
Lemma in_audit_inputs es e : (event_text e ++ chain_end genesis_hash (map event_text es)) ∈ audit_inputs (es ++ [e]).
Proof.
  unfold audit_inputs. right. generalize genesis_hash. induction es as [|u es IH]; intros prev; cbn; [by left|]. right. apply IH.
Qed.
Lemma audit_inputs_prefix es e : audit_inputs es ⊆ audit_inputs (es ++ [e]).
Proof.
  unfold audit_inputs. intros x [->|Hx]%elem_of_cons; [by left|right]. revert Hx. generalize genesis_hash.
  induction es as [|u es IH]; intros prev; cbn; [by intros ?%not_elem_of_nil|]. intros [->|Hx]%elem_of_cons; [by left|right; by apply IH].
Qed.
Lemma audit_inputs_mono a b : audit_inputs a ⊆ audit_inputs (a ++ b).
Proof.
  induction b as [|x b IH] using rev_ind; [by rewrite app_nil_r|]. rewrite app_assoc. intros y Hy. by apply audit_inputs_prefix, IH.
Qed.
Lemma chain_end_inj es : forall es', collision_free (audit_inputs es ++ audit_inputs es') ->
  chain_end genesis_hash (map event_text es) = chain_end genesis_hash (map event_text es') -> map event_text es = map event_text es'.
Proof.
  assert (forall e es, collision_free (audit_inputs (es ++ [e])) -> chain_end genesis_hash (map event_text (es ++ [e])) <> genesis_hash) as Hgen.
  { intros e es0 Hc E. rewrite map_app in E. cbn [map] in E. rewrite chain_end_snoc in E. unfold genesis_hash in E at 2.
    apply chash_str_inj in E. apply Hc in E; [|apply in_audit_inputs|by left]. destruct (text_opens e) as [r Hr]. by rewrite Hr in E. }
  assert (forall a b : list bytes, collision_free (a ++ b) -> collision_free a /\ collision_free b) as Hsplit.
  { intros a b Hc. split; intros x y Hx Hy; apply Hc; apply elem_of_app; auto. }
  induction es as [|e es IH] using rev_ind; intros es' Hc E.
  - destruct es' as [|e' es' _] using rev_ind; [done|]. symmetry in E. apply Hsplit in Hc as [_ Hc]. by apply Hgen in E.
  - destruct es' as [|e' es' _] using rev_ind; [apply Hsplit in Hc as [Hc _]; by apply Hgen in E|].
    rewrite !map_app in *. cbn [map] in *. rewrite !chain_end_snoc in E.
    apply chash_str_inj in E. apply Hc in E; [|apply elem_of_app; left; apply in_audit_inputs|apply elem_of_app; right; apply in_audit_inputs].
    destruct (chain_end_length genesis_hash (map event_text es)) as [x Hx]; [by eexists|].
    destruct (chain_end_length genesis_hash (map event_text es')) as [y Hy]; [by eexists|].
    apply app_inj_2 in E as [Et Ep]; [|rewrite Hx, Hy; apply chash_str_length].
    rewrite (IH es'); [by rewrite Et| |done]. intros u v Hu Hv. apply Hc; apply elem_of_app.
    + apply elem_of_app in Hu as [Hu|Hu]; [left|right]; by apply audit_inputs_prefix.
    + apply elem_of_app in Hv as [Hv|Hv]; [left|right]; by apply audit_inputs_prefix.
Qed.
End Chain.

Lemma keep_from_bound cutoff es : (keep_from cutoff es <= length es)%nat /\ Forall (fun e => ae_epoch e < cutoff) (take (keep_from cutoff es) es).
Proof.
  induction es as [|e es [IH1 IH2]]; [by split|]. cbn [keep_from length]. destruct (Z.leb_spec cutoff (ae_epoch e)); (split; [lia|]); [done|].
  cbn [firstn]. by constructor.
Qed.

Lemma keep_from_sorted cutoff es : StronglySorted (fun a b => ae_epoch a <= ae_epoch b) es ->
  drop (keep_from cutoff es) es = List.filter (fun e => cutoff <=? ae_epoch e) es.
Proof.
  induction 1 as [|e es Hs IH Hle]; [done|]. cbn [keep_from List.filter]. destruct (Z.leb_spec cutoff (ae_epoch e)) as [Hc|Hc]; [|exact IH].
  cbn [drop skipn]. f_equal. symmetry. clear IH Hs. induction Hle as [|x es Hx Hle IH]; [done|]. cbn [List.filter].
  rewrite (proj2 (Z.leb_le _ _)) by lia. by f_equal.
Qed.

Section Theorems.
Context `{CanonicalHash}.

Lemma same_events_of es es' : Forall event_ok es -> Forall event_ok es' -> map event_text es = map event_text es' -> Forall2 same_event es es'.
Proof.
  intros Ho. revert es'. induction Ho as [|e es He Ho IH]; intros [|e' es'] Ho' E; try done.
  apply Forall_cons in Ho' as [He' Ho']. cbn [map] in E. apply cons_eq_inj in E as [E Es]. constructor; [by apply event_text_binds|by apply IH].
Qed.
Lemma new_chained operator_id retention key random : chained (new_logger operator_id retention key random).
Proof. done. Qed.

(** C23: Tampering is evident.  A log of any events verifies; replacing one entry
    by an event of a different text makes verification fail at exactly that
    index; and whatever events and hashes are put in place of the log, if they
    verify and end in the head hash of the log, they are the same events, one
    by one (up to floats that print alike). *)
Theorem audit_log_tamper_evident l0 es : chained l0 -> al_events l0 = [] ->
  let l := log_all l0 es in
  verify_chain_integrity l = Ok (true, Z.of_nat (length es)) /\
  (forall i e0 e, es !! i = Some e0 -> event_text e <> event_text e0 ->
    collision_free [event_text e ++ chain_end genesis_hash (map event_text (take i es)); event_text e0 ++ chain_end genesis_hash (map event_text (take i es))] ->
    verify_chain_integrity (with_log l (<[i := e]> es) (al_chain_hashes l) (al_head_hash l)) = Ok (false, Z.of_nat i)) /\
  forall es' hashes' n, verify_chain_integrity (with_log l es' hashes' (al_head_hash l)) = Ok (true, n) ->
    (genesis_hash :: hashes') !! length es' = Some (al_head_hash l) -> Forall event_ok es -> Forall event_ok es' ->
    collision_free (audit_inputs es ++ audit_inputs es') -> Forall2 same_event es es'.
Proof.
  intros Hl0 He0 l. destruct (log_all_chained es l0 Hl0) as [[Hc Hh] He]. fold l in Hc, Hh, He. rewrite He0 in He. cbn [app] in He. rewrite He in Hc, Hh. split_and!.
  - unfold verify_chain_integrity. apply verify_exact. rewrite He. split; [lia|]. rewrite Hc. apply take_ge. by rewrite chain_length, length_map.
  - intros i e0 e Hi Hne Hcf. unfold verify_chain_integrity. cbn [with_log al_events al_chain_hashes].
    assert ((i < length es)%nat) as Hlt by (by eapply lookup_lt_Some).
    rewrite insert_take_drop by done. assert (length (take i es) = i) as Hlen by (rewrite length_take; lia).
    assert (es = take i es ++ e0 :: drop (S i) es) as Hes by (symmetry; by apply take_drop_middle).
    assert (al_chain_hashes l = chain_of genesis_hash (map event_text (take i es)) ++
      chain_of (chain_end genesis_hash (map event_text (take i es))) (event_text e0 :: map event_text (drop (S i) es))) as Hsplit.
    { rewrite Hc. rewrite Hes at 1. rewrite map_app. generalize genesis_hash, (map event_text (take i es)). intros p ts. revert p.
      induction ts as [|t ts IH]; intros p; [done|]. cbn [app chain_of]. by rewrite IH. }
    replace (Z.of_nat i) with (0 + Z.of_nat (length (take i es))) by lia. eapply verify_mismatch.
    + rewrite Hsplit. rewrite take_app_length'; [done|]. by rewrite chain_length, length_map.
    + rewrite Hsplit. rewrite lookup_app_r; rewrite chain_length, length_map; [|done]. by rewrite Nat.sub_diag.
    + intros E%chash_str_inj. apply Hcf in E; [|by left|right; by left]. by apply app_inv_tail in E.
  - intros es' hashes' n Hv Hlast Ho Ho' Hcf. unfold verify_chain_integrity in Hv. cbn [with_log al_events al_chain_hashes] in Hv.
    apply verify_exact in Hv as [_ Ht]. apply same_events_of; [done..|]. apply chain_end_inj; [done|]. rewrite <- Hh.
    assert (forall ts p hs, take (length ts) hs = chain_of p ts -> (p :: hs) !! length ts = Some (chain_end p ts)) as Hend.
    { clear. induction ts as [|t ts IH]; intros p hs E; [done|]. destruct hs as [|h hs]; [done|]. cbn [length firstn chain_of] in E. injection E as -> E.
      apply (IH _ _ E). }
    specialize (Hend (map event_text es') genesis_hash hashes'). rewrite length_map in Hend. rewrite (Hend Ht) in Hlast. by injection Hlast.
Qed.

(** Eviction breaks the chain.  Eviction removes exactly the events up to the
    first one that is not expired, which are exactly the expired ones when
    epochs do not decrease, and counts them.  But verification starts over at
    the genesis hash: as soon as something was removed and something is left,
    an untouched log is reported as broken at index 0. *)
Theorem eviction_breaks_chain l0 es current_epoch : chained l0 -> al_events l0 = [] ->
  let '(n, l) := evict_expired (log_all l0 es) current_epoch in
  let cutoff := current_epoch - al_retention_epochs (log_all l0 es) in
  (exists k, al_events l = drop k es /\ n = Z.of_nat k /\ (k <= length es)%nat /\ Forall (fun e => ae_epoch e < cutoff) (take k es) /\
    al_head_hash l = al_head_hash (log_all l0 es)) /\
  (StronglySorted (fun a b => ae_epoch a <= ae_epoch b) es -> al_events l = List.filter (fun e => cutoff <=? ae_epoch e) es) /\
  (0 < n -> al_events l <> [] -> collision_free (lit "audit-log-genesis" :: map (fun e => event_text e ++ genesis_hash) es ++ audit_inputs es) ->
    verify_chain_integrity l = Ok (false, 0)).
Proof.
  intros Hl0 He0. destruct (log_all_chained es l0 Hl0) as [[Hc Hh] He]. rewrite He0 in He. cbn [app] in He. rewrite He in Hc, Hh.
  set (l := log_all l0 es) in *. unfold evict_expired. rewrite He. set (cutoff := current_epoch - al_retention_epochs l). set (k := keep_from cutoff es).
  destruct (keep_from_bound cutoff es) as [Hk Hx]. fold k in Hk, Hx.
  assert (al_events (if (0 <? k)%nat then with_log l (drop k es) (drop k (al_chain_hashes l)) (al_head_hash l) else l) = drop k es) as Hev.
  { destruct (Nat.ltb_spec 0 k); [done|]. replace k with 0%nat by lia. by rewrite drop_0. }
  assert (al_chain_hashes (if (0 <? k)%nat then with_log l (drop k es) (drop k (al_chain_hashes l)) (al_head_hash l) else l) = drop k (al_chain_hashes l)) as Hch.
  { destruct (Nat.ltb_spec 0 k); [done|]. replace k with 0%nat by lia. by rewrite drop_0. }
  rewrite Hev, length_drop. split_and!.
  - exists k. split_and!; [done|lia|done|done|]. by destruct (0 <? k)%nat.
  - intros Hs. by apply keep_from_sorted.
  - intros Hn Hne Hcf. unfold verify_chain_integrity. rewrite Hev, Hch. assert (0 < k)%nat as Hpos by lia.
    destruct (drop k es) as [|e rest] eqn:Ed; [done|]. assert (exists t ts, take k es = ts ++ [t]) as (t & ts & Et).
    { destruct (take k es) as [|x xs _] eqn:Ex using rev_ind; [|by eexists _, _]. apply (f_equal length) in Ex. rewrite length_take in Ex. cbn in Ex. lia. }
    assert (es = (ts ++ [t]) ++ e :: rest) as Hes by (by rewrite <- Et, <- Ed, take_drop).
    assert (length (ts ++ [t]) = k) as Hlen by (rewrite <- Et, length_take; lia).
    assert (drop k (al_chain_hashes l) = chain_of (chain_end genesis_hash (map event_text (ts ++ [t]))) (event_text e :: map event_text rest)) as Hd.
    { rewrite Hc, Hes, map_app, <- Hlen. generalize genesis_hash, (ts ++ [t]). clear. intros p us. revert p. induction us as [|u us IH]; intros p; [done|].
      cbn [map app length chain_of skipn]. apply IH. }
    rewrite Hd. cbn [verify_from chain_of]. rewrite bool_decide_eq_false_2; [done|]. intros E%chash_str_inj.
    apply Hcf in E.
    + apply app_inv_head in E. rewrite map_app in E. cbn [map] in E. rewrite chain_end_snoc in E. unfold genesis_hash in E at 1. apply chash_str_inj in E.
      apply Hcf in E; [|by left|].
      * destruct (text_opens t) as [r Hr]. by rewrite Hr in E.
      * right. apply elem_of_app. right. rewrite Hes. apply audit_inputs_mono, in_audit_inputs.
    + right. apply elem_of_app. left. apply elem_of_map. exists e. split; [done|]. rewrite Hes. apply elem_of_app. right. by left.
    + right. apply elem_of_app. right. rewrite Hes. replace ((ts ++ [t]) ++ e :: rest) with (((ts ++ [t]) ++ [e]) ++ rest) by (by rewrite <- app_assoc).
      apply audit_inputs_mono, in_audit_inputs.
Qed.

(** Queries.  A query returns the latest matching events, newest first, up
    to its limit; a limit of zero or less returns one. *)
Theorem query_exact l event_type actor_id target_id since_epoch limit :
  query l event_type actor_id target_id since_epoch limit =
    take (Nat.max 1 (Z.to_nat limit)) (List.filter (query_matches event_type actor_id target_id since_epoch) (rev (al_events l))).
Proof.
  unfold query. generalize (query_matches event_type actor_id target_id since_epoch) (rev (al_events l)). intros P es.
  enough (forall rs, (length rs < Nat.max 1 (Z.to_nat limit))%nat -> query_loop P limit rs es = rs ++ take (Nat.max 1 (Z.to_nat limit) - length rs) (List.filter P es)) as Hq.
  { rewrite Hq by (cbn; lia). cbn. by rewrite Nat.sub_0_r. }
  induction es as [|e es IH]; intros rs Hr; cbn [query_loop List.filter]; [by rewrite take_nil, app_nil_r|].
  destruct (P e); [|by apply IH]. destruct (Z.leb_spec limit (Z.of_nat (length (rs ++ [e])))) as [Hl|Hl]; rewrite length_app in Hl; cbn in Hl.
  - replace (Nat.max 1 (Z.to_nat limit) - length rs)%nat with 1%nat by lia. done.
  - rewrite IH by (rewrite length_app; cbn; lia). rewrite length_app, <- app_assoc. cbn [length].
    replace (Nat.max 1 (Z.to_nat limit) - length rs)%nat with (S (Nat.max 1 (Z.to_nat limit) - (length rs + 1)))%nat by lia. done.
Qed.
End Theorems.

(** * Witnesses and examples *)
Definition audit_demo_event (action : string) (epoch : Z) : AuditEvent :=
  new_event ACCESS_DENIED (lit "mallory") (lit action) f64_epoch epoch (Some (lit "entity")) (Some [(lit "tries", JInt epoch)]).
Definition audit_demo_events : list AuditEvent := [audit_demo_event "a" 1; audit_demo_event "b" 2; audit_demo_event "c" 5].
Definition demo_logger : ComplianceAuditLogger := new_logger (lit "system") 3 None [1].

Lemma audit_demo_ok : Forall event_ok audit_demo_events.
Proof.
  repeat (constructor; [unfold event_ok; split_and!|]); [..|constructor].
  all: try (repeat (constructor; [apply ascii_valid; vm_compute; reflexivity|]); constructor).
  all: try (intros x [= <-]; apply ascii_valid; reflexivity).
  all: match goal with E : _ = Some _ |- _ => injection E as <- end.
  all: repeat (constructor; [split; [apply ascii_valid; reflexivity|constructor]|]); constructor.
Qed.

Lemma audit_log_tamper_evident_witness :
  verify_chain_integrity (log_all demo_logger audit_demo_events) = Ok (true, 3) /\ Forall2 same_event audit_demo_events audit_demo_events.
Proof.
  destruct (audit_log_tamper_evident demo_logger audit_demo_events (new_chained _ _ _ _) eq_refl) as (Hv & _ & Hb).
  split; [exact Hv|]. refine (Hb audit_demo_events (al_chain_hashes (log_all demo_logger audit_demo_events)) 3 _ _ audit_demo_ok audit_demo_ok _).
  - by vm_compute.
  - by vm_compute.
  - apply no_collision_spec. by vm_compute.
Defined.

Lemma eviction_breaks_chain_witness :
  verify_chain_integrity (evict_expired (log_all demo_logger audit_demo_events) 5).2 = Ok (false, 0).
Proof.
  pose proof (eviction_breaks_chain demo_logger audit_demo_events 5 (new_chained _ _ _ _) eq_refl) as Ht.
  destruct (evict_expired (log_all demo_logger audit_demo_events) 5) as [n l] eqn:E. destruct Ht as (_ & _ & Hb). apply Hb.
  - assert (n = 1) as -> by (apply (f_equal fst) in E; vm_compute in E; done). done.
  - intros En. assert (length (al_events (evict_expired (log_all demo_logger audit_demo_events) 5).2) = 2%nat) as Hl by (by vm_compute).
    rewrite E in Hl. cbn [snd] in Hl. by rewrite En in Hl.
  - apply no_collision_spec. by vm_compute.
Defined.

(** Nothing in a CEF line is escaped: an actor can write fields of the line
    itself. *)
Definition cef_event (actor outcome : string) : AuditEvent :=
  {| ae_event_type := ACCESS_DENIED; ae_actor_id := lit actor; ae_action := lit "read"; ae_timestamp := 0; ae_epoch := 0;
     ae_target_id := None; ae_details := None; ae_outcome := lit outcome; ae_event_id := lit "x"; ae_schema_version := lit "ltp.audit.v1";
     ae_component := lit "ltp"; ae_source := lit "application"; ae_correlation_id := None; ae_control_ids := [] |}.
Example cef_injection js : to_cef js (cef_event "eve dst=none rt=0 outcome=success x" "denied")
  = to_cef js (cef_event "eve" "success x dst=none rt=0 outcome=denied").
Proof. reflexivity. Qed.
Example query_limit_zero : length (query (log_all demo_logger audit_demo_events) None None None 0 0) = 1%nat.
Proof. vm_compute. reflexivity. Qed.
