(* ===== verification/Compliance.v ===== *)
(** The access control, geo-fence, key rotation, erasure and software HSM of
    src/src/ltp/compliance.py.  Sets of enumeration values are lists without
    a claim on their order; the audit logger the managers share is passed to
    and returned by every operation that logs. *)

From S2P Require Import Prelude Float64 Sha3 Hashing Primitives Commitment Network Json AuditLog.

(** Logging through an optional logger. *)
Definition audit `{CanonicalHash} (logger : option ComplianceAuditLogger) (e : AuditEvent) : option ComplianceAuditLogger :=
  (fun l => (log_event l e).2) <$> logger.

(** * Role-based access control *)
Inductive ComplianceRole : Type :=
| OPERATOR | AUDITOR | COMPLIANCE_OFFICER | ADMIN | SENDER | RECEIVER.
#[export] Instance ComplianceRole_eq_dec : EqDecision ComplianceRole.
Proof. solve_decision. Defined.
Definition role_value (x : ComplianceRole) : pystr :=
  lit match x with
  | OPERATOR => "operator" | AUDITOR => "auditor" | COMPLIANCE_OFFICER => "compliance" | ADMIN => "admin"
  | SENDER => "sender" | RECEIVER => "receiver"
  end.
Inductive Permission : Type :=
| NODE_REGISTER | NODE_EVICT | NODE_AUDIT | SHARD_STORE | SHARD_FETCH | ENTITY_COMMIT | ENTITY_MATERIALIZE
| STAKE_DEPOSIT | STAKE_WITHDRAW | SLASH_EXECUTE | SLASH_REVERSE | AUDIT_LOG_READ | AUDIT_LOG_EXPORT
| COMPLIANCE_REPORT | GDPR_DELETE | KEY_ROTATE | GOVERNANCE_VOTE | GOVERNANCE_PROPOSE | CONFIG_MODIFY.
#[export] Instance Permission_eq_dec : EqDecision Permission.
Proof. solve_decision. Defined.
Definition permission_value (x : Permission) : pystr :=
  lit match x with
  | NODE_REGISTER => "node.register" | NODE_EVICT => "node.evict" | NODE_AUDIT => "node.audit"
  | SHARD_STORE => "shard.store" | SHARD_FETCH => "shard.fetch" | ENTITY_COMMIT => "entity.commit"
  | ENTITY_MATERIALIZE => "entity.materialize" | STAKE_DEPOSIT => "stake.deposit" | STAKE_WITHDRAW => "stake.withdraw"
  | SLASH_EXECUTE => "slash.execute" | SLASH_REVERSE => "slash.reverse" | AUDIT_LOG_READ => "audit.log.read"
  | AUDIT_LOG_EXPORT => "audit.log.export" | COMPLIANCE_REPORT => "compliance.report" | GDPR_DELETE => "gdpr.delete"
  | KEY_ROTATE => "key.rotate" | GOVERNANCE_VOTE => "governance.vote" | GOVERNANCE_PROPOSE => "governance.propose"
  | CONFIG_MODIFY => "config.modify"
  end.

Definition DEFAULT_ROLE_PERMISSIONS (role : ComplianceRole) : list Permission :=
  match role with
  | OPERATOR => [NODE_REGISTER; SHARD_STORE; SHARD_FETCH; STAKE_DEPOSIT; STAKE_WITHDRAW; NODE_AUDIT]
  | AUDITOR => [AUDIT_LOG_READ; AUDIT_LOG_EXPORT; NODE_AUDIT; SHARD_FETCH]
  | COMPLIANCE_OFFICER => [AUDIT_LOG_READ; AUDIT_LOG_EXPORT; COMPLIANCE_REPORT; GDPR_DELETE; NODE_AUDIT]
  | ADMIN => [NODE_REGISTER; NODE_EVICT; NODE_AUDIT; SHARD_STORE; SHARD_FETCH; ENTITY_COMMIT; ENTITY_MATERIALIZE; STAKE_DEPOSIT; STAKE_WITHDRAW; SLASH_EXECUTE; SLASH_REVERSE; AUDIT_LOG_READ; AUDIT_LOG_EXPORT; COMPLIANCE_REPORT; GDPR_DELETE; KEY_ROTATE; GOVERNANCE_VOTE; GOVERNANCE_PROPOSE; CONFIG_MODIFY]
  | SENDER => [ENTITY_COMMIT; SHARD_STORE]
  | RECEIVER => [ENTITY_MATERIALIZE; SHARD_FETCH]
  end.

Record RBACPolicy : Type := {
  rp_identity_id : pystr;
  rp_roles : list ComplianceRole;
  rp_additional_permissions : list Permission;
  rp_denied_permissions : list Permission;
  rp_created_epoch : Z;
  rp_expires_epoch : option Z
}.
Definition effective_permissions (p : RBACPolicy) : list Permission :=
  List.filter (fun x => negb (bool_decide (x ∈ rp_denied_permissions p)))
    (concat (map DEFAULT_ROLE_PERMISSIONS (rp_roles p)) ++ rp_additional_permissions p).
Definition has_permission (p : RBACPolicy) (perm : Permission) (current_epoch : Z) : bool :=
  match rp_expires_epoch p with
  | Some e => if e <? current_epoch then false else bool_decide (perm ∈ effective_permissions p)
  | None => bool_decide (perm ∈ effective_permissions p)
  end.

Section RBAC.
Context `{CanonicalHash}.
Abbreviation RBACManager := (list (pystr * RBACPolicy)).

Definition create_policy (m : RBACManager) (logger : option ComplianceAuditLogger) (identity_id : pystr) (roles : list ComplianceRole)
    (epoch : Z) (expires_epoch : option Z) (now : float64) : RBACPolicy * RBACManager * option ComplianceAuditLogger :=
  let policy := {| rp_identity_id := identity_id; rp_roles := roles; rp_additional_permissions := []; rp_denied_permissions := [];
                   rp_created_epoch := epoch; rp_expires_epoch := expires_epoch |} in
  (policy, dict_set m identity_id policy,
   audit logger (new_event ACCESS_CONTROL (lit "system") (lit "rbac_policy_created") now epoch (Some identity_id)
     (Some [(lit "roles", JList (map (fun r => JStr (role_value r)) roles))]))).

Definition check_permission (m : RBACManager) (identity_id : pystr) (permission : Permission) (current_epoch : Z) : bool :=
  match dict_find m identity_id with Some policy => has_permission policy permission current_epoch | None => false end.

Definition require_permission (m : RBACManager) (logger : option ComplianceAuditLogger) (identity_id : pystr) (permission : Permission)
    (current_epoch : Z) (now : float64) : result () * option ComplianceAuditLogger :=
  if check_permission m identity_id permission current_epoch then (Ok (), logger)
  else (Err PermissionError,
        audit logger (new_event ACCESS_DENIED identity_id (lit "denied:" ++ permission_value permission) now current_epoch None None)).

Definition get_policy (m : RBACManager) (identity_id : pystr) : option RBACPolicy := dict_find m identity_id.

Definition revoke_policy (m : RBACManager) (logger : option ComplianceAuditLogger) (identity_id : pystr) (epoch : Z) (now : float64)
    : bool * RBACManager * option ComplianceAuditLogger :=
  match dict_find m identity_id with
  | None => (false, m, logger)
  | Some _ => (true, dict_del m identity_id,
      audit logger (new_event ACCESS_CONTROL (lit "system") (lit "rbac_policy_revoked") now epoch (Some identity_id) None))
  end.

Definition list_identities_with_role (m : RBACManager) (role : ComplianceRole) : list pystr :=
  map fst (List.filter (fun kv => bool_decide (role ∈ rp_roles kv.2)) m).
End RBAC.

(** * Geo-fence *)
Inductive Jurisdiction : Type :=
| US | US_GOVCLOUD | EU | UK | CH | JP | SG | AU | CA | GLOBAL.
#[export] Instance Jurisdiction_eq_dec : EqDecision Jurisdiction.
Proof. solve_decision. Defined.
Definition jurisdiction_value (x : Jurisdiction) : pystr :=
  lit match x with
  | US => "us" | US_GOVCLOUD => "us-govcloud" | EU => "eu" | UK => "uk" | CH => "ch" | JP => "jp" | SG => "sg"
  | AU => "au" | CA => "ca" | GLOBAL => "global"
  end.

Record GeoFencePolicy : Type := {
  gf_allowed_jurisdictions : list Jurisdiction;
  gf_excluded_jurisdictions : list Jurisdiction;
  gf_min_jurisdictions : Z;
  gf_require_cross_jurisdiction : bool
}.
Definition default_geo : GeoFencePolicy :=
  {| gf_allowed_jurisdictions := [GLOBAL]; gf_excluded_jurisdictions := []; gf_min_jurisdictions := 1; gf_require_cross_jurisdiction := false |}.

(** [str.lower], as far as prefixes of ASCII letters can tell: the ASCII
    letters and the Kelvin sign, the one other character with an ASCII letter
    as its lower case. *)
Fixpoint lower (s : pystr) : pystr :=
  match s with
  | 226 :: 132 :: 170 :: s => 107 :: lower s
  | c :: s => (if (65 <=? c) && (c <=? 90) then c + 32 else c) :: lower s
  | [] => []
  end.
Fixpoint startswith (s prefix : pystr) : bool :=
  match prefix, s with
  | [], _ => true
  | p :: prefix, c :: s => (p =? c) && startswith s prefix
  | _ :: _, [] => false
  end.

Definition region_mapping : list (pystr * Jurisdiction) := [
  (lit "us-", US); (lit "us_gov", US_GOVCLOUD); (lit "eu-", EU); (lit "europe-", EU); (lit "uk-", UK); (lit "gb-", UK);
  (lit "ch-", CH); (lit "jp-", JP); (lit "asia-northeast1", JP); (lit "sg-", SG); (lit "asia-southeast1", SG);
  (lit "au-", AU); (lit "australia-", AU); (lit "ca-", CA); (lit "canada-", CA)].
Definition region_to_jurisdiction (region : pystr) : Jurisdiction :=
  match List.find (fun kv => startswith (lower region) kv.1) region_mapping with Some (_, j) => j | None => GLOBAL end.

Definition is_region_allowed (g : GeoFencePolicy) (region : pystr) : bool :=
  let region_jurisdiction := region_to_jurisdiction region in
  if bool_decide (GLOBAL ∈ gf_allowed_jurisdictions g) then negb (bool_decide (region_jurisdiction ∈ gf_excluded_jurisdictions g))
  else bool_decide (region_jurisdiction ∈ gf_allowed_jurisdictions g) && negb (bool_decide (region_jurisdiction ∈ gf_excluded_jurisdictions g)).

Definition filter_nodes (g : GeoFencePolicy) (nodes : list CommitmentNode) : list CommitmentNode :=
  List.filter (fun n => is_region_allowed g (region n)) nodes.

Definition validate_placement (g : GeoFencePolicy) (placed_nodes : list CommitmentNode) : bool * list pystr :=
  let violations := concat (map (fun n => if is_region_allowed g (region n) then [] else
    [lit "Node " ++ node_id n ++ lit " in region '" ++ region n ++ lit "' violates geo-fence (jurisdiction: " ++
     jurisdiction_value (region_to_jurisdiction (region n)) ++ lit ")"]) placed_nodes) in
  let used := Z.of_nat (length (remove_dups (map (fun n => region_to_jurisdiction (region n)) placed_nodes))) in
  let violations := if gf_require_cross_jurisdiction g && (used <? gf_min_jurisdictions g)
    then violations ++ [lit "Placement uses " ++ str_int used ++ lit " jurisdiction(s), minimum required: " ++ str_int (gf_min_jurisdictions g)]
    else violations in
  (match violations with [] => true | _ => false end, violations).

(** * Key rotation *)
Record KeyVersion : Type := {
  kv_version : Z;
  kv_key_fingerprint : pystr;
  kv_created_epoch : Z;
  kv_expires_epoch : option Z;
  kv_revoked : bool;
  kv_revoked_epoch : option Z;
  kv_algorithm : pystr
}.
Definition is_active (v : KeyVersion) : bool := negb (kv_revoked v).
Record KeyRotationPolicy : Type := {
  kr_max_key_age_epochs : Z;
  kr_rotation_warning_epochs : Z;
  kr_require_rotation_on_compromise : bool;
  kr_max_versions_retained : Z;
  kr_auto_rotate : bool
}.
Definition default_rotation : KeyRotationPolicy :=
  {| kr_max_key_age_epochs := 8760; kr_rotation_warning_epochs := 720; kr_require_rotation_on_compromise := true;
     kr_max_versions_retained := 5; kr_auto_rotate := false |}.

(** [xs[:n]] *)
Definition slice_to {A} (n : Z) (xs : list A) : list A :=
  take (Z.to_nat (if n <? 0 then Z.of_nat (length xs) + n else n)) xs.

Section KeyRotation.
Context `{CanonicalHash} (policy : KeyRotationPolicy).
(** [_key_versions]: identity to versions, newest first *)
Abbreviation KeyRotationManager := (list (pystr * list KeyVersion)).

Definition versions_of (m : KeyRotationManager) (identity_id : pystr) : list KeyVersion := default [] (dict_find m identity_id).

Definition register_key (m : KeyRotationManager) (logger : option ComplianceAuditLogger) (identity_id key_fingerprint : pystr) (epoch : Z)
    (algorithm : pystr) (now : float64) : KeyVersion * KeyRotationManager * option ComplianceAuditLogger :=
  let versions := versions_of m identity_id in
  let version_num := Z.of_nat (length versions) + 1 in
  let expires := epoch + kr_max_key_age_epochs policy in
  let key_ver := {| kv_version := version_num; kv_key_fingerprint := key_fingerprint; kv_created_epoch := epoch;
                    kv_expires_epoch := Some expires; kv_revoked := false; kv_revoked_epoch := None; kv_algorithm := algorithm |} in
  let versions := key_ver :: versions in
  let versions := if kr_max_versions_retained policy <? Z.of_nat (length versions)
                  then slice_to (kr_max_versions_retained policy) versions else versions in
  (key_ver, dict_set m identity_id versions,
   audit logger (new_event KEY_GENERATED identity_id (lit "key_registered") now epoch None
     (Some [(lit "version", JInt version_num); (lit "algorithm", JStr algorithm); (lit "expires_epoch", JInt expires)]))).

Definition get_active_key (m : KeyRotationManager) (identity_id : pystr) : option KeyVersion := List.find is_active (versions_of m identity_id).

Definition check_rotation_needed (m : KeyRotationManager) (identity_id : pystr) (current_epoch : Z) : bool * option pystr :=
  match get_active_key m identity_id with
  | None => (true, Some (lit "no_active_key"))
  | Some active =>
      match kv_expires_epoch active with
      | None => (false, None)
      | Some e => if e <=? current_epoch then (true, Some (lit "key_expired"))
                  else if e - current_epoch <=? kr_rotation_warning_epochs policy then (true, Some (lit "approaching_expiry"))
                  else (false, None)
      end
  end.

Definition revoke_version (epoch : Z) (v : KeyVersion) : KeyVersion :=
  {| kv_version := kv_version v; kv_key_fingerprint := kv_key_fingerprint v; kv_created_epoch := kv_created_epoch v;
     kv_expires_epoch := kv_expires_epoch v; kv_revoked := true; kv_revoked_epoch := Some epoch; kv_algorithm := kv_algorithm v |}.
(** The loop of [revoke_key] over the versions. *)
Fixpoint revoke_first (version epoch : Z) (versions : list KeyVersion) : option (list KeyVersion) :=
  match versions with
  | [] => None
  | v :: vs => if (kv_version v =? version) && negb (kv_revoked v) then Some (revoke_version epoch v :: vs)
               else cons v <$> revoke_first version epoch vs
  end.
Definition revoke_key (m : KeyRotationManager) (logger : option ComplianceAuditLogger) (identity_id : pystr) (version epoch : Z)
    (reason : pystr) (now : float64) : bool * KeyRotationManager * option ComplianceAuditLogger :=
  match revoke_first version epoch (versions_of m identity_id) with
  | None => (false, m, logger)
  | Some versions => (true, dict_set m identity_id versions,
      audit logger (new_event KEY_REVOKED identity_id (lit "key_revoked") now epoch None
        (Some [(lit "version", JInt version); (lit "reason", JStr reason)])))
  end.
Definition get_key_history (m : KeyRotationManager) (identity_id : pystr) : list KeyVersion := versions_of m identity_id.
End KeyRotation.

(** * Erasure requests *)
Record DeletionRequest : Type := {
  dq_request_id : pystr;
  dq_entity_id : pystr;
  dq_requester_id : pystr;
  dq_request_epoch : Z;
  dq_reason : pystr;
  dq_status : pystr;
  dq_completion_epoch : option Z;
  dq_deletion_proof : option pystr
}.
Definition dq_complete (r : DeletionRequest) (epoch : Z) (proof : option pystr) : DeletionRequest :=
  {| dq_request_id := dq_request_id r; dq_entity_id := dq_entity_id r; dq_requester_id := dq_requester_id r;
     dq_request_epoch := dq_request_epoch r; dq_reason := dq_reason r; dq_status := lit "completed";
     dq_completion_epoch := Some epoch; dq_deletion_proof := proof |}.
Record DeletionProof : Type := {
  dp_entity_id : pystr;
  dp_deletion_epoch : Z;
  dp_shard_count_destroyed : Z;
  dp_node_count_participating : Z;
  dp_destruction_merkle_root : pystr;
  dp_node_attestations : list pystr;
  dp_proof_hash : pystr
}.
Record GDPRDeletionManager : Type := {
  gd_requests : list (pystr * DeletionRequest);
  gd_proofs : list (pystr * DeletionProof)
}.
Definition new_deletion_manager : GDPRDeletionManager := {| gd_requests := []; gd_proofs := [] |}.

Section Erasure.
Context `{CanonicalHash}.

(** [DeletionProof(...)] with an empty hash, and [__post_init__]. *)
Definition new_deletion_proof (entity_id : pystr) (epoch count participating : Z) (root : pystr) (attestations : list pystr) : DeletionProof :=
  {| dp_entity_id := entity_id; dp_deletion_epoch := epoch; dp_shard_count_destroyed := count; dp_node_count_participating := participating;
     dp_destruction_merkle_root := root; dp_node_attestations := attestations;
     dp_proof_hash := chash_str (entity_id ++ lit ":" ++ str_int epoch ++ lit ":" ++ str_int count ++ lit ":" ++ root) |}.

Definition submit_request (m : GDPRDeletionManager) (logger : option ComplianceAuditLogger) (entity_id requester_id : pystr) (epoch : Z)
    (reason : pystr) (now : float64) : DeletionRequest * GDPRDeletionManager * option ComplianceAuditLogger :=
  let request_id := chash_str (entity_id ++ lit ":" ++ requester_id ++ lit ":" ++ str_int epoch) in
  let request := {| dq_request_id := request_id; dq_entity_id := entity_id; dq_requester_id := requester_id; dq_request_epoch := epoch;
                    dq_reason := reason; dq_status := lit "pending"; dq_completion_epoch := None; dq_deletion_proof := None |} in
  (request, {| gd_requests := dict_set (gd_requests m) request_id request; gd_proofs := gd_proofs m |},
   audit logger (new_event GDPR_DELETION_REQUEST requester_id (lit "deletion_requested") now epoch (Some entity_id)
     (Some [(lit "reason", JStr reason)]))).

(** The shards a node holds of an entity, and the node without them. *)
Definition shards_of (entity_id : pystr) (nd : CommitmentNode) : list bytes :=
  map snd (List.filter (fun kd => bool_decide (kd.1.1 = entity_id)) (map_to_list (shards nd))).
Definition remove_entity (entity_id : pystr) (nd : CommitmentNode) : CommitmentNode :=
  with_shards nd (filter (fun kd => kd.1.1 <> entity_id) (shards nd))
    (filter (fun kt => ~ (kt.1.1 = entity_id /\ is_Some (shards nd !! kt.1))) (shard_ttl nd)).

Definition str_sort (xs : list pystr) : list pystr := sort_by Encoding.CanonicalEncoder.str_leb xs.

(** The nodes of the list are distinct objects, as those of a network are: an
    object listed twice would be two nodes here, while the code empties it at
    its first occurrence. *)
Definition execute_deletion (m : GDPRDeletionManager) (logger : option ComplianceAuditLogger) (request_id : pystr) (nodes : list CommitmentNode)
    (epoch : Z) (now : float64) : option DeletionProof * GDPRDeletionManager * list CommitmentNode * option ComplianceAuditLogger :=
  match dict_find (gd_requests m) request_id with
  | None => (None, m, nodes, logger)
  | Some request =>
      if bool_decide (dq_status request = lit "completed") then (dict_find (gd_proofs m) (dq_entity_id request), m, nodes, logger)
      else
        let entity_id := dq_entity_id request in
        let removed := map (fun nd => (node_id nd, shards_of entity_id nd)) nodes in
        let nodes' := map (remove_entity entity_id) nodes in
        let shard_hashes := concat (map (fun r => map chash_str r.2) removed) in
        let participating := List.filter (fun r => (0 <? length r.2)%nat) removed in
        let attestations := map (fun r => chash_str (r.1 ++ lit ":deleted:" ++ entity_id ++ lit ":" ++ str_int (Z.of_nat (length r.2)) ++
                                                     lit ":" ++ str_int epoch)) participating in
        let update proof_hash proofs :=
          {| gd_requests := dict_set (gd_requests m) request_id (dq_complete request epoch proof_hash); gd_proofs := proofs |} in
        match shard_hashes with
        | [] => (None, update (dq_deletion_proof request) (gd_proofs m), nodes', logger)
        | _ =>
            let destruction_root := chash_str (concat (str_sort shard_hashes)) in
            let count := Z.of_nat (length shard_hashes) in
            let proof := new_deletion_proof entity_id epoch count (Z.of_nat (length participating)) destruction_root attestations in
            (Some proof, update (Some (dp_proof_hash proof)) (dict_set (gd_proofs m) entity_id proof), nodes',
             audit logger (new_event GDPR_DELETION_COMPLETE (dq_requester_id request) (lit "deletion_completed") now epoch (Some entity_id)
               (Some [(lit "shards_destroyed", JInt count); (lit "nodes_participating", JInt (Z.of_nat (length participating)));
                      (lit "proof_hash", JStr (dp_proof_hash proof))])))
        end
  end.
Definition get_proof (m : GDPRDeletionManager) (entity_id : pystr) : option DeletionProof := dict_find (gd_proofs m) entity_id.
Definition get_request (m : GDPRDeletionManager) (request_id : pystr) : option DeletionRequest := dict_find (gd_requests m) request_id.
Definition list_pending_requests (m : GDPRDeletionManager) : list DeletionRequest :=
  List.filter (fun r => bool_decide (dq_status r = lit "pending")) (map snd (gd_requests m)).
End Erasure.

(** * The software HSM *)
Record HsmKey : Type := { hk_label : pystr; hk_public_key : bytes; hk_private_key : bytes; hk_ek : bytes; hk_dk : bytes; hk_vk : bytes; hk_sk : bytes }.
Record SoftwareHSM : Type := { hsm_key_label_prefix : pystr; hsm_keys : list (pystr * HsmKey); hsm_next_id : Z }.
Definition new_hsm (key_label_prefix : pystr) : SoftwareHSM := {| hsm_key_label_prefix := key_label_prefix; hsm_keys := []; hsm_next_id := 1 |}.

Section HSM.
Context (pq : pq_backend) (profile : SecurityProfile).
(** [kp] is the pair [KeyPair.generate(label=label)] returned. *)
Definition hsm_generate_keypair (h : SoftwareHSM) (label : pystr) (kp : KeyPair) : bytes * pystr * pystr * SoftwareHSM :=
  let key_id := hsm_key_label_prefix h ++ str_int (hsm_next_id h) in
  (kp_ek kp ++ kp_vk kp, key_id, label,
   {| hsm_key_label_prefix := hsm_key_label_prefix h; hsm_next_id := hsm_next_id h + 1;
      hsm_keys := dict_set (hsm_keys h) key_id
        {| hk_label := label; hk_public_key := kp_ek kp ++ kp_vk kp; hk_private_key := kp_dk kp ++ kp_sk kp;
           hk_ek := kp_ek kp; hk_dk := kp_dk kp; hk_vk := kp_vk kp; hk_sk := kp_sk kp |} |}).
Definition hsm_key (h : SoftwareHSM) (key_id : pystr) : result HsmKey := or_raise KeyError (dict_find (hsm_keys h) key_id).
Definition hsm_sign_message (h : SoftwareHSM) (key_id : pystr) (message : bytes) : result bytes :=
  k ← hsm_key h key_id; MLDSA_sign pq profile (hk_sk k) message.
Definition hsm_decrypt (h : SoftwareHSM) (key_id : pystr) (ciphertext : bytes) : result bytes :=
  k ← hsm_key h key_id;
  SealedBox_unseal pq profile ciphertext
    {| kp_ek := hk_ek k; kp_dk := hk_dk k; kp_vk := hk_vk k; kp_sk := hk_sk k; kp_label := []; kp_version := 1;
       kp_predecessor_vk_hash := []; kp_state := ACTIVE; kp_hsm := None |}.
Definition hsm_destroy_key (h : SoftwareHSM) (key_id : pystr) : bool * SoftwareHSM :=
  match dict_find (hsm_keys h) key_id with
  | Some _ => (true, {| hsm_key_label_prefix := hsm_key_label_prefix h; hsm_next_id := hsm_next_id h; hsm_keys := dict_del (hsm_keys h) key_id |})
  | None => (false, h)
  end.
Definition hsm_list_keys (h : SoftwareHSM) : list (pystr * pystr) := map (fun kv => (kv.1, hk_label kv.2)) (hsm_keys h).
Definition hsm_export_public_key (h : SoftwareHSM) (key_id : pystr) : result bytes := k ← hsm_key h key_id; Ok (hk_public_key k).
End HSM.

(** * The FIPS provider *)
Inductive CryptoProviderMode : Type := MODE_DEFAULT | MODE_FIPS | MODE_HYBRID.
#[export] Instance CryptoProviderMode_eq_dec : EqDecision CryptoProviderMode.
Proof. solve_decision. Defined.

(** [AESGCM] of the [cryptography] package, absent when it is not installed:
    encryption and decryption under a 32-byte key and a 12-byte nonce. *)
Record aes_gcm : Type := { gcm_encrypt : bytes -> bytes -> bytes -> bytes; gcm_decrypt : bytes -> bytes -> bytes -> result bytes }.

Section Provider.
Context `{CanonicalHash} (lib : hash_library) (pq : pq_backend) (gcm : option aes_gcm).

(** [fips_available] is what the probe of the OpenSSL version found. *)
Definition new_provider (mode : CryptoProviderMode) (fips_available : bool) : result CryptoProviderMode :=
  if bool_decide (mode = MODE_FIPS) && negb fips_available then Err RuntimeError else Ok mode.
Definition is_fips_mode (mode : CryptoProviderMode) : bool := bool_decide (mode = MODE_FIPS) || bool_decide (mode = MODE_HYBRID).
Definition provider_hash (mode : CryptoProviderMode) (data : bytes) : pystr :=
  if is_fips_mode mode then lit "sha3-256:" ++ spec_hash_hex lib data else chash_str data.
Definition provider_hash_bytes (mode : CryptoProviderMode) (data : bytes) : bytes :=
  if is_fips_mode mode then spec_hash_bytes lib data else chash data.

(** [x[:n] if len(x) >= n else x.ljust(n, b"\x00")] *)
Definition fit (n : nat) (x : bytes) : bytes := if (n <=? length x)%nat then take n x else x ++ repeat 0 (n - length x)%nat.

Definition aes_gcm_encrypt (key plaintext nonce : bytes) : result bytes :=
  match gcm with
  | Some g => Ok (gcm_encrypt g (fit 32 key) (fit 12 nonce) plaintext)
  | None => AEAD_encrypt pq key plaintext nonce []
  end.
Definition aes_gcm_decrypt (key ciphertext_with_tag nonce : bytes) : result bytes :=
  match gcm with
  | Some g => gcm_decrypt g (fit 32 key) (fit 12 nonce) ciphertext_with_tag
  | None => AEAD_decrypt pq key ciphertext_with_tag nonce []
  end.
Definition provider_encrypt (mode : CryptoProviderMode) (key plaintext nonce : bytes) : result bytes :=
  if bool_decide (mode = MODE_FIPS) then aes_gcm_encrypt key plaintext nonce else AEAD_encrypt pq key plaintext nonce [].
Definition provider_decrypt (mode : CryptoProviderMode) (key ciphertext_with_tag nonce : bytes) : result bytes :=
  if bool_decide (mode = MODE_FIPS) then aes_gcm_decrypt key ciphertext_with_tag nonce else AEAD_decrypt pq key ciphertext_with_tag nonce [].
End Provider.

(** * Configuration *)
Inductive ComplianceFramework : Type :=
| SOC2_TYPE2 | FEDRAMP_MODERATE | FEDRAMP_HIGH | GDPR | HIPAA | PCI_DSS | ISO_27001 | BASEL_III | OCC_CUSTODY.
#[export] Instance ComplianceFramework_eq_dec : EqDecision ComplianceFramework.
Proof. solve_decision. Defined.

Record ComplianceConfig : Type := {
  cc_frameworks : list ComplianceFramework;
  cc_crypto_mode : CryptoProviderMode;
  cc_enable_rbac : bool;
  cc_enable_geo_fencing : bool;
  cc_default_geo_policy : option GeoFencePolicy;
  cc_enable_audit_logging : bool;
  cc_audit_retention_epochs : Z;
  cc_siem_export_enabled : bool;
  cc_siem_destination : option pystr;
  cc_enable_key_rotation : bool;
  cc_enable_gdpr_deletion : bool;
  cc_hsm_provider : option pystr          (* hsm_config and its provider *)
}.

(** The controls of [validate]: the frameworks that ask for one, whether it is
    there, and the message otherwise, in the order of the code. *)
Definition truthy_str (o : option pystr) : bool := match o with Some (_ :: _) => true | _ => false end.
Definition controls (c : ComplianceConfig) : list (list ComplianceFramework * bool * string) :=
  let fips := bool_decide (cc_crypto_mode c = MODE_FIPS) in
  let fedramp := [FEDRAMP_MODERATE; FEDRAMP_HIGH] in
  let no_global := match cc_default_geo_policy c with
    | Some g => negb (cc_enable_geo_fencing c && bool_decide (GLOBAL ∈ gf_allowed_jurisdictions g)) | None => true end in
  let kms := match cc_hsm_provider c with Some p => negb (bool_decide (p = lit "software" \/ p = lit "memory")) | None => false end in
  let hardware := match cc_hsm_provider c with Some p => negb (bool_decide (p = lit "software")) | None => false end in
  [ (fedramp, fips, "FedRAMP requires FIPS 140-3 crypto mode (set crypto_mode=CryptoProviderMode.FIPS)"%string);
    (fedramp, cc_enable_rbac c, "FedRAMP AC-2/AC-3 requires RBAC (set enable_rbac=True)"%string);
    (fedramp, cc_enable_audit_logging c, "FedRAMP AU-2 requires audit logging (set enable_audit_logging=True)"%string);
    (fedramp, no_global, "FedRAMP requires US jurisdiction constraint (remove GLOBAL from allowed_jurisdictions)"%string);
    ([FEDRAMP_HIGH], cc_enable_key_rotation c, "FedRAMP High requires key rotation controls (set enable_key_rotation=True)"%string);
    ([FEDRAMP_HIGH], kms, "FedRAMP High requires KMS/HSM-backed key protection (configure hsm_config with a non-software provider)"%string);
    ([FEDRAMP_HIGH], cc_siem_export_enabled c && truthy_str (cc_siem_destination c), "FedRAMP High requires audit export to a SIEM or authorized audit sink"%string);
    ([FEDRAMP_HIGH], 26280 <=? cc_audit_retention_epochs c, "FedRAMP High requires at least three years of audit retention evidence"%string);
    ([SOC2_TYPE2], cc_enable_rbac c, "SOC 2 CC6.1 requires access control (set enable_rbac=True)"%string);
    ([SOC2_TYPE2], cc_enable_audit_logging c, "SOC 2 CC7.1 requires monitoring (set enable_audit_logging=True)"%string);
    ([SOC2_TYPE2], cc_enable_key_rotation c, "SOC 2 CC6.7 requires key management controls (set enable_key_rotation=True)"%string);
    ([GDPR], cc_enable_gdpr_deletion c, "GDPR Art. 17 requires deletion capability (set enable_gdpr_deletion=True)"%string);
    ([GDPR], cc_enable_audit_logging c, "GDPR Art. 30 requires processing records (set enable_audit_logging=True)"%string);
    ([PCI_DSS], fips, "PCI-DSS 3.4 requires strong cryptography (set crypto_mode=CryptoProviderMode.FIPS)"%string);
    ([PCI_DSS], cc_enable_key_rotation c, "PCI-DSS 3.6 requires key management (set enable_key_rotation=True)"%string);
    ([HIPAA], cc_enable_rbac c, "HIPAA §164.312(a) requires access control (set enable_rbac=True)"%string);
    ([HIPAA], cc_enable_audit_logging c, "HIPAA §164.312(b) requires audit controls (set enable_audit_logging=True)"%string);
    ([BASEL_III], cc_enable_rbac c, "Basel III requires segregation of duties (set enable_rbac=True)"%string);
    ([BASEL_III], hardware, "Basel III requires hardware key protection (configure HSM provider)"%string);
    ([OCC_CUSTODY], cc_enable_rbac c, "OCC custody requires access controls (set enable_rbac=True)"%string);
    ([OCC_CUSTODY], cc_enable_audit_logging c, "OCC custody requires comprehensive audit trails (set enable_audit_logging=True)"%string) ].
Definition validate (c : ComplianceConfig) : bool * list string :=
  let violations := concat (map (fun '(fs, present, msg) =>
    if existsb (fun f => bool_decide (f ∈ cc_frameworks c)) fs && negb present then [msg] else []) (controls c)) in
  (match violations with [] => true | _ => false end, violations).

(** * Theorems *)
Lemma has_effective p perm : perm ∈ effective_permissions p <->
  (exists r, r ∈ rp_roles p /\ perm ∈ DEFAULT_ROLE_PERMISSIONS r \/ perm ∈ rp_additional_permissions p) /\ perm ∉ rp_denied_permissions p.
Proof.
  unfold effective_permissions. rewrite list_elem_of_In, filter_In, <- list_elem_of_In, negb_true_iff, bool_decide_eq_false, elem_of_app.
  split; intros [Hin Hd]; (split; [|done]).
  - destruct Hin as [Hin|Hin]; [|exists ADMIN; by right]. apply list_elem_of_In, in_concat in Hin as (xs & (r & <- & Hr)%in_map_iff & Hx).
    exists r. left. by rewrite !list_elem_of_In.
  - destruct Hin as (r & [[Hr Hp]|Hp]); [left|by right]. rewrite !list_elem_of_In in *. apply in_concat. exists (DEFAULT_ROLE_PERMISSIONS r).
    split; [by apply in_map|done].
Qed.

Section AccessControl.
Context `{CanonicalHash}.

(** Access is exactly what the last policy of an identity grants: after a
    policy was created, a permission holds iff one of its roles includes it and
    the policy has not expired; after a revocation none does; other identities
    are not touched.  A refused request raises PermissionError and leaves
    exactly one more event, naming identity and permission, in a log that
    stays chained; a granted one changes nothing. *)
Theorem access_control_exact m logger id roles epoch expires now : NoDup m.*1 ->
  (forall p t, check_permission (create_policy m logger id roles epoch expires now).1.2 id p t = true <->
     (exists r, r ∈ roles /\ p ∈ DEFAULT_ROLE_PERMISSIONS r) /\ (forall e, expires = Some e -> t <= e)) /\
  (forall p t, check_permission (revoke_policy m logger id epoch now).1.2 id p t = false) /\
  (forall id' p t, id' <> id -> check_permission (create_policy m logger id roles epoch expires now).1.2 id' p t = check_permission m id' p t /\
     check_permission (revoke_policy m logger id epoch now).1.2 id' p t = check_permission m id' p t) /\
  forall p t l, logger = Some l -> chained l -> let '(r, logger') := require_permission m logger id p t now in
    if check_permission m id p t then r = Ok () /\ logger' = logger
    else r = Err PermissionError /\ exists l' e, logger' = Some l' /\ chained l' /\ al_events l' = al_events l ++ [e] /\
      ae_event_type e = ACCESS_DENIED /\ ae_actor_id e = id /\ ae_action e = lit "denied:" ++ permission_value p /\ ae_epoch e = t.
Proof.
  intros Hnd. split_and!.
  - intros p t. unfold check_permission, create_policy. cbn [fst snd]. rewrite dict_find_set, decide_True by done. unfold has_permission. cbn [rp_expires_epoch].
    assert (forall P : RBACPolicy, rp_roles P = roles -> rp_additional_permissions P = [] -> rp_denied_permissions P = [] ->
      bool_decide (p ∈ effective_permissions P) = true <-> exists r, r ∈ roles /\ p ∈ DEFAULT_ROLE_PERMISSIONS r) as He.
    { intros P E1 E2 E3. rewrite bool_decide_eq_true, has_effective, E1, E2, E3. split.
      - intros [(r & [Hr|Hx%not_elem_of_nil]) _]; [by exists r|done].
      - intros [r Hr]. split; [exists r; by left|apply not_elem_of_nil]. }
    destruct expires as [e|]; [destruct (Z.ltb_spec e t)|]; [|rewrite He by done..].
    + split; [done|]. intros [_ He']. specialize (He' e eq_refl). lia.
    + split; [intros Hr; split; [done|intros e' [= <-]; lia]|by intros [? _]].
    + split; [intros Hr; by split|by intros [? _]].
  - intros p t. unfold check_permission, revoke_policy. destruct (dict_find m id) eqn:E; cbn [fst snd]; [|by rewrite E].
    by rewrite dict_find_del, decide_True.
  - intros id' p t Hne. unfold check_permission, create_policy, revoke_policy. cbn [fst snd]. rewrite dict_find_set, decide_False by done. split; [done|].
    destruct (dict_find m id) eqn:E; cbn [fst snd]; [|done]. by rewrite dict_find_del, decide_False.
  - intros p t l -> Hl. unfold require_permission. destruct (check_permission m id p t); [done|]. split; [done|].
    cbn [audit fmap option_fmap option_map]. eexists _, _. split; [reflexivity|]. split; [by apply log_chained|]. done.
Qed.
End AccessControl.

(** ** Geo-fenced placement *)
(** A network fenced by a policy places shards on nodes the policy allows,
    and the placement it returns passes the validation of the policy, unless
    that asks for more jurisdictions than were used. *)
Theorem geo_fence_sound ihash net policy eid i replicas : geo_fence net = Some (is_region_allowed policy) ->
  uncached net eid i replicas -> (exists p, usable net p) -> (0 < replicas)%nat ->
  exists sel net', placement ihash net eid i replicas = Ok (sel, net') /\ sel <> [] /\
    let placed := map (node_at net) sel in
    (forall nd, nd ∈ placed -> nd ∈ filter_nodes policy (nodes net)) /\
    (gf_require_cross_jurisdiction policy = false -> validate_placement policy placed = (true, [])) /\
    forall excluded, excluded ∈ gf_excluded_jurisdictions policy -> forall nd, nd ∈ placed -> region_to_jurisdiction (region nd) <> excluded.
Proof.
  intros Hg Hu He Hr. destruct (placement_correct ihash net eid i replicas Hu He Hr) as (sel & net' & Ep & Hl & _ & Hsel & _).
  exists sel, net'. split; [done|]. split; [by destruct sel; [cbn in Hl; lia|]|]. cbn zeta.
  assert (forall nd, nd ∈ map (node_at net) sel -> nd ∈ nodes net /\ is_region_allowed policy (region nd) = true) as Hok.
  { intros nd (p & -> & Hp)%elem_of_map. destruct (Hsel p Hp) as (Hlt & _ & Ha). rewrite Hg in Ha. split; [|done].
    unfold node_at in *. destruct (lookup_lt_is_Some_2 _ _ Hlt) as [nd End]. rewrite End. by eapply list_elem_of_lookup_2. }
  split_and!.
  - intros nd [Hin Ha]%Hok. unfold filter_nodes. rewrite list_elem_of_In, filter_In, <- list_elem_of_In. by split.
  - intros Hc. unfold validate_placement. rewrite Hc. cbn [andb].
    assert (concat (map (fun n => if is_region_allowed policy (region n) then [] else [lit "Node " ++ node_id n ++ lit " in region '" ++ region n ++
      lit "' violates geo-fence (jurisdiction: " ++ jurisdiction_value (region_to_jurisdiction (region n)) ++ lit ")"]) (map (node_at net) sel)) = []) as ->; [|done].
    assert (Forall (fun nd => is_region_allowed policy (region nd) = true) (map (node_at net) sel)) as Hf by (apply Forall_forall; intros nd Hnd; by apply Hok).
    revert Hf. generalize (map (node_at net) sel). clear. intros nds Hf. induction Hf as [|nd nds Hnd Hf IH]; [done|]. cbn [map concat]. rewrite Hnd. exact IH.
  - intros j Hj nd [_ Ha]%Hok E. unfold is_region_allowed in Ha. rewrite E in Ha.
    rewrite (bool_decide_eq_true_2 _ Hj) in Ha. destruct (bool_decide _); cbn in Ha; [done|]. by rewrite andb_false_r in Ha.
Qed.

(** Government cloud regions of the form us-gov-... count as plain US. *)
Example govcloud_is_us : region_to_jurisdiction (lit "us-gov-west-1") = US /\
  is_region_allowed {| gf_allowed_jurisdictions := [US_GOVCLOUD]; gf_excluded_jurisdictions := []; gf_min_jurisdictions := 1;
                       gf_require_cross_jurisdiction := false |} (lit "us-gov-west-1") = false.
Proof. split; reflexivity. Qed.

(** ** Key rotation *)
Section Rotation.
Context `{CanonicalHash}.

Lemma versions_set (m : list (pystr * list KeyVersion)) id vs id' : versions_of (dict_set m id vs) id' = if decide (id = id') then vs else versions_of m id'.
Proof. unfold versions_of. rewrite dict_find_set. by destruct (decide (id = id')). Qed.

Definition unrevoked (vs : list KeyVersion) : list KeyVersion := List.filter is_active vs.
Lemma revoke_first_spec version epoch vs : match revoke_first version epoch vs with
  | None => forall v, v ∈ unrevoked vs -> kv_version v <> version
  | Some vs' => exists pre v post, vs = pre ++ v :: post /\ vs' = pre ++ revoke_version epoch v :: post /\ kv_version v = version /\ is_active v = true /\
                  forall x, x ∈ unrevoked pre -> kv_version x <> version end.
Proof.
  induction vs as [|v vs IH]; cbn [revoke_first]; [intros v Hv; by apply not_elem_of_nil in Hv|].
  destruct ((kv_version v =? version) && negb (kv_revoked v)) eqn:E.
  { breflect. exists [], v, vs. unfold is_active. split_and!; [done..| |by intros x ?%not_elem_of_nil]. by apply negb_true_iff. }
  assert (forall x, x ∈ unrevoked [v] -> kv_version x <> version) as Hv.
  { unfold unrevoked, is_active. cbn [List.filter]. intros x. destruct (kv_revoked v); cbn [negb]; [by intros ?%not_elem_of_nil|].
    intros ->%list_elem_of_singleton <-. by rewrite Z.eqb_refl in E. }
  assert (forall l x, x ∈ unrevoked (v :: l) -> x ∈ unrevoked [v] \/ x ∈ unrevoked l) as Hc.
  { intros l x. unfold unrevoked. change (v :: l) with ([v] ++ l). rewrite List.filter_app. by intros ?%elem_of_app. }
  destruct (revoke_first version epoch vs) as [vs'|]; cbn [fmap option_fmap option_map].
  - destruct IH as (pre & x & post & -> & -> & Hx & Ha & Hp). exists (v :: pre), x, post. split_and!; [done..|]. intros y [Hy|Hy]%Hc; auto.
  - intros y [Hy|Hy]%Hc; auto.
Qed.

(** A registered key becomes the active one, with its expiry, and rotation is
    due from the warning period before the expiry on.  A revocation succeeds
    exactly when some unrevoked version has the number, revokes one such
    version and changes no other; the key that is active afterwards is the
    newest one left, of whatever age.  Other identities are not touched. *)
Theorem rotation_exact policy m logger id fp epoch alg version reason now :
  (1 <= kr_max_versions_retained policy -> let '(key, m', _) := register_key policy m logger id fp epoch alg now in
    get_active_key m' id = Some key /\ kv_key_fingerprint key = fp /\
    (forall t, (check_rotation_needed policy m' id t).1 = (epoch + kr_max_key_age_epochs policy <=? t) || (epoch + kr_max_key_age_epochs policy - t <=? kr_rotation_warning_epochs policy)) /\
    forall id', id' <> id -> versions_of m' id' = versions_of m id') /\
  let '(ok, m', _) := revoke_key m logger id version epoch reason now in
  (ok = true <-> exists v, v ∈ unrevoked (versions_of m id) /\ kv_version v = version) /\
  (ok = false -> m' = m) /\
  (ok = true -> exists pre v post, versions_of m id = pre ++ v :: post /\ versions_of m' id = pre ++ revoke_version epoch v :: post /\
     kv_version v = version /\ is_active v = true /\ get_active_key m' id = head (unrevoked (pre ++ post))) /\
  forall id', id' <> id -> versions_of m' id' = versions_of m id'.
Proof.
  split.
  - intros Hmax. unfold register_key. set (key := {| kv_version := _; kv_key_fingerprint := _ |}).
    set (vs := if _ <? _ then _ else _).
    assert (exists rest, vs = key :: rest) as [rest Hvs].
    { unfold vs. destruct (_ <? _); [|by eexists]. unfold slice_to. destruct (Z.ltb_spec (kr_max_versions_retained policy) 0); [lia|].
      destruct (Z.to_nat (kr_max_versions_retained policy)) eqn:E; [lia|]. by eexists. }
    assert (get_active_key (dict_set m id vs) id = Some key) as Ha.
    { unfold get_active_key. by rewrite versions_set, decide_True, Hvs. }
    split_and!; [done..| |].
    + intros t. unfold check_rotation_needed. rewrite Ha. cbn [kv_expires_epoch key]. destruct (_ <=? t); [done|]. by destruct (_ <=? _).
    + intros id' Hne. by rewrite versions_set, decide_False.
  - unfold revoke_key. pose proof (revoke_first_spec version epoch (versions_of m id)) as Hs. destruct (revoke_first version epoch (versions_of m id)) as [vs'|].
    + destruct Hs as (pre & v & post & Ev & -> & Hv & Ha & _). split_and!; [|done| |].
      * split; [intros _|done]. exists v. split; [|done]. rewrite Ev. unfold unrevoked. rewrite List.filter_app. apply elem_of_app. right. cbn [List.filter]. rewrite Ha. by left.
      * intros _. exists pre, v, post. rewrite versions_set, decide_True by done. split_and!; [done..|]. unfold get_active_key. rewrite versions_set, decide_True by done.
        unfold unrevoked. clear. induction pre as [|x pre IH]; cbn [app List.find List.filter]; [|by destruct (is_active x)].
        change (is_active (revoke_version epoch v)) with false. cbn iota. induction post as [|y post IH]; [done|]. cbn [List.find List.filter]. by destruct (is_active y).
      * intros id' Hne. by rewrite versions_set, decide_False.
    + split_and!; [|done|done|done]. split; [done|]. intros (v & Hv & E). by destruct (Hs v Hv).
Qed.

(** Version numbers repeat.  The number of a new key is the length of the
    retained list plus one: after [k] registrations the newest key has the
    number [min k (max + 1)], so that from then on every key of an identity
    carries the same number, and a revocation by number hits whichever is the
    newest. *)
Definition register_all (policy : KeyRotationPolicy) (id : pystr) (keys : list (pystr * Z)) : list (pystr * list KeyVersion) :=
  fold_left (fun m k => (register_key policy m None id k.1 k.2 (lit "ML-KEM-768") 0).1.2) keys [].
Theorem version_numbers_repeat policy id keys : 1 <= kr_max_versions_retained policy ->
  let max := Z.to_nat (kr_max_versions_retained policy) in
  map kv_version (versions_of (register_all policy id keys) id) =
    map (fun i => Z.of_nat (Nat.min (length keys - i) (S max))) (seq 0 (Nat.min (length keys) max)) /\
  ((2 * max <= length keys)%nat -> Forall (fun v => kv_version v = kr_max_versions_retained policy + 1) (versions_of (register_all policy id keys) id)).
Proof.
  intros Hmax max. assert (map kv_version (versions_of (register_all policy id keys) id) =
    map (fun i => Z.of_nat (Nat.min (length keys - i) (S max))) (seq 0 (Nat.min (length keys) max))) as E.
  { unfold register_all. induction keys as [|k keys IH] using rev_ind; [done|]. rewrite fold_left_app. cbn [fold_left].
    set (m := fold_left _ keys []) in *. unfold register_key. cbn [fst snd]. rewrite versions_set, decide_True by done.
    set (key := {| kv_version := _; kv_key_fingerprint := _ |}).
    assert (length (versions_of m id) = Nat.min (length keys) max) as Hl by (apply (f_equal length) in IH; by rewrite !length_map, length_seq in IH).
    assert (map kv_version (key :: versions_of m id) = map (fun i => Z.of_nat (Nat.min (length (keys ++ [k]) - i) (S max))) (seq 0 (S (Nat.min (length keys) max)))) as Ek.
    { cbn [map seq]. f_equal; [unfold key; cbn [kv_version]; rewrite Hl, length_app; cbn [length]; lia|]. rewrite IH, <- seq_shift, map_map. apply map_ext.
      intros i. rewrite length_app. cbn [length]. do 2 f_equal. lia. }
    rewrite length_app. cbn [length]. rewrite Hl. destruct (Z.ltb_spec (kr_max_versions_retained policy) (Z.of_nat (S (Nat.min (length keys) max)))) as [Hlt|Hlt].
    - unfold slice_to. destruct (Z.ltb_spec (kr_max_versions_retained policy) 0); [lia|]. fold max. change (@map) with (@List.map) in *. rewrite <- firstn_map, Ek.
      rewrite firstn_map, take_seq, length_app. cbn [length]. f_equal. f_equal. lia.
    - rewrite Ek, length_app. cbn [length]. f_equal. f_equal. lia. }
  split; [exact E|]. intros Hk. apply Forall_forall. intros v Hv. assert (kv_version v ∈ map kv_version (versions_of (register_all policy id keys) id)) as Hin by (apply elem_of_map; by exists v).
  rewrite E in Hin. apply elem_of_map in Hin as (i & -> & Hi). apply elem_of_seq in Hi. lia.
Qed.

(** Revoking the newest key makes an older one active, expired or not. *)
Example revocation_falls_back :
  let m := register_all default_rotation (lit "id") [(lit "old", 0); (lit "new", 100000)] in
  let m' := (revoke_key m None (lit "id") 2 100000 [] 0).1.2 in
  kv_key_fingerprint <$> get_active_key m' (lit "id") = Some (lit "old") /\ (check_rotation_needed default_rotation m' (lit "id") 100000) = (true, Some (lit "key_expired")).
Proof. vm_compute. split; reflexivity. Qed.
End Rotation.

(** ** Erasure *)
Section ErasureTheorems.
Context `{CanonicalHash}.

Definition holds_entity (entity_id : pystr) (nd : CommitmentNode) : Prop := exists k, k.1 = entity_id /\ is_Some (shards nd !! k).

Lemma shards_of_spec entity_id nd : match shards_of entity_id nd with [] => ~ holds_entity entity_id nd | _ => holds_entity entity_id nd end.
Proof.
  unfold shards_of, holds_entity. destruct (List.filter _ _) as [|[k d] rest] eqn:E; cbn [map].
  - intros (k & <- & d & Hd). assert ((k, d) ∈ List.filter (fun kd => bool_decide (kd.1.1 = k.1)) (map_to_list (shards nd))) as Hin.
    { rewrite list_elem_of_In, filter_In, <- list_elem_of_In. split; [by apply elem_of_map_to_list|]. by apply bool_decide_eq_true. }
    rewrite E in Hin. by apply not_elem_of_nil in Hin.
  - exists k. assert ((k, d) ∈ List.filter (fun kd => bool_decide (kd.1.1 = entity_id)) (map_to_list (shards nd))) as Hin by (rewrite E; by left).
    rewrite list_elem_of_In, filter_In, <- list_elem_of_In in Hin. destruct Hin as [Hin Hk]. breflect. split; [done|]. exists d. by apply elem_of_map_to_list.
Qed.
Lemma remove_entity_spec entity_id nd :
  ~ holds_entity entity_id (remove_entity entity_id nd) /\ node_id (remove_entity entity_id nd) = node_id nd /\
  forall k, k.1 <> entity_id -> shards (remove_entity entity_id nd) !! k = shards nd !! k /\ shard_ttl (remove_entity entity_id nd) !! k = shard_ttl nd !! k.
Proof.
  unfold remove_entity, with_shards, holds_entity. cbn [shards shard_ttl node_id]. split_and!; [|done|].
  - intros (k & <- & d & Hd). apply map_lookup_filter_Some in Hd as [_ Hd]. done.
  - intros k Hk. split.
    + destruct (shards nd !! k) as [d|] eqn:E; [by apply map_lookup_filter_Some|]. apply map_lookup_filter_None. by left.
    + destruct (shard_ttl nd !! k) as [t|] eqn:E; [apply map_lookup_filter_Some; split; [done|]; by intros [? _]|]. apply map_lookup_filter_None. by left.
Qed.

(** C27: Erasure is complete.  Executing an open request removes every shard of
    its entity from every node, with its time to live, and touches nothing
    else; the request is completed; a proof is returned exactly when some node
    held a shard, is retrievable, and counts the shards removed and the nodes
    that held some; a network of these nodes then serves no shard of the
    entity.  But a completed request is never executed again: whatever nodes
    store by then, it answers with the old proof and removes nothing. *)
Theorem erasure_complete m logger request_id r nodes epoch now :
  dict_find (gd_requests m) request_id = Some r -> dq_status r <> lit "completed" ->
  let entity_id := dq_entity_id r in
  let '(proof, m', nodes', logger') := execute_deletion m logger request_id nodes epoch now in
  Forall2 (fun nd nd' => ~ holds_entity entity_id nd' /\ node_id nd' = node_id nd /\
    forall k, k.1 <> entity_id -> shards nd' !! k = shards nd !! k /\ shard_ttl nd' !! k = shard_ttl nd !! k) nodes nodes' /\
  (exists r', dict_find (gd_requests m') request_id = Some r' /\ dq_status r' = lit "completed" /\ dq_completion_epoch r' = Some epoch) /\
  (is_Some proof <-> exists nd, nd ∈ nodes /\ holds_entity entity_id nd) /\
  (forall p, proof = Some p -> get_proof m' entity_id = Some p /\
    dp_shard_count_destroyed p = sumZ (map (fun nd => Z.of_nat (length (shards_of entity_id nd))) nodes) /\
    dp_node_count_participating p = Z.of_nat (length (List.filter (fun nd => (0 <? length (shards_of entity_id nd))%nat) nodes))) /\
  (forall ihash net n, Network.nodes net = nodes' -> (exists p, usable net p) -> exists net', fetch_encrypted_shards ihash net entity_id n n = Ok (∅, net')) /\
  forall nodes2 epoch2 now2, execute_deletion m' logger' request_id nodes2 epoch2 now2 = (get_proof m' entity_id, m', nodes2, logger').
Proof.
  intros Hr Hst entity_id. unfold execute_deletion at 1. rewrite Hr, bool_decide_eq_false_2 by done. cbv zeta. fold entity_id.
  set (removed := map (fun nd => (node_id nd, shards_of entity_id nd)) nodes).
  set (hashes := concat (map (fun r => map chash_str r.2) removed)).
  assert (Forall2 (fun nd nd' => ~ holds_entity entity_id nd' /\ node_id nd' = node_id nd /\
    forall k, k.1 <> entity_id -> shards nd' !! k = shards nd !! k /\ shard_ttl nd' !! k = shard_ttl nd !! k) nodes (map (remove_entity entity_id) nodes)) as Hrem.
  { clear. induction nodes as [|nd nodes IH]; constructor; [apply remove_entity_spec|done]. }
  assert (match hashes with [] => ~ exists nd, nd ∈ nodes /\ holds_entity entity_id nd | _ => exists nd, nd ∈ nodes /\ holds_entity entity_id nd end) as Hh.
  { unfold hashes, removed. rewrite map_map. cbn [snd]. clear. induction nodes as [|nd nodes IH]; cbn [map concat].
    - intros (nd & Hin & _). by apply not_elem_of_nil in Hin.
    - pose proof (shards_of_spec entity_id nd) as Hs. destruct (shards_of entity_id nd) as [|d ds]; cbn [map app]; [|exists nd; split; [by left|done]].
      destruct (concat _) as [|h hs].
      + intros (x & [->|Hin]%elem_of_cons & Hx); [done|]. apply IH. by exists x.
      + destruct IH as (x & Hin & Hx). exists x. split; [by right|done]. }
  assert (Z.of_nat (length hashes) = sumZ (map (fun nd => Z.of_nat (length (shards_of entity_id nd))) nodes)) as Hcount.
  { unfold hashes, removed. rewrite map_map. cbn [snd]. clear. induction nodes as [|nd nodes IH]; [done|]. cbn [map concat]. rewrite length_app, length_map, sumZ_cons, <- IH. lia. }
  assert (length (List.filter (fun r => (0 <? length r.2)%nat) removed) = length (List.filter (fun nd => (0 <? length (shards_of entity_id nd))%nat) nodes)) as Hpart.
  { unfold removed. clear. induction nodes as [|nd nodes IH]; [done|]. cbn [map List.filter snd]. destruct (_ <? _)%nat; cbn [length]; by rewrite IH. }
  assert (forall ihash net n, Network.nodes net = map (remove_entity entity_id) nodes -> (exists p, usable net p) ->
    exists net', fetch_encrypted_shards ihash net entity_id n n = Ok (∅, net')) as Hfetch.
  { intros ihash net n En Hu. destruct (fetch_exact ihash net entity_id n Hu) as (fetched & net' & E & _ & Hs & _). exists net'. rewrite E. f_equal. f_equal.
    apply map_eq. intros i. rewrite lookup_empty. destruct (fetched !! i) as [d|] eqn:Ei; [|done]. destruct (Hs i d Ei) as (_ & p & Hp). destruct Hp as (nd & Hnd & _ & Hsh).
    rewrite En in Hnd. apply list_elem_of_lookup_2, elem_of_map in Hnd as (nd0 & -> & _). destruct (remove_entity_spec entity_id nd0) as [Hno _].
    destruct Hno. exists (entity_id, Z.of_nat i). by split. }
  destruct hashes as [|h hs] eqn:Eh.
  - split_and!; [done| | | |done|].
    + eexists. cbn [gd_requests]. rewrite dict_find_set, decide_True by done. split; [reflexivity|done].
    + split; [by intros [? ?]|]. intros Hx. by destruct Hh.
    + done.
    + intros nodes2 epoch2 now2. unfold execute_deletion. cbn [gd_requests]. rewrite dict_find_set, decide_True by done. cbn [dq_status dq_complete dq_entity_id].
      by rewrite bool_decide_eq_true_2.
  - split_and!; [done| | | |done|].
    + eexists. cbn [gd_requests]. rewrite dict_find_set, decide_True by done. split; [reflexivity|done].
    + split; [intros _; exact Hh|]. intros _. by eexists.
    + intros p [= <-]. unfold get_proof. cbn [gd_proofs]. rewrite dict_find_set, decide_True by done. cbn [dp_shard_count_destroyed dp_node_count_participating new_deletion_proof].
      split_and!; [done|exact Hcount|by rewrite Hpart].
    + intros nodes2 epoch2 now2. unfold execute_deletion. cbn [gd_requests]. rewrite dict_find_set, decide_True by done. cbn [dq_status dq_complete dq_entity_id].
      by rewrite bool_decide_eq_true_2.
Qed.
End ErasureTheorems.

(** ** The software HSM *)
Section HsmTheorems.
Context (pq : pq_backend) (profile : SecurityProfile).
Inductive hsm_op : Type := HGenerate (label : pystr) (kp : KeyPair) | HDestroy (key_id : pystr).
Definition hsm_step (h : SoftwareHSM) (o : hsm_op) : SoftwareHSM :=
  match o with HGenerate label kp => (hsm_generate_keypair h label kp).2 | HDestroy key_id => (hsm_destroy_key h key_id).2 end.
Definition hsm_run (h : SoftwareHSM) (ops : list hsm_op) : SoftwareHSM := fold_left hsm_step ops h.

(** Key ids are numbered below the counter. *)
Definition hsm_inv (prefix : pystr) (h : SoftwareHSM) : Prop :=
  hsm_key_label_prefix h = prefix /\ NoDup (hsm_keys h).*1 /\ forall k, k ∈ (hsm_keys h).*1 -> exists i, k = prefix ++ str_int i /\ i < hsm_next_id h.
Lemma hsm_step_inv prefix h o : hsm_inv prefix h -> hsm_inv prefix (hsm_step h o) /\ hsm_next_id h <= hsm_next_id (hsm_step h o).
Proof.
  intros (Hp & Hn & Hk). destruct o as [label kp|key_id]; cbn [hsm_step].
  - unfold hsm_generate_keypair, hsm_inv. cbn [snd hsm_key_label_prefix hsm_keys hsm_next_id]. split; [|lia]. split_and!; [done|by apply dict_set_NoDup|].
    intros k. rewrite dict_set_keys. destruct (decide _).
    + intros (i & -> & Hi)%Hk. exists i. split; [done|lia].
    + intros [(i & -> & Hi)%Hk| ->%list_elem_of_singleton]%elem_of_app; [exists i; split; [done|lia]|]. exists (hsm_next_id h). rewrite Hp. split; [done|lia].
  - unfold hsm_destroy_key. destruct (dict_find (hsm_keys h) key_id); cbn [snd]; [|split; [by split_and!|lia]]. split; [|cbn; lia].
    unfold hsm_inv. cbn [hsm_key_label_prefix hsm_keys hsm_next_id]. split_and!; [done|by apply dict_del_NoDup|]. intros k Hin%dict_del_keys. by apply Hk.
Qed.
Lemma hsm_run_inv prefix ops : forall h, hsm_inv prefix h -> hsm_inv prefix (hsm_run h ops) /\ hsm_next_id h <= hsm_next_id (hsm_run h ops).
Proof.
  induction ops as [|o ops IH]; intros h Hh; [split; [done|cbn; lia]|]. destruct (hsm_step_inv prefix h o Hh) as [H1 H2].
  destruct (IH _ H1) as [H3 H4]. split; [done|]. cbn. unfold hsm_run in H4. lia.
Qed.
(** A key is found until it is destroyed, and an id below the counter that
    is not found never is. *)
Lemma hsm_find_step prefix h o i : hsm_inv prefix h -> i < hsm_next_id h ->
  dict_find (hsm_keys (hsm_step h o)) (prefix ++ str_int i) = match o with
    | HDestroy k => if decide (k = prefix ++ str_int i) then None else dict_find (hsm_keys h) (prefix ++ str_int i)
    | _ => dict_find (hsm_keys h) (prefix ++ str_int i) end.
Proof.
  intros (Hp & Hn & Hk) Hi. destruct o as [label kp|key_id]; cbn [hsm_step].
  - unfold hsm_generate_keypair. cbn [snd hsm_keys]. rewrite dict_find_set, Hp, decide_False; [done|]. intros E%app_inv_head%str_int_inj. lia.
  - unfold hsm_destroy_key. destruct (dict_find (hsm_keys h) key_id) eqn:E; cbn [snd hsm_keys]; [by rewrite dict_find_del|].
    destruct (decide _) as [<-|]; done.
Qed.
Lemma hsm_find_run prefix ops i : forall h, hsm_inv prefix h -> i < hsm_next_id h ->
  dict_find (hsm_keys (hsm_run h ops)) (prefix ++ str_int i) =
    if existsb (fun o => match o with HDestroy k => bool_decide (k = prefix ++ str_int i) | _ => false end) ops then None
    else dict_find (hsm_keys h) (prefix ++ str_int i).
Proof.
  induction ops as [|o ops IH]; intros h Hh Hi; [done|]. change (hsm_run h (o :: ops)) with (hsm_run (hsm_step h o) ops).
  destruct (hsm_step_inv prefix h o Hh) as [H1 H2]. rewrite IH by (done || lia). rewrite (hsm_find_step prefix h o i Hh Hi). cbn [existsb].
  destruct (existsb _ ops); [by rewrite orb_true_r|]. rewrite orb_false_r. destruct o as [|k]; [done|]. by case_bool_decide; destruct (decide _).
Qed.

(** Keys live until they are destroyed, and no longer.  After any history, a
    generated key has an id of its own; whatever is generated and destroyed
    later, it signs with its own secret key and exports its own public keys as
    long as its id is not destroyed, and raises KeyError from then on: ids are
    never used again. *)
Theorem hsm_keys_exact prefix ops label kp ops' message :
  let h := hsm_run (new_hsm prefix) ops in
  let '(public_key, key_id, _, h1) := hsm_generate_keypair h label kp in
  let h2 := hsm_run h1 ops' in
  dict_find (hsm_keys h) key_id = None /\ public_key = kp_ek kp ++ kp_vk kp /\
  (HDestroy key_id ∉ ops' -> hsm_sign_message pq profile h2 key_id message = MLDSA_sign pq profile (kp_sk kp) message /\
    hsm_export_public_key h2 key_id = Ok public_key) /\
  (HDestroy key_id ∈ ops' -> hsm_sign_message pq profile h2 key_id message = Err KeyError /\
    hsm_decrypt pq profile h2 key_id message = Err KeyError /\ hsm_export_public_key h2 key_id = Err KeyError).
Proof.
  intros h. assert (hsm_inv prefix (new_hsm prefix)) as H0 by (split_and!; [done|apply NoDup_nil_2|by intros k ?%not_elem_of_nil]).
  destruct (hsm_run_inv prefix ops _ H0) as [Hh _]. fold h in Hh. unfold hsm_generate_keypair. set (h1 := {| hsm_key_label_prefix := _; hsm_keys := _ |}).
  pose proof Hh as (Hp & _ & Hk). rewrite Hp. assert (hsm_inv prefix h1 /\ hsm_next_id h1 = hsm_next_id h + 1) as [H1 Hn].
  { split; [exact (proj1 (hsm_step_inv prefix h (HGenerate label kp) Hh))|done]. }
  assert (forall b, existsb (fun o => match o with HDestroy k => bool_decide (k = prefix ++ str_int (hsm_next_id h)) | _ => false end) ops' = b ->
    (b = true <-> HDestroy (prefix ++ str_int (hsm_next_id h)) ∈ ops')) as Hex.
  { intros b <-. rewrite existsb_exists. setoid_rewrite <- list_elem_of_In. split.
    - intros ([|k] & Hin & Hb); [done|]. breflect. by rewrite Hb in Hin.
    - intros Hin. eexists. split; [exact Hin|]. by apply bool_decide_eq_true. }
  pose proof (hsm_find_run prefix ops' (hsm_next_id h) h1 H1 ltac:(lia)) as Hf.
  assert (dict_find (hsm_keys h1) (prefix ++ str_int (hsm_next_id h)) = Some
    {| hk_label := label; hk_public_key := kp_ek kp ++ kp_vk kp; hk_private_key := kp_dk kp ++ kp_sk kp; hk_ek := kp_ek kp; hk_dk := kp_dk kp; hk_vk := kp_vk kp; hk_sk := kp_sk kp |}) as Hd.
  { unfold h1. cbn [hsm_keys]. by rewrite Hp, dict_find_set, decide_True. }
  rewrite Hd in Hf. split_and!; [|done| |].
  - destruct (dict_find (hsm_keys h) _) eqn:E; [|done]. apply dict_find_Some in E. destruct (Hk (prefix ++ str_int (hsm_next_id h))) as (i & Ei & Hi).
    { apply list_elem_of_fmap. by eexists (_, _). } apply app_inv_head, str_int_inj in Ei. lia.
  - intros Hno. destruct (existsb _ ops') eqn:Eb; [by destruct Hno; apply (Hex true eq_refl)|]. unfold hsm_sign_message, hsm_export_public_key, hsm_key. by rewrite Hf.
  - intros Hin. apply (Hex _ eq_refl) in Hin. rewrite Hin in Hf. unfold hsm_sign_message, hsm_decrypt, hsm_export_public_key, hsm_key. by rewrite Hf.
Qed.
End HsmTheorems.

(** ** The FIPS provider and the configuration *)
(** The FIPS branch cuts nonces to 12 bytes and keys to 32, or fills them
    with zeros: nonces that differ later give one ciphertext, and a short key
    is the key filled up. *)
Theorem fips_nonce_truncated pq gcm (key pt prefix suffix suffix' : bytes) : length prefix = 12%nat ->
  provider_encrypt pq (Some gcm) MODE_FIPS key pt (prefix ++ suffix) = provider_encrypt pq (Some gcm) MODE_FIPS key pt (prefix ++ suffix') /\
  forall nonce short, (length short <= 32)%nat ->
    provider_encrypt pq (Some gcm) MODE_FIPS short pt nonce = provider_encrypt pq (Some gcm) MODE_FIPS (short ++ repeat 0 (32 - length short)) pt nonce.
Proof.
  intros Hp. unfold provider_encrypt, aes_gcm_encrypt. rewrite bool_decide_eq_true_2 by done. split.
  - do 2 f_equal. unfold fit. rewrite !length_app, Hp. cbn [Nat.leb Nat.add]. by rewrite !take_app_length' by done.
  - intros nonce short Hs. do 2 f_equal. unfold fit. rewrite length_app, repeat_length.
    destruct (Nat.leb_spec 32 (length short + (32 - length short))); [|lia]. destruct (Nat.leb_spec 32 (length short)).
    + replace (32 - length short)%nat with 0%nat by lia. by rewrite app_nil_r.
    + symmetry. apply take_ge. rewrite length_app, repeat_length. lia.
Qed.

(** A configuration is valid exactly when it has the controls its frameworks
    ask for. *)
Theorem compliant_exact c : (validate c).1 = true <->
  let asks f := f ∈ cc_frameworks c in
  (asks FEDRAMP_MODERATE \/ asks FEDRAMP_HIGH -> cc_crypto_mode c = MODE_FIPS /\ cc_enable_rbac c = true /\ cc_enable_audit_logging c = true /\
     (cc_enable_geo_fencing c = true -> forall g, cc_default_geo_policy c = Some g -> GLOBAL ∉ gf_allowed_jurisdictions g)) /\
  (asks FEDRAMP_HIGH -> cc_enable_key_rotation c = true /\ (exists p, cc_hsm_provider c = Some p /\ p <> lit "software" /\ p <> lit "memory") /\
     cc_siem_export_enabled c = true /\ (exists d, cc_siem_destination c = Some d /\ d <> []) /\ 26280 <= cc_audit_retention_epochs c) /\
  (asks SOC2_TYPE2 -> cc_enable_rbac c = true /\ cc_enable_audit_logging c = true /\ cc_enable_key_rotation c = true) /\
  (asks GDPR -> cc_enable_gdpr_deletion c = true /\ cc_enable_audit_logging c = true) /\
  (asks PCI_DSS -> cc_crypto_mode c = MODE_FIPS /\ cc_enable_key_rotation c = true) /\
  (asks HIPAA -> cc_enable_rbac c = true /\ cc_enable_audit_logging c = true) /\
  (asks BASEL_III -> cc_enable_rbac c = true /\ exists p, cc_hsm_provider c = Some p /\ p <> lit "software") /\
  (asks OCC_CUSTODY -> cc_enable_rbac c = true /\ cc_enable_audit_logging c = true).
Proof.
  assert ((validate c).1 = true <-> Forall (fun '(fs, present, _) => (exists f, f ∈ fs /\ f ∈ cc_frameworks c) -> present = true) (controls c)) as ->.
  { unfold validate. cbn [fst]. induction (controls c) as [|[[fs present] msg] cs IH]; cbn [map concat]; [by split; [constructor|]|].
    rewrite Forall_cons, <- IH. destruct (existsb _ fs && negb present) eqn:E; cbn [app].
    - split; [done|]. intros [Hp _]. breflect. apply existsb_exists in H as (f & Hf & Hb). breflect. rewrite Hp in H0; [done|]. exists f. by rewrite list_elem_of_In.
    - split; [|by intros [_ ?]]. intros Hc. split; [|done]. intros (f & Hf & Hin). destruct present; [done|]. rewrite andb_true_r in E.
      assert (existsb (fun f => bool_decide (f ∈ cc_frameworks c)) fs = true) as Ht; [|by rewrite Ht in E]. apply existsb_exists. exists f.
      rewrite list_elem_of_In in Hf. split; [done|]. by apply bool_decide_eq_true. }
  assert (forall f (Q : Prop), ((exists g, g ∈ [f] /\ g ∈ cc_frameworks c) -> Q) <-> (f ∈ cc_frameworks c -> Q)) as H1.
  { intros f Q. split; [intros HQ Hf; apply HQ; exists f; split; [by left|done]|]. intros HQ (g & ->%list_elem_of_singleton & Hg). auto. }
  assert (forall f f' (Q : Prop), ((exists g, g ∈ [f; f'] /\ g ∈ cc_frameworks c) -> Q) <-> (f ∈ cc_frameworks c \/ f' ∈ cc_frameworks c -> Q)) as H2.
  { intros f f' Q. split; [intros HQ [Hf|Hf]; apply HQ; [exists f|exists f']; (split; [|done]); [by left|right; by left]|].
    intros HQ (g & [->| ->%list_elem_of_singleton]%elem_of_cons & Hg); auto. }
  unfold controls. rewrite !Forall_cons, Forall_nil, !H1, !H2, !bool_decide_eq_true, andb_true_iff, Z.leb_le. clear H1 H2.
  assert (match cc_default_geo_policy c with Some g => negb (cc_enable_geo_fencing c && bool_decide (GLOBAL ∈ gf_allowed_jurisdictions g)) | None => true end = true <->
    (cc_enable_geo_fencing c = true -> forall g, cc_default_geo_policy c = Some g -> GLOBAL ∉ gf_allowed_jurisdictions g)) as ->.
  { destruct (cc_default_geo_policy c) as [g|]; [|by split]. rewrite negb_true_iff. destruct (cc_enable_geo_fencing c); cbn [andb]; [|by split].
    rewrite bool_decide_eq_false. split; [intros Hg _ g' [= <-]; done|]. intros Hg. by apply Hg. }
  assert (match cc_hsm_provider c with Some p => negb (bool_decide (p = lit "software" \/ p = lit "memory")) | None => false end = true <->
    exists p, cc_hsm_provider c = Some p /\ p <> lit "software" /\ p <> lit "memory") as ->.
  { destruct (cc_hsm_provider c) as [p|]; [|split; [done|by intros (? & ? & _)]]. rewrite negb_true_iff, bool_decide_eq_false. split.
    - intros Hn. exists p. split; [done|]. split; intros E; apply Hn; auto.
    - intros (q & [= <-] & Ha & Hb) [E|E]; auto. }
  assert (match cc_hsm_provider c with Some p => negb (bool_decide (p = lit "software")) | None => false end = true <->
    exists p, cc_hsm_provider c = Some p /\ p <> lit "software") as ->.
  { destruct (cc_hsm_provider c) as [p|]; [|split; [done|by intros (? & ? & _)]]. rewrite negb_true_iff, bool_decide_eq_false. split.
    - intros Hn. by exists p.
    - by intros (q & [= <-] & Ha). }
  assert (truthy_str (cc_siem_destination c) = true <-> exists d, cc_siem_destination c = Some d /\ d <> []) as ->.
  { destruct (cc_siem_destination c) as [[|x d]|]; cbn; split; try done; try (by intros (? & [= <-] & ?)); try (by intros (? & ? & _)). intros _. by eexists. }
  clear. intuition.
Qed.

(** * Witnesses *)
Lemma access_control_exact_witness :
  check_permission (create_policy [] None (lit "ann") [AUDITOR] 0 (Some 9) 0).1.2 (lit "ann") SHARD_FETCH 9 = true /\
  check_permission (create_policy [] None (lit "ann") [AUDITOR] 0 (Some 9) 0).1.2 (lit "ann") SHARD_FETCH 10 = false.
Proof.
  destruct (access_control_exact [] None (lit "ann") [AUDITOR] 0 (Some 9) 0) as (Hc & _); [constructor|]. split.
  - apply Hc. split; [|by intros e [= <-]]. exists AUDITOR. split; [by left|]. cbn. do 3 right. by left.
  - destruct (check_permission _ _ _ 10) eqn:E; [|done]. apply Hc in E as [_ E]. specialize (E 9 eq_refl). lia.
Defined.

Definition us_only : GeoFencePolicy :=
  {| gf_allowed_jurisdictions := [US; EU]; gf_excluded_jurisdictions := [EU]; gf_min_jurisdictions := 1; gf_require_cross_jurisdiction := false |}.
Definition fenced_net : CommitmentNetwork :=
  {| nodes := [new_node (lit "a") (lit "US-east"); new_node (lit "b") (lit "eu-west"); new_node (lit "c") (lit "us-west")];
     placement_cache := ∅; node_count_at_cache := 0; node_shard_index := ∅; geo_fence := Some (is_region_allowed us_only) |}.
Lemma geo_fence_sound_witness : exists sel net', placement quick_digest fenced_net (lit "e") 1 2 = Ok (sel, net') /\ sel <> [] /\
  validate_placement us_only (map (node_at fenced_net) sel) = (true, []).
Proof.
  destruct (geo_fence_sound quick_digest fenced_net us_only (lit "e") 1 2) as (sel & net' & E & Hn & _ & Hv & _).
  - reflexivity.
  - left. done.
  - exists 0%nat. split; [cbn; lia|]. split; reflexivity.
  - lia.
  - exists sel, net'. split; [exact E|]. split; [exact Hn|]. by apply Hv.
Defined.

Lemma version_numbers_repeat_witness :
  map kv_version (versions_of (register_all default_rotation (lit "id") (map (fun i => (lit "k", i)) [1; 2; 3; 4; 5; 6; 7; 8; 9; 10])) (lit "id")) = [6; 6; 6; 6; 6].
Proof.
  destruct (version_numbers_repeat default_rotation (lit "id") (map (fun i => (lit "k", i)) [1; 2; 3; 4; 5; 6; 7; 8; 9; 10])) as [E _]; [done|]. rewrite E. reflexivity.
Defined.

Definition erasure_nodes : list CommitmentNode :=
  [(store_shard (new_node (lit "a") (lit "eu")) (lit "x") 0 [1]).2; (store_shard (store_shard (new_node (lit "b") (lit "eu")) (lit "x") 1 [2]).2 (lit "y") 0 [3]).2].
Definition erasure_manager : GDPRDeletionManager := (submit_request new_deletion_manager None (lit "x") (lit "ann") 3 (lit "gdpr_art17") 0).1.2.
Definition erasure_id : pystr := chash_str (lit "x" ++ lit ":" ++ lit "ann" ++ lit ":" ++ str_int 3).
Lemma erasure_complete_witness :
  let '(proof, m', nodes', _) := execute_deletion erasure_manager None erasure_id erasure_nodes 4 0 in
  is_Some proof /\ Forall (fun nd => ~ holds_entity (lit "x") nd) nodes'.
Proof.
  destruct (dict_find (gd_requests erasure_manager) erasure_id) as [r|] eqn:Er; [|exfalso; vm_compute in Er; discriminate].
  assert (dq_entity_id r = lit "x" /\ dq_status r <> lit "completed") as [Hx Hs] by (vm_compute in Er; injection Er as <-; by split).
  pose proof (erasure_complete erasure_manager None erasure_id r erasure_nodes 4 0 Er Hs) as Ht.
  destruct (execute_deletion erasure_manager None erasure_id erasure_nodes 4 0) as [[[proof m'] nodes'] logger']. rewrite Hx in Ht. destruct Ht as (Hn & _ & Hp & _). split.
  - apply Hp. eexists. split; [by left|]. exists (lit "x", 0). split; [done|]. by eexists.
  - clear -Hn. induction Hn as [|nd nd' l l' [H _] Hl IH]; by constructor.
Defined.

Lemma fips_nonce_truncated_witness : exists gcm,
  provider_encrypt toy_pq (Some gcm) MODE_FIPS [1] [2] (repeat 0 12 ++ [7]) = provider_encrypt toy_pq (Some gcm) MODE_FIPS [1] [2] (repeat 0 12 ++ [8]).
Proof.
  exists {| gcm_encrypt := fun k n p => k ++ n ++ p; gcm_decrypt := fun k n c => Ok (drop 44 c) |}.
  apply (fips_nonce_truncated toy_pq _ [1] [2] (repeat 0 12) [7] [8]). done.
Defined.
