(* ===== verification/Federation.v ===== *)
(** Federation between networks, src/src/ltp/federation.py: the registry with
    its trust levels, network identity records, mutual agreements, the
    in-memory transport, the cross-network fetcher, the rate limiter and
    static discovery.  Discovery over DNS and HTTP is I/O. *)

From S2P Require Import Prelude Float64 Hashing Primitives Encoding Commitment Network.

(** * Identity records *)
Record NetworkIdentityRecord : Type := {
  nir_network_id : pystr;
  nir_operator_vk : bytes;
  nir_genesis_sth_root : bytes;
  nir_genesis_sth_sequence : Z;
  nir_display_name : pystr;
  nir_discovery_endpoint : pystr;
  nir_created_at : float64;
  nir_signature : bytes
}.

Section Signed.
Context `{CanonicalHash} (pq : pq_backend) (profile : SecurityProfile).

Definition nir_canonical_bytes (n : NetworkIdentityRecord) : result bytes :=
  s ← struct_pack 8 (nir_genesis_sth_sequence n);
  t ← struct_pack 8 (nir_created_at n);
  Ok (Domain.DOMAIN_NIR ++ nir_network_id n ++ nir_operator_vk n ++ nir_genesis_sth_root n ++ s ++
      nir_display_name n ++ nir_discovery_endpoint n ++ t).
Definition nir_verify (n : NetworkIdentityRecord) : result bool :=
  b ← nir_canonical_bytes n; MLDSA_verify pq profile (nir_operator_vk n) b (nir_signature n).
Definition with_nir_signature (n : NetworkIdentityRecord) (sig : bytes) : NetworkIdentityRecord :=
  {| nir_network_id := nir_network_id n; nir_operator_vk := nir_operator_vk n; nir_genesis_sth_root := nir_genesis_sth_root n;
     nir_genesis_sth_sequence := nir_genesis_sth_sequence n; nir_display_name := nir_display_name n;
     nir_discovery_endpoint := nir_discovery_endpoint n; nir_created_at := nir_created_at n; nir_signature := sig |}.
Definition nir_create (keypair : KeyPair) (genesis_sth_root : bytes) (genesis_sth_sequence : Z) (display_name discovery_endpoint : pystr)
    (now : float64) : result NetworkIdentityRecord :=
  if negb (length genesis_sth_root =? 32)%nat then Err (ValueError "genesis_sth_root must be 32 bytes")
  else
    let unsigned := {| nir_network_id := hex (chash (Domain.DOMAIN_NIR ++ genesis_sth_root ++ kp_vk keypair)); nir_operator_vk := kp_vk keypair;
                       nir_genesis_sth_root := genesis_sth_root; nir_genesis_sth_sequence := genesis_sth_sequence;
                       nir_display_name := display_name; nir_discovery_endpoint := discovery_endpoint; nir_created_at := now; nir_signature := [] |} in
    b ← nir_canonical_bytes unsigned;
    sig ← KeyPair_sign pq profile keypair b;
    Ok (with_nir_signature unsigned sig).

(** * Agreements *)
Record FederationAgreement : Type := {
  fa_initiator_network_id : pystr;
  fa_responder_network_id : pystr;
  fa_initiator_vk : bytes;
  fa_responder_vk : bytes;
  fa_initiator_signature : bytes;
  fa_responder_signature : bytes;
  fa_created_at : float64;
  fa_terms : pystr
}.
Definition agreement_bytes (a : FederationAgreement) : result bytes :=
  t ← struct_pack 8 (fa_created_at a);
  Ok (Domain.DOMAIN_FED_AGREEMENT ++ fa_initiator_network_id a ++ fa_responder_network_id a ++ fa_initiator_vk a ++ fa_responder_vk a ++ t ++ fa_terms a).
Definition verify_initiator (a : FederationAgreement) : result bool :=
  match fa_initiator_signature a with [] => Ok false | sig => b ← agreement_bytes a; MLDSA_verify pq profile (fa_initiator_vk a) b sig end.
Definition verify_responder (a : FederationAgreement) : result bool :=
  match fa_responder_signature a with [] => Ok false | sig => b ← agreement_bytes a; MLDSA_verify pq profile (fa_responder_vk a) b sig end.
Definition verify_both (a : FederationAgreement) : result bool :=
  i ← verify_initiator a; if i : bool then verify_responder a else Ok false.
Definition with_signatures (a : FederationAgreement) (i r : bytes) : FederationAgreement :=
  {| fa_initiator_network_id := fa_initiator_network_id a; fa_responder_network_id := fa_responder_network_id a; fa_initiator_vk := fa_initiator_vk a;
     fa_responder_vk := fa_responder_vk a; fa_initiator_signature := i; fa_responder_signature := r; fa_created_at := fa_created_at a; fa_terms := fa_terms a |}.
Definition initiate (initiator_keypair : KeyPair) (initiator_nir responder_nir : NetworkIdentityRecord) (terms : pystr) (now : float64)
    : result FederationAgreement :=
  if negb (bool_decide (kp_vk initiator_keypair = nir_operator_vk initiator_nir)) then Err (ValueError "Initiator keypair does not match initiator NIR operator_vk")
  else if bool_decide (nir_network_id initiator_nir = nir_network_id responder_nir) then Err (ValueError "Cannot federate a network with itself")
  else
    let a := {| fa_initiator_network_id := nir_network_id initiator_nir; fa_responder_network_id := nir_network_id responder_nir;
                fa_initiator_vk := kp_vk initiator_keypair; fa_responder_vk := nir_operator_vk responder_nir; fa_initiator_signature := [];
                fa_responder_signature := []; fa_created_at := now; fa_terms := terms |} in
    payload ← agreement_bytes a;
    sig ← KeyPair_sign pq profile initiator_keypair payload;
    Ok (with_signatures a sig []).
Definition countersign (a : FederationAgreement) (responder_keypair : KeyPair) : result FederationAgreement :=
  if negb (bool_decide (kp_vk responder_keypair = fa_responder_vk a)) then Err (ValueError "Responder keypair does not match agreement responder_vk")
  else b ← agreement_bytes a; sig ← KeyPair_sign pq profile responder_keypair b; Ok (with_signatures a (fa_initiator_signature a) sig).

(** * Credentials *)
Record FederationAuth : Type := { au_requester_nir : NetworkIdentityRecord; au_agreement : FederationAgreement }.
Definition auth_verify (au : FederationAuth) : result bool :=
  n ← nir_verify (au_requester_nir au); if n : bool then verify_both (au_agreement au) else Ok false.
Definition covers_network (au : FederationAuth) (network_id : pystr) : bool :=
  bool_decide (fa_initiator_network_id (au_agreement au) = network_id) || bool_decide (fa_responder_network_id (au_agreement au) = network_id).
Definition verify_for_network (au : FederationAuth) (network_id : pystr) : result bool :=
  v ← auth_verify au; Ok (v && covers_network au network_id).
End Signed.

(** * The registry *)
Inductive TrustLevel : Type := UNTRUSTED | VERIFIED | FEDERATED.
#[export] Instance TrustLevel_eq_dec : EqDecision TrustLevel.
Proof. solve_decision. Defined.
(** Positions in [current_order]; [trust_order] is the reverse. *)
Definition trust_index (t : TrustLevel) : Z := match t with UNTRUSTED => 0 | VERIFIED => 1 | FEDERATED => 2 end.
Definition trust_order (t : TrustLevel) : Z := 2 - trust_index t.

(** A value of the tree head a remote network sent; a bool is an int. *)
Inductive pyvalue : Type := VInt (z : Z) | VFloat (w : float64) | VStr (s : pystr) | VBytes (b : bytes) | VOther.
Record RemoteSTH : Type := {
  rs_sequence : option pyvalue;
  rs_root_hash : option pyvalue;
  rs_timestamp : option pyvalue;
  rs_record_count : option pyvalue;
  rs_signature : option bytes;
  rs_signable_payload : option bytes
}.
(** The fields that passed the type checks. *)
Definition sth_number (v : option pyvalue) : option (Z + float64) :=
  match v with Some (VInt z) => Some (inl z) | Some (VFloat w) => Some (inr w) | _ => None end.
Definition sth_int (v : option pyvalue) : option Z := match v with Some (VInt z) => Some z | _ => None end.
Definition sth_text (v : option pyvalue) : option bytes := match v with Some (VStr s) => Some s | Some (VBytes b) => Some b | _ => None end.
Definition typed_sth (s : RemoteSTH) : option (Z * (Z + float64) * bytes * Z) :=
  q ← sth_int (rs_sequence s); t ← sth_number (rs_timestamp s); r ← sth_text (rs_root_hash s); c ← sth_int (rs_record_count s); Some (q, t, r, c).
(** [a < b] between Python numbers. *)
Definition f64_lt_int (w : float64) (z : Z) : bool :=
  match f64_of_bits w with
  | SpecFloat.S754_nan => false
  | SpecFloat.S754_infinity s => s
  | f => match sf_fraction f with Some (n, d) => n <? z * d | None => false end
  end.
Definition num_lt (a b : Z + float64) : bool :=
  match a, b with
  | inl x, inl y => x <? y
  | inr x, inr y => f64_lt x y
  | inl x, inr y => f64_gt_int y x
  | inr x, inl y => f64_lt_int x y
  end.

Record FederatedNetwork : Type := {
  fn_network_id : pystr;
  fn_display_name : pystr;
  fn_discovery_endpoint : pystr;
  fn_public_key : bytes;
  fn_trust_level : TrustLevel;
  fn_last_sth : option (Z * (Z + float64));       (* sequence and timestamp of [last_sth] *)
  fn_last_sth_verified_epoch : Z;
  fn_registered_at : float64;
  fn_entity_count : Z
}.
Definition is_trusted (n : FederatedNetwork) : bool := match fn_trust_level n with UNTRUSTED => false | _ => true end.
Definition is_federated (n : FederatedNetwork) : bool := bool_decide (fn_trust_level n = FEDERATED).
Definition with_trust (n : FederatedNetwork) (t : TrustLevel) : FederatedNetwork :=
  {| fn_network_id := fn_network_id n; fn_display_name := fn_display_name n; fn_discovery_endpoint := fn_discovery_endpoint n;
     fn_public_key := fn_public_key n; fn_trust_level := t; fn_last_sth := fn_last_sth n; fn_last_sth_verified_epoch := fn_last_sth_verified_epoch n;
     fn_registered_at := fn_registered_at n; fn_entity_count := fn_entity_count n |}.

Record FederationRegistry : Type := {
  fr_min_trust : TrustLevel;                      (* config.min_trust_for_resolution *)
  fr_networks : list (pystr * FederatedNetwork);
  fr_local_network_id : option pystr;
  fr_local_entities : list pystr;
  fr_resolution_cache : list (pystr * pystr)
}.
Definition new_registry (min_trust : TrustLevel) : FederationRegistry :=
  {| fr_min_trust := min_trust; fr_networks := []; fr_local_network_id := None; fr_local_entities := []; fr_resolution_cache := [] |}.
Definition with_networks (r : FederationRegistry) (ns : list (pystr * FederatedNetwork)) : FederationRegistry :=
  {| fr_min_trust := fr_min_trust r; fr_networks := ns; fr_local_network_id := fr_local_network_id r; fr_local_entities := fr_local_entities r;
     fr_resolution_cache := fr_resolution_cache r |}.
Definition with_cache (r : FederationRegistry) (c : list (pystr * pystr)) : FederationRegistry :=
  {| fr_min_trust := fr_min_trust r; fr_networks := fr_networks r; fr_local_network_id := fr_local_network_id r; fr_local_entities := fr_local_entities r;
     fr_resolution_cache := c |}.
Definition update_network (r : FederationRegistry) (network_id : pystr) (n : FederatedNetwork) : FederationRegistry :=
  with_networks r (dict_set (fr_networks r) network_id n).

Definition set_local_network_id (r : FederationRegistry) (network_id : pystr) : FederationRegistry :=
  {| fr_min_trust := fr_min_trust r; fr_networks := fr_networks r; fr_local_network_id := Some network_id; fr_local_entities := fr_local_entities r;
     fr_resolution_cache := fr_resolution_cache r |}.
Definition register_local_entity (r : FederationRegistry) (entity_id : pystr) : FederationRegistry :=
  {| fr_min_trust := fr_min_trust r; fr_networks := fr_networks r; fr_local_network_id := fr_local_network_id r;
     fr_local_entities := if bool_decide (entity_id ∈ fr_local_entities r) then fr_local_entities r else fr_local_entities r ++ [entity_id];
     fr_resolution_cache := fr_resolution_cache r |}.
Definition register_network (r : FederationRegistry) (network_id display_name discovery_endpoint : pystr) (public_key : bytes) (now : float64)
    : result (FederatedNetwork * FederationRegistry) :=
  match dict_find (fr_networks r) network_id with
  | Some _ => Err (ValueError "already registered")
  | None =>
      if bool_decide (fr_local_network_id r = Some network_id) then Err (ValueError "Cannot register self as federated network")
      else
        let n := {| fn_network_id := network_id; fn_display_name := display_name; fn_discovery_endpoint := discovery_endpoint; fn_public_key := public_key;
                    fn_trust_level := UNTRUSTED; fn_last_sth := None; fn_last_sth_verified_epoch := -1; fn_registered_at := now; fn_entity_count := 0 |} in
        Ok (n, update_network r network_id n)
  end.
Definition unregister_network (r : FederationRegistry) (network_id : pystr) : bool * FederationRegistry :=
  match dict_find (fr_networks r) network_id with
  | None => (false, r)
  | Some _ => (true, with_cache (with_networks r (dict_del (fr_networks r) network_id))
                       (List.filter (fun kv => negb (bool_decide (kv.2 = network_id))) (fr_resolution_cache r)))
  end.
Definition upgrade_trust (r : FederationRegistry) (network_id : pystr) (new_level : TrustLevel) : bool * FederationRegistry :=
  match dict_find (fr_networks r) network_id with
  | None => (false, r)
  | Some n => if trust_index new_level <=? trust_index (fn_trust_level n) then (false, r) else (true, update_network r network_id (with_trust n new_level))
  end.
Definition revoke_trust (r : FederationRegistry) (network_id : pystr) : bool * FederationRegistry :=
  match dict_find (fr_networks r) network_id with
  | None => (false, r)
  | Some n => (true, update_network r network_id (with_trust n UNTRUSTED))
  end.

Section Registry.
Context `{CanonicalHash} (pq : pq_backend) (profile : SecurityProfile).

(** The network after a verified tree head. *)
Definition accept_sth (n : FederatedNetwork) (sequence : Z) (timestamp : Z + float64) (record_count current_epoch : Z) : FederatedNetwork :=
  {| fn_network_id := fn_network_id n; fn_display_name := fn_display_name n; fn_discovery_endpoint := fn_discovery_endpoint n;
     fn_public_key := fn_public_key n; fn_trust_level := match fn_trust_level n with UNTRUSTED => VERIFIED | t => t end;
     fn_last_sth := Some (sequence, timestamp); fn_last_sth_verified_epoch := current_epoch; fn_registered_at := fn_registered_at n;
     fn_entity_count := record_count |}.
(** The monotonicity check against the last tree head. *)
Definition sth_regresses (last : option (Z * (Z + float64))) (sequence : Z) (timestamp : Z + float64) : bool :=
  match last with Some (q, t) => (sequence <=? q) || num_lt timestamp t | None => false end.
(** The signature check: a missing signature is an error only for a key of
    the size of ML-DSA keys. *)
Definition sth_signature_ok (public_key : bytes) (s : RemoteSTH) : result bool :=
  match rs_signature s, rs_signable_payload s with
  | Some signature, Some payload => MLDSA_verify pq profile public_key payload signature
  | _, _ => Ok (negb (len public_key =? dsa_vk_size profile))
  end.
Definition verify_sth (r : FederationRegistry) (network_id : pystr) (s : RemoteSTH) (current_epoch : Z) : result (bool * FederationRegistry) :=
  match dict_find (fr_networks r) network_id with
  | None => Ok (false, r)
  | Some n =>
      match typed_sth s with
      | None => Ok (false, r)
      | Some (sequence, timestamp, _, record_count) =>
          if sth_regresses (fn_last_sth n) sequence timestamp then Ok (false, r)
          else
            ok ← sth_signature_ok (fn_public_key n) s;
            if ok : bool then Ok (true, update_network r network_id (accept_sth n sequence timestamp record_count current_epoch)) else Ok (false, r)
      end
  end.

Definition federate_with_agreement (r : FederationRegistry) (a : FederationAgreement) : result (bool * FederationRegistry) :=
  v ← verify_both pq profile a;
  if negb v then Err (ValueError "Federation agreement signature verification failed")
  else
    remote_id ← (if bool_decide (fr_local_network_id r = Some (fa_initiator_network_id a)) then Ok (fa_responder_network_id a)
                 else if bool_decide (fr_local_network_id r = Some (fa_responder_network_id a)) then Ok (fa_initiator_network_id a)
                 else Err (ValueError "Local network is not a party to this agreement"));
    match dict_find (fr_networks r) remote_id with
    | None => Err (ValueError "Network is not registered")
    | Some n =>
        match fn_trust_level n with
        | UNTRUSTED => Err (ValueError "Network must be at least VERIFIED before federation")
        | FEDERATED => Ok (true, r)
        | VERIFIED => Ok (true, update_network r remote_id (with_trust n FEDERATED))
        end
    end.
Definition register_from_nir (r : FederationRegistry) (nir : NetworkIdentityRecord) (now : float64) : result (FederatedNetwork * FederationRegistry) :=
  v ← nir_verify pq profile nir;
  if negb v then Err (ValueError "NIR signature verification failed")
  else register_network r (nir_network_id nir) (nir_display_name nir) (nir_discovery_endpoint nir) (nir_operator_vk nir) now.
End Registry.

(** * Resolution *)
(** A transport: queries and shard fetches of a remote endpoint.  The answer
    of a query is whether the entity was found, [None] when it is refused. *)
Record FederationTransport : Type := {
  tr_query_entity : pystr -> pystr -> FederationAuth -> result (option bool);
  tr_fetch_shards : pystr -> pystr -> list Z -> FederationAuth -> result (list (Z * bytes))
}.
Record EntityResolution : Type := {
  er_entity_id : pystr;
  er_found : bool;
  er_home_network_id : option pystr;
  er_home_network_name : option pystr;
  er_shard_endpoints : list pystr;
  er_resolution_hops : Z;
  er_trust_level : option TrustLevel
}.
Definition is_cross_network (e : EntityResolution) : bool := er_found e && bool_decide (is_Some (er_home_network_id e)).
Definition resolved (entity_id : pystr) (n : FederatedNetwork) (hops : Z) : EntityResolution :=
  {| er_entity_id := entity_id; er_found := true; er_home_network_id := Some (fn_network_id n); er_home_network_name := Some (fn_display_name n);
     er_shard_endpoints := [fn_discovery_endpoint n]; er_resolution_hops := hops; er_trust_level := Some (fn_trust_level n) |}.

(** The loop over the networks in the order of trust. *)
Fixpoint query_networks (r : FederationRegistry) (entity_id : pystr) (remote : option (FederationTransport * FederationAuth))
    (ns : list FederatedNetwork) : result (option FederatedNetwork) :=
  match ns with
  | [] => Ok None
  | n :: ns =>
      if trust_order (fr_min_trust r) <? trust_order (fn_trust_level n) then query_networks r entity_id remote ns
      else
        match remote with
        | None => query_networks r entity_id remote ns
        | Some (tr, au) =>
            res ← tr_query_entity tr (fn_discovery_endpoint n) entity_id au;
            match res with Some true => Ok (Some n) | _ => query_networks r entity_id remote ns end
        end
  end.
Definition resolve_entity (r : FederationRegistry) (entity_id : pystr) (remote : option (FederationTransport * FederationAuth))
    : result (EntityResolution * FederationRegistry) :=
  if bool_decide (entity_id ∈ fr_local_entities r) then
    Ok ({| er_entity_id := entity_id; er_found := true; er_home_network_id := fr_local_network_id r; er_home_network_name := Some (lit "local");
           er_shard_endpoints := []; er_resolution_hops := 0; er_trust_level := Some FEDERATED |}, r)
  else
    match match dict_find (fr_resolution_cache r) entity_id with Some ((_ :: _) as c) => dict_find (fr_networks r) c | _ => None end with
    | Some n => Ok (resolved entity_id n 0, r)
    | None =>
        found ← query_networks r entity_id remote
                  (sort_by (fun a b => trust_order (fn_trust_level a) <=? trust_order (fn_trust_level b)) (map snd (fr_networks r)));
        Ok (match found with
            | Some n => (resolved entity_id n 1, with_cache r (dict_set (fr_resolution_cache r) entity_id (fn_network_id n)))
            | None => ({| er_entity_id := entity_id; er_found := false; er_home_network_id := None; er_home_network_name := None;
                          er_shard_endpoints := []; er_resolution_hops := 0; er_trust_level := None |}, r)
            end)
    end.
Definition register_resolution (r : FederationRegistry) (entity_id network_id : pystr) : bool * FederationRegistry :=
  match dict_find (fr_networks r) network_id with
  | None => (false, r)
  | Some _ => (true, with_cache r (dict_set (fr_resolution_cache r) entity_id network_id))
  end.
Definition federated_networks (r : FederationRegistry) : list FederatedNetwork := List.filter is_federated (map snd (fr_networks r)).
Definition verified_networks (r : FederationRegistry) : list FederatedNetwork := List.filter is_trusted (map snd (fr_networks r)).

(** * The in-memory transport *)
(** An endpoint: its commitment network and log, and the network id, which
    may be empty. *)
Record Endpoint : Type := { ep_network : CommitmentNetwork; ep_log : CommitmentLog.clog; ep_network_id : pystr }.
Section Transport.
Context `{CanonicalHash} (pq : pq_backend) (profile : SecurityProfile).

(** The check both requests start with. *)
Definition auth_accepted (target : pystr) (au : FederationAuth) : result bool :=
  match target with
  | [] => auth_verify pq profile au
  | _ => v ← verify_for_network pq profile au target; if v : bool then auth_verify pq profile au else Ok false
  end.
(** The first node that is not evicted and holds the shard. *)
Fixpoint find_shard (nds : list CommitmentNode) (entity_id : pystr) (idx : Z) : option bytes :=
  match nds with
  | [] => None
  | nd :: nds => if evicted nd then find_shard nds entity_id idx
                 else match fetch_shard nd entity_id idx with Some d => Some d | None => find_shard nds entity_id idx end
  end.
Definition collect_shards (ep : Endpoint) (entity_id : pystr) (shard_indices : list Z) : list (Z * bytes) :=
  fold_left (fun res idx => match find_shard (nodes (ep_network ep)) entity_id idx with Some d => dict_set res idx d | None => res end) shard_indices [].
Definition memory_fetch (eps : list (pystr * Endpoint)) (endpoint entity_id : pystr) (shard_indices : list Z) (au : FederationAuth) : result (list (Z * bytes)) :=
  ok ← auth_accepted (match dict_find eps endpoint with Some e => ep_network_id e | None => [] end) au;
  if negb ok then Ok []
  else Ok (match dict_find eps endpoint with Some ep => collect_shards ep entity_id shard_indices | None => [] end).
Definition memory_query (eps : list (pystr * Endpoint)) (endpoint entity_id : pystr) (au : FederationAuth) : result (option bool) :=
  ok ← auth_accepted (match dict_find eps endpoint with Some e => ep_network_id e | None => [] end) au;
  if negb ok then Ok None
  else Ok (match dict_find eps endpoint with
           | Some ep => match CommitmentLog.fetch (ep_log ep) entity_id with Some _ => Some true | None => None end
           | None => None
           end).
Definition InMemoryFederationTransport (eps : list (pystr * Endpoint)) : FederationTransport :=
  {| tr_query_entity := memory_query eps; tr_fetch_shards := memory_fetch eps |}.
End Transport.

(** * The rate limiter *)
Record FederationRateLimiter : Type := {
  rl_max_requests : Z;
  rl_window : float64;
  rl_counters : list (pystr * (float64 * Z))
}.
Definition new_limiter (max_requests_per_window : Z) (window_seconds : float64) : result FederationRateLimiter :=
  if f64_le window_seconds 0 then Err (ValueError "window_seconds must be > 0")
  else if max_requests_per_window <? 0 then Err (ValueError "max_requests_per_window must be >= 0")
  else Ok {| rl_max_requests := max_requests_per_window; rl_window := window_seconds; rl_counters := [] |}.
(** The window and the count a request at [now] sees. *)
Definition current_window (l : FederationRateLimiter) (network_id : pystr) (now : float64) : float64 * Z :=
  let '(window_start, count) := default (now, 0) (dict_find (rl_counters l) network_id) in
  if f64_ge (f64_sub now window_start) (rl_window l) then (now, 0) else (window_start, count).
Definition allow (l : FederationRateLimiter) (network_id : pystr) (now : float64) : bool * FederationRateLimiter :=
  let '(window_start, count) := current_window l network_id now in
  if rl_max_requests l <=? count then (false, l)
  else (true, {| rl_max_requests := rl_max_requests l; rl_window := rl_window l;
                 rl_counters := dict_set (rl_counters l) network_id (window_start, count + 1) |}).
Definition rl_remaining (l : FederationRateLimiter) (network_id : pystr) (now : float64) : Z :=
  let '(window_start, count) := default (now, 0) (dict_find (rl_counters l) network_id) in
  if f64_ge (f64_sub now window_start) (rl_window l) then rl_max_requests l else Z.max 0 (rl_max_requests l - count).
Definition rl_reset (l : FederationRateLimiter) (network_id : pystr) : FederationRateLimiter :=
  {| rl_max_requests := rl_max_requests l; rl_window := rl_window l; rl_counters := dict_del (rl_counters l) network_id |}.

(** * The fetcher *)
Record CrossNetworkFetcher : Type := {
  cf_registry : FederationRegistry;
  cf_transport : FederationTransport;
  cf_local_nir : NetworkIdentityRecord;
  cf_agreements : list (pystr * FederationAgreement);
  cf_rate_limiter : option FederationRateLimiter
}.
Definition get_auth_for_network (f : CrossNetworkFetcher) (network_id : pystr) : option FederationAuth :=
  (fun a => {| au_requester_nir := cf_local_nir f; au_agreement := a |}) <$> dict_find (cf_agreements f) network_id.
Definition get_any_auth (f : CrossNetworkFetcher) : option FederationAuth :=
  match cf_agreements f with [] => None | (_, a) :: _ => Some {| au_requester_nir := cf_local_nir f; au_agreement := a |} end.
Definition with_state (f : CrossNetworkFetcher) (r : FederationRegistry) (l : option FederationRateLimiter) : CrossNetworkFetcher :=
  {| cf_registry := r; cf_transport := cf_transport f; cf_local_nir := cf_local_nir f; cf_agreements := cf_agreements f; cf_rate_limiter := l |}.

Definition fetch_entity_shards (f : CrossNetworkFetcher) (entity_id : pystr) (shard_indices : list Z) (now : float64)
    : result (option (list (Z * bytes)) * CrossNetworkFetcher) :=
  match get_any_auth f with
  | None => Ok (None, f)
  | Some resolution_auth =>
      '(resolution, registry) ← resolve_entity (cf_registry f) entity_id (Some (cf_transport f, resolution_auth));
      let f := with_state f registry (cf_rate_limiter f) in
      match (if er_found resolution then er_home_network_id resolution else None) with
      | None => Ok (None, f)
      | Some home =>
          if bool_decide (fr_local_network_id registry = Some home) then Ok (None, f)
          else
            let '(allowed, limiter) := match cf_rate_limiter f with Some l => let '(b, l') := allow l home now in (b, Some l') | None => (true, None) end in
            let f := with_state f registry limiter in
            if negb allowed then Ok (None, f)
            else
              match get_auth_for_network f home, er_shard_endpoints resolution with
              | Some au, endpoint :: _ =>
                  shards ← tr_fetch_shards (cf_transport f) endpoint entity_id shard_indices au;
                  Ok (match shards with [] => None | _ => Some shards end, f)
              | _, _ => Ok (None, f)
              end
      end
  end.

(** * Static discovery *)
Definition StaticDiscoveryService : Type := list (pystr * NetworkIdentityRecord).
(** [q in s] *)
Fixpoint contains (q s : pystr) : bool :=
  bool_decide (q = take (length q) s) || match s with [] => false | _ :: s => contains q s end.
Definition publish_nir (d : StaticDiscoveryService) (n : NetworkIdentityRecord) : bool * StaticDiscoveryService :=
  (true, dict_set d (nir_network_id n) n).
Definition discover (d : StaticDiscoveryService) (query : pystr) : list NetworkIdentityRecord :=
  match query with
  | [] => map snd d
  | _ => List.filter (fun n => contains query (nir_display_name n) || contains query (nir_network_id n)) (map snd d)
  end.
Definition resolve_nir (d : StaticDiscoveryService) (network_id : pystr) : option NetworkIdentityRecord := dict_find d network_id.

(** * Theorems *)
Section NirTheorems.
Context `{CanonicalHash} (pq : pq_backend) (profile : SecurityProfile).

Lemma pack_u64 v : 0 <= v < 2 ^ 64 -> struct_pack 8 v = Ok (be_encode 8 v).
Proof. intros Hv. apply struct_pack_Ok. split; [|done]. change (256 ^ Z.of_nat 8) with (2 ^ 64). lia. Qed.

(** Identity records.  A record made by [create] verifies, and its network id
    binds genesis root and operator key: two records with one id have the same
    ones. *)
Theorem nir_identity kp root q name ep now : signs_for pq profile (FromKeyPair kp) (kp_vk kp) -> length root = 32%nat ->
  0 <= q < 2 ^ 64 -> wf_float now ->
  exists n, nir_create pq profile kp root q name ep now = Ok n /\ nir_verify pq profile n = Ok true /\ nir_operator_vk n = kp_vk kp /\
    forall kp' root' q' name' ep' now' n', nir_create pq profile kp' root' q' name' ep' now' = Ok n' -> nir_network_id n' = nir_network_id n ->
      collision_free [Domain.DOMAIN_NIR ++ root ++ kp_vk kp; Domain.DOMAIN_NIR ++ root' ++ kp_vk kp'] -> root' = root /\ kp_vk kp' = kp_vk kp.
Proof.
  intros Hs Hr Hq Hn. unfold nir_create. rewrite Hr. cbn [Nat.eqb negb]. set (u := {| nir_network_id := _; nir_operator_vk := _ |}).
  assert (exists b, nir_canonical_bytes u = Ok b) as [b Hb].
  { unfold nir_canonical_bytes, u. cbn [nir_genesis_sth_sequence nir_created_at]. rewrite (pack_u64 q), (pack_u64 now) by (done || apply Hn). by eexists. }
  rewrite Hb. destruct (Hs b) as (sig & Esig & Ever). cbn [sign_with] in Esig. cbn [mbind result_bind]. rewrite Esig. cbn [mbind result_bind].
  eexists. split; [reflexivity|]. split_and!; [|done|].
  - unfold nir_verify. change (nir_canonical_bytes (with_nir_signature u sig)) with (nir_canonical_bytes u). rewrite Hb. exact Ever.
  - intros kp' root' q' name' ep' now' n' En Eid Hcf. destruct (Nat.eqb_spec (length root') 32) as [Hr'|]; [|done]. cbn [negb] in En.
    set (u' := {| nir_network_id := _; nir_operator_vk := _ |}) in En. destruct (nir_canonical_bytes u') as [b'|]; [|done]. cbn [mbind result_bind] in En.
    destruct (KeyPair_sign pq profile kp' b') as [sig'|]; [|done]. injection En as <-. cbn [with_nir_signature nir_network_id u u'] in Eid.
    apply hex_inj in Eid; [|apply chash_wf..]. apply Hcf in Eid; [|by right; left|by left]. apply app_inv_head in Eid.
    apply app_inj_len in Eid as [-> ->]; [done|]. by rewrite Hr, Hr'.
Qed.

(** But verification looks at the signature alone: any key signs a record
    for any network id, which the registry accepts. *)
Theorem identity_forgeable kp (id root : bytes) q (name ep : pystr) now : signs_for pq profile (FromKeyPair kp) (kp_vk kp) -> 0 <= q < 2 ^ 64 -> wf_float now ->
  exists n, nir_network_id n = id /\ nir_operator_vk n = kp_vk kp /\ nir_verify pq profile n = Ok true /\
    forall r t, dict_find (fr_networks r) id = None -> fr_local_network_id r <> Some id ->
      exists f r', register_from_nir pq profile r n t = Ok (f, r') /\ dict_find (fr_networks r') id = Some f /\ fn_public_key f = kp_vk kp.
Proof.
  intros Hs Hq Hn.
  set (u := {| nir_network_id := id; nir_operator_vk := kp_vk kp; nir_genesis_sth_root := root; nir_genesis_sth_sequence := q;
               nir_display_name := name; nir_discovery_endpoint := ep; nir_created_at := now; nir_signature := [] |}).
  assert (exists b, nir_canonical_bytes u = Ok b) as [b Hb].
  { unfold nir_canonical_bytes, u. cbn [nir_genesis_sth_sequence nir_created_at]. rewrite (pack_u64 q), (pack_u64 now) by (done || apply Hn). by eexists. }
  destruct (Hs b) as (sig & Esig & Ever). exists (with_nir_signature u sig).
  assert (nir_verify pq profile (with_nir_signature u sig) = Ok true) as Hv.
  { unfold nir_verify. change (nir_canonical_bytes (with_nir_signature u sig)) with (nir_canonical_bytes u). rewrite Hb. exact Ever. }
  split_and!; [done..|]. intros r t Hnone Hl. unfold register_from_nir. rewrite Hv. cbn [mbind result_bind negb]. unfold register_network.
  cbn [with_nir_signature nir_network_id u]. rewrite Hnone, bool_decide_eq_false_2 by done. eexists _, _. split; [reflexivity|].
  cbn [update_network with_networks fr_networks]. rewrite dict_find_set, decide_True by done. done.
Qed.
End NirTheorems.

Section AgreementTheorems.
Context `{CanonicalHash} (pq : pq_backend) (profile : SecurityProfile).

Lemma verify_sig_nonempty kp m sig : MLDSA_verify pq profile (kp_vk kp) m sig = Ok true -> 0 < dsa_sig_size profile -> sig <> [].
Proof. unfold MLDSA_verify. intros E Hp ->. destruct (negb _); [done|]. change (len []) with 0 in E. destruct (Z.eqb_spec 0 (dsa_sig_size profile)); [lia|done]. Qed.

(** Two key pairs sign an agreement between any two networks. *)
Lemma agreement_signed kp1 kp2 n1 n2 terms now :
  signs_for pq profile (FromKeyPair kp1) (kp_vk kp1) -> signs_for pq profile (FromKeyPair kp2) (kp_vk kp2) -> 0 < dsa_sig_size profile -> wf_float now ->
  nir_operator_vk n1 = kp_vk kp1 -> nir_operator_vk n2 = kp_vk kp2 -> nir_network_id n1 <> nir_network_id n2 ->
  exists a1 a, initiate pq profile kp1 n1 n2 terms now = Ok a1 /\ countersign pq profile a1 kp2 = Ok a /\ verify_both pq profile a1 = Ok false /\
    verify_both pq profile a = Ok true /\ fa_initiator_network_id a = nir_network_id n1 /\ fa_responder_network_id a = nir_network_id n2.
Proof.
  intros H1 H2 Hp Hn V1 V2 Hne. unfold initiate. rewrite V1, V2, bool_decide_eq_true_2 by done. cbn [negb]. rewrite bool_decide_eq_false_2 by done.
  set (a0 := {| fa_initiator_network_id := _; fa_responder_network_id := _ |}).
  assert (forall i r, agreement_bytes (with_signatures a0 i r) = agreement_bytes a0) as Hb by done.
  assert (forall i r i' r', agreement_bytes (with_signatures (with_signatures a0 i r) i' r') = agreement_bytes a0) as Hb' by done.
  assert (exists b, agreement_bytes a0 = Ok b) as [b E0] by (unfold agreement_bytes, a0; cbn [fa_created_at]; rewrite pack_u64 by apply Hn; by eexists).
  rewrite E0. destruct (H1 b) as (s1 & S1 & V1'), (H2 b) as (s2 & S2 & V2'). cbn [sign_with] in S1, S2. cbn [mbind result_bind]. rewrite S1. cbn [mbind result_bind].
  eexists _, _. split; [reflexivity|]. unfold countersign. cbn [with_signatures fa_responder_vk a0]. rewrite bool_decide_eq_true_2 by done. cbn [negb].
  rewrite Hb, E0. cbn [mbind result_bind]. rewrite S2. cbn [mbind result_bind]. split; [reflexivity|].
  assert (s1 <> [] /\ s2 <> []) as [N1 N2] by (split; eapply verify_sig_nonempty; eauto).
  split_and!; [..|done|done].
  - unfold verify_both, verify_initiator. cbn [with_signatures fa_initiator_signature]. destruct s1 as [|x s1]; [done|]. rewrite Hb, E0. cbn [mbind result_bind].
    cbn [fa_initiator_vk with_signatures a0]. by rewrite V1'.
  - unfold verify_both, verify_initiator, verify_responder. cbn [with_signatures fa_initiator_signature fa_responder_signature]. destruct s1 as [|x s1], s2 as [|y s2]; try done.
    rewrite !Hb', E0. cbn [mbind result_bind fa_initiator_vk fa_responder_vk with_signatures a0]. by rewrite V1', V2'.
Qed.
Lemma federate_verified r a id n : verify_both pq profile a = Ok true ->
  (fr_local_network_id r = Some (fa_initiator_network_id a) /\ id = fa_responder_network_id a \/
   fr_local_network_id r = Some (fa_responder_network_id a) /\ id = fa_initiator_network_id a /\ fa_initiator_network_id a <> fa_responder_network_id a) ->
  dict_find (fr_networks r) id = Some n -> fn_trust_level n = VERIFIED ->
  exists r', federate_with_agreement pq profile r a = Ok (true, r') /\ dict_find (fr_networks r') id = Some (with_trust n FEDERATED) /\
    forall id', id' <> id -> dict_find (fr_networks r') id' = dict_find (fr_networks r) id'.
Proof.
  intros Hv Hl Hd Ht. unfold federate_with_agreement. rewrite Hv. cbn [mbind result_bind negb].
  assert ((if bool_decide (fr_local_network_id r = Some (fa_initiator_network_id a)) then Ok (fa_responder_network_id a)
    else if bool_decide (fr_local_network_id r = Some (fa_responder_network_id a)) then Ok (fa_initiator_network_id a)
    else Err (ValueError "Local network is not a party to this agreement")) = Ok id) as ->.
  { destruct Hl as [[E ->]|(E & -> & Hne)]; rewrite E; [by rewrite bool_decide_eq_true_2|].
    rewrite bool_decide_eq_false_2 by congruence. by rewrite bool_decide_eq_true_2. }
  cbn [mbind result_bind]. rewrite Hd, Ht. eexists. split; [reflexivity|]. cbn [update_network with_networks fr_networks].
  split; [by rewrite dict_find_set, decide_True|]. intros id' Hne. by rewrite dict_find_set, decide_False.
Qed.

(** The handshake federates both sides: an agreement half signed does not
    verify; signed by both it does, and lifts the other side from VERIFIED to
    FEDERATED in the registries of both, and touches no other network. *)
Theorem handshake_federates kp1 kp2 n1 n2 terms now r1 r2 f1 f2 :
  signs_for pq profile (FromKeyPair kp1) (kp_vk kp1) -> signs_for pq profile (FromKeyPair kp2) (kp_vk kp2) -> 0 < dsa_sig_size profile -> wf_float now ->
  nir_operator_vk n1 = kp_vk kp1 -> nir_operator_vk n2 = kp_vk kp2 -> nir_network_id n1 <> nir_network_id n2 ->
  fr_local_network_id r1 = Some (nir_network_id n1) -> fr_local_network_id r2 = Some (nir_network_id n2) ->
  dict_find (fr_networks r1) (nir_network_id n2) = Some f2 -> dict_find (fr_networks r2) (nir_network_id n1) = Some f1 ->
  fn_trust_level f1 = VERIFIED -> fn_trust_level f2 = VERIFIED ->
  exists a1 a r1' r2', initiate pq profile kp1 n1 n2 terms now = Ok a1 /\ countersign pq profile a1 kp2 = Ok a /\
    (forall r, federate_with_agreement pq profile r a1 = Err (ValueError "Federation agreement signature verification failed")) /\
    federate_with_agreement pq profile r1 a = Ok (true, r1') /\ federate_with_agreement pq profile r2 a = Ok (true, r2') /\
    dict_find (fr_networks r1') (nir_network_id n2) = Some (with_trust f2 FEDERATED) /\
    dict_find (fr_networks r2') (nir_network_id n1) = Some (with_trust f1 FEDERATED).
Proof.
  intros H1 H2 Hp Hn V1 V2 Hne L1 L2 D1 D2 T1 T2.
  destruct (agreement_signed kp1 kp2 n1 n2 terms now H1 H2 Hp Hn V1 V2 Hne) as (a1 & a & E1 & E2 & Hf & Ht & Ia & Ra).
  destruct (federate_verified r1 a (nir_network_id n2) f2 Ht) as (r1' & F1 & G1 & _); [left; by rewrite Ia, Ra|done..|].
  destruct (federate_verified r2 a (nir_network_id n1) f1 Ht) as (r2' & F2 & G2 & _); [right; by rewrite Ia, Ra|done..|].
  exists a1, a, r1', r2'. split_and!; try done. intros r. unfold federate_with_agreement. by rewrite Hf.
Qed.

(** C40: But nobody compares the keys of an agreement with the networks it names:
    with two key pairs of one's own one federates any VERIFIED network, whose
    key may be any other, with the local one. *)
Theorem federation_forgeable kp1 kp2 r id local n now : signs_for pq profile (FromKeyPair kp1) (kp_vk kp1) ->
  signs_for pq profile (FromKeyPair kp2) (kp_vk kp2) -> 0 < dsa_sig_size profile -> wf_float now ->
  fr_local_network_id r = Some local -> id <> local -> dict_find (fr_networks r) id = Some n -> fn_trust_level n = VERIFIED ->
  exists a r', fa_initiator_vk a = kp_vk kp1 /\ fa_responder_vk a = kp_vk kp2 /\
    federate_with_agreement pq profile r a = Ok (true, r') /\ dict_find (fr_networks r') id = Some (with_trust n FEDERATED).
Proof.
  intros H1 H2 Hp Hn Hl Hne Hd Ht.
  set (nir x k := {| nir_network_id := x; nir_operator_vk := k; nir_genesis_sth_root := []; nir_genesis_sth_sequence := 0; nir_display_name := [];
                     nir_discovery_endpoint := []; nir_created_at := 0; nir_signature := [] |}).
  destruct (agreement_signed kp1 kp2 (nir local (kp_vk kp1)) (nir id (kp_vk kp2)) [] now H1 H2 Hp Hn eq_refl eq_refl) as (a1 & a & E1 & E2 & _ & Hv & Ia & Ra); [by apply not_eq_sym|].
  destruct (federate_verified r a id n Hv) as (r' & F & G & _); [left; by rewrite Ia, Ra|done..|]. exists a, r'.
  unfold initiate in E1. cbn [nir nir_operator_vk nir_network_id] in E1. rewrite bool_decide_eq_true_2 in E1 by done. cbn [negb] in E1. rewrite bool_decide_eq_false_2 in E1 by (by apply not_eq_sym).
  destruct (agreement_bytes _) as [b|]; [|done]. cbn [mbind result_bind] in E1. destruct (KeyPair_sign pq profile kp1 b) as [s|]; [|done]. injection E1 as <-.
  unfold countersign in E2. cbn [with_signatures fa_responder_vk] in E2. rewrite bool_decide_eq_true_2 in E2 by done. cbn [negb] in E2.
  destruct (agreement_bytes _) as [b'|]; [|done]. cbn [mbind result_bind] in E2. destruct (KeyPair_sign pq profile kp2 b') as [s'|]; [|done]. injection E2 as <-. done.
Qed.
End AgreementTheorems.

(** ** Tree heads of remote networks *)
Section SthTheorems.
Context `{CanonicalHash} (pq : pq_backend) (profile : SecurityProfile).

(** The operations of a registry. *)
Inductive fed_op : Type :=
| FLocal (network_id : pystr) | FEntity (entity_id : pystr) | FRegister (id name ep : pystr) (key : bytes) (now : float64)
| FNir (nir : NetworkIdentityRecord) (now : float64) | FUpgrade (id : pystr) (t : TrustLevel) | FRevoke (id : pystr)
| FVerify (id : pystr) (s : RemoteSTH) (epoch : Z) | FFederate (a : FederationAgreement) | FResolution (entity_id id : pystr)
| FUnregister (id : pystr).
(** One operation; one that raises leaves the registry as it was. *)
Definition fed_step (r : FederationRegistry) (o : fed_op) : bool * FederationRegistry :=
  match o with
  | FLocal id => (true, set_local_network_id r id)
  | FEntity e => (true, register_local_entity r e)
  | FRegister id name ep key now => match register_network r id name ep key now with Ok (_, r') => (true, r') | Err _ => (false, r) end
  | FNir nir now => match register_from_nir pq profile r nir now with Ok (_, r') => (true, r') | Err _ => (false, r) end
  | FUpgrade id t => upgrade_trust r id t
  | FRevoke id => revoke_trust r id
  | FVerify id s epoch => match verify_sth pq profile r id s epoch with Ok br => br | Err _ => (false, r) end
  | FFederate a => match federate_with_agreement pq profile r a with Ok br => br | Err _ => (false, r) end
  | FResolution e id => register_resolution r e id
  | FUnregister id => unregister_network r id
  end.
Definition fed_run (r : FederationRegistry) (ops : list fed_op) : FederationRegistry := fold_left (fun r o => (fed_step r o).2) ops r.
(** The tree heads accepted from a network along a run. *)
Fixpoint accepted (r : FederationRegistry) (ops : list fed_op) (id : pystr) : list RemoteSTH :=
  match ops with
  | [] => []
  | o :: ops =>
      let '(ok, r') := fed_step r o in
      match o with
      | FVerify id' s _ => if ok && bool_decide (id' = id) then s :: accepted r' ops id else accepted r' ops id
      | _ => accepted r' ops id
      end
  end.

(** What an operation does to a registered network: nothing to its identity,
    and to its last tree head only what [verify_sth] accepts. *)
Definition identity_of (n : FederatedNetwork) := (fn_network_id n, fn_display_name n, fn_discovery_endpoint n, fn_public_key n, fn_registered_at n).
Definition same_head (n n' : FederatedNetwork) : Prop := identity_of n' = identity_of n /\ fn_last_sth n' = fn_last_sth n.
Definition head_accepted (n n' : FederatedNetwork) (s : RemoteSTH) : Prop :=
  identity_of n' = identity_of n /\ sth_signature_ok pq profile (fn_public_key n) s = Ok true /\
  exists q t root count, typed_sth s = Some (q, t, root, count) /\ sth_regresses (fn_last_sth n) q t = false /\ fn_last_sth n' = Some (q, t) /\
    fn_entity_count n' = count /\ is_trusted n' = true.

Lemma update_same r id0 n0 n0' id n : dict_find (fr_networks r) id0 = Some n0 -> same_head n0 n0' -> dict_find (fr_networks r) id = Some n ->
  exists n', dict_find (fr_networks (update_network r id0 n0')) id = Some n' /\ same_head n n'.
Proof.
  intros H0 Hs Hd. cbn [update_network with_networks fr_networks]. rewrite dict_find_set. destruct (decide (id0 = id)) as [->|].
  - exists n0'. split; [done|]. congruence.
  - by exists n.
Qed.
Lemma register_same r id0 name ep key now f r' id n : register_network r id0 name ep key now = Ok (f, r') -> dict_find (fr_networks r) id = Some n ->
  exists n', dict_find (fr_networks r') id = Some n' /\ same_head n n'.
Proof.
  unfold register_network. destruct (dict_find (fr_networks r) id0) eqn:E; [done|]. destruct (bool_decide _); [done|]. intros [= _ <-] Hd.
  cbn [update_network with_networks fr_networks]. rewrite dict_find_set, decide_False by congruence. by exists n.
Qed.

Lemma fed_step_head r o id n : o <> FUnregister id -> dict_find (fr_networks r) id = Some n -> exists n', dict_find (fr_networks (fed_step r o).2) id = Some n' /\
  match o with
  | FVerify id' s _ => if (fed_step r o).1 && bool_decide (id' = id) then head_accepted n n' s else same_head n n'
  | _ => same_head n n'
  end.
Proof.
  intros Hno Hd. assert (exists n', dict_find (fr_networks r) id = Some n' /\ same_head n n') as Hid by (by exists n).
  destruct o as [id0|e|id0 name ep key now|nir now|id0 t|id0|id0 s epoch|a|e id0|id0]; cbn [fed_step].
  - done.
  - done.
  - destruct (register_network r id0 name ep key now) as [[f r']|] eqn:E; [|done]. by eapply register_same.
  - unfold register_from_nir. destruct (nir_verify pq profile nir) as [[]|]; cbn [mbind result_bind negb]; [|done..].
    destruct (register_network _ _ _ _ _ _) as [[f r']|] eqn:E; [|done]. by eapply register_same.
  - unfold upgrade_trust. destruct (dict_find (fr_networks r) id0) as [n0|] eqn:E; [|done]. destruct (_ <=? _); [done|]. by eapply update_same.
  - unfold revoke_trust. destruct (dict_find (fr_networks r) id0) as [n0|] eqn:E; [|done]. by eapply update_same.
  - unfold verify_sth. destruct (dict_find (fr_networks r) id0) as [n0|] eqn:E; [|done]. destruct (typed_sth s) as [[[[q t] root] count]|] eqn:Et; [|done].
    destruct (sth_regresses (fn_last_sth n0) q t) eqn:Er; [done|]. destruct (sth_signature_ok pq profile (fn_public_key n0) s) as [[]|] eqn:Es; cbn [mbind result_bind]; [|done..].
    cbn [fst snd andb update_network with_networks fr_networks]. rewrite dict_find_set. destruct (decide (id0 = id)) as [->|Hne].
    + eexists. split; [reflexivity|]. rewrite bool_decide_eq_true_2 by done. assert (n0 = n) as -> by congruence. split; [done|]. split; [done|].
      exists q, t, root, count. split_and!; try done. unfold is_trusted, accept_sth. cbn [fn_trust_level]. by destruct (fn_trust_level n).
    + rewrite bool_decide_eq_false_2 by done. by exists n.
  - unfold federate_with_agreement. destruct (verify_both pq profile a) as [[]|]; cbn [mbind result_bind negb]; [|done..].
    assert (forall rid, exists n', dict_find (fr_networks (match match dict_find (fr_networks r) rid with
        | None => Err (ValueError "Network is not registered")
        | Some m => match fn_trust_level m with UNTRUSTED => Err (ValueError "Network must be at least VERIFIED before federation")
            | FEDERATED => Ok (true, r) | VERIFIED => Ok (true, update_network r rid (with_trust m FEDERATED)) end end
      with Ok br => br | Err _ => (false, r) end).2) id = Some n' /\ same_head n n') as Hrid.
    { intros rid. destruct (dict_find (fr_networks r) rid) as [n0|] eqn:E; [|done]. destruct (fn_trust_level n0); [done| |done]. by eapply update_same. }
    destruct (bool_decide _); [apply Hrid|]. destruct (bool_decide _); [apply Hrid|done].
  - unfold register_resolution. by destruct (dict_find (fr_networks r) id0).
  - assert (id0 <> id) as Hne by congruence. exists n. split; [|done]. unfold unregister_network.
    destruct (dict_find (fr_networks r) id0); [|done]. cbn [snd with_cache with_networks fr_networks]. by rewrite dict_find_del_ne.
Qed.

Definition sth_sequence (s : RemoteSTH) : Z := match typed_sth s with Some (q, _, _, _) => q | None => 0 end.
Definition last_sequence (n : FederatedNetwork) : option Z := fst <$> fn_last_sth n.

(** C34: Heads move forward.  Along any run of operations that does not unregister
    it, a registered network keeps its id, name, endpoint and key; the tree heads accepted from it have
    strictly increasing sequence numbers, beyond the last one before the run,
    and each carried a signature that verifies under its key, unless its key
    has not the size of an ML-DSA key; the last one accepted is the one kept. *)
Theorem sth_monotone r ops id n : dict_find (fr_networks r) id = Some n -> FUnregister id ∉ ops ->
  exists n', dict_find (fr_networks (fed_run r ops)) id = Some n' /\ identity_of n' = identity_of n /\
    StronglySorted Z.lt (option_list (last_sequence n) ++ map sth_sequence (accepted r ops id)) /\
    last_sequence n' = last (option_list (last_sequence n) ++ map sth_sequence (accepted r ops id)) /\
    Forall (fun s => len (fn_public_key n) = dsa_vk_size profile -> exists sig payload, rs_signature s = Some sig /\ rs_signable_payload s = Some payload /\
      MLDSA_verify pq profile (fn_public_key n) payload sig = Ok true) (accepted r ops id).
Proof.
  revert r n. induction ops as [|o ops IH]; intros r n Hd Hno.
  - exists n. split; [done|]. split; [done|]. cbn [accepted map]. rewrite app_nil_r. unfold last_sequence. destruct (fn_last_sth n) as [[q t]|]; cbn; (split; [repeat constructor|done]).
  - apply not_elem_of_cons in Hno as [Hno Hnos]. destruct (fed_step_head r o id n (not_eq_sym Hno) Hd) as (n1 & Hd1 & Ho). change (fed_run r (o :: ops)) with (fed_run (fed_step r o).2 ops).
    destruct (IH _ n1 Hd1 Hnos) as (n' & Hd' & Hid & Hs & Hl & Hf). exists n'. split; [done|].
    assert (accepted r (o :: ops) id = match o with FVerify id' s _ => if (fed_step r o).1 && bool_decide (id' = id) then s :: accepted (fed_step r o).2 ops id
      else accepted (fed_step r o).2 ops id | _ => accepted (fed_step r o).2 ops id end) as Ea by (cbn [accepted]; by destruct (fed_step r o)).
    assert (same_head n n1 /\ accepted r (o :: ops) id = accepted (fed_step r o).2 ops id \/
            exists s, head_accepted n n1 s /\ accepted r (o :: ops) id = s :: accepted (fed_step r o).2 ops id) as [[[Hi Hh] Ea']|(s & (Hi & Hsig & q & t & root & count & Et & Hreg & Hh & _) & Ea')].
    { rewrite Ea. destruct o; try by left. destruct (_ && _); [right; by eexists|by left]. }
    + rewrite Ea'. unfold last_sequence in *. rewrite Hh in Hs, Hl. assert (fn_public_key n1 = fn_public_key n) as E4 by (unfold identity_of in Hi; congruence). rewrite E4 in Hf. split; [congruence|]. done.
    + rewrite Ea'. unfold last_sequence in *. rewrite Hh in Hs, Hl. cbn [fmap option_fmap option_map fst option_list app] in Hs, Hl. assert (fn_public_key n1 = fn_public_key n) as E4 by (unfold identity_of in Hi; congruence). rewrite E4 in Hf.
      assert (sth_sequence s = q) as Hq by (unfold sth_sequence; by rewrite Et). cbn [map]. rewrite Hq. split; [congruence|]. split_and!.
      * destruct (fn_last_sth n) as [[q0 t0]|]; [|done]. cbn [fmap option_fmap option_map fst option_list app] in *. cbn [sth_regresses] in Hreg. breflect.
        constructor; [done|]. constructor; [lia|]. apply StronglySorted_inv in Hs as [_ Hs]. eapply Forall_impl; [exact Hs|]. cbn. lia.
      * rewrite Hl. destruct (fn_last_sth n) as [[q0 t0]|]; [|done]. cbn [fmap option_fmap option_map fst option_list app]. by destruct (map sth_sequence _).
      * constructor; [|done]. intros Hlen. unfold sth_signature_ok in Hsig. rewrite Hlen, Z.eqb_refl in Hsig.
        destruct (rs_signature s) as [sig|], (rs_signable_payload s) as [pl|]; try done. by exists sig, pl.
Qed.

(** But the signature covers the payload and nothing relates the payload to
    the fields: with one payload the operator ever signed, anybody makes the
    registry accept any root and any record count under any higher sequence
    number, and trust the network. *)
Theorem sth_fields_unsigned r id n payload sig : dict_find (fr_networks r) id = Some n -> MLDSA_verify pq profile (fn_public_key n) payload sig = Ok true ->
  forall q t root count epoch, sth_regresses (fn_last_sth n) q t = false ->
  exists n', verify_sth pq profile r id {| rs_sequence := Some (VInt q); rs_root_hash := Some (VBytes root);
      rs_timestamp := Some (match t with inl z => VInt z | inr w => VFloat w end); rs_record_count := Some (VInt count);
      rs_signature := Some sig; rs_signable_payload := Some payload |} epoch = Ok (true, update_network r id n') /\
    is_trusted n' = true /\ fn_last_sth n' = Some (q, t) /\ fn_entity_count n' = count.
Proof.
  intros Hd Hs q t root count epoch Hr. unfold verify_sth. rewrite Hd. unfold typed_sth. cbn [rs_sequence rs_root_hash rs_timestamp rs_record_count sth_int sth_text mbind option_bind].
  assert (sth_number (Some (match t with inl z => VInt z | inr w => VFloat w end)) = Some t) as -> by (by destruct t). cbn [mbind option_bind]. rewrite Hr.
  unfold sth_signature_ok. cbn [rs_signature rs_signable_payload]. rewrite Hs. cbn [mbind result_bind]. eexists. split; [reflexivity|]. split_and!; try done.
  unfold is_trusted, accept_sth. cbn [fn_trust_level]. by destruct (fn_trust_level n).
Qed.
End SthTheorems.

(** ** The rate limiter *)
(** Requests with their clock readings; the window starts of the allowed ones
    of a network, in order. *)
Fixpoint allowed_windows (l : FederationRateLimiter) (calls : list (pystr * float64)) (id : pystr) : list float64 :=
  match calls with
  | [] => []
  | (id', now) :: calls =>
      let '(ok, l') := allow l id' now in
      if ok && bool_decide (id' = id) then (current_window l id' now).1 :: allowed_windows l' calls id else allowed_windows l' calls id
  end.
Definition limiter_run (l : FederationRateLimiter) (calls : list (pystr * float64)) : FederationRateLimiter := fold_left (fun l c => (allow l c.1 c.2).2) calls l.

(** Windows: non-empty groups of at most [max] requests with one start, each
    group beginning a full window after the previous one. *)
Inductive windowed (max : Z) (window : float64) : option (float64 * Z) -> list float64 -> Prop :=
| win_done s : windowed max window s []
| win_more start count ws : count < max -> windowed max window (Some (start, count + 1)) ws -> windowed max window (Some (start, count)) (start :: ws)
| win_next s start ws : match s with Some (old, _) => f64_ge (f64_sub start old) window = true | None => True end ->
    0 < max -> windowed max window (Some (start, 1)) ws -> windowed max window s (start :: ws).

(** C37: The limiter bounds every window: whatever networks ask at whatever clock
    readings, the allowed requests of a network fall into windows of at most
    [max_requests_per_window] requests, each beginning when at least
    [window_seconds] have passed since the previous one began; and a request
    is refused exactly when its window has not passed and is full, or nothing
    is allowed at all. *)
Theorem federation_rate_limited max window l calls id : new_limiter max window = Ok l ->
  windowed max window None (allowed_windows l calls id) /\
  forall now, let l' := limiter_run l calls in
    (allow l' id now).1 = negb (match dict_find (rl_counters l') id with
      | Some (start, count) => if f64_ge (f64_sub now start) window then max =? 0 else max <=? count
      | None => max =? 0 end).
Proof.
  intros Hl. assert (0 <= max /\ rl_max_requests l = max /\ rl_window l = window /\ dict_find (rl_counters l) id = None) as (Hm & H1 & H2 & H3).
  { unfold new_limiter in Hl. destruct (f64_le window 0); [done|]. destruct (Z.ltb_spec max 0); [done|]. by injection Hl as <-. }
  clear Hl. assert (forall calls l, rl_max_requests l = max -> rl_window l = window -> rl_max_requests (limiter_run l calls) = max /\ rl_window (limiter_run l calls) = window) as Hrun.
  { clear. induction calls as [|[i t] calls IH]; intros l H1 H2; [done|]. cbn [limiter_run fold_left fst snd]. apply IH; unfold allow; destruct (current_window l i t) as [s c]; by destruct (_ <=? c). }
  split.
  - rewrite <- H3. assert (forall s c, dict_find (rl_counters l) id = Some (s, c) -> 1 <= c) as Hc by (intros s c E; congruence). clear H3 Hrun.
    revert l H1 H2 Hc. induction calls as [|[i t] calls IH]; intros l H1 H2 Hc; [constructor|]. cbn [allowed_windows].
    unfold allow. destruct (current_window l i t) as [s c] eqn:Ew. rewrite H1. destruct (Z.leb_spec max c) as [Hle|Hlt]; cbn [andb]; [by apply IH|].
    set (l' := {| rl_max_requests := max; rl_window := rl_window l; rl_counters := dict_set (rl_counters l) i (s, c + 1) |}).
    assert (dict_find (rl_counters l') id = if decide (i = id) then Some (s, c + 1) else dict_find (rl_counters l) id) as Hd by (unfold l'; cbn [rl_counters]; by rewrite dict_find_set).
    assert (forall s' c', dict_find (rl_counters l) i = Some (s', c') -> i = id -> 1 <= c') as Hci by (intros s' c' E ->; eauto).
    destruct (decide (i = id)) as [->|Hne].
    + rewrite bool_decide_eq_true_2 by done. cbn [fst].
      unfold current_window in Ew. destruct (dict_find (rl_counters l) id) as [[s0 c0]|] eqn:E0; cbn [from_option Datatypes.id] in Ew.
      * specialize (Hc _ _ eq_refl). rewrite H2 in Ew. destruct (f64_ge (f64_sub t s0) window) eqn:Eg; injection Ew as <- <-.
        -- apply win_next; [done|lia|]. replace (Some (t, 1)) with (dict_find (rl_counters l') id) by (by rewrite Hd). apply IH; [done|done|]. intros s' c'. rewrite Hd. intros [= <- <-]. lia.
        -- apply win_more; [done|]. rewrite <- Hd. apply IH; [done|done|]. intros s' c'. rewrite Hd. intros [= <- <-]. lia.
      * assert (s = t /\ c = 0) as [-> ->] by (revert Ew; case_match; by intros [= <- <-]).
        apply win_next; [done|lia|]. replace (Some (t, 1)) with (dict_find (rl_counters l') id) by (by rewrite Hd). apply IH; [done|done|]. intros s' c'. rewrite Hd. intros [= <- <-]. lia.
    + rewrite bool_decide_eq_false_2 by done. rewrite <- Hd. apply IH; [done|done|]. intros s' c'. rewrite Hd. apply Hc.
  - intros now. cbn zeta. destruct (Hrun calls l H1 H2) as [R1 R2]. set (l' := limiter_run l calls) in *. clearbody l'. unfold allow, current_window. rewrite R1, R2.
    destruct (dict_find (rl_counters l') id) as [[s c]|]; cbn [from_option Datatypes.id].
    + destruct (f64_ge (f64_sub now s) window); [|by destruct (max <=? c)].
      destruct (Z.leb_spec max 0), (Z.eqb_spec max 0); cbn; try done; lia.
    + destruct (f64_ge _ _); (destruct (Z.leb_spec max 0), (Z.eqb_spec max 0); cbn; try done; lia).
Qed.

(** The windows are fixed ones: twice the maximum passes within a moment. *)
Example burst_at_the_boundary l : new_limiter 2 0x4014000000000000 = Ok l ->
  length (allowed_windows l [(lit "n", 0); (lit "n", 0x4013FFFFFFFFFFFF); (lit "n", 0x4014000000000000); (lit "n", 0x4014000000000000)] (lit "n")) = 4%nat.
Proof. intros [= <-]. vm_compute. reflexivity. Qed.

(** ** Fetching across networks *)
Section FetchTheorems.
Context `{CanonicalHash} (pq : pq_backend) (profile : SecurityProfile).

Lemma find_shard_spec nds e i : match find_shard nds e i with
  | Some d => exists nd, nd ∈ nds /\ evicted nd = false /\ fetch_shard nd e i = Some d
  | None => forall nd, nd ∈ nds -> evicted nd = false -> fetch_shard nd e i = None
  end.
Proof.
  induction nds as [|nd nds IH]; cbn [find_shard]; [by intros nd ?%elem_of_nil|].
  destruct (evicted nd) eqn:Ev; [|destruct (fetch_shard nd e i) as [d|] eqn:Ed; [exists nd; by split; [left|]|]].
  all: destruct (find_shard nds e i) as [d|]; [destruct IH as (m & Hm & Hr); exists m; split; [by right|done]|];
    intros m [->|Hm]%elem_of_cons He; [congruence|by apply IH].
Qed.
Lemma collect_shards_find ep e idxs i :
  dict_find (collect_shards ep e idxs) i = if decide (i ∈ idxs) then find_shard (nodes (ep_network ep)) e i else None.
Proof.
  unfold collect_shards. assert (forall acc, dict_find (fold_left (fun res idx => match find_shard (nodes (ep_network ep)) e idx with Some d => dict_set res idx d | None => res end) idxs acc) i
    = if decide (i ∈ idxs) then match find_shard (nodes (ep_network ep)) e i with Some d => Some d | None => dict_find acc i end else dict_find acc i) as Hg.
  { induction idxs as [|j idxs IH]; intros acc; cbn [fold_left]; [by rewrite decide_False by apply not_elem_of_nil|]. rewrite IH.
    destruct (decide (i = j)) as [->|Hne].
    - rewrite (decide_True (P := j ∈ j :: idxs)) by left. destruct (find_shard _ e j) as [d|]; [|by destruct (decide _)].
      destruct (decide _); [done|]. by rewrite dict_find_set, decide_True.
    - rewrite (decide_ext (i ∈ j :: idxs) (i ∈ idxs)) by (rewrite elem_of_cons; naive_solver).
      assert (dict_find match find_shard (nodes (ep_network ep)) e j with Some d => dict_set acc j d | None => acc end i = dict_find acc i) as ->; [|done].
      destruct (find_shard _ e j); [|done]. by rewrite dict_find_set, decide_False by congruence. }
  rewrite Hg. destruct (decide _); [|done]. by destruct (find_shard _ e i).
Qed.
Lemma query_networks_sound r e remote ns n : query_networks r e remote ns = Ok (Some n) -> n ∈ ns /\ trust_order (fn_trust_level n) <= trust_order (fr_min_trust r).
Proof.
  induction ns as [|m ns IH]; cbn [query_networks]; [done|]. intros E.
  assert (query_networks r e remote ns = Ok (Some n) -> n ∈ m :: ns /\ trust_order (fn_trust_level n) <= trust_order (fr_min_trust r)) as Hr by (intros E'; destruct (IH E'); split; [by right|done]).
  destruct (Z.ltb_spec (trust_order (fr_min_trust r)) (trust_order (fn_trust_level m))); [by apply Hr|].
  destruct remote as [[tr au]|]; [|by apply Hr]. destruct (tr_query_entity _ _ _ _) as [[[]|]|]; cbn [mbind result_bind] in E; [|by apply Hr..|done].
  injection E as <-. split; [left|done].
Qed.
(** What the in-memory transport answers. *)
Lemma memory_fetch_sound eps endpoint e idxs nir a s0 sh :
  tr_fetch_shards (InMemoryFederationTransport pq profile eps) endpoint e idxs {| au_requester_nir := nir; au_agreement := a |} = Ok (s0 :: sh) ->
  nir_verify pq profile nir = Ok true /\ verify_both pq profile a = Ok true /\
  exists ep, dict_find eps endpoint = Some ep /\ (ep_network_id ep = [] \/ ep_network_id ep ∈ [fa_initiator_network_id a; fa_responder_network_id a]) /\
  forall i, match dict_find (s0 :: sh) i with
    | Some d => i ∈ idxs /\ exists nd, nd ∈ nodes (ep_network ep) /\ evicted nd = false /\ fetch_shard nd e i = Some d
    | None => i ∈ idxs -> forall nd, nd ∈ nodes (ep_network ep) -> evicted nd = false -> fetch_shard nd e i = None
    end.
Proof.
  cbn [InMemoryFederationTransport tr_fetch_shards]. unfold memory_fetch. destruct (auth_accepted _ _ _ _) as [[]|] eqn:Eau; cbn [mbind result_bind negb]; [|done..].
  destruct (dict_find eps endpoint) as [ep|]; [|done]. intros [= Ec]. rewrite <- Ec.
  assert (auth_verify pq profile {| au_requester_nir := nir; au_agreement := a |} = Ok true /\
    (ep_network_id ep = [] \/ ep_network_id ep ∈ [fa_initiator_network_id a; fa_responder_network_id a])) as [Hav Hcov].
  { unfold auth_accepted, verify_for_network in Eau. destruct (ep_network_id ep) as [|x xs]; [split; [done|by left]|].
    destruct (auth_verify _ _ _) as [[]|]; cbn [mbind result_bind andb] in Eau; [|done..]. split; [done|right].
    unfold covers_network in Eau. cbn [au_agreement] in Eau. do 2 case_bool_decide; try done; subst; set_solver. }
  unfold auth_verify in Hav. cbn [au_requester_nir au_agreement] in Hav. destruct (nir_verify pq profile nir) as [[]|]; cbn [mbind result_bind] in Hav; [|done..].
  split_and!; try done. exists ep. split_and!; try done. intros i. rewrite collect_shards_find. pose proof (find_shard_spec (nodes (ep_network ep)) e i) as Hf.
  destruct (decide (i ∈ idxs)); [|done]. destruct (find_shard _ e i); [by split|by intros _].
Qed.
(** What resolution answers: the local network, a network of the cache
    whatever its trust, or one of sufficient trust that answered. *)
Lemma resolve_entity_sound r e remote res r' : resolve_entity r e remote = Ok (res, r') ->
  fr_networks r' = fr_networks r /\ fr_local_network_id r' = fr_local_network_id r /\
  (er_found res = true -> er_home_network_id res = fr_local_network_id r \/
   exists id n, (id, n) ∈ fr_networks r /\ er_home_network_id res = Some (fn_network_id n) /\ er_shard_endpoints res = [fn_discovery_endpoint n] /\
     (dict_find (fr_resolution_cache r) e = Some id \/ trust_order (fn_trust_level n) <= trust_order (fr_min_trust r))).
Proof.
  unfold resolve_entity. destruct (bool_decide _); [intros [= <- <-]; split_and!; try done; by left|].
  destruct (match dict_find (fr_resolution_cache r) e with Some ((_ :: _) as c) => dict_find (fr_networks r) c | _ => None end) as [n|] eqn:Ec.
  - intros [= <- <-]. split_and!; try done. intros _. right. destruct (dict_find (fr_resolution_cache r) e) as [[|x c]|]; [done| |done].
    exists (x :: c), n. split_and!; try done; [by apply dict_find_Some|by left].
  - destruct (query_networks _ _ _ _) as [[n|]|] eqn:Eq; cbn [mbind result_bind]; [| |done]; intros [= <- <-]; split_and!; try done.
    intros _. right. apply query_networks_sound in Eq as [Hin Ht]. apply elem_of_sort_by, list_elem_of_fmap in Hin as ([id m] & -> & Hin).
    exists id, m. split_and!; try done. by right.
Qed.

(** C30: Shards cross networks under an agreement only.  A fetch over any transport
    that returns shards went to the endpoint of a registered network, not the
    local one, that was in the cache or has the trust asked for; the rate
    limiter let it pass; and the shards are what the transport answered under
    the local identity and the agreement kept for that network.  When it is
    the in-memory transport, identity and agreement verify, the agreement
    names the network of the endpoint if that has an id, each index of the
    answer was asked for, its shard is that of a node in service, and an index
    asked for is missing only when no node in service has it. *)
Theorem remote_fetch_sound f e idxs now shards f' : fetch_entity_shards f e idxs now = Ok (Some shards, f') ->
  exists id n a, (id, n) ∈ fr_networks (cf_registry f) /\ fr_local_network_id (cf_registry f) <> Some (fn_network_id n) /\
    (dict_find (fr_resolution_cache (cf_registry f)) e = Some id \/ trust_order (fn_trust_level n) <= trust_order (fr_min_trust (cf_registry f))) /\
    match cf_rate_limiter f with Some l => (allow l (fn_network_id n) now).1 = true | None => True end /\
    dict_find (cf_agreements f) (fn_network_id n) = Some a /\ shards <> [] /\
    tr_fetch_shards (cf_transport f) (fn_discovery_endpoint n) e idxs {| au_requester_nir := cf_local_nir f; au_agreement := a |} = Ok shards /\
    forall eps, cf_transport f = InMemoryFederationTransport pq profile eps ->
      nir_verify pq profile (cf_local_nir f) = Ok true /\ verify_both pq profile a = Ok true /\
      exists ep, dict_find eps (fn_discovery_endpoint n) = Some ep /\ (ep_network_id ep = [] \/ ep_network_id ep ∈ [fa_initiator_network_id a; fa_responder_network_id a]) /\
      forall i, match dict_find shards i with
        | Some d => i ∈ idxs /\ exists nd, nd ∈ nodes (ep_network ep) /\ evicted nd = false /\ fetch_shard nd e i = Some d
        | None => i ∈ idxs -> forall nd, nd ∈ nodes (ep_network ep) -> evicted nd = false -> fetch_shard nd e i = None
        end.
Proof.
  unfold fetch_entity_shards. destruct (get_any_auth f) as [au0|]; [|done].
  destruct (resolve_entity _ _ _) as [[res r]|] eqn:Er; [|done]. cbn [mbind result_bind]. apply resolve_entity_sound in Er as (_ & Hl & Hs).
  destruct (er_found res); [|done]. destruct (er_home_network_id res) as [home|]; [|done]. rewrite Hl.
  case_bool_decide as Hloc; [done|]. destruct (Hs eq_refl) as [E|(id & n & Hin & [= ->] & Hep & Ht)]; [by rewrite E in Hloc|].
  assert (forall b l, (match cf_rate_limiter (with_state f r (cf_rate_limiter f)) with Some l => let '(b, l') := allow l (fn_network_id n) now in (b, Some l') | None => (true, None) end) = (b, l) ->
    b = true -> match cf_rate_limiter f with Some l => (allow l (fn_network_id n) now).1 = true | None => True end) as Hlim.
  { cbn [with_state cf_rate_limiter]. destruct (cf_rate_limiter f) as [l0|]; [|done]. intros b l E Hb. destruct (allow l0 _ _). injection E as <- <-. done. }
  destruct (match cf_rate_limiter (with_state f r (cf_rate_limiter f)) with Some l => _ | None => _ end) as [b lim]. specialize (Hlim b lim eq_refl).
  destruct b; cbn [negb]; [|done]. specialize (Hlim eq_refl). rewrite Hep. unfold get_auth_for_network. cbn [with_state cf_agreements cf_local_nir cf_transport].
  destruct (dict_find (cf_agreements f) (fn_network_id n)) as [a|] eqn:Ea; [|done]. cbn [fmap option_fmap option_map].
  destruct (tr_fetch_shards (cf_transport f) (fn_discovery_endpoint n) e idxs _) as [sh|] eqn:Et; cbn [mbind result_bind]; [|done].
  destruct sh as [|s0 sh]; [done|]. intros [= <- _]. exists id, n, a. do 7 (split; [done|]). intros eps Htr. rewrite Htr in Et. by apply memory_fetch_sound in Et.
Qed.

(** But the entity is located under the first agreement kept, whichever
    network that is with: when no other network accepts it, an entity not
    cached yet is not found, although there is an agreement with the network
    that holds it. *)
Theorem first_agreement_decides f eps e idxs now id1 a1 more : cf_transport f = InMemoryFederationTransport pq profile eps ->
  cf_agreements f = (id1, a1) :: more -> e ∉ fr_local_entities (cf_registry f) -> dict_find (fr_resolution_cache (cf_registry f)) e = None ->
  nir_verify pq profile (cf_local_nir f) = Ok true -> verify_both pq profile a1 = Ok true ->
  (forall id n, (id, n) ∈ fr_networks (cf_registry f) -> exists ep, dict_find eps (fn_discovery_endpoint n) = Some ep /\ ep_network_id ep <> [] /\
     (ep_network_id ep ∉ [fa_initiator_network_id a1; fa_responder_network_id a1] \/ CommitmentLog.fetch (ep_log ep) e = None)) ->
  fetch_entity_shards f e idxs now = Ok (None, f).
Proof.
  intros Htr Ha Hle Hc Hn Hv Hall. unfold fetch_entity_shards, get_any_auth. rewrite Ha. unfold resolve_entity. rewrite bool_decide_eq_false_2 by done. rewrite Hc.
  set (au := {| au_requester_nir := _ |}). assert (forall ns, (forall n, n ∈ ns -> exists id, (id, n) ∈ fr_networks (cf_registry f)) ->
    query_networks (cf_registry f) e (Some (cf_transport f, au)) ns = Ok None) as Hq.
  { induction ns as [|n ns IH]; intros Hns; [done|]. cbn [query_networks]. rewrite IH by (intros m Hm; apply Hns; by right). destruct (_ <? _); [done|].
    destruct (Hns n) as [id Hid]; [left|]. destruct (Hall id n Hid) as (ep & Eep & Hne & Hno). rewrite Htr. cbn [InMemoryFederationTransport tr_query_entity]. unfold memory_query. rewrite Eep.
    unfold auth_accepted, verify_for_network, auth_verify. cbn [au au_requester_nir au_agreement]. rewrite Hn. cbn [mbind result_bind]. rewrite Hv. cbn [mbind result_bind andb].
    destruct (ep_network_id ep) as [|x xs]; [done|]. unfold covers_network. cbn [au_agreement]. destruct Hno as [Hno| ->]; [|by destruct (_ || _)].
    rewrite !bool_decide_eq_false_2 by (intros E; apply Hno; rewrite <- E; change (au_agreement au) with a1; set_solver). done. }
  rewrite Hq; [|intros n Hin%elem_of_sort_by; apply list_elem_of_fmap in Hin as ([id m] & -> & Hin); by exists id]. cbn [mbind result_bind er_found]. unfold with_state. by destruct f.
Qed.

(** And a network whose trust is revoked still resolves what the cache says
    it holds, whatever trust is asked for. *)
Lemma revoked_still_resolved r e x id n : e ∉ fr_local_entities r -> dict_find (fr_resolution_cache r) e = Some (x :: id) -> dict_find (fr_networks r) (x :: id) = Some n ->
  resolve_entity (revoke_trust r (x :: id)).2 e None = Ok (resolved e (with_trust n UNTRUSTED) 0, (revoke_trust r (x :: id)).2).
Proof.
  intros Hl Hc Hd. unfold revoke_trust. rewrite Hd. unfold resolve_entity. cbn [snd update_network with_networks fr_local_entities fr_resolution_cache fr_networks].
  rewrite bool_decide_eq_false_2 by done. by rewrite Hc, dict_find_set, decide_True.
Qed.
End FetchTheorems.

(** * Witnesses *)
Definition operator_a : KeyPair := demo_keypair (lit "a") 21.
Definition operator_b : KeyPair := demo_keypair (lit "b") 22.
Lemma operators_sign : signs_for toy_pq demo_profile (FromKeyPair operator_a) (kp_vk operator_a) /\ signs_for toy_pq demo_profile (FromKeyPair operator_b) (kp_vk operator_b).
Proof. split; (apply dsa_pair_signs_keypair; [done|apply demo_dsa_pair]). Qed.
Definition nir_of (id : pystr) (kp : KeyPair) : NetworkIdentityRecord :=
  {| nir_network_id := id; nir_operator_vk := kp_vk kp; nir_genesis_sth_root := repeat 1 32; nir_genesis_sth_sequence := 0;
     nir_display_name := id; nir_discovery_endpoint := lit "ep-" ++ id; nir_created_at := 0; nir_signature := [] |}.
Definition network_of (id : pystr) (kp : KeyPair) (t : TrustLevel) : FederatedNetwork :=
  {| fn_network_id := id; fn_display_name := id; fn_discovery_endpoint := lit "ep-" ++ id; fn_public_key := kp_vk kp; fn_trust_level := t;
     fn_last_sth := None; fn_last_sth_verified_epoch := -1; fn_registered_at := 0; fn_entity_count := 0 |}.
Definition registry_of (local id : pystr) (kp : KeyPair) (t : TrustLevel) : FederationRegistry :=
  update_network (set_local_network_id (new_registry VERIFIED) local) id (network_of id kp t).

Lemma nir_identity_witness : exists n, nir_create toy_pq demo_profile operator_a (repeat 7 32) 3 (lit "net") (lit "ep") 0 = Ok n /\ nir_verify toy_pq demo_profile n = Ok true.
Proof.
  destruct (nir_identity toy_pq demo_profile operator_a (repeat 7 32) 3 (lit "net") (lit "ep") 0) as (n & E & V & _); [apply operators_sign|done|lia|done|by exists n].
Defined.
Lemma identity_forgeable_witness : exists n, nir_network_id n = lit "b" /\ nir_operator_vk n = kp_vk operator_a /\ nir_verify toy_pq demo_profile n = Ok true.
Proof.
  destruct (identity_forgeable toy_pq demo_profile operator_a (lit "b") [] 0 (lit "net") (lit "ep") 0) as (n & E & K & V & _); [apply operators_sign|lia|done|by exists n].
Defined.
Lemma handshake_federates_witness : exists a1 a r1' r2',
  initiate toy_pq demo_profile operator_a (nir_of (lit "A") operator_a) (nir_of (lit "B") operator_b) (lit "terms") 0 = Ok a1 /\
  countersign toy_pq demo_profile a1 operator_b = Ok a /\
  federate_with_agreement toy_pq demo_profile (registry_of (lit "A") (lit "B") operator_b VERIFIED) a = Ok (true, r1') /\
  federate_with_agreement toy_pq demo_profile (registry_of (lit "B") (lit "A") operator_a VERIFIED) a = Ok (true, r2').
Proof.
  destruct (handshake_federates toy_pq demo_profile operator_a operator_b (nir_of (lit "A") operator_a) (nir_of (lit "B") operator_b) (lit "terms") 0
    (registry_of (lit "A") (lit "B") operator_b VERIFIED) (registry_of (lit "B") (lit "A") operator_a VERIFIED)
    (network_of (lit "A") operator_a VERIFIED) (network_of (lit "B") operator_b VERIFIED)) as (a1 & a & r1' & r2' & E1 & E2 & _ & F1 & F2 & _).
  all: try (exact eq_refl). 1: apply operators_sign. 1: apply operators_sign. 1: done. 1: discriminate.
  exists a1, a, r1', r2'. split; [exact E1|]. split; [exact E2|]. split; [exact F1|exact F2].
Defined.
Lemma federation_forgeable_witness : exists a r',
  federate_with_agreement toy_pq demo_profile (registry_of (lit "A") (lit "B") operator_b VERIFIED) a = Ok (true, r') /\ fa_responder_vk a = kp_vk operator_a.
Proof.
  destruct (federation_forgeable toy_pq demo_profile operator_a operator_a (registry_of (lit "A") (lit "B") operator_b VERIFIED) (lit "B") (lit "A")
    (network_of (lit "B") operator_b VERIFIED) 0) as (a & r' & _ & V & F & _); [apply operators_sign|apply operators_sign|done|done|done|discriminate|done|done|].
  by exists a, r'.
Defined.

Definition signed_head (q : Z) : RemoteSTH :=
  {| rs_sequence := Some (VInt q); rs_root_hash := Some (VBytes [1]); rs_timestamp := Some (VInt q); rs_record_count := Some (VInt 4);
     rs_signature := Some (toy_sig false (kp_vk operator_b) [q]); rs_signable_payload := Some [q] |}.
Lemma sth_monotone_witness :
  let r := registry_of (lit "A") (lit "B") operator_b UNTRUSTED in
  let ops := [FVerify (lit "B") (signed_head 2) 5; FVerify (lit "B") (signed_head 1) 6; FRevoke (lit "B"); FVerify (lit "B") (signed_head 4) 7] in
  exists n', dict_find (fr_networks (fed_run toy_pq demo_profile r ops)) (lit "B") = Some n' /\ last_sequence n' = Some 4 /\ fn_public_key n' = kp_vk operator_b.
Proof.
  cbn zeta. set (r := registry_of _ _ _ _). set (ops := [_; _; _; _]).
  destruct (sth_monotone toy_pq demo_profile r ops (lit "B") (network_of (lit "B") operator_b UNTRUSTED)) as (n' & E & Hi & _ & Hl & _);
    [exact eq_refl|unfold ops; intros Hin; repeat (apply elem_of_cons in Hin as [Hin|Hin]; [discriminate Hin|]); by apply elem_of_nil in Hin|].
  exists n'. split; [exact E|]. split; [|exact (f_equal (fun t => t.1.2) Hi)]. rewrite Hl.
  assert (map sth_sequence (accepted toy_pq demo_profile r ops (lit "B")) = [2; 4]) as -> by (vm_compute; reflexivity). reflexivity.
Defined.
(** Unregistering forgets: a network registered again under its id is free to
    have another key and to present an older head. *)
Example reregistration_forgets :
  let r := fed_run toy_pq demo_profile (registry_of (lit "A") (lit "B") operator_b UNTRUSTED)
    [FVerify (lit "B") (signed_head 4) 5; FUnregister (lit "B"); FRegister (lit "B") [] [] (kp_vk operator_b) 0; FVerify (lit "B") (signed_head 1) 6] in
  (last_sequence <$> dict_find (fr_networks r) (lit "B")) = Some (Some 1).
Proof. vm_compute. reflexivity. Qed.
Lemma sth_fields_unsigned_witness : exists n', 
  verify_sth toy_pq demo_profile (registry_of (lit "A") (lit "B") operator_b UNTRUSTED) (lit "B")
    {| rs_sequence := Some (VInt 1000); rs_root_hash := Some (VBytes [6; 6; 6]); rs_timestamp := Some (VInt 9); rs_record_count := Some (VInt 123456);
       rs_signature := Some (toy_sig false (kp_vk operator_b) [2]); rs_signable_payload := Some [2] |} 5
    = Ok (true, update_network (registry_of (lit "A") (lit "B") operator_b UNTRUSTED) (lit "B") n') /\ is_trusted n' = true.
Proof.
  destruct (sth_fields_unsigned toy_pq demo_profile (registry_of (lit "A") (lit "B") operator_b UNTRUSTED) (lit "B") (network_of (lit "B") operator_b UNTRUSTED)
    [2] (toy_sig false (kp_vk operator_b) [2])) with (q := 1000) (t := inl 9 : Z + float64) (root := [6; 6; 6]) (count := 123456) (epoch := 5) as (n' & E & Ht & _);
    [exact eq_refl|vm_compute; reflexivity|reflexivity|]. exists n'. split; [exact E|exact Ht].
Defined.
Lemma federation_rate_limited_witness : exists l, new_limiter 1 0x4014000000000000 = Ok l /\
  windowed 1 0x4014000000000000 None (allowed_windows l [(lit "n", 0); (lit "n", 0x4010000000000000); (lit "n", 0x4014000000000000)] (lit "n")).
Proof. eexists. split; [reflexivity|]. apply (federation_rate_limited 1 0x4014000000000000 _ _ (lit "n")). reflexivity. Defined.

(** Network A fetches from network B, under the agreement the two signed. *)
Definition shard_holder (id : pystr) (i : Z) (d : bytes) : CommitmentNode := (store_shard (new_node id (lit "eu")) (lit "x") i d).2.
Definition endpoint_of (id : pystr) (nds : list CommitmentNode) : Endpoint :=
  {| ep_network := {| nodes := nds; placement_cache := ∅; node_count_at_cache := 0; node_shard_index := ∅; geo_fence := None |};
     ep_log := CommitmentLog.new_clog operator_b; ep_network_id := id |}.
Definition demo_endpoints : list (pystr * Endpoint) := [(lit "ep-B", endpoint_of (lit "B") [shard_holder (lit "n1") 0 [10]; shard_holder (lit "n2") 2 [12]])].
Definition signed_nir (kp : KeyPair) (n : NetworkIdentityRecord) : NetworkIdentityRecord :=
  match nir_canonical_bytes n with Ok b => with_nir_signature n (toy_sig false (kp_vk kp) b) | Err _ => n end.
Definition signed_agreement (ia ib : pystr) (ka kb : KeyPair) : FederationAgreement :=
  match a ← initiate toy_pq demo_profile ka (nir_of ia ka) (nir_of ib kb) [] 0; countersign toy_pq demo_profile a kb with
  | Ok a => a
  | Err _ => {| fa_initiator_network_id := []; fa_responder_network_id := []; fa_initiator_vk := []; fa_responder_vk := []; fa_initiator_signature := [];
                fa_responder_signature := []; fa_created_at := 0; fa_terms := [] |}
  end.
Definition demo_fetcher (agreements : list (pystr * FederationAgreement)) (r : FederationRegistry) : CrossNetworkFetcher :=
  {| cf_registry := r; cf_transport := InMemoryFederationTransport toy_pq demo_profile demo_endpoints; cf_local_nir := signed_nir operator_a (nir_of (lit "A") operator_a);
     cf_agreements := agreements; cf_rate_limiter := None |}.
Definition a_and_b : FederationAgreement := signed_agreement (lit "A") (lit "B") operator_a operator_b.
Definition a_and_c : FederationAgreement := signed_agreement (lit "A") (lit "C") operator_a operator_b.
Lemma dict_find_one {A} (k id : pystr) (x y : A) : dict_find [(k, x)] id = Some y -> y = x.
Proof. cbn [dict_find]. destruct (decide _); [by intros [= <-]|done]. Qed.
Lemma remote_fetch_sound_witness : exists shards f',
  fetch_entity_shards (demo_fetcher [(lit "B", a_and_b)] (register_resolution (registry_of (lit "A") (lit "B") operator_b FEDERATED) (lit "x") (lit "B")).2) (lit "x") [0; 1; 2] 0
    = Ok (Some shards, f') /\ shards = [(0, [10]); (2, [12])] /\ verify_both toy_pq demo_profile a_and_b = Ok true.
Proof.
  set (f := demo_fetcher _ _).
  assert (match fetch_entity_shards f (lit "x") [0; 1; 2] 0 with Ok (o, _) => o | Err _ => None end = Some [(0, [10]); (2, [12])]) as Hc by (vm_compute; reflexivity).
  destruct (fetch_entity_shards f (lit "x") [0; 1; 2] 0) as [[o f']|] eqn:E; [|discriminate]. subst o.
  eexists _, f'. split; [reflexivity|]. split; [reflexivity|].
  destruct (remote_fetch_sound toy_pq demo_profile f (lit "x") [0; 1; 2] 0 _ f' E) as (id & n & a & Hin & _ & _ & _ & Ha & _ & _ & Hm).
  destruct (Hm demo_endpoints eq_refl) as (_ & Hv & _).
  rewrite <- (dict_find_one (lit "B") (fn_network_id n) a_and_b a Ha). exact Hv.
Defined.
Lemma first_agreement_decides_witness :
  fetch_entity_shards (demo_fetcher [(lit "C", a_and_c); (lit "B", a_and_b)] (registry_of (lit "A") (lit "B") operator_b FEDERATED)) (lit "x") [0] 0
    = Ok (None, demo_fetcher [(lit "C", a_and_c); (lit "B", a_and_b)] (registry_of (lit "A") (lit "B") operator_b FEDERATED)).
Proof.
  set (f := demo_fetcher _ _). apply (first_agreement_decides toy_pq demo_profile f demo_endpoints (lit "x") [0] 0 (lit "C") a_and_c [(lit "B", a_and_b)]); [exact eq_refl|exact eq_refl| |exact eq_refl|..].
  - apply not_elem_of_nil.
  - vm_compute. reflexivity.
  - vm_compute. reflexivity.
  - intros id n Hin. cbn in Hin. apply list_elem_of_singleton in Hin as [= -> ->]. eexists. split; [reflexivity|]. split; [done|]. left.
    assert (fa_initiator_network_id a_and_c = lit "A") as -> by (vm_compute; reflexivity). assert (fa_responder_network_id a_and_c = lit "C") as -> by (vm_compute; reflexivity).
    rewrite !not_elem_of_cons. split_and!; [discriminate|discriminate|apply not_elem_of_nil].
Defined.
