(* ===== verification/Admission.v ===== *)
(** Permissioned node admission, src/src/ltp/node/admission.py: applications,
    signed endorsements of operators up to a threshold, and the life cycle of
    an admitted node.  The lock is sequential execution; clock readings are
    arguments; a snapshot of a record is the record. *)

From S2P Require Import Prelude Float64 Hashing Primitives Encoding.

(** * States *)
Inductive AdmissionState : Type := APPLYING | ENDORSED | ADMITTED | ACTIVE | SUSPENDED | EVICTED.
#[export] Instance AdmissionState_eq_dec : EqDecision AdmissionState.
Proof. solve_decision. Defined.
Definition VALID_ADMISSION_TRANSITIONS : list (AdmissionState * AdmissionState) :=
  [(APPLYING, ENDORSED); (ENDORSED, ADMITTED); (ADMITTED, ACTIVE); (ACTIVE, SUSPENDED); (SUSPENDED, ACTIVE); (ACTIVE, EVICTED); (SUSPENDED, EVICTED)].

(** What the operations raise. *)
Inductive admission_error : Type :=
| InvalidAdmissionTransition (current target : AdmissionState)
| Raised (e : exn).

Record EndorsementVote : Type := {
  ev_endorser_vk_hash : pystr;
  ev_applicant_node_id : pystr;
  ev_signature : bytes;
  ev_timestamp : float64;
  ev_endorser_label : pystr
}.
Record AdmissionRecord : Type := {
  ar_node_id : pystr;
  ar_applicant_vk_hash : pystr;
  ar_state : AdmissionState;
  ar_applied_at : float64;
  ar_endorsements : list EndorsementVote;
  ar_required_endorsements : Z;
  ar_total_operators : Z;
  ar_admitted_at : float64;
  ar_activated_at : float64;
  ar_suspended_at : float64;
  ar_rejection_reason : pystr
}.
(** The record with the fields the operations assign. *)
Definition ar_update (r : AdmissionRecord) (state : AdmissionState) (endorsements : list EndorsementVote)
    (admitted_at activated_at suspended_at : float64) (reason : pystr) : AdmissionRecord :=
  {| ar_node_id := ar_node_id r; ar_applicant_vk_hash := ar_applicant_vk_hash r; ar_state := state; ar_applied_at := ar_applied_at r;
     ar_endorsements := endorsements; ar_required_endorsements := ar_required_endorsements r; ar_total_operators := ar_total_operators r;
     ar_admitted_at := admitted_at; ar_activated_at := activated_at; ar_suspended_at := suspended_at; ar_rejection_reason := reason |}.

Section Endorsements.
Context `{CanonicalHash} (pq : pq_backend) (profile : SecurityProfile).

Definition endorsement_payload (applicant_node_id : pystr) (endorser_vk : bytes) : bytes :=
  Domain.DOMAIN_NODE_ENDORSEMENT ++ applicant_node_id ++ endorser_vk.
Definition create_endorsement (endorser_keypair : KeyPair) (applicant_node_id : pystr) (now : float64) : result EndorsementVote :=
  sig ← KeyPair_sign pq profile endorser_keypair (endorsement_payload applicant_node_id (kp_vk endorser_keypair));
  Ok {| ev_endorser_vk_hash := chash_str (kp_vk endorser_keypair); ev_applicant_node_id := applicant_node_id; ev_signature := sig;
        ev_timestamp := now; ev_endorser_label := kp_label endorser_keypair |}.
Definition verify_endorsement (vote : EndorsementVote) (endorser_vk : bytes) : result bool :=
  MLDSA_verify pq profile endorser_vk (endorsement_payload (ev_applicant_node_id vote) endorser_vk) (ev_signature vote).

(** * The manager *)
Record NodeAdmissionManager : Type := { am_m : Z; am_n : Z; am_records : list (pystr * AdmissionRecord) }.
Definition new_admission_manager (m n : Z) : result NodeAdmissionManager :=
  if m <? 1 then Err (ValueError "m must be >= 1")
  else if n <? m then Err (ValueError "n must be >= m")
  else Ok {| am_m := m; am_n := n; am_records := [] |}.
Definition am_put (a : NodeAdmissionManager) (node_id : pystr) (r : AdmissionRecord) : NodeAdmissionManager :=
  {| am_m := am_m a; am_n := am_n a; am_records := dict_set (am_records a) node_id r |}.
Abbreviation admission_result := (admission_error + AdmissionRecord * NodeAdmissionManager)%type.
Definition stored (a : NodeAdmissionManager) (node_id : pystr) (r : AdmissionRecord) : admission_result := inr (r, am_put a node_id r).

(** [_validate_transition], up to the assignment of the state. *)
Definition validate_transition (a : NodeAdmissionManager) (node_id : pystr) (target : AdmissionState) : admission_error + AdmissionRecord :=
  match dict_find (am_records a) node_id with
  | None => inl (Raised KeyError)
  | Some r => if bool_decide ((ar_state r, target) ∈ VALID_ADMISSION_TRANSITIONS) then inr r else inl (InvalidAdmissionTransition (ar_state r) target)
  end.
Definition transit (a : NodeAdmissionManager) (node_id : pystr) (target : AdmissionState) (assign : AdmissionRecord -> AdmissionRecord) : admission_result :=
  match validate_transition a node_id target with inl e => inl e | inr r => stored a node_id (assign r) end.

Definition apply_node (a : NodeAdmissionManager) (node_id applicant_vk_hash : pystr) (now : float64) : admission_result :=
  let r := {| ar_node_id := node_id; ar_applicant_vk_hash := applicant_vk_hash; ar_state := APPLYING; ar_applied_at := now; ar_endorsements := [];
              ar_required_endorsements := am_m a; ar_total_operators := am_n a; ar_admitted_at := 0; ar_activated_at := 0; ar_suspended_at := 0;
              ar_rejection_reason := [] |} in
  match dict_find (am_records a) node_id with
  | Some existing => if bool_decide (ar_state existing = EVICTED) then stored a node_id r else inl (Raised (ValueError "Node already has active application"))
  | None => stored a node_id r
  end.
Definition add_endorsement (r : AdmissionRecord) (vote : EndorsementVote) : AdmissionRecord :=
  let endorsements := ar_endorsements r ++ [vote] in
  ar_update r (if ar_required_endorsements r <=? Z.of_nat (length endorsements) then ENDORSED else ar_state r) endorsements
    (ar_admitted_at r) (ar_activated_at r) (ar_suspended_at r) (ar_rejection_reason r).
Definition endorse (a : NodeAdmissionManager) (node_id : pystr) (vote : EndorsementVote) (endorser_vk : option bytes) : admission_result :=
  match match endorser_vk with Some vk => verify_endorsement vote vk | None => Ok true end with
  | Err e => inl (Raised e)
  | Ok false => inl (Raised (ValueError "Endorsement signature verification failed"))
  | Ok true =>
      match dict_find (am_records a) node_id with
      | None => inl (Raised KeyError)
      | Some r =>
          if negb (bool_decide (ar_state r = APPLYING)) then inl (Raised (ValueError "Node is not in APPLYING state"))
          else if bool_decide (ev_endorser_vk_hash vote ∈ map ev_endorser_vk_hash (ar_endorsements r)) then inl (Raised (ValueError "already endorsed"))
          else stored a node_id (add_endorsement r vote)
      end
  end.
Definition admit_node (a : NodeAdmissionManager) (node_id : pystr) (now : float64) : admission_result :=
  transit a node_id ADMITTED (fun r => ar_update r ADMITTED (ar_endorsements r) now (ar_activated_at r) (ar_suspended_at r) (ar_rejection_reason r)).
Definition activate (a : NodeAdmissionManager) (node_id : pystr) (now : float64) : admission_result :=
  transit a node_id ACTIVE (fun r => ar_update r ACTIVE (ar_endorsements r) (ar_admitted_at r) now (ar_suspended_at r) (ar_rejection_reason r)).
Definition suspend (a : NodeAdmissionManager) (node_id reason : pystr) (now : float64) : admission_result :=
  transit a node_id SUSPENDED (fun r => ar_update r SUSPENDED (ar_endorsements r) (ar_admitted_at r) (ar_activated_at r) now reason).
Definition reactivate (a : NodeAdmissionManager) (node_id : pystr) : admission_result :=
  transit a node_id ACTIVE (fun r => ar_update r ACTIVE (ar_endorsements r) (ar_admitted_at r) (ar_activated_at r) (ar_suspended_at r) []).
Definition evict (a : NodeAdmissionManager) (node_id reason : pystr) : admission_result :=
  match dict_find (am_records a) node_id with
  | None => inl (Raised KeyError)
  | Some r =>
      if bool_decide (ar_state r ∈ [ACTIVE; SUSPENDED])
      then stored a node_id (ar_update r EVICTED (ar_endorsements r) (ar_admitted_at r) (ar_activated_at r) (ar_suspended_at r) reason)
      else inl (InvalidAdmissionTransition (ar_state r) EVICTED)
  end.
Definition get (a : NodeAdmissionManager) (node_id : pystr) : option AdmissionRecord := dict_find (am_records a) node_id.
Definition get_by_state (a : NodeAdmissionManager) (state : AdmissionState) : list AdmissionRecord :=
  List.filter (fun r => bool_decide (ar_state r = state)) (map snd (am_records a)).

(** * Runs *)
Inductive admission_op : Type :=
| AApply (id vk_hash : pystr) (now : float64) | AEndorse (id : pystr) (vote : EndorsementVote) (vk : option bytes) | AAdmit (id : pystr) (now : float64)
| AActivate (id : pystr) (now : float64) | ASuspend (id reason : pystr) (now : float64) | AReactivate (id : pystr) | AEvict (id reason : pystr).
Definition admission_result_of (a : NodeAdmissionManager) (o : admission_op) : admission_result :=
  match o with
  | AApply id h now => apply_node a id h now | AEndorse id v vk => endorse a id v vk | AAdmit id now => admit_node a id now
  | AActivate id now => activate a id now | ASuspend id r now => suspend a id r now | AReactivate id => reactivate a id | AEvict id r => evict a id r
  end.
(** An operation that raises leaves the manager as it was. *)
Definition admission_step (a : NodeAdmissionManager) (o : admission_op) : NodeAdmissionManager :=
  match admission_result_of a o with inr (_, a') => a' | inl _ => a end.
Definition op_target (o : admission_op) : pystr :=
  match o with AApply id _ _ | AEndorse id _ _ | AAdmit id _ | AActivate id _ | ASuspend id _ _ | AReactivate id | AEvict id _ => id end.

(** What one operation does to the record of its node, with threshold [m]: it
    moves along the table of transitions, collects an endorsement, or starts
    over. *)
Inductive admission_move (m : Z) : option AdmissionRecord -> AdmissionRecord -> Prop :=
| move_apply r old : match old with Some o => ar_state o = EVICTED | None => True end -> ar_state r = APPLYING -> ar_endorsements r = [] ->
    ar_required_endorsements r = m -> admission_move m old r
| move_endorse r v : ar_state r = APPLYING -> ev_endorser_vk_hash v ∉ map ev_endorser_vk_hash (ar_endorsements r) ->
    admission_move m (Some r) (add_endorsement r v)
| move_table r r' : (ar_state r, ar_state r') ∈ VALID_ADMISSION_TRANSITIONS -> ar_state r <> APPLYING ->
    ar_endorsements r' = ar_endorsements r -> ar_required_endorsements r' = ar_required_endorsements r -> admission_move m (Some r) r'.

(** A record is sound: endorsers are distinct, and it has left APPLYING
    exactly when it has the number of endorsements it requires. *)
Definition record_sound (m : Z) (r : AdmissionRecord) : Prop :=
  ar_required_endorsements r = m /\ NoDup (map ev_endorser_vk_hash (ar_endorsements r)) /\
  (if bool_decide (ar_state r = APPLYING) then Z.of_nat (length (ar_endorsements r)) < m else Z.of_nat (length (ar_endorsements r)) = m).
Definition all_sound (a : NodeAdmissionManager) : Prop := forall id r, dict_find (am_records a) id = Some r -> record_sound (am_m a) r.

Lemma admission_target s t : (s, t) ∈ VALID_ADMISSION_TRANSITIONS -> t <> APPLYING /\ (s = APPLYING -> t = ENDORSED).
Proof. unfold VALID_ADMISSION_TRANSITIONS. intros Ht. rewrite !elem_of_cons, elem_of_nil in Ht. naive_solver. Qed.
Lemma transit_move a id target assign r' a' : transit a id target assign = inr (r', a') -> target <> ENDORSED ->
  (forall r, ar_state (assign r) = target /\ ar_endorsements (assign r) = ar_endorsements r /\ ar_required_endorsements (assign r) = ar_required_endorsements r) ->
  a' = am_put a id r' /\ admission_move (am_m a) (dict_find (am_records a) id) r'.
Proof.
  unfold transit, validate_transition, stored. destruct (dict_find (am_records a) id) as [r|]; [|done]. case_bool_decide as Ht; [|done].
  intros [= <- <-] Hne Ha. split; [done|]. destruct (Ha r) as (H1 & H2 & H3). apply move_table; rewrite ?H1; auto.
  intros E. apply admission_target in Ht as [_ Ht]. by apply Hne, Ht.
Qed.
Lemma step_move a o r' a' : admission_result_of a o = inr (r', a') ->
  a' = am_put a (op_target o) r' /\ admission_move (am_m a) (dict_find (am_records a) (op_target o)) r'.
Proof.
  destruct o; cbn [admission_result_of op_target]; intros E; try (by apply transit_move in E).
  - unfold apply_node, stored in E. destruct (dict_find _ id) as [old|] eqn:Ed; [case_bool_decide; [|done]|]; injection E as <- <-;
      (split; [done|]; by apply move_apply).
  - unfold endorse, stored in E. destruct (match vk with Some _ => _ | None => _ end) as [[]|]; [|done..].
    destruct (dict_find _ id) as [r|]; [|done]. case_bool_decide; [|done]. cbn [negb] in E. case_bool_decide; [done|]. injection E as <- <-.
    split; [done|]. by apply move_endorse.
  - unfold evict, stored in E. destruct (dict_find _ id) as [r|]; [|done]. case_bool_decide as Hs; [|done]. injection E as <- <-.
    split; [done|]. rewrite !elem_of_cons, elem_of_nil in Hs. apply move_table; cbn [ar_update ar_state ar_endorsements ar_required_endorsements]; [|intros Ea; rewrite Ea in Hs; by destruct Hs as [?|[?|?]]|done..].
    destruct Hs as [-> |[-> |[]]]; unfold VALID_ADMISSION_TRANSITIONS; rewrite !elem_of_cons; tauto.
Qed.
Lemma move_sound m old r' : 1 <= m -> admission_move m old r' -> (forall r, old = Some r -> record_sound m r) -> record_sound m r'.
Proof.
  intros Hm Hmv Hold. destruct Hmv as [r' old Ho Ha He Hq|r v Ha Hv|r r' Ht Hna He Hr].
  - split; [done|]. rewrite He. split; [constructor|]. rewrite bool_decide_eq_true_2 by done. cbn. lia.
  - destruct (Hold r eq_refl) as (Hq & Hnd & Hc). rewrite bool_decide_eq_true_2 in Hc by done. unfold record_sound, add_endorsement.
    cbn [ar_update ar_state ar_endorsements ar_required_endorsements]. split; [done|]. rewrite map_app, length_app. cbn [map length]. split.
    + apply NoDup_app. split; [done|]. split; [|apply NoDup_singleton]. intros x Hx Hx'%list_elem_of_singleton. by subst x.
    + rewrite Hq. destruct (Z.leb_spec m (Z.of_nat (length (ar_endorsements r) + 1))).
      * rewrite bool_decide_eq_false_2 by done. lia.
      * rewrite bool_decide_eq_true_2 by done. lia.
  - destruct (Hold r eq_refl) as (Hq & Hnd & Hc). rewrite bool_decide_eq_false_2 in Hc by done. unfold record_sound. rewrite He, Hr. split; [done|]. split; [done|].
    rewrite bool_decide_eq_false_2; [done|]. by apply admission_target in Ht as [? _].
Qed.
Lemma steps_sound ops a : 1 <= am_m a -> all_sound a -> am_m (fold_left admission_step ops a) = am_m a /\ all_sound (fold_left admission_step ops a).
Proof.
  revert a. induction ops as [|o ops IH]; intros a Hm Hs; [done|]. cbn [fold_left].
  assert (am_m (admission_step a o) = am_m a /\ all_sound (admission_step a o)) as [E Hs'].
  { unfold admission_step. destruct (admission_result_of a o) as [|[r' a']] eqn:Eo; [done|]. destruct (step_move a o r' a' Eo) as (-> & Hmv). split; [done|].
    intros id r. cbn [am_put am_records am_m]. rewrite dict_find_set. destruct (decide _) as [<-|]; [|apply Hs]. intros [= <-].
    eapply move_sound; [done|exact Hmv|]. intros r0. apply Hs. }
  rewrite <- E. apply IH; [by rewrite E|done].
Qed.

(** Admission is sound in every reachable manager: a node is past APPLYING
    only with exactly the required number of endorsements under distinct
    endorser hashes; and each further operation moves the record of its node
    along the table of transitions, adds an endorsement or, from nothing or
    EVICTED, starts a new application, and touches no other record. *)
Theorem admission_sound m n a0 ops : new_admission_manager m n = Ok a0 ->
  let a := fold_left admission_step ops a0 in
  (forall id r, dict_find (am_records a) id = Some r -> record_sound m r) /\
  forall o, match admission_result_of a o with
            | inl _ => admission_step a o = a
            | inr (r', _) => dict_find (am_records (admission_step a o)) (op_target o) = Some r' /\ admission_move m (dict_find (am_records a) (op_target o)) r' /\
                forall id, id <> op_target o -> dict_find (am_records (admission_step a o)) id = dict_find (am_records a) id
            end.
Proof.
  intros E. assert (1 <= am_m a0 /\ am_m a0 = m /\ am_records a0 = []) as (Hm & <- & H0).
  { unfold new_admission_manager in E. destruct (Z.ltb_spec m 1); [done|]. destruct (n <? m); [done|]. by injection E as <-. }
  cbn zeta. clear E. destruct (steps_sound ops a0 Hm) as [Em Hs]; [intros id r; by rewrite H0|]. split; [intros id r Hr; rewrite <- Em; by eapply Hs|].
  intros o. set (a := fold_left admission_step ops a0) in *.
  assert (admission_step a o = match admission_result_of a o with inr (_, a') => a' | inl _ => a end) as -> by done.
  destruct (admission_result_of a o) as [|[r' a']] eqn:Eo; [done|]. destruct (step_move _ o r' a' Eo) as (-> & Hmv).
  cbn [am_put am_records]. rewrite dict_find_set, decide_True by done. split; [done|]. split; [by rewrite <- Em|]. intros id Hne. by rewrite dict_find_set, decide_False.
Qed.

(** But the endorsements need not be anybody's: the hash of the endorser is
    not compared with the key that signed, the applicant of a vote not with
    the node it is counted for, and the key with no list of operators.  One
    key pair and one vote it ever signed, for whatever node, bring any
    applicant past the threshold. *)
Theorem one_key_admits m n a0 kp id vk_hash other now : new_admission_manager m n = Ok a0 -> signs_for pq profile (FromKeyPair kp) (kp_vk kp) ->
  exists vote, create_endorsement kp other now = Ok vote /\ forall hashes, NoDup hashes -> Z.of_nat (length hashes) = m ->
    let forged h := {| ev_endorser_vk_hash := h; ev_applicant_node_id := other; ev_signature := ev_signature vote; ev_timestamp := now; ev_endorser_label := [] |} in
    exists r, dict_find (am_records (fold_left admission_step (AApply id vk_hash now :: map (fun h => AEndorse id (forged h) (Some (kp_vk kp))) hashes) a0)) id = Some r /\
      ar_state r = ENDORSED.
Proof.
  intros E Hs. assert (1 <= m /\ am_m a0 = m /\ am_records a0 = []) as (Hm & Ha & H0).
  { unfold new_admission_manager in E. destruct (Z.ltb_spec m 1); [done|]. destruct (n <? m); [done|]. by injection E as <-. }
  destruct (Hs (endorsement_payload other (kp_vk kp))) as (sig & Esig & Hv). cbn [sign_with] in Esig. unfold create_endorsement. rewrite Esig. cbn [mbind result_bind].
  eexists. split; [reflexivity|]. cbn [ev_signature]. intros hashes Hnd Hlen. set (forged (h : pystr) := {| ev_endorser_vk_hash := h; ev_applicant_node_id := other; ev_signature := sig; ev_timestamp := now; ev_endorser_label := [] |}).
  cbn [fold_left]. unfold admission_step at 2. cbn [admission_result_of]. unfold apply_node, stored. rewrite H0. cbn [dict_find]. set (r0 := {| ar_node_id := id; ar_required_endorsements := _ |}).
  assert (forall hs a r, dict_find (am_records a) id = Some r -> ar_state r = APPLYING -> ar_required_endorsements r = m ->
    NoDup (map ev_endorser_vk_hash (ar_endorsements r) ++ hs) -> Z.of_nat (length (ar_endorsements r)) + Z.of_nat (length hs) = m -> hs <> [] ->
    exists r', dict_find (am_records (fold_left admission_step (map (fun h => AEndorse id (forged h) (Some (kp_vk kp))) hs) a)) id = Some r' /\ ar_state r' = ENDORSED) as Hg.
  { clear -Hv. induction hs as [|h hs IH]; intros a r Hd Hst Hq Hn Hl Hne; [done|]. cbn [map fold_left].
    assert (admission_step a (AEndorse id (forged h) (Some (kp_vk kp))) = am_put a id (add_endorsement r (forged h))) as ->.
    { unfold admission_step. cbn [admission_result_of]. unfold endorse, verify_endorsement. cbn [forged ev_applicant_node_id ev_signature ev_endorser_vk_hash]. rewrite Hv, Hd.
      rewrite bool_decide_eq_true_2 by done. cbn [negb]. rewrite bool_decide_eq_false_2; [done|]. apply NoDup_app in Hn as (_ & Hn & _). intros Hin. apply (Hn h Hin). left. }
    assert (dict_find (am_records (am_put a id (add_endorsement r (forged h)))) id = Some (add_endorsement r (forged h))) as Hd' by (cbn [am_put am_records]; by rewrite dict_find_set, decide_True).
    unfold add_endorsement in *. rewrite Hq, Hst in *. cbn [length] in Hl. destruct (Z.leb_spec m (Z.of_nat (length (ar_endorsements r ++ [forged h])))) as [Hle|Hle]; rewrite length_app in Hle; cbn [length] in Hle.
    - destruct hs; cbn [length] in Hl; [|lia]. cbn [map fold_left]. eexists. split; [exact Hd'|done].
    - eapply IH; [exact Hd'|done|done| | |destruct hs; [cbn [length] in Hl; lia|done]]; cbn [ar_update ar_endorsements].
      + rewrite map_app. cbn [map]. by rewrite <- app_assoc.
      + rewrite length_app. cbn [length]. lia. }
  apply (Hg hashes (am_put a0 id r0) r0); try done; [cbn [am_put am_records]; by rewrite dict_find_set, decide_True|by intros ->; cbn in Hlen; lia].
Qed.
End Endorsements.

(** * Witnesses and examples *)
Definition manager_2_3 : NodeAdmissionManager := {| am_m := 2; am_n := 3; am_records := [] |}.
Definition vote_of (h : string) : EndorsementVote :=
  {| ev_endorser_vk_hash := lit h; ev_applicant_node_id := lit "n"; ev_signature := []; ev_timestamp := 0; ev_endorser_label := [] |}.
Definition admission_demo : list admission_op :=
  [AApply (lit "n") (lit "vk") 0; AEndorse (lit "n") (vote_of "a") None; AEndorse (lit "n") (vote_of "a") None; AEndorse (lit "n") (vote_of "b") None; AAdmit (lit "n") 0; AActivate (lit "n") 0].
Lemma admission_sound_witness : exists r, dict_find (am_records (fold_left (admission_step toy_pq demo_profile) admission_demo manager_2_3)) (lit "n") = Some r /\
  ar_state r = ACTIVE /\ record_sound 2 r.
Proof.
  destruct (admission_sound toy_pq demo_profile 2 3 manager_2_3 admission_demo eq_refl) as [Hs _]. eexists. split; [vm_compute; reflexivity|]. split; [reflexivity|].
  apply (Hs (lit "n")). vm_compute. reflexivity.
Defined.
Lemma one_key_admits_witness : exists vote : EndorsementVote, create_endorsement toy_pq demo_profile (demo_keypair (lit "mallory") 3) (lit "other") 0 = Ok vote.
Proof.
  destruct (one_key_admits toy_pq demo_profile 2 3 manager_2_3 (demo_keypair (lit "mallory") 3) (lit "n") (lit "vk") (lit "other") 0) as (vote & E & _);
    [reflexivity|apply dsa_pair_signs_keypair; [done|apply demo_dsa_pair]|by exists vote].
Defined.
(** [activate] and [reactivate] differ in what they assign only: a suspended
    node is activated and keeps the reason of its suspension, and an admitted
    one reactivated, without an activation time. *)
Example suspended_node_activated : exists r,
  dict_find (am_records (fold_left (admission_step toy_pq demo_profile) (admission_demo ++ [ASuspend (lit "n") (lit "audit") 7; AActivate (lit "n") 8]) manager_2_3)) (lit "n") = Some r /\
  ar_state r = ACTIVE /\ ar_rejection_reason r = lit "audit".
Proof. eexists. split; [vm_compute; reflexivity|]. by split. Qed.
(** Eviction is not permanent: an evicted node applies again. *)
Example evicted_node_applies : exists r,
  dict_find (am_records (fold_left (admission_step toy_pq demo_profile) (admission_demo ++ [AEvict (lit "n") (lit "bad"); AApply (lit "n") (lit "vk2") 9]) manager_2_3)) (lit "n") = Some r /\
  ar_state r = APPLYING.
Proof. eexists. split; [vm_compute; reflexivity|]. done. Qed.
