(* ===== verification/Staking.v ===== *)
(** Stake, reputation and earnings of a commitment node, and the endowment:
    the account side of [CommitmentNode], [StakeEscrow] and [StorageEndowment]
    of src/src/ltp/commitment.py.  Amounts are doubles; [now] is the time after
    [now = now or time.time()].  An offense history is passed in, because the
    eviction registry shares it with the nodes (Custody.v). *)

From S2P Require Import Prelude Float64 Primitives.

(** * Constants *)
Definition MIN_STAKE_LTP : float64 := 0x408F400000000000.
Definition STAKE_LOCKUP_SECONDS : float64 := 0x415DA9C000000000.
Definition CORRELATION_PENALTY_MAX : float64 := 0x4024000000000000.
Definition CORRELATION_PENALTY_SCALE : float64 := 0x4014000000000000.
Definition REPUTATION_DECAY_RATE : float64 := 0x3FEE666666666666.
Definition REPUTATION_DECAY_FLOOR : float64 := 0x3F847AE147AE147B.
Definition STRIKE_THRESHOLD : Z := 3.
Definition WITHHOLDING_SCHEDULE : list (float64 * float64) :=
  [(0x415DA9C000000000, 0x3FE8000000000000); (0x416DA9C000000000, 0x3FE0000000000000); (0x41763F5000000000, 0x3FD0000000000000)].
Definition ten : float64 := 0x4024000000000000.

(** * Accounts *)
Record StakeEscrow : Type := {
  es_node_id : pystr;
  es_amount : float64;
  es_reason : pystr;
  es_created_at : float64;
  es_finalized : bool
}.
Record Offense : Type := { of_type : pystr; of_timestamp : float64; of_weight : float64 }.
(** The attributes of a node beside its shards; [na_history] refers to the
    list of its offenses. *)
Record NodeAccount : Type := {
  na_strikes : Z;
  na_audit_passes : Z;
  na_stake : float64;
  na_stake_locked_until : float64;
  na_pending_slashes : list StakeEscrow;
  na_history : nat;
  na_reputation_score : float64;
  na_registered_at : float64;
  na_evicted_at : float64;
  na_eviction_count : Z;
  na_withheld_earnings : float64;
  na_total_earnings : float64
}.
Definition new_account (history : nat) : NodeAccount :=
  {| na_strikes := 0; na_audit_passes := 0; na_stake := 0; na_stake_locked_until := 0; na_pending_slashes := []; na_history := history;
     na_reputation_score := f64_one; na_registered_at := 0; na_evicted_at := 0; na_eviction_count := 0; na_withheld_earnings := 0; na_total_earnings := 0 |}.
Definition with_stake (a : NodeAccount) (stake locked : float64) (pending : list StakeEscrow) : NodeAccount :=
  {| na_strikes := na_strikes a; na_audit_passes := na_audit_passes a; na_stake := stake; na_stake_locked_until := locked; na_pending_slashes := pending;
     na_history := na_history a; na_reputation_score := na_reputation_score a; na_registered_at := na_registered_at a; na_evicted_at := na_evicted_at a;
     na_eviction_count := na_eviction_count a; na_withheld_earnings := na_withheld_earnings a; na_total_earnings := na_total_earnings a |}.
Definition with_strikes (a : NodeAccount) (strikes passes : Z) : NodeAccount :=
  {| na_strikes := strikes; na_audit_passes := passes; na_stake := na_stake a; na_stake_locked_until := na_stake_locked_until a;
     na_pending_slashes := na_pending_slashes a; na_history := na_history a; na_reputation_score := na_reputation_score a;
     na_registered_at := na_registered_at a; na_evicted_at := na_evicted_at a; na_eviction_count := na_eviction_count a;
     na_withheld_earnings := na_withheld_earnings a; na_total_earnings := na_total_earnings a |}.
Definition with_record (a : NodeAccount) (history : nat) (reputation registered evicted_at : float64) (count : Z) (withheld total : float64) : NodeAccount :=
  {| na_strikes := na_strikes a; na_audit_passes := na_audit_passes a; na_stake := na_stake a; na_stake_locked_until := na_stake_locked_until a;
     na_pending_slashes := na_pending_slashes a; na_history := history; na_reputation_score := reputation; na_registered_at := registered;
     na_evicted_at := evicted_at; na_eviction_count := count; na_withheld_earnings := withheld; na_total_earnings := total |}.

Definition deposit_stake (a : NodeAccount) (amount now : float64) : bool * NodeAccount :=
  if f64_lt amount MIN_STAKE_LTP then (false, a)
  else (true, with_stake a (f64_add (na_stake a) amount) (f64_add now STAKE_LOCKUP_SECONDS) (na_pending_slashes a)).

Definition open_escrow (e : StakeEscrow) : bool := negb (es_finalized e).
(** [sum] of floats: its algorithm depends on the Python version (3.12 sums
    with compensation), so it is an argument; nothing sums to 0. *)
Definition available_stake (fsum : list float64 -> float64) (a : NodeAccount) : float64 :=
  let escrowed := match List.filter open_escrow (na_pending_slashes a) with [] => 0 | es => fsum (map es_amount es) end in
  f64_max 0 (f64_sub (na_stake a) escrowed).
Definition can_withdraw (a : NodeAccount) (now : float64) : bool :=
  if f64_lt now (na_stake_locked_until a) then false else negb (existsb open_escrow (na_pending_slashes a)).
Definition withdraw_stake (fsum : list float64 -> float64) (a : NodeAccount) (amount now : float64) : float64 * NodeAccount :=
  if negb (can_withdraw a now) then (0, a)
  else
    let actual := f64_min amount (available_stake fsum a) in
    (actual, with_stake a (f64_sub (na_stake a) actual) (na_stake_locked_until a) (na_pending_slashes a)).
Definition create_pending_slash (a : NodeAccount) (node_id : pystr) (amount : float64) (reason : pystr) (now : float64) : StakeEscrow * NodeAccount :=
  let escrow := {| es_node_id := node_id; es_amount := f64_min amount (na_stake a); es_reason := reason; es_created_at := now; es_finalized := false |} in
  (escrow, with_stake a (na_stake a) (na_stake_locked_until a) (na_pending_slashes a ++ [escrow])).

(** The loop of [finalize_pending_slashes]: stake, total and the escrows. *)
Definition close_escrow (e : StakeEscrow) : StakeEscrow :=
  {| es_node_id := es_node_id e; es_amount := es_amount e; es_reason := es_reason e; es_created_at := es_created_at e; es_finalized := true |}.
Definition finalize_one (st : float64 * float64) (e : StakeEscrow) : float64 * float64 :=
  let '(stake, total_slashed) := st in
  if es_finalized e then (stake, total_slashed)
  else let actual := f64_min (es_amount e) stake in (f64_sub stake actual, f64_add total_slashed actual).
Definition finalize_pending_slashes (a : NodeAccount) : float64 * NodeAccount :=
  let '(stake, total_slashed) := fold_left finalize_one (na_pending_slashes a) (na_stake a, 0) in
  (total_slashed, with_stake a stake (na_stake_locked_until a) (map close_escrow (na_pending_slashes a))).

(** * Reputation *)
Section Reputation.
(** [REPUTATION_DECAY_RATE ** n], the platform's power function. *)
Context (decay_power : Z -> float64).

Definition add_penalty (count : nat) (penalty : float64) (io : nat * Offense) : float64 :=
  let age_factor := f64_max REPUTATION_DECAY_FLOOR (decay_power (Z.of_nat count - 1 - Z.of_nat io.1)) in
  f64_add penalty (f64_mul (of_weight io.2) age_factor).
(** The score of a history; the division by 10.0 cannot raise. *)
Definition reputation_of (history : list Offense) : float64 :=
  match history with
  | [] => f64_one
  | _ =>
      let penalty := fold_left (add_penalty (length history)) (zip (seq 0 (length history)) history) 0 in
      f64_max 0 (f64_sub f64_one (f64_min f64_one match f64_div penalty ten with Ok q => q | Err _ => penalty end))
  end.
Definition set_reputation (a : NodeAccount) (score : float64) : NodeAccount :=
  with_record a (na_history a) score (na_registered_at a) (na_evicted_at a) (na_eviction_count a) (na_withheld_earnings a) (na_total_earnings a).
Definition record_offense (a : NodeAccount) (history : list Offense) (offense_type : pystr) (weight now : float64) : list Offense * NodeAccount :=
  let history := history ++ [{| of_type := offense_type; of_timestamp := now; of_weight := weight |}] in
  (history, set_reputation a (reputation_of history)).
End Reputation.

(** * Earnings *)
Fixpoint rate_at (age : float64) (schedule : list (float64 * float64)) : float64 :=
  match schedule with
  | [] => 0
  | (threshold, rate) :: schedule => if f64_lt age threshold then rate else rate_at age schedule
  end.
Definition withholding_rate (a : NodeAccount) (now : float64) : float64 := rate_at (f64_sub now (na_registered_at a)) WITHHOLDING_SCHEDULE.
Definition with_earnings (a : NodeAccount) (withheld total : float64) : NodeAccount :=
  with_record a (na_history a) (na_reputation_score a) (na_registered_at a) (na_evicted_at a) (na_eviction_count a) withheld total.
Definition accrue_earnings (a : NodeAccount) (gross_amount now : float64) : float64 * NodeAccount :=
  let withheld := f64_mul gross_amount (withholding_rate a now) in
  (f64_sub gross_amount withheld, with_earnings a (f64_add (na_withheld_earnings a) withheld) (f64_add (na_total_earnings a) gross_amount)).
Definition release_withheld (a : NodeAccount) (fraction : float64) : float64 * NodeAccount :=
  let released := f64_mul (na_withheld_earnings a) (f64_min f64_one (f64_max 0 fraction)) in
  (released, with_earnings a (f64_sub (na_withheld_earnings a) released) (na_total_earnings a)).

(** * The endowment *)
Record Burn : Type := { bu_amount : float64; bu_reason : pystr; bu_node_id : pystr; bu_timestamp : float64 }.
Record StorageEndowment : Type := { en_balance : float64; en_total_burned : float64; en_burn_history : list Burn }.
Definition new_endowment : StorageEndowment := {| en_balance := 0; en_total_burned := 0; en_burn_history := [] |}.
Definition burn (e : StorageEndowment) (amount : float64) (reason node_id : pystr) (now : float64) : StorageEndowment :=
  {| en_balance := f64_add (en_balance e) amount; en_total_burned := f64_add (en_total_burned e) amount;
     en_burn_history := en_burn_history e ++ [{| bu_amount := amount; bu_reason := reason; bu_node_id := node_id; bu_timestamp := now |}] |}.
Definition spend (e : StorageEndowment) (amount : float64) : float64 * StorageEndowment :=
  let actual := f64_min amount (en_balance e) in
  (actual, {| en_balance := f64_sub (en_balance e) actual; en_total_burned := en_total_burned e; en_burn_history := en_burn_history e |}).

(** * Theorems *)
(** The operations of an account, other than finalizing its slashes. *)
Inductive account_op : Type :=
| ODeposit (amount now : float64) | OWithdraw (amount now : float64) | OSlash (node_id : pystr) (amount : float64) (reason : pystr) (now : float64)
| OEarn (gross now : float64) | ORelease (fraction : float64) | OOffense (history : list Offense) (type : pystr) (weight now : float64).
Definition account_step (fsum : list float64 -> float64) (decay_power : Z -> float64) (a : NodeAccount) (o : account_op) : float64 * NodeAccount :=
  match o with
  | ODeposit x now => (0, (deposit_stake a x now).2)
  | OWithdraw x now => withdraw_stake fsum a x now
  | OSlash id x r now => (0, (create_pending_slash a id x r now).2)
  | OEarn x now => (0, (accrue_earnings a x now).2)
  | ORelease f => (0, (release_withheld a f).2)
  | OOffense h t w now => (0, (record_offense decay_power a h t w now).2)
  end.
(** What a run pays out, and the account after it. *)
Definition account_run (fsum : list float64 -> float64) (decay_power : Z -> float64) (a : NodeAccount) (ops : list account_op) : list float64 * NodeAccount :=
  fold_left (fun st o => let '(paid, a) := st in let '(x, a') := account_step fsum decay_power a o in (paid ++ [x], a')) ops ([], a).
Definition deposits (ops : list account_op) : list float64 :=
  omap (fun o => match o with ODeposit x _ => if f64_lt x MIN_STAKE_LTP then None else Some x | _ => None end) ops.
Definition escrowed (a : NodeAccount) : bool := existsb open_escrow (na_pending_slashes a).

Lemma account_step_escrowed fsum dp a o : escrowed a = true ->
  let '(x, a') := account_step fsum dp a o in x = 0 /\ escrowed a' = true /\ na_stake a' = fold_left f64_add (deposits [o]) (na_stake a) /\
    na_pending_slashes a `prefix_of` na_pending_slashes a'.
Proof.
  intros He. destruct o; cbn [account_step deposits omap list_omap fold_left].
  - unfold deposit_stake. by destruct (f64_lt amount _).
  - unfold withdraw_stake, can_withdraw. fold (escrowed a). rewrite He. by destruct (f64_lt now _).
  - cbn [create_pending_slash snd with_stake na_stake na_pending_slashes]. unfold escrowed. cbn [with_stake na_pending_slashes]. rewrite existsb_app. fold (escrowed a). rewrite He.
    split_and!; try done. by apply prefix_app_r.
  - done.
  - done.
  - done.
Qed.
Lemma deposits_app xs ys : deposits (xs ++ ys) = deposits xs ++ deposits ys.
Proof. apply omap_app. Qed.

(** A pending slash holds the stake: from the moment it is created, whatever
    is deposited, withdrawn, earned, released or recorded, every withdrawal
    pays nothing, the stake is what it was plus the deposits made, in their
    order, and no escrow is lost; finalizing then takes the escrowed amounts
    in order, each capped by what is left, and closes every escrow. *)
Theorem escrow_holds_stake fsum dp a0 id amount reason now ops :
  let a := (create_pending_slash a0 id amount reason now).2 in
  let '(paid, a') := account_run fsum dp a ops in
  Forall (eq 0) paid /\ na_stake a' = fold_left f64_add (deposits ops) (na_stake a0) /\
  na_pending_slashes a `prefix_of` na_pending_slashes a' /\
  (forall now', can_withdraw a' now' = false) /\
  let '(total, a'') := finalize_pending_slashes a' in
  (na_stake a'', total) = fold_left (fun st e => (f64_sub st.1 (f64_min (es_amount e) st.1), f64_add st.2 (f64_min (es_amount e) st.1)))
    (List.filter open_escrow (na_pending_slashes a')) (na_stake a', 0) /\
  escrowed a'' = false.
Proof.
  cbn zeta. set (a := (create_pending_slash a0 id amount reason now).2).
  assert (escrowed a = true) as He by (unfold escrowed, a; cbn; rewrite existsb_app; cbn; by rewrite orb_true_r).
  assert (na_stake a0 = na_stake a) as -> by done. clearbody a.
  assert (forall ops paid a, escrowed a = true -> Forall (eq 0) paid -> let '(paid', a') := fold_left (fun st o => let '(paid, a) := st in
      let '(x, a') := account_step fsum dp a o in (paid ++ [x], a')) ops (paid, a) in
    Forall (eq 0) paid' /\ escrowed a' = true /\ na_stake a' = fold_left f64_add (deposits ops) (na_stake a) /\ na_pending_slashes a `prefix_of` na_pending_slashes a') as Hrun.
  { clear. induction ops as [|o ops IH]; intros paid a He Hp; [by split_and!|]. cbn [fold_left]. pose proof (account_step_escrowed fsum dp a o He) as Hs.
    destruct (account_step fsum dp a o) as [x a1]. destruct Hs as (-> & He1 & Hst & Hpre). specialize (IH (paid ++ [0]) a1 He1). rewrite Forall_app in IH.
    destruct (fold_left _ ops _) as [paid' a']. destruct IH as (H1 & H2 & H3 & H4); [by repeat constructor|]. split_and!; try done.
    - rewrite H3, Hst. change (o :: ops) with ([o] ++ ops). by rewrite deposits_app, fold_left_app.
    - by etrans. }
  unfold account_run. specialize (Hrun ops [] a He (Forall_nil_2 _)). destruct (fold_left _ ops _) as [paid a']. destruct Hrun as (H1 & H2 & H3 & H4).
  split_and!; try done.
  - intros now'. unfold can_withdraw. fold (escrowed a'). rewrite H2. by destruct (f64_lt _ _).
  - unfold finalize_pending_slashes. generalize (na_stake a') (0 : float64). unfold escrowed.
    assert (forall es s t, fold_left finalize_one es (s, t) = fold_left (fun st e => (f64_sub st.1 (f64_min (es_amount e) st.1), f64_add st.2 (f64_min (es_amount e) st.1)))
      (List.filter open_escrow es) (s, t)) as Hf.
    { induction es as [|e es IH]; intros s t; [done|]. cbn [fold_left List.filter finalize_one]. unfold open_escrow at 1. destruct (es_finalized e); cbn [negb]; [apply IH|]. cbn [fold_left fst snd]. apply IH. }
    intros s t. rewrite Hf. destruct (fold_left _ (List.filter _ _) (s, t)) as [s' t']. cbn [with_stake na_stake na_pending_slashes]. split; [done|].
    generalize (na_pending_slashes a'). clear. induction l as [|e es IH]; [done|]. cbn [map existsb]. by rewrite IH.
Qed.

(** Withholding follows the schedule by age, and nothing is withheld after
    nine months; the release of a fraction is clamped to what is withheld. *)
Theorem withholding_schedule a gross now :
  let age := f64_sub now (na_registered_at a) in
  let '(net, a') := accrue_earnings a gross now in
  let withheld := f64_mul gross (withholding_rate a now) in
  net = f64_sub gross withheld /\ na_withheld_earnings a' = f64_add (na_withheld_earnings a) withheld /\ na_stake a' = na_stake a /\
  withholding_rate a now = (if f64_lt age 0x415DA9C000000000 then 0x3FE8000000000000 else if f64_lt age 0x416DA9C000000000 then 0x3FE0000000000000
    else if f64_lt age 0x41763F5000000000 then 0x3FD0000000000000 else 0) /\
  forall fraction, let '(released, a'') := release_withheld a' fraction in
    na_withheld_earnings a'' = f64_sub (na_withheld_earnings a') released /\
    (f64_ge 0 fraction = true -> released = f64_mul (na_withheld_earnings a') 0) /\
    (f64_ge fraction f64_one = true -> released = f64_mul (na_withheld_earnings a') f64_one).
Proof.
  cbn zeta. unfold accrue_earnings. cbn [with_earnings with_record na_withheld_earnings na_stake]. split_and!; try done. intros fraction. unfold release_withheld.
  cbn [with_earnings with_record na_withheld_earnings]. split_and!; [done|..].
  - unfold f64_max, f64_ge, f64_gt, f64_compare. intros H. assert (f64_gt fraction 0 = false) as E.
    { unfold f64_gt, f64_compare. destruct (SpecFloat.SFcompare (f64_of_bits 0) (f64_of_bits fraction)) as [[]|] eqn:E0; try done.
      all: destruct (f64_of_bits fraction) as [[]|[]| |[] m e]; cbn in E0 |- *; try done. }
    unfold f64_gt, f64_compare in E. rewrite E. done.
  - unfold f64_max, f64_min. intros H. assert (f64_gt fraction 0 = true) as ->.
    { unfold f64_ge, f64_gt, f64_compare in *. destruct (f64_of_bits fraction) as [[]|[]| |[] m e]; try done. }
    assert (f64_lt fraction f64_one = false) as ->; [|done]. unfold f64_ge, f64_lt, f64_compare in *. by destruct (SpecFloat.SFcompare _ _) as [[]|].
Qed.

(** * Examples *)
Definition staked (amount : float64) : NodeAccount := (deposit_stake (new_account 0) amount 0).2.
(** A negative withdrawal adds to the stake. *)
Example negative_withdrawal fsum :
  let '(paid, a) := withdraw_stake fsum (staked MIN_STAKE_LTP) 0xC08F400000000000 STAKE_LOCKUP_SECONDS in
  paid = 0xC08F400000000000 /\ na_stake a = 0x409F400000000000.
Proof. vm_compute. by split. Qed.
(** A deposit that is not a number is above the minimum, and leaves a stake
    that is not a number. *)
Example nan_deposit : (deposit_stake (new_account 0) f64_nan 0).1 = true /\ na_stake (staked f64_nan) = f64_nan.
Proof. split; vm_compute; reflexivity. Qed.
(** Negative spending fills the endowment. *)
Example negative_spending : en_balance (spend new_endowment 0xC08F400000000000).2 = MIN_STAKE_LTP.
Proof. vm_compute. reflexivity. Qed.
