(* ===== verification/Custody.v ===== *)
(** Custody of shards: audits, eviction with repair, registration with stake,
    expiry and regional failures of [CommitmentNetwork]
    (src/src/ltp/commitment.py), over the storage model of Network.v and the
    accounts of Staking.v.  A node is its position, which indexes its shards
    and its account; the lists of offenses are references, since the eviction
    registry shares them with later nodes.  Nonces, response times and clock
    readings are arguments; sets are visited in the order of [elements]. *)

From S2P Require Import Prelude Float64 Sha3 Hashing Json Economics Enforcement Primitives Encoding MerkleTree MerkleLog Commitment Network AuditLog Admission Staking.

Record EvictionRecord : Type := {
  vr_evicted_at : float64;
  vr_eviction_count : Z;
  vr_offense_history : nat;
  vr_final_reputation : float64
}.
Record Custody : Type := {
  cu_net : CommitmentNetwork;
  cu_accounts : list NodeAccount;
  cu_histories : list (list Offense);
  cu_log : CommitmentLog.clog;
  cu_registry : list (pystr * EvictionRecord);
  cu_audit_epoch : Z;
  cu_audit_seed : bytes;
  cu_endowment : StorageEndowment;
  cu_logger : option ComplianceAuditLogger
}.
Definition cu_update (c : Custody) (net : CommitmentNetwork) (accounts : list NodeAccount) (histories : list (list Offense)) : Custody :=
  {| cu_net := net; cu_accounts := accounts; cu_histories := histories; cu_log := cu_log c; cu_registry := cu_registry c;
     cu_audit_epoch := cu_audit_epoch c; cu_audit_seed := cu_audit_seed c; cu_endowment := cu_endowment c; cu_logger := cu_logger c |}.
Definition with_net (c : Custody) (net : CommitmentNetwork) : Custody := cu_update c net (cu_accounts c) (cu_histories c).
Definition account_at (c : Custody) (p : nat) : NodeAccount := default (new_account 0) (cu_accounts c !! p).
Definition put_account (c : Custody) (p : nat) (a : NodeAccount) : Custody := cu_update c (cu_net c) (<[p := a]> (cu_accounts c)) (cu_histories c).
Definition history_of (c : Custody) (a : NodeAccount) : list Offense := default [] (cu_histories c !! na_history a).
Definition put_history (c : Custody) (h : nat) (offenses : list Offense) : Custody := cu_update c (cu_net c) (cu_accounts c) (<[h := offenses]> (cu_histories c)).
Definition set_evicted (nd : CommitmentNode) (b : bool) : CommitmentNode :=
  {| node_id := node_id nd; region := region nd; shards := shards nd; evicted := b; shard_ttl := shard_ttl nd |}.
Definition set_status (net : CommitmentNetwork) (p : nat) (b : bool) : CommitmentNetwork :=
  with_nodes net (alter (fun nd => set_evicted nd b) p (nodes net)) (node_shard_index net).
Definition positions (net : CommitmentNetwork) : list nat := seq 0 (length (nodes net)).
Definition in_service (net : CommitmentNetwork) (p : nat) : bool := negb (evicted (node_at net p)).
Definition fetch_at (net : CommitmentNetwork) (p : nat) (key : shard_key) : option bytes := fetch_shard (node_at net p) key.1 key.2.
Definition active_node_count (net : CommitmentNetwork) : nat := length (List.filter (in_service net) (positions net)).

Section Custody.
Context (ihash : bytes -> bytes) `{CanonicalHash} (decay_power : Z -> float64).

(** * Registration *)
Definition audit_custody (c : Custody) (e : AuditEvent) : Custody :=
  {| cu_net := cu_net c; cu_accounts := cu_accounts c; cu_histories := cu_histories c; cu_log := cu_log c; cu_registry := cu_registry c;
     cu_audit_epoch := cu_audit_epoch c; cu_audit_seed := cu_audit_seed c; cu_endowment := cu_endowment c;
     cu_logger := (fun l => (log_event l e).2) <$> cu_logger c |}.
Definition custody_add_node (c : Custody) (id reg : pystr) (event_time : float64) : Custody :=
  audit_custody (cu_update c (add_node (cu_net c) id reg) (cu_accounts c ++ [new_account (length (cu_histories c))]) (cu_histories c ++ [[]]))
    (new_event NODE_REGISTERED id (lit "node_registered") event_time 0 None (Some [(lit "region", JStr reg)])).
Definition add_existing_node (c : Custody) (nd : CommitmentNode) (a : NodeAccount) : Custody :=
  let net := cu_net c in
  cu_update c (invalidate_placement_cache (with_nodes net (nodes net ++ [nd]) (<[node_id nd := ∅]> (node_shard_index net)))) (cu_accounts c ++ [a]) (cu_histories c).

Definition EVICTION_COOLDOWN_SECONDS : float64 := 0x4143C68000000000.
Definition admission_ok (admission : option NodeAdmissionManager) (id : pystr) : result unit :=
  match admission with
  | None => Ok tt
  | Some m =>
      match get m id with
      | None => Err (ValueError "Node has no admission record")
      | Some r => if bool_decide (ar_state r ∈ [Admission.ADMITTED; Admission.ACTIVE]) then Ok tt
                  else Err (ValueError "admission status requires 'admitted' or 'active'")
      end
  end.
Definition cooldown_ok (c : Custody) (id : pystr) (now : float64) : result unit :=
  match dict_find (cu_registry c) id with
  | Some r => if f64_lt now (f64_add (vr_evicted_at r) EVICTION_COOLDOWN_SECONDS) then Err (ValueError "Node is in eviction cooldown") else Ok tt
  | None => Ok tt
  end.
(** The account of a newly registered node, and the histories with its own. *)
Definition registered_account (c : Custody) (id : pystr) (now : float64) : NodeAccount * list (list Offense) :=
  match dict_find (cu_registry c) id with
  | Some r =>
      let history := default [] (cu_histories c !! vr_offense_history r) in
      (with_record (new_account 0) (vr_offense_history r) (reputation_of decay_power history) now 0 (vr_eviction_count r) 0 0, cu_histories c)
  | None => (with_record (new_account 0) (length (cu_histories c)) f64_one now 0 0 0 0, cu_histories c ++ [[]])
  end.
Definition register_node (c : Custody) (id reg : pystr) (stake now : float64) (admission : option NodeAdmissionManager) : result (nat * Custody) :=
  _ ← admission_ok admission id;
  _ ← cooldown_ok c id now;
  if f64_lt stake MIN_STAKE_LTP then Err (ValueError "Stake below minimum")
  else
    let '(a, histories) := registered_account c id now in
    match deposit_stake a stake now with
    | (false, _) => Err (ValueError "Stake deposit failed")
    | (true, a) =>
        let net := cu_net c in
        Ok (length (nodes net), cu_update c (with_nodes net (nodes net ++ [new_node id reg]) (node_shard_index net)) (cu_accounts c ++ [a]) histories)
    end.

(** * Audits by challenge *)
Definition respond_to_audit (nd : CommitmentNode) (eid : pystr) (i : Z) (nonce : bytes) : option pystr :=
  if evicted nd then None else (fun ct => chash_str (ct ++ nonce)) <$> shards nd !! (eid, i).
(** The answer of the first other node that has one. *)
Fixpoint known_good_hash (net : CommitmentNetwork) (p : nat) (key : shard_key) (nonce : bytes) (others : list nat) : option pystr :=
  match others with
  | [] => None
  | q :: others =>
      if bool_decide (q = p) || evicted (node_at net q) then known_good_hash net p key nonce others
      else match respond_to_audit (node_at net q) key.1 key.2 nonce with
           | Some r => Some r
           | None => known_good_hash net p key nonce others
           end
  end.
Record Tally : Type := {
  ta_challenged : nat;
  ta_passed : Z;
  ta_failed : Z;
  ta_missing : Z;
  ta_suspicious_latency : Z;
  ta_response_times : list float64;
  ta_corrupt_shards : list shard_key
}.
Definition no_challenges : Tally :=
  {| ta_challenged := 0; ta_passed := 0; ta_failed := 0; ta_missing := 0; ta_suspicious_latency := 0; ta_response_times := []; ta_corrupt_shards := [] |}.
(** One challenge with its nonce and its response time. *)
Definition challenge (net : CommitmentNetwork) (p : nat) (key : shard_key) (tp : Tally * bool) (nonce_elapsed : bytes * float64) : Tally * bool :=
  let '(t, burst_pass) := tp in let '(nonce, elapsed) := nonce_elapsed in
  let add (passed failed missing : Z) (corrupt : list shard_key) (b : bool) :=
    ({| ta_challenged := S (ta_challenged t); ta_passed := ta_passed t + passed; ta_failed := ta_failed t + failed; ta_missing := ta_missing t + missing;
        ta_suspicious_latency := ta_suspicious_latency t; ta_response_times := ta_response_times t ++ [elapsed];
        ta_corrupt_shards := ta_corrupt_shards t ++ corrupt |}, b) in
  match respond_to_audit (node_at net p) key.1 key.2 nonce with
  | None => add 0 1 1 [key] false
  | Some response =>
      match known_good_hash net p key nonce (positions net) with
      | Some known_good => if bool_decide (response = known_good) then add 1 0 0 [] burst_pass else add 0 1 0 [key] false
      | None => add 1 0 0 [] burst_pass
      end
  end.
Definition last_items {A} (n : nat) (xs : list A) : list A := drop (length xs - n) xs.
Definition f64_maximum (xs : list float64) : float64 := match xs with [] => 0 | x :: xs => fold_left f64_max xs x end.
(** The burst of challenges of a shard; [draw] gives the nonce and the time of
    the n-th challenge of the audit. *)
Definition audit_shard (net : CommitmentNetwork) (p : nat) (burst : Z) (max_response_seconds : float64) (draw : nat -> bytes * float64)
    (t : Tally) (key : shard_key) : Tally :=
  let samples := map (fun k => draw (ta_challenged t + k)%nat) (seq 0 (Z.to_nat burst)) in
  let '(t, burst_pass) := fold_left (challenge net p key) samples (t, true) in
  if (1 <? burst) && burst_pass && negb (bool_decide (ta_response_times t = [])) &&
     f64_gt (f64_maximum (last_items (Z.to_nat burst) (ta_response_times t))) max_response_seconds
  then {| ta_challenged := ta_challenged t; ta_passed := ta_passed t; ta_failed := ta_failed t; ta_missing := ta_missing t;
          ta_suspicious_latency := ta_suspicious_latency t + 1; ta_response_times := ta_response_times t; ta_corrupt_shards := ta_corrupt_shards t |}
  else t.

(** The shards to audit: the reverse index, or a scan of the log when it has
    nothing on the node. *)
Definition scan_shard (p : nat) (eid : pystr) (st : list shard_key * CommitmentNetwork) (i : Z) : result (list shard_key * CommitmentNetwork) :=
  let '(found, net) := st in
  '(targets, net) ← placement ihash net eid i 2;
  Ok (if bool_decide (p ∈ targets) then found ++ [(eid, i)] else found, net).
Definition scan_record (log : CommitmentLog.clog) (p : nat) (st : list shard_key * CommitmentNetwork) (eid : pystr) : result (list shard_key * CommitmentNetwork) :=
  match CommitmentLog.fetch log eid with
  | None => Ok st
  | Some record =>
      match default (PInt 8) (dict_find (encoding_params record) (lit "n")) with
      | PInt n => foldM (scan_shard p eid) st (map Z.of_nat (seq 0 (Z.to_nat n)))
      | PStr _ => Err TypeError
      end
  end.
Definition shard_list (c : Custody) (p : nat) : result (list shard_key * CommitmentNetwork) :=
  let net := cu_net c in
  match elements (default ∅ (node_shard_index net !! node_id (node_at net p))) with
  | [] => foldM (scan_record (cu_log c) p) ([], net) (CommitmentLog.chain (cu_log c))
  | keys => Ok (keys, net)
  end.

Definition vdf_audit_schedule (c : Custody) (p : nat) (epoch : Z) : result Z :=
  e ← struct_pack 8 epoch;
  Ok (be_decode (take 8 (ihash (cu_audit_seed c ++ e ++ node_id (node_at (cu_net c) p))))).
Definition recent_offense (o : Offense) : bool := bool_decide (of_type o ∈ [lit "audit_failure"; lit "corruption"; lit "missing_shard"]).
Definition correlation_penalty (c : Custody) (p : nat) : result float64 :=
  let active := Z.max 1 (Z.of_nat (active_node_count (cu_net c))) in
  ratio ← int_truediv (Z.of_nat (length (List.filter recent_offense (history_of c (account_at c p))))) active;
  Ok (f64_min CORRELATION_PENALTY_MAX (f64_add f64_one (f64_mul CORRELATION_PENALTY_SCALE ratio))).
Definition f64_tenth : float64 := 0x3FB999999999999A.
(** What a failed audit costs: a strike, an escrow and an offense. *)
Definition punish (c : Custody) (p : nat) (now now' : float64) : result Custody :=
  let a := account_at c p in
  let a := with_strikes a (na_strikes a + 1) (na_audit_passes a) in
  penalty_mult ← correlation_penalty c p;
  let slash_amount := f64_mul (f64_mul f64_tenth (na_stake a)) penalty_mult in
  let '(_, a) := create_pending_slash a (node_id (node_at (cu_net c) p)) slash_amount (lit "audit_failure") now in
  let '(history, a) := record_offense decay_power a (history_of c a) (lit "audit_failure") penalty_mult now' in
  Ok (put_account (put_history c (na_history a) history) p a).
Definition reward_audit (c : Custody) (p : nat) : Custody :=
  let a := account_at c p in put_account c p (with_strikes a (Z.max 0 (na_strikes a - 1)) (na_audit_passes a + 1)).
(** [AuditResult] without the average latency. *)
Record AuditResult : Type := { re_node_id : pystr; re_tally : Tally; re_burst_size : Z; re_result : bool; re_strikes : Z }.
Definition audit_node (c : Custody) (p : nat) (burst : Z) (max_response_seconds : float64) (draw : nat -> bytes * float64) (now now' : float64)
    : result (AuditResult * Custody) :=
  let epoch := cu_audit_epoch c + 1 in
  let c := {| cu_net := cu_net c; cu_accounts := cu_accounts c; cu_histories := cu_histories c; cu_log := cu_log c; cu_registry := cu_registry c;
              cu_audit_epoch := epoch; cu_audit_seed := cu_audit_seed c; cu_endowment := cu_endowment c; cu_logger := cu_logger c |} in
  _ ← vdf_audit_schedule c p epoch;
  '(keys, net) ← shard_list c p;
  let c := with_net c net in
  let t := fold_left (audit_shard net p burst max_response_seconds draw) keys no_challenges in
  c ← (if (ta_challenged t =? 0)%nat then Ok c else if 0 <? ta_failed t then punish c p now now' else Ok (reward_audit c p));
  Ok ({| re_node_id := node_id (node_at net p); re_tally := t; re_burst_size := burst;
         re_result := (ta_challenged t =? 0)%nat || negb (0 <? ta_failed t); re_strikes := na_strikes (account_at c p) |}, c).
Definition audit_all_nodes (c : Custody) (burst : Z) (max_response_seconds : float64) (draw : nat -> nat -> bytes * float64) (clock : nat -> float64 * float64)
    : result (list AuditResult * Custody) :=
  foldM (fun st p =>
      let '(results, c) := st in
      if in_service (cu_net c) p then '(r, c) ← audit_node c p burst max_response_seconds (draw p) (clock p).1 (clock p).2; Ok (results ++ [r], c) else Ok (results, c))
    ([], c) (positions (cu_net c)).

(** * Eviction and repair *)
(** The first other node in service that lacks the shard. *)
Definition repair_target (net : CommitmentNetwork) (p : nat) (key : shard_key) : option nat :=
  List.find (fun t => negb (bool_decide (t = p)) && in_service net t && negb (bool_decide (is_Some (fetch_at net t key)))) (positions net).
(** The loop over the other nodes for one shard: the first replica found is
    copied to a target, if there is one. *)
Fixpoint repair_from (p : nat) (key : shard_key) (others : list nat) (net : CommitmentNetwork) : option CommitmentNetwork :=
  match others with
  | [] => None
  | q :: others =>
      if bool_decide (q = p) || evicted (node_at net q) then repair_from p key others net
      else match fetch_at net q key with
           | None => repair_from p key others net
           | Some replica =>
               match repair_target net p key with
               | Some t => Some (store_at key.1 key.2 replica net t)
               | None => repair_from p key others net
               end
           end
  end.
Definition repair_one (p : nat) (st : Z * Z * CommitmentNetwork) (key : shard_key) : Z * Z * CommitmentNetwork :=
  let '(repaired, lost, net) := st in
  match repair_from p key (positions net) net with
  | Some net => (repaired + 1, lost, net)
  | None => (repaired, lost + 1, net)
  end.
(** What the evicted node held: its shards or, of a node without any here, the
    reverse index. *)
Definition orphaned (net : CommitmentNetwork) (p : nat) : list shard_key :=
  match map fst (map_to_list (shards (node_at net p))) with
  | [] => elements (default ∅ (node_shard_index net !! node_id (node_at net p)))
  | keys => keys
  end.
Record EvictionResult : Type := {
  vi_evicted_node : pystr;
  vi_shards_affected : Z;
  vi_repaired : Z;
  vi_lost : Z;
  vi_stake_slashed : float64;
  vi_forfeited_earnings : float64;
  vi_eviction_count : Z
}.
Definition eviction_details (r : EvictionResult) : list (pystr * json) := [
  (lit "evicted_node", JStr (vi_evicted_node r)); (lit "shards_affected", JInt (vi_shards_affected r)); (lit "repaired", JInt (vi_repaired r));
  (lit "lost", JInt (vi_lost r)); (lit "stake_slashed", JFloat (vi_stake_slashed r)); (lit "forfeited_earnings", JFloat (vi_forfeited_earnings r));
  (lit "eviction_count", JInt (vi_eviction_count r))].
(** Slashes, forfeiture and the account after an eviction. *)
Definition forfeit (a : NodeAccount) (e : StorageEndowment) (id : pystr) (now : float64) : float64 * float64 * NodeAccount * StorageEndowment :=
  let a := with_record a (na_history a) (na_reputation_score a) (na_registered_at a) now (na_eviction_count a + 1) (na_withheld_earnings a) (na_total_earnings a) in
  let '(stake_slashed, a) := finalize_pending_slashes a in
  let e := if f64_gt stake_slashed 0 then burn e stake_slashed (lit "eviction_slash") id now else e in
  if f64_gt (na_withheld_earnings a) 0
  then (stake_slashed, na_withheld_earnings a, with_earnings a 0 (na_total_earnings a), burn e (na_withheld_earnings a) (lit "withheld_earnings_forfeiture") id now)
  else (stake_slashed, 0, a, e).
Definition evict_node (c : Custody) (p : nat) (now event_time : float64) : EvictionResult * Custody :=
  let id := node_id (node_at (cu_net c) p) in
  let net := invalidate_placement_cache (set_status (cu_net c) p true) in
  let '(stake_slashed, forfeited, a, endowment) := forfeit (account_at c p) (cu_endowment c) id now in
  let record := {| vr_evicted_at := now; vr_eviction_count := na_eviction_count a; vr_offense_history := length (cu_histories c);
                   vr_final_reputation := na_reputation_score a |} in
  let keys := orphaned net p in
  let '(repaired, lost, net) := fold_left (repair_one p) keys (0, 0, net) in
  let net := with_nodes net (nodes net) (delete id (node_shard_index net)) in
  let result := {| vi_evicted_node := id; vi_shards_affected := Z.of_nat (length keys); vi_repaired := repaired; vi_lost := lost;
                   vi_stake_slashed := stake_slashed; vi_forfeited_earnings := forfeited; vi_eviction_count := na_eviction_count a |} in
  let c' := {| cu_net := net; cu_accounts := <[p := a]> (cu_accounts c); cu_histories := cu_histories c ++ [history_of c a]; cu_log := cu_log c;
               cu_registry := dict_set (cu_registry c) id record; cu_audit_epoch := cu_audit_epoch c; cu_audit_seed := cu_audit_seed c;
               cu_endowment := endowment; cu_logger := cu_logger c |} in
  (result, audit_custody c' (new_event NODE_EVICTED (lit "system") (lit "node_evicted") event_time 0 (Some id) (Some (eviction_details result)))).
Definition auto_evict_if_needed (c : Custody) (p : nat) (strike_threshold : Z) (now event_time : float64) : option EvictionResult * Custody :=
  if evicted (node_at (cu_net c) p) || (na_strikes (account_at c p) <? strike_threshold) then (None, c)
  else let '(r, c) := evict_node c p now event_time in (Some r, c).

(** * Expiry across the network *)
Definition expire_node (current_epoch : Z) (st : nat * nat * gset pystr * CommitmentNetwork) (p : nat) : nat * nat * gset pystr * CommitmentNetwork :=
  let '(total_evicted, nodes_affected, entities_affected, net) := st in
  let nd := node_at net p in
  if evicted nd then st
  else
    let entities := list_to_set (map fst (expired_keys nd current_epoch)) : gset pystr in
    let '(n, nd) := evict_expired_shards nd current_epoch in
    ((total_evicted + n)%nat, (if (0 <? n)%nat then S nodes_affected else nodes_affected), entities_affected ∪ entities,
     with_nodes net (<[p := nd]> (nodes net)) (node_shard_index net)).
Definition network_evict_expired (net : CommitmentNetwork) (current_epoch : Z) : nat * nat * nat * CommitmentNetwork :=
  let '(total_evicted, nodes_affected, entities, net) := fold_left (expire_node current_epoch) (positions net) (0%nat, 0%nat, ∅, net) in
  (total_evicted, nodes_affected, base.size entities, net).
Definition renew_node (eid : pystr) (additional_epochs : Z) (st : Z * CommitmentNetwork) (p : nat) : Z * CommitmentNetwork :=
  let '(renewed, net) := st in
  let nd := node_at net p in
  if evicted nd then st
  else
    let keys := filter (fun key : shard_key => key.1 = eid) (map fst (map_to_list (shard_ttl nd))) in
    let '(n, nd) := fold_left (fun st key => let '(n, nd) := st in let '(ok, nd) := renew_shard_ttl nd key.1 key.2 additional_epochs in
                                 ((if ok : bool then n + 1 else n), nd)) keys (0, nd) in
    (renewed + n, with_nodes net (<[p := nd]> (nodes net)) (node_shard_index net)).
Definition renew_entity_ttl (net : CommitmentNetwork) (eid : pystr) (additional_epochs : Z) : Z * CommitmentNetwork :=
  fold_left (renew_node eid additional_epochs) (positions net) (0, net).
Definition store_ttl_at (eid : pystr) (i : Z) (data : bytes) (epoch : Z) (ttl : option Z) (net : CommitmentNetwork) (p : nat) : CommitmentNetwork :=
  let nd := node_at net p in
  let ix := node_shard_index net in
  with_nodes net (<[p := (store_shard_with_ttl nd eid i data epoch ttl).2]> (nodes net)) (<[node_id nd := {[(eid, i)]} ∪ default ∅ (ix !! node_id nd)]> ix).
Definition distribute_ttl_one (replicas : nat) (eid : pystr) (epoch : Z) (ttl : option Z) (st : list pystr * CommitmentNetwork) (ish : Z * bytes)
    : result (list pystr * CommitmentNetwork) :=
  let '(shard_hashes, net) := st in let '(i, enc_shard) := ish in
  ib ← struct_pack 4 i;
  '(targets, net) ← placement ihash net eid i replicas;
  Ok (shard_hashes ++ [chash_str (enc_shard ++ eid ++ ib)], fold_left (store_ttl_at eid i enc_shard epoch ttl) targets net).
Definition distribute_encrypted_shards_with_ttl (net : CommitmentNetwork) (eid : pystr) (encrypted_shards : list bytes) (epoch : Z) (ttl : option Z)
    (replicas : nat) : result (pystr * CommitmentNetwork) :=
  '(shard_hashes, net) ← foldM (distribute_ttl_one replicas eid epoch ttl) ([], net) (enumerate encrypted_shards);
  Ok (chash_str (concat shard_hashes), net).

(** * Regions *)
Definition region_members (net : CommitmentNetwork) (reg : pystr) (out : bool) : list nat :=
  List.filter (fun p => bool_decide (region (node_at net p) = reg) && Bool.eqb (evicted (node_at net p)) out) (positions net).
Definition region_failure (net : CommitmentNetwork) (reg : pystr) : list nat * CommitmentNetwork :=
  let affected := region_members net reg false in (affected, fold_left (fun net p => set_status net p true) affected net).
Definition restore_region (net : CommitmentNetwork) (reg : pystr) : list nat * CommitmentNetwork :=
  let restored := region_members net reg true in (restored, fold_left (fun net p => set_status net p false) restored net).
(** Counts of shards on several regions and on one, and the regions used. *)
Definition check_cross_region_placement (net : CommitmentNetwork) (eid : pystr) (n : Z) (replicas : nat) : result (Z * Z * list pystr * CommitmentNetwork) :=
  '(cross_region, same_region, regions_used, net) ←
    foldM (fun st i =>
        let '(cross_region, same_region, regions_used, net) := st in
        '(targets, net) ← placement ihash net eid i replicas;
        let target_regions := list_to_set (map (fun p => region (node_at net p)) targets) : gset pystr in
        Ok (if (1 <? base.size target_regions)%nat then (cross_region + 1, same_region, regions_used ∪ target_regions, net)
            else (cross_region, same_region + 1, regions_used ∪ target_regions, net)))
      (0, 0, ∅ : gset pystr, net) (map Z.of_nat (seq 0 (Z.to_nat n)));
  Ok (cross_region, same_region, sort_by CanonicalEncoder.str_leb (elements regions_used), net).
Definition survives_region (net : CommitmentNetwork) (failed_region : pystr) (targets : list nat) : bool :=
  existsb (fun p => negb (bool_decide (region (node_at net p) = failed_region)) && in_service net p) targets.
Definition availability_under_region_failure (net : CommitmentNetwork) (eid : pystr) (n k : Z) (failed_region : pystr) : result (Z * Z * bool * CommitmentNetwork) :=
  '(surviving, lost, net) ←
    foldM (fun st i =>
        let '(surviving, lost, net) := st in
        '(targets, net) ← placement ihash net eid i 2;
        Ok (if survives_region net failed_region targets then (surviving + 1, lost, net) else (surviving, lost + 1, net)))
      (0, 0, net) (map Z.of_nat (seq 0 (Z.to_nat n)));
  Ok (surviving, lost, k <=? surviving, net).
End Custody.

(** * Audits by proof of possession *)
Section PdpAudit.
Context (env : hash_env).

(** The hashes of the shards of an entity the node can fetch. *)
Definition known_hashes (nd : CommitmentNode) (eid : pystr) (indices : list Z) : result (list (Z * pystr)) :=
  foldM (fun hashes idx => match fetch_shard nd eid idx with
                           | Some data => h ← canonical_hash env data; Ok (dict_set hashes idx h)
                           | None => Ok hashes
                           end) [] indices.
(** The loop that draws [count] of the indices. *)
Fixpoint select_indices (count : nat) (seed : bytes) (rng_val : Z) (remaining selected : list Z) : result (list Z) :=
  match count, remaining with
  | O, _ | _, [] => Ok selected
  | S count, _ =>
      let pick := Z.to_nat (rng_val mod Z.of_nat (length remaining)) in
      let selected := selected ++ [remaining !!! pick] in
      n ← struct_pack 4 (Z.of_nat (length selected));
      select_indices count seed (be_decode (take 8 (internal_hash_bytes env (seed ++ n)))) (delete pick remaining) selected
  end.
Definition pdp_challenge (eid : pystr) (epoch sample_size : Z) (available : list Z) : result PDPChallenge :=
  let count := Z.to_nat (Z.min sample_size (Z.of_nat (length available))) in
  let seed := internal_hash_bytes env (eid ++ lit ":" ++ str_int epoch ++ lit ":pdp-node") in
  selected ← select_indices count seed (be_decode (take 8 seed)) available [];
  coefficients ← mapR (fun idx => i ← struct_pack 4 idx; Ok (take 16 (internal_hash_bytes env (seed ++ i)))) selected;
  challenge_id ← canonical_hash env (eid ++ lit ":" ++ str_int epoch ++ lit ":" ++ str_ints (sort_by Z.leb selected));
  Ok {| pc_challenge_id := challenge_id; pc_epoch := epoch; pc_shard_indices := selected; pc_coefficients := coefficients; pc_deadline_epoch := epoch + 1 |}.
Definition fetch_data (nd : CommitmentNode) (eid : pystr) (indices : list Z) : list (Z * bytes) :=
  fold_left (fun d idx => match fetch_shard nd eid idx with Some data => dict_set d idx data | None => d end) indices [].
Record PdpTally : Type := { pt_verifier : list (pystr * list (Z * pystr)); pt_passed : Z; pt_failed : Z; pt_proof_bytes : Z }.
(** The challenge of one entity. *)
Definition pdp_entity (nd : CommitmentNode) (epoch sample_size : Z) (t : PdpTally) (ei : pystr * list Z) : result PdpTally :=
  let '(eid, indices) := ei in
  hashes ← known_hashes nd eid indices;
  match hashes with
  | [] => Ok t
  | _ =>
      let verifier := register_commitment (pt_verifier t) eid hashes in
      ch ← pdp_challenge eid epoch sample_size (sort_by Z.leb hashes.*1);
      proof ← compute_proof_from_shards env (fetch_data nd eid (pc_shard_indices ch)) (pc_shard_indices ch) (pc_coefficients ch) (pc_challenge_id ch) 0;
      ok ← verify_proof env verifier eid ch proof;
      Ok {| pt_verifier := verifier; pt_passed := pt_passed t + (if ok : bool then 1 else 0); pt_failed := pt_failed t + (if ok : bool then 0 else 1);
            pt_proof_bytes := pt_proof_bytes t + proof_size_bytes proof |}
  end.
Definition group_by_entity (keys : list shard_key) : list (pystr * list Z) :=
  fold_left (fun d key => dict_set d key.1 (default [] (dict_find d key.1) ++ [key.2])) keys [].
Record PdpAudit : Type := { pa_entities : Z; pa_passed : Z; pa_failed : Z; pa_result : bool; pa_proof_bytes : Z; pa_strikes : Z }.
(** [vdf]: challenge, evaluation and verification of the timing function, for
    an entity, an index and the epoch. *)
Definition audit_node_pdp (c : Custody) (p : nat) (epoch sample_size : Z) (vdf : option (pystr -> Z -> Z -> result bool)) : result (PdpAudit * Custody) :=
  let nd := node_at (cu_net c) p in
  match elements (default ∅ (node_shard_index (cu_net c) !! node_id nd)) with
  | [] => Ok ({| pa_entities := 0; pa_passed := 0; pa_failed := 0; pa_result := true; pa_proof_bytes := 0; pa_strikes := na_strikes (account_at c p) |}, c)
  | keys =>
      let entities := group_by_entity keys in
      t ← foldM (pdp_entity nd epoch sample_size) {| pt_verifier := []; pt_passed := 0; pt_failed := 0; pt_proof_bytes := 0 |} entities;
      let failed := if (pt_passed t =? 0) && (pt_failed t =? 0) then 1 else pt_failed t in
      let a := account_at c p in
      let a := if 0 <? failed then with_strikes a (na_strikes a + 1) (na_audit_passes a)
               else with_strikes a (Z.max 0 (na_strikes a - 1)) (na_audit_passes a + 1) in
      vdf_ok ← match vdf, entities with Some f, (eid, idx :: _) :: _ => f eid idx epoch | _, _ => Ok true end;
      let a := if vdf_ok : bool then a else with_strikes a (na_strikes a + 1) (na_audit_passes a) in
      Ok ({| pa_entities := Z.of_nat (length entities); pa_passed := pt_passed t; pa_failed := failed; pa_result := negb (0 <? failed) && vdf_ok;
             pa_proof_bytes := pt_proof_bytes t; pa_strikes := na_strikes a |}, put_account c p a)
  end.
End PdpAudit.

(** * Theorems *)
(** ** Repair *)
(** The first shard another node in service has. *)
Fixpoint first_replica (net : CommitmentNetwork) (p : nat) (key : shard_key) (others : list nat) : option bytes :=
  match others with
  | [] => None
  | q :: others =>
      if bool_decide (q = p) || evicted (node_at net q) then first_replica net p key others
      else match fetch_at net q key with Some d => Some d | None => first_replica net p key others end
  end.
Definition replica (net : CommitmentNetwork) (p : nat) (key : shard_key) : option bytes := first_replica net p key (positions net).
Definition repairable (net : CommitmentNetwork) (p : nat) (key : shard_key) : bool :=
  bool_decide (is_Some (replica net p key)) && bool_decide (is_Some (repair_target net p key)).

Lemma repair_from_spec p key net : repair_from p key (positions net) net =
  match replica net p key, repair_target net p key with Some d, Some t => Some (store_at key.1 key.2 d net t) | _, _ => None end.
Proof.
  unfold replica. generalize (positions net) at 1 2. induction l as [|q l IH]; [done|]. cbn [repair_from first_replica].
  destruct (bool_decide (q = p) || _); [done|]. destruct (fetch_at net q key); [|done]. destruct (repair_target net p key); [done|]. rewrite IH. by destruct (first_replica _ _ _ _).
Qed.
Lemma elem_of_positions net q : q ∈ positions net <-> (q < length (nodes net))%nat.
Proof. unfold positions. rewrite elem_of_seq. lia. Qed.
Lemma replica_spec net p key : match replica net p key with
  | Some d => exists q, q <> p /\ (q < length (nodes net))%nat /\ in_service net q = true /\ fetch_at net q key = Some d
  | None => forall q, q <> p -> (q < length (nodes net))%nat -> fetch_at net q key = None
  end.
Proof.
  unfold replica. assert (forall l, (forall q, q ∈ l -> q ∈ positions net) -> match first_replica net p key l with
    | Some d => exists q, q <> p /\ (q < length (nodes net))%nat /\ in_service net q = true /\ fetch_at net q key = Some d
    | None => forall q, q <> p -> q ∈ l -> fetch_at net q key = None end) as Hg.
  { induction l as [|q l IH]; intros Hl; cbn [first_replica]; [by intros q _ ?%elem_of_nil|].
    assert (forall q, q ∈ l -> q ∈ positions net) as Hl' by (intros; apply Hl; by right). specialize (IH Hl').
    destruct (bool_decide_reflect (q = p)) as [->|Hq]; cbn [orb]; [destruct (first_replica _ _ _ _); [done|]; intros r Hr [->|Hin]%elem_of_cons; [done|by apply IH]|].
    destruct (evicted (node_at net q)) eqn:Ev.
    - destruct (first_replica _ _ _ _); [done|]. intros r Hr [->|Hin]%elem_of_cons; [|by apply IH]. unfold fetch_at, fetch_shard. by rewrite Ev.
    - destruct (fetch_at net q key) as [d|] eqn:Ed.
      + exists q. split_and!; [done|apply elem_of_positions, Hl; left|unfold in_service; by rewrite Ev|done].
      + destruct (first_replica _ _ _ _); [done|]. intros r Hr [->|Hin]%elem_of_cons; [done|by apply IH]. }
  specialize (Hg (positions net) (fun _ H => H)). destruct (first_replica _ _ _ _); [done|]. intros q Hq Hlt. apply Hg; [done|by apply elem_of_positions].
Qed.
Lemma find_some_spec {A} (f : A -> bool) l : match List.find f l with Some x => x ∈ l /\ f x = true | None => forall x, x ∈ l -> f x = false end.
Proof.
  destruct (List.find f l) as [x|] eqn:E; [apply find_some in E as [H1 H2]; split; [by apply list_elem_of_In|done]|].
  intros x Hx. apply (find_none _ _ E). by apply list_elem_of_In.
Qed.
Lemma repair_target_spec net p key : match repair_target net p key with
  | Some t => t <> p /\ (t < length (nodes net))%nat /\ in_service net t = true /\ fetch_at net t key = None
  | None => forall q, q <> p -> (q < length (nodes net))%nat -> in_service net q = true -> is_Some (fetch_at net q key)
  end.
Proof.
  unfold repair_target. pose proof (find_some_spec (fun t => negb (bool_decide (t = p)) && in_service net t && negb (bool_decide (is_Some (fetch_at net t key)))) (positions net)) as Hf.
  destruct (List.find _ _) as [t|].
  - destruct Hf as [Ht%elem_of_positions Hf]. apply andb_prop in Hf as [Hf H3]. apply andb_prop in Hf as [H1 H2]. apply negb_true_iff, bool_decide_eq_false in H1.
    apply negb_true_iff, bool_decide_eq_false in H3. rewrite <- eq_None_not_Some in H3. done.
  - intros q Hq Hlt Hs. specialize (Hf q (proj2 (elem_of_positions _ _) Hlt)). rewrite bool_decide_eq_false_2, Hs in Hf by done. cbn [negb andb] in Hf.
    by apply negb_false_iff, bool_decide_eq_true in Hf.
Qed.

Lemma lookup_node_at net q : (q < length (nodes net))%nat -> nodes net !! q = Some (node_at net q).
Proof. intros Hlt. unfold node_at. by destruct (lookup_lt_is_Some_2 _ _ Hlt) as [nd ->]. Qed.
Lemma store_fetch net t d key q key' : (t < length (nodes net))%nat -> in_service net t = true -> (q < length (nodes net))%nat ->
  fetch_at (store_at key.1 key.2 d net t) q key' = if decide (q = t /\ key' = key) then Some d else fetch_at net q key'.
Proof.
  intros Ht Hs Hq. unfold fetch_at, fetch_shard. destruct key as [e i], key' as [e' i']. cbn [fst snd].
  assert (nodes (store_at e i d net t) !! q = Some (node_at (store_at e i d net t) q)) as El.
  { apply lookup_node_at. pose proof (f_equal length (store_at_profile e i d net t)) as El. unfold profile_of in El. rewrite !length_map in El. by rewrite El. }
  destruct (store_at_shards e i d net t q e' i' _ El) as (nd & En & Ev & Es). rewrite (lookup_node_at net q Hq) in En. injection En as <-.
  rewrite Ev, Es. destruct (decide (q = t /\ _)) as [[-> E]|Hn].
  - rewrite decide_True by (split; [done|]; split; [done|by apply negb_true_iff in Hs]). by apply negb_true_iff in Hs; rewrite Hs.
  - destruct (decide (t = q /\ _)) as [(-> & E & _)|_]; [by destruct Hn|done].
Qed.
Lemma store_frame net t d key : length (nodes (store_at key.1 key.2 d net t)) = length (nodes net) /\
  (forall q, in_service (store_at key.1 key.2 d net t) q = in_service net q).
Proof.
  assert (length (nodes (store_at key.1 key.2 d net t)) = length (nodes net)) as El.
  { pose proof (f_equal length (store_at_profile key.1 key.2 d net t)) as El. unfold profile_of in El. by rewrite !length_map in El. }
  split; [done|]. intros q. unfold in_service. f_equal. destruct (decide (q < length (nodes net))%nat) as [Hq|Hq].
  - pose proof (f_equal (lookup q) (store_at_profile key.1 key.2 d net t)) as Ep. unfold profile_of in Ep. rewrite !lookup_map in Ep.
    rewrite (lookup_node_at net q Hq), (lookup_node_at (store_at _ _ _ _ _) q) in Ep by (by rewrite El). cbn in Ep. by simplify_eq.
  - unfold node_at. rewrite !lookup_ge_None_2 by lia. done.
Qed.
Lemma repair_ext net net' p key : length (nodes net') = length (nodes net) -> (forall q, q <> p -> in_service net' q = in_service net q) ->
  (forall q, (q < length (nodes net))%nat -> q <> p -> fetch_at net' q key = fetch_at net q key) ->
  replica net' p key = replica net p key /\ repair_target net' p key = repair_target net p key.
Proof.
  intros El Es Ef. unfold replica, repair_target, positions. rewrite El.
  assert (forall q, q ∈ seq 0 (length (nodes net)) -> q <> p -> fetch_at net' q key = fetch_at net q key) as Ef' by (intros q Hq%elem_of_seq Hne; apply Ef; [lia|done]).
  revert Ef'. generalize (seq 0 (length (nodes net))). clear Ef El. intros l. induction l as [|q l IH]; intros Ef; [done|].
  destruct IH as [IH1 IH2]; [intros; apply Ef; [by right|done]|]. cbn [first_replica List.find]. destruct (bool_decide_reflect (q = p)) as [->|Hq]; cbn [orb negb andb]; [done|].
  specialize (Es q Hq). specialize (Ef q ltac:(left) Hq). rewrite Ef, IH1, IH2, Es. unfold in_service in Es. apply (f_equal negb) in Es. rewrite !negb_involutive in Es. by rewrite Es.
Qed.
Definition count_if {A} (f : A -> bool) (xs : list A) : Z := Z.of_nat (length (List.filter f xs)).
Lemma repair_all p keys net r0 l0 : NoDup keys ->
  let '(r, l, net') := fold_left (repair_one p) keys (r0, l0, net) in
  r = r0 + count_if (repairable net p) keys /\ l = l0 + count_if (fun k => negb (repairable net p k)) keys /\
  length (nodes net') = length (nodes net) /\ (forall q, in_service net' q = in_service net q) /\
  forall q key, (q < length (nodes net))%nat ->
    fetch_at net' q key = if decide (key ∈ keys /\ repair_target net p key = Some q) then replica net p key else fetch_at net q key.
Proof.
  revert net r0 l0. induction keys as [|k keys IH]; intros net r0 l0 Hnd; cbn [fold_left].
  - unfold count_if. cbn. split_and!; [lia|lia|done|done|]. intros q key _. rewrite decide_False; [done|]. by intros [?%elem_of_nil _].
  - apply NoDup_cons in Hnd as [Hk Hnd]. unfold repair_one at 2. rewrite repair_from_spec.
    set (st := match match replica net p k, repair_target net p k with Some d, Some t => Some (store_at k.1 k.2 d net t) | _, _ => None end with Some n => (r0 + 1, l0, n) | None => (r0, l0 + 1, net) end).
    assert (exists n1, st = ((r0 + if repairable net p k then 1 else 0), (l0 + if repairable net p k then 0 else 1), n1) /\
      length (nodes n1) = length (nodes net) /\ (forall q, in_service n1 q = in_service net q) /\
      forall q key, (q < length (nodes net))%nat -> fetch_at n1 q key = if decide (key = k /\ repair_target net p k = Some q) then replica net p k else fetch_at net q key) as (n1 & -> & El & Es & Ef).
    { unfold st, repairable. pose proof (repair_target_spec net p k) as Ht. pose proof (replica_spec net p k) as Hr.
      destruct (replica net p k) as [d|]; [destruct (repair_target net p k) as [t|]|].
      - exists (store_at k.1 k.2 d net t). cbn. rewrite Z.add_0_r. destruct (store_frame net t d k) as [El Es]. destruct Ht as (_ & Hlt & Hst & _). split_and!; try done. intros q key Hq. rewrite store_fetch by done.
        destruct (decide (q = t /\ key = k)) as [[-> ->]|Hn]; [by rewrite decide_True|]. rewrite decide_False; [done|]. intros [-> [= ->]]. by apply Hn.
      - exists net. cbn. rewrite Z.add_0_r. split_and!; try done. intros q key _. by rewrite decide_False by (by intros [_ ?]).
      - exists net. cbn. rewrite Z.add_0_r. split_and!; try done. intros q key Hq. destruct (decide _) as [[-> E]|]; [|done]. rewrite E in Ht. by destruct Ht as (_ & _ & _ & ->). }
    specialize (IH n1 (r0 + if repairable net p k then 1 else 0) (l0 + if repairable net p k then 0 else 1) Hnd).
    destruct (fold_left (repair_one p) keys _) as [[r l] net'] eqn:Ed. destruct IH as (H1 & H2 & H3 & H4 & H5).
    assert (forall key, key ∈ keys -> replica n1 p key = replica net p key /\ repair_target n1 p key = repair_target net p key) as Hext.
    { intros key Hin. apply repair_ext; [done|by intros; apply Es|]. intros q Hq _. rewrite Ef by done. rewrite decide_False; [done|]. by intros [-> _]. }
    assert (forall f g : shard_key -> bool, (forall key, key ∈ keys -> f key = g key) -> count_if f keys = count_if g keys) as Hcnt.
    { intros f g Hfg. unfold count_if. do 2 f_equal. revert Hfg. clear. induction keys as [|x xs IH]; intros Hfg; [done|]. cbn. rewrite Hfg by left. rewrite IH; [done|]. intros; apply Hfg; by right. }
    assert (forall key, key ∈ keys -> repairable n1 p key = repairable net p key) as Hrep by (intros key Hin; unfold repairable; by destruct (Hext key Hin) as [-> ->]).
    split_and!.
    + rewrite H1, (Hcnt _ _ Hrep). unfold count_if. cbn [List.filter]. destruct (repairable net p k); cbn [length]; lia.
    + rewrite H2, (Hcnt (fun x => negb (repairable n1 p x)) (fun x => negb (repairable net p x))) by (intros key Hin; by rewrite Hrep).
      unfold count_if. cbn [List.filter]. destruct (repairable net p k); cbn [negb length]; lia.
    + congruence.
    + intros q. by rewrite H4.
    + intros q key Hq. rewrite H5 by (by rewrite El). destruct (decide (key ∈ keys)) as [Hin|Hin].
      * destruct (Hext key Hin) as [-> ->]. assert (key <> k) as Hne by congruence.
        rewrite (decide_ext (key ∈ keys /\ repair_target net p key = Some q) (key ∈ k :: keys /\ repair_target net p key = Some q)) by (rewrite elem_of_cons; naive_solver).
        destruct (decide _); [done|]. rewrite Ef by done. by rewrite decide_False by (by intros [-> _]).
      * rewrite decide_False by (by intros [? _]). rewrite Ef by done. destruct (decide (key = k /\ _)) as [[-> E]|Hn].
        -- rewrite decide_True; [done|]. split; [left|done].
        -- rewrite decide_False; [done|]. intros [[->|?]%elem_of_cons E]; [by apply Hn|done].
Qed.

Lemma set_status_node net p b q : (p < length (nodes net))%nat -> node_at (set_status net p b) q = if decide (q = p) then set_evicted (node_at net p) b else node_at net q.
Proof.
  intros Hp. unfold node_at, set_status. cbn [with_nodes nodes]. destruct (decide (q = p)) as [->|Hne]; [|by rewrite list_lookup_alter_ne].
  rewrite list_lookup_alter_eq. by rewrite (lookup_node_at net p Hp).
Qed.
Lemma orphaned_nodup net p : NoDup (orphaned net p).
Proof.
  unfold orphaned. pose proof (NoDup_fst_map_to_list (shards (node_at net p))) as Hk. change (map fst) with (fmap (M := list) (@fst shard_key bytes)).
  destruct ((map_to_list (shards (node_at net p))).*1); [apply NoDup_elements|done].
Qed.

Section Eviction.
Context `{CanonicalHash}.
Lemma evict_node_net c p now event_time :
  let net1 := invalidate_placement_cache (set_status (cu_net c) p true) in
  let '(r, c') := evict_node c p now event_time in
  let '(repaired, lost, net2) := fold_left (repair_one p) (orphaned net1 p) (0, 0, net1) in
  nodes (cu_net c') = nodes net2 /\ vi_shards_affected r = Z.of_nat (length (orphaned net1 p)) /\ vi_repaired r = repaired /\ vi_lost r = lost.
Proof.
  cbn zeta. unfold evict_node. destruct (forfeit _ _ _ _) as [[[s f] a] e]. destruct (fold_left _ _ _) as [[r l] n2]. by split_and!.
Qed.
End Eviction.

(** Eviction repairs what it can.  The evicted node leaves service, all
    others keep their status; whatever any other node serves it serves
    unchanged; each shard the evicted node held that another node in service
    has and yet another one lacks is copied to the first node that lacks it,
    and nothing else is stored.  The report counts these as repaired and the
    other shards as lost: those nobody else has, and those every other node in
    service already has. *)
Theorem eviction_repairs `{CanonicalHash} c p now event_time : (p < length (nodes (cu_net c)))%nat ->
  let net := cu_net c in
  let '(r, c') := evict_node c p now event_time in
  let net' := cu_net c' in
  in_service net' p = false /\ (forall q, q <> p -> in_service net' q = in_service net q) /\
  (forall q key, q <> p -> (q < length (nodes net))%nat ->
     fetch_at net' q key = if decide (key ∈ orphaned net p /\ repair_target net p key = Some q) then replica net p key else fetch_at net q key) /\
  (forall q key d, q <> p -> (q < length (nodes net))%nat -> fetch_at net q key = Some d -> fetch_at net' q key = Some d) /\
  vi_shards_affected r = Z.of_nat (length (orphaned net p)) /\ vi_repaired r = count_if (repairable net p) (orphaned net p) /\
  vi_lost r = count_if (fun key => negb (repairable net p key)) (orphaned net p) /\
  forall key, repairable net p key = true <->
    (exists q d, q <> p /\ (q < length (nodes net))%nat /\ fetch_at net q key = Some d) /\
    exists t, t <> p /\ (t < length (nodes net))%nat /\ in_service net t = true /\ fetch_at net t key = None.
Proof.
  intros Hp net. pose proof (evict_node_net c p now event_time) as Hn. cbn zeta in Hn. fold net in Hn. set (net1 := invalidate_placement_cache (set_status net p true)) in *.
  assert (forall q, node_at net1 q = if decide (q = p) then set_evicted (node_at net p) true else node_at net q) as Hnode by (intros q; by rewrite <- set_status_node).
  assert (length (nodes net1) = length (nodes net)) as El by (unfold net1; cbn; by rewrite length_alter).
  assert (orphaned net1 p = orphaned net p) as Eo by (unfold orphaned; rewrite Hnode, decide_True by done; done).
  assert (forall q, q <> p -> in_service net1 q = in_service net q) as Es by (intros q Hq; unfold in_service; by rewrite Hnode, decide_False).
  assert (forall q key, q <> p -> fetch_at net1 q key = fetch_at net q key) as Ef by (intros q key Hq; unfold fetch_at; by rewrite Hnode, decide_False).
  assert (forall key, replica net1 p key = replica net p key /\ repair_target net1 p key = repair_target net p key) as Hext by (intros key; apply repair_ext; auto).
  pose proof (repair_all p (orphaned net1 p) net1 0 0 (orphaned_nodup net1 p)) as Ha. destruct (evict_node c p now event_time) as [r c'].
  destruct (fold_left (repair_one p) _ _) as [[rep lost] net2]. destruct Hn as (N1 & N2 & N3 & N4), Ha as (A1 & A2 & A3 & A4 & A5). rewrite Eo in *.
  assert (forall q, node_at (cu_net c') q = node_at net2 q) as Hc by (intros q; unfold node_at; by rewrite N1).
  assert (forall q key, q <> p -> (q < length (nodes net))%nat ->
     fetch_at (cu_net c') q key = if decide (key ∈ orphaned net p /\ repair_target net p key = Some q) then replica net p key else fetch_at net q key) as Hfetch.
  { intros q key Hq Hlt. assert (fetch_at (cu_net c') q key = fetch_at net2 q key) as -> by (unfold fetch_at; by rewrite Hc).
    rewrite A5 by (by rewrite El). destruct (Hext key) as [-> ->]. by rewrite Ef. }
  split_and!.
  - assert (in_service (cu_net c') p = in_service net2 p) as -> by (unfold in_service; by rewrite Hc). rewrite A4. unfold in_service. by rewrite Hnode, decide_True.
  - intros q Hq. assert (in_service (cu_net c') q = in_service net2 q) as -> by (unfold in_service; by rewrite Hc). rewrite A4. by apply Es.
  - exact Hfetch.
  - intros q key d Hq Hlt Hd. rewrite Hfetch by done. destruct (decide _) as [[_ E]|]; [|done]. pose proof (repair_target_spec net p key) as Ht. rewrite E in Ht.
    destruct Ht as (_ & _ & _ & Ht). congruence.
  - by rewrite N2.
  - rewrite N3, A1. unfold count_if, repairable. rewrite Z.add_0_l. do 2 f_equal. apply List.filter_ext. intros key. by destruct (Hext key) as [-> ->].
  - rewrite N4, A2. unfold count_if, repairable. rewrite Z.add_0_l. do 2 f_equal. apply List.filter_ext. intros key. by destruct (Hext key) as [-> ->].
  - intros key. unfold repairable. rewrite andb_true_iff, !bool_decide_eq_true. pose proof (replica_spec net p key) as Hr. pose proof (repair_target_spec net p key) as Ht.
    destruct (replica net p key) as [d|]; [|split; [by intros [[? ?] _]|intros [(q & d & H1 & H2 & H3) _]; by rewrite Hr in H3]].
    destruct Hr as (q & H1 & H2 & H3 & H4). destruct (repair_target net p key) as [t|].
    + destruct Ht as (T1 & T2 & T3 & T4). split; [|by intros]. intros _. split; [by exists q, d|by exists t].
    + split; [by intros [_ [? ?]]|]. intros [_ (t & T1 & T2 & T3 & T4)]. destruct (Ht t T1 T2 T3) as [x Hx]. congruence.
Qed.

(** ** Audits *)
(** The node lacks the shard, or the first other node that has one has
    different bytes. *)
Definition disputed (net : CommitmentNetwork) (p : nat) (key : shard_key) : bool :=
  match fetch_at net p key with
  | None => true
  | Some d => match replica net p key with Some d' => negb (bool_decide (d' = d)) | None => false end
  end.
Section Audits.
Context (ihash : bytes -> bytes) `{CanonicalHash} (decay_power : Z -> float64).

Lemma respond_fetch nd key nonce : respond_to_audit nd key.1 key.2 nonce = (fun ct => chash_str (ct ++ nonce)) <$> fetch_shard nd key.1 key.2.
Proof. unfold respond_to_audit, fetch_shard. by destruct (evicted nd). Qed.
Lemma known_good_replica net p key nonce : known_good_hash net p key nonce (positions net) = (fun ct => chash_str (ct ++ nonce)) <$> replica net p key.
Proof.
  unfold replica. generalize (positions net). induction l as [|q l IH]; [done|]. cbn [known_good_hash first_replica].
  destruct (bool_decide (q = p) || _); [done|]. rewrite respond_fetch. unfold fetch_at. by destruct (fetch_shard _ _ _).
Qed.
(** The hashes of the two compared shards tell them apart. *)
Definition audit_distinct (net : CommitmentNetwork) (p : nat) (key : shard_key) (draw : nat -> bytes * float64) : Prop :=
  forall n d d', fetch_at net p key = Some d -> replica net p key = Some d' -> collision_free [d ++ (draw n).1; d' ++ (draw n).1].
(** Adding [n] verdicts on a shard to a tally. *)
Definition judged (t t' : Tally) (n : nat) (bad : bool) (key : shard_key) : Prop :=
  ta_challenged t' = (ta_challenged t + n)%nat /\ ta_failed t' = ta_failed t + (if bad then Z.of_nat n else 0) /\
  ta_passed t' = ta_passed t + (if bad then 0 else Z.of_nat n) /\
  ta_corrupt_shards t' = ta_corrupt_shards t ++ (if bad then replicate n key else []).

Lemma challenge_spec net p key t b draw n : audit_distinct net p key draw -> judged t (challenge net p key (t, b) (draw n)).1 1 (disputed net p key) key.
Proof.
  intros Hcf. specialize (Hcf n). destruct (draw n) as [nonce elapsed]. unfold challenge, judged, disputed. rewrite respond_fetch, known_good_replica. fold (fetch_at net p key).
  cbn [fst] in Hcf. destruct (fetch_at net p key) as [d|]; cbn [fmap option_fmap option_map].
  - destruct (replica net p key) as [d'|]; cbn [fmap option_fmap option_map].
    + specialize (Hcf d d' eq_refl eq_refl). destruct (bool_decide_reflect (d' = d)) as [->|Hne]; cbn [negb].
      * rewrite bool_decide_eq_true_2 by done. cbn. split_and!; first [lia|done].
      * rewrite bool_decide_eq_false_2; [cbn; split_and!; first [lia|done]|]. intros E. apply chash_str_inj in E. apply Hcf in E; [|left|right; left].
        apply app_inv_tail in E. by apply Hne.
    + cbn. split_and!; first [lia|done].
  - cbn. split_and!; first [lia|done].
Qed.
Lemma challenges_spec net p key draw ns : audit_distinct net p key draw -> forall t b,
  judged t (fold_left (challenge net p key) (map draw ns) (t, b)).1 (length ns) (disputed net p key) key.
Proof.
  intros Hcf. induction ns as [|n ns IH]; intros t b; cbn [map fold_left length fst].
  - unfold judged. destruct (disputed net p key); cbn [replicate]; rewrite app_nil_r; split_and!; first [lia|done].
  - pose proof (challenge_spec net p key t b draw n Hcf) as H1. destruct (challenge net p key (t, b) (draw n)) as [t1 b1]. specialize (IH t1 b1).
    cbn [fst] in H1. unfold judged in *. destruct H1 as (E1 & E2 & E3 & E4), IH as (F1 & F2 & F3 & F4). rewrite F1, F2, F3, F4, E1, E2, E3, E4, <- app_assoc.
    destruct (disputed net p key); cbn [replicate app]; split_and!; first [lia|done].
Qed.
Lemma audit_shard_spec net p burst mx draw t key : audit_distinct net p key draw ->
  judged t (audit_shard net p burst mx draw t key) (Z.to_nat burst) (disputed net p key) key.
Proof.
  intros Hcf. unfold audit_shard. rewrite <- (map_map (fun k => (ta_challenged t + k)%nat) draw). pose proof (challenges_spec net p key draw (map (fun k => (ta_challenged t + k)%nat) (seq 0 (Z.to_nat burst))) Hcf t true) as Hs.
  rewrite length_map, length_seq in Hs. destruct (fold_left _ _ _) as [t1 b1]. cbn [fst] in Hs. by destruct (_ && _).
Qed.
Lemma audit_shards_spec net p burst mx draw keys : 1 <= burst -> (forall key, key ∈ keys -> audit_distinct net p key draw) -> forall t,
  let t' := fold_left (audit_shard net p burst mx draw) keys t in
  ta_challenged t' = (ta_challenged t + Z.to_nat burst * length keys)%nat /\ ta_failed t' = ta_failed t + burst * count_if (disputed net p) keys /\
  ta_passed t' = ta_passed t + burst * count_if (fun key => negb (disputed net p key)) keys /\
  forall key, key ∈ ta_corrupt_shards t' <-> key ∈ ta_corrupt_shards t \/ key ∈ keys /\ disputed net p key = true.
Proof.
  intros Hb. induction keys as [|k keys IH]; intros Hcf t; cbn zeta; cbn [fold_left].
  - unfold count_if. cbn. split_and!; try lia. intros key. rewrite elem_of_nil. tauto.
  - destruct (audit_shard_spec net p burst mx draw t k) as (E1 & E2 & E3 & E4); [apply Hcf; left|].
    destruct (IH (fun key Hin => Hcf key (proj2 (elem_of_cons _ _ _) (or_intror Hin))) (audit_shard net p burst mx draw t k)) as (F1 & F2 & F3 & F4).
    rewrite F1, F2, F3, E1, E2, E3. unfold count_if. cbn [length List.filter]. split_and!.
    + lia.
    + destruct (disputed net p k); cbn [length]; lia.
    + destruct (disputed net p k); cbn [negb length]; lia.
    + intros key. rewrite F4, E4, elem_of_app, elem_of_cons. destruct (disputed net p k) eqn:Ek.
      * rewrite elem_of_replicate. split; [intros [[?|[-> _]]|[? ?]]; auto|]. intros [?|[[->|?] ?]]; auto. left. right. split; [done|lia].
      * rewrite elem_of_nil. split; [intros [[?|[]]|[? ?]]; auto|]. intros [?|[[->|?] ?]]; auto. congruence.
Qed.

Lemma foldM_keeps {A S} (P : S -> Prop) (f : S -> A -> result S) xs s s' : P s -> (forall s x s', P s -> f s x = Ok s' -> P s') -> foldM f s xs = Ok s' -> P s'.
Proof. intros Hs Hf. exact (foldM_inv f (fun _ => P) xs s s' Hs (fun _ x s s' H => Hf s x s' H)). Qed.
Lemma shard_list_nodes c p keys net : shard_list ihash c p = Ok (keys, net) -> nodes net = nodes (cu_net c).
Proof.
  unfold shard_list. destruct (elements _); [|by intros [= <- <-]].
  apply (foldM_keeps (fun st : list shard_key * CommitmentNetwork => nodes st.2 = nodes (cu_net c)) _ _ _ (keys, net)); [done|].
  intros st eid st' Hst. unfold scan_record. destruct (CommitmentLog.fetch _ _); [|by intros [= <-]]. destruct (default _ _); [|done].
  apply (foldM_keeps (fun st : list shard_key * CommitmentNetwork => nodes st.2 = nodes (cu_net c))); [done|]. clear. intros [found net] i st' Hst. cbn [scan_shard].
  destruct (placement ihash net eid i 2) as [[targets net1]|] eqn:E; [|done]. cbn [mbind result_bind]. intros [= <-]. apply placement_frame in E as [E _]. cbn [snd] in *. rewrite E. exact Hst.
Qed.
Lemma disputed_nodes net net' p key : nodes net' = nodes net -> disputed net' p key = disputed net p key.
Proof.
  intros E. unfold disputed, fetch_at, replica, positions, node_at. rewrite E. assert (forall l, first_replica net' p key l = first_replica net p key l) as ->; [|done].
  induction l as [|q l IH]; [done|]. cbn [first_replica]. unfold fetch_at, node_at. by rewrite E, IH.
Qed.
Lemma correlation_nodes c c' p : nodes (cu_net c') = nodes (cu_net c) -> cu_accounts c' = cu_accounts c -> cu_histories c' = cu_histories c ->
  correlation_penalty c' p = correlation_penalty c p.
Proof. intros E1 E2 E3. unfold correlation_penalty, active_node_count, positions, in_service, node_at, history_of, account_at. by rewrite E1, E2, E3. Qed.
Lemma count_existsb {A} (f : A -> bool) xs : (0 <? count_if f xs) = existsb f xs.
Proof. unfold count_if. induction xs as [|x xs IH]; [done|]. cbn [List.filter existsb]. destruct (f x); cbn [length orb]; [apply Z.ltb_lt; lia|exact IH]. Qed.

(** An audit decides by comparing shards: it passes exactly when the node has
    every shard it is asked for and no other node in service has the shard
    with other bytes first, the corrupt shards it lists being the others.  A
    failed audit adds a strike, escrows a tenth of the stake times the
    penalty, capped by the stake, and appends an offense of that weight; a
    passed one takes a strike back. *)
Theorem audit_exact c p burst mx draw now now' keys net m : 1 <= burst -> (p < length (cu_accounts c))%nat ->
  (na_history (account_at c p) < length (cu_histories c))%nat -> 0 <= cu_audit_epoch c + 1 < 2 ^ 64 ->
  shard_list ihash c p = Ok (keys, net) -> (forall key, key ∈ keys -> audit_distinct (cu_net c) p key draw) -> correlation_penalty c p = Ok m ->
  exists r c', audit_node ihash decay_power c p burst mx draw now now' = Ok (r, c') /\
  let bad := existsb (disputed (cu_net c) p) keys in let a := account_at c p in let a' := account_at c' p in
  re_result r = negb bad /\ Z.of_nat (ta_challenged (re_tally r)) = burst * Z.of_nat (length keys) /\
  ta_failed (re_tally r) = burst * count_if (disputed (cu_net c) p) keys /\
  (forall key, key ∈ ta_corrupt_shards (re_tally r) <-> key ∈ keys /\ disputed (cu_net c) p key = true) /\ re_strikes r = na_strikes a' /\
  if bad then
    na_strikes a' = na_strikes a + 1 /\
    (exists e, na_pending_slashes a' = na_pending_slashes a ++ [e] /\ open_escrow e = true /\ es_amount e = f64_min (f64_mul (f64_mul f64_tenth (na_stake a)) m) (na_stake a)) /\
    (exists o, history_of c' a' = history_of c a ++ [o] /\ of_type o = lit "audit_failure" /\ of_weight o = m)
  else na_strikes a' = (if decide (keys = []) then na_strikes a else Z.max 0 (na_strikes a - 1)) /\ na_pending_slashes a' = na_pending_slashes a.
Proof.
  intros Hb Hp Hh He Hk Hcf Hm. pose proof (shard_list_nodes c p keys net Hk) as Hn.
  assert (forall key, disputed net p key = disputed (cu_net c) p key) as Hdis by (intros; by apply disputed_nodes).
  unfold audit_node. set (c1 := {| cu_net := cu_net c; cu_audit_epoch := cu_audit_epoch c + 1 |}).
  assert (exists z, vdf_audit_schedule ihash c1 p (cu_audit_epoch c + 1) = Ok z) as [z ->].
  { unfold vdf_audit_schedule. assert (struct_pack 8 (cu_audit_epoch c + 1) = Ok (be_encode 8 (cu_audit_epoch c + 1))) as ->; [|by eexists].
    apply struct_pack_Ok. split; [|done]. change (256 ^ Z.of_nat 8) with (2 ^ 64). lia. }
  cbn [mbind result_bind]. assert (shard_list ihash c1 p = Ok (keys, net)) as -> by exact Hk. cbn [mbind result_bind].
  destruct (audit_shards_spec net p burst mx draw keys Hb) with (t := no_challenges) as (T1 & T2 & T3 & T4).
  { intros key Hin n d d' E1 E2. apply (Hcf key Hin n).
    - unfold fetch_at, node_at in *. by rewrite <- Hn.
    - rewrite <- E2. unfold replica, positions, node_at. rewrite Hn. clear -Hn. generalize (seq 0 (length (nodes (cu_net c)))).
      induction l as [|q l IH]; [done|]. cbn [first_replica]. unfold fetch_at, node_at. by rewrite Hn, IH. }
  set (t := fold_left _ keys no_challenges) in *. cbn [ta_challenged ta_failed ta_passed ta_corrupt_shards no_challenges] in T1, T2, T3, T4.
  assert (count_if (disputed net p) keys = count_if (disputed (cu_net c) p) keys) as Ec by (unfold count_if; do 2 f_equal; apply List.filter_ext; intros; apply Hdis).
  rewrite Ec in T2. assert ((0 <? ta_failed t) = existsb (disputed (cu_net c) p) keys) as Hbad.
  { rewrite <- count_existsb, T2. unfold count_if. destruct (Z.ltb_spec 0 (Z.of_nat (length (List.filter (disputed (cu_net c) p) keys)))); [apply Z.ltb_lt|apply Z.ltb_ge]; nia. }
  assert ((ta_challenged t =? 0)%nat = bool_decide (keys = [])) as Hz.
  { destruct keys as [|k ks]; [rewrite bool_decide_eq_true_2 by done; apply Nat.eqb_eq; rewrite T1; cbn; lia|rewrite bool_decide_eq_false_2 by done; apply Nat.eqb_neq; rewrite T1; cbn [length]; lia]. }
  assert (forall key, key ∈ ta_corrupt_shards t <-> key ∈ keys /\ disputed (cu_net c) p key = true) as Hcor by (intros key; rewrite T4, Hdis, elem_of_nil; tauto).
  rewrite Hz, Hbad. assert (account_at (with_net c1 net) p = account_at c p) as Ea by done.
  destruct (bool_decide_reflect (keys = [])) as [->|Hne].
  - cbn [mbind result_bind]. eexists _, _. split; [reflexivity|]. cbn [re_result re_tally re_strikes existsb orb negb]. split_and!; try done; cbn; lia.
  - destruct (existsb (disputed (cu_net c) p) keys) eqn:Eb.
    + unfold punish. rewrite (correlation_nodes c) by done. rewrite Hm. cbn [mbind result_bind]. rewrite Ea. cbn [create_pending_slash record_offense snd].
      eexists _, _. split; [reflexivity|]. cbn [re_result re_tally re_strikes orb negb]. split; [done|]. split; [rewrite T1; lia|]. split; [done|]. split; [done|]. split; [done|].
      unfold put_account, account_at, history_of. cbn [cu_update cu_accounts put_history with_net c1 set_reputation with_record with_stake with_strikes na_history].
      rewrite list_lookup_insert_eq by done. cbn [from_option Datatypes.id na_strikes na_pending_slashes na_history cu_histories set_reputation with_record with_stake with_strikes].
      fold (account_at c p). split; [done|]. split; [eexists; split; [reflexivity|]; by split|]. cbn [cu_update put_history with_net c1 cu_histories]. rewrite list_lookup_insert_eq by done. cbn [from_option Datatypes.id].
      eexists. split; [reflexivity|]. by split.
    + cbn [mbind result_bind]. eexists _, _. split; [reflexivity|]. cbn [re_result re_tally re_strikes orb negb]. split; [done|]. split; [rewrite T1; lia|]. split; [done|]. split; [done|]. split; [done|].
      assert (account_at (reward_audit (with_net c1 net) p) p = with_strikes (account_at c p) (Z.max 0 (na_strikes (account_at c p) - 1)) (na_audit_passes (account_at c p) + 1)) as ->.
      { unfold reward_audit, put_account, account_at at 1. cbn [cu_update cu_accounts with_net c1]. by rewrite list_lookup_insert_eq. }
      cbn [with_strikes na_strikes na_pending_slashes]. by rewrite decide_False.
Qed.
End Audits.

(** ** Possession audits *)
Section PdpTheorems.
Context (env : hash_env).
Hypothesis hash_ok : hash_library_ok (env_lib env).
Hypothesis approved : fips_provider env = None /\ COMPLIANCE_APPROVED (canonical_hash_fn (env_profile env)) = true.

Lemma canonical_total d : exists h, canonical_hash env d = Ok h.
Proof. pose proof (canonical_lane_refines env hash_ok d (proj1 approved)) as Hc. cbn zeta in Hc. rewrite (proj2 approved) in Hc. destruct Hc as [_ Hc]. by eexists. Qed.

Lemma known_hashes_spec nd eid indices : exists hashes, known_hashes env nd eid indices = Ok hashes /\
  (forall idx, is_Some (dict_find hashes idx) <-> idx ∈ indices /\ is_Some (fetch_shard nd eid idx)) /\
  forall idx h, dict_find hashes idx = Some h -> exists d, fetch_shard nd eid idx = Some d /\ canonical_hash env d = Ok h.
Proof.
  unfold known_hashes. assert (forall acc : list (Z * pystr), (forall idx h, dict_find acc idx = Some h -> exists d, fetch_shard nd eid idx = Some d /\ canonical_hash env d = Ok h) ->
    exists hashes, foldM (fun hashes idx => match fetch_shard nd eid idx with Some data => h ← canonical_hash env data; Ok (dict_set hashes idx h) | None => Ok hashes end) acc indices = Ok hashes /\
      (forall idx, is_Some (dict_find hashes idx) <-> is_Some (dict_find acc idx) \/ idx ∈ indices /\ is_Some (fetch_shard nd eid idx)) /\
      forall idx h, dict_find hashes idx = Some h -> exists d, fetch_shard nd eid idx = Some d /\ canonical_hash env d = Ok h) as Hg.
  { induction indices as [|i indices IH]; intros acc Hacc; cbn [foldM].
    - exists acc. split_and!; try done. intros idx. rewrite elem_of_nil. tauto.
    - destruct (fetch_shard nd eid i) as [data|] eqn:Ed.
      + destruct (canonical_total data) as [h Eh]. rewrite Eh. cbn [mbind result_bind]. destruct (IH (dict_set acc i h)) as (hs & E & H1 & H2).
        { intros idx h'. rewrite dict_find_set. destruct (decide (i = idx)) as [<-|]; [intros [= <-]; by exists data|apply Hacc]. }
        exists hs. split; [exact E|]. split; [|exact H2]. intros idx. rewrite H1, dict_find_set, elem_of_cons. destruct (decide (i = idx)) as [<-|]; [|naive_solver].
        rewrite Ed. split; [intros _; right; by split; [left|]|intros _; left; by eexists].
      + cbn [mbind result_bind]. destruct (IH acc Hacc) as (hs & E & H1 & H2). exists hs. split; [exact E|]. split; [|exact H2].
        intros idx. rewrite H1, elem_of_cons. split; [naive_solver|]. intros [?|[[->|?] Hs]]; [by left| |by right]. rewrite Ed in Hs. by destruct Hs. }
  destruct (Hg []) as (hs & E & H1 & H2); [done|]. exists hs. split; [exact E|]. split; [|exact H2]. intros idx. rewrite H1. cbn. split; [intros [[? ?]|?]; done|by right].
Qed.
Lemma select_indices_spec count seed : forall rng remaining selected, Z.of_nat (length selected + count) < 2 ^ 32 ->
  exists s, select_indices env count seed rng remaining selected = Ok s /\ (forall i, i ∈ s -> i ∈ selected \/ i ∈ remaining) /\
    (selected <> [] \/ (0 < count)%nat /\ remaining <> [] -> s <> []).
Proof.
  induction count as [|count IH]; intros rng remaining selected Hl; cbn [select_indices].
  - exists selected. split_and!; [done|by left|]. intros [?|[? _]]; [done|lia].
  - destruct remaining as [|r rs]; [exists selected; split_and!; [done|by left|intros [?|[_ ?]]; done]|]. set (rem := r :: rs) in *.
    set (pick := Z.to_nat (rng mod Z.of_nat (length rem))). assert (pick < length rem)%nat as Hp.
    { unfold pick. pose proof (Z.mod_pos_bound rng (Z.of_nat (length rem)) ltac:(cbn; lia)). lia. }
    assert (struct_pack 4 (Z.of_nat (length (selected ++ [rem !!! pick]))) = Ok (be_encode 4 (Z.of_nat (length (selected ++ [rem !!! pick]))))) as ->.
    { apply struct_pack_Ok. split; [|done]. change (256 ^ Z.of_nat 4) with (2 ^ 32). rewrite length_app. cbn [length]. lia. }
    cbn [mbind result_bind]. destruct (IH (be_decode (take 8 (internal_hash_bytes env (seed ++ be_encode 4 (Z.of_nat (length (selected ++ [rem !!! pick]))))))) (delete pick rem) (selected ++ [rem !!! pick]))
      as (s & E & H1 & H2); [rewrite length_app; cbn [length]; lia|].
    exists s. split; [exact E|]. split; [|intros _; apply H2; left; by destruct selected]. intros i Hi. destruct (H1 i Hi) as [Hin|Hin].
    + apply elem_of_app in Hin as [?| ->%list_elem_of_singleton]; [by left|]. right. by apply list_elem_of_lookup_total_2.
    + right. rewrite delete_take_drop in Hin. apply elem_of_app in Hin as [Hin|Hin]; [by eapply elem_of_take in Hin as (? & ? & _); eapply list_elem_of_lookup_2|].
      apply list_elem_of_lookup in Hin as [j Hj]. rewrite lookup_drop in Hj. by eapply list_elem_of_lookup_2.
Qed.
Lemma fetch_data_find nd eid indices i : dict_find (fetch_data nd eid indices) i = if decide (i ∈ indices) then fetch_shard nd eid i else None.
Proof.
  unfold fetch_data. assert (forall acc : list (Z * bytes), dict_find (fold_left (fun d idx => match fetch_shard nd eid idx with Some data => dict_set d idx data | None => d end) indices acc) i
    = if decide (i ∈ indices) then match fetch_shard nd eid i with Some d => Some d | None => dict_find acc i end else dict_find acc i) as Hg.
  { induction indices as [|j indices IH]; intros acc; cbn [fold_left]; [by rewrite decide_False by apply not_elem_of_nil|]. rewrite IH.
    destruct (decide (i = j)) as [->|Hne].
    - rewrite (decide_True (P := j ∈ j :: indices)) by left. destruct (fetch_shard nd eid j) as [d|]; [|by destruct (decide _)]. destruct (decide _); [done|]. by rewrite dict_find_set, decide_True.
    - rewrite (decide_ext (i ∈ j :: indices) (i ∈ indices)) by (rewrite elem_of_cons; naive_solver).
      assert (dict_find match fetch_shard nd eid j with Some d => dict_set acc j d | None => acc end i = dict_find acc i) as ->; [|done].
      destruct (fetch_shard nd eid j); [|done]. by rewrite dict_find_set, decide_False by congruence. }
  rewrite Hg. destruct (decide _); [|done]. by destruct (fetch_shard nd eid i).
Qed.

Lemma coefficients_ok seed s : (forall i, i ∈ s -> 0 <= i < 2 ^ 32) ->
  exists cs, mapR (fun idx => i ← struct_pack 4 idx; Ok (take 16 (internal_hash_bytes env (seed ++ i)))) s = Ok cs /\ length cs = length s.
Proof.
  induction s as [|i s IH]; intros Hs; [by exists []|]. cbn [mapR].
  assert (struct_pack 4 i = Ok (be_encode 4 i)) as -> by (apply struct_pack_Ok; split; [change (256 ^ Z.of_nat 4) with (2 ^ 32); apply Hs; left|done]).
  cbn [mbind result_bind]. destruct IH as (cs & -> & El); [intros; apply Hs; by right|]. cbn [mbind result_bind]. eexists. split; [reflexivity|]. cbn. by rewrite El.
Qed.
(** A node always passes the challenge of an entity of which it has a shard:
    what it has is compared with itself. *)
Lemma pdp_entity_spec nd epoch sample t eid indices : 1 <= sample < 2 ^ 32 -> (forall i, i ∈ indices -> 0 <= i < 2 ^ 32) ->
  exists t', pdp_entity env nd epoch sample t (eid, indices) = Ok t' /\ pt_failed t' = pt_failed t /\
    pt_passed t' = pt_passed t + if existsb (fun i => bool_decide (is_Some (fetch_shard nd eid i))) indices then 1 else 0.
Proof.
  intros Hsm Hi. unfold pdp_entity. destruct (known_hashes_spec nd eid indices) as (hashes & -> & Hdom & Hval). cbn [mbind result_bind].
  destruct hashes as [|[i0 h0] rest] eqn:Eh.
  - exists t. split; [done|]. split; [done|]. assert (existsb (fun i => bool_decide (is_Some (fetch_shard nd eid i))) indices = false) as ->; [|lia].
    apply not_true_iff_false. intros (i & Hin%list_elem_of_In & Hs)%existsb_exists. apply bool_decide_eq_true in Hs.
    destruct (proj2 (Hdom i) (conj Hin Hs)) as [h Hh]. done.
  - rewrite <- Eh in *. assert (existsb (fun i => bool_decide (is_Some (fetch_shard nd eid i))) indices = true) as ->.
    { destruct (proj1 (Hdom i0)) as [Hin Hs]; [rewrite Eh; cbn; rewrite decide_True by done; by eexists|]. apply existsb_exists. exists i0.
      split; [by apply list_elem_of_In|by apply bool_decide_eq_true]. }
    unfold pdp_challenge. set (seed := internal_hash_bytes env _). set (avail := sort_by Z.leb hashes.*1).
    assert (forall i, i ∈ avail -> is_Some (dict_find hashes i)) as Hav.
    { intros i Hin%elem_of_sort_by. destruct (dict_find hashes i) eqn:E; [by eexists|]. by apply dict_find_None in E. }
    assert (avail <> []) as Hne. { intros E. assert (i0 ∈ avail) as Hin by (apply elem_of_sort_by; rewrite Eh; left). rewrite E in Hin. by apply elem_of_nil in Hin. }
    assert (0 < length avail)%nat as Hlen by (destruct avail; [done|cbn; lia]).
    destruct (select_indices_spec (Z.to_nat (Z.min sample (Z.of_nat (length avail)))) seed (be_decode (take 8 seed)) avail []) as (sel & -> & Hsel & Hsne); [cbn [length]; lia|].
    cbn [mbind result_bind]. assert (sel <> []) as Hs by (apply Hsne; right; split; [lia|done]).
    assert (forall i, i ∈ sel -> is_Some (dict_find hashes i)) as Hsd by (intros i Hin; destruct (Hsel i Hin) as [Hx|Hx]; [by apply elem_of_nil in Hx|by apply Hav]).
    destruct (coefficients_ok seed sel) as (cs & -> & Ecs); [intros i Hin; apply Hi, Hdom, Hsd, Hin|]. cbn [mbind result_bind].
    destruct (canonical_total (eid ++ lit ":" ++ str_int epoch ++ lit ":" ++ str_ints (sort_by Z.leb sel))) as [cid ->]. cbn [mbind result_bind pc_shard_indices pc_coefficients pc_challenge_id].
    set (ch := {| pc_challenge_id := cid; pc_epoch := epoch; pc_shard_indices := sel; pc_coefficients := cs; pc_deadline_epoch := epoch + 1 |}).
    destruct (pdp_exact env (register_commitment (pt_verifier t) eid hashes) eid hashes ch hash_ok) as (agg & _ & _ & Hcomp).
    + unfold register_commitment. by rewrite dict_find_set, decide_True.
    + cbn [ch pc_shard_indices pc_coefficients]. destruct sel, cs; done.
    + exact Hsd.
    + destruct (Hcomp (fetch_data nd eid sel) 0) as (proof & Ep & Ev).
      { intros i Hin. cbn [ch pc_shard_indices] in Hin. destruct (Hsd i Hin) as [h Hh]. destruct (Hval i h Hh) as (d & Hd & Hc). exists d. rewrite fetch_data_find, decide_True by done.
        split; [done|]. rewrite Hh. cbn. by rewrite Hc. }
      change (pc_shard_indices ch) with sel in Ep. change (pc_coefficients ch) with cs in Ep. change (pc_challenge_id ch) with cid in Ep. rewrite Ep. cbn [mbind result_bind].
      fold ch. rewrite Ev. cbn [mbind result_bind]. eexists. split; [reflexivity|]. cbn. split; lia.
Qed.

Lemma group_by_entity_spec keys : forall eid i, (exists ids, (eid, ids) ∈ group_by_entity keys /\ i ∈ ids) <-> (eid, i) ∈ keys.
Proof.
  assert (forall acc : list (pystr * list Z), NoDup acc.*1 -> let d := fold_left (fun d key => dict_set d key.1 (default [] (dict_find d key.1) ++ [key.2])) keys acc in
    NoDup d.*1 /\ forall eid i, i ∈ default [] (dict_find d eid) <-> i ∈ default [] (dict_find acc eid) \/ (eid, i) ∈ keys) as Hg.
  { induction keys as [|[e j] keys IH]; intros acc Hnd; cbn zeta; cbn [fold_left]; [split; [done|]; intros; rewrite elem_of_nil; tauto|].
    destruct (IH (dict_set acc e (default [] (dict_find acc e) ++ [j])) (dict_set_NoDup _ _ _ Hnd)) as [H1 H2]. split; [exact H1|]. intros eid i. cbn [fst snd]. rewrite H2, dict_find_set, elem_of_cons.
    destruct (decide (e = eid)) as [<-|Hne]; [|split; [tauto|intros [?|[[= -> ->]|?]]; tauto]].
    cbn [from_option Datatypes.id]. rewrite elem_of_app, list_elem_of_singleton. split; [intros [[?| ->]|?]; tauto|]. intros [?|[[= ->]|?]]; tauto. }
  intros eid i. destruct (Hg [] (NoDup_nil_2)) as [H1 H2]. specialize (H2 eid i). cbn [dict_find from_option] in H2. rewrite elem_of_nil in H2. unfold group_by_entity.
  set (d := fold_left _ keys []) in *. assert ((eid, i) ∈ keys <-> i ∈ default [] (dict_find d eid)) as -> by tauto. split.
  - intros (ids & Hin & Hi). by rewrite (dict_find_elem d eid ids H1 Hin).
  - intros Hi. destruct (dict_find d eid) as [ids|] eqn:E; [|by apply elem_of_nil in Hi]. exists ids. split; [by apply dict_find_Some|done].
Qed.
Lemma pdp_entities_spec nd epoch sample entities : 1 <= sample < 2 ^ 32 -> (forall eid ids i, (eid, ids) ∈ entities -> i ∈ ids -> 0 <= i < 2 ^ 32) -> forall t,
  exists t', foldM (pdp_entity env nd epoch sample) t entities = Ok t' /\ pt_failed t' = pt_failed t /\ pt_passed t <= pt_passed t' /\
    (pt_passed t' = pt_passed t <-> forall eid ids i, (eid, ids) ∈ entities -> i ∈ ids -> fetch_shard nd eid i = None).
Proof.
  intros Hsm. induction entities as [|[e ids] entities IH]; intros Hi t; cbn [foldM].
  - exists t. split_and!; try done. split; [intros _ eid ids i Hin; by apply elem_of_nil in Hin|done].
  - destruct (pdp_entity_spec nd epoch sample t e ids Hsm) as (t1 & -> & Ef & Ep); [intros i; apply (Hi e ids i); left|]. cbn [mbind result_bind].
    destruct (IH (fun eid ids' i Hin => Hi eid ids' i (proj2 (elem_of_cons _ _ _) (or_intror Hin))) t1) as (t' & E & Ef' & Hle & Hiff).
    exists t'. split; [exact E|]. split; [congruence|]. destruct (existsb _ ids) eqn:Eb.
    + split; [lia|]. split; [lia|]. intros Hn. exfalso. apply existsb_exists in Eb as (i & Hin%list_elem_of_In & Hs). apply bool_decide_eq_true in Hs.
      rewrite (Hn e ids i) in Hs; [by destruct Hs|left|done].
    + split; [lia|]. rewrite Ep, Z.add_0_r in Hiff. rewrite Hiff. split.
      * intros Hn eid ids' i [[= -> ->]|Hin]%elem_of_cons Hi'; [|by eapply Hn]. destruct (fetch_shard nd e i) eqn:Es; [|done].
        exfalso. apply not_true_iff_false in Eb. apply Eb, existsb_exists. exists i. split; [by apply list_elem_of_In|]. apply bool_decide_eq_true. by rewrite Es.
      * intros Hn eid ids' i Hin. apply Hn. by right.
Qed.

(** Possession audits are blind to the data.  The reference hashes are made of
    what the node has at the audit: as long as it can fetch a single shard of
    its index, whatever the bytes, the audit passes and takes a strike back. *)
Theorem pdp_audit_vacuous c p epoch sample keys : 1 <= sample < 2 ^ 32 -> (p < length (cu_accounts c))%nat ->
  elements (default ∅ (node_shard_index (cu_net c) !! node_id (node_at (cu_net c) p))) = keys -> keys <> [] -> (forall key, key ∈ keys -> 0 <= key.2 < 2 ^ 32) ->
  exists r c', audit_node_pdp env c p epoch sample None = Ok (r, c') /\
    (pa_result r = true <-> exists key, key ∈ keys /\ is_Some (fetch_at (cu_net c) p key)) /\
    na_strikes (account_at c' p) = if pa_result r then Z.max 0 (na_strikes (account_at c p) - 1) else na_strikes (account_at c p) + 1.
Proof.
  intros Hsm Hp Hk Hne Hi. unfold audit_node_pdp. rewrite Hk. destruct keys as [|k0 ks]; [done|]. set (keys := k0 :: ks) in *.
  set (nd := node_at (cu_net c) p). destruct (pdp_entities_spec nd epoch sample (group_by_entity keys) Hsm) with (t := {| pt_verifier := []; pt_passed := 0; pt_failed := 0; pt_proof_bytes := 0 |})
    as (t & E & Ef & Hle & Hiff).
  { intros eid ids i Hin Hi'. apply (Hi (eid, i)). apply group_by_entity_spec. by exists ids. }
  rewrite E. cbn [mbind result_bind]. cbn [pt_failed pt_passed] in Ef, Hle, Hiff. rewrite Ef. cbn [Z.eqb andb].
  eexists _, _. split; [reflexivity|]. cbn [pa_result]. rewrite !andb_true_r.
  assert (pt_passed t = 0 <-> forall key, key ∈ keys -> fetch_at (cu_net c) p key = None) as Hz.
  { rewrite Hiff. split.
    - intros Hn [eid i] Hin. apply group_by_entity_spec in Hin as (ids & Hin & Hi'). by apply (Hn eid ids i).
    - intros Hn eid ids i Hin Hi'. apply (Hn (eid, i)). apply group_by_entity_spec. by exists ids. }
  unfold put_account, account_at. cbn [cu_update cu_accounts]. rewrite list_lookup_insert_eq by done. cbn [from_option Datatypes.id]. fold (account_at c p).
  destruct (Z.eqb_spec (pt_passed t) 0) as [E0|E0]; cbn [Z.ltb Z.compare negb].
  - split; [|done]. split; [done|]. intros (key & Hin & [d Hd]). rewrite (proj1 Hz E0 key Hin) in Hd. done.
  - split; [|done]. split; [intros _|done]. destruct (existsb (fun key => bool_decide (is_Some (fetch_at (cu_net c) p key))) keys) eqn:Ex.
    + apply existsb_exists in Ex as (key & Hin%list_elem_of_In & Hs). apply bool_decide_eq_true in Hs. by exists key.
    + exfalso. apply E0, Hz. intros key Hin. destruct (fetch_at (cu_net c) p key) eqn:Ed; [|done]. apply not_true_iff_false in Ex. destruct Ex. apply existsb_exists.
      exists key. split; [by apply list_elem_of_In|]. apply bool_decide_eq_true. by rewrite Ed.
Qed.
End PdpTheorems.

(** ** Registration after an eviction *)
Section Registration.
Context `{CanonicalHash} (decay_power : Z -> float64).

(** An eviction follows the node id: within the cooldown the id is refused;
    afterwards, with enough stake, it is registered with the number of
    evictions and the offenses it had, its reputation computed from them. *)
Theorem eviction_follows_id c p now event_time : (p < length (cu_accounts c))%nat -> length (cu_accounts c) = length (nodes (cu_net c)) ->
  let id := node_id (node_at (cu_net c) p) in
  let '(r, c') := evict_node c p now event_time in
  forall reg stake now2 admission, admission_ok admission id = Ok tt ->
    if f64_lt now2 (f64_add now EVICTION_COOLDOWN_SECONDS) then register_node decay_power c' id reg stake now2 admission = Err (ValueError "Node is in eviction cooldown")
    else if f64_lt stake MIN_STAKE_LTP then register_node decay_power c' id reg stake now2 admission = Err (ValueError "Stake below minimum")
    else exists q c'', register_node decay_power c' id reg stake now2 admission = Ok (q, c'') /\ q = length (nodes (cu_net c)) /\
      let a := account_at c'' q in
      na_eviction_count a = na_eviction_count (account_at c p) + 1 /\ history_of c'' a = history_of c (account_at c p) /\
      na_reputation_score a = reputation_of decay_power (history_of c (account_at c p)) /\ na_registered_at a = now2 /\ na_stake a = f64_add 0 stake.
Proof.
  intros Hp Hl. cbn zeta. set (id := node_id (node_at (cu_net c) p)).
  pose proof (evict_node_net c p now event_time) as Hn. cbn zeta in Hn. set (net1 := invalidate_placement_cache _) in Hn.
  pose proof (repair_all p (orphaned net1 p) net1 0 0 (orphaned_nodup net1 p)) as Ha.
  destruct (evict_node c p now event_time) as [r c'] eqn:Ee. destruct (fold_left (repair_one p) _ _) as [[rep lost] net2] eqn:Ef. destruct Hn as (N1 & _), Ha as (_ & _ & A3 & _).
  assert (length (nodes (cu_net c')) = length (cu_accounts c)) as Elen by (rewrite N1, A3; unfold net1; cbn; by rewrite length_alter).
  unfold evict_node in Ee. fold id in Ee. unfold forfeit in Ee.
  destruct (finalize_pending_slashes _) as [slashed a1] eqn:Ea.
  assert (na_history a1 = na_history (account_at c p) /\ na_eviction_count a1 = na_eviction_count (account_at c p) + 1) as [Eh Ec].
  { unfold finalize_pending_slashes in Ea. destruct (fold_left _ _ _). by injection Ea as <- <-. }
  set (w := if f64_gt (na_withheld_earnings a1) 0 then _ else _) in Ee.
  assert (exists f a2 e, w = (slashed, f, a2, e) /\ na_history a2 = na_history a1 /\ na_eviction_count a2 = na_eviction_count a1) as (f & a2 & e & -> & Eh2 & Ec2)
    by (unfold w; destruct (f64_gt (na_withheld_earnings a1) 0); by eexists _, _, _).
  fold net1 in Ee. rewrite Ef in Ee. injection Ee as _ <-. intros reg stake now2 admission Had. unfold register_node. rewrite Had. cbn [mbind result_bind].
  unfold cooldown_ok, registered_account. cbn [audit_custody cu_registry cu_histories]. rewrite dict_find_set, decide_True by done. cbn [vr_evicted_at vr_offense_history vr_eviction_count].
  destruct (f64_lt now2 _); [done|]. cbn [mbind result_bind]. destruct (f64_lt stake MIN_STAKE_LTP) eqn:Es; [done|]. unfold deposit_stake. rewrite Es.
  eexists _, _. split; [reflexivity|]. cbn [audit_custody cu_net] in Elen. split; [cbn [audit_custody cu_net]; by rewrite Elen|]. cbn zeta.
  match goal with |- context [cu_update ?X ?n (?l ++ [?a]) ?h] =>
    assert (account_at (cu_update X n (l ++ [a]) h) (length (cu_accounts c)) = a) as Hacc;
      [unfold account_at; cbn [cu_update cu_accounts]; cbn [audit_custody cu_accounts]; rewrite lookup_app_r by (by rewrite length_insert); by rewrite length_insert, Nat.sub_diag|] end.
  cbn [audit_custody cu_net] in Hacc |- *. rewrite Elen, Hacc. unfold history_of. cbn [with_stake with_record na_eviction_count na_history na_reputation_score na_registered_at na_stake new_account cu_update cu_histories].
  rewrite lookup_app_r, Nat.sub_diag by done. cbn [lookup list_lookup from_option Datatypes.id]. rewrite Eh2, Eh. split_and!; try done. by rewrite Ec2, Ec.
Qed.
End Registration.

(** ** Regions *)
Lemma fold_status net ps b : (forall q, q ∈ ps -> (q < length (nodes net))%nat) -> forall q,
  node_at (fold_left (fun net p => set_status net p b) ps net) q = if decide (q ∈ ps) then set_evicted (node_at net q) b else node_at net q.
Proof.
  revert net. induction ps as [|p ps IH]; intros net Hps q; cbn [fold_left]; [by rewrite decide_False by apply not_elem_of_nil|].
  rewrite IH. 2: { intros r Hr. unfold set_status. cbn [with_nodes nodes]. rewrite length_alter. apply Hps. by right. }
  assert (p < length (nodes net))%nat as Hp by (apply Hps; left). rewrite (set_status_node net p b q Hp).
  destruct (decide (q = p)) as [->|Hne].
  - rewrite (decide_True (P := p ∈ p :: ps)) by left. by destruct (decide (p ∈ ps)).
  - rewrite (decide_ext (q ∈ p :: ps) (q ∈ ps)) by (rewrite elem_of_cons; naive_solver). done.
Qed.
(** The end of a regional failure pardons: after [region_failure] no node of
    the region is in service, and after [restore_region] every node of it is,
    those evicted for misconduct included; other regions are not touched, and
    neither operation drops a cached placement. *)
Theorem restore_pardons net reg q : (q < length (nodes net))%nat ->
  let failed := (region_failure net reg).2 in let restored := (restore_region net reg).2 in
  in_service failed q = (if bool_decide (region (node_at net q) = reg) then false else in_service net q) /\
  in_service restored q = (if bool_decide (region (node_at net q) = reg) then true else in_service net q) /\
  placement_cache failed = placement_cache net /\ node_count_at_cache failed = node_count_at_cache net /\
  placement_cache restored = placement_cache net.
Proof.
  intros Hq. cbn zeta. unfold region_failure, restore_region. cbn [snd].
  assert (forall out p, p ∈ region_members net reg out <-> (p < length (nodes net))%nat /\ region (node_at net p) = reg /\ evicted (node_at net p) = out) as Hm.
  { intros out p. unfold region_members. rewrite list_elem_of_In, filter_In, <- list_elem_of_In, elem_of_positions, andb_true_iff, bool_decide_eq_true, eqb_true_iff. done. }
  assert (forall b ps net, placement_cache (fold_left (fun net p => set_status net p b) ps net) = placement_cache net /\
    node_count_at_cache (fold_left (fun net p => set_status net p b) ps net) = node_count_at_cache net) as Hc.
  { intros b ps. induction ps as [|p ps IH]; intros n; [done|]. cbn [fold_left]. by destruct (IH (set_status n p b)) as [-> ->]. }
  unfold in_service. rewrite !fold_status by (intros p Hp; by apply Hm in Hp as [? _]). split_and!; [..|apply Hc|apply Hc|apply Hc].
  - destruct (decide _) as [Hin|Hin]; rewrite Hm in Hin.
    + destruct Hin as (_ & Hr & _). by rewrite bool_decide_eq_true_2.
    + case_bool_decide as Hr; [|done]. destruct (evicted (node_at net q)) eqn:E; [done|]. by destruct Hin.
  - destruct (decide _) as [Hin|Hin]; rewrite Hm in Hin.
    + destruct Hin as (_ & Hr & _). by rewrite bool_decide_eq_true_2.
    + case_bool_decide as Hr; [|done]. destruct (evicted (node_at net q)) eqn:E; [by destruct Hin|done].
Qed.

(** * Witnesses and examples *)
Definition flat_power (_ : Z) : float64 := f64_one.
Definition custody_of (nds : list CommitmentNode) (index : list (pystr * list shard_key)) : Custody :=
  {| cu_net := {| nodes := nds; placement_cache := ∅; node_count_at_cache := length nds;
                  node_shard_index := list_to_map (map (fun kv => (kv.1, list_to_set kv.2)) index); geo_fence := None |};
     cu_accounts := map (fun h => with_stake (new_account h) 0x409F400000000000 0 []) (seq 0 (length nds)); cu_histories := replicate (length nds) [];
     cu_log := CommitmentLog.new_clog (demo_keypair (lit "op") 1); cu_registry := []; cu_audit_epoch := 0; cu_audit_seed := []; cu_endowment := new_endowment; cu_logger := None |}.
Definition keeper (id : string) (ds : list (Z * bytes)) : CommitmentNode :=
  fold_left (fun nd x => (store_shard nd (lit "e") x.1 x.2).2) ds (new_node (lit id) (lit "eu")).
(** Node a holds three shards; b has one of them, both b and c another. *)
Definition three_keepers : Custody :=
  custody_of [keeper "a" [(0, [10]); (1, [11]); (2, [12])]; keeper "b" [(0, [10]); (1, [11])]; keeper "c" [(1, [11])]]
    [(lit "a", [(lit "e", 0); (lit "e", 1); (lit "e", 2)]); (lit "b", [(lit "e", 0); (lit "e", 1)])].
Definition sample_nonces (n : nat) : bytes * float64 := ([Z.of_nat n], 0).

(** One shard is copied; of the two reported as lost one is still served by
    both other nodes. *)
Lemma eviction_repairs_witness : exists r c', evict_node three_keepers 0 f64_epoch f64_epoch = (r, c') /\
  fetch_at (cu_net c') 2 (lit "e", 0) = Some [10] /\ vi_repaired r = 1 /\ vi_lost r = 2 /\ fetch_at (cu_net c') 1 (lit "e", 1) = Some [11].
Proof.
  pose proof (eviction_repairs three_keepers 0 f64_epoch f64_epoch ltac:(cbn; lia)) as Ht. cbn zeta in Ht.
  destruct (evict_node three_keepers 0 f64_epoch f64_epoch) as [r c'] eqn:E. exists r, c'. destruct Ht as (_ & _ & Hf & Hk & _ & Hr & Hl & _).
  split; [reflexivity|]. split; [|split; [|split]].
  - rewrite Hf by (cbn; lia). rewrite decide_True; [vm_compute; reflexivity|]. split; [|vm_compute; reflexivity].
    assert (bool_decide ((lit "e", 0) ∈ orphaned (cu_net three_keepers) 0) = true) as Hb by (vm_compute; reflexivity). by apply bool_decide_eq_true in Hb.
  - rewrite Hr. vm_compute. reflexivity.
  - rewrite Hl. vm_compute. reflexivity.
  - apply Hk; [lia|cbn; lia|vm_compute; reflexivity].
Defined.

Definition list_of (c : Custody) (p : nat) : list shard_key := match shard_list quick_digest c p with Ok (keys, _) => keys | Err _ => [] end.
Definition strike_mult : float64 := f64_one.
Lemma audit_exact_witness : exists r c', audit_node quick_digest flat_power three_keepers 1 3 0 sample_nonces 0 0 = Ok (r, c') /\
  re_result r = true /\ na_strikes (account_at c' 1) = 0.
Proof.
  destruct (audit_exact quick_digest flat_power three_keepers 1 3 0 sample_nonces 0 0 (list_of three_keepers 1) (cu_net three_keepers) strike_mult) as (r & c' & E & Ht).
  - lia.
  - cbn. lia.
  - cbn. lia.
  - cbn. lia.
  - vm_compute. reflexivity.
  - intros key Hin. assert (forallb (fun key => bool_decide (fetch_at (cu_net three_keepers) 1 key = replica (cu_net three_keepers) 1 key)) (list_of three_keepers 1) = true) as Hb by (vm_compute; reflexivity).
    rewrite forallb_forall in Hb. specialize (Hb key (proj1 (list_elem_of_In _ _) Hin)). apply bool_decide_eq_true in Hb. intros n d d' E1 E2.
    assert (d = d') as <- by congruence. intros x y Hx Hy _. rewrite !elem_of_cons, elem_of_nil in Hx, Hy. destruct Hx as [->|[->|[]]], Hy as [->|[->|[]]]; done.
  - vm_compute. reflexivity.
  - exists r, c'. cbn zeta in Ht. assert (existsb (disputed (cu_net three_keepers) 1) (list_of three_keepers 1) = false) as Hb by (vm_compute; reflexivity). rewrite Hb in Ht.
    destruct Ht as (H1 & _ & _ & _ & _ & H2 & _). split; [exact E|]. split; [exact H1|]. rewrite H2. vm_compute. reflexivity.
Defined.
(** An honest node is struck when an earlier node has a corrupt copy, and a
    node whose only copy is corrupt passes. *)
Definition corrupt_first : Custody :=
  custody_of [keeper "a" [(0, [99])]; keeper "b" [(0, [10])]; keeper "c" [(0, [10]); (1, [77])]]
    [(lit "b", [(lit "e", 0)]); (lit "c", [(lit "e", 1)])].
Example honest_node_struck :
  match audit_node quick_digest flat_power corrupt_first 1 1 0 sample_nonces 0 0 with Ok (r, _) => Some (re_result r, re_strikes r) | Err _ => None end = Some (false, 1) /\
  match audit_node quick_digest flat_power corrupt_first 2 1 0 sample_nonces 0 0 with Ok (r, _) => Some (re_result r) | Err _ => None end = Some true.
Proof. split; vm_compute; reflexivity. Qed.

(** The node serves garbage for one shard and lost the other. *)
Definition garbage : Custody := custody_of [keeper "a" [(0, [6; 6; 6])]] [(lit "a", [(lit "e", 0); (lit "e", 1)])].
Lemma pdp_audit_vacuous_witness : exists r c', audit_node_pdp demo_env garbage 0 5 4 None = Ok (r, c') /\ pa_result r = true.
Proof.
  destruct (pdp_audit_vacuous demo_env demo_lib_ok (conj eq_refl eq_refl) garbage 0 5 4 (elements (default ∅ (node_shard_index (cu_net garbage) !! lit "a")))) as (r & c' & E & Hr & _).
  - lia.
  - cbn. lia.
  - reflexivity.
  - vm_compute. discriminate.
  - intros key Hin. assert (forallb (fun key : shard_key => (0 <=? key.2) && (key.2 <? 2 ^ 32)) (elements (default ∅ (node_shard_index (cu_net garbage) !! lit "a"))) = true) as Hb by (vm_compute; reflexivity).
    rewrite forallb_forall in Hb. specialize (Hb key (proj1 (list_elem_of_In _ _) Hin)). apply andb_prop in Hb as [H1%Z.leb_le H2%Z.ltb_lt]. done.
  - exists r, c'. split; [exact E|]. apply Hr. exists (lit "e", 0). split; [|vm_compute; by eexists].
    assert (bool_decide ((lit "e", 0) ∈ elements (default ∅ (node_shard_index (cu_net garbage) !! lit "a"))) = true) as Hb by (vm_compute; reflexivity).
    by apply bool_decide_eq_true in Hb.
Defined.

Lemma eviction_follows_id_witness : exists q c'', 
  register_node flat_power (evict_node three_keepers 0 f64_epoch f64_epoch).2 (lit "a") (lit "eu") MIN_STAKE_LTP (f64_add (f64_add f64_epoch EVICTION_COOLDOWN_SECONDS) f64_one) None = Ok (q, c'') /\ na_eviction_count (account_at c'' q) = 1.
Proof.
  pose proof (eviction_follows_id flat_power three_keepers 0 f64_epoch f64_epoch ltac:(cbn; lia) eq_refl) as Ht. cbn zeta in Ht.
  destruct (evict_node three_keepers 0 f64_epoch f64_epoch) as [r c']. specialize (Ht (lit "eu") MIN_STAKE_LTP (f64_add (f64_add f64_epoch EVICTION_COOLDOWN_SECONDS) f64_one) None eq_refl).
  assert (f64_lt (f64_add (f64_add f64_epoch EVICTION_COOLDOWN_SECONDS) f64_one) (f64_add f64_epoch EVICTION_COOLDOWN_SECONDS) = false) as Hl by (vm_compute; reflexivity). rewrite Hl in Ht.
  assert (f64_lt MIN_STAKE_LTP MIN_STAKE_LTP = false) as Hs by (vm_compute; reflexivity). rewrite Hs in Ht.
  destruct Ht as (q & c'' & E & _ & Hc & _). exists q, c''. split; [exact E|]. exact Hc.
Defined.
Lemma restore_pardons_witness : in_service (restore_region (set_status (cu_net three_keepers) 0 true) (lit "eu")).2 0 = true.
Proof. destruct (restore_pardons (set_status (cu_net three_keepers) 0 true) (lit "eu") 0) as (_ & H & _); [cbn; lia|]. rewrite H. reflexivity. Defined.

(** A placement cached before a regional failure is still used: the shard is
    distributed to the failed nodes, which drop it, and nobody serves it. *)
Example shard_stored_nowhere :
  let net := cu_net (custody_of [new_node (lit "a") (lit "us"); new_node (lit "b") (lit "eu"); new_node (lit "c") (lit "us")] []) in
  match placement quick_digest net (lit "e") 0 1 with
  | Ok (targets, cached) =>
      let failed := (region_failure cached (region (node_at cached (hd 0%nat targets)))).2 in
      match distribute_encrypted_shards_with_ttl quick_digest failed (lit "e") [[1; 2; 3]] 0 None 1 with
      | Ok (_, net') => existsb (fun q => bool_decide (is_Some (fetch_at net' q (lit "e", 0)))) (positions net') = false /\ existsb (in_service net') (positions net') = true
      | Err _ => False
      end
  | Err _ => False
  end.
Proof. vm_compute. split; reflexivity. Qed.
