(* ===== verification/Streaming.v ===== *)
(** Chunked entity streams, src/src/ltp/streaming.py: the life cycle of a
    stream, its chunks, the manifest that binds them, reassembly and the
    pipelining schedule.  Clock readings and the identity of the manager are
    arguments. *)

From Stdlib Require Import SpecFloat.
From S2P Require Import Prelude Float64 Hashing Primitives Json.

Inductive StreamState : Type := OPEN | CLOSED | FINALIZED | FAILED.
#[export] Instance StreamState_eq_dec : EqDecision StreamState.
Proof. solve_decision. Defined.
Record StreamConfig : Type := {
  sc_chunk_size_bytes : Z;
  sc_max_concurrent_chunks : Z;
  sc_pipeline_enabled : bool;
  sc_max_chunks_per_stream : Z;
  sc_stream_timeout_epochs : Z
}.
Definition default_stream_config : StreamConfig :=
  {| sc_chunk_size_bytes := 65536; sc_max_concurrent_chunks := 4; sc_pipeline_enabled := true; sc_max_chunks_per_stream := 100000; sc_stream_timeout_epochs := 720 |}.
Record StreamChunk : Type := {
  ck_stream_id : pystr;
  ck_sequence : Z;
  ck_data : bytes;
  ck_chunk_entity_id : pystr;
  ck_committed : bool;
  ck_committed_epoch : Z
}.
Definition size_bytes (c : StreamChunk) : Z := len (ck_data c).
Record StreamManifest : Type := {
  sm_stream_id : pystr;
  sm_stream_entity_id : pystr;
  sm_total_chunks : Z;
  sm_total_size : Z;
  sm_shape : pystr;
  sm_chunk_entity_ids : list pystr;
  sm_created_at : float64;
  sm_finalized_at : float64
}.
Definition is_complete (m : StreamManifest) : bool := Z.of_nat (length (sm_chunk_entity_ids m)) =? sm_total_chunks m.
(** The metadata dictionary of a stream. *)
Record StreamInfo : Type := {
  si_state : StreamState;
  si_sender_id : pystr;
  si_shape : pystr;
  si_total_size_hint : Z;
  si_created_at : float64;
  si_created_epoch : Z;
  si_chunk_count : Z;
  si_total_bytes : Z
}.
Definition si_update (s : StreamInfo) (state : StreamState) (chunk_count total_bytes : Z) : StreamInfo :=
  {| si_state := state; si_sender_id := si_sender_id s; si_shape := si_shape s; si_total_size_hint := si_total_size_hint s; si_created_at := si_created_at s;
     si_created_epoch := si_created_epoch s; si_chunk_count := chunk_count; si_total_bytes := total_bytes |}.
Record EntityStream : Type := {
  es_config : StreamConfig;
  es_streams : list (pystr * StreamInfo);
  es_chunks : list (pystr * list (option StreamChunk))
}.
Definition new_entity_stream (config : StreamConfig) : EntityStream := {| es_config := config; es_streams := []; es_chunks := [] |}.
Definition put_stream (e : EntityStream) (stream_id : pystr) (info : StreamInfo) (chunks : list (option StreamChunk)) : EntityStream :=
  {| es_config := es_config e; es_streams := dict_set (es_streams e) stream_id info; es_chunks := dict_set (es_chunks e) stream_id chunks |}.
Definition put_info (e : EntityStream) (stream_id : pystr) (info : StreamInfo) : EntityStream :=
  {| es_config := es_config e; es_streams := dict_set (es_streams e) stream_id info; es_chunks := es_chunks e |}.
Definition chunks_of (e : EntityStream) (stream_id : pystr) : list (option StreamChunk) := default [] (dict_find (es_chunks e) stream_id).

Section Streams.
Context `{CanonicalHash}.

(** [now] and [now'] are two readings of the clock, [self_id] is [id(self)]. *)
Definition open_stream (e : EntityStream) (sender_id shape : pystr) (total_size_hint : Z) (now now' : float64) (self_id : Z) : pystr * EntityStream :=
  let stream_id := chash_str (sender_id ++ lit ":" ++ shape ++ lit ":" ++ float_repr now ++ lit ":" ++ str_int self_id) in
  (stream_id, put_stream e stream_id
     {| si_state := OPEN; si_sender_id := sender_id; si_shape := shape; si_total_size_hint := total_size_hint; si_created_at := now';
        si_created_epoch := -1; si_chunk_count := 0; si_total_bytes := 0 |} []).

Definition chunk_id (stream_id : pystr) (sequence : Z) (data : bytes) : result pystr :=
  s ← int_to_bytes 4 sequence; Ok (chash_str (stream_id ++ s ++ data)).
(** [while len(chunks) <= n: chunks.append(None)], then [chunks[n] = chunk]. *)
Definition place_chunk (chunks : list (option StreamChunk)) (n : nat) (chunk : StreamChunk) : list (option StreamChunk) :=
  <[n := Some chunk]> (chunks ++ replicate (S n - length chunks) None).
Definition add_chunk (e : EntityStream) (stream_id : pystr) (data : bytes) (sequence : option Z) : result (StreamChunk * EntityStream) :=
  match dict_find (es_streams e) stream_id with
  | None => Err (ValueError "Unknown stream")
  | Some s =>
      if negb (bool_decide (si_state s = OPEN)) then Err (ValueError "Stream is not open")
      else
        let sequence := default (si_chunk_count s) sequence in
        if sc_max_chunks_per_stream (es_config e) <=? sequence then Err (ValueError "Chunk sequence exceeds maximum")
        else
          chunk_entity_id ← chunk_id stream_id sequence data;
          let chunk := {| ck_stream_id := stream_id; ck_sequence := sequence; ck_data := data; ck_chunk_entity_id := chunk_entity_id;
                          ck_committed := false; ck_committed_epoch := -1 |} in
          Ok (chunk, put_stream e stream_id (si_update s (si_state s) (Z.max (si_chunk_count s) (sequence + 1)) (si_total_bytes s + len data))
                       (place_chunk (chunks_of e stream_id) (Z.to_nat sequence) chunk))
  end.

(** [xs[i]] with Python's negative indices: the position, if there is one. *)
Definition list_index {A} (xs : list A) (i : Z) : option nat :=
  let n := Z.of_nat (length xs) in
  if 0 <=? i then (if i <? n then Some (Z.to_nat i) else None) else (if 0 <=? n + i then Some (Z.to_nat (n + i)) else None).
Definition commit_chunk (c : StreamChunk) (epoch : Z) : StreamChunk :=
  {| ck_stream_id := ck_stream_id c; ck_sequence := ck_sequence c; ck_data := ck_data c; ck_chunk_entity_id := ck_chunk_entity_id c; ck_committed := true;
     ck_committed_epoch := epoch |}.
Definition mark_chunk_committed (e : EntityStream) (stream_id : pystr) (sequence epoch : Z) : result (bool * EntityStream) :=
  match dict_find (es_chunks e) stream_id with
  | None => Ok (false, e)
  | Some chunks =>
      if Z.of_nat (length chunks) <=? sequence then Ok (false, e)
      else match list_index chunks sequence with
           | None => Err IndexError
           | Some n => match chunks !! n with
                       | Some (Some c) => Ok (true, {| es_config := es_config e; es_streams := es_streams e;
                                                       es_chunks := dict_set (es_chunks e) stream_id (<[n := Some (commit_chunk c epoch)]> chunks) |})
                       | _ => Ok (false, e)
                       end
           end
  end.
Definition close_stream (e : EntityStream) (stream_id : pystr) : bool * EntityStream :=
  match dict_find (es_streams e) stream_id with
  | None => (false, e)
  | Some s => if bool_decide (si_state s = OPEN) then (true, put_info e stream_id (si_update s CLOSED (si_chunk_count s) (si_total_bytes s))) else (false, e)
  end.

(** The chunks, when there are some and none is missing. *)
Definition all_chunks (chunks : list (option StreamChunk)) : option (list StreamChunk) :=
  match chunks with [] => None | _ => mapM (fun c => c) chunks end.
Definition aggregate_input (stream_id : pystr) (chunk_ids : list pystr) : bytes := stream_id ++ concat chunk_ids.
Definition finalize_stream (e : EntityStream) (stream_id : pystr) (now : float64) : option StreamManifest * EntityStream :=
  match dict_find (es_streams e) stream_id with
  | None => (None, e)
  | Some s =>
      if negb (bool_decide (si_state s ∈ [CLOSED; OPEN])) then (None, e)
      else match all_chunks (chunks_of e stream_id) with
           | None => (None, e)
           | Some chunks =>
               let chunk_ids := map ck_chunk_entity_id chunks in
               (Some {| sm_stream_id := stream_id; sm_stream_entity_id := chash_str (aggregate_input stream_id chunk_ids);
                        sm_total_chunks := Z.of_nat (length chunks); sm_total_size := si_total_bytes s; sm_shape := si_shape s;
                        sm_chunk_entity_ids := chunk_ids; sm_created_at := si_created_at s; sm_finalized_at := now |},
                put_info e stream_id (si_update s FINALIZED (si_chunk_count s) (si_total_bytes s)))
           end
  end.
Definition get_chunk (e : EntityStream) (stream_id : pystr) (sequence : Z) : result (option StreamChunk) :=
  match dict_find (es_chunks e) stream_id with
  | None => Ok None
  | Some chunks => if Z.of_nat (length chunks) <=? sequence then Ok None
                   else match list_index chunks sequence with None => Err IndexError | Some n => Ok (chunks !!! n) end
  end.
Definition get_stream_state (e : EntityStream) (stream_id : pystr) : option StreamState := si_state <$> dict_find (es_streams e) stream_id.
Definition get_committed_chunks (e : EntityStream) (stream_id : pystr) : list StreamChunk :=
  List.filter ck_committed (omap (fun c => c) (chunks_of e stream_id)).
Definition reassemble_stream (e : EntityStream) (stream_id : pystr) : option bytes :=
  (fun cs => concat (map ck_data cs)) <$> all_chunks (chunks_of e stream_id).
Definition active_streams (e : EntityStream) : list pystr :=
  map fst (List.filter (fun kv : pystr * StreamInfo => bool_decide (si_state kv.2 ∈ [OPEN; CLOSED])) (es_streams e)).
Definition finalized_streams (e : EntityStream) : list pystr :=
  map fst (List.filter (fun kv : pystr * StreamInfo => bool_decide (si_state kv.2 = FINALIZED)) (es_streams e)).
End Streams.

(** * The pipelining schedule *)
(** [round(x, 2)]: the decimal nearest to the exact value, ties to even, read
    back as a double. *)
Definition round2 (w : float64) : result float64 :=
  match sf_fraction (f64_of_bits w) with
  | Some (n, d) => int_truediv (round_half_even (100 * n) d) 100
  | None => Ok w
  end.
Record Schedule : Type := {
  sd_total_size : Z;
  sd_chunk_size : Z;
  sd_chunk_count : Z;
  sd_pipeline_depth : Z;
  sd_monolithic_sequential_phases : Z;
  sd_pipelined_sequential_phases : Z;
  sd_speedup_factor : float64
}.
Definition compute_pipeline_schedule (cfg : StreamConfig) (total_size : Z) : result Schedule :=
  if sc_chunk_size_bytes cfg =? 0 then Err ZeroDivisionError
  else
    let chunk_count := Z.max 1 ((total_size + sc_chunk_size_bytes cfg - 1) / sc_chunk_size_bytes cfg) in
    let pipeline_depth := Z.min (sc_max_concurrent_chunks cfg) chunk_count in
    let pipelined_phases := 1 + Z.max 0 (chunk_count - pipeline_depth) in
    speedup ← (if 1 <? pipeline_depth then x ← int_truediv chunk_count (Z.max 1 pipelined_phases); round2 x else Ok f64_one);
    Ok {| sd_total_size := total_size; sd_chunk_size := sc_chunk_size_bytes cfg; sd_chunk_count := chunk_count; sd_pipeline_depth := pipeline_depth;
          sd_monolithic_sequential_phases := 1; sd_pipelined_sequential_phases := pipelined_phases; sd_speedup_factor := speedup |}.

(** * Theorems *)
Section Theorems.
Context `{CanonicalHash}.

Lemma place_chunk_spec cs n c i : place_chunk cs n c !! i =
  if decide (i = n) then Some (Some c) else if decide (i < length cs)%nat then cs !! i else if decide (i < n)%nat then Some None else None.
Proof.
  unfold place_chunk. destruct (decide (i = n)) as [->|Hne].
  - rewrite list_lookup_insert_eq; [done|]. rewrite length_app, length_replicate. lia.
  - rewrite list_lookup_insert_ne by done. destruct (decide (i < length cs)%nat) as [Hl|Hl]; [by apply lookup_app_l|].
    rewrite lookup_app_r by lia. destruct (decide (i < n)%nat); [apply lookup_replicate_2; lia|]. apply lookup_ge_None_2. rewrite length_replicate. lia.
Qed.
Lemma place_chunk_length cs n c : length (place_chunk cs n c) = (length cs `max` S n)%nat.
Proof. unfold place_chunk. rewrite length_insert, length_app, length_replicate. lia. Qed.

(** The chunk of a stream with a position and data. *)
Definition chunk_at (stream_id : pystr) (i : nat) (data : bytes) : StreamChunk :=
  {| ck_stream_id := stream_id; ck_sequence := Z.of_nat i; ck_data := data; ck_chunk_entity_id := chash_str (stream_id ++ be_encode 4 (Z.of_nat i) ++ data);
     ck_committed := false; ck_committed_epoch := -1 |}.
Definition add_all (e : EntityStream) (stream_id : pystr) (adds : list (nat * bytes)) : result EntityStream :=
  foldM (fun e (x : nat * bytes) => '(_, e) ← add_chunk e stream_id x.2 (Some (Z.of_nat x.1)); Ok e) e adds.

Lemma add_all_spec sid s0 adds e0 : dict_find (es_streams e0) sid = Some s0 -> si_state s0 = OPEN -> si_total_bytes s0 = 0 -> chunks_of e0 sid = [] ->
  NoDup adds.*1 -> (forall i d, (i, d) ∈ adds -> Z.of_nat i < sc_max_chunks_per_stream (es_config e0) /\ Z.of_nat i < 2 ^ 32) ->
  exists e s, add_all e0 sid adds = Ok e /\ dict_find (es_streams e) sid = Some s /\ si_state s = OPEN /\ si_shape s = si_shape s0 /\
    si_total_bytes s = sumZ (map (fun x => len x.2) adds) /\ (forall i c, chunks_of e sid !! i = Some (Some c) <-> exists d, (i, d) ∈ adds /\ c = chunk_at sid i d) /\
    (forall n, (forall i d, (i, d) ∈ adds -> (i < n)%nat) -> (length (chunks_of e sid) <= n)%nat).
Proof.
  intros Hd Hs Ht Hc. revert adds. apply (rev_ind (fun adds => NoDup adds.*1 -> _ -> _)).
  - intros _ _. exists e0, s0. rewrite Hc. split_and!; try done; [|cbn; lia]. intros i c. rewrite lookup_nil. split; [done|]. intros (d & Hin & _). by apply elem_of_nil in Hin.
  - intros [n d] adds IH Hnd Hb. rewrite fmap_app in Hnd. apply NoDup_app in Hnd as (Hnd & Hni & _).
    destruct IH as (e & s & E & E1 & E2 & E3 & E4 & E5 & E6); [done|intros i d' Hin; apply (Hb i d'); apply elem_of_app; by left|].
    assert (es_config e = es_config e0) as Ecfg.
    { clear -E. revert e0 E. induction adds as [|x xs IH]; intros e0 E; [by injection E as <-|]. cbn [add_all foldM] in E. unfold add_chunk in E.
      destruct (dict_find (es_streams e0) sid) as [s|]; [|done]. destruct (negb _); [done|]. destruct (_ <=? _); [done|]. destruct (chunk_id _ _ _) as [h|]; [|done].
      cbn [mbind result_bind] in E. by apply IH in E. }
    destruct (Hb n d) as [Hm Hn32]; [apply elem_of_app; right; left|].
    unfold add_all. rewrite foldM_app. fold (add_all e0 sid adds). rewrite E. cbn [mbind result_bind foldM fst snd]. unfold add_chunk. rewrite E1, E2, bool_decide_eq_true_2 by done. cbn [negb default].
    cbn [from_option Datatypes.id]. rewrite Ecfg. destruct (Z.leb_spec (sc_max_chunks_per_stream (es_config e0)) (Z.of_nat n)); [lia|].
    assert (int_to_bytes 4 (Z.of_nat n) = Ok (be_encode 4 (Z.of_nat n))) as Eb by (apply int_to_bytes_Ok; split; [change (256 ^ Z.of_nat 4) with (2 ^ 32); lia|done]).
    unfold chunk_id. rewrite Eb. cbn [mbind result_bind]. eexists _, _. split; [reflexivity|]. cbn [put_stream es_streams]. rewrite dict_find_set, decide_True by done. split; [reflexivity|].
    cbn [si_update si_state si_shape si_total_bytes]. split; [done|]. split; [done|]. split; [|split].
    + rewrite E4, map_app. cbn [map snd]. rewrite sumZ_app. cbn. lia.
    + intros i c. unfold chunks_of at 1. cbn [put_stream es_chunks]. rewrite dict_find_set, decide_True by done. cbn [from_option Datatypes.id]. rewrite Nat2Z.id, place_chunk_spec.
      destruct (decide (i = n)) as [->|Hne].
      * split; [intros [= <-]; exists d; split; [apply elem_of_app; right; left|done]|]. intros (d' & Hin & ->). apply elem_of_app in Hin as [Hin|Hin].
        -- exfalso. apply (Hni n); [apply list_elem_of_fmap; by exists (n, d')|left].
        -- by apply list_elem_of_singleton in Hin as [= ->].
      * assert ((if decide (i < length (chunks_of e sid))%nat then chunks_of e sid !! i else if decide (i < n)%nat then Some None else None) = Some (Some c) <-> chunks_of e sid !! i = Some (Some c)) as ->.
        { destruct (decide (i < length (chunks_of e sid))%nat); [done|]. rewrite (lookup_ge_None_2 (chunks_of e sid)) by lia. by destruct (decide (i < n)%nat). }
        rewrite E5. split; intros (d' & Hin & ->); exists d'; (split; [|done]); [apply elem_of_app; by left|].
        apply elem_of_app in Hin as [?|Hin]; [done|]. by apply list_elem_of_singleton in Hin as [= -> ->].
    + intros m Hm'. unfold chunks_of at 1. cbn [put_stream es_chunks]. rewrite dict_find_set, decide_True by done. cbn [from_option Datatypes.id]. rewrite Nat2Z.id, place_chunk_length.
      assert (n < m)%nat by (apply (Hm' n d); apply elem_of_app; right; left). assert (length (chunks_of e sid) <= m)%nat; [|lia].
      apply E6. intros i d' Hin. apply (Hm' i d'). apply elem_of_app. by left.
Qed.

Lemma sumZ_perm xs ys : xs ≡ₚ ys -> sumZ xs = sumZ ys.
Proof. induction 1; cbn in *; lia. Qed.
Lemma mapM_id_Some {A} (xs : list A) : mapM (fun c : option A => c) (map Some xs) = Some xs.
Proof. induction xs as [|x xs IH]; [done|]. cbn. by rewrite IH. Qed.

(** Chunks in any order.  Chunks for all positions, added in any order, are
    reassembled to their concatenation; closing and finalizing the stream
    gives a complete manifest over the chunk identifiers in order, with the
    size of the content, and leaves the content as it is. *)
Theorem stream_reassembles cfg sender shape hint now now' self datas adds now2 :
  let '(sid, e0) := open_stream (new_entity_stream cfg) sender shape hint now now' self in
  datas <> [] -> adds ≡ₚ imap pair datas -> Z.of_nat (length datas) <= sc_max_chunks_per_stream cfg -> Z.of_nat (length datas) <= 2 ^ 32 ->
  exists e, add_all e0 sid adds = Ok e /\ reassemble_stream e sid = Some (concat datas) /\
    let '(closed, e1) := close_stream e sid in closed = true /\
    let '(manifest, e2) := finalize_stream e1 sid now2 in
    get_stream_state e2 sid = Some FINALIZED /\ reassemble_stream e2 sid = Some (concat datas) /\
    exists m, manifest = Some m /\ is_complete m = true /\ sm_total_chunks m = Z.of_nat (length datas) /\ sm_total_size m = len (concat datas) /\ sm_shape m = shape /\
      sm_chunk_entity_ids m = imap (fun i d => ck_chunk_entity_id (chunk_at sid i d)) datas /\
      sm_stream_entity_id m = chash_str (aggregate_input sid (sm_chunk_entity_ids m)).
Proof.
  unfold open_stream. set (sid := chash_str _). set (info := {| si_state := OPEN; si_sender_id := sender |}). set (e0 := put_stream _ _ _ _).
  intros Hne Hp Hmax H32. assert (forall i d, (i, d) ∈ adds <-> datas !! i = Some d) as Hin.
  { intros i d. rewrite Hp, list_elem_of_lookup. split; [intros [k Hk]; apply list_lookup_imap_Some in Hk as (x & Hx & [= -> ->]); done|]. intros Hd. exists i. rewrite list_lookup_imap, Hd. done. }
  assert (NoDup adds.*1) as Hnd.
  { rewrite Hp. assert ((imap pair datas).*1 = seq 0 (length datas)) as ->; [|apply NoDup_seq]. apply list_eq. intros i. rewrite list_lookup_fmap, list_lookup_imap.
    destruct (datas !! i) eqn:E; cbn; [by rewrite lookup_seq_lt by (by eapply lookup_lt_Some)|]. rewrite lookup_seq_ge; [done|]. by apply lookup_ge_None. }
  assert (dict_find (es_streams e0) sid = Some info) as Hi by (cbn; by rewrite decide_True). assert (chunks_of e0 sid = []) as Hc0 by (unfold chunks_of; cbn; by rewrite decide_True).
  destruct (add_all_spec sid info adds e0 Hi eq_refl eq_refl Hc0 Hnd) as (e & s & E & Es & Est & Esh & Etot & Hc & Hlen).
  { intros i d Hd%Hin. apply lookup_lt_Some in Hd. cbn [e0 put_stream es_config new_entity_stream]. lia. }
  assert (chunks_of e sid = map Some (imap (chunk_at sid) datas)) as Ech.
  { apply list_eq. intros i. rewrite lookup_map, list_lookup_imap. destruct (datas !! i) as [d|] eqn:Ed; cbn.
    - apply Hc. exists d. split; [by apply Hin|done].
    - apply lookup_ge_None_2. apply lookup_ge_None in Ed. assert (length (chunks_of e sid) <= length datas)%nat; [|lia].
      apply Hlen. intros j d Hd%Hin. by eapply lookup_lt_Some. }
  assert (all_chunks (chunks_of e sid) = Some (imap (chunk_at sid) datas)) as Eall.
  { rewrite Ech. unfold all_chunks. rewrite mapM_id_Some. destruct datas; [done|]. done. }
  assert (map ck_data (imap (chunk_at sid) datas) = datas) as Edata.
  { apply list_eq. intros i. rewrite lookup_map, list_lookup_imap. by destruct (datas !! i). }
  exists e. split; [exact E|]. split; [unfold reassemble_stream; rewrite Eall; cbn; by rewrite Edata|].
  unfold close_stream. rewrite Es, bool_decide_eq_true_2 by done. split; [done|]. unfold finalize_stream. cbn [put_info es_streams]. rewrite dict_find_set, decide_True by done.
  cbn [si_update si_state]. rewrite bool_decide_eq_true_2 by left. cbn [negb]. change (chunks_of (put_info e sid _) sid) with (chunks_of e sid). rewrite Eall.
  split; [unfold get_stream_state; cbn [put_info es_streams]; by rewrite dict_find_set, decide_True|].
  split; [unfold reassemble_stream; change (chunks_of (put_info _ sid _) sid) with (chunks_of e sid); rewrite Eall; cbn; by rewrite Edata|].
  eexists. split; [reflexivity|]. unfold is_complete. cbn [sm_chunk_entity_ids sm_total_chunks sm_total_size sm_shape sm_stream_entity_id].
  rewrite length_map, length_imap. split_and!; [apply Z.eqb_refl|done| |exact Esh| |done].
  - cbn [si_update si_total_bytes]. rewrite Etot. rewrite (sumZ_perm _ (map (fun x => len x.2) (imap pair datas))) by (by rewrite Hp).
    assert (map (fun x : nat * bytes => len x.2) (imap pair datas) = map len datas) as -> by (apply list_eq; intros i; rewrite !lookup_map, list_lookup_imap; by destruct (datas !! i)).
    clear. unfold len. induction datas as [|d ds IH]; [done|]. cbn [map concat]. rewrite sumZ_cons, length_app. lia.
  - apply list_eq. intros i. rewrite lookup_map, !list_lookup_imap. by destruct (datas !! i).
Qed.

(** ** Runs *)
Inductive stream_op : Type :=
| SOpen (sender shape : pystr) (hint : Z) (now now' : float64) (self : Z) | SAdd (id : pystr) (data : bytes) (sequence : option Z)
| SMark (id : pystr) (sequence epoch : Z) | SClose (id : pystr) | SFinalize (id : pystr) (now : float64).
(** One operation; one that raises changes nothing. *)
Definition stream_step (e : EntityStream) (o : stream_op) : EntityStream :=
  match o with
  | SOpen sender shape hint now now' self => (open_stream e sender shape hint now now' self).2
  | SAdd id d q => match add_chunk e id d q with Ok (_, e') => e' | Err _ => e end
  | SMark id q ep => match mark_chunk_committed e id q ep with Ok (_, e') => e' | Err _ => e end
  | SClose id => (close_stream e id).2
  | SFinalize id now => (finalize_stream e id now).2
  end.
Definition opens (o : stream_op) (id : pystr) : Prop :=
  match o with SOpen sender shape hint now now' self => (open_stream (new_entity_stream default_stream_config) sender shape hint now now' self).1 = id | _ => False end.

(** What every reachable manager satisfies of every chunk: it carries its
    stream, its position and the identifier of its content. *)
Definition chunk_sound (id : pystr) (i : nat) (c : StreamChunk) : Prop :=
  ck_stream_id c = id /\ ck_sequence c = Z.of_nat i /\ chunk_id id (Z.of_nat i) (ck_data c) = Ok (ck_chunk_entity_id c).
Definition chunks_sound (e : EntityStream) : Prop := forall id i c, chunks_of e id !! i = Some (Some c) -> chunk_sound id i c.
Lemma chunks_of_put e id info cs id' : chunks_of (put_stream e id info cs) id' = if decide (id = id') then cs else chunks_of e id'.
Proof. unfold chunks_of. cbn [put_stream es_chunks]. rewrite dict_find_set. by destruct (decide (id = id')). Qed.
Lemma stream_step_sound e o : chunks_sound e -> chunks_sound (stream_step e o).
Proof.
  intros Hs. destruct o; cbn [stream_step].
  - intros id' i c. unfold open_stream. cbn [snd]. rewrite chunks_of_put. destruct (decide _); [by rewrite lookup_nil|apply Hs].
  - unfold add_chunk. destruct (dict_find (es_streams e) id) as [s|]; [|done]. destruct (negb _); [done|]. destruct (_ <=? _); [done|].
    destruct (chunk_id id (default (si_chunk_count s) sequence) data) as [h|] eqn:Eh; [|done]. cbn [mbind result_bind]. intros id' i c. rewrite chunks_of_put.
    destruct (decide (id = id')) as [<-|]; [|apply Hs]. rewrite place_chunk_spec.
    assert (0 <= default (si_chunk_count s) sequence) as Hq.
    { unfold chunk_id in Eh. destruct (int_to_bytes 4 (default (si_chunk_count s) sequence)) as [b|] eqn:Eb; [|done]. by apply int_to_bytes_Ok in Eb as [[? _] _]. }
    destruct (decide (i = Z.to_nat _)) as [->|]; [|destruct (decide _); [apply Hs|by destruct (decide _)]]. intros [= <-]. unfold chunk_sound. cbn [ck_stream_id ck_sequence ck_data ck_chunk_entity_id].
    by rewrite Z2Nat.id.
  - unfold mark_chunk_committed. destruct (dict_find (es_chunks e) id) as [cs|] eqn:Ed; [|done]. destruct (_ <=? _); [done|]. destruct (list_index cs sequence) as [n|]; [|done].
    destruct (cs !! n) as [[c0|]|] eqn:En; [|done..]. intros id' i c. unfold chunks_of. cbn [es_chunks]. rewrite dict_find_set. destruct (decide (id = id')) as [<-|]; [|apply Hs].
    cbn [from_option Datatypes.id]. destruct (decide (i = n)) as [->|Hne].
    + rewrite list_lookup_insert_eq by (by eapply lookup_lt_Some). intros [= <-]. apply (Hs id n c0). unfold chunks_of. by rewrite Ed.
    + rewrite list_lookup_insert_ne by done. intros Hc. apply Hs. unfold chunks_of. by rewrite Ed.
  - unfold close_stream. destruct (dict_find _ _); [|done]. by destruct (bool_decide _).
  - unfold finalize_stream. destruct (dict_find _ _); [|done]. destruct (negb _); [done|]. by destruct (all_chunks _).
Qed.
Lemma stream_run_sound cfg ops : chunks_sound (fold_left stream_step ops (new_entity_stream cfg)).
Proof.
  assert (forall e, chunks_sound e -> chunks_sound (fold_left stream_step ops e)) as Hg by (induction ops as [|o ops IH]; intros e He; [done|]; apply IH; by apply stream_step_sound).
  apply Hg. intros id i c. unfold chunks_of. cbn. by rewrite lookup_nil.
Qed.

(** The strings that bind a manifest to its content. *)
Definition manifest_inputs (m : StreamManifest) (datas : list bytes) : list bytes :=
  aggregate_input (sm_stream_id m) (sm_chunk_entity_ids m) :: imap (fun i d => sm_stream_id m ++ be_encode 4 (Z.of_nat i) ++ d) datas.
Lemma chash_str_len x y : length (chash_str x) = length (chash_str y).
Proof. unfold chash_str. rewrite !length_app, !hex_length. cbn. by rewrite !chash_length. Qed.
Lemma concat_hashes_inj n xs ys : (0 < n)%nat -> Forall (fun x : pystr => length x = n) xs -> Forall (fun x => length x = n) ys -> concat xs = concat ys -> xs = ys.
Proof.
  intros Hn Hx. revert ys. induction Hx as [|x xs Hl Hx IH]; intros [|y ys] Hy E; cbn in E; [done|..].
  - apply Forall_cons in Hy as [Hy _]. apply (f_equal length) in E. rewrite length_app in E. cbn in E. lia.
  - apply (f_equal length) in E. rewrite length_app in E. cbn in E. lia.
  - apply Forall_cons in Hy as [Hl' Hy]. apply app_inj_len in E as [-> E]; [|congruence]. by rewrite (IH ys).
Qed.
Lemma finalize_chunks cfg ops sid now m : let e := fold_left stream_step ops (new_entity_stream cfg) in (finalize_stream e sid now).1 = Some m ->
  exists cs, all_chunks (chunks_of e sid) = Some cs /\ sm_stream_id m = sid /\ sm_chunk_entity_ids m = map ck_chunk_entity_id cs /\
    sm_stream_entity_id m = chash_str (aggregate_input sid (sm_chunk_entity_ids m)) /\ reassemble_stream e sid = Some (concat (map ck_data cs)) /\
    forall i c, cs !! i = Some c -> ck_chunk_entity_id c = chash_str (sid ++ be_encode 4 (Z.of_nat i) ++ ck_data c).
Proof.
  cbn zeta. pose proof (stream_run_sound cfg ops) as Hs. set (e := fold_left _ _ _) in *. clearbody e. unfold finalize_stream. destruct (dict_find _ sid) as [s|]; [|done]. destruct (negb _); [done|].
  unfold reassemble_stream. destruct (all_chunks (chunks_of e sid)) as [cs|] eqn:Ea; [|done]. cbn [fst]. intros [= <-]. exists cs. split_and!; try done. intros i c Hc.
  assert (chunks_of e sid !! i = Some (Some c)) as Hl.
  { unfold all_chunks in Ea. destruct (chunks_of e sid) as [|x xs]; [done|]. apply mapM_Some_1 in Ea. by destruct (Forall2_lookup_r _ _ _ _ _ Ea Hc) as (y & -> & ->). }
  destruct (Hs sid i c Hl) as (_ & _ & Hid). unfold chunk_id in Hid. destruct (int_to_bytes 4 (Z.of_nat i)) as [b|] eqn:Eb; [|done]. apply int_to_bytes_Ok in Eb as [_ ->].
  cbn [mbind result_bind] in Hid. by injection Hid as <-.
Qed.

(** A manifest binds the content: two streams of any two managers, with ids
    of one length, whose finalization gives one aggregate identifier have the
    same id, the same chunks and the same content, unless two of the hashed
    strings collide. *)
Theorem manifest_binds cfg1 ops1 cfg2 ops2 sid1 sid2 now1 now2 m1 m2 :
  let e1 := fold_left stream_step ops1 (new_entity_stream cfg1) in let e2 := fold_left stream_step ops2 (new_entity_stream cfg2) in
  (finalize_stream e1 sid1 now1).1 = Some m1 -> (finalize_stream e2 sid2 now2).1 = Some m2 -> length sid1 = length sid2 ->
  sm_stream_entity_id m1 = sm_stream_entity_id m2 ->
  exists datas1 datas2, reassemble_stream e1 sid1 = Some (concat datas1) /\ reassemble_stream e2 sid2 = Some (concat datas2) /\
    (collision_free (manifest_inputs m1 datas1 ++ manifest_inputs m2 datas2) -> sid1 = sid2 /\ sm_chunk_entity_ids m1 = sm_chunk_entity_ids m2 /\ datas1 = datas2).
Proof.
  cbn zeta. intros F1 F2 Hlen E. destruct (finalize_chunks cfg1 ops1 sid1 now1 m1 F1) as (cs1 & _ & I1 & J1 & K1 & R1 & C1).
  destruct (finalize_chunks cfg2 ops2 sid2 now2 m2 F2) as (cs2 & _ & I2 & J2 & K2 & R2 & C2). exists (map ck_data cs1), (map ck_data cs2). split; [exact R1|]. split; [exact R2|]. intros Hcf.
  rewrite K1, K2 in E. apply chash_str_inj in E. unfold manifest_inputs in Hcf. rewrite I1, I2 in Hcf.
  apply Hcf in E; [|by left|apply elem_of_app; right; by left]. unfold aggregate_input in E. apply app_inj_len in E as [<- E]; [|done].
  assert (forall cs, (forall i c, cs !! i = Some c -> ck_chunk_entity_id c = chash_str (sid1 ++ be_encode 4 (Z.of_nat i) ++ ck_data c)) ->
    Forall (fun x : pystr => length x = length (chash_str [])) (map ck_chunk_entity_id cs)) as Hf.
  { intros cs Hc. apply Forall_lookup. intros i x Hx. rewrite lookup_map in Hx. destruct (cs !! i) as [c|] eqn:Ei; [|done]. injection Hx as <-. rewrite (Hc i c Ei). apply chash_str_len. }
  assert (map ck_chunk_entity_id cs1 = map ck_chunk_entity_id cs2) as Eids.
  { rewrite J1, J2 in E. apply (concat_hashes_inj (length (chash_str []))); [unfold chash_str; rewrite !length_app; cbn; lia|by apply Hf|by apply Hf|done]. }
  split; [done|]. split; [by rewrite J1, J2|]. apply list_eq. intros i. pose proof (f_equal (lookup i) Eids) as Ei. rewrite !lookup_map in Ei |- *.
  destruct (cs1 !! i) as [c1|] eqn:E1, (cs2 !! i) as [c2|] eqn:E2; cbn in Ei |- *; [|done..]. injection Ei as Ei. rewrite (C1 i c1 E1), (C2 i c2 E2) in Ei. apply chash_str_inj in Ei.
  f_equal. apply Hcf in Ei.
  - by apply app_inv_head, app_inv_head in Ei.
  - apply elem_of_app. left. right. apply list_elem_of_lookup. exists i. rewrite list_lookup_imap, lookup_map, E1. done.
  - apply elem_of_app. right. right. apply list_elem_of_lookup. exists i. rewrite list_lookup_imap, lookup_map, E2. done.
Qed.

(** ** The life cycle *)
Definition state_rank (s : StreamState) : Z := match s with OPEN => 0 | CLOSED => 1 | FINALIZED => 2 | FAILED => 3 end.
Definition frozen (e e' : EntityStream) (id : pystr) : Prop := forall s, dict_find (es_streams e) id = Some s -> si_state s <> OPEN ->
  exists s', dict_find (es_streams e') id = Some s' /\ state_rank (si_state s) <= state_rank (si_state s') <= 2 `max` state_rank (si_state s) /\ si_total_bytes s' = si_total_bytes s /\
    reassemble_stream e' id = reassemble_stream e id /\
    map (option_map ck_chunk_entity_id) (chunks_of e' id) = map (option_map ck_chunk_entity_id) (chunks_of e id).
Lemma frozen_same e e' id : es_streams e' = es_streams e -> es_chunks e' = es_chunks e -> frozen e e' id.
Proof. intros E1 E2 s Hs Ho. exists s. unfold reassemble_stream, chunks_of. rewrite E1, E2. split_and!; try done; lia. Qed.
Lemma frozen_other e id info cs id' : id <> id' -> frozen e (put_stream e id info cs) id'.
Proof. intros Hne s Hs Ho. exists s. unfold reassemble_stream. rewrite chunks_of_put, decide_False by done. cbn [put_stream es_streams]. rewrite dict_find_set, decide_False by done. split_and!; try done; lia. Qed.
Lemma frozen_info e id s s1 id' : dict_find (es_streams e) id = Some s -> state_rank (si_state s) <= state_rank (si_state s1) <= 2 -> si_total_bytes s1 = si_total_bytes s ->
  frozen e (put_info e id s1) id'.
Proof.
  intros Hd Hr Ht s' Hs Ho. cbn [put_info es_streams]. rewrite dict_find_set. destruct (decide (id = id')) as [<-|].
  - exists s1. assert (s' = s) as -> by congruence. split_and!; try done; lia.
  - exists s'. split_and!; try done; lia.
Qed.
Lemma stream_step_frozen e o id : ~ opens o id -> frozen e (stream_step e o) id.
Proof.
  intros Hno. destruct o; cbn [stream_step].
  - unfold open_stream in *. cbn [snd opens fst] in *. by apply frozen_other.
  - destruct (add_chunk e id0 data sequence) as [[c e']|] eqn:Ea; [|by apply frozen_same]. unfold add_chunk in Ea. destruct (dict_find (es_streams e) id0) as [s|] eqn:Ed; [|done].
    case_bool_decide as Ho; [|done]. cbn [negb] in Ea. destruct (_ <=? _); [done|]. destruct (chunk_id _ _ _); [|done]. cbn [mbind result_bind] in Ea. injection Ea as _ <-.
    destruct (decide (id0 = id)) as [->|Hne]; [|by apply frozen_other]. intros s' Hs' Hno'. congruence.
  - destruct (mark_chunk_committed e id0 sequence epoch) as [[b e']|] eqn:Em; [|by apply frozen_same]. unfold mark_chunk_committed in Em. destruct (dict_find (es_chunks e) id0) as [cs|] eqn:Ed; [|by injection Em as _ <-; apply frozen_same].
    destruct (_ <=? _); [by injection Em as _ <-; apply frozen_same|]. destruct (list_index cs sequence) as [n|]; [|done]. destruct (cs !! n) as [[c|]|] eqn:En; injection Em as _ <-; [|by apply frozen_same..].
    intros s Hs Ho. exists s. split; [done|]. split; [lia|]. split; [done|]. unfold reassemble_stream, chunks_of. cbn [es_chunks]. rewrite dict_find_set. destruct (decide (id0 = id)) as [<-|]; [|done].
    cbn [from_option Datatypes.id]. rewrite Ed. cbn [from_option Datatypes.id]. assert (forall (A : Type) (f : option StreamChunk -> A), f (Some (commit_chunk c epoch)) = f (Some c) -> map f (<[n := Some (commit_chunk c epoch)]> cs) = map f cs) as Hmap.
    { intros A f Hf. apply list_eq. intros i. rewrite !lookup_map. destruct (decide (i = n)) as [->|]; [|by rewrite list_lookup_insert_ne].
      rewrite list_lookup_insert_eq, En by (by eapply lookup_lt_Some). cbn. by rewrite Hf. }
    split; [|by apply Hmap]. clear -Hmap En.
    assert (forall xs, (fun cs => concat (map ck_data cs)) <$> all_chunks xs = match xs with [] => None | _ => (concat (A := Z)) <$> mapM (fun x => x) (map (option_map ck_data) xs) end) as Hall.
    { intros [|x xs]; [done|]. unfold all_chunks. generalize (x :: xs). clear. intros l. assert (mapM (fun x => x) (map (option_map ck_data) l) = map ck_data <$> mapM (fun c : option StreamChunk => c) l) as ->.
      { induction l as [|[c|] l IH]; [done| |done]. cbn. rewrite IH. by destruct (mapM _ l). } by destruct (mapM _ l). }
    rewrite !Hall, Hmap by done. destruct cs; [done|]. by destruct n.
  - unfold close_stream. destruct (dict_find (es_streams e) id0) as [s|] eqn:Ed; [|by apply frozen_same]. case_bool_decide as Ho; [|by apply frozen_same].
    eapply frozen_info; [exact Ed|cbn; rewrite Ho; cbn; lia|done].
  - unfold finalize_stream. destruct (dict_find (es_streams e) id0) as [s|] eqn:Ed; [|by apply frozen_same]. case_bool_decide as Ho; cbn [negb]; [|by apply frozen_same].
    destruct (all_chunks _); [|by apply frozen_same]. eapply frozen_info; [exact Ed| |done]. cbn. apply elem_of_cons in Ho as [-> |Ho]; [cbn; lia|]. apply list_elem_of_singleton in Ho as ->. cbn. lia.
Qed.

(** Once a stream is closed or finalized its content is fixed: whatever is
    done to the manager, other than opening a stream under the same id, the
    state only moves forward, and size, chunk identifiers and reassembled
    content stay what they are. *)
Theorem stream_frozen e ops id s : dict_find (es_streams e) id = Some s -> si_state s <> OPEN -> (forall o, o ∈ ops -> ~ opens o id) ->
  let e' := fold_left stream_step ops e in
  exists s', dict_find (es_streams e') id = Some s' /\ state_rank (si_state s) <= state_rank (si_state s') <= 2 `max` state_rank (si_state s) /\ si_total_bytes s' = si_total_bytes s /\
    reassemble_stream e' id = reassemble_stream e id /\ map (option_map ck_chunk_entity_id) (chunks_of e' id) = map (option_map ck_chunk_entity_id) (chunks_of e id).
Proof.
  revert e s. induction ops as [|o ops IH]; intros e s Hs Ho Hno; cbn zeta.
  - exists s. split_and!; try done; lia.
  - cbn [fold_left]. destruct (stream_step_frozen e o id (Hno o ltac:(by left)) s Hs Ho) as (s1 & E1 & R1 & T1 & A1 & I1).
    destruct (IH (stream_step e o) s1 E1) as (s' & E' & R' & T' & A' & I').
    + intros E. rewrite E in R1. destruct (si_state s); cbn in R1; try lia. done.
    + intros o' Hin. apply Hno. by right.
    + exists s'. split_and!; try congruence; lia.
Qed.
End Theorems.

(** * Witnesses and examples *)
Definition small_config : StreamConfig :=
  {| sc_chunk_size_bytes := 4; sc_max_concurrent_chunks := 4; sc_pipeline_enabled := true; sc_max_chunks_per_stream := 10; sc_stream_timeout_epochs := 720 |}.
Definition demo_open : stream_op := SOpen (lit "s") (lit "text") 0 f64_one f64_one 7.
Definition demo_sid : pystr := (open_stream (new_entity_stream small_config) (lit "s") (lit "text") 0 f64_one f64_one 7).1.
Definition demo_stream_ops : list stream_op :=
  [demo_open; SAdd demo_sid (lit "cd") (Some 1); SAdd demo_sid (lit "ab") (Some 0); SMark demo_sid 1 5; SClose demo_sid].
Definition demo_streams : EntityStream := fold_left stream_step demo_stream_ops (new_entity_stream small_config).
Lemma stream_reassembles_witness : exists e,
  add_all (open_stream (new_entity_stream small_config) (lit "s") (lit "text") 0 f64_one f64_one 7).2 demo_sid [(1%nat, lit "cd"); (0%nat, lit "ab")] = Ok e /\
  reassemble_stream e demo_sid = Some (lit "abcd").
Proof.
  destruct (stream_reassembles small_config (lit "s") (lit "text") 0 f64_one f64_one 7 [lit "ab"; lit "cd"] [(1%nat, lit "cd"); (0%nat, lit "ab")] f64_one) as (e & E & R & _);
    [done|apply perm_swap|cbn; lia|cbn; lia|]. exists e. split; [exact E|exact R].
Defined.
Lemma manifest_binds_witness :
  let e := fold_left stream_step demo_stream_ops (new_entity_stream small_config) in
  exists m datas, (finalize_stream e demo_sid f64_one).1 = Some m /\ reassemble_stream e demo_sid = Some (concat datas).
Proof.
  cbn zeta. assert (is_Some (finalize_stream (fold_left stream_step demo_stream_ops (new_entity_stream small_config)) demo_sid f64_one).1) as [m E].
  { destruct ((finalize_stream (fold_left stream_step demo_stream_ops (new_entity_stream small_config)) demo_sid f64_one).1) eqn:E; [by eexists|].
    vm_compute in E. discriminate E. }
  destruct (manifest_binds small_config demo_stream_ops small_config demo_stream_ops demo_sid demo_sid f64_one f64_one m m E E eq_refl eq_refl) as (d & _ & Hd & _).
  exists m, d. exact (conj E Hd).
Defined.
Lemma stream_frozen_witness : reassemble_stream (fold_left stream_step [SAdd demo_sid (lit "xx") (Some 0); SFinalize demo_sid f64_one] demo_streams) demo_sid = reassemble_stream demo_streams demo_sid.
Proof.
  assert (si_state <$> dict_find (es_streams demo_streams) demo_sid = Some CLOSED) as Hst by (vm_compute; reflexivity).
  destruct (dict_find (es_streams demo_streams) demo_sid) as [s|] eqn:E; [|discriminate Hst].
  destruct (stream_frozen demo_streams [SAdd demo_sid (lit "xx") (Some 0); SFinalize demo_sid f64_one] demo_sid s E) as (s' & _ & _ & _ & R & _);
    [intros Ho; cbn in Hst; congruence| |exact R].
  intros o Ho. apply elem_of_cons in Ho as [->|Ho]; [exact (fun x => x)|]. apply list_elem_of_singleton in Ho as ->. exact (fun x => x).
Defined.

Definition streams_after (ops : list stream_op) : EntityStream := fold_left stream_step ops (new_entity_stream small_config).
(** A chunk sent again replaces the first one and is counted twice: the size
    in the manifest is not the size of the content. *)
Example resent_chunk_counts_twice :
  let e := streams_after [demo_open; SAdd demo_sid (lit "ab") (Some 0); SAdd demo_sid (lit "ab") (Some 0)] in
  (sm_total_size <$> (finalize_stream e demo_sid f64_one).1) = Some 4 /\ (len <$> reassemble_stream e demo_sid) = Some 2.
Proof. by vm_compute. Qed.
(** Finalizing does not require closing first. *)
Example open_stream_finalized :
  get_stream_state (streams_after [demo_open; SAdd demo_sid (lit "ab") None; SFinalize demo_sid f64_one]) demo_sid = Some FINALIZED.
Proof. by vm_compute. Qed.
(** A negative position addresses the chunks from the end. *)
Example negative_position :
  (option_map ck_sequence <$> get_chunk demo_streams demo_sid (-1)) = Ok (Some 1) /\ get_chunk demo_streams demo_sid (-3) = Err IndexError.
Proof. by vm_compute. Qed.
(** Opening again within one reading of the clock gives the same id and
    drops the chunks already received. *)
Example same_tick_wipes :
  get_chunk (streams_after [demo_open; SAdd demo_sid (lit "ab") None; demo_open]) demo_sid 0 = Ok None.
Proof. by vm_compute. Qed.
